(* ===== verification/_CoqProject ===== *)
-Q . S2P
Prelude.v
Sorted.v
Codec.v
EntryFormat.v
Records.v
KvEntry.v
KvPages.v
FileIo.v
HotTail.v
FileHeader.v
VoidManager.v
AppendWriter.v
EntryScanner.v
KvExpand.v
Converters.v
Nvt.v
NvtMask.v
KvStore.v
StateM.v
BTreeNode.v
BTree.v
BTreeSpec.v
BTreeRefine.v
BTreeInsert.v
BTreeOps.v
BTreeTop.v
BTreeBuild.v
BTreeMem.v
KvSnapshot.v
VoidRanges.v
DiskKv.v
DiskKvHalts.v
DiskKvPages.v
DiskKvSpec.v
DiskKvRefine.v
DiskKvLoad.v
DiskKvOpen.v
DiskKvExpand.v
DiskKvEdge.v
Paths.v
SymlinkResolver.v
Permissions.v
ApiKeyRules.v
StorageEngine.v
EngineContent.v
EngineWrites.v
EngineSpec.v
EngineStore.v
EngineOps.v
EngineBatch.v
EngineReads.v
EngineRefine.v
OpTracker.v
EngineChunks.v
EngineApi.v
EngineMem.v
EngineImpl.v
Files.v
Directories.v
Versions.v
VersionsFormat.v
VersionTable.v
DirectoriesSpec.v
FilesSpec.v
VersionsSpec.v
VersionsPrune.v
Rebuild.v
RebuildSpec.v
TreeDiff.v
TreeWalk.v
Merge.v
MergeSpec.v
MergePatch.v
FileOps.v
FileOpsSpec.v
Gc.v
GcSweep.v
GcMark.v
GcSafe.v
RateLimiter.v
