(* ===== verification/Prelude.v ===== *)
(** * AeorDB: the storage core and access control of a content-addressed file database

    AeorDB keeps a whole database in one file: two header slots, a hash index
    (the KV block), an append-only log of entries, and a hot tail with the index
    entries that are not yet in the KV block.  On top of the log live records
    (files, directories, symlinks, deletions), paths, and access control.  This
    library models the Rust sources under src/aeordb-lib/src/engine/ as pure
    functions over byte lists and records, and proves what makes them correct.

    ** Conventions

    A byte is [Init.Byte.byte], a string its UTF-8 bytes, a machine integer a
    [Z] with its width stated as a predicate ([is_u32], [is_i64], ...) and its
    wrap-around written out ([wrap64], [mod 2^16]).  A fallible function returns
    [res]: a value, an [EngineError], or [Panic] for a Rust panic (index out of
    range, failed [unwrap]).  Messages are kept as their format templates.  A
    mutable object is passed in and returned.  The file is a byte list;
    synchronisation calls change no byte and are where a crash may happen.
    Loops that are not structural take fuel and return an [option]; every such
    function has a theorem that the fuel used is enough, or one that no fuel is.

    Code outside the repository is a parameter: CRC-32 (class [Crc32]), BLAKE3
    (class [Blake3]), glob matching, JSON decoding, and the [f64] scaling of
    converters other than the hash converter (class [ToScalar]).  The witnesses
    instantiate each of them with a concrete function.  Parts of the repository
    that are not modelled yet are reached through interface classes:
    [DirectoryReads] and [PermissionStore].

    ** Files

    - Prelude: bytes, little-endian integers, UTF-8, errors, results, slices,
      the lexicographic order of hashes.
    - Codec (binary_utils.rs): the bounds-checked readers.
    - EntryFormat (entry_type.rs, hash_algorithm.rs, compression.rs,
      entry_header.rs): the entry header; its codec is exact in both directions.
    - Records (deletion_record.rs, directory_entry.rs, file_record.rs,
      symlink_record.rs): record codecs round-trip, and decoding never panics.
    - KvEntry, KvPages (kv_store.rs, kv_stages.rs, kv_pages.rs): index entries
      and bucket pages: round trip, lookup in raw bytes equals decoding and
      searching, upsert refines map insertion.
    - FileIo: reading and writing spans of a file.
    - HotTail (hot_tail.rs), FileHeader (file_header.rs): the tail and the A/B
      header slots; a torn header update leaves the old header active.
    - VoidManager (void_manager.rs): free space: best fit, consistency of the
      two indexes, no double allocation.
    - AppendWriter (append_writer.rs): appending refines extension of an
      abstract log; the last committed header survives every interleaving of
      commits, appends and crashes (step relation [hdr_step]).
    - EntryScanner (entry_scanner.rs): scanning returns the log; the rebuild
      scan terminates on any bytes.
    - KvExpand (kv_expand.rs): expansion of the KV block relocates the log.
    - Converters, Nvt, NvtMask (scalar_converter.rs, nvt.rs, nvt_ops.rs): the
      vector table and the bit masks over its buckets.
    - KvStore (kv_store.rs, kv_resize.rs): the in-memory store refines a finite
      map, also while a resize buffers its writes.
    - Paths (path_utils.rs), SymlinkResolver (symlink_resolver.rs): canonical
      paths; resolution terminates and detects cycles.
    - Permissions (permissions.rs, permission_resolver.rs, grants_index.rs),
      ApiKeyRules (api_key_rules.rs): who may do what where.
    - KvSnapshot (kv_snapshot.rs): the view readers share: lookup, enumeration,
      counts by type.
    - Sorted: slice::binary_search_by, a stable sort and chunks, for the stores
      that keep sorted vectors.
    - BTreeNode, BTree (btree.rs): the nodes of a large directory and the
      copy-on-write operations on them.  The engine below is the interface class
      [NodeStore]; BTreeSpec states its laws ([NodeStoreLaws]: an append-only log
      of content-addressed entries and the view it determines) and the relation
      [tree_at] between stored nodes and a sorted list of children.  Roots are
      content hashes, so the theorems about later states assume that no two
      entries of the log collide ([no_collision]).  BTreeRefine, BTreeInsert,
      BTreeOps prove the operations against the relation; BTreeTop states them on
      directories as finite maps; BTreeBuild treats bulk construction, including
      the sizes for which it fails; BTreeMem is an in-memory instance of the laws.
    - StateM: the monad of the methods that mutate a store, with rules for total
      correctness ([runs]) and termination ([halts]).
    - VoidRanges, DiskKv (disk_kv_store.rs): the index in the database file.
      DiskKvHalts: [flush] terminates.  DiskKvPages, DiskKvSpec: what a flush
      does to pages, buffer, hot tail and snapshot; the invariant [dk_ok].
      DiskKvRefine, DiskKvOpen: sequences of operations refine a finite map,
      leave the log alone, and survive closing and opening.  DiskKvExpand: the
      expansion of the block.  DiskKvEdge: the last stage, transactions, counts.
      DiskKvLoad: below capacity an insertion asks for no expansion.
    - StorageEngine (storage_engine.rs): log, index and free space composed over
      one file: the writer's bytes are the file's, an index operation runs on them
      ([on_kv]).  Locks make an operation atomic, so it is a function on the state.
      EngineContent says which bytes of the log the live index entries stand for;
      EngineWrites, EngineSpec, EngineStore, EngineOps, EngineBatch carry the
      invariant [engine_ok] through the parts of every operation; EngineRefine
      proves that any sequence of operations refines a map from hashes to stored
      entries, that reclaimed space is reused safely, and what is refused.
      EngineChunks: chunks read one by one or from one span.  EngineReads: what
      the reads answer.
    - EngineApi, EngineImpl, EngineMem: the class [Engine] of the operations that
      directories, files and versions use, the class [EngineLaws] of what they
      promise, the storage engine as an instance of both, and an in-memory instance
      for concrete runs.
    - Files (directory_ops.rs, content_type.rs): keys, chunks, streams and the
      publication of a file record.  Directories (directory_ops.rs): the tree of
      directories, its links by path and their repair.  FileOps (directory_ops.rs):
      storing, deleting, restoring, migrating, renaming and copying files,
      directories and symlinks, and merging into a JSON document.
    - DirectoriesSpec: a store that holds a tree of directories ([dirs_ok], each a
      list of at most 255 children), and what adding a child does to it.  FilesSpec:
      a store that holds a file ([holds_file]) and the reads of it.  FileOpsSpec: a
      stored file reads back and is listed, and the rest of the tree stays.  Keys
      are hashes, so these theorems name the inputs that are hashed and assume that
      no two of them collide ([collision_free]).
    - Versions (version_manager.rs, lifecycle_config.rs): snapshots, forks and
      retention.  VersionsFormat: their byte formats read back.  VersionTable:
      entries of one kind in the store as a finite map by name.  VersionsSpec: the
      operations refine an abstract store of versions.  VersionsPrune: what pruning
      deletes.
    - OpTracker: the threads inside the engine and its shutdown, as a step
      relation.
    - Rebuild, RebuildSpec: opening a file and rebuilding the index from the log.
    - TreeWalk, TreeDiff (tree_walker.rs), Merge, MergeSpec (merge.rs): the tree of a
      version, diffs of such trees and the three-way merge; two nodes that merge each
      other converge.
    - Gc (gc.rs): marking, sweeping and a collection.  GcSweep: a sweep removes exactly
      what is not kept, and its space becomes free.  GcMark: what is reachable from the
      versions and system tables ([reach]), and marking collects it.  GcSafe: the two
      together: versions, files and names read after a collection as before.  The
      walk skips hashes that are marked already, so the theorem asks that no key that is
      only marked is the hash of an entry to follow ([fo_apart]), and that everything
      reached is there and decodes ([fo_node]).
    - MergePatch (merge_patch.rs): JSON merge patch with a depth limit; RFC 7396
      when unlimited.
    - RateLimiter (auth/rate_limiter.rs): the sliding window equals a reference
      that forgets nothing.

    ** Fuel

    [resolve_loop] runs at most 33 rounds because of the depth guard.  The scan
    loops take one unit per round; each round of the rebuild scan advances by a
    byte or more ([rebuild_scan_terminates]).  The copy and fill loops of
    AppendWriter and KvExpand take one unit per chunk.
    [flush] recurses once per stage gained and there are ten stages, so eleven
    units are enough from every state ([flush_terminates]).
    The B-tree operations take one unit per level; any fuel that is at least the
    height of the tree is enough ([btree_insert_refines] and the others).
    The loop that looks for reusable free space takes the needed bytes out of the
    free space in every round, so the total divided by them is enough
    ([find_reusable_spec]).
    [store_data_chunks] takes a byte or more in every round, so the length of the
    data plus one is enough ([store_chunks_ok]).  [copy_path] takes a unit per level
    of directories; without enough of them it has no result.
    Marking takes a unit of [depth] per level; more units than there are entries are
    enough, since every level marks a new one ([gc_mark_ok]).

    ** Not modelled

    The storage engine's locks, emergency spill and statistics; the theorems on
    the engine as a whole stop at the first expansion of the index (the expansion
    itself is modelled, and DiskKvExpand proves its index part).  Of the directory
    operations, those that index, write batches or rebuild the whole tree; the
    theorems on the tree are for directories below the size at which they become
    B-trees, and deleting, renaming and copying are modelled without theorems.
    Queries and indexing (which need [f64] scalars and JSON values), the statistics a
    garbage collection recounts, backup, replication, background tasks, media parsers, the HTTP server, tokens,
    plugins and the command line.  [NormalizedVectorTable::resize] and the
    scaling of converters other than the hash converter need [f64] arithmetic. *)
From stdpp Require Export base gmap list strings sorting.
From Stdlib Require Export ZArith Lia.
From Stdlib Require Import Strings.Byte.

(** ** Bytes and machine integers *)

Abbreviation byte := Init.Byte.byte.
Abbreviation bytes := (list byte).

Local Open Scope Z_scope.

Definition b2z (b : byte) : Z := Z.of_N (Byte.to_N b).

Definition z2b (z : Z) : byte :=
  match Byte.of_N (Z.to_N (z mod 256)) with
  | Some b => b
  | None => Byte.x00
  end.

#[export] Instance byte_eq_dec : EqDecision byte := Byte.byte_eq_dec.

#[export] Instance byte_countable : Countable byte :=
  inj_countable Byte.to_N Byte.of_N Byte.of_to_N.

(** Rust strings are UTF-8 byte sequences; a literal is its bytes. *)
Definition lit (s : string) : bytes := String.list_byte_of_string s.

(** Lengths and offsets are [usize] in the source; they are kept in [Z] so that
    a length field read from a file is compared before it is used. *)
Definition zlen {A} (l : list A) : Z := Z.of_nat (length l).

(** [&l[a..b]] once its bounds are known to hold. *)
Definition slice {A} (l : list A) (a b : Z) : list A :=
  take (Z.to_nat (b - a)) (drop (Z.to_nat a) l).

(** [n.to_le_bytes()] for an integer of [n] bytes, and its inverse. *)
Fixpoint le_bytes (n : nat) (z : Z) : bytes :=
  match n with
  | O => []
  | S n => z2b z :: le_bytes n (z / 256)
  end.

Fixpoint le_val (l : bytes) : Z :=
  match l with
  | [] => 0
  | b :: l => b2z b + 256 * le_val l
  end.

Abbreviation u8_max := (2^8 - 1).
Abbreviation u16_max := (2^16 - 1).
Abbreviation u32_max := (2^32 - 1).
Abbreviation u64_max := (2^64 - 1).

Definition is_u8 (z : Z) : Prop := 0 <= z < 2^8.
Definition is_u16 (z : Z) : Prop := 0 <= z < 2^16.
Definition is_u32 (z : Z) : Prop := 0 <= z < 2^32.
Definition is_u64 (z : Z) : Prop := 0 <= z < 2^64.
Definition is_i64 (z : Z) : Prop := - 2^63 <= z < 2^63.

(** Two's complement: the bits of an [i64], and the [i64] of 64 bits. *)
Definition i64_bits (z : Z) : Z := z mod 2^64.
Definition i64_of_bits (u : Z) : Z := if u <? 2^63 then u else u - 2^64.

Definition u16_le (z : Z) : bytes := le_bytes 2 z.
Definition u32_le (z : Z) : bytes := le_bytes 4 z.
Definition u64_le (z : Z) : bytes := le_bytes 8 z.
Definition i64_le (z : Z) : bytes := le_bytes 8 (i64_bits z).

(** Arithmetic of a release build on [u64]/[usize]. *)
Definition wrap64 (z : Z) : Z := z mod 2^64.
Definition saturating_sub (a b : Z) : Z := Z.max 0 (a - b).

(** ** UTF-8 validity, as [String::from_utf8] decides it *)

Definition in_range (lo hi : Z) (b : byte) : bool := (lo <=? b2z b) && (b2z b <=? hi).
Definition cont (b : byte) : bool := in_range 0x80 0xBF b.

Fixpoint utf8_valid (l : bytes) : bool :=
  match l with
  | [] => true
  | b0 :: l1 =>
    if in_range 0 0x7F b0 then utf8_valid l1 else
    match l1 with
    | [] => false
    | b1 :: l2 =>
      if in_range 0xC2 0xDF b0 then cont b1 && utf8_valid l2 else
      match l2 with
      | [] => false
      | b2 :: l3 =>
        if in_range 0xE0 0xE0 b0 then in_range 0xA0 0xBF b1 && cont b2 && utf8_valid l3 else
        if in_range 0xE1 0xEC b0 then cont b1 && cont b2 && utf8_valid l3 else
        if in_range 0xED 0xED b0 then in_range 0x80 0x9F b1 && cont b2 && utf8_valid l3 else
        if in_range 0xEE 0xEF b0 then cont b1 && cont b2 && utf8_valid l3 else
        match l3 with
        | [] => false
        | b3 :: l4 =>
          if in_range 0xF0 0xF0 b0 then in_range 0x90 0xBF b1 && cont b2 && cont b3 && utf8_valid l4 else
          if in_range 0xF1 0xF3 b0 then cont b1 && cont b2 && cont b3 && utf8_valid l4 else
          if in_range 0xF4 0xF4 b0 then in_range 0x80 0x8F b1 && cont b2 && cont b3 && utf8_valid l4 else
          false
        end
      end
    end
  end.

(** ** Errors and results *)

(** [EngineError]: the text of a message is kept as its format template, the
    values interpolated into it are dropped. *)
Inductive EngineError :=
| IoError
| InvalidMagic
| InvalidEntryVersion (v : Z)
| InvalidEntryType (v : Z)
| InvalidHashAlgorithm (v : Z)
| CorruptEntry (offset : Z) (reason : string)
| UnexpectedEof
| NotFound (what : string)
| AlreadyExists (what : string)
| RangeQueryNotSupported (name : string)
| JsonParseError (reason : string)
| ReservedUserId
| UnsafeQueryField (field : string)
| PatchDatabase (msg : string)
| InvalidInput (msg : string)
| SnapshotWritesDisabled
| DurabilityFailure (msg : string)
| ShuttingDown
| CyclicSymlink (message : list bytes)
| SymlinkDepthExceeded (message : string).

(** The outcome of a fallible function: a value, an [Err], or a Rust panic
    (index out of range, failed [unwrap]). *)
Inductive res (A : Type) :=
| Ok (a : A)
| Err (e : EngineError)
| Panic.
Arguments Ok {A} a.
Arguments Err {A} e.
Arguments Panic {A}.

#[export] Instance res_ret : MRet res := fun A a => Ok a.
#[export] Instance res_bind : MBind res := fun A B f r =>
  match r with Ok a => f a | Err e => Err e | Panic => Panic end.

Definition ok_or {A} (o : option A) (e : EngineError) : res A :=
  match o with Some a => Ok a | None => Err e end.

Definition is_ok {A} (r : res A) : bool := match r with Ok _ => true | _ => false end.

(** Indexing and slicing that panic out of range. *)
Definition index {A} (l : list A) (i : Z) : res A :=
  if (0 <=? i) && (i <? zlen l)
  then match l !! Z.to_nat i with Some x => Ok x | None => Panic end
  else Panic.

Definition slice_chk {A} (l : list A) (a b : Z) : res (list A) :=
  if (0 <=? a) && (a <=? b) && (b <=? zlen l) then Ok (slice l a b) else Panic.

(** ** Lemmas on bytes and little-endian integers *)

Lemma b2z_range b : 0 <= b2z b < 256.
Proof.
  unfold b2z. pose proof (Byte.to_N_bounded b). lia.
Qed.

Lemma b2z_z2b z : b2z (z2b z) = z mod 256.
Proof.
  unfold b2z, z2b.
  pose proof (Z.mod_pos_bound z 256 ltac:(lia)) as Hz.
  destruct (Byte.of_N (Z.to_N (z mod 256))) as [b|] eqn:E.
  - apply Byte.to_of_N in E. rewrite E. lia.
  - apply Byte.of_N_None_iff in E. lia.
Qed.

Lemma b2z_inj a b : b2z a = b2z b -> a = b.
Proof.
  unfold b2z. intros H%N2Z.inj.
  pose proof (Byte.of_to_N a). pose proof (Byte.of_to_N b). congruence.
Qed.

Lemma z2b_b2z b : z2b (b2z b) = b.
Proof. apply b2z_inj. rewrite b2z_z2b. apply Z.mod_small, b2z_range. Qed.

Lemma length_le_bytes n z : length (le_bytes n z) = n.
Proof. revert z. induction n; intros; simpl; auto. Qed.

Lemma le_val_range l : 0 <= le_val l < 256 ^ zlen l.
Proof.
  unfold zlen. induction l as [|b l IH]; [simpl; lia|].
  cbn [le_val length]. pose proof (b2z_range b).
  rewrite Nat2Z.inj_succ, Z.pow_succ_r by lia. lia.
Qed.

Lemma le_val_le_bytes n z : le_val (le_bytes n z) = z mod 256 ^ Z.of_nat n.
Proof.
  revert z. induction n as [|n IH]; intros z.
  - simpl. by rewrite Z.mod_1_r.
  - cbn [le_bytes le_val]. rewrite b2z_z2b, IH.
    rewrite Nat2Z.inj_succ, Z.pow_succ_r by lia.
    rewrite Z.rem_mul_r by lia. lia.
Qed.

Lemma le_bytes_le_val l : le_bytes (length l) (le_val l) = l.
Proof.
  induction l as [|b l IH]; [done|]. cbn [length le_bytes le_val].
  pose proof (b2z_range b). f_equal.
  - apply b2z_inj. rewrite b2z_z2b.
    rewrite Z.mul_comm, Z.mod_add by lia. by apply Z.mod_small.
  - rewrite Z.mul_comm, Z.div_add by lia. by rewrite Z.div_small.
Qed.

Lemma le_val_small n z : 0 <= z < 256 ^ Z.of_nat n -> le_val (le_bytes n z) = z.
Proof. intros. rewrite le_val_le_bytes. by apply Z.mod_small. Qed.

Lemma i64_bits_range z : is_u64 (i64_bits z).
Proof. apply Z.mod_pos_bound. lia. Qed.

Lemma i64_of_bits_bits z : is_i64 z -> i64_of_bits (i64_bits z) = z.
Proof.
  unfold is_i64, i64_of_bits, i64_bits. intros Hz.
  destruct (Z.ltb_spec z 0).
  - replace (z mod 2^64) with (z + 2^64).
    + destruct (Z.ltb_spec (z + 2^64) (2^63)); lia.
    + apply (Z.mod_unique z (2^64) (-1)); lia.
  - rewrite Z.mod_small by lia. destruct (Z.ltb_spec z (2^63)); lia.
Qed.

Lemma i64_of_bits_range u : is_u64 u -> is_i64 (i64_of_bits u).
Proof.
  unfold is_u64, is_i64, i64_of_bits. intros.
  destruct (Z.ltb_spec u (2^63)); lia.
Qed.

Lemma zlen_nonneg {A} (l : list A) : 0 <= zlen l.
Proof. unfold zlen. lia. Qed.

Lemma zlen_app {A} (l k : list A) : zlen (l ++ k) = zlen l + zlen k.
Proof. unfold zlen. rewrite length_app. lia. Qed.

Lemma zlen_cons {A} (x : A) l : zlen (x :: l) = 1 + zlen l.
Proof. unfold zlen. simpl. lia. Qed.

Lemma zlen_nil {A} : zlen (@nil A) = 0.
Proof. done. Qed.

Lemma zlen_u16_le z : zlen (u16_le z) = 2.
Proof. done. Qed.
Lemma zlen_u32_le z : zlen (u32_le z) = 4.
Proof. done. Qed.
Lemma zlen_u64_le z : zlen (u64_le z) = 8.
Proof. done. Qed.
Lemma zlen_i64_le z : zlen (i64_le z) = 8.
Proof. done. Qed.

Create Rewrite HintDb zlen.
#[export] Hint Rewrite @zlen_app @zlen_cons @zlen_nil zlen_u16_le zlen_u32_le
  zlen_u64_le zlen_i64_le : zlen.

(** Linear arithmetic over lengths. *)
Ltac zlen_lia :=
  autorewrite with zlen in *;
  repeat match goal with
  | |- context [zlen ?l] => lazymatch goal with
      | _ : 0 <= zlen l |- _ => fail | _ => pose proof (zlen_nonneg l) end
  | _ : context [zlen ?l] |- _ => lazymatch goal with
      | _ : 0 <= zlen l |- _ => fail | _ => pose proof (zlen_nonneg l) end
  end; lia.

(** ** Reading at an offset *)

(** [rest] is what remains of [data] from byte [off] on. *)
Definition suffix_at {A} (data : list A) (off : Z) (rest : list A) : Prop :=
  exists pre, data = pre ++ rest /\ zlen pre = off.

Lemma suffix_at_start {A} (data : list A) : suffix_at data 0 data.
Proof. by exists []. Qed.

Lemma suffix_at_app {A} (data : list A) off x rest n :
  suffix_at data off (x ++ rest) -> zlen x = n -> suffix_at data (off + n) rest.
Proof.
  intros [pre [-> <-]] <-. exists (pre ++ x). split; [by rewrite <- app_assoc|].
  by rewrite zlen_app.
Qed.

Lemma suffix_at_bounds {A} (data : list A) off rest :
  suffix_at data off rest -> 0 <= off /\ off + zlen rest = zlen data.
Proof. intros [pre [-> <-]]. zlen_lia. Qed.

Lemma suffix_at_slice {A} (data : list A) off x rest n :
  suffix_at data off (x ++ rest) -> zlen x = n ->
  slice data off (off + n) = x.
Proof.
  intros [pre [-> <-]] <-. unfold slice, zlen.
  replace (Z.to_nat (Z.of_nat (length pre) + Z.of_nat (length x) - Z.of_nat (length pre)))
    with (length x) by lia.
  rewrite Nat2Z.id, drop_app_length. apply take_app_length.
Qed.

Lemma suffix_at_slice_chk {A} (data : list A) off x rest n :
  suffix_at data off (x ++ rest) -> zlen x = n ->
  slice_chk data off (off + n) = Ok x.
Proof.
  intros H Hn. pose proof (suffix_at_bounds _ _ _ H). unfold slice_chk.
  rewrite (suffix_at_slice _ _ _ _ _ H Hn).
  destruct (0 <=? off) eqn:?; [|zlen_lia].
  destruct (off <=? off + n) eqn:?; [|zlen_lia].
  destruct (off + n <=? zlen data) eqn:?; [done|zlen_lia].
Qed.

Lemma suffix_at_index {A} (data : list A) off x rest :
  suffix_at data off (x :: rest) -> index data off = Ok x.
Proof.
  intros H. pose proof (suffix_at_bounds _ _ _ H). destruct H as [pre [-> <-]].
  unfold index.
  destruct (0 <=? zlen pre) eqn:?; [|zlen_lia].
  destruct (zlen pre <? zlen (pre ++ x :: rest)) eqn:?; [|zlen_lia].
  unfold zlen. simpl. rewrite Nat2Z.id, list_lookup_middle; done.
Qed.

Lemma suffix_at_cons {A} (data : list A) off x rest :
  suffix_at data off (x :: rest) -> suffix_at data (off + 1) rest.
Proof. intros H. by apply (suffix_at_app _ _ [x]). Qed.

(** Bounds are enough for a checked access to succeed. *)
Lemma index_ok {A} (l : list A) i : 0 <= i < zlen l -> exists x, index l i = Ok x.
Proof.
  intros Hi. unfold index, zlen in *.
  destruct (0 <=? i) eqn:?; [|lia]. destruct (i <? Z.of_nat (length l)) eqn:?; [|lia].
  simpl. destruct (lookup_lt_is_Some_2 l (Z.to_nat i)) as [x ->]; [lia|eauto].
Qed.

Lemma slice_chk_ok {A} (l : list A) a b :
  0 <= a <= b -> b <= zlen l -> slice_chk l a b = Ok (slice l a b).
Proof.
  intros. unfold slice_chk.
  destruct (0 <=? a) eqn:?; [|lia]. destruct (a <=? b) eqn:?; [|lia].
  destruct (b <=? zlen l) eqn:?; [done|lia].
Qed.

Lemma zlen_slice {A} (l : list A) a b :
  0 <= a <= b -> b <= zlen l -> zlen (slice l a b) = b - a.
Proof.
  unfold zlen, slice. intros. rewrite length_take, length_drop. lia.
Qed.

Lemma slice_length {A} (l : list A) a b :
  0 <= a <= b -> b <= zlen l -> length (slice l a b) = Z.to_nat (b - a).
Proof. intros. pose proof (zlen_slice l a b). unfold zlen in *. lia. Qed.

#[global] Arguments le_bytes : simpl never.
#[global] Arguments le_val : simpl never.
#[global] Arguments zlen : simpl never.

(** ** Slices *)

Lemma slice_split {A} (l : list A) a b c :
  0 <= a <= b -> b <= c -> slice l a c = slice l a b ++ slice l b c.
Proof.
  intros. unfold slice.
  replace (Z.to_nat (c - a)) with (Z.to_nat (b - a) + Z.to_nat (c - b))%nat by lia.
  rewrite <- take_take_drop. f_equal. rewrite drop_drop. do 2 f_equal. lia.
Qed.

Lemma slice_all {A} (l : list A) : slice l 0 (zlen l) = l.
Proof.
  unfold slice, zlen. rewrite Z.sub_0_r, Nat2Z.id, drop_0. by rewrite take_ge.
Qed.

Lemma slice_one {A} (l : list A) i x :
  0 <= i -> l !! Z.to_nat i = Some x -> slice l i (i + 1) = [x].
Proof.
  intros ? Hx. unfold slice. replace (Z.to_nat (i + 1 - i)) with 1%nat by lia.
  by rewrite (drop_S l x).
Qed.

Lemma le_bytes_slice l a b n :
  0 <= a <= b -> b <= zlen l -> n = Z.to_nat (b - a) ->
  le_bytes n (le_val (slice l a b)) = slice l a b.
Proof. intros ?? ->. rewrite <- (slice_length l) by done. apply le_bytes_le_val. Qed.

Lemma le_val_slice_range l a b :
  0 <= a <= b -> b <= zlen l -> 0 <= le_val (slice l a b) < 256 ^ (b - a).
Proof. intros. rewrite <- (zlen_slice l) by done. apply le_val_range. Qed.

Lemma le_val_u16 z : is_u16 z -> le_val (u16_le z) = z.
Proof. apply (le_val_small 2). Qed.
Lemma le_val_u32 z : is_u32 z -> le_val (u32_le z) = z.
Proof. apply (le_val_small 4). Qed.
Lemma le_val_u64 z : is_u64 z -> le_val (u64_le z) = z.
Proof. apply (le_val_small 8). Qed.
Lemma le_val_i64 z : is_i64 z -> i64_of_bits (le_val (i64_le z)) = z.
Proof.
  intros. unfold i64_le. rewrite (le_val_small 8) by apply (i64_bits_range z).
  by apply i64_of_bits_bits.
Qed.

(** Conversely, the bytes of an integer that was read are the bytes read. *)
Lemma u16_le_slice l a b : 0 <= a -> b = a + 2 -> b <= zlen l -> u16_le (le_val (slice l a b)) = slice l a b.
Proof. intros ? -> ?. apply le_bytes_slice; lia. Qed.
Lemma u32_le_slice l a b : 0 <= a -> b = a + 4 -> b <= zlen l -> u32_le (le_val (slice l a b)) = slice l a b.
Proof. intros ? -> ?. apply le_bytes_slice; lia. Qed.
Lemma u64_le_slice l a b : 0 <= a -> b = a + 8 -> b <= zlen l -> u64_le (le_val (slice l a b)) = slice l a b.
Proof. intros ? -> ?. apply le_bytes_slice; lia. Qed.

Lemma i64_bits_of_bits u : is_u64 u -> i64_bits (i64_of_bits u) = u.
Proof.
  unfold is_u64, i64_bits, i64_of_bits. intros. destruct (Z.ltb_spec u (2^63)).
  - apply Z.mod_small. lia.
  - symmetry. apply (Z.mod_unique _ _ (-1)); lia.
Qed.

Lemma i64_le_slice l a b : 0 <= a -> b = a + 8 -> b <= zlen l ->
  i64_le (i64_of_bits (le_val (slice l a b))) = slice l a b.
Proof.
  intros ? -> ?. unfold i64_le. rewrite i64_bits_of_bits; [apply le_bytes_slice; lia|].
  pose proof (le_val_slice_range l a (a + 8)). unfold is_u64.
  replace (a + 8 - a) with 8 in * by lia. lia.
Qed.

#[global] Arguments u16_le : simpl never.
#[global] Arguments u32_le : simpl never.
#[global] Arguments u64_le : simpl never.
#[global] Arguments i64_le : simpl never.

(** ** Inverting successful computations *)

Lemma bind_Ok {A B} (r : res A) (f : A -> res B) b :
  r ≫= f = Ok b -> exists a, r = Ok a /\ f a = Ok b.
Proof. destruct r; simpl; [eauto|done..]. Qed.

Lemma ok_or_Ok {A} (o : option A) e a : ok_or o e = Ok a -> o = Some a.
Proof. by destruct o; intros [= ->]. Qed.

Lemma if_Err_Ok {A} (b : bool) e (k : res A) a :
  (if b then Err e else k) = Ok a -> b = false /\ k = Ok a.
Proof. by destruct b. Qed.

Lemma Ok_inj {A} (a b : A) : Ok a = Ok b -> a = b.
Proof. by intros [= ->]. Qed.

(** ** Filters *)

Lemma filter_ext_in {A} (P Q : A -> Prop) `{!forall x, Decision (P x), !forall x, Decision (Q x)} (l : list A) :
  (forall x, x ∈ l -> P x <-> Q x) -> filter P l = filter Q l.
Proof.
  induction l as [|a l IH]; intros Heq; [done|]. rewrite !filter_cons.
  rewrite IH by (intros x Hx; apply Heq; by right).
  destruct (Heq a ltac:(left)) as [H1 H2]. repeat case_decide; tauto.
Qed.

Lemma filter_none {A} (P : A -> Prop) `{!forall x, Decision (P x)} (l : list A) :
  (forall x, x ∈ l -> ~ P x) -> filter P l = [].
Proof.
  induction l as [|a l IH]; intros Hn; [done|]. rewrite filter_cons, decide_False by (apply Hn; left).
  apply IH. intros x Hx. apply Hn. by right.
Qed.

Lemma filter_all {A} (P : A -> Prop) `{!forall x, Decision (P x)} (l : list A) :
  (forall x, x ∈ l -> P x) -> filter P l = l.
Proof.
  induction l as [|a l IH]; intros Hn; [done|]. rewrite filter_cons, decide_True by (apply Hn; left).
  f_equal. apply IH. intros x Hx. apply Hn. by right.
Qed.

Lemma filter_fmap {A B} (f : A -> B) (P : B -> Prop) `{!forall x, Decision (P x)} (l : list A) :
  filter P (f <$> l) = f <$> filter (fun x => P (f x)) l.
Proof.
  induction l as [|a l IH]; [done|]. rewrite fmap_cons, !filter_cons, IH.
  by destruct (decide (P (f a))).
Qed.

Lemma filter_length_mono {A} (P Q : A -> Prop)
    `{!forall x, Decision (P x), !forall x, Decision (Q x)} (l : list A) :
  (forall x, x ∈ l -> P x -> Q x) -> zlen (filter P l) <= zlen (filter Q l).
Proof.
  unfold zlen. induction l as [|a l IH]; intros Hi; [done|]. rewrite !filter_cons.
  assert (IH' : Z.of_nat (length (filter P l)) <= Z.of_nat (length (filter Q l)))
    by (apply IH; intros x Hx; apply Hi; by right).
  pose proof (Hi a ltac:(left)). repeat case_decide; simpl; tauto || lia.
Qed.

Lemma filter_length_pos {A} (P : A -> Prop) `{!forall x, Decision (P x)} (l : list A) x :
  x ∈ l -> P x -> 0 < zlen (filter P l).
Proof.
  intros Hx HP. assert (Hin : x ∈ filter P l) by (by apply list_elem_of_filter).
  unfold zlen. destruct (filter P l); [by apply not_elem_of_nil in Hin|]. simpl. lia.
Qed.

(** ** The order of byte strings *)

(** [<[u8] as Ord>::cmp]: lexicographic, a prefix comes first. *)
Fixpoint lex_compare (a b : bytes) : comparison :=
  match a, b with
  | [], [] => Eq
  | [], _ => Lt
  | _, [] => Gt
  | x :: a, y :: b =>
    match b2z x ?= b2z y with
    | Eq => lex_compare a b
    | c => c
    end
  end.

Definition lex_lt (a b : bytes) : Prop := lex_compare a b = Lt.

#[export] Instance lex_lt_dec : RelDecision lex_lt.
Proof. intros a b. unfold lex_lt. destruct (lex_compare a b); [right|left|right]; done. Defined.

Lemma lex_compare_eq a : forall b, lex_compare a b = Eq <-> a = b.
Proof.
  induction a as [|x a IH]; intros [|y b]; simpl; try done.
  destruct (Z.compare_spec (b2z x) (b2z y)) as [E|E|E].
  - rewrite IH. apply b2z_inj in E as ->. naive_solver.
  - split; [done|]. intros [= -> ->]. lia.
  - split; [done|]. intros [= -> ->]. lia.
Qed.

Lemma lex_compare_antisym a : forall b, lex_compare b a = CompOpp (lex_compare a b).
Proof.
  induction a as [|x a IH]; intros [|y b]; simpl; try done.
  rewrite (Z.compare_antisym (b2z x) (b2z y)). destruct (b2z x ?= b2z y); simpl; auto.
Qed.

Lemma lex_lt_trans a : forall b c, lex_lt a b -> lex_lt b c -> lex_lt a c.
Proof.
  unfold lex_lt. induction a as [|x a IH]; intros [|y b] [|z c]; simpl; try done.
  destruct (Z.compare_spec (b2z x) (b2z y)), (Z.compare_spec (b2z y) (b2z z)),
    (Z.compare_spec (b2z x) (b2z z)); try done; try lia. apply IH.
Qed.

#[export] Instance lex_lt_transitive : Transitive lex_lt := lex_lt_trans.

Lemma lex_lt_irrefl a : ~ lex_lt a a.
Proof. unfold lex_lt. rewrite (proj2 (lex_compare_eq a a)); done. Qed.

Lemma lex_trichotomy a b : lex_lt a b \/ a = b \/ lex_lt b a.
Proof.
  unfold lex_lt. rewrite (lex_compare_antisym a b), <- lex_compare_eq.
  destruct (lex_compare a b); simpl; auto.
Qed.

(** ** Hash maps *)

(** The order in which a [HashMap]'s keys are visited is not specified: some order
    of them. *)
Class KeyOrder := {
  keys_iter : forall {V}, gmap bytes V -> list bytes;
  keys_iter_perm : forall {V} (m : gmap bytes V), keys_iter m ≡ₚ (map_to_list m).*1;
}.

Definition map_keys : KeyOrder :=
  {| keys_iter _ m := (map_to_list m).*1; keys_iter_perm _ _ := reflexivity _ |}.

(** ** Concrete instances of hypotheses *)

(** Discharges a closed side condition by evaluation: widths, lengths,
    well-formedness records and decided facts about literals. *)
Ltac concrete :=
  repeat match goal with
         | |- Forall _ _ => constructor
         | |- _ /\ _ => split
         end;
  first
    [ done
    | lia
    | vm_compute; reflexivity
    | vm_compute; congruence
    | vm_compute; split; [congruence|reflexivity]
    | vm_compute; split; congruence
    | constructor; concrete ].
