(* ===== verification/Sorted.v ===== *)
(** Sorted vectors: [slice::binary_search_by] on a vector sorted by a byte-string
    key, and the lemmas on strongly sorted lists its clients share. *)
From S2P Require Import Prelude.

(** ** Strongly sorted lists *)

Lemma sorted_split {A} (R : A -> A -> Prop) (P : A -> Prop) `{!forall x, Decision (P x)} l :
  StronglySorted R l -> (forall a b, R a b -> P b -> P a) ->
  l = filter P l ++ filter (fun x => ~ P x) l.
Proof.
  intros Hs Hmono. induction Hs as [|a l Hs IH Hall]; [done|].
  rewrite !filter_cons. destruct (decide (P a)) as [Ha|Ha].
  - rewrite (decide_False (P := ~ P a)) by tauto. simpl. by rewrite <- IH.
  - rewrite decide_True by done. rewrite Forall_forall in Hall.
    assert (Hn : forall x, x ∈ l -> ~ P x) by (intros x Hx Hp; apply Ha; eauto).
    rewrite (filter_none P), (filter_all (fun x => ~ P x)) by done. done.
Qed.

Lemma sorted_elem {A} (R : A -> A -> Prop) l1 l2 a b :
  StronglySorted R (l1 ++ l2) -> a ∈ l1 -> b ∈ l2 -> R a b.
Proof.
  induction l1 as [|x l1 IH]; simpl; intros Hs Ha Hb; [by apply not_elem_of_nil in Ha|].
  apply StronglySorted_inv in Hs as [Hs Hall]. apply elem_of_cons in Ha as [->|Ha]; [|by apply IH].
  rewrite Forall_forall in Hall. apply Hall, elem_of_app. by right.
Qed.

Lemma StronglySorted_app_iff {A} (R : A -> A -> Prop) l1 l2 :
  StronglySorted R (l1 ++ l2) <->
  StronglySorted R l1 /\ StronglySorted R l2 /\ (forall a b, a ∈ l1 -> b ∈ l2 -> R a b).
Proof.
  split.
  - intros Hs. split_and!; [| |intros; by eapply sorted_elem].
    + induction l1 as [|x l1 IH]; [constructor|]. apply StronglySorted_inv in Hs as [Hs Hall].
      constructor; [by apply IH|]. by apply Forall_app in Hall as [? _].
    + induction l1 as [|x l1 IH]; [done|]. apply StronglySorted_inv in Hs as [Hs _]. by apply IH.
  - intros (H1 & H2 & H12). induction H1 as [|x l1 H1 IH Hall]; [done|]. simpl. constructor.
    + apply IH. intros a b Ha. apply H12. by right.
    + apply Forall_app. split; [done|]. apply Forall_forall. intros b Hb. apply H12; [left|done].
Qed.

(** ** Binary search *)

Section Search.
Context {A : Type} (key : A -> bytes).

Definition key_lt (a b : A) : Prop := lex_lt (key a) (key b).

(** [binary_search_by] on a vector sorted by [key]: [inl] the index of the element
    with that key, [inr] where it would be inserted. *)
Definition binary_search_by (l : list A) (k : bytes) : nat + nat :=
  let i := length (filter (fun x => lex_lt (key x) k) l) in
  match l !! i with
  | Some x => if bool_decide (key x = k) then inl i else inr i
  | None => inr i
  end.

Abbreviation below k := (fun x : A => lex_lt (key x) k).
Abbreviation above k := (fun x : A => lex_lt k (key x)).

Inductive search_result (l : list A) (k : bytes) : nat + nat -> Prop :=
| search_found l1 x l2 :
    l = l1 ++ x :: l2 -> key x = k -> Forall (below k) l1 -> Forall (above k) l2 ->
    search_result l k (inl (length l1))
| search_absent l1 l2 :
    l = l1 ++ l2 -> Forall (below k) l1 -> Forall (above k) l2 ->
    search_result l k (inr (length l1)).

Lemma binary_search_by_spec l k :
  StronglySorted key_lt l -> search_result l k (binary_search_by l k).
Proof.
  intros Hs. unfold binary_search_by. set (P := below k).
  assert (Hsplit : l = filter P l ++ filter (fun x => ~ P x) l).
  { eapply sorted_split; [done|]. intros a b Hab Hb. unfold P. by etransitivity. }
  set (l1 := filter P l) in *. set (l2 := filter (fun x => ~ P x) l) in *.
  assert (H1 : Forall P l1) by (apply Forall_forall; intros x Hx; by apply list_elem_of_filter in Hx as [? _]).
  assert (H2 : Forall (fun x => ~ P x) l2)
    by (apply Forall_forall; intros x Hx; by apply list_elem_of_filter in Hx as [? _]).
  rewrite Hsplit at 2. rewrite lookup_app_r, Nat.sub_diag by lia.
  change (filter (fun x => lex_lt (key x) k) l) with (filter P l). fold l1.
  clearbody l1 l2. destruct l2 as [|e l2].
  { simpl. apply (search_absent _ _ l1 []); [done|done|constructor]. }
  simpl. apply Forall_cons in H2 as [He H2].
  rewrite Hsplit in Hs. apply StronglySorted_app_iff in Hs as (_ & Hs & _).
  apply StronglySorted_inv in Hs as [_ Hall].
  assert (Hgt : key e = k \/ lex_lt k (key e)) by (destruct (lex_trichotomy (key e) k); tauto).
  assert (Hrest : Forall (above k) l2).
  { eapply Forall_impl; [exact Hall|]. intros x Hx. unfold key_lt in Hx.
    destruct Hgt as [E|Hlt]; [by rewrite <- E|exact (lex_lt_trans _ _ _ Hlt Hx)]. }
  case_bool_decide as Heq.
  - by apply (search_found _ _ l1 e l2).
  - apply (search_absent _ _ l1 (e :: l2)); [done|done|]. constructor; [tauto|done].
Qed.

(** Where a key absent from a vector would go. *)
Lemma binary_search_between l1 l2 k :
  Forall (below k) l1 -> Forall (above k) l2 -> binary_search_by (l1 ++ l2) k = inr (length l1).
Proof.
  rewrite !Forall_forall. intros H1 H2. unfold binary_search_by. rewrite filter_app.
  rewrite (filter_all _ l1 H1), (filter_none _ l2), app_nil_r.
  2:{ intros x Hx Hlt. exact (lex_lt_irrefl _ (lex_lt_trans _ _ _ Hlt (H2 x Hx))). }
  rewrite lookup_app_r, Nat.sub_diag by lia. destruct l2 as [|x l2]; [done|]. simpl.
  rewrite bool_decide_false; [done|]. intros <-. apply (lex_lt_irrefl (key x)), H2. by left.
Qed.

Lemma sorted_keys_NoDup l : StronglySorted key_lt l -> NoDup (key <$> l).
Proof.
  induction 1 as [|a l Hs IH Hall]; [constructor|]. rewrite fmap_cons. apply NoDup_cons. split; [|done].
  rewrite list_elem_of_fmap. intros (x & Heq & Hx). rewrite Forall_forall in Hall. apply Hall in Hx.
  unfold key_lt in Hx. rewrite Heq in Hx. by apply lex_lt_irrefl in Hx.
Qed.

(** Elements around a key are sorted with an element of that key, or none, between. *)
Lemma sorted_middle l1 x l2 :
  StronglySorted key_lt l1 -> StronglySorted key_lt l2 ->
  Forall (below (key x)) l1 -> Forall (above (key x)) l2 -> StronglySorted key_lt (l1 ++ x :: l2).
Proof.
  rewrite !Forall_forall. intros Hs1 Hs2 H1 H2. apply StronglySorted_app_iff. split_and!; [done| |].
  - constructor; [done|]. apply Forall_forall. exact H2.
  - intros a b Ha [->|Hb]%elem_of_cons; [by apply H1|]. eapply lex_lt_trans; [by apply H1|by apply H2].
Qed.

Lemma sorted_join l1 l2 k :
  StronglySorted key_lt l1 -> StronglySorted key_lt l2 ->
  Forall (below k) l1 -> Forall (fun x => ~ lex_lt (key x) k) l2 -> StronglySorted key_lt (l1 ++ l2).
Proof.
  rewrite !Forall_forall. intros Hs1 Hs2 H1 H2. apply StronglySorted_app_iff. split_and!; [done..|].
  intros a b Ha Hb. destruct (lex_trichotomy (key b) k) as [Hlt|[E|Hgt]].
  - by apply H2 in Hlt.
  - unfold key_lt. rewrite E. by apply H1.
  - eapply lex_lt_trans; [by apply H1|exact Hgt].
Qed.
End Search.

(** ** Stable sorting and chunks *)

Section Sorting.
Context {A : Type} (key : A -> bytes).

(** [sort_by(|a, b| key(a).cmp(key(b)))]: an element goes before the first one that
    is not smaller, and the elements are taken from the last, so equal ones keep
    their order. *)
Fixpoint insert_sorted (x : A) (l : list A) : list A :=
  match l with
  | [] => [x]
  | y :: l => if bool_decide (lex_lt (key y) (key x)) then y :: insert_sorted x l else x :: y :: l
  end.

Definition sort_by_key (l : list A) : list A := foldr insert_sorted [] l.

Lemma insert_sorted_perm x l : insert_sorted x l ≡ₚ x :: l.
Proof.
  induction l as [|y l IH]; [done|]. simpl. case_bool_decide; [|done]. rewrite IH. apply Permutation_swap.
Qed.

Lemma sort_by_key_perm l : sort_by_key l ≡ₚ l.
Proof. induction l as [|x l IH]; [done|]. simpl. by rewrite insert_sorted_perm, IH. Qed.

Lemma insert_sorted_sorted x l :
  StronglySorted (key_lt key) l -> key x ∉ key <$> l -> StronglySorted (key_lt key) (insert_sorted x l).
Proof.
  induction 1 as [|y l Hs IH Hall]; intros Hx; simpl; [repeat constructor|].
  rewrite fmap_cons, not_elem_of_cons in Hx. destruct Hx as [Hne Hx]. case_bool_decide as Hlt.
  - constructor; [by apply IH|]. apply Forall_forall. intros z. rewrite insert_sorted_perm.
    rewrite Forall_forall in Hall. intros [->|Hz]%elem_of_cons; [done|by apply Hall].
  - assert (Hlt' : key_lt key x y).
    { unfold key_lt. destruct (lex_trichotomy (key x) (key y)) as [?|[?|?]]; [done|congruence|done]. }
    constructor; [by constructor|]. constructor; [done|]. eapply Forall_impl; [exact Hall|].
    intros z Hz. exact (lex_lt_trans _ _ _ Hlt' Hz).
Qed.

Lemma sort_by_key_sorted l : NoDup (key <$> l) -> StronglySorted (key_lt key) (sort_by_key l).
Proof.
  induction l as [|x l IH]; intros Hnd; [constructor|]. rewrite fmap_cons in Hnd.
  apply NoDup_cons in Hnd as [Hx Hnd]. simpl. apply insert_sorted_sorted; [by apply IH|].
  by rewrite sort_by_key_perm.
Qed.
End Sorting.

(** [sort_by] with a comparison: [le x y] when [x] may stay before [y]; stable for the
    same reason. *)
Fixpoint insert_by {A} (le : A -> A -> bool) (x : A) (l : list A) : list A :=
  match l with
  | [] => [x]
  | y :: l => if le x y then x :: y :: l else y :: insert_by le x l
  end.

Definition sort_by {A} (le : A -> A -> bool) (l : list A) : list A := foldr (insert_by le) [] l.

(** [slice::chunks(n)]: runs of [n] elements, the last one possibly shorter. *)
Fixpoint chunks_loop {A} (rounds n : nat) (l : list A) : list (list A) :=
  match rounds, l with
  | O, _ | _, [] => []
  | S rounds, _ => take n l :: chunks_loop rounds n (drop n l)
  end.

Definition chunks_of {A} (n : nat) (l : list A) : list (list A) := chunks_loop (length l) n l.

Lemma chunks_loop_spec {A} (n : nat) : (0 < n)%nat -> forall rounds (l : list A), (length l <= rounds)%nat ->
  concat (chunks_loop rounds n l) = l /\ Forall (fun c => c <> [] /\ (length c <= n)%nat) (chunks_loop rounds n l).
Proof.
  intros Hn rounds. induction rounds as [|rounds IH]; intros [|x l] Hl; simpl in *; try done; [lia|].
  destruct n as [|n]; [lia|]. destruct (IH (drop n l)) as [E Hall]; [rewrite length_drop; lia|].
  cbn [take drop]. split; [simpl; by rewrite E, take_drop|]. constructor; [|done].
  split; [done|]. simpl. rewrite length_take. lia.
Qed.

Lemma chunks_of_spec {A} (n : nat) (l : list A) : (0 < n)%nat ->
  concat (chunks_of n l) = l /\ Forall (fun c => c <> [] /\ (length c <= n)%nat) (chunks_of n l).
Proof. intros Hn. by apply chunks_loop_spec. Qed.

Lemma chunks_loop_count {A} (n : nat) : (0 < n)%nat -> forall rounds (l : list A), (length l <= rounds)%nat ->
  (length l <= n * length (chunks_loop rounds n l) <= length l + (n - 1))%nat.
Proof.
  intros Hn rounds. induction rounds as [|rounds IH]; intros l Hl.
  - destruct l; [simpl; lia|simpl in Hl; lia].
  - destruct l as [|x l]; [simpl; lia|]. set (l' := x :: l) in *.
    assert (E : chunks_loop (S rounds) n l' = take n l' :: chunks_loop rounds n (drop n l')) by done.
    rewrite E. cbn [length]. rewrite Nat.mul_succ_r. destruct (decide (length l' <= n)%nat) as [Hle|Hgt].
    + rewrite drop_ge by done. assert (length l' = S (length l)) by done. destruct rounds; simpl; lia.
    + pose proof (IH (drop n l')) as Hd. rewrite length_drop in Hd. lia.
Qed.

Lemma chunks_of_count {A} (n : nat) (l : list A) : (0 < n)%nat ->
  (length l <= n * length (chunks_of n l) <= length l + (n - 1))%nat.
Proof. intros Hn. by apply chunks_loop_count. Qed.
