(* ===== verification/Codec.v ===== *)
(** Reading little-endian fields out of a byte buffer at a moving offset
    (src/aeordb-lib/src/engine/binary_utils.rs), and the lemmas that a field
    written by [to_le_bytes] is the field these functions read back. *)
From S2P Require Import Prelude.

Local Open Scope Z_scope.

(** Every reader takes the offset and returns the value with the advanced
    offset, in place of the source's [&mut usize]. *)
Definition read_u16 (data : bytes) (offset : Z) : res (Z * Z) :=
  if zlen data <? offset + 2 then Err UnexpectedEof else
  b0 ← index data offset;
  b1 ← index data (offset + 1);
  Ok (le_val [b0; b1], offset + 2).

Definition read_u32 (data : bytes) (offset : Z) : res (Z * Z) :=
  if zlen data <? offset + 4 then Err UnexpectedEof else
  b0 ← index data offset;
  b1 ← index data (offset + 1);
  b2 ← index data (offset + 2);
  b3 ← index data (offset + 3);
  Ok (le_val [b0; b1; b2; b3], offset + 4).

Definition read_u64 (data : bytes) (offset : Z) : res (Z * Z) :=
  if zlen data <? offset + 8 then Err UnexpectedEof else
  bs ← slice_chk data offset (offset + 8);
  Ok (le_val bs, offset + 8).

Definition read_i64 (data : bytes) (offset : Z) : res (Z * Z) :=
  if zlen data <? offset + 8 then Err UnexpectedEof else
  bs ← slice_chk data offset (offset + 8);
  Ok (i64_of_bits (le_val bs), offset + 8).

Definition read_bytes (data : bytes) (offset len : Z) : res (bytes * Z) :=
  if zlen data <? offset + len then Err UnexpectedEof else
  bs ← slice_chk data offset (offset + len);
  Ok (bs, offset + len).

(** The error of a string that is not UTF-8 carries the advanced offset. *)
Definition read_string (data : bytes) (offset len : Z) : res (bytes * Z) :=
  '(bs, offset) ← read_bytes data offset len;
  if utf8_valid bs then Ok (bs, offset)
  else Err (CorruptEntry offset "Invalid UTF-8 string: {}").

(** ** Fixed-width readers are byte readers *)

Lemma index_slice1 (data : bytes) i :
  0 <= i < zlen data -> exists b, index data i = Ok b /\ slice data i (i + 1) = [b].
Proof.
  intros Hi. destruct (index_ok data i Hi) as [b E]. exists b. split; [done|].
  revert E. unfold index. case_match; [|done].
  destruct (data !! Z.to_nat i) eqn:El; [|done]. intros [= ->]. by apply slice_one; [lia|].
Qed.

Lemma read_u16_bytes data off :
  0 <= off -> read_u16 data off = ('(bs, o) ← read_bytes data off 2; Ok (le_val bs, o)).
Proof.
  intros. unfold read_u16, read_bytes. destruct (Z.ltb_spec (zlen data) (off + 2)); [done|].
  destruct (index_slice1 data off) as [b0 [-> S0]]; [lia|].
  destruct (index_slice1 data (off + 1)) as [b1 [-> S1]]; [lia|]. simpl.
  rewrite slice_chk_ok, (slice_split _ off (off + 1) (off + 2)), S0 by lia.
  replace (off + 2) with (off + 1 + 1) by lia. by rewrite S1.
Qed.

Lemma read_u32_bytes data off :
  0 <= off -> read_u32 data off = ('(bs, o) ← read_bytes data off 4; Ok (le_val bs, o)).
Proof.
  intros. unfold read_u32, read_bytes. destruct (Z.ltb_spec (zlen data) (off + 4)); [done|].
  destruct (index_slice1 data off) as [b0 [-> S0]]; [lia|].
  destruct (index_slice1 data (off + 1)) as [b1 [-> S1]]; [lia|].
  destruct (index_slice1 data (off + 2)) as [b2 [-> S2]]; [lia|].
  destruct (index_slice1 data (off + 3)) as [b3 [-> S3]]; [lia|]. simpl.
  rewrite slice_chk_ok, (slice_split _ off (off + 1) (off + 4)),
    (slice_split _ (off + 1) (off + 2) (off + 4)),
    (slice_split _ (off + 2) (off + 3) (off + 4)), S0 by lia.
  replace (off + 2) with (off + 1 + 1) in * by lia. rewrite S1.
  replace (off + 3) with (off + 1 + 1 + 1) in * by lia. rewrite S2.
  replace (off + 4) with (off + 1 + 1 + 1 + 1) by lia. by rewrite S3.
Qed.

Lemma read_u64_bytes data off :
  read_u64 data off = ('(bs, o) ← read_bytes data off 8; Ok (le_val bs, o)).
Proof. unfold read_u64, read_bytes. case_match; [done|]. by destruct (slice_chk _ _ _). Qed.

Lemma read_i64_bytes data off :
  read_i64 data off = ('(bs, o) ← read_bytes data off 8; Ok (i64_of_bits (le_val bs), o)).
Proof. unfold read_i64, read_bytes. case_match; [done|]. by destruct (slice_chk _ _ _). Qed.

(** ** Reading back what was written *)

Section ReadBack.
Context (data : bytes) (off : Z) (rest : bytes).

Lemma read_bytes_at bs n :
  suffix_at data off (bs ++ rest) -> zlen bs = n ->
  read_bytes data off n = Ok (bs, off + n) /\ suffix_at data (off + n) rest.
Proof.
  intros H Hn. pose proof (suffix_at_bounds _ _ _ H) as Hb.
  split; [|by eapply suffix_at_app].
  unfold read_bytes. destruct (Z.ltb_spec (zlen data) (off + n)); [zlen_lia|].
  by rewrite (suffix_at_slice_chk _ _ _ _ _ H Hn).
Qed.

Lemma read_string_at bs n :
  suffix_at data off (bs ++ rest) -> zlen bs = n -> utf8_valid bs = true ->
  read_string data off n = Ok (bs, off + n) /\ suffix_at data (off + n) rest.
Proof.
  intros H Hn Hu. destruct (read_bytes_at _ _ H Hn) as [E Hs].
  split; [|done]. unfold read_string. rewrite E. simpl. by rewrite Hu.
Qed.

Lemma read_u16_at v :
  suffix_at data off (u16_le v ++ rest) -> is_u16 v ->
  read_u16 data off = Ok (v, off + 2) /\ suffix_at data (off + 2) rest.
Proof.
  intros H Hv. destruct (read_bytes_at _ 2 H eq_refl) as [E Hs]. split; [|done].
  apply suffix_at_bounds in H as [? _].
  rewrite read_u16_bytes, E by done. simpl. by rewrite le_val_u16.
Qed.

Lemma read_u32_at v :
  suffix_at data off (u32_le v ++ rest) -> is_u32 v ->
  read_u32 data off = Ok (v, off + 4) /\ suffix_at data (off + 4) rest.
Proof.
  intros H Hv. destruct (read_bytes_at _ 4 H eq_refl) as [E Hs]. split; [|done].
  apply suffix_at_bounds in H as [? _].
  rewrite read_u32_bytes, E by done. simpl. by rewrite le_val_u32.
Qed.

Lemma read_u64_at v :
  suffix_at data off (u64_le v ++ rest) -> is_u64 v ->
  read_u64 data off = Ok (v, off + 8) /\ suffix_at data (off + 8) rest.
Proof.
  intros H Hv. destruct (read_bytes_at _ 8 H eq_refl) as [E Hs]. split; [|done].
  rewrite read_u64_bytes, E. simpl. by rewrite le_val_u64.
Qed.

Lemma read_i64_at v :
  suffix_at data off (i64_le v ++ rest) -> is_i64 v ->
  read_i64 data off = Ok (v, off + 8) /\ suffix_at data (off + 8) rest.
Proof.
  intros H Hv. destruct (read_bytes_at _ 8 H eq_refl) as [E Hs]. split; [|done].
  rewrite read_i64_bytes, E. simpl. by rewrite le_val_i64.
Qed.
End ReadBack.

(** ** What a successful read says about the buffer *)

Section ReadInv.
Context (data : bytes) (off : Z) (s : bytes) (Hs : suffix_at data off s).

(** The bytes read are the next ones, and the offset moves past them. *)
Definition consumed (bs : bytes) (off' : Z) : Prop :=
  exists rest, s = bs ++ rest /\ off' = off + zlen bs /\ suffix_at data off' rest.

Lemma read_bytes_inv n bs off' :
  0 <= n -> read_bytes data off n = Ok (bs, off') -> zlen bs = n /\ consumed bs off'.
Proof using Hs.
  intros Hn. pose proof (suffix_at_bounds _ _ _ Hs). unfold read_bytes.
  destruct (Z.ltb_spec (zlen data) (off + n)); [done|].
  assert (Hlen : zlen (take (Z.to_nat n) s) = n)
    by (unfold zlen in *; rewrite length_take; lia).
  pose proof Hs as Hs'. rewrite <- (take_drop (Z.to_nat n) s) in Hs'.
  rewrite (suffix_at_slice_chk _ _ _ _ _ Hs' Hlen). intros [= <- <-].
  split; [done|]. exists (drop (Z.to_nat n) s). rewrite take_drop, Hlen.
  eauto using suffix_at_app.
Qed.

Lemma read_string_inv n bs off' :
  0 <= n -> read_string data off n = Ok (bs, off') ->
  zlen bs = n /\ utf8_valid bs = true /\ consumed bs off'.
Proof using Hs.
  intros Hn [[bs' o'] [E H]]%bind_Ok. destruct (utf8_valid bs') eqn:Hu; [|done].
  injection H as <- <-. by apply read_bytes_inv in E as [? ?].
Qed.

Lemma read_u16_inv v off' :
  read_u16 data off = Ok (v, off') -> is_u16 v /\ consumed (u16_le v) off'.
Proof using Hs.
  pose proof (suffix_at_bounds _ _ _ Hs). rewrite read_u16_bytes by lia.
  intros [[bs o] [E H']]%bind_Ok. injection H' as <- <-.
  apply read_bytes_inv in E as [Hl Hc]; [|lia].
  pose proof (le_val_range bs). rewrite Hl in *. unfold u16_le.
  replace 2%nat with (length bs) by (unfold zlen in *; lia). rewrite le_bytes_le_val.
  split; [unfold is_u16; lia|done].
Qed.

Lemma read_u32_inv v off' :
  read_u32 data off = Ok (v, off') -> is_u32 v /\ consumed (u32_le v) off'.
Proof using Hs.
  pose proof (suffix_at_bounds _ _ _ Hs). rewrite read_u32_bytes by lia.
  intros [[bs o] [E H']]%bind_Ok. injection H' as <- <-.
  apply read_bytes_inv in E as [Hl Hc]; [|lia].
  pose proof (le_val_range bs). rewrite Hl in *. unfold u32_le.
  replace 4%nat with (length bs) by (unfold zlen in *; lia). rewrite le_bytes_le_val.
  split; [unfold is_u32; lia|done].
Qed.

Lemma read_u64_inv v off' :
  read_u64 data off = Ok (v, off') -> is_u64 v /\ consumed (u64_le v) off'.
Proof using Hs.
  rewrite read_u64_bytes.
  intros [[bs o] [E H']]%bind_Ok. injection H' as <- <-.
  apply read_bytes_inv in E as [Hl Hc]; [|lia].
  pose proof (le_val_range bs). rewrite Hl in *. unfold u64_le.
  replace 8%nat with (length bs) by (unfold zlen in *; lia). rewrite le_bytes_le_val.
  split; [unfold is_u64; lia|done].
Qed.

Lemma read_i64_inv v off' :
  read_i64 data off = Ok (v, off') -> is_i64 v /\ consumed (i64_le v) off'.
Proof using Hs.
  rewrite read_i64_bytes.
  intros [[bs o] [E H']]%bind_Ok. injection H' as <- <-.
  apply read_bytes_inv in E as [Hl Hc]; [|lia].
  pose proof (le_val_range bs) as Hr. rewrite Hl in Hr. unfold i64_le.
  rewrite i64_bits_of_bits by (unfold is_u64; lia).
  replace 8%nat with (length bs) by (unfold zlen in *; lia). rewrite le_bytes_le_val.
  split; [apply i64_of_bits_range; unfold is_u64; lia|done].
Qed.
End ReadInv.

(** ** No reader panics *)

(** On any input a reader returns a value satisfying [P] at a later offset
    inside the buffer, or an error. *)
Definition safe_read {A} (P : A -> Prop) (data : bytes) (off : Z) (r : res (A * Z)) : Prop :=
  match r with
  | Ok (a, off') => P a /\ off <= off' <= zlen data
  | Err _ => True
  | Panic => False
  end.

Lemma safe_read_bytes data off n :
  0 <= off -> 0 <= n -> safe_read (fun bs => zlen bs = n) data off (read_bytes data off n).
Proof.
  intros. unfold read_bytes. destruct (Z.ltb_spec (zlen data) (off + n)); [done|].
  rewrite slice_chk_ok by lia. simpl. rewrite zlen_slice; lia.
Qed.

Lemma safe_read_string data off n :
  0 <= off -> 0 <= n -> safe_read (fun _ => True) data off (read_string data off n).
Proof.
  intros. pose proof (safe_read_bytes data off n) as Hs. unfold read_string.
  destruct (read_bytes data off n) as [[bs o]| |]; simpl in *; [|tauto..].
  destruct (utf8_valid bs); simpl; tauto.
Qed.

Lemma safe_read_fixed {A} (P : A -> Prop) data off n (f : bytes -> A) :
  0 <= off -> 0 <= n -> (forall bs, P (f bs)) ->
  safe_read P data off ('(bs, o) ← read_bytes data off n; Ok (f bs, o)).
Proof.
  intros. pose proof (safe_read_bytes data off n) as Hs.
  destruct (read_bytes data off n) as [[bs o]| |]; simpl in *; naive_solver.
Qed.

Lemma le_val_nonneg l : 0 <= le_val l.
Proof. apply le_val_range. Qed.

Lemma safe_read_u16 data off : 0 <= off -> safe_read (Z.le 0) data off (read_u16 data off).
Proof. intros. rewrite read_u16_bytes by done. apply safe_read_fixed; auto using le_val_nonneg; lia. Qed.
Lemma safe_read_u32 data off : 0 <= off -> safe_read (Z.le 0) data off (read_u32 data off).
Proof. intros. rewrite read_u32_bytes by done. apply safe_read_fixed; auto using le_val_nonneg; lia. Qed.
Lemma safe_read_u64 data off : 0 <= off -> safe_read (Z.le 0) data off (read_u64 data off).
Proof. intros. rewrite read_u64_bytes. apply safe_read_fixed; auto using le_val_nonneg; lia. Qed.
Lemma safe_read_i64 data off :
  0 <= off -> safe_read (fun _ => True) data off (read_i64 data off).
Proof. intros. rewrite read_i64_bytes. apply safe_read_fixed; auto; lia. Qed.

(** Sequencing: after a safe read, the continuation runs at a valid offset. *)
Lemma safe_bind {A B} P Q data off (r : res (A * Z)) (k : A -> Z -> res (B * Z)) :
  safe_read P data off r ->
  (forall a o, P a -> off <= o <= zlen data -> safe_read Q data o (k a o)) ->
  safe_read Q data off ('(a, o) ← r; k a o).
Proof.
  intros Hr Hk. destruct r as [[a o]| |]; simpl in *; [|done..].
  destruct Hr as [Pa Ho]. specialize (Hk a o Pa Ho).
  destruct (k a o) as [[b o']| |]; simpl in *; [|done..]. naive_solver lia.
Qed.

Lemma safe_ret {A} (P : A -> Prop) data off a :
  P a -> off <= zlen data -> safe_read P data off (Ok (a, off)).
Proof. intros; split; [done|lia]. Qed.

Create HintDb safe_read.
#[export] Hint Resolve safe_read_bytes safe_read_string safe_read_u16 safe_read_u32
  safe_read_u64 safe_read_i64 : safe_read.
#[export] Hint Extern 1 (_ <= _) => lia : safe_read.

(** Walk a chain of reads, one [safe_bind] per field. *)
Ltac safe_step :=
  lazymatch goal with
  | |- safe_read _ _ _ (match ?b with true => _ | false => _ end) => destruct b eqn:?; [|]
  | |- safe_read _ _ _ (mbind _ _) =>
      eapply safe_bind; [solve [eauto 3 with safe_read]|intros ? ? ? ?; cbv beta]
  | |- safe_read _ _ _ (Ok _) => apply safe_ret; [auto|lia]
  | |- safe_read _ _ _ (Err _) => exact I
  end.

(** ** Tactics for codec proofs *)

Lemma bind_ret {A B} (a : A) (f : A -> res B) : Ok a ≫= f = f a.
Proof. done. Qed.

(** [encode_step H tac]: the goal reads the next field and [H : suffix_at data
    off (field ++ rest)] says what was written there; [tac] discharges the range
    conditions. *)
Ltac discharge E tac :=
  repeat lazymatch type of E with
  | ?P -> _ => let HP := fresh in assert (HP : P) by tac; specialize (E HP); clear HP
  end.

Ltac encode_fin E H tac :=
  discharge E tac;
  let E1 := fresh in let H' := fresh in
  destruct E as [E1 H']; rewrite E1, bind_ret; clear E1 H; rename H' into H; cbv beta iota.

Ltac encode_step H tac :=
  let E := fresh in
  rewrite <- ?app_assoc in H;
  lazymatch goal with
  | |- context [read_u16 ?d ?o] => pose proof (read_u16_at d o _ _ H) as E
  | |- context [read_u32 ?d ?o] => pose proof (read_u32_at d o _ _ H) as E
  | |- context [read_u64 ?d ?o] => pose proof (read_u64_at d o _ _ H) as E
  | |- context [read_i64 ?d ?o] => pose proof (read_i64_at d o _ _ H) as E
  | |- context [read_string ?d ?o ?n] => pose proof (read_string_at d o _ _ n H) as E
  | |- context [read_bytes ?d ?o ?n] => pose proof (read_bytes_at d o _ _ n H) as E
  end; encode_fin E H tac.

Ltac nonneg := unfold is_u16, is_u32 in *; lia.

Ltac decode_fin F Hs o rest :=
  repeat lazymatch type of F with _ /\ _ => let G := fresh in destruct F as [G F] end;
  let Heq := fresh in let Hs' := fresh in
  destruct F as [rest [Heq [-> Hs']]]; clear Hs; rename Hs' into Hs;
  lazymatch type of Heq with ?s = _ => subst s end.

(** [decode_step H Hs v]: [H] is a successful run that starts by reading a field
    and [Hs] is the buffer at that point; the field is [v], the buffer after it
    replaces [Hs]. *)
Ltac decode_step H Hs v :=
  let E := fresh in let o := fresh in let F := fresh in let rest := fresh "rest" in
  apply bind_Ok in H as [[v o] [E H]]; cbv beta iota in H;
  lazymatch type of E with
  | read_u16 _ _ = _ => pose proof (read_u16_inv _ _ _ Hs _ _ E) as F
  | read_u32 _ _ = _ => pose proof (read_u32_inv _ _ _ Hs _ _ E) as F
  | read_u64 _ _ = _ => pose proof (read_u64_inv _ _ _ Hs _ _ E) as F
  | read_i64 _ _ = _ => pose proof (read_i64_inv _ _ _ Hs _ _ E) as F
  | read_string _ _ ?n = _ => pose proof (read_string_inv _ _ _ Hs n _ _ ltac:(nonneg) E) as F
  | read_bytes _ _ ?n = _ => pose proof (read_bytes_inv _ _ _ Hs n _ _ ltac:(nonneg) E) as F
  end; clear E; decode_fin F Hs o rest.

(** ** Fields at fixed positions, and writes into a fixed buffer *)

(** [uN::from_le_bytes(data[a..a + n])]; out of range it panics. *)
Definition le_at (data : bytes) (a n : Z) : res Z :=
  bs ← slice_chk data a (a + n); Ok (le_val bs).

(** [buffer[off..off + x.len()].copy_from_slice(x)]. *)
Definition copy_at (buffer : bytes) (off : Z) (x : bytes) : res bytes :=
  if (0 <=? off) && (off + zlen x <=? zlen buffer)
  then Ok (take (Z.to_nat off) buffer ++ x ++ drop (Z.to_nat (off + zlen x)) buffer)
  else Panic.

Definition zeros (n : Z) : bytes := replicate (Z.to_nat n) Byte.x00.

Lemma zlen_zeros n : 0 <= n -> zlen (zeros n) = n.
Proof. intros. unfold zlen, zeros. rewrite length_replicate. lia. Qed.

Lemma zeros_split n m : 0 <= n -> 0 <= m -> zeros (n + m) = zeros n ++ zeros m.
Proof. intros. unfold zeros. rewrite Z2Nat.inj_add by lia. apply replicate_add. Qed.

Lemma copy_at_app pre old post x off :
  zlen pre = off -> zlen x = zlen old ->
  copy_at (pre ++ old ++ post) off x = Ok (pre ++ x ++ post).
Proof.
  intros <- Hx. unfold copy_at.
  rewrite (proj2 (Z.leb_le _ _)) by zlen_lia. rewrite (proj2 (Z.leb_le _ _)) by zlen_lia.
  simpl. do 2 f_equal.
  - unfold zlen. by rewrite Nat2Z.id, take_app_length.
  - f_equal. rewrite Hx, app_assoc. replace (Z.to_nat (zlen pre + zlen old)) with (length (pre ++ old)).
    + by rewrite drop_app_length.
    + rewrite length_app. unfold zlen. lia.
Qed.

Lemma copy_at_start old post x :
  zlen x = zlen old -> copy_at (old ++ post) 0 x = Ok (x ++ post).
Proof. intros. by apply (copy_at_app [] old post x 0). Qed.

Lemma le_at_at data off x rest n :
  suffix_at data off (x ++ rest) -> zlen x = n -> le_at data off n = Ok (le_val x).
Proof. intros H Hn. unfold le_at. by rewrite (suffix_at_slice_chk _ _ _ _ _ H Hn). Qed.

Lemma le_at_ok data a n :
  0 <= a -> 0 <= n -> a + n <= zlen data -> le_at data a n = Ok (le_val (slice data a (a + n))).
Proof. intros. unfold le_at. by rewrite slice_chk_ok by lia. Qed.
