(* ===== verification/EntryFormat.v ===== *)
(** The entry header that precedes every key/value pair of the append log:
    entry types (entry_type.rs), hash algorithms (hash_algorithm.rs),
    compression tags (compression.rs) and the header itself (entry_header.rs),
    all under src/aeordb-lib/src/engine/.  The BLAKE3 function comes from a
    third-party crate and is the interface [Blake3]. *)
From S2P Require Import Prelude.

Local Open Scope Z_scope.

(** What the code relies on of the blake3 crate: a digest of 32 bytes. *)
Class Blake3 := {
  blake3 : bytes -> bytes;
  blake3_length : forall data, length (blake3 data) = 32%nat;
}.

(** ** Entry types *)

Inductive EntryType :=
| Chunk | FileRecordEntry | DirectoryIndex | DeletionRecordEntry
| Snapshot | Void | Fork | Symlink.

#[export] Instance EntryType_eq_dec : EqDecision EntryType.
Proof. solve_decision. Defined.

Definition EntryType_to_u8 (t : EntryType) : Z :=
  match t with
  | Chunk => 0x01 | FileRecordEntry => 0x02 | DirectoryIndex => 0x03
  | DeletionRecordEntry => 0x04 | Snapshot => 0x05 | Void => 0x06
  | Fork => 0x07 | Symlink => 0x08
  end.

Definition EntryType_from_u8 (value : Z) : res EntryType :=
  match value with
  | 0x01 => Ok Chunk
  | 0x02 => Ok FileRecordEntry
  | 0x03 => Ok DirectoryIndex
  | 0x04 => Ok DeletionRecordEntry
  | 0x05 => Ok Snapshot
  | 0x06 => Ok Void
  | 0x07 => Ok Fork
  | 0x08 => Ok Symlink
  | _ => Err (InvalidEntryType value)
  end.

(** ** Hash algorithms *)

Inductive HashAlgorithm := Blake3_256 | Sha256 | Sha512 | Sha3_256 | Sha3_512.

#[export] Instance HashAlgorithm_eq_dec : EqDecision HashAlgorithm.
Proof. solve_decision. Defined.

Definition hash_length (a : HashAlgorithm) : Z :=
  match a with
  | Blake3_256 => 32
  | Sha256 => 32
  | Sha512 => 64
  | Sha3_256 => 32
  | Sha3_512 => 64
  end.

Definition HashAlgorithm_to_u16 (a : HashAlgorithm) : Z :=
  match a with
  | Blake3_256 => 0x0001 | Sha256 => 0x0002 | Sha512 => 0x0003
  | Sha3_256 => 0x0004 | Sha3_512 => 0x0005
  end.

Definition HashAlgorithm_from_u16 (value : Z) : option HashAlgorithm :=
  match value with
  | 0x0001 => Some Blake3_256
  | 0x0002 => Some Sha256
  | 0x0003 => Some Sha512
  | 0x0004 => Some Sha3_256
  | 0x0005 => Some Sha3_512
  | _ => None
  end.

Definition compute_hash `{Blake3} (a : HashAlgorithm) (data : bytes) : res bytes :=
  match a with
  | Blake3_256 => Ok (blake3 data)
  | other => Err (InvalidHashAlgorithm (HashAlgorithm_to_u16 other))
  end.

(** ** Compression tags *)

Inductive CompressionAlgorithm := NoCompression | Zstd.

Definition CompressionAlgorithm_from_u8 (value : Z) : option CompressionAlgorithm :=
  match value with
  | 0x00 => Some NoCompression
  | 0x01 => Some Zstd
  | _ => None
  end.

Definition CompressionAlgorithm_to_u8 (a : CompressionAlgorithm) : Z :=
  match a with NoCompression => 0x00 | Zstd => 0x01 end.

(** ** The entry header *)

Definition ENTRY_MAGIC : Z := 0x0AE012DB.
Definition FLAG_SYSTEM : Z := 0x01.
Definition FIXED_HEADER_SIZE : Z := 31.
Definition MAX_KEY_OR_VALUE_BYTES : Z := Z.shiftl 1 30.

(** A [u8] field is a [byte]; wider integers are [Z]. *)
Record EntryHeader := {
  eh_entry_version : byte;
  eh_entry_type : EntryType;
  eh_flags : byte;
  eh_hash_algo : HashAlgorithm;
  eh_compression_algo : CompressionAlgorithm;
  eh_encryption_algo : byte;
  eh_key_length : Z;
  eh_value_length : Z;
  eh_timestamp : Z;
  eh_total_length : Z;
  eh_hash : bytes;
}.

Definition header_size (h : EntryHeader) : Z :=
  FIXED_HEADER_SIZE + hash_length (eh_hash_algo h).

Definition is_system_entry (h : EntryHeader) : bool :=
  negb (Z.land (b2z (eh_flags h)) FLAG_SYSTEM =? 0).

(** The sum is the source's [u32] addition of the three casts. *)
Definition compute_total_length (a : HashAlgorithm) (key_length value_length : Z) : res Z :=
  let max := MAX_KEY_OR_VALUE_BYTES in
  if max <? key_length then Err (InvalidInput "key length {} exceeds maximum {} bytes") else
  if max <? value_length then Err (InvalidInput "value length {} exceeds maximum {} bytes") else
  let header_size := FIXED_HEADER_SIZE + hash_length a in
  Ok ((header_size mod 2^32 + key_length mod 2^32 + value_length mod 2^32) mod 2^32).

Definition entry_hash `{Blake3} (t : EntryType) (key value : bytes) (a : HashAlgorithm) : res bytes :=
  compute_hash a (z2b (EntryType_to_u8 t) :: key ++ value).

Definition verify `{Blake3} (h : EntryHeader) (key value : bytes) : bool :=
  match entry_hash (eh_entry_type h) key value (eh_hash_algo h) with
  | Ok computed => bool_decide (computed = eh_hash h)
  | _ => false
  end.

Definition EntryHeader_serialize (h : EntryHeader) : bytes :=
  u32_le ENTRY_MAGIC
  ++ [eh_entry_version h]
  ++ [z2b (EntryType_to_u8 (eh_entry_type h))]
  ++ [eh_flags h]
  ++ u16_le (HashAlgorithm_to_u16 (eh_hash_algo h))
  ++ [z2b (CompressionAlgorithm_to_u8 (eh_compression_algo h))]
  ++ [eh_encryption_algo h]
  ++ u32_le (eh_key_length h)
  ++ u32_le (eh_value_length h)
  ++ i64_le (eh_timestamp h)
  ++ u32_le (eh_total_length h)
  ++ eh_hash h.

(** [Read::read_exact] on the bytes left in the stream. *)
Definition read_exact (n : Z) (stream : bytes) : res (bytes * bytes) :=
  if zlen stream <? n then Err UnexpectedEof
  else Ok (take (Z.to_nat n) stream, drop (Z.to_nat n) stream).

(** [buffer[i]] of a fixed-size array, at a constant index inside it. *)
Definition byte_at (l : bytes) (i : nat) : byte := nth i l Byte.x00.

(** Returns the header with what is left of the stream. *)
Definition EntryHeader_deserialize (stream : bytes) : res (EntryHeader * bytes) :=
  '(buf, stream) ← read_exact FIXED_HEADER_SIZE stream;
  let magic := le_val (slice buf 0 4) in
  if negb (magic =? ENTRY_MAGIC) then Err InvalidMagic else
  let entry_version := byte_at buf 4 in
  entry_type ← EntryType_from_u8 (b2z (byte_at buf 5));
  let flags := byte_at buf 6 in
  let hash_algo_raw := le_val (slice buf 7 9) in
  hash_algo ← ok_or (HashAlgorithm_from_u16 hash_algo_raw) (InvalidHashAlgorithm hash_algo_raw);
  let compression_algo_raw := b2z (byte_at buf 9) in
  compression_algo ← ok_or (CompressionAlgorithm_from_u8 compression_algo_raw)
    (CorruptEntry 0 "Invalid compression algorithm: 0x{:02X}");
  let encryption_algo := byte_at buf 10 in
  let key_length := le_val (slice buf 11 15) in
  let value_length := le_val (slice buf 15 19) in
  let timestamp := i64_of_bits (le_val (slice buf 19 27)) in
  let total_length := le_val (slice buf 27 31) in
  '(hash, stream) ← read_exact (hash_length hash_algo) stream;
  Ok ({| eh_entry_version := entry_version; eh_entry_type := entry_type; eh_flags := flags;
         eh_hash_algo := hash_algo; eh_compression_algo := compression_algo;
         eh_encryption_algo := encryption_algo; eh_key_length := key_length;
         eh_value_length := value_length; eh_timestamp := timestamp;
         eh_total_length := total_length; eh_hash := hash |}, stream).

(** The ranges the Rust types impose, and the length of the hash field. *)
Record EntryHeader_wf (h : EntryHeader) : Prop := {
  wf_key_length : is_u32 (eh_key_length h);
  wf_value_length : is_u32 (eh_value_length h);
  wf_timestamp : is_i64 (eh_timestamp h);
  wf_total_length : is_u32 (eh_total_length h);
  wf_hash : zlen (eh_hash h) = hash_length (eh_hash_algo h);
}.

(** ** The header codec *)

Lemma EntryType_to_from t : EntryType_from_u8 (EntryType_to_u8 t) = Ok t.
Proof. by destruct t. Qed.

Lemma EntryType_from_to v t : EntryType_from_u8 v = Ok t -> v = EntryType_to_u8 t.
Proof.
  unfold EntryType_from_u8. intros H.
  repeat (case_match; try done); by injection H as <-.
Qed.

Lemma HashAlgorithm_to_from a : HashAlgorithm_from_u16 (HashAlgorithm_to_u16 a) = Some a.
Proof. by destruct a. Qed.

Lemma HashAlgorithm_from_to v a : HashAlgorithm_from_u16 v = Some a -> v = HashAlgorithm_to_u16 a.
Proof.
  unfold HashAlgorithm_from_u16. intros H.
  repeat (case_match; try done); by injection H as <-.
Qed.

Lemma CompressionAlgorithm_to_from a :
  CompressionAlgorithm_from_u8 (CompressionAlgorithm_to_u8 a) = Some a.
Proof. by destruct a. Qed.

Lemma CompressionAlgorithm_from_to v a :
  CompressionAlgorithm_from_u8 v = Some a -> v = CompressionAlgorithm_to_u8 a.
Proof.
  unfold CompressionAlgorithm_from_u8. intros H.
  repeat (case_match; try done); by injection H as <-.
Qed.

Lemma EntryType_u8 t : 0 <= EntryType_to_u8 t < 256.
Proof. destruct t; simpl; lia. Qed.
Lemma HashAlgorithm_u16 a : is_u16 (HashAlgorithm_to_u16 a).
Proof. unfold is_u16. destruct a; simpl; lia. Qed.
Lemma CompressionAlgorithm_u8 a : 0 <= CompressionAlgorithm_to_u8 a < 256.
Proof. destruct a; simpl; lia. Qed.

Lemma read_exact_app n x rest : zlen x = n -> read_exact n (x ++ rest) = Ok (x, rest).
Proof.
  intros <-. unfold read_exact. destruct (Z.ltb_spec (zlen (x ++ rest)) (zlen x)); [zlen_lia|].
  unfold zlen. by rewrite Nat2Z.id, take_app_length, drop_app_length.
Qed.

Lemma read_exact_inv n s x rest :
  0 <= n -> read_exact n s = Ok (x, rest) -> s = x ++ rest /\ zlen x = n.
Proof.
  unfold read_exact. intros Hn. destruct (Z.ltb_spec (zlen s) n); [done|].
  intros [= <- <-]. split; [by rewrite take_drop|].
  unfold zlen in *. rewrite length_take. lia.
Qed.

Lemma hash_length_pos a : 0 < hash_length a.
Proof. by destruct a. Qed.

Lemma byte_at_slice l i n :
  0 <= i < zlen l -> n = Z.to_nat i -> slice l i (i + 1) = [byte_at l n].
Proof.
  intros Hi ->. apply slice_one; [lia|]. unfold byte_at, zlen in *.
  destruct (nth_lookup_or_length l (Z.to_nat i) Byte.x00); [done|lia].
Qed.

(** The fixed part is 31 bytes, whatever the header. *)
Lemma EntryHeader_serialize_split h :
  exists fixed, EntryHeader_serialize h = fixed ++ eh_hash h /\ zlen fixed = FIXED_HEADER_SIZE.
Proof.
  eexists. split.
  - unfold EntryHeader_serialize. rewrite !app_assoc. reflexivity.
  - by autorewrite with zlen.
Qed.

Lemma EntryHeader_decode_encode h rest :
  EntryHeader_wf h -> EntryHeader_deserialize (EntryHeader_serialize h ++ rest) = Ok (h, rest).
Proof.
  intros [Hk Hv Ht Hl Hh].
  unfold EntryHeader_deserialize.
  replace (EntryHeader_serialize h ++ rest) with
    ((u32_le ENTRY_MAGIC ++ [eh_entry_version h] ++ [z2b (EntryType_to_u8 (eh_entry_type h))]
      ++ [eh_flags h] ++ u16_le (HashAlgorithm_to_u16 (eh_hash_algo h))
      ++ [z2b (CompressionAlgorithm_to_u8 (eh_compression_algo h))] ++ [eh_encryption_algo h]
      ++ u32_le (eh_key_length h) ++ u32_le (eh_value_length h) ++ i64_le (eh_timestamp h)
      ++ u32_le (eh_total_length h)) ++ (eh_hash h ++ rest))
    by (unfold EntryHeader_serialize; by rewrite <- !app_assoc).
  set (buf := u32_le ENTRY_MAGIC ++ _).
  rewrite read_exact_app by reflexivity. simpl mbind.
  change (slice buf 7 9) with (u16_le (HashAlgorithm_to_u16 (eh_hash_algo h))).
  change (slice buf 11 15) with (u32_le (eh_key_length h)).
  change (slice buf 15 19) with (u32_le (eh_value_length h)).
  change (slice buf 19 27) with (i64_le (eh_timestamp h)).
  change (slice buf 27 31) with (u32_le (eh_total_length h)).
  change (byte_at buf 5) with (z2b (EntryType_to_u8 (eh_entry_type h))).
  change (byte_at buf 9) with (z2b (CompressionAlgorithm_to_u8 (eh_compression_algo h))).
  rewrite (le_val_u32 (eh_key_length h)), (le_val_u32 (eh_value_length h)), (le_val_u32 (eh_total_length h)), le_val_i64 by done.
  rewrite le_val_u16 by apply HashAlgorithm_u16.
  rewrite !b2z_z2b, (Z.mod_small (EntryType_to_u8 _)) by apply EntryType_u8.
  rewrite Z.mod_small by apply CompressionAlgorithm_u8.
  rewrite EntryType_to_from, HashAlgorithm_to_from, CompressionAlgorithm_to_from. simpl.
  rewrite read_exact_app by done. simpl. by destruct h.
Qed.

Lemma EntryHeader_encode_decode s h rest :
  EntryHeader_deserialize s = Ok (h, rest) ->
  s = EntryHeader_serialize h ++ rest /\ EntryHeader_wf h.
Proof.
  unfold EntryHeader_deserialize. intros [[buf s1] [E1 H]]%bind_Ok.
  apply if_Err_Ok in H as [Hmagic%negb_false_iff%Z.eqb_eq H].
  apply bind_Ok in H as [t [Et%EntryType_from_to H]].
  apply bind_Ok in H as [a [Ea%ok_or_Ok%HashAlgorithm_from_to H]].
  apply bind_Ok in H as [c [Ec%ok_or_Ok%CompressionAlgorithm_from_to H]].
  apply bind_Ok in H as [[hb s2] [E2 H]]. injection H as <- <-.
  destruct (read_exact_inv FIXED_HEADER_SIZE _ _ _ ltac:(done) E1) as [-> Hlen].
  pose proof (hash_length_pos a).
  destruct (read_exact_inv (hash_length a) _ _ _ ltac:(lia) E2) as [-> Hh].
  unfold FIXED_HEADER_SIZE in Hlen. clear E1 E2. split.
  - unfold EntryHeader_serialize.
    cbn [eh_entry_version eh_entry_type eh_flags eh_hash_algo eh_compression_algo
      eh_encryption_algo eh_key_length eh_value_length eh_timestamp eh_total_length eh_hash].
    rewrite <- Hmagic, <- Et, <- Ea, <- Ec, !z2b_b2z, u16_le_slice, !u32_le_slice, i64_le_slice by lia.
    rewrite <- (byte_at_slice buf 4), <- (byte_at_slice buf 5), <- (byte_at_slice buf 6),
      <- (byte_at_slice buf 9), <- (byte_at_slice buf 10) by lia.
    rewrite <- !app_assoc, !app_assoc, <- !slice_split by lia. simpl.
    by rewrite <- Hlen, slice_all.
  - pose proof (le_val_slice_range buf 11 15). pose proof (le_val_slice_range buf 15 19).
    pose proof (le_val_slice_range buf 19 27). pose proof (le_val_slice_range buf 27 31).
    split; simpl; try done; [..|apply i64_of_bits_range|]; unfold is_u32, is_u64; lia.
Qed.

(** C38. The header codec is exact: a stream decodes to [h] with [rest] left over if
    and only if it is the encoding of a well-formed [h] followed by [rest]. *)
Theorem EntryHeader_codec s h rest :
  EntryHeader_deserialize s = Ok (h, rest) <->
  s = EntryHeader_serialize h ++ rest /\ EntryHeader_wf h.
Proof.
  split; [apply EntryHeader_encode_decode|].
  intros [-> Hwf]. by apply EntryHeader_decode_encode.
Qed.

Lemma EntryHeader_deserialize_safe s : EntryHeader_deserialize s <> Panic.
Proof.
  unfold EntryHeader_deserialize, read_exact, EntryType_from_u8, ok_or.
  repeat (simpl; case_match; try done).
Qed.

(** The decoder never panics: on any stream it returns a header or an error. *)
Theorem EntryHeader_deserialize_total s : EntryHeader_deserialize s <> Panic.
Proof. apply EntryHeader_deserialize_safe. Qed.

(** C40. [compute_total_length]: within the 1 GiB caps the [u32] sum does not wrap,
    so the stored length is the true length; beyond a cap it is refused. *)
Theorem compute_total_length_spec a k v :
  0 <= k -> 0 <= v ->
  if (k <=? MAX_KEY_OR_VALUE_BYTES) && (v <=? MAX_KEY_OR_VALUE_BYTES)
  then compute_total_length a k v = Ok (FIXED_HEADER_SIZE + hash_length a + k + v)
       /\ is_u32 (FIXED_HEADER_SIZE + hash_length a + k + v)
  else exists msg, compute_total_length a k v = Err (InvalidInput msg).
Proof.
  intros Hk Hv. unfold compute_total_length, MAX_KEY_OR_VALUE_BYTES, FIXED_HEADER_SIZE, is_u32.
  change (Z.shiftl 1 30) with 1073741824.
  assert (32 <= hash_length a <= 64) by (destruct a; simpl; lia).
  destruct (Z.leb_spec k 1073741824); destruct (Z.ltb_spec 1073741824 k); simpl; try lia; [|eauto].
  destruct (Z.leb_spec v 1073741824); destruct (Z.ltb_spec 1073741824 v); simpl; try lia; [|eauto].
  split; [|lia]. f_equal.
  rewrite (Z.mod_small (31 + _)), (Z.mod_small k), (Z.mod_small v), Z.mod_small; lia.
Qed.

Lemma verify_spec `{Blake3} h key value :
  verify h key value = true <->
  eh_hash_algo h = Blake3_256 /\
  eh_hash h = blake3 (z2b (EntryType_to_u8 (eh_entry_type h)) :: key ++ value).
Proof.
  unfold verify, entry_hash, compute_hash.
  destruct (eh_hash_algo h); rewrite ?bool_decide_eq_true; naive_solver.
Qed.

(** Once a header verifies one key/value pair, and barring a BLAKE3 collision
    between the two hashed inputs, it verifies another pair exactly when the
    two have the same concatenation: the hash binds the bytes of key and value,
    and the split between them only through the header's length fields. *)
Theorem verify_binds `{Blake3} h k1 v1 k2 v2 :
  (blake3 (z2b (EntryType_to_u8 (eh_entry_type h)) :: k1 ++ v1) =
   blake3 (z2b (EntryType_to_u8 (eh_entry_type h)) :: k2 ++ v2) -> k1 ++ v1 = k2 ++ v2) ->
  verify h k1 v1 = true ->
  (verify h k2 v2 = true <-> k1 ++ v1 = k2 ++ v2).
Proof.
  rewrite !verify_spec. intros Hinj [Ha Hh]. split.
  - intros [_ Hh2]. apply Hinj. congruence.
  - intros <-. done.
Qed.

(** ** Witnesses *)

(** A function with BLAKE3's output length, to instantiate the parameter: the
    input cut or padded to 32 bytes. *)
Definition pad32 (data : bytes) : bytes := take 32 (data ++ replicate 32 Byte.x00).

Lemma length_pad32 data : length (pad32 data) = 32%nat.
Proof. unfold pad32. rewrite length_take, length_app, length_replicate. lia. Qed.

Definition blake3_pad : Blake3 := {| blake3 := pad32; blake3_length := length_pad32 |}.

Definition sample_header : EntryHeader :=
  {| eh_entry_version := Byte.x01; eh_entry_type := Chunk; eh_flags := Byte.x00;
     eh_hash_algo := Blake3_256; eh_compression_algo := NoCompression; eh_encryption_algo := Byte.x00;
     eh_key_length := 1; eh_value_length := 2; eh_timestamp := 1700000000000;
     eh_total_length := 66;
     eh_hash := @blake3 blake3_pad (map z2b [EntryType_to_u8 Chunk; 7; 8; 9]) |}.

Lemma compute_total_length_spec_witness :
  compute_total_length Blake3_256 3 5 = Ok (FIXED_HEADER_SIZE + hash_length Blake3_256 + 3 + 5)
  /\ is_u32 (FIXED_HEADER_SIZE + hash_length Blake3_256 + 3 + 5).
Proof. exact (compute_total_length_spec Blake3_256 3 5 ltac:(lia) ltac:(lia)). Defined.

Lemma verify_binds_witness :
  @verify blake3_pad sample_header [z2b 7] [z2b 8; z2b 9] = true /\
  (@verify blake3_pad sample_header [z2b 7; z2b 8] [z2b 9] = true
     <-> [z2b 7] ++ [z2b 8; z2b 9] = [z2b 7; z2b 8] ++ [z2b 9]).
Proof.
  split; [vm_compute; reflexivity|].
  apply (@verify_binds blake3_pad sample_header [z2b 7] [z2b 8; z2b 9]); [|vm_compute; reflexivity].
  intros _. vm_compute. reflexivity.
Defined.
