(* ===== verification/Records.v ===== *)
(** The values stored under the entry headers: deletion records
    (deletion_record.rs), directory children (directory_entry.rs), file records
    (file_record.rs) and symlink records (symlink_record.rs), all under
    src/aeordb-lib/src/engine/.  A Rust [String] is its UTF-8 bytes; [now] stands
    for the wall clock where a constructor reads it. *)
From S2P Require Import Prelude Codec EntryFormat.

Local Open Scope Z_scope.

(** [opt.as_deref().unwrap_or("").as_bytes()] *)
Definition unwrap_or_empty (o : option bytes) : bytes := default [] o.

(** A zero length means absent, a non-zero length is a string that follows. *)
Definition read_opt_string (data : bytes) (offset len : Z) : res (option bytes * Z) :=
  if len =? 0 then Ok (None, offset)
  else '(s, offset) ← read_string data offset len; Ok (Some s, offset).

(** ** Deletion records *)

Record DeletionRecord := {
  dr_path : bytes;
  dr_deleted_at : Z;
  dr_reason : option bytes;
}.

Definition DeletionRecord_new (now : Z) (path : bytes) (reason : option bytes) : DeletionRecord :=
  {| dr_path := path; dr_deleted_at := now; dr_reason := reason |}.

(** The length casts are [as u16]: longer strings keep only the low 16 bits. *)
Definition DeletionRecord_serialize (r : DeletionRecord) : bytes :=
  let path_bytes := dr_path r in
  let reason_bytes := unwrap_or_empty (dr_reason r) in
  u16_le (zlen path_bytes mod 2^16)
  ++ path_bytes
  ++ i64_le (dr_deleted_at r)
  ++ u16_le (zlen reason_bytes mod 2^16)
  ++ reason_bytes.

Definition DeletionRecord_deserialize_v0 (data : bytes) : res DeletionRecord :=
  '(path_length, offset) ← read_u16 data 0;
  '(path, offset) ← read_string data offset path_length;
  '(deleted_at, offset) ← read_i64 data offset;
  '(reason_length, offset) ← read_u16 data offset;
  '(reason, offset) ← read_opt_string data offset reason_length;
  Ok {| dr_path := path; dr_deleted_at := deleted_at; dr_reason := reason |}.

Definition DeletionRecord_deserialize (data : bytes) (version : Z) : res DeletionRecord :=
  match version with
  | 0 => DeletionRecord_deserialize_v0 data
  | _ => Err (InvalidEntryVersion version)
  end.

(** ** Directory children *)

Record ChildEntry := {
  ce_entry_type : byte;
  ce_hash : bytes;
  ce_total_size : Z;
  ce_created_at : Z;
  ce_updated_at : Z;
  ce_name : bytes;
  ce_content_type : option bytes;
  ce_virtual_time : Z;
  ce_node_id : Z;
}.

Definition ChildEntry_serialize (e : ChildEntry) (hash_length : Z) : res bytes :=
  let name_bytes := ce_name e in
  let content_type_bytes := unwrap_or_empty (ce_content_type e) in
  if u16_max <? zlen name_bytes
  then Err (InvalidInput "Name too long: {} bytes exceeds u16 max (65535)") else
  if u16_max <? zlen content_type_bytes
  then Err (InvalidInput "Content type too long: {} bytes exceeds u16 max (65535)") else
  Ok ([ce_entry_type e]
      ++ ce_hash e
      ++ u64_le (ce_total_size e)
      ++ i64_le (ce_created_at e)
      ++ i64_le (ce_updated_at e)
      ++ u16_le (zlen name_bytes)
      ++ name_bytes
      ++ u16_le (zlen content_type_bytes)
      ++ content_type_bytes
      ++ u64_le (ce_virtual_time e)
      ++ u64_le (ce_node_id e)).

(** Fields added after the first format default to 0 when the data ends. *)
Definition read_u64_or_0 (data : bytes) (offset : Z) : res (Z * Z) :=
  if offset + 8 <=? zlen data then read_u64 data offset else Ok (0, offset).

Definition ChildEntry_deserialize_v0 (data : bytes) (hash_length : Z) : res (ChildEntry * Z) :=
  let offset := 0 in
  if zlen data <=? offset then Err UnexpectedEof else
  entry_type ← index data offset;
  let offset := offset + 1 in
  '(hash, offset) ← read_bytes data offset hash_length;
  '(total_size, offset) ← read_u64 data offset;
  '(created_at, offset) ← read_i64 data offset;
  '(updated_at, offset) ← read_i64 data offset;
  '(name_length, offset) ← read_u16 data offset;
  '(name, offset) ← read_string data offset name_length;
  '(content_type_length, offset) ← read_u16 data offset;
  '(content_type, offset) ← read_opt_string data offset content_type_length;
  '(virtual_time, offset) ← read_u64_or_0 data offset;
  '(node_id, offset) ← read_u64_or_0 data offset;
  Ok ({| ce_entry_type := entry_type; ce_hash := hash; ce_total_size := total_size;
         ce_created_at := created_at; ce_updated_at := updated_at; ce_name := name;
         ce_content_type := content_type; ce_virtual_time := virtual_time;
         ce_node_id := node_id |}, offset).

Definition ChildEntry_deserialize (data : bytes) (hash_length version : Z) : res (ChildEntry * Z) :=
  match version with
  | 0 => ChildEntry_deserialize_v0 data hash_length
  | _ => Err (InvalidEntryVersion version)
  end.

Fixpoint serialize_child_entries (entries : list ChildEntry) (hash_length : Z) : res bytes :=
  match entries with
  | [] => Ok []
  | e :: entries =>
    bs ← ChildEntry_serialize e hash_length;
    rest ← serialize_child_entries entries hash_length;
    Ok (bs ++ rest)
  end.

(** The loop over [offset].  Every child consumes at least one byte, so as many
    rounds as there are bytes are enough; running out of them would show as a
    panic, which [child_entries_total] excludes. *)
Fixpoint child_entries_loop (fuel : nat) (data : bytes) (hash_length offset : Z) : res (list ChildEntry) :=
  if offset <? zlen data then
    match fuel with
    | O => Panic
    | S fuel =>
      rest ← slice_chk data offset (zlen data);
      '(entry, bytes_consumed) ← ChildEntry_deserialize rest hash_length 0;
      entries ← child_entries_loop fuel data hash_length (offset + bytes_consumed);
      Ok (entry :: entries)
    end
  else Ok [].

Definition deserialize_child_entries_v0 (data : bytes) (hash_length : Z) : res (list ChildEntry) :=
  child_entries_loop (length data) data hash_length 0.

Definition deserialize_child_entries (data : bytes) (hash_length version : Z) : res (list ChildEntry) :=
  match version with
  | 0 => deserialize_child_entries_v0 data hash_length
  | _ => Err (InvalidEntryVersion version)
  end.

(** ** File records *)

Definition CURRENT_FILE_RECORD_VERSION : Z := 1.

Record FileRecord := {
  fr_path : bytes;
  fr_content_type : option bytes;
  fr_total_size : Z;
  fr_created_at : Z;
  fr_updated_at : Z;
  fr_metadata : bytes;
  fr_content_hash : bytes;
  fr_chunk_hashes : list bytes;
}.

Definition FileRecord_new (now : Z) (path : bytes) (content_type : option bytes)
    (total_size : Z) (chunk_hashes : list bytes) : FileRecord :=
  {| fr_path := path; fr_content_type := content_type; fr_total_size := total_size;
     fr_created_at := now; fr_updated_at := now; fr_metadata := [];
     fr_content_hash := []; fr_chunk_hashes := chunk_hashes |}.

Definition FileRecord_serialize_v1 (r : FileRecord) (hash_length : Z) : res bytes :=
  let path_bytes := fr_path r in
  let content_type_bytes := unwrap_or_empty (fr_content_type r) in
  if u16_max <? zlen path_bytes
  then Err (InvalidInput "Path too long: {} bytes exceeds u16 max (65535)") else
  if u16_max <? zlen content_type_bytes
  then Err (InvalidInput "Content type too long: {} bytes exceeds u16 max (65535)") else
  if u32_max <? zlen (fr_metadata r)
  then Err (InvalidInput "Metadata too large: {} bytes exceeds u32 max") else
  if u32_max <? zlen (fr_chunk_hashes r)
  then Err (InvalidInput "Too many chunk hashes: {} exceeds u32 max") else
  if negb (zlen (fr_content_hash r) =? hash_length)
  then Err (InvalidInput "Content hash length {} does not match expected hash length {}") else
  Ok (u16_le (zlen path_bytes)
      ++ path_bytes
      ++ u16_le (zlen content_type_bytes)
      ++ content_type_bytes
      ++ u64_le (fr_total_size r)
      ++ i64_le (fr_created_at r)
      ++ i64_le (fr_updated_at r)
      ++ fr_content_hash r
      ++ u32_le (zlen (fr_metadata r))
      ++ fr_metadata r
      ++ u32_le (zlen (fr_chunk_hashes r))
      ++ concat (fr_chunk_hashes r)).

Definition FileRecord_serialize (r : FileRecord) (hash_length : Z) : res bytes :=
  FileRecord_serialize_v1 r hash_length.

(** [for _ in 0..chunk_count]: the count is a [u32] read from the data, so the
    loop is run on the bytes still available; each round with a non-empty hash
    consumes some, and a round that finds none left fails in [read_bytes]. *)
Fixpoint read_hashes (n : nat) (data : bytes) (offset hash_length : Z) : res (list bytes * Z) :=
  match n with
  | O => Ok ([], offset)
  | S n =>
    '(hash, offset) ← read_bytes data offset hash_length;
    '(hashes, offset) ← read_hashes n data offset hash_length;
    Ok (hash :: hashes, offset)
  end.

Definition FileRecord_deserialize_v0 (data : bytes) (hash_length : Z) : res FileRecord :=
  '(path_length, offset) ← read_u16 data 0;
  '(path, offset) ← read_string data offset path_length;
  '(content_type_length, offset) ← read_u16 data offset;
  '(content_type, offset) ← read_opt_string data offset content_type_length;
  '(total_size, offset) ← read_u64 data offset;
  '(created_at, offset) ← read_i64 data offset;
  '(updated_at, offset) ← read_i64 data offset;
  '(metadata_length, offset) ← read_u32 data offset;
  '(metadata, offset) ← read_bytes data offset metadata_length;
  '(chunk_count, offset) ← read_u32 data offset;
  '(chunk_hashes, offset) ← read_hashes (Z.to_nat chunk_count) data offset hash_length;
  if negb (offset =? zlen data)
  then Err (InvalidInput "Invalid FileRecord v0 trailing bytes: {} bytes") else
  Ok {| fr_path := path; fr_content_type := content_type; fr_total_size := total_size;
        fr_created_at := created_at; fr_updated_at := updated_at; fr_metadata := metadata;
        fr_content_hash := []; fr_chunk_hashes := chunk_hashes |}.

Definition FileRecord_deserialize_v1 (data : bytes) (hash_length : Z) : res FileRecord :=
  '(path_length, offset) ← read_u16 data 0;
  '(path, offset) ← read_string data offset path_length;
  '(content_type_length, offset) ← read_u16 data offset;
  '(content_type, offset) ← read_opt_string data offset content_type_length;
  '(total_size, offset) ← read_u64 data offset;
  '(created_at, offset) ← read_i64 data offset;
  '(updated_at, offset) ← read_i64 data offset;
  '(content_hash, offset) ← read_bytes data offset hash_length;
  '(metadata_length, offset) ← read_u32 data offset;
  '(metadata, offset) ← read_bytes data offset metadata_length;
  '(chunk_count, offset) ← read_u32 data offset;
  '(chunk_hashes, offset) ← read_hashes (Z.to_nat chunk_count) data offset hash_length;
  if negb (offset =? zlen data)
  then Err (InvalidInput "Invalid FileRecord v1 trailing bytes: {} bytes") else
  Ok {| fr_path := path; fr_content_type := content_type; fr_total_size := total_size;
        fr_created_at := created_at; fr_updated_at := updated_at; fr_metadata := metadata;
        fr_content_hash := content_hash; fr_chunk_hashes := chunk_hashes |}.

Definition FileRecord_deserialize (data : bytes) (hash_length version : Z) : res FileRecord :=
  match version with
  | 0 => FileRecord_deserialize_v0 data hash_length
  | 1 => FileRecord_deserialize_v1 data hash_length
  | _ => Err (InvalidEntryVersion version)
  end.

(** ** Symlink records *)

Record SymlinkRecord := {
  sl_path : bytes;
  sl_target : bytes;
  sl_created_at : Z;
  sl_updated_at : Z;
}.

Definition SymlinkRecord_new (now : Z) (path target : bytes) : SymlinkRecord :=
  {| sl_path := path; sl_target := target; sl_created_at := now; sl_updated_at := now |}.

Definition SymlinkRecord_serialize (r : SymlinkRecord) : res bytes :=
  let path_bytes := sl_path r in
  let target_bytes := sl_target r in
  if u16_max <? zlen path_bytes
  then Err (InvalidInput "Path too long: {} bytes exceeds u16 max (65535)") else
  if u16_max <? zlen target_bytes
  then Err (InvalidInput "Target too long: {} bytes exceeds u16 max (65535)") else
  Ok (u16_le (zlen path_bytes)
      ++ path_bytes
      ++ u16_le (zlen target_bytes)
      ++ target_bytes
      ++ i64_le (sl_created_at r)
      ++ i64_le (sl_updated_at r)).

(** [u16::from_le_bytes([data[c], data[c + 1]])], panicking out of range. *)
Definition u16_at (data : bytes) (cursor : Z) : res Z :=
  b0 ← index data cursor; b1 ← index data (cursor + 1); Ok (le_val [b0; b1]).

Definition i64_at (data : bytes) (cursor : Z) : res Z :=
  bs ← slice_chk data cursor (cursor + 8); Ok (i64_of_bits (le_val bs)).

Definition SymlinkRecord_deserialize_v0 (data : bytes) : res SymlinkRecord :=
  if zlen data <? 4 then Err (CorruptEntry 0 "SymlinkRecord data too short") else
  let cursor := 0 in
  path_length ← u16_at data cursor;
  let cursor := cursor + 2 in
  if zlen data <? cursor + path_length + 2
  then Err (CorruptEntry 0 "SymlinkRecord data too short for path") else
  path ← slice_chk data cursor (cursor + path_length);
  if negb (utf8_valid path) then Err (CorruptEntry 0 "Invalid UTF-8 in symlink path") else
  let cursor := cursor + path_length in
  target_length ← u16_at data cursor;
  let cursor := cursor + 2 in
  if zlen data <? cursor + target_length + 16
  then Err (CorruptEntry 0 "SymlinkRecord data too short for target + timestamps") else
  target ← slice_chk data cursor (cursor + target_length);
  if negb (utf8_valid target) then Err (CorruptEntry 0 "Invalid UTF-8 in symlink target") else
  let cursor := cursor + target_length in
  created_at ← i64_at data cursor;
  let cursor := cursor + 8 in
  updated_at ← i64_at data cursor;
  Ok {| sl_path := path; sl_target := target; sl_created_at := created_at; sl_updated_at := updated_at |}.

Definition SymlinkRecord_deserialize (data : bytes) (version : Z) : res SymlinkRecord :=
  match version with
  | 0 => SymlinkRecord_deserialize_v0 data
  | _ => Err (InvalidEntryVersion version)
  end.

(** The two domain-prefixed keys of a symlink. *)
Definition symlink_path_hash `{Blake3} (path : bytes) (algo : HashAlgorithm) : res bytes :=
  compute_hash algo (lit "symlink:" ++ path).

Definition symlink_content_hash `{Blake3} (data : bytes) (algo : HashAlgorithm) : res bytes :=
  compute_hash algo (lit "symlinkc:" ++ data).

(** ** Well-formed records *)

(** What the Rust types guarantee ([String] is UTF-8, integers have their
    width); an optional string that is present but empty is not told apart from
    an absent one by the formats below. *)
Definition str_ok (s : bytes) : Prop := utf8_valid s = true.
Definition opt_str_ok (o : option bytes) : Prop :=
  match o with None => True | Some s => str_ok s end.
Definition normalize_opt (o : option bytes) : option bytes :=
  match o with Some [] => None | _ => o end.

Lemma read_opt_string_at data off o rest :
  suffix_at data off (unwrap_or_empty o ++ rest) -> opt_str_ok o ->
  read_opt_string data off (zlen (unwrap_or_empty o))
    = Ok (normalize_opt o, off + zlen (unwrap_or_empty o))
  /\ suffix_at data (off + zlen (unwrap_or_empty o)) rest.
Proof.
  intros H Ho. split; [|by eapply suffix_at_app]. unfold read_opt_string.
  destruct o as [[|b s]|]; simpl in *; try by rewrite Z.add_0_r.
  destruct (Z.eqb_spec (zlen (b :: s)) 0); [zlen_lia|].
  by destruct (read_string_at data off rest (b :: s) _ H eq_refl Ho) as [-> _].
Qed.

Lemma read_opt_string_inv data off s n o off' :
  suffix_at data off s -> 0 <= n -> read_opt_string data off n = Ok (o, off') ->
  zlen (unwrap_or_empty o) = n /\ opt_str_ok o /\ normalize_opt o = o
  /\ consumed data off s (unwrap_or_empty o) off'.
Proof.
  intros Hs Hn. unfold read_opt_string. destruct (Z.eqb_spec n 0) as [->|Hn0].
  - intros [= <- <-]. repeat split; [done..|]. exists s. by rewrite Z.add_0_r.
  - intros [[bs o'] [E H]]%bind_Ok. injection H as <- <-.
    apply (read_string_inv _ _ _ Hs) in E as (Hl & Hu & Hc); [|done].
    repeat split; try done. destruct bs; [by rewrite zlen_nil in Hl|done].
Qed.

Lemma read_hashes_at hs : forall data off rest hl,
  suffix_at data off (concat hs ++ rest) -> Forall (fun h => zlen h = hl) hs ->
  read_hashes (length hs) data off hl = Ok (hs, off + zlen (concat hs))
  /\ suffix_at data (off + zlen (concat hs)) rest.
Proof.
  induction hs as [|h hs IH]; intros data off rest hl H Hall; simpl.
  - rewrite Z.add_0_r. done.
  - apply Forall_cons in Hall as [Hh Hall]. simpl in H. rewrite <- app_assoc in H.
    destruct (read_bytes_at _ _ _ _ hl H Hh) as [-> H1]. rewrite bind_ret. cbv beta iota.
    destruct (IH _ _ _ _ H1 Hall) as [-> H2]. simpl.
    rewrite zlen_app, Hh, Z.add_assoc. done.
Qed.

Lemma read_hashes_inv n : forall data off s hl hs off',
  suffix_at data off s -> 0 <= hl -> read_hashes n data off hl = Ok (hs, off') ->
  length hs = n /\ Forall (fun h => zlen h = hl) hs /\ consumed data off s (concat hs) off'.
Proof.
  induction n as [|n IH]; intros data off s hl hs off' Hs Hhl; simpl.
  - intros [= <- <-]. repeat split; [constructor|]. exists s. by rewrite Z.add_0_r.
  - intros H. decode_step H Hs h.
    apply bind_Ok in H as [[hs' o'] [E H]]. cbv beta iota in H. injection H as <- <-.
    apply (IH _ _ _ _ _ _ Hs) in E as (Hl & Hall & rest' & -> & -> & Hs'); [|done].
    repeat split; [by rewrite <- Hl|by constructor|].
    exists rest'. simpl. rewrite zlen_app, Z.add_assoc, app_assoc. done.
Qed.

Ltac range := unfold is_u16, is_u32, is_u64; zlen_lia.

(** ** Deletion records round-trip *)

Record DeletionRecord_wf (r : DeletionRecord) : Prop := {
  wf_dr_path : str_ok (dr_path r);
  wf_dr_path_len : zlen (dr_path r) <= u16_max;
  wf_dr_at : is_i64 (dr_deleted_at r);
  wf_dr_reason : opt_str_ok (dr_reason r);
  wf_dr_reason_norm : normalize_opt (dr_reason r) = dr_reason r;
  wf_dr_reason_len : zlen (unwrap_or_empty (dr_reason r)) <= u16_max;
}.

(** Decoding is exact: a record is read from the bytes iff the bytes start with its
    encoding and the record is one the decoder can produce: UTF-8 strings of at
    most 65535 bytes, and a reason that is absent or not empty. *)
Theorem DeletionRecord_codec data r :
  DeletionRecord_deserialize data 0 = Ok r <->
  (exists rest, data = DeletionRecord_serialize r ++ rest) /\ DeletionRecord_wf r.
Proof.
  change (DeletionRecord_deserialize data 0) with (DeletionRecord_deserialize_v0 data). split.
  - intros H. unfold DeletionRecord_deserialize_v0 in H.
    pose proof (suffix_at_start data) as Hs. remember data as s eqn:Hdata in Hs at 2.
    decode_step H Hs n. decode_step H Hs path. decode_step H Hs at_. decode_step H Hs m.
    apply bind_Ok in H as [[reason o] [E H]]. injection H as <-.
    apply (read_opt_string_inv _ _ _ _ _ _ Hs) in E as (Hl & Hok & Hn & F);
      [|unfold is_u16 in *; lia]. decode_fin F Hs o rest'. unfold is_u16 in *. subst n m.
    split; [|by split; simpl; try lia]. exists rest'.
    unfold DeletionRecord_serialize. cbn [dr_path dr_deleted_at dr_reason].
    rewrite !Z.mod_small by lia. by rewrite <- !app_assoc.
  - intros [[rest ->] [Hp Hpl Ha Hr Hn Hrl]]. unfold DeletionRecord_deserialize_v0.
    pose proof (suffix_at_start (DeletionRecord_serialize r ++ rest)) as H.
    unfold DeletionRecord_serialize in H at 2. cbv zeta in H.
    rewrite !Z.mod_small in H by zlen_lia.
    do 4 encode_step H ltac:(done || range).
    destruct (read_opt_string_at _ _ _ _ H Hr) as [-> _]. rewrite bind_ret, Hn. by destruct r.
Qed.

(** ** File records *)

Record FileRecord_wf (hl : Z) (r : FileRecord) : Prop := {
  wf_fr_path : str_ok (fr_path r);
  wf_fr_ct : opt_str_ok (fr_content_type r);
  wf_fr_ct_norm : normalize_opt (fr_content_type r) = fr_content_type r;
  wf_fr_size : is_u64 (fr_total_size r);
  wf_fr_created : is_i64 (fr_created_at r);
  wf_fr_updated : is_i64 (fr_updated_at r);
  wf_fr_chunks : Forall (fun h => zlen h = hl) (fr_chunk_hashes r);
}.

Lemma FileRecord_decode_encode hl data r :
  FileRecord_serialize r hl = Ok data -> FileRecord_wf hl r ->
  FileRecord_deserialize_v1 data hl = Ok r.
Proof.
  intros HS [Hp Hc Hcn Hsz Hcr Hup Hch].
  unfold FileRecord_serialize, FileRecord_serialize_v1 in HS. cbv zeta in HS.
  apply if_Err_Ok in HS as [H1%Z.ltb_ge HS]. apply if_Err_Ok in HS as [H2%Z.ltb_ge HS].
  apply if_Err_Ok in HS as [H3%Z.ltb_ge HS]. apply if_Err_Ok in HS as [H4%Z.ltb_ge HS].
  apply if_Err_Ok in HS as [H5%negb_false_iff%Z.eqb_eq HS]. apply Ok_inj in HS.
  pose proof (suffix_at_start data) as H. rewrite <- HS in H at 2. rewrite <- (app_nil_r (concat _)) in H.
  unfold FileRecord_deserialize_v1.
  do 3 encode_step H ltac:(done || range).
  destruct (read_opt_string_at _ _ _ _ H Hc) as [-> H']. clear H. rename H' into H.
  rewrite bind_ret, Hcn. cbv beta iota.
  do 7 encode_step H ltac:(done || range).
  replace (Z.to_nat (zlen (fr_chunk_hashes r))) with (length (fr_chunk_hashes r))
    by (unfold zlen; lia).
  destruct (read_hashes_at _ _ _ _ _ H Hch) as [-> H']. rewrite bind_ret. cbv beta iota.
  apply suffix_at_bounds in H' as [_ H']. change (zlen []) with 0 in H'.
  rewrite Z.add_0_r in H'. rewrite H', Z.eqb_refl. by destruct r.
Qed.

Lemma FileRecord_encode_decode hl data r :
  0 <= hl -> FileRecord_deserialize_v1 data hl = Ok r ->
  FileRecord_serialize r hl = Ok data /\ FileRecord_wf hl r.
Proof.
  intros Hhl H. unfold FileRecord_deserialize_v1 in H.
  pose proof (suffix_at_start data) as Hs. remember data as s eqn:Hdata in Hs at 2.
  decode_step H Hs n. decode_step H Hs path. decode_step H Hs m.
  apply bind_Ok in H as [[ct o] [E H]]. cbv beta iota in H.
  apply (read_opt_string_inv _ _ _ _ _ _ Hs) in E as (Hml & Hok & Hnorm & F); [|nonneg].
  decode_fin F Hs o rest'.
  decode_step H Hs tsize. decode_step H Hs created. decode_step H Hs updated.
  decode_step H Hs chash. decode_step H Hs mlen. decode_step H Hs meta. decode_step H Hs cc.
  apply bind_Ok in H as [[hs o] [E H]]. cbv beta iota in H.
  apply (read_hashes_inv _ _ _ _ _ _ _ Hs Hhl) in E as (Hcl & Hall & F). decode_fin F Hs o rest''.
  apply if_Err_Ok in H as [He%negb_false_iff%Z.eqb_eq H]. injection H as <-.
  apply suffix_at_bounds in Hs as [_ Hs].
  assert (rest'' = []) as -> by (apply nil_length_inv; unfold zlen in *; lia).
  unfold is_u16, is_u32 in *. subst n m mlen. split; [|by split].
  unfold FileRecord_serialize, FileRecord_serialize_v1. cbn [fr_path fr_content_type
    fr_total_size fr_created_at fr_updated_at fr_metadata fr_content_hash fr_chunk_hashes].
  assert (Hcc : zlen hs = cc) by (unfold zlen; lia).
  rewrite Hcc. cbv zeta.
  repeat (rewrite (proj2 (Z.ltb_ge _ _)) by lia).
  rewrite (proj2 (Z.eqb_eq _ _)) by done. simpl negb. cbv iota.
  f_equal. rewrite app_nil_r in *. done.
Qed.

(** C39. The version-1 file record codec is exact: a buffer decodes to [r] if and
    only if it is the encoding of a well-formed [r], with nothing after it. *)
Theorem FileRecord_codec hl data r :
  0 <= hl ->
  (FileRecord_deserialize data hl CURRENT_FILE_RECORD_VERSION = Ok r <->
   FileRecord_serialize r hl = Ok data /\ FileRecord_wf hl r).
Proof.
  intros Hhl. change (FileRecord_deserialize data hl CURRENT_FILE_RECORD_VERSION)
    with (FileRecord_deserialize_v1 data hl). split.
  - by apply FileRecord_encode_decode.
  - intros [? ?]. by apply FileRecord_decode_encode.
Qed.

(** ** Symlink records *)

Record SymlinkRecord_wf (r : SymlinkRecord) : Prop := {
  wf_sl_path : str_ok (sl_path r);
  wf_sl_target : str_ok (sl_target r);
  wf_sl_created : is_i64 (sl_created_at r);
  wf_sl_updated : is_i64 (sl_updated_at r);
}.

Lemma u16_at_read data c : 0 <= c -> c + 2 <= zlen data ->
  u16_at data c = ('(v, _) ← read_u16 data c; Ok v).
Proof.
  intros. unfold u16_at, read_u16. destruct (Z.ltb_spec (zlen data) (c + 2)); [lia|].
  destruct (index data c); [|done..]. simpl. by destruct (index data (c + 1)).
Qed.

Lemma i64_at_read data c : 0 <= c -> c + 8 <= zlen data ->
  i64_at data c = ('(v, _) ← read_i64 data c; Ok v).
Proof.
  intros. unfold i64_at, read_i64. destruct (Z.ltb_spec (zlen data) (c + 8)); [lia|].
  by destruct (slice_chk _ _ _).
Qed.

Lemma slice_chk_read data c n : 0 <= c -> 0 <= n -> c + n <= zlen data ->
  slice_chk data c (c + n) = ('(v, _) ← read_bytes data c n; Ok v).
Proof.
  intros. unfold read_bytes. destruct (Z.ltb_spec (zlen data) (c + n)); [lia|].
  by destruct (slice_chk _ _ _).
Qed.

Lemma u16_at_at data c v rest :
  suffix_at data c (u16_le v ++ rest) -> is_u16 v -> u16_at data c = Ok v.
Proof.
  intros H Hv. pose proof (suffix_at_bounds _ _ _ H).
  rewrite u16_at_read by zlen_lia. by destruct (read_u16_at _ _ _ _ H Hv) as [-> _].
Qed.

Lemma i64_at_at data c v rest :
  suffix_at data c (i64_le v ++ rest) -> is_i64 v -> i64_at data c = Ok v.
Proof.
  intros H Hv. pose proof (suffix_at_bounds _ _ _ H).
  rewrite i64_at_read by zlen_lia. by destruct (read_i64_at _ _ _ _ H Hv) as [-> _].
Qed.

(** A symlink record is read back from its encoding, whatever follows it. *)
Theorem SymlinkRecord_roundtrip r enc rest :
  SymlinkRecord_wf r -> SymlinkRecord_serialize r = Ok enc ->
  SymlinkRecord_deserialize (enc ++ rest) 0 = Ok r.
Proof.
  intros [Hp Ht Hc Hu] HS. unfold SymlinkRecord_serialize in HS. cbv zeta in HS.
  apply if_Err_Ok in HS as [H1%Z.ltb_ge HS]. apply if_Err_Ok in HS as [H2%Z.ltb_ge HS].
  apply Ok_inj in HS.
  change (SymlinkRecord_deserialize_v0 (enc ++ rest) = Ok r).
  set (data := enc ++ rest). pose proof (suffix_at_start data) as HA.
  unfold data in HA at 2. rewrite <- HS, <- !app_assoc in HA.
  pose proof (suffix_at_bounds _ _ _ HA) as [_ Hlen].
  pose proof (suffix_at_app _ _ _ _ 2 HA eq_refl) as HB.
  pose proof (suffix_at_app _ _ _ _ _ HB eq_refl) as HC.
  pose proof (suffix_at_app _ _ _ _ 2 HC eq_refl) as HD.
  pose proof (suffix_at_app _ _ _ _ _ HD eq_refl) as HE.
  pose proof (suffix_at_app _ _ _ _ 8 HE eq_refl) as HF.
  unfold SymlinkRecord_deserialize_v0.
  rewrite (proj2 (Z.ltb_ge _ _)) by zlen_lia. cbv zeta.
  rewrite (u16_at_at _ _ _ _ HA) by range. rewrite bind_ret.
  rewrite (proj2 (Z.ltb_ge _ _)) by zlen_lia.
  rewrite (suffix_at_slice_chk _ _ _ _ _ HB eq_refl), bind_ret, Hp. simpl negb. cbv iota.
  rewrite (u16_at_at _ _ _ _ HC) by range. rewrite bind_ret.
  rewrite (proj2 (Z.ltb_ge _ _)) by zlen_lia.
  rewrite (suffix_at_slice_chk _ _ _ _ _ HD eq_refl), bind_ret, Ht. simpl negb. cbv iota.
  rewrite (i64_at_at _ _ _ _ HE) by done. rewrite bind_ret.
  rewrite (i64_at_at _ _ _ _ HF) by done. rewrite bind_ret. by destruct r.
Qed.

Lemma u16_at_safe data c :
  0 <= c -> c + 2 <= zlen data -> exists v, u16_at data c = Ok v /\ 0 <= v.
Proof.
  intros. unfold u16_at.
  destruct (index_ok data c) as [b0 ->]; [lia|]. destruct (index_ok data (c + 1)) as [b1 ->]; [lia|].
  rewrite !bind_ret. eauto using le_val_nonneg.
Qed.

Lemma i64_at_safe data c : 0 <= c -> c + 8 <= zlen data -> exists v, i64_at data c = Ok v.
Proof. intros. unfold i64_at. rewrite slice_chk_ok, bind_ret by lia. eauto. Qed.

(** The hand-written bounds checks of the symlink decoder cover every access:
    no input makes it index out of range. *)
Theorem SymlinkRecord_total data version : SymlinkRecord_deserialize data version <> Panic.
Proof.
  unfold SymlinkRecord_deserialize. destruct version; try done.
  unfold SymlinkRecord_deserialize_v0. cbv zeta.
  destruct (Z.ltb_spec (zlen data) 4); [done|].
  destruct (u16_at_safe data 0) as [n [-> Hn]]; [lia..|]. rewrite bind_ret.
  destruct (Z.ltb_spec (zlen data) (0 + 2 + n + 2)); [done|].
  rewrite slice_chk_ok, bind_ret by lia. destruct (utf8_valid _); simpl negb; cbv iota; [|done].
  destruct (u16_at_safe data (0 + 2 + n)) as [m [-> Hm]]; [lia..|]. rewrite bind_ret.
  destruct (Z.ltb_spec (zlen data) (0 + 2 + n + 2 + m + 16)); [done|].
  rewrite slice_chk_ok, bind_ret by lia. destruct (utf8_valid _); simpl negb; cbv iota; [|done].
  destruct (i64_at_safe data (0 + 2 + n + 2 + m)) as [a ->]; [lia..|]. rewrite bind_ret.
  destruct (i64_at_safe data (0 + 2 + n + 2 + m + 8)) as [b ->]; [lia..|]. done.
Qed.

(** ** Directory children *)

Record ChildEntry_wf (hl : Z) (e : ChildEntry) : Prop := {
  wf_ce_hash : zlen (ce_hash e) = hl;
  wf_ce_size : is_u64 (ce_total_size e);
  wf_ce_created : is_i64 (ce_created_at e);
  wf_ce_updated : is_i64 (ce_updated_at e);
  wf_ce_name : str_ok (ce_name e);
  wf_ce_ct : opt_str_ok (ce_content_type e);
  wf_ce_vt : is_u64 (ce_virtual_time e);
  wf_ce_node : is_u64 (ce_node_id e);
}.

(** The entry with an empty content type turned into an absent one. *)
Definition ChildEntry_norm (e : ChildEntry) : ChildEntry :=
  {| ce_entry_type := ce_entry_type e; ce_hash := ce_hash e; ce_total_size := ce_total_size e;
     ce_created_at := ce_created_at e; ce_updated_at := ce_updated_at e; ce_name := ce_name e;
     ce_content_type := normalize_opt (ce_content_type e);
     ce_virtual_time := ce_virtual_time e; ce_node_id := ce_node_id e |}.

Lemma read_u64_or_0_at data off v rest :
  suffix_at data off (u64_le v ++ rest) -> is_u64 v ->
  read_u64_or_0 data off = Ok (v, off + 8) /\ suffix_at data (off + 8) rest.
Proof.
  intros H Hv. pose proof (suffix_at_bounds _ _ _ H). unfold read_u64_or_0.
  rewrite (proj2 (Z.leb_le _ _)) by zlen_lia. by apply read_u64_at.
Qed.

Lemma ChildEntry_roundtrip hl e enc rest :
  ChildEntry_wf hl e -> ChildEntry_serialize e hl = Ok enc ->
  ChildEntry_deserialize_v0 (enc ++ rest) hl = Ok (ChildEntry_norm e, zlen enc).
Proof.
  intros [Hh Hsz Hcr Hup Hn Hc Hv Hid] HS.
  unfold ChildEntry_serialize in HS. cbv zeta in HS.
  apply if_Err_Ok in HS as [H1%Z.ltb_ge HS]. apply if_Err_Ok in HS as [H2%Z.ltb_ge HS].
  apply Ok_inj in HS.
  assert (Hz : zlen enc = 1 + hl + 8 + 8 + 8 + 2 + zlen (ce_name e) + 2
    + zlen (unwrap_or_empty (ce_content_type e)) + 8 + 8) by (rewrite <- HS; zlen_lia).
  pose proof (suffix_at_start (enc ++ rest)) as H. rewrite <- HS in H at 2.
  rewrite <- !app_assoc in H.
  set (data := enc ++ rest) in *. unfold ChildEntry_deserialize_v0. cbv zeta.
  pose proof (suffix_at_bounds _ _ _ H) as [_ Hl].
  rewrite (proj2 (Z.leb_gt _ _)) by zlen_lia.
  rewrite (suffix_at_index _ _ _ _ H), bind_ret.
  apply (suffix_at_app _ _ [ce_entry_type e] _ 1) in H; [|done].
  do 6 encode_step H ltac:(done || range).
  encode_step H ltac:(done || range).
  destruct (read_opt_string_at _ _ _ _ H Hc) as [-> H']. clear H. rename H' into H.
  rewrite bind_ret. cbv beta iota.
  destruct (read_u64_or_0_at _ _ _ _ H Hv) as [-> H']. clear H. rename H' into H.
  rewrite bind_ret. cbv beta iota.
  destruct (read_u64_or_0_at _ _ _ _ H Hid) as [-> H']. rewrite bind_ret. cbv beta iota.
  do 2 f_equal. zlen_lia.
Qed.

Lemma slice_to_end {A} (data : list A) off rest :
  suffix_at data off rest -> slice_chk data off (zlen data) = Ok rest.
Proof.
  intros H. pose proof (suffix_at_bounds _ _ _ H) as [_ <-].
  rewrite <- (app_nil_r rest) in H at 1. by rewrite (suffix_at_slice_chk _ _ _ _ _ H eq_refl).
Qed.

Lemma ChildEntry_serialize_nonempty e hl enc : ChildEntry_serialize e hl = Ok enc -> 0 < zlen enc.
Proof.
  unfold ChildEntry_serialize. cbv zeta. intros HS.
  apply if_Err_Ok in HS as [_ HS]. apply if_Err_Ok in HS as [_ HS]. apply Ok_inj in HS.
  rewrite <- HS. zlen_lia.
Qed.

Lemma child_entries_loop_roundtrip hl es : forall data off enc fuel,
  Forall (ChildEntry_wf hl) es -> serialize_child_entries es hl = Ok enc ->
  suffix_at data off enc -> (length enc <= fuel)%nat ->
  child_entries_loop fuel data hl off = Ok (ChildEntry_norm <$> es).
Proof.
  induction es as [|e es IH]; intros data off enc fuel Hall HS H Hf;
    pose proof (suffix_at_bounds _ _ _ H) as Hb.
  - apply Ok_inj in HS. subst enc. destruct fuel; simpl;
      rewrite (proj2 (Z.ltb_ge _ _)) by zlen_lia; done.
  - apply Forall_cons in Hall as [He Hall]. simpl in HS.
    apply bind_Ok in HS as [b1 [E1 HS]]. apply bind_Ok in HS as [b2 [E2 HS]]. apply Ok_inj in HS.
    subst enc. pose proof (ChildEntry_serialize_nonempty _ _ _ E1) as Hpos.
    destruct fuel as [|fuel]; [rewrite length_app in Hf; unfold zlen in *; lia|].
    cbn [child_entries_loop]. rewrite (proj2 (Z.ltb_lt _ _)) by zlen_lia.
    rewrite (slice_to_end _ _ _ H), bind_ret.
    change (ChildEntry_deserialize (b1 ++ b2) hl 0) with (ChildEntry_deserialize_v0 (b1 ++ b2) hl).
    rewrite (ChildEntry_roundtrip _ _ _ _ He E1), bind_ret. cbv beta iota.
    rewrite (IH data _ b2); [done|done|done| |].
    + by eapply suffix_at_app.
    + rewrite length_app in Hf. unfold zlen in *. lia.
Qed.

(** A directory's children survive storage: decoding the encoding of a list of
    children gives the list back (an empty content type reads as absent). *)
Theorem child_entries_roundtrip hl es enc :
  Forall (ChildEntry_wf hl) es -> serialize_child_entries es hl = Ok enc ->
  deserialize_child_entries enc hl 0 = Ok (ChildEntry_norm <$> es).
Proof.
  intros Hall HS. change (deserialize_child_entries_v0 enc hl = Ok (ChildEntry_norm <$> es)).
  eapply child_entries_loop_roundtrip; eauto using suffix_at_start.
Qed.

(** ** No input makes the decoders panic *)

Lemma safe_read_opt_string data off n :
  0 <= off <= zlen data -> 0 <= n ->
  safe_read (fun _ => True) data off (read_opt_string data off n).
Proof.
  intros. unfold read_opt_string. destruct (n =? 0); [by apply safe_ret; [|lia]|].
  eapply safe_bind; [by apply safe_read_string; lia|]. intros. apply safe_ret; [done|lia].
Qed.

Lemma safe_read_u64_or_0 data off :
  0 <= off <= zlen data -> safe_read (fun _ => True) data off (read_u64_or_0 data off).
Proof.
  intros. unfold read_u64_or_0. destruct (_ <=? _); [|by apply safe_ret; [|lia]].
  pose proof (safe_read_u64 data off) as Hs.
  destruct (read_u64 data off) as [[v o]| |]; simpl in *; naive_solver lia.
Qed.
#[local] Hint Resolve safe_read_opt_string safe_read_u64_or_0 : safe_read.
#[local] Hint Extern 1 (_ <= _ <= _) => lia : safe_read.

Lemma safe_read_hashes n : forall data off hl,
  0 <= off <= zlen data -> 0 <= hl -> safe_read (fun _ => True) data off (read_hashes n data off hl).
Proof.
  induction n as [|n IH]; intros data off hl Ho Hhl; cbn [read_hashes]; [by apply safe_ret; [|lia]|].
  eapply safe_bind; [by apply safe_read_bytes; lia|]. intros h o _ Ho'.
  eapply safe_bind; [by apply IH; lia|]. intros. apply safe_ret; [done|lia].
Qed.

Lemma ChildEntry_deserialize_safe data hl : 0 <= hl ->
  match ChildEntry_deserialize_v0 data hl with
  | Ok (_, o) => 1 <= o <= zlen data
  | Err _ => True
  | Panic => False
  end.
Proof.
  intros Hhl. unfold ChildEntry_deserialize_v0. cbv zeta.
  destruct (Z.leb_spec (zlen data) 0); [done|].
  destruct (index_ok data 0) as [b ->]; [lia|]. rewrite bind_ret.
  match goal with |- context [mbind ?f ?r] =>
    assert (Hs : safe_read (fun _ => True) data (0 + 1) (mbind f r)) end.
  { repeat safe_step. }
  destruct (_ ≫= _) as [[e o]| |]; simpl in *; [|done..]. lia.
Qed.

Lemma child_entries_loop_total fuel : forall data hl off,
  0 <= hl -> 0 <= off -> zlen data - off <= Z.of_nat fuel ->
  child_entries_loop fuel data hl off <> Panic.
Proof.
  induction fuel as [|fuel IH]; intros data hl off Hhl Ho Hf; cbn [child_entries_loop];
    destruct (Z.ltb_spec off (zlen data)); try done; [lia|].
  rewrite slice_chk_ok, bind_ret by lia.
  change (ChildEntry_deserialize (slice data off (zlen data)) hl 0)
    with (ChildEntry_deserialize_v0 (slice data off (zlen data)) hl).
  pose proof (ChildEntry_deserialize_safe (slice data off (zlen data)) hl Hhl) as Hs.
  destruct (ChildEntry_deserialize_v0 _ hl) as [[e o]| |]; [|done..].
  rewrite bind_ret. cbv beta iota. rewrite zlen_slice in Hs by lia.
  specialize (IH data hl (off + o) Hhl ltac:(lia) ltac:(lia)).
  by destruct (child_entries_loop _ _ _ _).
Qed.

(** Decoding a directory terminates on any bytes, with a list or an error. *)
Theorem child_entries_total data hl version :
  0 <= hl -> deserialize_child_entries data hl version <> Panic.
Proof.
  intros. unfold deserialize_child_entries. destruct version; try done.
  apply child_entries_loop_total; unfold zlen; lia.
Qed.

Lemma safe_no_panic {A B} P data off (r : res (A * Z)) (k : A -> Z -> res B) :
  safe_read P data off r ->
  (forall a o, P a -> off <= o <= zlen data -> k a o <> Panic) ->
  ('(a, o) ← r; k a o) <> Panic.
Proof. intros Hr Hk. destruct r as [[a o]| |]; simpl in *; naive_solver. Qed.
#[local] Hint Resolve safe_read_hashes : safe_read.

(** So does decoding a file record of any version. *)
Theorem FileRecord_total data hl version :
  0 <= hl -> FileRecord_deserialize data hl version <> Panic.
Proof.
  intros. pose proof (zlen_nonneg data). unfold FileRecord_deserialize.
  destruct version as [|[]|]; try done.
  all: unfold FileRecord_deserialize_v0, FileRecord_deserialize_v1.
  all: repeat (eapply safe_no_panic; [solve [eauto 3 with safe_read]|intros ? ? ? ?; cbv beta]).
  all: by case_match.
Qed.

(** ** Witnesses *)

Definition sample_file_record : FileRecord :=
  {| fr_path := lit "/docs/a.txt"; fr_content_type := Some (lit "text/plain"); fr_total_size := 5;
     fr_created_at := 1700000000000; fr_updated_at := 1700000000001; fr_metadata := lit "{}";
     fr_content_hash := replicate 32 Byte.x01; fr_chunk_hashes := [replicate 32 Byte.x02; replicate 32 Byte.x03] |}.

Definition sample_file_bytes : bytes :=
  match FileRecord_serialize sample_file_record 32 with Ok data => data | _ => [] end.

Lemma FileRecord_codec_witness :
  FileRecord_deserialize sample_file_bytes 32 CURRENT_FILE_RECORD_VERSION = Ok sample_file_record.
Proof.
  apply (FileRecord_codec 32 sample_file_bytes sample_file_record ltac:(lia)).
  split; [vm_compute; reflexivity|]. constructor; concrete.
Defined.

Definition sample_symlink : SymlinkRecord :=
  {| sl_path := lit "/l"; sl_target := lit "/docs/a.txt"; sl_created_at := 1; sl_updated_at := 2 |}.

Definition sample_symlink_bytes : bytes :=
  match SymlinkRecord_serialize sample_symlink with Ok data => data | _ => [] end.

Lemma SymlinkRecord_roundtrip_witness :
  SymlinkRecord_deserialize (sample_symlink_bytes ++ lit "rest") 0 = Ok sample_symlink.
Proof.
  apply (SymlinkRecord_roundtrip sample_symlink sample_symlink_bytes (lit "rest")).
  - constructor; concrete.
  - vm_compute. reflexivity.
Defined.

Definition sample_child (name : bytes) : ChildEntry :=
  {| ce_entry_type := Byte.x02; ce_hash := replicate 32 Byte.x05; ce_total_size := 10;
     ce_created_at := 1; ce_updated_at := 2; ce_name := name; ce_content_type := Some [];
     ce_virtual_time := 3; ce_node_id := 4 |}.

Definition sample_children_bytes : bytes :=
  match serialize_child_entries [sample_child (lit "a"); sample_child (lit "b")] 32 with
  | Ok data => data
  | _ => []
  end.

Lemma child_entries_roundtrip_witness :
  deserialize_child_entries sample_children_bytes 32 0 =
  Ok (ChildEntry_norm <$> [sample_child (lit "a"); sample_child (lit "b")]).
Proof.
  apply (child_entries_roundtrip 32 [sample_child (lit "a"); sample_child (lit "b")] sample_children_bytes).
  - repeat constructor; concrete.
  - vm_compute. reflexivity.
Defined.

Lemma child_entries_total_witness : deserialize_child_entries (lit "garbage") 32 0 <> Panic.
Proof. exact (child_entries_total (lit "garbage") 32 0 ltac:(lia)). Defined.

Lemma FileRecord_total_witness : FileRecord_deserialize (lit "garbage") 32 1 <> Panic.
Proof. exact (FileRecord_total (lit "garbage") 32 1 ltac:(lia)). Defined.
