(* ===== verification/KvEntry.v ===== *)
(** The entry of the key/value index (kv_store.rs: [KVEntry], its type and flag
    bits) and the size table of the on-disk KV block (kv_stages.rs), both under
    src/aeordb-lib/src/engine/. *)
From S2P Require Import Prelude EntryFormat.

Local Open Scope Z_scope.

(** Lower 4 bits: the type; upper 4 bits: flags. *)
Definition KV_TYPE_CHUNK : Z := 0x0.
Definition KV_TYPE_FILE_RECORD : Z := 0x1.
Definition KV_TYPE_DIRECTORY : Z := 0x2.
Definition KV_TYPE_DELETION : Z := 0x3.
Definition KV_TYPE_SNAPSHOT : Z := 0x4.
Definition KV_TYPE_VOID : Z := 0x5.
Definition KV_TYPE_HEAD : Z := 0x6.
Definition KV_TYPE_FORK : Z := 0x7.
Definition KV_TYPE_VERSION : Z := 0x8.
Definition KV_TYPE_SYMLINK : Z := 0x9.
Definition KV_FLAG_PENDING : Z := 0x10.
Definition KV_FLAG_DELETED : Z := 0x20.

Definition to_kv_type (t : EntryType) : Z :=
  match t with
  | Chunk => KV_TYPE_CHUNK
  | FileRecordEntry => KV_TYPE_FILE_RECORD
  | DirectoryIndex => KV_TYPE_DIRECTORY
  | DeletionRecordEntry => KV_TYPE_DELETION
  | Snapshot => KV_TYPE_SNAPSHOT
  | Void => KV_TYPE_VOID
  | Fork => KV_TYPE_FORK
  | Symlink => KV_TYPE_SYMLINK
  end.

Record KVEntry := {
  kv_type_flags : byte;
  kv_hash : bytes;
  kv_offset : Z;
  kv_total_length : Z;
}.

#[export] Instance KVEntry_eq_dec : EqDecision KVEntry.
Proof. solve_decision. Defined.

Definition kv_entry_type (e : KVEntry) : Z := Z.land (b2z (kv_type_flags e)) 0x0F.
Definition kv_flags (e : KVEntry) : Z := Z.land (b2z (kv_type_flags e)) 0xF0.
Definition is_pending (e : KVEntry) : bool :=
  negb (Z.land (b2z (kv_type_flags e)) KV_FLAG_PENDING =? 0).
Definition is_deleted (e : KVEntry) : bool :=
  negb (Z.land (b2z (kv_type_flags e)) KV_FLAG_DELETED =? 0).

(** The integer widths of the struct, and a hash of the algorithm's length. *)
Record KVEntry_wf (hl : Z) (e : KVEntry) : Prop := {
  wf_kv_hash : zlen (kv_hash e) = hl;
  wf_kv_offset : is_u64 (kv_offset e);
  wf_kv_total : is_u32 (kv_total_length e);
}.

(** ** Stages of the KV block *)

Definition KV_STAGE_SIZES : list Z :=
  [ 64 * 1024; 512 * 1024; 4 * 1024 * 1024; 32 * 1024 * 1024; 128 * 1024 * 1024;
    512 * 1024 * 1024; 1024 * 1024 * 1024; 2 * 1024 * 1024 * 1024;
    4 * 1024 * 1024 * 1024; 8 * 1024 * 1024 * 1024 ].

Definition saturating_mul64 (a b : Z) : Z := Z.min (a * b) u64_max.

Definition buckets_for_block (block_size page_size : Z) : Z := block_size / page_size.

Definition stage_params (stage page_size : Z) : Z * Z :=
  let block_size :=
    match KV_STAGE_SIZES !! Z.to_nat stage with
    | Some s => s
    | None =>
      let last_size := nth (length KV_STAGE_SIZES - 1) KV_STAGE_SIZES 0 in
      let extra := Z.min (stage - (zlen KV_STAGE_SIZES - 1)) 53 in
      saturating_mul64 last_size (Z.shiftl 1 extra)
    end in
  (block_size, buckets_for_block block_size page_size).

Definition initial_block_size : Z := nth 0 KV_STAGE_SIZES 0.

(** An entry for the witnesses. *)
Definition sample_kv (b : byte) (offset : Z) : KVEntry :=
  {| kv_type_flags := Byte.x01; kv_hash := replicate 32 b; kv_offset := offset; kv_total_length := 99 |}.
