(* ===== verification/KvPages.v ===== *)
(** The bucket pages of the on-disk KV block
    (src/aeordb-lib/src/engine/kv_pages.rs): a fixed-size page with a magic, a
    CRC32 and up to 32 entries.  CRC32 comes from a third-party crate and is the
    interface [Crc32]. *)
From S2P Require Import Prelude Codec EntryFormat KvEntry.

Local Open Scope Z_scope.

(** What the code relies on of the crc32fast crate: a [u32] checksum of the
    concatenation of what the hasher was fed. *)
Class Crc32 := {
  crc32 : bytes -> Z;
  crc32_u32 : forall data, is_u32 (crc32 data);
}.

Definition MAX_ENTRIES_PER_PAGE : Z := 32.
Definition PAGE_MAGIC : Z := 0xAE0DB905.
Definition PAGE_HEADER_SIZE : Z := 4 + 4 + 2.

Definition page_size (hash_length : Z) : Z :=
  PAGE_HEADER_SIZE + MAX_ENTRIES_PER_PAGE * (hash_length + 1 + 8 + 4).

Definition is_empty_page (data : bytes) : res bool :=
  if zlen data <? PAGE_HEADER_SIZE then Ok false else
  magic ← le_at data 0 4;
  count ← le_at data 8 2;
  Ok ((magic =? 0) && (count =? 0)).

Section WithCrc.
Context `{Crc32}.

Definition page_crc (data : bytes) : res Z :=
  a ← slice_chk data 0 4;
  b ← slice_chk data 8 (zlen data);
  Ok (crc32 (a ++ zeros 4 ++ b)).

Definition validated_entry_count (data : bytes) (hash_length : Z) : res (option Z) :=
  if zlen data <? PAGE_HEADER_SIZE
  then Err (CorruptEntry 0 "Page data too short for header") else
  empty ← is_empty_page data;
  if (empty : bool) then Ok None else
  magic ← le_at data 0 4;
  if negb (magic =? PAGE_MAGIC)
  then Err (CorruptEntry 0 "page magic mismatch (got 0x{:08x}, expected 0x{:08x})") else
  stored_crc ← le_at data 4 4;
  computed_crc ← page_crc data;
  if negb (stored_crc =? computed_crc)
  then Err (CorruptEntry 0 "page CRC mismatch (stored {:08x}, computed {:08x})") else
  count ← le_at data 8 2;
  if MAX_ENTRIES_PER_PAGE <? count
  then Err (CorruptEntry 0 "Page entry count {} exceeds maximum {}") else
  let entry_size := hash_length + 1 + 8 + 4 in
  let required := PAGE_HEADER_SIZE + count * entry_size in
  if zlen data <? required
  then Err (CorruptEntry 0 "Page data too short: need {} bytes for {} entries, got {}") else
  Ok (Some count).

(** One iteration of the loop that writes the entries into the buffer. *)
Definition write_page_entry (hash_length : Z) (buffer : bytes) (i : Z) (entry : KVEntry) : res bytes :=
  let entry_size := hash_length + 1 + 8 + 4 in
  let offset := PAGE_HEADER_SIZE + i * entry_size in
  let hash_len := Z.min (zlen (kv_hash entry)) hash_length in
  buffer ← copy_at buffer offset (take (Z.to_nat hash_len) (kv_hash entry));
  buffer ← copy_at buffer (offset + hash_length) [kv_type_flags entry];
  buffer ← copy_at buffer (offset + hash_length + 1) (u64_le (kv_offset entry));
  copy_at buffer (offset + hash_length + 9) (u32_le (kv_total_length entry)).

Fixpoint write_page_entries (hash_length : Z) (buffer : bytes) (i : Z) (entries : list KVEntry) : res bytes :=
  match entries with
  | [] => Ok buffer
  | e :: entries =>
    buffer ← write_page_entry hash_length buffer i e;
    write_page_entries hash_length buffer (i + 1) entries
  end.

Definition serialize_page (entries : list KVEntry) (hash_length : Z) : res bytes :=
  let psize := page_size hash_length in
  let buffer := zeros psize in
  let count := Z.min (zlen entries) MAX_ENTRIES_PER_PAGE in
  buffer ← copy_at buffer 0 (u32_le PAGE_MAGIC);
  buffer ← copy_at buffer 8 (u16_le (count mod 2^16));
  buffer ← write_page_entries hash_length buffer 0 (take (Z.to_nat count) entries);
  let crc := crc32 buffer in
  copy_at buffer 4 (u32_le crc).

Definition read_page_entry (data : bytes) (hash_length i : Z) : res KVEntry :=
  let entry_size := hash_length + 1 + 8 + 4 in
  let offset := PAGE_HEADER_SIZE + i * entry_size in
  hash ← slice_chk data offset (offset + hash_length);
  type_flags ← index data (offset + hash_length);
  file_offset ← le_at data (offset + hash_length + 1) 8;
  total_length ← le_at data (offset + hash_length + 9) 4;
  Ok {| kv_type_flags := type_flags; kv_hash := hash; kv_offset := file_offset;
        kv_total_length := total_length |}.

(** [for i in 0..count], with [n] iterations left. *)
Fixpoint read_page_entries (n : nat) (data : bytes) (hash_length i : Z) : res (list KVEntry) :=
  match n with
  | O => Ok []
  | S n =>
    e ← read_page_entry data hash_length i;
    es ← read_page_entries n data hash_length (i + 1);
    Ok (e :: es)
  end.

Definition deserialize_page (data : bytes) (hash_length : Z) : res (list KVEntry) :=
  count ← validated_entry_count data hash_length;
  match count with
  | None => Ok []
  | Some count => read_page_entries (Z.to_nat count) data hash_length 0
  end.

Fixpoint find_entry_loop (n : nat) (data : bytes) (hash_length i : Z) (hash : bytes)
    (include_deleted : bool) : res (option KVEntry) :=
  match n with
  | O => Ok None
  | S n =>
    let entry_size := hash_length + 1 + 8 + 4 in
    let offset := PAGE_HEADER_SIZE + i * entry_size in
    entry_hash ← slice_chk data offset (offset + hash_length);
    if negb (bool_decide (entry_hash = hash))
    then find_entry_loop n data hash_length (i + 1) hash include_deleted else
    type_flags ← index data (offset + hash_length);
    if negb include_deleted && negb (Z.land (b2z type_flags) KV_FLAG_DELETED =? 0)
    then Ok None else
    file_offset ← le_at data (offset + hash_length + 1) 8;
    total_length ← le_at data (offset + hash_length + 9) 4;
    Ok (Some {| kv_type_flags := type_flags; kv_hash := entry_hash; kv_offset := file_offset;
                kv_total_length := total_length |})
  end.

Definition find_entry_in_page_data (data : bytes) (hash_length : Z) (hash : bytes)
    (include_deleted : bool) : res (option KVEntry) :=
  count ← validated_entry_count data hash_length;
  match count with
  | None => Ok None
  | Some count => find_entry_loop (Z.to_nat count) data hash_length 0 hash include_deleted
  end.

(** [counts[i] += 1] on the array of 16 counters. *)
Definition bump (counts : list Z) (i : Z) : list Z :=
  alter (Z.add 1) (Z.to_nat i) counts.

Fixpoint live_counts_loop (n : nat) (data : bytes) (hash_length i : Z) (counts : list Z) : res (list Z) :=
  match n with
  | O => Ok counts
  | S n =>
    let entry_size := hash_length + 1 + 8 + 4 in
    let offset := PAGE_HEADER_SIZE + i * entry_size in
    type_flags ← index data (offset + hash_length);
    let counts := if Z.land (b2z type_flags) KV_FLAG_DELETED =? 0
                  then bump counts (Z.land (b2z type_flags) 0x0F) else counts in
    live_counts_loop n data hash_length (i + 1) counts
  end.

Definition live_type_counts_in_page (data : bytes) (hash_length : Z) : res (list Z) :=
  let counts := replicate 16 0 in
  count ← validated_entry_count data hash_length;
  match count with
  | None => Ok counts
  | Some count => live_counts_loop (Z.to_nat count) data hash_length 0 counts
  end.
End WithCrc.

Definition bucket_page_offset (bucket_index hash_length : Z) : Z :=
  bucket_index * page_size hash_length.

Definition find_in_page (entries : list KVEntry) (hash : bytes) : option KVEntry :=
  snd <$> list_find (fun e => kv_hash e = hash /\ Z.land (b2z (kv_type_flags e)) KV_FLAG_DELETED = 0) entries.

(** The vector after the call, with the source's [bool] result. *)
Definition upsert_in_page (entries : list KVEntry) (entry : KVEntry) : list KVEntry * bool :=
  match list_find (fun e => kv_hash e = kv_hash entry) entries with
  | Some (i, _) => (<[i := entry]> entries, true)
  | None =>
    if zlen entries <? MAX_ENTRIES_PER_PAGE then (entries ++ [entry], true)
    else (entries, false)
  end.

Fixpoint stage_loop (sizes : list Z) (stage entry_count psize : Z) : option Z :=
  match sizes with
  | [] => None
  | block_size :: sizes =>
    let buckets := buckets_for_block block_size psize in
    let capacity := buckets * MAX_ENTRIES_PER_PAGE in
    if entry_count <? capacity then Some stage
    else stage_loop sizes (stage + 1) entry_count psize
  end.

Definition stage_for_count (entry_count hash_length : Z) : Z :=
  let psize := page_size hash_length in
  default (zlen KV_STAGE_SIZES - 1) (stage_loop KV_STAGE_SIZES 0 entry_count psize).

(** ** Writing a page *)

(** The bytes of one entry slot; a hash shorter than the page's hash length is
    padded with zeros, a longer one is cut. *)
Definition page_entry_bytes (hl : Z) (e : KVEntry) : bytes :=
  (take (Z.to_nat (Z.min (zlen (kv_hash e)) hl)) (kv_hash e)
   ++ zeros (hl - Z.min (zlen (kv_hash e)) hl))
  ++ [kv_type_flags e] ++ u64_le (kv_offset e) ++ u32_le (kv_total_length e).

Lemma zlen_page_entry_bytes hl e : 0 <= hl -> zlen (page_entry_bytes hl e) = hl + 1 + 8 + 4.
Proof.
  intros. unfold page_entry_bytes. pose proof (zlen_nonneg (kv_hash e)).
  autorewrite with zlen. rewrite zlen_zeros by lia.
  unfold zlen in *. rewrite length_take. lia.
Qed.

Lemma write_page_entry_app hl pre post i e :
  0 <= hl -> zlen pre = PAGE_HEADER_SIZE + i * (hl + 1 + 8 + 4) ->
  write_page_entry hl (pre ++ zeros (hl + 1 + 8 + 4) ++ post) i e
    = Ok (pre ++ page_entry_bytes hl e ++ post).
Proof.
  intros Hhl Hpre. unfold write_page_entry, page_entry_bytes. cbv zeta.
  pose proof (zlen_nonneg (kv_hash e)).
  set (n := Z.min (zlen (kv_hash e)) hl). set (h := take (Z.to_nat n) (kv_hash e)).
  assert (Hh : zlen h = n) by (unfold h, n, zlen in *; rewrite length_take; lia).
  replace (hl + 1 + 8 + 4) with (n + (hl - n) + 1 + 8 + 4) at 1 by lia.
  rewrite !zeros_split by lia. rewrite <- !app_assoc.
  rewrite (copy_at_app pre) by (rewrite ?zlen_zeros; lia). rewrite bind_ret.
  replace (pre ++ h ++ zeros (hl - n) ++ zeros 1 ++ zeros 8 ++ zeros 4 ++ post)
    with ((pre ++ h ++ zeros (hl - n)) ++ zeros 1 ++ (zeros 8 ++ zeros 4 ++ post))
    by (by rewrite <- !app_assoc).
  rewrite copy_at_app by (autorewrite with zlen; rewrite ?zlen_zeros; lia || done). rewrite bind_ret.
  replace ((pre ++ h ++ zeros (hl - n)) ++ [kv_type_flags e] ++ zeros 8 ++ zeros 4 ++ post)
    with ((pre ++ h ++ zeros (hl - n) ++ [kv_type_flags e]) ++ zeros 8 ++ (zeros 4 ++ post))
    by (by rewrite <- !app_assoc).
  rewrite copy_at_app by (autorewrite with zlen; rewrite ?zlen_zeros; lia || done). rewrite bind_ret.
  replace ((pre ++ h ++ zeros (hl - n) ++ [kv_type_flags e]) ++ u64_le (kv_offset e) ++ zeros 4 ++ post)
    with ((pre ++ h ++ zeros (hl - n) ++ [kv_type_flags e] ++ u64_le (kv_offset e)) ++ zeros 4 ++ post)
    by (by rewrite <- !app_assoc).
  rewrite copy_at_app by (autorewrite with zlen; rewrite ?zlen_zeros; lia || done).
  by rewrite <- !app_assoc.
Qed.

Lemma write_page_entries_app hl es : forall pre post i,
  0 <= hl -> zlen pre = PAGE_HEADER_SIZE + i * (hl + 1 + 8 + 4) ->
  write_page_entries hl (pre ++ zeros (zlen es * (hl + 1 + 8 + 4)) ++ post) i es
    = Ok (pre ++ concat (page_entry_bytes hl <$> es) ++ post).
Proof.
  induction es as [|e es IH]; intros pre post i Hhl Hpre; [done|].
  cbn [write_page_entries fmap list_fmap concat].
  rewrite zlen_cons, Z.mul_add_distr_r, Z.mul_1_l, zeros_split, <- app_assoc
    by (pose proof (zlen_nonneg es); nia).
  rewrite write_page_entry_app, bind_ret by done.
  rewrite app_assoc, IH; [by rewrite <- !app_assoc|done|].
  rewrite zlen_app, zlen_page_entry_bytes by done. lia.
Qed.

Section PageProofs.
Context `{Crc32}.

(** The page before its CRC is filled in. *)
Definition page_image (crc : bytes) (es : list KVEntry) (hl : Z) : bytes :=
  u32_le PAGE_MAGIC ++ crc ++ u16_le (zlen es) ++ concat (page_entry_bytes hl <$> es)
  ++ zeros ((MAX_ENTRIES_PER_PAGE - zlen es) * (hl + 1 + 8 + 4)).

Lemma serialize_page_image es hl :
  0 <= hl ->
  let kept := take 32 es in
  serialize_page es hl =
    Ok (page_image (u32_le (crc32 (page_image (zeros 4) kept hl))) kept hl).
Proof.
  intros Hhl kept. unfold serialize_page. cbv zeta. pose proof (zlen_nonneg es).
  set (count := Z.min (zlen es) MAX_ENTRIES_PER_PAGE). unfold MAX_ENTRIES_PER_PAGE in count.
  assert (Hk : zlen kept = count) by (unfold kept, count, zlen in *; rewrite length_take; lia).
  assert (take (Z.to_nat count) es = kept) as ->.
  { unfold kept, count. destruct (Z.min_spec (zlen es) 32) as [[? ->]|[? ->]]; [|done].
    rewrite !take_ge; unfold zlen in *; [done|lia..]. }
  replace (page_size hl) with (4 + 4 + 2 + (zlen kept * (hl + 1 + 8 + 4)
    + (MAX_ENTRIES_PER_PAGE - zlen kept) * (hl + 1 + 8 + 4)))
    by (unfold page_size, PAGE_HEADER_SIZE, MAX_ENTRIES_PER_PAGE; lia).
  pose proof (zlen_nonneg kept).
  rewrite !zeros_split, <- !app_assoc by (unfold MAX_ENTRIES_PER_PAGE; nia).
  set (z1 := zeros (zlen kept * _)). set (z2 := zeros (_ * _)).
  rewrite copy_at_start, bind_ret by done.
  rewrite (app_assoc (u32_le _)). rewrite copy_at_app, bind_ret by done.
  rewrite (Z.mod_small count) by lia. rewrite (app_assoc _ (u16_le _)).
  unfold z1. rewrite write_page_entries_app, bind_ret by done.
  rewrite <- !app_assoc. rewrite copy_at_app by done.
  unfold page_image, z2. by rewrite Hk.
Qed.

(** ** Reading it back *)

Lemma page_entry_bytes_wf hl e :
  KVEntry_wf hl e -> page_entry_bytes hl e =
    kv_hash e ++ [kv_type_flags e] ++ u64_le (kv_offset e) ++ u32_le (kv_total_length e).
Proof.
  intros [Hh _ _]. unfold page_entry_bytes. rewrite Hh, Z.min_id, Z.sub_diag.
  rewrite take_ge by (unfold zlen in *; lia). unfold zeros. simpl Z.to_nat. by rewrite app_nil_r.
Qed.

Lemma read_page_entry_at data hl i e rest :
  suffix_at data (PAGE_HEADER_SIZE + i * (hl + 1 + 8 + 4)) (page_entry_bytes hl e ++ rest) ->
  KVEntry_wf hl e -> read_page_entry data hl i = Ok e.
Proof.
  intros HA Hwf. rewrite page_entry_bytes_wf, <- !app_assoc in HA by done.
  destruct Hwf as [Hh Ho Ht]. unfold read_page_entry. cbv zeta.
  pose proof (suffix_at_app _ _ _ _ hl HA Hh) as HB.
  pose proof (suffix_at_app _ _ _ _ 1 HB eq_refl) as HC.
  pose proof (suffix_at_app _ _ _ _ 8 HC eq_refl) as HD.
  rewrite (suffix_at_slice_chk _ _ _ _ _ HA Hh), bind_ret.
  rewrite (suffix_at_index _ _ _ _ HB), bind_ret.
  rewrite (le_at_at _ _ _ _ 8 HC) by done. rewrite bind_ret, le_val_u64 by done.
  rewrite <- Z.add_assoc in HD. change (1 + 8) with 9 in HD.
  rewrite (le_at_at _ _ _ _ 4 HD) by done. rewrite bind_ret, le_val_u32 by done. by destruct e.
Qed.

Lemma read_page_entries_at data hl es : forall i rest,
  0 <= hl -> suffix_at data (PAGE_HEADER_SIZE + i * (hl + 1 + 8 + 4))
    (concat (page_entry_bytes hl <$> es) ++ rest) ->
  Forall (KVEntry_wf hl) es -> read_page_entries (length es) data hl i = Ok es.
Proof.
  induction es as [|e es IH]; intros i rest Hhl HA Hall; [done|].
  apply Forall_cons in Hall as [He Hall].
  cbn [fmap list_fmap concat] in HA. rewrite <- app_assoc in HA.
  cbn [length read_page_entries]. rewrite (read_page_entry_at _ _ _ _ _ HA He), bind_ret.
  rewrite (IH (i + 1) rest); [done|done| |done].
  eapply suffix_at_app in HA; [|by apply zlen_page_entry_bytes].
  replace (PAGE_HEADER_SIZE + (i + 1) * (hl + 1 + 8 + 4))
    with (PAGE_HEADER_SIZE + i * (hl + 1 + 8 + 4) + (hl + 1 + 8 + 4)) by lia. done.
Qed.

Lemma zlen_concat_entries hl es :
  0 <= hl -> zlen (concat (page_entry_bytes hl <$> es)) = zlen es * (hl + 1 + 8 + 4).
Proof.
  intros. induction es as [|e es IH]; [done|]. cbn [fmap list_fmap concat].
  rewrite zlen_app, zlen_page_entry_bytes, zlen_cons, IH by done. lia.
Qed.

Lemma zlen_page_image crc es hl :
  0 <= hl -> zlen crc = 4 -> zlen es <= MAX_ENTRIES_PER_PAGE ->
  zlen (page_image crc es hl) = page_size hl.
Proof.
  intros. unfold page_image. pose proof (zlen_nonneg es).
  autorewrite with zlen. rewrite zlen_concat_entries, zlen_zeros by nia.
  unfold page_size, PAGE_HEADER_SIZE, MAX_ENTRIES_PER_PAGE. lia.
Qed.

Lemma validated_entry_count_image es hl :
  0 <= hl -> zlen es <= MAX_ENTRIES_PER_PAGE ->
  validated_entry_count (page_image (u32_le (crc32 (page_image (zeros 4) es hl))) es hl) hl
    = Ok (Some (zlen es)).
Proof.
  intros Hhl Hes. pose proof (zlen_nonneg es).
  set (c := crc32 _). set (p := page_image (u32_le c) es hl).
  assert (Hp : zlen p = page_size hl) by (by apply zlen_page_image).
  pose proof (suffix_at_start p) as HA. unfold p in HA at 2. unfold page_image in HA.
  pose proof (suffix_at_app _ _ _ _ 4 HA eq_refl) as HB. change (0 + 4) with 4 in HB.
  pose proof (suffix_at_app _ _ _ _ 4 HB eq_refl) as HC. change (4 + 4) with 8 in HC.
  unfold validated_entry_count, is_empty_page, page_crc.
  assert (Hsz : PAGE_HEADER_SIZE <= zlen p)
    by (rewrite Hp; unfold page_size, MAX_ENTRIES_PER_PAGE; lia).
  rewrite (proj2 (Z.ltb_ge _ _) Hsz).
  rewrite (le_at_at _ _ _ _ 4 HA), bind_ret, le_val_u32 by done.
  rewrite (le_at_at _ _ _ _ 2 HC), bind_ret, le_val_u16
    by (unfold is_u16, MAX_ENTRIES_PER_PAGE in *; lia || done).
  simpl (_ && _). rewrite bind_ret. cbv iota. rewrite bind_ret.
  rewrite (le_at_at _ _ _ _ 4 HB), le_val_u32 by (done || apply crc32_u32).
  change (negb (PAGE_MAGIC =? PAGE_MAGIC)) with false. cbv iota. rewrite bind_ret.
  pose proof (suffix_at_slice_chk _ _ _ _ 4 HA eq_refl) as HS. change (0 + 4) with 4 in HS.
  rewrite HS, bind_ret.
  assert (slice_chk p 8 (zlen p) = Ok (u16_le (zlen es) ++ concat (page_entry_bytes hl <$> es)
    ++ zeros ((MAX_ENTRIES_PER_PAGE - zlen es) * (hl + 1 + 8 + 4)))) as ->.
  { pose proof (suffix_at_bounds _ _ _ HC) as [_ <-].
    rewrite <- (app_nil_r (u16_le _ ++ _)) in HC. exact (suffix_at_slice_chk _ _ _ _ _ HC eq_refl). }
  rewrite !bind_ret. change (crc32 _) with c. rewrite Z.eqb_refl. simpl negb. cbv iota.
  rewrite (proj2 (Z.ltb_ge _ _)) by lia. cbv zeta.
  rewrite (proj2 (Z.ltb_ge _ _)); [done|]. rewrite Hp. unfold page_size. nia.
Qed.

Lemma serialize_page_ok es hl :
  0 <= hl -> Forall (KVEntry_wf hl) es ->
  exists page, serialize_page es hl = Ok page /\ zlen page = page_size hl /\
    deserialize_page page hl = Ok (take 32 es).
Proof.
  intros Hhl Hall. rewrite serialize_page_image by done. eexists. split; [done|].
  assert (Hk : zlen (take 32 es) <= MAX_ENTRIES_PER_PAGE)
    by (unfold zlen, MAX_ENTRIES_PER_PAGE; rewrite length_take; lia).
  split; [by apply zlen_page_image|]. unfold deserialize_page.
  rewrite validated_entry_count_image, bind_ret by done.
  unfold zlen at 1. rewrite Nat2Z.id.
  eapply read_page_entries_at; [done| |by apply Forall_take].
  set (c := u32_le _). pose proof (suffix_at_start (page_image c (take 32 es) hl)) as HA.
  unfold page_image in HA at 2.
  pose proof (suffix_at_app _ _ _ _ 4 HA eq_refl) as HB.
  pose proof (suffix_at_app _ _ _ _ 4 HB eq_refl) as HC.
  by pose proof (suffix_at_app _ _ _ _ 2 HC eq_refl) as HD.
Qed.

(** A page holds its entries: writing entries of the page's hash length and
    reading the page back gives the first 32 of them, in a page of exactly
    [page_size] bytes; nothing panics. *)
Theorem page_roundtrip es hl :
  0 <= hl -> Forall (KVEntry_wf hl) es ->
  exists page, serialize_page es hl = Ok page /\ zlen page = page_size hl /\
    deserialize_page page hl = Ok (take 32 es).
Proof. apply serialize_page_ok. Qed.
End PageProofs.

(** ** The scanning routines agree with full deserialization *)

(** What a lookup in the decoded page returns: the first entry of that hash,
    hidden when it is a tombstone and tombstones are not wanted. *)
Definition lookup_in_page (entries : list KVEntry) (hash : bytes) (include_deleted : bool) : option KVEntry :=
  match list_find (fun e => kv_hash e = hash) entries with
  | Some (_, e) => if negb include_deleted && is_deleted e then None else Some e
  | None => None
  end.

(** The number of live entries of each KV type. *)
Definition count_live (counts : list Z) (entries : list KVEntry) : list Z :=
  foldl (fun counts e => if is_deleted e then counts else bump counts (kv_entry_type e)) counts entries.

Section PageScans.
Context `{Crc32}.

Lemma validated_entry_count_inv data hl count :
  0 <= hl -> validated_entry_count data hl = Ok (Some count) ->
  0 <= count <= MAX_ENTRIES_PER_PAGE /\ PAGE_HEADER_SIZE + count * (hl + 1 + 8 + 4) <= zlen data.
Proof.
  intros Hhl. unfold validated_entry_count. intros HV.
  apply if_Err_Ok in HV as [_ HV]. apply bind_Ok in HV as [[] [_ HV]]; [done|].
  apply bind_Ok in HV as [m [_ HV]]. apply if_Err_Ok in HV as [_ HV].
  apply bind_Ok in HV as [s [_ HV]]. apply bind_Ok in HV as [c [_ HV]].
  apply if_Err_Ok in HV as [_ HV]. apply bind_Ok in HV as [n [E HV]].
  apply if_Err_Ok in HV as [H1%Z.ltb_ge HV]. cbv zeta in HV.
  apply if_Err_Ok in HV as [H2%Z.ltb_ge HV]. injection HV as <-.
  apply bind_Ok in E as [bs [_ E]]. injection E as <-. pose proof (le_val_nonneg bs). lia.
Qed.

Lemma page_scans n : forall data hl i hash inc counts,
  0 <= hl -> 0 <= i -> PAGE_HEADER_SIZE + (i + Z.of_nat n) * (hl + 1 + 8 + 4) <= zlen data ->
  exists es, read_page_entries n data hl i = Ok es
    /\ find_entry_loop n data hl i hash inc = Ok (lookup_in_page es hash inc)
    /\ live_counts_loop n data hl i counts = Ok (count_live counts es).
Proof.
  induction n as [|n IH]; intros data hl i hash inc counts Hhl Hi Hb; [by exists []|].
  set (off := PAGE_HEADER_SIZE + i * (hl + 1 + 8 + 4)).
  assert (Ho : 0 <= off) by (unfold off, PAGE_HEADER_SIZE; nia).
  assert (Hb2 : off + hl + 13 <= zlen data) by (unfold off; nia).
  destruct (index_ok data (off + hl)) as [b Hidx]; [lia|].
  assert (Hr : read_page_entry data hl i =
    Ok {| kv_type_flags := b; kv_hash := slice data off (off + hl);
          kv_offset := le_val (slice data (off + hl + 1) (off + hl + 1 + 8));
          kv_total_length := le_val (slice data (off + hl + 9) (off + hl + 9 + 4)) |}).
  { unfold read_page_entry. cbv zeta. fold off. rewrite slice_chk_ok, bind_ret by lia.
    rewrite Hidx, bind_ret, !le_at_ok by lia. done. }
  set (e := {| kv_type_flags := b |}) in *.
  set (counts' := if is_deleted e then counts else bump counts (kv_entry_type e)).
  destruct (IH data hl (i + 1) hash inc counts') as (es & E1 & E2 & E3); [done|lia|nia|].
  exists (e :: es). cbn [read_page_entries find_entry_loop live_counts_loop]. fold off.
  rewrite Hr, bind_ret, E1, bind_ret. split; [done|].
  rewrite slice_chk_ok, bind_ret, Hidx, !bind_ret by lia. cbv zeta.
  split.
  - rewrite E2. unfold lookup_in_page. cbn [list_find]. change (kv_hash e) with (slice data off (off + hl)).
    destruct (decide (slice data off (off + hl) = hash)) as [Heq|Hne].
    + rewrite bool_decide_eq_true_2 by done. simpl negb at 1. cbv iota.
      fold (is_deleted e). change (negb (Z.land (b2z b) KV_FLAG_DELETED =? 0)) with (is_deleted e).
      destruct (negb inc && is_deleted e); [done|]. by rewrite !le_at_ok by lia.
    + rewrite bool_decide_eq_false_2 by done. simpl negb. cbv iota.
      by destruct (list_find _ es) as [[]|].
  - unfold count_live in *. cbn [foldl]. fold counts'. rewrite <- E3. f_equal.
    unfold counts', is_deleted. change (kv_type_flags e) with b.
    by destruct (Z.land (b2z b) KV_FLAG_DELETED =? 0).
Qed.

Lemma find_entry_in_page_data_lookup data hl hash inc :
  0 <= hl ->
  find_entry_in_page_data data hl hash inc =
    (es ← deserialize_page data hl; Ok (lookup_in_page es hash inc)).
Proof.
  intros Hhl. unfold find_entry_in_page_data, deserialize_page.
  destruct (validated_entry_count data hl) as [[count|]| |] eqn:E; [|done..].
  apply validated_entry_count_inv in E as [Hc Hb]; [|done]. rewrite !bind_ret.
  destruct (page_scans (Z.to_nat count) data hl 0 hash inc []) as (es & -> & -> & _);
    [done|lia|rewrite Z2Nat.id by lia; lia|done].
Qed.

(** [find_entry_in_page_data] scans the raw page without building the entries,
    and answers what a lookup in the deserialized page would: the same entry,
    or the same error. *)
Theorem find_entry_in_page_data_equiv data hl hash inc :
  0 <= hl ->
  find_entry_in_page_data data hl hash inc =
    (es ← deserialize_page data hl; Ok (lookup_in_page es hash inc)).
Proof. apply find_entry_in_page_data_lookup. Qed.

(** [live_type_counts_in_page] likewise counts the live entries by type. *)
Theorem live_type_counts_equiv data hl :
  0 <= hl ->
  live_type_counts_in_page data hl =
    (es ← deserialize_page data hl; Ok (count_live (replicate 16 0) es)).
Proof.
  intros Hhl. unfold live_type_counts_in_page, deserialize_page. cbv zeta.
  destruct (validated_entry_count data hl) as [[count|]| |] eqn:E; [|done..].
  apply validated_entry_count_inv in E as [Hc Hb]; [|done]. rewrite !bind_ret.
  destruct (page_scans (Z.to_nat count) data hl 0 [] true (replicate 16 0)) as (es & -> & _ & ->);
    [done|lia|rewrite Z2Nat.id by lia; lia|done].
Qed.

Lemma validated_entry_count_total data hl : validated_entry_count data hl <> Panic.
Proof.
  unfold validated_entry_count, is_empty_page, page_crc, PAGE_HEADER_SIZE.
  destruct (Z.ltb_spec (zlen data) (4 + 4 + 2)); [done|].
  rewrite !le_at_ok, !slice_chk_ok, !bind_ret by lia. cbv zeta.
  repeat (case_match; try done; rewrite ?bind_ret; cbv zeta).
Qed.

(** No page, however damaged, makes the decoder index out of range. *)
Theorem deserialize_page_total data hl : 0 <= hl -> deserialize_page data hl <> Panic.
Proof.
  intros Hhl. unfold deserialize_page. pose proof (validated_entry_count_total data hl).
  destruct (validated_entry_count data hl) as [[count|]| |] eqn:E; [|done..].
  apply validated_entry_count_inv in E as [Hc Hb]; [|done]. rewrite bind_ret.
  destruct (page_scans (Z.to_nat count) data hl 0 [] true []) as (es & -> & _);
    [done|lia|rewrite Z2Nat.id by lia; lia|done].
Qed.
End PageScans.

(** ** Updating a decoded page *)

(** A decoded page as the finite map from hashes to entries it stands for; the
    first entry of a hash wins. *)
Definition page_map (entries : list KVEntry) : gmap bytes KVEntry :=
  list_to_map ((fun e => (kv_hash e, e)) <$> entries).

(** What every page the engine keeps satisfies: it fits, and no hash occurs twice. *)
Definition page_ok (entries : list KVEntry) : Prop :=
  NoDup (kv_hash <$> entries) /\ zlen entries <= MAX_ENTRIES_PER_PAGE.

Lemma page_map_lookup es h :
  page_map es !! h = snd <$> list_find (fun e => kv_hash e = h) es.
Proof.
  induction es as [|e es IH]; [done|]. cbn [list_find page_map fmap list_fmap].
  unfold page_map in *. cbn [fmap list_fmap list_to_map foldr]. simpl.
  destruct (decide (kv_hash e = h)) as [<-|Hne].
  - by rewrite lookup_insert_eq.
  - rewrite lookup_insert_ne, IH by done. by destruct (list_find _ es) as [[]|].
Qed.

Lemma lookup_in_page_map es h inc :
  lookup_in_page es h inc =
    (e ← page_map es !! h; if negb inc && is_deleted e then None else Some e).
Proof.
  rewrite page_map_lookup. unfold lookup_in_page. by destruct (list_find _ es) as [[]|].
Qed.

Lemma page_map_app es1 es2 : page_map (es1 ++ es2) = page_map es1 ∪ page_map es2.
Proof. unfold page_map. by rewrite fmap_app, list_to_map_app. Qed.

Lemma page_map_single e : page_map [e] = {[ kv_hash e := e ]}.
Proof. done. Qed.

Lemma page_map_None es h : page_map es !! h = None <-> h ∉ kv_hash <$> es.
Proof.
  rewrite page_map_lookup, fmap_None, list_find_None, Forall_forall, list_elem_of_fmap.
  naive_solver.
Qed.

Lemma upsert_in_page_cases es e :
  NoDup (kv_hash <$> es) ->
  (exists l1 old l2, es = l1 ++ old :: l2 /\ kv_hash old = kv_hash e
     /\ upsert_in_page es e = (l1 ++ e :: l2, true))
  \/ (kv_hash e ∉ kv_hash <$> es /\
      upsert_in_page es e = if zlen es <? MAX_ENTRIES_PER_PAGE then (es ++ [e], true) else (es, false)).
Proof.
  intros Hnd. unfold upsert_in_page.
  destruct (list_find _ es) as [[i old]|] eqn:E.
  - left. apply list_find_Some in E as (Hi & Heq & _).
    destruct (list_elem_of_split_length es i old Hi) as (l1 & l2 & -> & ->).
    exists l1, old, l2. split_and!; [done..|].
    f_equal. replace (length l1) with (length l1 + 0)%nat by lia. by rewrite insert_app_r.
  - right. split; [|done]. apply page_map_None. rewrite page_map_lookup, E. done.
Qed.

Lemma upsert_in_page_spec es e :
  page_ok es ->
  let '(es', fits) := upsert_in_page es e in
  page_ok es'
  /\ fits = bool_decide (kv_hash e ∈ kv_hash <$> es \/ zlen es < MAX_ENTRIES_PER_PAGE)
  /\ page_map es' = (if fits then <[kv_hash e := e]> (page_map es) else page_map es)
  /\ (fits = false -> es' = es).
Proof.
  intros [Hnd Hlen].
  destruct (upsert_in_page_cases es e Hnd) as [(l1 & old & l2 & -> & Hh & ->)|[Hnew ->]].
  - rewrite bool_decide_eq_true_2 by (left; rewrite <- Hh; apply list_elem_of_fmap_2; set_solver).
    assert (Hl : kv_hash <$> l1 ++ e :: l2 = kv_hash <$> l1 ++ old :: l2)
      by (rewrite !fmap_app, !fmap_cons, Hh; done).
    split_and!; [split; [by rewrite Hl|zlen_lia]|done| |done].
    rewrite (cons_middle e), (cons_middle old), !page_map_app, !page_map_single, Hh.
    rewrite <- Hl in Hnd. rewrite fmap_app, fmap_cons in Hnd.
    apply NoDup_app in Hnd as (_ & Hd & _).
    rewrite insert_union_r by (apply page_map_None; set_solver).
    by rewrite insert_union_l, insert_singleton_eq.
  - destruct (Z.ltb_spec (zlen es) MAX_ENTRIES_PER_PAGE) as [Hlt|Hge].
    + rewrite bool_decide_eq_true_2 by auto. split_and!; [|done| |done].
      * split; [|zlen_lia]. rewrite fmap_app. apply NoDup_app. split_and!; [done|set_solver|].
        apply NoDup_singleton.
      * rewrite page_map_app, page_map_single, insert_union_singleton_r; [done|].
        by apply page_map_None.
    + rewrite bool_decide_eq_false_2 by (intros [?|?]; [done|lia]). done.
Qed.

(** C27. [upsert_in_page] inserts into the map the page stands for: it keeps the page
    well formed, it refuses exactly a new hash on a full page, and then leaves
    the page alone. *)
Theorem upsert_in_page_refines es e :
  page_ok es ->
  let '(es', fits) := upsert_in_page es e in
  page_ok es'
  /\ fits = bool_decide (kv_hash e ∈ kv_hash <$> es \/ zlen es < MAX_ENTRIES_PER_PAGE)
  /\ page_map es' = (if fits then <[kv_hash e := e]> (page_map es) else page_map es)
  /\ (fits = false -> es' = es).
Proof. apply upsert_in_page_spec. Qed.

Lemma find_in_page_map es h :
  NoDup (kv_hash <$> es) ->
  find_in_page es h = lookup_in_page es h false.
Proof.
  intros Hnd. unfold find_in_page. rewrite lookup_in_page_map. simpl negb.
  induction es as [|e es IH]; [done|]. cbn [list_find].
  rewrite fmap_cons in Hnd. apply NoDup_cons in Hnd as [Hni Hnd]. specialize (IH Hnd).
  change (e :: es) with ([e] ++ es). rewrite page_map_app, page_map_single.
  destruct (decide (kv_hash e = h)) as [<-|Hne].
  - rewrite (lookup_union_Some_l _ _ _ e) by apply lookup_singleton_eq. cbn [mbind option_bind].
    unfold is_deleted. destruct (Z.eqb_spec (Z.land (b2z (kv_type_flags e)) KV_FLAG_DELETED) 0) as [E|E].
    + by rewrite decide_True.
    + rewrite decide_False by naive_solver. apply page_map_None in Hni. rewrite Hni in IH.
      by destruct (list_find _ es) as [[]|].
  - rewrite decide_False by naive_solver. rewrite lookup_union_r by (by apply lookup_singleton_ne).
    rewrite <- IH. by destruct (list_find _ es) as [[]|].
Qed.

(** ** The size of the KV block *)

(** What the engine needs of the stage it picks for [entry_count] entries. *)
Definition stage_capacity (stage hash_length : Z) : Z :=
  snd (stage_params stage (page_size hash_length)) * MAX_ENTRIES_PER_PAGE.

Lemma stage_loop_spec sizes psize n : forall k s,
  stage_loop sizes k n psize = Some s ->
  k <= s < k + zlen sizes /\
  (exists b, sizes !! Z.to_nat (s - k) = Some b /\ n < buckets_for_block b psize * MAX_ENTRIES_PER_PAGE) /\
  forall j b, k <= j < s -> sizes !! Z.to_nat (j - k) = Some b ->
    buckets_for_block b psize * MAX_ENTRIES_PER_PAGE <= n.
Proof.
  induction sizes as [|b sizes IH]; intros k s; [done|]. cbn [stage_loop]. cbv zeta.
  destruct (Z.ltb_spec n (buckets_for_block b psize * MAX_ENTRIES_PER_PAGE)) as [Hlt|Hge].
  - intros [= <-]. rewrite Z.sub_diag. split; [zlen_lia|]. split; [by exists b|]. lia.
  - intros (Hs & (b' & Hb & Hn) & Hlow)%IH. split; [zlen_lia|]. split.
    + exists b'. replace (Z.to_nat (s - k)) with (S (Z.to_nat (s - (k + 1)))) by lia. done.
    + intros j bj Hj Hbj. destruct (decide (j = k)) as [->|Hne].
      * rewrite Z.sub_diag in Hbj. by injection Hbj as <-.
      * apply (Hlow j); [lia|].
        by replace (Z.to_nat (j - k)) with (S (Z.to_nat (j - (k + 1)))) in Hbj by lia.
Qed.

Lemma stage_loop_None sizes psize n k :
  stage_loop sizes k n psize = None ->
  Forall (fun b => buckets_for_block b psize * MAX_ENTRIES_PER_PAGE <= n) sizes.
Proof.
  revert k. induction sizes as [|b sizes IH]; intros k; [done|]. cbn [stage_loop]. cbv zeta.
  destruct (Z.ltb_spec n (buckets_for_block b psize * MAX_ENTRIES_PER_PAGE)); [done|].
  intros ?%IH. by constructor.
Qed.

Lemma stage_params_table stage psize b :
  KV_STAGE_SIZES !! Z.to_nat stage = Some b -> stage_params stage psize = (b, buckets_for_block b psize).
Proof. unfold stage_params. by intros ->. Qed.

(** [stage_for_count] picks a stage of the table; it is the lowest whose
    capacity exceeds the entry count, unless no stage of the table is large
    enough, when it is the last. *)
Theorem stage_for_count_lowest n hl :
  let s := stage_for_count n hl in
  0 <= s < zlen KV_STAGE_SIZES
  /\ (n < stage_capacity s hl \/ s = zlen KV_STAGE_SIZES - 1)
  /\ forall j, 0 <= j < s -> stage_capacity j hl <= n.
Proof.
  cbv zeta. unfold stage_for_count, stage_capacity.
  destruct (stage_loop KV_STAGE_SIZES 0 n (page_size hl)) as [s|] eqn:E; cbn [default from_option id].
  - apply stage_loop_spec in E as (Hs & (b & Hb & Hn) & Hlow). rewrite Z.sub_0_r in Hb.
    split; [lia|]. split; [left; by rewrite (stage_params_table _ _ b)|].
    intros j Hj. destruct (lookup_lt_is_Some_2 KV_STAGE_SIZES (Z.to_nat j)) as [bj Hbj].
    { unfold zlen in *. lia. }
    rewrite (stage_params_table _ _ bj) by done. apply (Hlow j); [lia|]. by rewrite Z.sub_0_r.
  - apply stage_loop_None in E. split; [by vm_compute|]. split; [by right|].
    intros j Hj. destruct (lookup_lt_is_Some_2 KV_STAGE_SIZES (Z.to_nat j)) as [bj Hbj].
    { unfold zlen in *. lia. }
    rewrite (stage_params_table _ _ bj) by done. by apply (Forall_lookup_1 _ _ _ _ E Hbj).
Qed.

(** ** Witnesses *)

(** CRC-32 (IEEE 802.3, reflected), bit by bit, to instantiate the parameter. *)
Definition crc_step (c : Z) : Z :=
  if Z.odd c then Z.lxor 0xEDB88320 (Z.shiftr c 1) else Z.shiftr c 1.

Definition crc_byte (c : Z) (b : byte) : Z := Nat.iter 8 crc_step (Z.lxor c (b2z b)).

Definition crc32_bits (data : bytes) : Z :=
  Z.lxor (fold_left crc_byte data 0xFFFFFFFF) 0xFFFFFFFF mod 2^32.

Lemma crc32_bits_u32 data : is_u32 (crc32_bits data).
Proof. apply Z.mod_pos_bound. lia. Qed.

Definition crc32_ieee : Crc32 := {| crc32 := crc32_bits; crc32_u32 := crc32_bits_u32 |}.

Lemma crc32_ieee_check_value : @crc32 crc32_ieee (lit "123456789") = 0xCBF43926.
Proof. vm_compute. reflexivity. Qed.

Lemma page_roundtrip_witness :
  exists page, @serialize_page crc32_ieee [sample_kv Byte.x01 512; sample_kv Byte.x02 640] 32 = Ok page
    /\ zlen page = page_size 32
    /\ @deserialize_page crc32_ieee page 32 = Ok (take 32 [sample_kv Byte.x01 512; sample_kv Byte.x02 640]).
Proof.
  apply (@page_roundtrip crc32_ieee); [lia|]. repeat constructor; concrete.
Defined.

Definition sample_page : bytes :=
  match @serialize_page crc32_ieee [sample_kv Byte.x01 512; sample_kv Byte.x02 640] 32 with
  | Ok page => page
  | _ => []
  end.

Lemma find_entry_in_page_data_equiv_witness :
  @find_entry_in_page_data crc32_ieee sample_page 32 (replicate 32 Byte.x02) false =
  Ok (Some (sample_kv Byte.x02 640)).
Proof.
  rewrite (@find_entry_in_page_data_equiv crc32_ieee sample_page 32 (replicate 32 Byte.x02) false ltac:(lia)).
  vm_compute. reflexivity.
Defined.

Lemma live_type_counts_equiv_witness :
  @live_type_counts_in_page crc32_ieee sample_page 32 =
  (es ← @deserialize_page crc32_ieee sample_page 32; Ok (count_live (replicate 16 0) es)).
Proof. exact (@live_type_counts_equiv crc32_ieee sample_page 32 ltac:(lia)). Defined.

Lemma deserialize_page_total_witness : @deserialize_page crc32_ieee (lit "not a page") 32 <> Panic.
Proof. exact (@deserialize_page_total crc32_ieee _ 32 ltac:(lia)). Defined.

Lemma upsert_in_page_refines_witness :
  let es := [sample_kv Byte.x01 512; sample_kv Byte.x02 640] in
  let e := sample_kv Byte.x02 768 in
  page_ok es /\
  let '(es', fits) := upsert_in_page es e in
  page_ok es'
  /\ fits = bool_decide (kv_hash e ∈ kv_hash <$> es \/ zlen es < MAX_ENTRIES_PER_PAGE)
  /\ page_map es' = (if fits then <[kv_hash e := e]> (page_map es) else page_map es)
  /\ (fits = false -> es' = es).
Proof.
  cbv zeta.
  assert (Hok : page_ok [sample_kv Byte.x01 512; sample_kv Byte.x02 640]).
  { split; [|vm_compute; congruence]. apply (bool_decide_unpack _). vm_compute. exact I. }
  split; [exact Hok|]. exact (upsert_in_page_refines _ (sample_kv Byte.x02 768) Hok).
Defined.
