(* ===== verification/FileIo.v ===== *)
(** A file as the byte sequence it holds, with the [seek] followed by
    [read_exact] or [write_all] that the engine uses on [std::fs::File]. *)
From S2P Require Import Prelude Codec.

Local Open Scope Z_scope.

(** [seek(SeekFrom::Start(off))] then [read_exact] of [n] bytes. *)
Definition file_read (file : bytes) (off n : Z) : res bytes :=
  if zlen file <? off + n then Err UnexpectedEof else Ok (slice file off (off + n)).

(** [seek(SeekFrom::Start(off))] then [write_all]: a write past the end extends
    the file, the gap reads as zeros. *)
Definition file_write (file : bytes) (off : Z) (x : bytes) : bytes :=
  take (Z.to_nat off) (file ++ zeros (off - zlen file)) ++ x
  ++ drop (Z.to_nat (off + zlen x)) file.

Lemma take_pad (file : bytes) off :
  0 <= off -> zlen (take (Z.to_nat off) (file ++ zeros (off - zlen file))) = off.
Proof.
  intros. unfold zlen, zeros. rewrite length_take, length_app, length_replicate. lia.
Qed.

(** Everything written is read back, by whatever part of it is read. *)
Lemma file_write_suffix file off x :
  0 <= off -> exists rest, suffix_at (file_write file off x) off (x ++ rest).
Proof.
  intros. eexists. unfold file_write. eexists. split; [done|]. by apply take_pad.
Qed.

Lemma file_read_at file off x rest n :
  suffix_at file off (x ++ rest) -> zlen x = n -> file_read file off n = Ok x.
Proof.
  intros H Hn. pose proof (suffix_at_bounds _ _ _ H). unfold file_read.
  rewrite (proj2 (Z.ltb_ge _ _)) by zlen_lia. by rewrite (suffix_at_slice _ _ _ _ _ H Hn).
Qed.

Lemma file_read_write file off x n :
  0 <= off -> zlen x = n -> file_read (file_write file off x) off n = Ok x.
Proof.
  intros Ho <-. destruct (file_write_suffix file off x Ho) as [rest H].
  by apply (file_read_at _ _ _ rest).
Qed.

Lemma slice_app_l {A} (l k : list A) a b :
  0 <= a <= b -> b <= zlen l -> slice (l ++ k) a b = slice l a b.
Proof.
  intros. unfold slice, zlen in *. rewrite drop_app_le by lia.
  rewrite take_app_le; [done|]. rewrite length_drop. lia.
Qed.

Lemma index_app_l {A} (l k : list A) i x : index l i = Ok x -> index (l ++ k) i = Ok x.
Proof.
  unfold index. case_match eqn:Hi; [|done].
  rewrite (proj2 (Z.ltb_lt _ _)) by zlen_lia. rewrite (proj2 (Z.leb_le _ _)) by lia. simpl.
  rewrite lookup_app_l by (unfold zlen in *; lia). done.
Qed.

Lemma slice_take {A} (l : list A) n a b :
  0 <= a -> b <= n -> slice (take (Z.to_nat n) l) a b = slice l a b.
Proof.
  intros. unfold slice. rewrite skipn_firstn_comm, take_take. f_equal. lia.
Qed.

(** A write leaves the bytes before it and after it alone. *)
Lemma file_read_write_before file off x a n :
  0 <= a -> 0 <= n -> a + n <= off -> a + n <= zlen file ->
  file_read (file_write file off x) a n = file_read file a n.
Proof.
  intros. unfold file_read. pose proof (take_pad file off ltac:(lia)) as Hl.
  rewrite (proj2 (Z.ltb_ge (zlen file) _)) by lia.
  unfold file_write. rewrite (proj2 (Z.ltb_ge _ _)) by zlen_lia.
  rewrite slice_app_l by lia. rewrite slice_take by lia. by rewrite slice_app_l by lia.
Qed.

Lemma file_read_write_after file off x a n :
  0 <= off -> 0 <= n -> off + zlen x <= a -> a + n <= zlen file ->
  file_read (file_write file off x) a n = file_read file a n.
Proof.
  intros. pose proof (zlen_nonneg x). unfold file_read.
  rewrite (proj2 (Z.ltb_ge (zlen file) _)) by lia.
  pose proof (take_pad file off ltac:(lia)) as Hl. unfold file_write. rewrite app_assoc.
  set (p := take _ _ ++ x). assert (Hp : zlen p = off + zlen x) by (unfold p; zlen_lia).
  assert (Hd : zlen (drop (Z.to_nat (off + zlen x)) file) = zlen file - (off + zlen x))
    by (unfold zlen in *; rewrite length_drop; lia).
  rewrite (proj2 (Z.ltb_ge _ _)) by zlen_lia. f_equal. unfold slice.
  rewrite drop_app_ge by (unfold zlen in *; lia). rewrite drop_drop. do 2 f_equal.
  unfold zlen in *. lia.
Qed.

Lemma zlen_file_write file off x :
  0 <= off -> zlen (file_write file off x) = Z.max (zlen file) (off + zlen x).
Proof.
  intros. unfold file_write. pose proof (zlen_nonneg x). rewrite !zlen_app, take_pad by done.
  unfold zlen in *. rewrite length_drop. lia.
Qed.

(** A write inside the file, with the file cut at the write position. *)
Lemma file_write_inside pre rest x :
  file_write (pre ++ rest) (zlen pre) x = pre ++ x ++ drop (length x) rest.
Proof.
  unfold file_write. replace (zeros _) with (@nil byte).
  2: { unfold zeros. pose proof (zlen_nonneg rest). rewrite zlen_app.
       replace (Z.to_nat _) with 0%nat by lia. done. }
  rewrite app_nil_r. unfold zlen. rewrite Nat2Z.id, take_app_length.
  replace (Z.to_nat (Z.of_nat (length pre) + Z.of_nat (length x))) with (length pre + length x)%nat by lia.
  by rewrite <- drop_drop, drop_app_length.
Qed.

Lemma file_write_app file off x y :
  0 <= off -> file_write (file_write file off x) (off + zlen x) y = file_write file off (x ++ y).
Proof.
  intros Ho. set (P := take (Z.to_nat off) (file ++ zeros (off - zlen file))).
  assert (HP : zlen P = off) by (by apply take_pad).
  change (file_write file off x) with (P ++ x ++ drop (Z.to_nat (off + zlen x)) file).
  change (file_write file off (x ++ y)) with (P ++ (x ++ y) ++ drop (Z.to_nat (off + zlen (x ++ y))) file).
  rewrite app_assoc. replace (off + zlen x) with (zlen (P ++ x)) at 2 by (rewrite zlen_app; lia).
  rewrite file_write_inside, <- !app_assoc, drop_drop. do 4 f_equal.
  unfold zlen in *. rewrite length_app. lia.
Qed.

Lemma file_write_suffix_inside file off rest x :
  suffix_at file off rest -> suffix_at (file_write file off x) off (x ++ drop (length x) rest).
Proof. intros (pre & -> & <-). rewrite file_write_inside. by exists pre. Qed.

(** ** Byte by byte *)

(** The byte at a position, and the bytes of a span. *)
Definition at_ (file : bytes) (i : Z) : option byte := file !! Z.to_nat i.

Lemma at_file_write file off x i :
  0 <= off -> 0 <= i ->
  at_ (file_write file off x) i =
    if decide (i < off) then at_ (file ++ zeros (off - zlen file)) i
    else if decide (i < off + zlen x) then at_ x (i - off) else at_ file i.
Proof.
  intros Ho Hi. unfold at_, file_write. pose proof (take_pad file off Ho) as Hl.
  set (Q := file ++ zeros (off - zlen file)) in *. unfold zlen in Hl. repeat case_decide.
  - rewrite lookup_app_l by lia. apply lookup_take_lt. lia.
  - rewrite lookup_app_r by lia. rewrite lookup_app_l by (unfold zlen in *; lia). f_equal. lia.
  - rewrite lookup_app_r by lia. rewrite lookup_app_r by (unfold zlen in *; lia).
    rewrite lookup_drop. f_equal. unfold zlen in *. lia.
Qed.

Lemma at_app_l file x i : 0 <= i < zlen file -> at_ (file ++ x) i = at_ file i.
Proof. intros. unfold at_. apply lookup_app_l. unfold zlen in *. lia. Qed.

Lemma at_zeros n i : 0 <= i < n -> at_ (zeros n) i = Some Byte.x00.
Proof. intros. unfold at_, zeros. apply lookup_replicate_2. lia. Qed.

Lemma at_slice file a b i : 0 <= a -> 0 <= i < b - a -> at_ (slice file a b) i = at_ file (a + i).
Proof.
  intros. unfold at_, slice. rewrite lookup_take_lt, lookup_drop by lia. f_equal. lia.
Qed.

(** Two reads agree when they succeed and agree on every byte. *)
Lemma file_read_ext f g a b n :
  0 <= a -> 0 <= b -> 0 <= n -> a + n <= zlen f -> b + n <= zlen g ->
  (forall i, 0 <= i < n -> at_ f (a + i) = at_ g (b + i)) ->
  file_read f a n = file_read g b n.
Proof.
  intros Ha Hb Hn Hf Hg Heq. unfold file_read. rewrite !(proj2 (Z.ltb_ge _ _)) by lia. f_equal.
  apply list_eq. intros i. destruct (decide (Z.of_nat i < n)) as [Hi|Hi].
  - pose proof (at_slice f a (a + n) (Z.of_nat i)) as E1. pose proof (at_slice g b (b + n) (Z.of_nat i)) as E2.
    unfold at_ in E1 at 1. unfold at_ in E2 at 1. rewrite Nat2Z.id in E1, E2.
    rewrite E1, E2 by lia. apply Heq. lia.
  - rewrite !lookup_ge_None_2; [done|..]; rewrite slice_length by lia; lia.
Qed.

Lemma file_read_zeros f a n :
  0 <= a -> 0 <= n -> a + n <= zlen f -> (forall i, 0 <= i < n -> at_ f (a + i) = Some Byte.x00) ->
  file_read f a n = Ok (zeros n).
Proof.
  intros. rewrite (file_read_ext f (zeros n) a 0 n); [|rewrite ?zlen_zeros; lia..|].
  - unfold file_read. rewrite zlen_zeros, Z.ltb_irrefl by lia. f_equal.
    replace (0 + n) with (zlen (zeros n)) at 1 by (rewrite zlen_zeros; lia). apply slice_all.
  - intros i Hi. rewrite at_zeros; [auto|lia].
Qed.

Lemma file_write_nil file off : 0 <= off <= zlen file -> file_write file off [] = file.
Proof.
  intros. unfold file_write. rewrite zlen_nil, Z.add_0_r. simpl.
  rewrite take_app_le by (unfold zlen in *; lia). apply take_drop.
Qed.
