(* ===== verification/HotTail.v ===== *)
(** The hot tail (src/aeordb-lib/src/engine/hot_tail.rs): the block after the
    log that carries the buffered KV writes and the free spans across a clean
    shutdown. *)
From S2P Require Import Prelude Codec EntryFormat KvEntry KvPages FileIo.

Local Open Scope Z_scope.

Definition HOT_TAIL_MAGIC : bytes := z2b <$> [0xAE; 0x01; 0x7D; 0xB1; 0x0D].
Definition HOT_TAIL_FORMAT_VERSION : byte := z2b 1.
Definition WRITE_RECORD_VERSION : byte := z2b 1.
Definition VOID_RECORD_VERSION : byte := z2b 1.
Definition HOT_TAIL_HEADER_SIZE : Z := 5 + 1 + 4 + 4 + 4.

Definition write_record_size (hash_length : Z) : Z := 1 + hash_length + 1 + 8 + 4.
Definition VOID_RECORD_SIZE : Z := 1 + 8 + 4.

Record VoidRecord := { vr_offset : Z; vr_size : Z }.

Record HotTailPayload := { ht_writes : list KVEntry; ht_voids : list VoidRecord }.

(** The bytes the loop pushes for one write. *)
Definition write_record (hash_length : Z) (entry : KVEntry) : bytes :=
  let hash_bytes := kv_hash entry in
  let copy_len := Z.min hash_length (zlen hash_bytes) in
  [WRITE_RECORD_VERSION] ++ take (Z.to_nat copy_len) hash_bytes
  ++ (if zlen hash_bytes <? hash_length then zeros (hash_length - zlen hash_bytes) else [])
  ++ [kv_type_flags entry] ++ u64_le (kv_offset entry) ++ u32_le (kv_total_length entry).

Definition void_record (v : VoidRecord) : bytes :=
  [VOID_RECORD_VERSION] ++ u64_le (vr_offset v) ++ u32_le (vr_size v).

Section HotTail.
Context `{Crc32}.

Definition serialize_hot_tail (payload : HotTailPayload) (hash_length : Z) : bytes :=
  let buf := HOT_TAIL_MAGIC ++ [HOT_TAIL_FORMAT_VERSION]
    ++ u32_le (zlen (ht_writes payload) mod 2^32) ++ u32_le (zlen (ht_voids payload) mod 2^32) in
  let header_crc := crc32 (slice buf 0 14) in
  buf ++ u32_le header_crc
  ++ concat (write_record hash_length <$> ht_writes payload)
  ++ concat (void_record <$> ht_voids payload).

(** [for _ in 0..write_count], with [n] rounds left. *)
Fixpoint read_writes (n : nat) (data : bytes) (hash_length cursor : Z) : res (list KVEntry * Z) :=
  match n with
  | O => Ok ([], cursor)
  | S n =>
    _record_version ← index data cursor;
    let cursor := cursor + 1 in
    hash ← slice_chk data cursor (cursor + hash_length);
    let cursor := cursor + hash_length in
    type_flags ← index data cursor;
    let cursor := cursor + 1 in
    offset ← le_at data cursor 8;
    let cursor := cursor + 8 in
    total_length ← le_at data cursor 4;
    let cursor := cursor + 4 in
    '(writes, cursor) ← read_writes n data hash_length cursor;
    Ok ({| kv_type_flags := type_flags; kv_hash := hash; kv_offset := offset;
           kv_total_length := total_length |} :: writes, cursor)
  end.

Fixpoint read_voids (n : nat) (data : bytes) (cursor : Z) : res (list VoidRecord) :=
  match n with
  | O => Ok []
  | S n =>
    _record_version ← index data cursor;
    let cursor := cursor + 1 in
    offset ← le_at data cursor 8;
    let cursor := cursor + 8 in
    sz ← le_at data cursor 4;
    let cursor := cursor + 4 in
    voids ← read_voids n data cursor;
    Ok ({| vr_offset := offset; vr_size := sz |} :: voids)
  end.

(** [Ok None] is the source's [None]; [Panic] an index out of range. *)
Definition deserialize_hot_tail (data : bytes) (hash_length : Z) : res (option HotTailPayload) :=
  if zlen data <? HOT_TAIL_HEADER_SIZE then Ok None else
  magic ← slice_chk data 0 5;
  if negb (bool_decide (magic = HOT_TAIL_MAGIC)) then Ok None else
  format_version ← index data 5;
  if negb (bool_decide (format_version = HOT_TAIL_FORMAT_VERSION)) then Ok None else
  write_count ← le_at data 6 4;
  void_count ← le_at data 10 4;
  stored_crc ← le_at data 14 4;
  pre ← slice_chk data 0 14;
  let actual_crc := crc32 pre in
  if negb (stored_crc =? actual_crc) then Ok None else
  let wsize := write_record_size hash_length in
  let expected_len := HOT_TAIL_HEADER_SIZE + write_count * wsize + void_count * VOID_RECORD_SIZE in
  if zlen data <? expected_len then Ok None else
  '(writes, cursor) ← read_writes (Z.to_nat write_count) data hash_length HOT_TAIL_HEADER_SIZE;
  voids ← read_voids (Z.to_nat void_count) data cursor;
  Ok (Some {| ht_writes := writes; ht_voids := voids |}).

(** The file after the write, and the end offset returned. *)
Definition write_hot_tail (file : bytes) (offset : Z) (payload : HotTailPayload) (hash_length : Z) : bytes * Z :=
  let data := serialize_hot_tail payload hash_length in
  (file_write file offset data, offset + zlen data).

Definition read_hot_tail (file : bytes) (offset hash_length : Z) : res (option HotTailPayload) :=
  match file_read file offset HOT_TAIL_HEADER_SIZE with
  | Ok header =>
    magic ← slice_chk header 0 5;
    if negb (bool_decide (magic = HOT_TAIL_MAGIC)) then Ok None else
    format_version ← index header 5;
    if negb (bool_decide (format_version = HOT_TAIL_FORMAT_VERSION)) then Ok None else
    write_count ← le_at header 6 4;
    void_count ← le_at header 10 4;
    stored_crc ← le_at header 14 4;
    pre ← slice_chk header 0 14;
    if negb (crc32 pre =? stored_crc) then Ok None else
    let wsize := write_record_size hash_length in
    let body_len := write_count * wsize + void_count * VOID_RECORD_SIZE in
    match file_read file (offset + HOT_TAIL_HEADER_SIZE) body_len with
    | Ok body => deserialize_hot_tail (header ++ body) hash_length
    | _ => Ok None
    end
  | _ => Ok None
  end.
End HotTail.

(** ** Records *)

Record VoidRecord_wf (v : VoidRecord) : Prop := {
  wf_vr_offset : is_u64 (vr_offset v);
  wf_vr_size : is_u32 (vr_size v);
}.

Record HotTailPayload_wf (hl : Z) (p : HotTailPayload) : Prop := {
  wf_ht_writes : Forall (KVEntry_wf hl) (ht_writes p);
  wf_ht_voids : Forall VoidRecord_wf (ht_voids p);
  wf_ht_nwrites : is_u32 (zlen (ht_writes p));
  wf_ht_nvoids : is_u32 (zlen (ht_voids p));
}.

Lemma write_record_wf hl e :
  KVEntry_wf hl e -> write_record hl e =
    [WRITE_RECORD_VERSION] ++ kv_hash e ++ [kv_type_flags e] ++ u64_le (kv_offset e)
    ++ u32_le (kv_total_length e).
Proof.
  intros [Hh _ _]. unfold write_record. cbv zeta. rewrite Hh, Z.min_id, Z.ltb_irrefl.
  by rewrite take_ge by (unfold zlen in *; lia).
Qed.

Lemma read_writes_at hl es : forall data cursor rest,
  suffix_at data cursor (concat (write_record hl <$> es) ++ rest) -> Forall (KVEntry_wf hl) es ->
  let cursor' := cursor + zlen es * write_record_size hl in
  read_writes (length es) data hl cursor = Ok (es, cursor') /\ suffix_at data cursor' rest.
Proof.
  induction es as [|e es IH]; intros data cursor rest HA Hall; cbv zeta.
  - rewrite (zlen_nil (A:=KVEntry)), Z.mul_0_l, Z.add_0_r. done.
  - apply Forall_cons in Hall as [He Hall]. cbn [fmap list_fmap concat] in HA.
    rewrite (write_record_wf _ _ He), <- !app_assoc in HA. pose proof He as [Hh Ho Ht].
    pose proof (suffix_at_app _ _ _ _ 1 HA eq_refl) as HB.
    pose proof (suffix_at_app _ _ _ _ hl HB Hh) as HC.
    pose proof (suffix_at_app _ _ _ _ 1 HC eq_refl) as HD.
    pose proof (suffix_at_app _ _ _ _ 8 HD eq_refl) as HE.
    pose proof (suffix_at_app _ _ _ _ 4 HE eq_refl) as HF.
    cbn [length read_writes].
    rewrite (suffix_at_index _ _ _ _ HA), bind_ret. cbv zeta.
    rewrite (suffix_at_slice_chk _ _ _ _ _ HB Hh), bind_ret.
    rewrite (suffix_at_index _ _ _ _ HC), bind_ret.
    rewrite (le_at_at _ _ _ _ 8 HD), bind_ret, le_val_u64 by done.
    rewrite (le_at_at _ _ _ _ 4 HE), bind_ret, le_val_u32 by done.
    destruct (IH _ _ _ HF Hall) as [-> Hs]. rewrite bind_ret.
    replace (cursor + zlen (e :: es) * write_record_size hl)
      with (cursor + 1 + hl + 1 + 8 + 4 + zlen es * write_record_size hl)
      by (rewrite zlen_cons; unfold write_record_size; lia).
    split; [by destruct e|done].
Qed.

Lemma read_voids_at vs : forall data cursor rest,
  suffix_at data cursor (concat (void_record <$> vs) ++ rest) -> Forall VoidRecord_wf vs ->
  read_voids (length vs) data cursor = Ok vs.
Proof.
  induction vs as [|v vs IH]; intros data cursor rest HA Hall; [done|].
  apply Forall_cons in Hall as [[Ho Hs] Hall]. cbn [fmap list_fmap concat] in HA.
  unfold void_record in HA at 1. rewrite <- !app_assoc in HA.
  pose proof (suffix_at_app _ _ _ _ 1 HA eq_refl) as HB.
  pose proof (suffix_at_app _ _ _ _ 8 HB eq_refl) as HC.
  pose proof (suffix_at_app _ _ _ _ 4 HC eq_refl) as HD.
  cbn [length read_voids]. rewrite (suffix_at_index _ _ _ _ HA), bind_ret. cbv zeta.
  rewrite (le_at_at _ _ _ _ 8 HB), bind_ret, le_val_u64 by done.
  rewrite (le_at_at _ _ _ _ 4 HC), bind_ret, le_val_u32 by done.
  rewrite (IH _ _ _ HD Hall), bind_ret. by destruct v.
Qed.

(** With enough bytes left, the record loops succeed, and what they return
    depends only on those bytes. *)
Lemma read_writes_ok n : forall data hl cursor,
  0 <= hl -> 0 <= cursor -> cursor + Z.of_nat n * write_record_size hl <= zlen data ->
  exists es, read_writes n data hl cursor = Ok (es, cursor + Z.of_nat n * write_record_size hl)
    /\ forall extra, read_writes n (data ++ extra) hl cursor = read_writes n data hl cursor.
Proof.
  unfold write_record_size. induction n as [|n IH]; intros data hl cursor Hhl Hc Hb.
  { exists []. split; [|done]. simpl. do 2 f_equal. lia. }
  destruct (IH data hl (cursor + 1 + hl + 1 + 8 + 4)) as (es & E & Hext); [lia..|].
  destruct (index_ok data cursor) as [v Hv]; [nia|].
  destruct (index_ok data (cursor + 1 + hl)) as [f Hf]; [nia|].
  cbn [read_writes]. rewrite Hv, Hf, !bind_ret. cbv zeta.
  rewrite slice_chk_ok, bind_ret, !le_at_ok, !bind_ret by lia. rewrite E, bind_ret.
  eexists. split; [do 2 f_equal; lia|]. intros extra.
  pose proof (zlen_app data extra). pose proof (zlen_nonneg extra).
  rewrite (index_app_l _ _ _ _ Hv), (index_app_l _ _ _ _ Hf), !bind_ret.
  rewrite slice_chk_ok, bind_ret, !le_at_ok, !bind_ret by lia.
  rewrite Hext, E, bind_ret. by rewrite !slice_app_l by lia.
Qed.

Lemma read_voids_ok n : forall data cursor,
  0 <= cursor -> cursor + Z.of_nat n * VOID_RECORD_SIZE <= zlen data ->
  exists vs, read_voids n data cursor = Ok vs
    /\ forall extra, read_voids n (data ++ extra) cursor = Ok vs.
Proof.
  unfold VOID_RECORD_SIZE. induction n as [|n IH]; intros data cursor Hc Hb; [by exists []|].
  destruct (IH data (cursor + 1 + 8 + 4)) as (vs & E & Hext); [lia..|].
  destruct (index_ok data cursor) as [v Hv]; [lia|].
  eexists. split.
  - cbn [read_voids]. rewrite Hv, bind_ret. cbv zeta. rewrite !le_at_ok, !bind_ret by lia.
    by rewrite E.
  - intros extra. destruct (index_ok (data ++ extra) cursor) as [w Hw]; [zlen_lia|].
    pose proof (zlen_app data extra). pose proof (zlen_nonneg extra).
    cbn [read_voids]. rewrite Hw, bind_ret. cbv zeta. rewrite !le_at_ok, !bind_ret by lia.
    rewrite Hext, bind_ret. by rewrite !slice_app_l by lia.
Qed.

(** ** The header *)

Section HotTailProofs.
Context `{Crc32}.

(** What both readers make of the 18 header bytes: the two counts. *)
Definition header_counts (header : bytes) : option (Z * Z) :=
  if bool_decide (slice header 0 5 = HOT_TAIL_MAGIC)
     && bool_decide (slice header 5 6 = [HOT_TAIL_FORMAT_VERSION])
     && (le_val (slice header 14 18) =? crc32 (slice header 0 14))
  then Some (le_val (slice header 6 10), le_val (slice header 10 14)) else None.

Definition body_size (hl : Z) (counts : Z * Z) : Z :=
  counts.1 * write_record_size hl + counts.2 * VOID_RECORD_SIZE.

Definition read_body (data : bytes) (hl : Z) (counts : Z * Z) : res (option HotTailPayload) :=
  '(writes, cursor) ← read_writes (Z.to_nat counts.1) data hl HOT_TAIL_HEADER_SIZE;
  voids ← read_voids (Z.to_nat counts.2) data cursor;
  Ok (Some {| ht_writes := writes; ht_voids := voids |}).

Lemma deserialize_hot_tail_counts header rest hl :
  zlen header = HOT_TAIL_HEADER_SIZE ->
  deserialize_hot_tail (header ++ rest) hl =
    match header_counts header with
    | Some counts => if zlen rest <? body_size hl counts then Ok None
                     else read_body (header ++ rest) hl counts
    | None => Ok None
    end.
Proof.
  unfold HOT_TAIL_HEADER_SIZE. simpl. intros Hh. pose proof (zlen_nonneg rest).
  pose proof (zlen_app header rest) as Hl.
  unfold deserialize_hot_tail, header_counts, HOT_TAIL_HEADER_SIZE.
  rewrite (proj2 (Z.ltb_ge _ _)) by lia.
  destruct (index_slice1 header 5) as (v & Hv & Hs5); [lia|].
  rewrite (index_app_l _ _ _ _ Hv). change (5 + 1) with 6 in Hs5. rewrite Hs5, !slice_chk_ok, !le_at_ok by lia.
  rewrite !bind_ret, !slice_app_l by lia.
  destruct (bool_decide (slice header 0 5 = _)); [|done]. simpl negb. cbv iota. rewrite ?bind_ret.
  destruct (decide (v = HOT_TAIL_FORMAT_VERSION)) as [->|Hne].
  2: { rewrite !bool_decide_eq_false_2 by congruence. done. }
  rewrite !bool_decide_eq_true_2 by done. simpl negb. cbv iota. rewrite ?bind_ret.
  change (14 + 4) with 18. change (6 + 4) with 10. change (10 + 4) with 14. simpl andb.
  destruct (_ =? crc32 _); [|done]. simpl negb. cbv iota zeta. unfold body_size. simpl.
  set (w := le_val (slice header 6 10)). set (n := le_val (slice header 10 14)).
  destruct (Z.ltb_spec (zlen rest) (w * write_record_size hl + n * VOID_RECORD_SIZE));
    [rewrite (proj2 (Z.ltb_lt _ _)) by lia|rewrite (proj2 (Z.ltb_ge _ _)) by lia]; done.
Qed.

Lemma read_hot_tail_counts file off hl header :
  file_read file off HOT_TAIL_HEADER_SIZE = Ok header -> zlen header = HOT_TAIL_HEADER_SIZE ->
  read_hot_tail file off hl =
    match header_counts header with
    | Some counts =>
      match file_read file (off + HOT_TAIL_HEADER_SIZE) (body_size hl counts) with
      | Ok body => deserialize_hot_tail (header ++ body) hl
      | _ => Ok None
      end
    | None => Ok None
    end.
Proof.
  unfold read_hot_tail. intros -> Hh. unfold HOT_TAIL_HEADER_SIZE in Hh. unfold header_counts.
  destruct (index_slice1 header 5) as (v & Hv & Hs5); [lia|].
  rewrite Hv. change (5 + 1) with 6 in Hs5. rewrite Hs5.
  rewrite !slice_chk_ok, !le_at_ok by lia. rewrite ?bind_ret.
  destruct (bool_decide (slice header 0 5 = _)); [|done]. simpl negb. cbv iota. rewrite ?bind_ret.
  destruct (decide (v = HOT_TAIL_FORMAT_VERSION)) as [->|Hne].
  2: { rewrite !bool_decide_eq_false_2 by congruence. done. }
  rewrite !bool_decide_eq_true_2 by done. simpl negb. cbv iota. rewrite ?bind_ret.
  simpl andb. rewrite Z.eqb_sym. by destruct (_ =? crc32 _).
Qed.

Lemma header_counts_nonneg header counts :
  header_counts header = Some counts -> 0 <= counts.1 /\ 0 <= counts.2.
Proof.
  unfold header_counts. case_match; [|done]. intros [= <-]. split; apply le_val_nonneg.
Qed.

Lemma read_body_ok header body extra hl counts :
  0 <= hl -> 0 <= counts.1 -> 0 <= counts.2 ->
  zlen header = HOT_TAIL_HEADER_SIZE -> body_size hl counts <= zlen body ->
  exists p, read_body (header ++ body) hl counts = Ok (Some p)
    /\ read_body ((header ++ body) ++ extra) hl counts = Ok (Some p).
Proof.
  intros Hhl Hw Hv Hh Hb. pose proof (zlen_app header body). unfold body_size in Hb.
  set (data := header ++ body) in *.
  assert (0 <= counts.1 * write_record_size hl) by (unfold write_record_size; nia).
  assert (0 <= HOT_TAIL_HEADER_SIZE) by done.
  assert (0 <= counts.2 * VOID_RECORD_SIZE) by (unfold VOID_RECORD_SIZE; lia).
  destruct (read_writes_ok (Z.to_nat counts.1) data hl HOT_TAIL_HEADER_SIZE) as (es & E & Hext);
    [done..|rewrite Z2Nat.id by done; lia|].
  rewrite Z2Nat.id in E by done.
  destruct (read_voids_ok (Z.to_nat counts.2) data
    (HOT_TAIL_HEADER_SIZE + counts.1 * write_record_size hl)) as (vs & Ev & Hextv);
    [lia|rewrite Z2Nat.id by done; lia|].
  eexists. unfold read_body. rewrite Hext, E, !bind_ret, Ev, Hextv. done.
Qed.

Lemma read_hot_tail_equiv' file off hl :
  0 <= off -> 0 <= hl ->
  read_hot_tail file off hl = deserialize_hot_tail (drop (Z.to_nat off) file) hl.
Proof.
  intros Ho Hhl. set (d := drop (Z.to_nat off) file).
  assert (Hd : zlen d = Z.max 0 (zlen file - off)) by (unfold d, zlen; rewrite length_drop; lia).
  destruct (Z.ltb_spec (zlen file) (off + HOT_TAIL_HEADER_SIZE)) as [Hlt|Hge].
  { unfold read_hot_tail, file_read. rewrite (proj2 (Z.ltb_lt _ _)) by done.
    unfold deserialize_hot_tail. rewrite (proj2 (Z.ltb_lt _ _)); [done|].
    unfold HOT_TAIL_HEADER_SIZE in *. lia. }
  set (header := take 18 d).
  assert (Hh : zlen header = HOT_TAIL_HEADER_SIZE).
  { unfold header, HOT_TAIL_HEADER_SIZE, zlen in *. rewrite length_take. lia. }
  assert (Hr : file_read file off HOT_TAIL_HEADER_SIZE = Ok header).
  { unfold file_read. rewrite (proj2 (Z.ltb_ge _ _)) by done.
    unfold header, slice. do 3 f_equal. unfold HOT_TAIL_HEADER_SIZE. lia. }
  rewrite (read_hot_tail_counts _ _ _ _ Hr Hh). set (rest := drop 18 d).
  assert (Hrest : zlen d = HOT_TAIL_HEADER_SIZE + zlen rest)
    by (rewrite <- (take_drop 18 d), zlen_app, <- Hh; done).
  assert (0 <= HOT_TAIL_HEADER_SIZE) by done.
  rewrite <- (take_drop 18 d). fold header rest.
  rewrite deserialize_hot_tail_counts by done.
  destruct (header_counts header) as [counts|] eqn:Ec; [|done].
  apply header_counts_nonneg in Ec as Hc. unfold file_read.
  destruct (Z.ltb_spec (zlen rest) (body_size hl counts)) as [Hs|Hs].
  { by rewrite (proj2 (Z.ltb_lt _ _)) by lia. }
  rewrite (proj2 (Z.ltb_ge _ _)) by lia.
  set (body := slice _ _ _). set (n := Z.to_nat (body_size hl counts)).
  assert (Hbody : body = take n rest).
  { unfold body, slice, rest, d, n. rewrite drop_drop. f_equal; [lia|f_equal].
    unfold HOT_TAIL_HEADER_SIZE. lia. }
  assert (0 <= body_size hl counts).
  { unfold body_size, write_record_size, VOID_RECORD_SIZE. destruct Hc. nia. }
  assert (Hlb : zlen body = body_size hl counts).
  { rewrite Hbody. unfold n, zlen in *. rewrite length_take. lia. }
  rewrite deserialize_hot_tail_counts, Ec by done. rewrite Hlb, Z.ltb_irrefl.
  rewrite <- (take_drop n rest), <- Hbody, app_assoc.
  destruct (read_body_ok header body (drop n rest) hl counts) as (p & -> & ->); [tauto || lia..|done].
Qed.

(** Reading the hot tail from the file, header first and then a body of the
    length the header announces, is decoding the bytes from that offset on. *)
Theorem read_hot_tail_equiv file off hl :
  0 <= off -> 0 <= hl ->
  read_hot_tail file off hl = deserialize_hot_tail (drop (Z.to_nat off) file) hl.
Proof. apply read_hot_tail_equiv'. Qed.

(** ** Round trip *)

Definition hot_header (nw nv : Z) : bytes :=
  let buf := HOT_TAIL_MAGIC ++ [HOT_TAIL_FORMAT_VERSION] ++ u32_le nw ++ u32_le nv in
  buf ++ u32_le (crc32 buf).

Lemma header_counts_hot_header nw nv :
  is_u32 nw -> is_u32 nv -> header_counts (hot_header nw nv) = Some (nw, nv).
Proof.
  intros Hw Hv. unfold header_counts.
  set (buf := HOT_TAIL_MAGIC ++ [HOT_TAIL_FORMAT_VERSION] ++ u32_le nw ++ u32_le nv).
  change (slice (hot_header nw nv) 0 14) with buf.
  change (slice (hot_header nw nv) 14 18) with (u32_le (crc32 buf)).
  change (slice (hot_header nw nv) 6 10) with (u32_le nw).
  change (slice (hot_header nw nv) 10 14) with (u32_le nv).
  rewrite !le_val_u32, Z.eqb_refl by (done || apply crc32_u32).
  rewrite !bool_decide_eq_true_2 by done. done.
Qed.

Lemma serialize_hot_tail_split p hl :
  HotTailPayload_wf hl p ->
  serialize_hot_tail p hl = hot_header (zlen (ht_writes p)) (zlen (ht_voids p))
    ++ concat (write_record hl <$> ht_writes p) ++ concat (void_record <$> ht_voids p).
Proof.
  intros [_ _ Hw Hv]. unfold serialize_hot_tail, hot_header. cbv zeta.
  rewrite !Z.mod_small by done. set (buf := HOT_TAIL_MAGIC ++ _).
  rewrite <- app_assoc. by change (slice buf 0 14) with buf.
Qed.

Lemma zlen_concat_same {A} (f : A -> bytes) n l :
  Forall (fun x => zlen (f x) = n) l -> zlen (concat (f <$> l)) = zlen l * n.
Proof.
  induction 1 as [|x l Hx _ IH]; [done|]. cbn [fmap list_fmap concat].
  rewrite zlen_app, zlen_cons, IH, Hx. lia.
Qed.

Lemma deserialize_serialize_hot_tail p hl rest :
  0 <= hl -> HotTailPayload_wf hl p ->
  deserialize_hot_tail (serialize_hot_tail p hl ++ rest) hl = Ok (Some p).
Proof.
  intros Hhl Hwf. rewrite serialize_hot_tail_split by done. destruct Hwf as [Hws Hvs Hw Hv].
  set (nw := zlen (ht_writes p)) in *. set (nv := zlen (ht_voids p)) in *.
  set (wb := concat (write_record hl <$> ht_writes p)).
  set (vb := concat (void_record <$> ht_voids p)).
  assert (Hwl : zlen wb = nw * write_record_size hl).
  { apply zlen_concat_same. eapply Forall_impl; [done|]. intros e He.
    rewrite write_record_wf by done. pose proof (wf_kv_hash _ _ He).
    unfold write_record_size. zlen_lia. }
  assert (Hvl : zlen vb = nv * VOID_RECORD_SIZE)
    by (apply zlen_concat_same, Forall_true; done).
  rewrite <- !app_assoc, deserialize_hot_tail_counts, header_counts_hot_header by done.
  unfold body_size. cbn [fst snd]. rewrite (proj2 (Z.ltb_ge _ _)) by zlen_lia.
  unfold read_body. cbn [fst snd]. unfold nw, nv, zlen. rewrite !Nat2Z.id. fold nw nv.
  fold (zlen (ht_writes p)) (zlen (ht_voids p)). fold nw nv.
  pose proof (suffix_at_app (hot_header nw nv ++ wb ++ vb ++ rest) 0 (hot_header nw nv) _
    HOT_TAIL_HEADER_SIZE (suffix_at_start _) eq_refl) as HA. rewrite Z.add_0_l in HA.
  destruct (read_writes_at hl (ht_writes p) _ _ _ HA Hws) as [-> HB]. rewrite bind_ret.
  rewrite (read_voids_at _ _ _ _ HB Hvs). by destruct p.
Qed.

Lemma write_hot_tail_read file off p hl :
  0 <= off -> 0 <= hl -> HotTailPayload_wf hl p ->
  let '(file', end_offset) := write_hot_tail file off p hl in
  read_hot_tail file' off hl = Ok (Some p) /\ end_offset <= zlen file'.
Proof.
  intros Ho Hhl Hwf. unfold write_hot_tail. set (data := serialize_hot_tail p hl).
  split; [|rewrite zlen_file_write by done; lia].
  destruct (file_write_suffix file off data Ho) as (rest & pre & E & Hpre).
  rewrite read_hot_tail_equiv' by done. rewrite E.
  replace (Z.to_nat off) with (length pre) by (unfold zlen in *; lia).
  rewrite drop_app_length. by apply deserialize_serialize_hot_tail.
Qed.

(** The hot tail survives the file: what [write_hot_tail] puts at an offset,
    [read_hot_tail] finds there, whatever the file held before. *)
Theorem hot_tail_roundtrip file off p hl :
  0 <= off -> 0 <= hl -> HotTailPayload_wf hl p ->
  let '(file', end_offset) := write_hot_tail file off p hl in
  read_hot_tail file' off hl = Ok (Some p) /\ end_offset <= zlen file'.
Proof. apply write_hot_tail_read. Qed.

(** C36. No file content makes the reader panic: it finds a payload or [None]. *)
Theorem hot_tail_total data hl :
  0 <= hl -> exists o, deserialize_hot_tail data hl = Ok o.
Proof.
  intros Hhl. destruct (Z.ltb_spec (zlen data) HOT_TAIL_HEADER_SIZE) as [Hlt|Hge].
  { unfold deserialize_hot_tail. rewrite (proj2 (Z.ltb_lt _ _)) by done. eauto. }
  rewrite <- (take_drop 18 data). rewrite deserialize_hot_tail_counts.
  2: { unfold HOT_TAIL_HEADER_SIZE, zlen in *. rewrite length_take. lia. }
  destruct (header_counts _) as [counts|] eqn:Ec; [|eauto].
  apply header_counts_nonneg in Ec as [Hc1 Hc2].
  destruct (Z.ltb_spec (zlen (drop 18 data)) (body_size hl counts)); [eauto|].
  destruct (read_body_ok (take 18 data) (drop 18 data) [] hl counts) as (p & -> & _); [done..| |done|eauto].
  unfold HOT_TAIL_HEADER_SIZE, zlen in *. rewrite length_take. lia.
Qed.
End HotTailProofs.

(** ** Witnesses *)

Definition sample_payload : HotTailPayload :=
  {| ht_writes := [sample_kv Byte.x01 512]; ht_voids := [{| vr_offset := 4096; vr_size := 128 |}] |}.

Definition sample_tail : bytes :=
  fst (@write_hot_tail crc32_ieee (zeros 100) 100 sample_payload 32).

Lemma read_hot_tail_equiv_witness :
  @read_hot_tail crc32_ieee sample_tail 100 32
    = @deserialize_hot_tail crc32_ieee (drop (Z.to_nat 100) sample_tail) 32
  /\ @deserialize_hot_tail crc32_ieee (drop (Z.to_nat 100) sample_tail) 32 = Ok (Some sample_payload).
Proof.
  split; [|vm_compute; reflexivity].
  exact (@read_hot_tail_equiv crc32_ieee sample_tail 100 32 ltac:(lia) ltac:(lia)).
Defined.

Lemma hot_tail_roundtrip_witness :
  let '(file', end_offset) := @write_hot_tail crc32_ieee (zeros 100) 100 sample_payload 32 in
  @read_hot_tail crc32_ieee file' 100 32 = Ok (Some sample_payload) /\ end_offset <= zlen file'.
Proof.
  apply (@hot_tail_roundtrip crc32_ieee (zeros 100) 100 sample_payload 32); [lia|lia|].
  constructor; [repeat constructor; concrete|repeat constructor; concrete|concrete|concrete].
Defined.

Lemma hot_tail_total_witness : exists o, @deserialize_hot_tail crc32_ieee (lit "garbage") 32 = Ok o.
Proof. exact (@hot_tail_total crc32_ieee (lit "garbage") 32 ltac:(lia)). Defined.
