(* ===== verification/FileHeader.v ===== *)
(** The database file header (src/aeordb-lib/src/engine/file_header.rs): a
    256-byte slot with a CRC32, kept twice so that an update overwrites the slot
    that is not in use. *)
From S2P Require Import Prelude Codec EntryFormat KvPages FileIo.

Local Open Scope Z_scope.

Definition FILE_HEADER_SIZE : Z := 256.
Definition HEADER_REGION_SIZE : Z := FILE_HEADER_SIZE * 2.
Definition FILE_MAGIC : bytes := lit "AEOR".
Definition HEADER_CRC_SIZE : Z := 4.
Definition SUPPORTED_HEADER_VERSION : byte := z2b 3.

Record FileHeader := {
  fh_header_version : byte;
  fh_hash_algo : HashAlgorithm;
  fh_sequence : Z;
  fh_created_at : Z;
  fh_updated_at : Z;
  fh_kv_block_offset : Z;
  fh_kv_block_length : Z;
  fh_kv_block_version : byte;
  fh_nvt_offset : Z;
  fh_nvt_length : Z;
  fh_nvt_version : byte;
  fh_head_hash : bytes;
  fh_entry_count : Z;
  fh_resize_in_progress : bool;
  fh_buffer_kvs_offset : Z;
  fh_buffer_nvt_offset : Z;
  fh_hot_tail_offset : Z;
  fh_kv_block_stage : byte;
  fh_resize_target_stage : byte;
  fh_backup_type : byte;
  fh_base_hash : bytes;
  fh_target_hash : bytes;
}.

(** [now] is the clock's milliseconds. *)
Definition FileHeader_new (now : Z) (hash_algo : HashAlgorithm) : FileHeader :=
  let hash_length := hash_length hash_algo in
  {| fh_header_version := SUPPORTED_HEADER_VERSION;
     fh_hash_algo := hash_algo;
     fh_sequence := 0;
     fh_created_at := now;
     fh_updated_at := now;
     fh_kv_block_offset := 0;
     fh_kv_block_length := 0;
     fh_kv_block_version := z2b 1;
     fh_nvt_offset := 0;
     fh_nvt_length := 0;
     fh_nvt_version := z2b 1;
     fh_head_hash := zeros hash_length;
     fh_entry_count := 0;
     fh_resize_in_progress := false;
     fh_buffer_kvs_offset := 0;
     fh_buffer_nvt_offset := 0;
     fh_hot_tail_offset := 0;
     fh_kv_block_stage := z2b 0;
     fh_resize_target_stage := z2b 0;
     fh_backup_type := z2b 0;
     fh_base_hash := zeros hash_length;
     fh_target_hash := zeros hash_length |}.

Definition with_sequence (h : FileHeader) (sequence : Z) : FileHeader :=
  {| fh_header_version := fh_header_version h; fh_hash_algo := fh_hash_algo h;
     fh_sequence := sequence; fh_created_at := fh_created_at h;
     fh_updated_at := fh_updated_at h; fh_kv_block_offset := fh_kv_block_offset h;
     fh_kv_block_length := fh_kv_block_length h; fh_kv_block_version := fh_kv_block_version h;
     fh_nvt_offset := fh_nvt_offset h; fh_nvt_length := fh_nvt_length h;
     fh_nvt_version := fh_nvt_version h; fh_head_hash := fh_head_hash h;
     fh_entry_count := fh_entry_count h; fh_resize_in_progress := fh_resize_in_progress h;
     fh_buffer_kvs_offset := fh_buffer_kvs_offset h; fh_buffer_nvt_offset := fh_buffer_nvt_offset h;
     fh_hot_tail_offset := fh_hot_tail_offset h; fh_kv_block_stage := fh_kv_block_stage h;
     fh_resize_target_stage := fh_resize_target_stage h; fh_backup_type := fh_backup_type h;
     fh_base_hash := fh_base_hash h; fh_target_hash := fh_target_hash h |}.

(** [&hash[..hash_length.min(hash.len())]]. *)
Definition hash_prefix (hash_length : Z) (hash : bytes) : bytes :=
  take (Z.to_nat (Z.min hash_length (zlen hash))) hash.

Section WithCrc.
Context `{Crc32}.

Definition FileHeader_serialize (h : FileHeader) : res bytes :=
  let buffer := zeros FILE_HEADER_SIZE in
  let offset := 0 in
  buffer ← copy_at buffer offset FILE_MAGIC;
  let offset := offset + 4 in
  buffer ← copy_at buffer offset [fh_header_version h];
  let offset := offset + 1 in
  buffer ← copy_at buffer offset (u16_le (HashAlgorithm_to_u16 (fh_hash_algo h)));
  let offset := offset + 2 in
  buffer ← copy_at buffer offset (u64_le (fh_sequence h));
  let offset := offset + 8 in
  buffer ← copy_at buffer offset (i64_le (fh_created_at h));
  let offset := offset + 8 in
  buffer ← copy_at buffer offset (i64_le (fh_updated_at h));
  let offset := offset + 8 in
  buffer ← copy_at buffer offset (u64_le (fh_kv_block_offset h));
  let offset := offset + 8 in
  buffer ← copy_at buffer offset (u64_le (fh_kv_block_length h));
  let offset := offset + 8 in
  buffer ← copy_at buffer offset [fh_kv_block_version h];
  let offset := offset + 1 in
  buffer ← copy_at buffer offset (u64_le (fh_nvt_offset h));
  let offset := offset + 8 in
  buffer ← copy_at buffer offset (u64_le (fh_nvt_length h));
  let offset := offset + 8 in
  buffer ← copy_at buffer offset [fh_nvt_version h];
  let offset := offset + 1 in
  let hash_length := hash_length (fh_hash_algo h) in
  buffer ← copy_at buffer offset (hash_prefix hash_length (fh_head_hash h));
  let offset := offset + hash_length in
  buffer ← copy_at buffer offset (u64_le (fh_entry_count h));
  let offset := offset + 8 in
  buffer ← copy_at buffer offset [z2b (if fh_resize_in_progress h then 1 else 0)];
  let offset := offset + 1 in
  buffer ← copy_at buffer offset (u64_le (fh_buffer_kvs_offset h));
  let offset := offset + 8 in
  buffer ← copy_at buffer offset (u64_le (fh_buffer_nvt_offset h));
  let offset := offset + 8 in
  buffer ← copy_at buffer offset (u64_le (fh_hot_tail_offset h));
  let offset := offset + 8 in
  buffer ← copy_at buffer offset [fh_kv_block_stage h];
  let offset := offset + 1 in
  buffer ← copy_at buffer offset [fh_resize_target_stage h];
  let offset := offset + 1 in
  buffer ← copy_at buffer offset [fh_backup_type h];
  let offset := offset + 1 in
  buffer ← copy_at buffer offset (hash_prefix hash_length (fh_base_hash h));
  let offset := offset + hash_length in
  buffer ← copy_at buffer offset (hash_prefix hash_length (fh_target_hash h));
  let crc := crc32 (slice buffer 0 (FILE_HEADER_SIZE - HEADER_CRC_SIZE)) in
  copy_at buffer (FILE_HEADER_SIZE - HEADER_CRC_SIZE) (u32_le crc).

(** [bytes] is an array of [FILE_HEADER_SIZE] bytes. *)
Definition FileHeader_deserialize (bs : bytes) : res FileHeader :=
  let offset := 0 in
  magic ← slice_chk bs offset (offset + 4);
  if negb (bool_decide (magic = FILE_MAGIC)) then Err InvalidMagic else
  let offset := offset + 4 in
  header_version ← index bs offset;
  let offset := offset + 1 in
  if negb (bool_decide (header_version = SUPPORTED_HEADER_VERSION))
  then Err (InvalidEntryVersion (b2z header_version)) else
  stored_crc ← le_at bs (FILE_HEADER_SIZE - HEADER_CRC_SIZE) HEADER_CRC_SIZE;
  pre ← slice_chk bs 0 (FILE_HEADER_SIZE - HEADER_CRC_SIZE);
  let computed_crc := crc32 pre in
  if negb (stored_crc =? computed_crc)
  then Err (CorruptEntry 0 "file header CRC mismatch (stored {:08x}, computed {:08x})") else
  hash_algo_raw ← le_at bs offset 2;
  hash_algo ← ok_or (HashAlgorithm_from_u16 hash_algo_raw) (InvalidHashAlgorithm hash_algo_raw);
  let offset := offset + 2 in
  sequence ← le_at bs offset 8;
  let offset := offset + 8 in
  created_at ← le_at bs offset 8;
  let offset := offset + 8 in
  updated_at ← le_at bs offset 8;
  let offset := offset + 8 in
  kv_block_offset ← le_at bs offset 8;
  let offset := offset + 8 in
  kv_block_length ← le_at bs offset 8;
  let offset := offset + 8 in
  kv_block_version ← index bs offset;
  let offset := offset + 1 in
  nvt_offset ← le_at bs offset 8;
  let offset := offset + 8 in
  nvt_length ← le_at bs offset 8;
  let offset := offset + 8 in
  nvt_version ← index bs offset;
  let offset := offset + 1 in
  let hash_length := hash_length hash_algo in
  head_hash ← slice_chk bs offset (offset + hash_length);
  let offset := offset + hash_length in
  entry_count ← le_at bs offset 8;
  let offset := offset + 8 in
  resize_in_progress ← index bs offset;
  let offset := offset + 1 in
  buffer_kvs_offset ← le_at bs offset 8;
  let offset := offset + 8 in
  buffer_nvt_offset ← le_at bs offset 8;
  let offset := offset + 8 in
  hot_tail_offset ← le_at bs offset 8;
  let offset := offset + 8 in
  kv_block_stage ← index bs offset;
  let offset := offset + 1 in
  resize_target_stage ← index bs offset;
  let offset := offset + 1 in
  backup_type ← index bs offset;
  let offset := offset + 1 in
  base_hash ← slice_chk bs offset (offset + hash_length);
  let offset := offset + hash_length in
  target_hash ← slice_chk bs offset (offset + hash_length);
  Ok {| fh_header_version := header_version;
        fh_hash_algo := hash_algo;
        fh_sequence := sequence;
        fh_created_at := i64_of_bits created_at;
        fh_updated_at := i64_of_bits updated_at;
        fh_kv_block_offset := kv_block_offset;
        fh_kv_block_length := kv_block_length;
        fh_kv_block_version := kv_block_version;
        fh_nvt_offset := nvt_offset;
        fh_nvt_length := nvt_length;
        fh_nvt_version := nvt_version;
        fh_head_hash := head_hash;
        fh_entry_count := entry_count;
        fh_resize_in_progress := negb (b2z resize_in_progress =? 0);
        fh_buffer_kvs_offset := buffer_kvs_offset;
        fh_buffer_nvt_offset := buffer_nvt_offset;
        fh_hot_tail_offset := hot_tail_offset;
        fh_kv_block_stage := kv_block_stage;
        fh_resize_target_stage := resize_target_stage;
        fh_backup_type := backup_type;
        fh_base_hash := base_hash;
        fh_target_hash := target_hash |}.

(** The header in use and the slot it came from; a panic of either parse is one
    of the call. *)
Definition read_active_header (file : bytes) : res (FileHeader * Z) :=
  slot_a ← file_read file 0 FILE_HEADER_SIZE;
  slot_b ← file_read file FILE_HEADER_SIZE FILE_HEADER_SIZE;
  match FileHeader_deserialize slot_a, FileHeader_deserialize slot_b with
  | Ok a, Ok b => if fh_sequence b <=? fh_sequence a then Ok (a, 0) else Ok (b, 1)
  | Ok a, Err _ => Ok (a, 0)
  | Err _, Ok b => Ok (b, 1)
  | Err error, Err _ => Err error
  | Panic, _ => Panic
  | _, Panic => Panic
  end.

(** The byte offset of the slot that is not active. *)
Definition inactive_slot_offset (active_slot : Z) : Z := wrap64 (wrap64 (1 - active_slot) * FILE_HEADER_SIZE).

(** The in-memory header with its new sequence number, and the file once both
    [sync_data] calls returned. *)
Definition write_header_to_inactive_slot (file : bytes) (header : FileHeader) (active_slot : Z)
    : res (FileHeader * bytes) :=
  let header := with_sequence header (wrap64 (fh_sequence header + 1)) in
  bs ← FileHeader_serialize header;
  let slot_offset := inactive_slot_offset active_slot in
  Ok (header, file_write file slot_offset bs).

Definition write_initial_header (file : bytes) (header : FileHeader) : res (FileHeader * bytes) :=
  let zero := zeros FILE_HEADER_SIZE in
  let file := file_write file FILE_HEADER_SIZE zero in
  let header := with_sequence header 1 in
  bs ← FileHeader_serialize header;
  Ok (header, file_write file 0 bs).
End WithCrc.

(** ** The header slot *)

(** The widths of the struct's fields, and hashes of the algorithm's length. *)
Record FileHeader_wf (h : FileHeader) : Prop := {
  wf_fh_version : fh_header_version h = SUPPORTED_HEADER_VERSION;
  wf_fh_sequence : is_u64 (fh_sequence h);
  wf_fh_created_at : is_i64 (fh_created_at h);
  wf_fh_updated_at : is_i64 (fh_updated_at h);
  wf_fh_kv_block_offset : is_u64 (fh_kv_block_offset h);
  wf_fh_kv_block_length : is_u64 (fh_kv_block_length h);
  wf_fh_nvt_offset : is_u64 (fh_nvt_offset h);
  wf_fh_nvt_length : is_u64 (fh_nvt_length h);
  wf_fh_head_hash : zlen (fh_head_hash h) = hash_length (fh_hash_algo h);
  wf_fh_entry_count : is_u64 (fh_entry_count h);
  wf_fh_buffer_kvs : is_u64 (fh_buffer_kvs_offset h);
  wf_fh_buffer_nvt : is_u64 (fh_buffer_nvt_offset h);
  wf_fh_hot_tail : is_u64 (fh_hot_tail_offset h);
  wf_fh_base_hash : zlen (fh_base_hash h) = hash_length (fh_hash_algo h);
  wf_fh_target_hash : zlen (fh_target_hash h) = hash_length (fh_hash_algo h);
}.

(** The hashes have the algorithm's width: all that writing a header takes. *)
Record header_hashes (h : FileHeader) : Prop := {
  hh_head : zlen (fh_head_hash h) = hash_length (fh_hash_algo h);
  hh_base : zlen (fh_base_hash h) = hash_length (fh_hash_algo h);
  hh_target : zlen (fh_target_hash h) = hash_length (fh_hash_algo h);
}.

Lemma wf_hashes h : FileHeader_wf h -> header_hashes h.
Proof. intros []. by constructor. Qed.

(** The fields in order, up to the padding. *)
Definition header_fields (h : FileHeader) : list bytes :=
  [ FILE_MAGIC; [fh_header_version h]; u16_le (HashAlgorithm_to_u16 (fh_hash_algo h));
    u64_le (fh_sequence h); i64_le (fh_created_at h); i64_le (fh_updated_at h);
    u64_le (fh_kv_block_offset h); u64_le (fh_kv_block_length h); [fh_kv_block_version h];
    u64_le (fh_nvt_offset h); u64_le (fh_nvt_length h); [fh_nvt_version h];
    fh_head_hash h; u64_le (fh_entry_count h); [z2b (if fh_resize_in_progress h then 1 else 0)];
    u64_le (fh_buffer_kvs_offset h); u64_le (fh_buffer_nvt_offset h); u64_le (fh_hot_tail_offset h);
    [fh_kv_block_stage h]; [fh_resize_target_stage h]; [fh_backup_type h];
    fh_base_hash h; fh_target_hash h ].

Definition header_image (crc : bytes) (h : FileHeader) : bytes :=
  concat (header_fields h) ++ zeros 55 ++ crc.

Lemma copy_at_zeros pre n x off :
  zlen pre = off -> zlen x <= n ->
  copy_at (pre ++ zeros n) off x = Ok ((pre ++ x) ++ zeros (n - zlen x)).
Proof.
  intros Hp Hx. pose proof (zlen_nonneg x).
  replace n with (zlen x + (n - zlen x)) at 1 by lia. rewrite zeros_split by lia.
  rewrite copy_at_app; [by rewrite app_assoc|done|by rewrite zlen_zeros].
Qed.

Lemma copy_at_zeros_panic pre n x off :
  zlen pre = off -> 0 <= n < zlen x -> copy_at (pre ++ zeros n) off x = Panic.
Proof.
  intros Hp Hx. unfold copy_at.
  rewrite (proj2 (Z.leb_gt (off + zlen x) _)); [by rewrite andb_false_r|].
  rewrite zlen_app, zlen_zeros by lia. lia.
Qed.

Lemma hash_prefix_full n hash : zlen hash = n -> hash_prefix n hash = hash.
Proof. intros <-. unfold hash_prefix. rewrite Z.min_id, take_ge; [done|]. unfold zlen. lia. Qed.

Lemma copy_at_field pre n x off k m :
  zlen pre = off -> zlen x = k -> n = k + m -> 0 <= m ->
  copy_at (pre ++ zeros n) off x = Ok ((pre ++ x) ++ zeros m).
Proof.
  intros Hp <- -> Hm. rewrite copy_at_zeros by (done || lia). by replace (zlen x + m - zlen x) with m by lia.
Qed.

Lemma zlen_FILE_MAGIC : zlen FILE_MAGIC = 4.
Proof. done. Qed.
#[local] Hint Rewrite zlen_FILE_MAGIC : zlen.

(** Write the next field: [k] bytes, [m] bytes of the buffer left after it. *)
Ltac put_field k m :=
  rewrite (copy_at_field _ _ _ _ k m) by (lia || done || (autorewrite with zlen; lia));
  rewrite ?bind_ret; cbv zeta.

Section HeaderProofs.
Context `{Crc32}.

Lemma FileHeader_serialize_image h :
  header_hashes h -> hash_length (fh_hash_algo h) = 32 ->
  FileHeader_serialize h =
    Ok (header_image (u32_le (crc32 (take 252 (header_image (zeros 4) h)))) h).
Proof.
  intros [] Hl. unfold FileHeader_serialize. rewrite Hl in *. cbv zeta.
  rewrite !hash_prefix_full by done.
  change (zeros FILE_HEADER_SIZE) with ([] ++ zeros 256).
  put_field 4 252. put_field 1 251. put_field 2 249. put_field 8 241. put_field 8 233.
  put_field 8 225. put_field 8 217. put_field 8 209. put_field 1 208. put_field 8 200.
  put_field 8 192. put_field 1 191. put_field 32 159. put_field 8 151. put_field 1 150.
  put_field 8 142. put_field 8 134. put_field 8 126. put_field 1 125. put_field 1 124.
  put_field 1 123. put_field 32 91. put_field 32 59.
  unfold header_image.
  replace (concat (header_fields h)) with
    ((((((((((((((((((((((([] ++ FILE_MAGIC) ++ [fh_header_version h]) ++ u16_le (HashAlgorithm_to_u16 (fh_hash_algo h))) ++
    u64_le (fh_sequence h)) ++ i64_le (fh_created_at h)) ++ i64_le (fh_updated_at h)) ++
    u64_le (fh_kv_block_offset h)) ++ u64_le (fh_kv_block_length h)) ++ [fh_kv_block_version h]) ++
    u64_le (fh_nvt_offset h)) ++ u64_le (fh_nvt_length h)) ++ [fh_nvt_version h]) ++
    fh_head_hash h) ++ u64_le (fh_entry_count h)) ++ [z2b (if fh_resize_in_progress h then 1 else 0)]) ++
    u64_le (fh_buffer_kvs_offset h)) ++ u64_le (fh_buffer_nvt_offset h)) ++ u64_le (fh_hot_tail_offset h)) ++
    [fh_kv_block_stage h]) ++ [fh_resize_target_stage h]) ++ [fh_backup_type h]) ++
    fh_base_hash h) ++ fh_target_hash h).
  2: { unfold header_fields. cbn [concat]. by rewrite <- !app_assoc, app_nil_r. }
  set (body := (_ ++ fh_target_hash h)).
  assert (Hb : zlen body = 197) by (unfold body; zlen_lia).
  change 59 with (55 + 4). rewrite zeros_split by lia. rewrite app_assoc.
  rewrite copy_at_zeros.
  2: { rewrite zlen_app, Hb. done. }
  2: done.
  unfold slice. rewrite drop_0. change (Z.to_nat _) with 252%nat at 1.
  change (zeros (4 - _)) with (@nil byte). by rewrite <- !app_assoc, app_nil_r.
Qed.

(** Read the field that [H] says is next. *)
Ltac get_int H k :=
  rewrite (le_at_at _ _ _ _ k H) by done; rewrite ?bind_ret;
  apply (suffix_at_app _ _ _ _ k) in H; [|done].
Ltac get_byte H :=
  rewrite (suffix_at_index _ _ _ _ H); rewrite ?bind_ret;
  apply (suffix_at_app _ _ _ _ 1) in H; [|done].
Ltac get_hash H :=
  rewrite (suffix_at_slice_chk _ _ _ _ 32 H) by done; rewrite ?bind_ret;
  apply (suffix_at_app _ _ _ _ 32) in H; [|done].

Lemma zlen_header_fields h :
  header_hashes h -> hash_length (fh_hash_algo h) = 32 -> zlen (concat (header_fields h)) = 197.
Proof.
  intros [] Hl. rewrite Hl in *. unfold header_fields. cbn [concat]. zlen_lia.
Qed.

Lemma FileHeader_deserialize_image h crc :
  FileHeader_wf h -> hash_length (fh_hash_algo h) = 32 ->
  crc = u32_le (crc32 (take 252 (header_image (zeros 4) h))) ->
  FileHeader_deserialize (header_image crc h) = Ok h.
Proof.
  intros Hwf Hl Hcrc. pose proof (zlen_header_fields _ (wf_hashes _ Hwf) Hl) as Hz.
  assert (Hc4 : zlen crc = 4) by (by rewrite Hcrc).
  assert (Hpre : slice (header_image crc h) 0 252 = take 252 (header_image (zeros 4) h)).
  { unfold slice, header_image. rewrite drop_0, !app_assoc.
    assert (Hf : (252 <= length (concat (header_fields h) ++ zeros 55))%nat)
      by (rewrite length_app; unfold zlen in Hz; simpl (length (zeros 55)); lia).
    by rewrite !(take_app_le (concat (header_fields h) ++ zeros 55)) by done. }
  assert (Hend : suffix_at (header_image crc h) 252 (crc ++ [])).
  { exists (concat (header_fields h) ++ zeros 55). unfold header_image.
    rewrite app_nil_r, <- app_assoc. split; [done|]. rewrite zlen_app, Hz. done. }
  assert (Htot : zlen (header_image crc h) = 256)
    by (apply suffix_at_bounds in Hend as [_ <-]; zlen_lia).
  pose proof (suffix_at_start (header_image crc h)) as HA.
  unfold header_image in HA at 2. unfold header_fields in HA at 1. cbn [concat] in HA. rewrite <- !app_assoc in HA.
  destruct Hwf. rewrite Hl in *. unfold FileHeader_deserialize. cbv zeta.
  rewrite (suffix_at_slice_chk _ _ _ _ 4 HA), bind_ret by done.
  rewrite bool_decide_eq_true_2 by done. simpl negb. cbv iota.
  apply (suffix_at_app _ _ _ _ 4) in HA; [|done]. get_byte HA.
  rewrite bool_decide_eq_true_2 by done. simpl negb. cbv iota.
  change (FILE_HEADER_SIZE - HEADER_CRC_SIZE) with 252. change HEADER_CRC_SIZE with 4.
  rewrite (le_at_at _ _ _ _ 4 Hend), bind_ret by done.
  rewrite slice_chk_ok, bind_ret, Hpre by lia. rewrite Hcrc at 1.
  rewrite le_val_u32, Z.eqb_refl by apply crc32_u32. simpl negb. cbv iota.
  get_int HA 2. rewrite le_val_u16 by apply HashAlgorithm_u16.
  rewrite HashAlgorithm_to_from. cbn [ok_or]. rewrite bind_ret, Hl.
  do 5 (get_int HA 8). get_byte HA. do 2 (get_int HA 8). get_byte HA. get_hash HA.
  get_int HA 8. get_byte HA. do 3 (get_int HA 8). do 3 (get_byte HA). do 2 (get_hash HA).
  rewrite !le_val_u64, !le_val_i64 by done. f_equal.
  destruct h as [? ? ? ? ? ? ? ? ? ? ? ? ? rip]. by destruct rip.
Qed.

Lemma FileHeader_serialize_total h :
  header_hashes h -> hash_length (fh_hash_algo h) = 32 ->
  exists bs, FileHeader_serialize h = Ok bs /\ zlen bs = FILE_HEADER_SIZE.
Proof.
  intros Hh Hl. rewrite FileHeader_serialize_image by done. eexists. split; [done|].
  unfold header_image. rewrite !zlen_app, zlen_header_fields by done. done.
Qed.

Lemma FileHeader_serialize_ok h :
  FileHeader_wf h -> hash_length (fh_hash_algo h) = 32 ->
  exists bs, FileHeader_serialize h = Ok bs /\ zlen bs = FILE_HEADER_SIZE
    /\ FileHeader_deserialize bs = Ok h.
Proof.
  intros Hwf Hl. destruct (FileHeader_serialize_total h (wf_hashes _ Hwf) Hl) as (bs & E & Hz).
  exists bs. split; [done|]. split; [done|]. rewrite (FileHeader_serialize_image _ (wf_hashes _ Hwf) Hl) in E.
  apply Ok_inj in E as <-. by apply FileHeader_deserialize_image.
Qed.

(** A header of a 32-byte hash algorithm fills exactly one slot and is read back
    from it. *)
Theorem FileHeader_roundtrip h :
  FileHeader_wf h -> hash_length (fh_hash_algo h) = 32 ->
  exists bs, FileHeader_serialize h = Ok bs /\ zlen bs = FILE_HEADER_SIZE
    /\ FileHeader_deserialize bs = Ok h.
Proof. apply FileHeader_serialize_ok. Qed.

(** The 64-byte algorithms do not fit the slot: with [Sha512] or [Sha3_512] the
    fields need 293 bytes and writing the target hash is out of range. *)
Theorem FileHeader_serialize_64_panics h :
  FileHeader_wf h -> hash_length (fh_hash_algo h) = 64 -> FileHeader_serialize h = Panic.
Proof.
  intros [] Hl. unfold FileHeader_serialize. rewrite Hl in *. cbv zeta.
  rewrite !hash_prefix_full by done.
  change (zeros FILE_HEADER_SIZE) with ([] ++ zeros 256).
  put_field 4 252. put_field 1 251. put_field 2 249. put_field 8 241. put_field 8 233.
  put_field 8 225. put_field 8 217. put_field 8 209. put_field 1 208. put_field 8 200.
  put_field 8 192. put_field 1 191. put_field 64 127. put_field 8 119. put_field 1 118.
  put_field 8 110. put_field 8 102. put_field 8 94. put_field 1 93. put_field 1 92.
  put_field 1 91. put_field 64 27.
  rewrite copy_at_zeros_panic; [done| |lia]. autorewrite with zlen. lia.
Qed.

(** A slot of any content is decoded without panicking, unless its algorithm tag
    is one of a 64-byte hash. *)
Lemma FileHeader_deserialize_safe bs :
  zlen bs = FILE_HEADER_SIZE ->
  (forall a, HashAlgorithm_from_u16 (le_val (slice bs 5 7)) = Some a -> hash_length a = 32) ->
  FileHeader_deserialize bs <> Panic.
Proof.
  unfold FILE_HEADER_SIZE. intros Hlen Halgo. unfold FileHeader_deserialize. cbv zeta.
  change (FILE_HEADER_SIZE - HEADER_CRC_SIZE) with 252. change HEADER_CRC_SIZE with 4.
  rewrite (slice_chk_ok bs 0 (0 + 4)), bind_ret by lia. case_match; [done|].
  destruct (index_ok bs (0 + 4)) as [v ->]; [lia|]. rewrite bind_ret. case_match; [done|].
  rewrite (le_at_ok bs 252 4), (slice_chk_ok bs 0 252), !bind_ret by lia. case_match; [done|].
  rewrite (le_at_ok bs (0 + 4 + 1) 2), bind_ret by lia. change (slice bs (0 + 4 + 1) (0 + 4 + 1 + 2)) with (slice bs 5 7).
  destruct (HashAlgorithm_from_u16 _) as [a|] eqn:Ea; [|done]. cbn [ok_or]. rewrite bind_ret.
  rewrite (Halgo a) by done.
  repeat first [rewrite le_at_ok by lia | rewrite slice_chk_ok by lia | rewrite bind_ret
    | match goal with |- context [index bs ?i] =>
        let E := fresh in destruct (index_ok bs i) as [? E]; [lia|]; rewrite E; clear E end].
  done.
Qed.

(** ** The two slots *)

Lemma read_active_header_slot file h s :
  read_active_header file = Ok (h, s) -> (s = 0 \/ s = 1) /\ HEADER_REGION_SIZE <= zlen file.
Proof.
  intros [a [E1 E2]]%bind_Ok. apply bind_Ok in E2 as [b [E2 E3]].
  unfold file_read in E2. apply if_Err_Ok in E2 as [Hs%Z.ltb_ge _].
  split; [|done]. repeat case_match; naive_solver.
Qed.

(** Overwriting the slot that is not active: which header is read then depends
    only on what that slot now decodes to. *)
Lemma read_active_header_overwrite file old slot x :
  read_active_header file = Ok (old, slot) -> zlen x = FILE_HEADER_SIZE ->
  read_active_header (file_write file (inactive_slot_offset slot) x) =
    match FileHeader_deserialize x with
    | Ok h => if (if slot =? 0 then fh_sequence h <=? fh_sequence old else fh_sequence h <? fh_sequence old)
              then Ok (old, slot) else Ok (h, 1 - slot)
    | Err _ => Ok (old, slot)
    | Panic => Panic
    end.
Proof.
  intros Hr Hx. pose proof (read_active_header_slot _ _ _ Hr) as [Hs Hf].
  unfold HEADER_REGION_SIZE in Hf.
  unfold read_active_header in *. apply bind_Ok in Hr as [a [Ea Hr]].
  apply bind_Ok in Hr as [b [Eb Hr]]. unfold FILE_HEADER_SIZE in *.
  destruct Hs as [-> | ->].
  - change (inactive_slot_offset 0) with 256.
    rewrite (file_read_write_before _ _ _ 0 256), Ea, bind_ret by lia.
    rewrite file_read_write, bind_ret by done. change (0 =? 0) with true. cbv iota.
    destruct (FileHeader_deserialize a) as [ha| |]; destruct (FileHeader_deserialize b) as [hb| |];
      simplify_eq; repeat case_match; simplify_eq; first [done|lia].
  - change (inactive_slot_offset 1) with 0.
    rewrite (file_read_write_after _ _ _ 256 256), Eb by lia.
    rewrite file_read_write, !bind_ret by done. change (1 =? 0) with false. cbv iota.
    destruct (FileHeader_deserialize a) as [ha| |]; destruct (FileHeader_deserialize b) as [hb| |];
      simplify_eq; repeat case_match; simplify_eq; first [done|lia].
Qed.

Lemma with_sequence_wf h n : FileHeader_wf h -> is_u64 n -> FileHeader_wf (with_sequence h n).
Proof. intros [] Hn. by constructor. Qed.

Lemma write_header_ok file old slot new :
  read_active_header file = Ok (old, slot) ->
  FileHeader_wf new -> hash_length (fh_hash_algo new) = 32 ->
  fh_sequence new = fh_sequence old -> fh_sequence old < u64_max ->
  exists bs, zlen bs = FILE_HEADER_SIZE
    /\ FileHeader_deserialize bs = Ok (with_sequence new (fh_sequence old + 1))
    /\ write_header_to_inactive_slot file new slot =
        Ok (with_sequence new (fh_sequence old + 1), file_write file (inactive_slot_offset slot) bs).
Proof.
  intros Hr Hwf Hl Hseq Hmax. pose proof (wf_fh_sequence _ Hwf) as Hu. unfold is_u64 in Hu.
  unfold write_header_to_inactive_slot. unfold wrap64 at 1 2. rewrite Hseq, Z.mod_small by lia.
  destruct (FileHeader_serialize_ok (with_sequence new (fh_sequence old + 1))) as (bs & -> & Hz & Hd).
  { apply with_sequence_wf; [done|]. unfold is_u64. lia. }
  { done. }
  eexists. split_and!; [done..|]. by rewrite bind_ret.
Qed.

(** C26. Updating the header is atomic.  When the write of the other slot completes,
    the next open finds the new header there, with the next sequence number; when
    it tears and leaves a slot that does not decode, the next open finds the old
    header where it was. *)
Theorem header_update_atomic file old slot new torn e :
  read_active_header file = Ok (old, slot) ->
  FileHeader_wf new -> hash_length (fh_hash_algo new) = 32 ->
  fh_sequence new = fh_sequence old -> fh_sequence old < u64_max ->
  zlen torn = FILE_HEADER_SIZE -> FileHeader_deserialize torn = Err e ->
  (exists file', write_header_to_inactive_slot file new slot
      = Ok (with_sequence new (fh_sequence old + 1), file')
    /\ read_active_header file' = Ok (with_sequence new (fh_sequence old + 1), 1 - slot))
  /\ read_active_header (file_write file (inactive_slot_offset slot) torn) = Ok (old, slot).
Proof.
  intros Hr Hwf Hl Hseq Hmax Ht He. split.
  - destruct (write_header_ok file old slot new) as (bs & Hz & Hd & ->); [done..|].
    eexists. split; [done|]. rewrite (read_active_header_overwrite _ _ _ _ Hr Hz), Hd.
    cbn [with_sequence fh_sequence]. rewrite (proj2 (Z.leb_gt _ _)), (proj2 (Z.ltb_ge _ _)) by lia.
    by destruct (slot =? 0).
  - by rewrite (read_active_header_overwrite _ _ _ _ Hr Ht), He.
Qed.

Lemma write_initial_header_ok file h :
  FileHeader_wf h -> hash_length (fh_hash_algo h) = 32 ->
  exists file', write_initial_header file h = Ok (with_sequence h 1, file')
    /\ read_active_header file' = Ok (with_sequence h 1, 0)
    /\ HEADER_REGION_SIZE <= zlen file'.
Proof.
  intros Hwf Hl. unfold write_initial_header.
  destruct (FileHeader_serialize_ok (with_sequence h 1)) as (bs & -> & Hz & Hd); [by apply with_sequence_wf|done|].
  rewrite bind_ret. eexists. split; [done|]. unfold FILE_HEADER_SIZE in *.
  set (f1 := file_write file 256 (zeros 256)).
  assert (Hf1 : 512 <= zlen f1)
    by (unfold f1; rewrite zlen_file_write, zlen_zeros by lia; lia).
  split; [|rewrite zlen_file_write by lia; unfold HEADER_REGION_SIZE, FILE_HEADER_SIZE; lia].
  unfold read_active_header, FILE_HEADER_SIZE.
  rewrite (file_read_write _ 0), bind_ret by done. rewrite file_read_write_after by lia.
  unfold f1. rewrite file_read_write, bind_ret, Hd by done.
  done.
Qed.

(** A new database: whatever the file held, the initial header is in slot 0 with
    sequence 1, and slot 1 is not a header. *)
Theorem write_initial_header_active file h :
  FileHeader_wf h -> hash_length (fh_hash_algo h) = 32 ->
  exists file', write_initial_header file h = Ok (with_sequence h 1, file')
    /\ read_active_header file' = Ok (with_sequence h 1, 0)
    /\ HEADER_REGION_SIZE <= zlen file'.
Proof. apply write_initial_header_ok. Qed.
End HeaderProofs.

(** ** Witnesses *)

Definition sample_file_header : FileHeader := FileHeader_new 1700000000000 Blake3_256.

Lemma sample_file_header_wf : FileHeader_wf sample_file_header.
Proof. constructor; concrete. Qed.

Lemma FileHeader_roundtrip_witness :
  exists bs, @FileHeader_serialize crc32_ieee sample_file_header = Ok bs /\ zlen bs = FILE_HEADER_SIZE
    /\ @FileHeader_deserialize crc32_ieee bs = Ok sample_file_header.
Proof. exact (@FileHeader_roundtrip crc32_ieee sample_file_header sample_file_header_wf eq_refl). Defined.

Lemma FileHeader_serialize_64_panics_witness :
  @FileHeader_serialize crc32_ieee (FileHeader_new 1700000000000 Sha512) = Panic.
Proof.
  apply (@FileHeader_serialize_64_panics crc32_ieee); [|reflexivity].
  constructor; concrete.
Defined.

(** A new database's file, and an update with a different entry count. *)
Definition sample_db : bytes :=
  match @write_initial_header crc32_ieee [] sample_file_header with Ok (_, file) => file | _ => [] end.

Definition sample_active : FileHeader := with_sequence sample_file_header 1.

Lemma sample_active_wf : FileHeader_wf sample_active.
Proof. constructor; concrete. Qed.

Lemma header_update_atomic_witness :
  @read_active_header crc32_ieee sample_db = Ok (sample_active, 0)
  /\ (exists file', @write_header_to_inactive_slot crc32_ieee sample_db sample_active 0
      = Ok (with_sequence sample_active (fh_sequence sample_active + 1), file')
    /\ @read_active_header crc32_ieee file'
      = Ok (with_sequence sample_active (fh_sequence sample_active + 1), 1 - 0))
  /\ @read_active_header crc32_ieee (file_write sample_db (inactive_slot_offset 0) (zeros 256))
      = Ok (sample_active, 0).
Proof.
  assert (Ha : @read_active_header crc32_ieee sample_db = Ok (sample_active, 0)) by (vm_compute; reflexivity).
  split; [exact Ha|].
  apply (@header_update_atomic crc32_ieee sample_db sample_active 0 sample_active (zeros 256) InvalidMagic Ha).
  - exact sample_active_wf.
  - reflexivity.
  - reflexivity.
  - vm_compute. reflexivity.
  - reflexivity.
  - vm_compute. reflexivity.
Defined.

Lemma write_initial_header_active_witness :
  exists file', @write_initial_header crc32_ieee (lit "old") sample_file_header
      = Ok (with_sequence sample_file_header 1, file')
    /\ @read_active_header crc32_ieee file' = Ok (with_sequence sample_file_header 1, 0)
    /\ HEADER_REGION_SIZE <= zlen file'.
Proof.
  exact (@write_initial_header_active crc32_ieee (lit "old") sample_file_header sample_file_header_wf eq_refl).
Defined.
