(* ===== verification/VoidManager.v ===== *)
(** Free-space tracking (src/aeordb-lib/src/engine/void_manager.rs): the spans of
    the data file that can be reused, indexed by offset and by size. *)
From S2P Require Import Prelude Codec EntryFormat.

Local Open Scope Z_scope.

Definition MINIMUM_VOID_SIZE : Z := 1.

(** The [BTreeMap]s are finite maps; what the source reads off their order is
    asked for by [least]. *)
Record VoidManager := {
  by_offset : gmap Z Z;
  by_size : gmap Z (gset Z);
  vm_hash_algo : HashAlgorithm;
}.

(** The first of a sorted iteration: the least element. *)
Definition least (l : list Z) : option Z :=
  match l with
  | [] => None
  | x :: l => Some (foldr Z.min x l)
  end.

Definition VoidManager_new (hash_algo : HashAlgorithm) : VoidManager :=
  {| by_offset := ∅; by_size := ∅; vm_hash_algo := hash_algo |}.

(** [if let Some(set) = by_size.get_mut(&size) { set.remove(&offset); if
    set.is_empty() { by_size.remove(&size) } }], as three methods have it. *)
Definition remove_from_size (m : gmap Z (gset Z)) (sz offset : Z) : gmap Z (gset Z) :=
  match m !! sz with
  | Some set =>
    let set := set ∖ {[ offset ]} in
    if decide (set = ∅) then delete sz m else <[sz := set]> m
  | None => m
  end.

Definition register_void (vm : VoidManager) (offset sz : Z) : VoidManager :=
  if sz <? MINIMUM_VOID_SIZE then vm else
  let insert_both sizes :=
    {| by_offset := <[offset := sz]> (by_offset vm);
       by_size := <[sz := default ∅ (sizes !! sz) ∪ {[ offset ]}]> sizes;
       vm_hash_algo := vm_hash_algo vm |} in
  match by_offset vm !! offset with
  | Some existing_size =>
    if existing_size =? sz then vm
    else insert_both (remove_from_size (by_size vm) existing_size offset)
  | None => insert_both (by_size vm)
  end.

(** The [expect] on a computation that could overflow. *)
Definition minimum_useful_void_size (vm : VoidManager) : res Z :=
  match compute_total_length (vm_hash_algo vm) 0 0 with
  | Ok n => Ok n
  | _ => Panic
  end.

(** [by_size.range(needed_size..).find(|(_, offsets)| !offsets.is_empty())]. *)
Definition first_fit (m : gmap Z (gset Z)) (needed_size : Z) : option Z :=
  least ((map_to_list (filter (fun kv => needed_size <= kv.1 /\ kv.2 ≠ ∅) m)).*1).

Definition find_void (vm : VoidManager) (needed_size : Z) : res (option (Z * Z) * VoidManager) :=
  match first_fit (by_size vm) needed_size with
  | None => Ok (None, vm)
  | Some matching_size =>
    match by_size vm !! matching_size with
    | None => Ok (None, vm)
    | Some set =>
      match least (elements set) with
      | None => Ok (None, vm)
      | Some offset =>
        let vm := {| by_offset := delete offset (by_offset vm);
                     by_size := remove_from_size (by_size vm) matching_size offset;
                     vm_hash_algo := vm_hash_algo vm |} in
        let remainder := matching_size - needed_size in
        min_useful ← minimum_useful_void_size vm;
        let vm :=
          if min_useful <=? remainder
          then register_void vm (wrap64 (offset + needed_size)) remainder
          else vm in
        Ok (Some (offset, matching_size), vm)
      end
    end
  end.

Definition remove_void (vm : VoidManager) (offset : Z) : option Z * VoidManager :=
  match by_offset vm !! offset with
  | None => (None, vm)
  | Some sz =>
    (Some sz, {| by_offset := delete offset (by_offset vm);
                 by_size := remove_from_size (by_size vm) sz offset;
                 vm_hash_algo := vm_hash_algo vm |})
  end.

Definition total_void_space (vm : VoidManager) : Z :=
  map_fold (fun _ sz acc => sz + acc) 0 (by_offset vm).

Definition void_count (vm : VoidManager) : Z := Z.of_nat (size (by_offset vm)).

Definition offset_le (p q : Z * Z) : Prop := p.1 <= q.1.

#[export] Instance offset_le_dec : RelDecision offset_le.
Proof. intros p q. unfold offset_le. apply _. Defined.

(** Pairs in offset order. *)
Definition VoidManager_iter (vm : VoidManager) : list (Z * Z) :=
  merge_sort offset_le (map_to_list (by_offset vm)).

Definition replace_all (vm : VoidManager) (voids : list (Z * Z)) : VoidManager :=
  foldl (fun vm v => register_void vm v.1 v.2)
    {| by_offset := ∅; by_size := ∅; vm_hash_algo := vm_hash_algo vm |} voids.

(** ** The two indexes agree *)

(** The offsets the size index lists under a size. *)
Definition offsets_of (m : gmap Z (gset Z)) (s : Z) : gset Z := default ∅ (m !! s).

Record vm_ok (vm : VoidManager) : Prop := {
  ok_agree : forall o s, by_offset vm !! o = Some s <-> o ∈ offsets_of (by_size vm) s;
  ok_nonempty : forall s set, by_size vm !! s = Some set -> set ≠ ∅;
  ok_min : forall o s, by_offset vm !! o = Some s -> MINIMUM_VOID_SIZE <= s;
}.

Lemma offsets_of_remove m s o s' :
  offsets_of (remove_from_size m s o) s' = if decide (s' = s) then offsets_of m s ∖ {[o]} else offsets_of m s'.
Proof.
  unfold remove_from_size, offsets_of. destruct (m !! s) as [set|] eqn:E; cbv zeta.
  - destruct (decide (set ∖ {[o]} = ∅)) as [He|He]; destruct (decide (s' = s)) as [->|Hne].
    + rewrite lookup_delete_eq. simpl. set_solver.
    + by rewrite lookup_delete_ne by done.
    + by rewrite lookup_insert_eq.
    + by rewrite lookup_insert_ne by done.
  - destruct (decide (s' = s)) as [->|]; [|done]. rewrite E. simpl. set_solver.
Qed.

Lemma remove_nonempty m s o :
  (forall s' set, m !! s' = Some set -> set ≠ ∅) ->
  forall s' set, remove_from_size m s o !! s' = Some set -> set ≠ ∅.
Proof.
  intros Hne s' set. unfold remove_from_size. destruct (m !! s) eqn:E; [|apply Hne]. cbv zeta.
  case_decide; [rewrite lookup_delete_Some|rewrite lookup_insert_Some]; naive_solver.
Qed.

Lemma offsets_of_insert m s o s' :
  offsets_of (<[s := default ∅ (m !! s) ∪ {[o]}]> m) s' =
    if decide (s' = s) then offsets_of m s ∪ {[o]} else offsets_of m s'.
Proof.
  unfold offsets_of. case_decide as Hd.
  - subst. by rewrite lookup_insert_eq.
  - by rewrite lookup_insert_ne by done.
Qed.

Lemma vm_ok_new a : vm_ok (VoidManager_new a).
Proof.
  split; simpl; intros *; rewrite ?lookup_empty; [|done..].
  unfold offsets_of. rewrite lookup_empty. set_solver.
Qed.

(** Taking an offset out of both indexes. *)
Lemma vm_ok_take vm o s :
  vm_ok vm -> by_offset vm !! o = Some s ->
  vm_ok {| by_offset := delete o (by_offset vm);
           by_size := remove_from_size (by_size vm) s o;
           vm_hash_algo := vm_hash_algo vm |}.
Proof.
  intros [Ha Hn Hm] Ho. split; simpl.
  - intros o' s'. rewrite offsets_of_remove. destruct (decide (o' = o)) as [->|Hne].
    + rewrite lookup_delete_eq. split; [done|]. case_decide; [set_solver|].
      intros Hin%Ha. congruence.
    + rewrite lookup_delete_ne, Ha by done. case_decide; set_solver.
  - by apply remove_nonempty.
  - intros o' s' [_ ?]%lookup_delete_Some. eauto.
Qed.

(** Putting in an offset that neither index lists. *)
Lemma vm_ok_put vm o s :
  vm_ok vm -> by_offset vm !! o = None -> MINIMUM_VOID_SIZE <= s ->
  vm_ok {| by_offset := <[o := s]> (by_offset vm);
           by_size := <[s := default ∅ (by_size vm !! s) ∪ {[ o ]}]> (by_size vm);
           vm_hash_algo := vm_hash_algo vm |}.
Proof.
  intros [Ha Hn Hm] Ho Hs. split; simpl.
  - intros o' s'. rewrite offsets_of_insert. destruct (decide (o' = o)) as [->|Hne].
    + rewrite lookup_insert_eq. case_decide; [set_solver|]. rewrite <- Ha, Ho. split; congruence.
    + rewrite lookup_insert_ne, Ha by done. case_decide; set_solver.
  - intros s' set [[<- <-]|[_ ?]]%lookup_insert_Some; [set_solver|eauto].
  - intros o' s' [[<- <-]|[_ ?]]%lookup_insert_Some; eauto.
Qed.

Lemma register_void_offsets vm o s :
  by_offset (register_void vm o s) =
    if s <? MINIMUM_VOID_SIZE then by_offset vm else <[o := s]> (by_offset vm).
Proof.
  unfold register_void. case_match; [done|]. destruct (by_offset vm !! o) as [s0|] eqn:E; [|done].
  destruct (Z.eqb_spec s0 s) as [->|]; [|done]. by rewrite insert_id.
Qed.

Lemma register_void_ok vm o s : vm_ok vm -> vm_ok (register_void vm o s).
Proof.
  intros Hok. unfold register_void. destruct (Z.ltb_spec s MINIMUM_VOID_SIZE); [done|].
  destruct (by_offset vm !! o) as [s0|] eqn:E; [|by apply vm_ok_put].
  destruct (Z.eqb_spec s0 s) as [->|]; [done|].
  pose proof (vm_ok_put _ o s (vm_ok_take vm o s0 Hok E)) as Hput. simpl in Hput.
  rewrite insert_delete_eq in Hput. apply Hput; [apply lookup_delete_eq|done].
Qed.

(** ** Best fit *)

Lemma least_spec l x : least l = Some x <-> x ∈ l /\ Forall (fun y => x <= y) l.
Proof.
  destruct l as [|a l]; simpl; [split; [done|intros [?%not_elem_of_nil _]; done]|].
  assert (Hmin : foldr Z.min a l ∈ a :: l /\ Forall (fun y => foldr Z.min a l <= y) (a :: l)).
  { induction l as [|b l [IH1 IH2]]; simpl; [split; [set_solver|repeat constructor; lia]|].
    apply Forall_cons in IH2 as [Ha Hl]. split.
    - destruct (Z.min_spec b (foldr Z.min a l)) as [[_ ->]|[_ ->]]; set_solver.
    - repeat constructor; [lia..|]. eapply Forall_impl; [done|]. simpl. lia. }
  split.
  - by intros [= <-].
  - intros [Hx Hall]. destruct Hmin as [Hm Hle]. f_equal.
    rewrite Forall_forall in Hall, Hle. apply Hall in Hm. apply Hle in Hx. lia.
Qed.

Lemma least_None l : least l = None <-> l = [].
Proof. by destruct l. Qed.

Lemma first_fit_elem (m : gmap Z (gset Z)) n s : (forall s set, m !! s = Some set -> set ≠ ∅) ->
  s ∈ (map_to_list (filter (fun kv => n <= kv.1 /\ kv.2 ≠ ∅) m)).*1 <-> n <= s /\ is_Some (m !! s).
Proof.
  intros Hn. rewrite list_elem_of_fmap. split.
  - intros ([s' set] & -> & [Hl [Hs _]]%elem_of_map_to_list%map_lookup_filter_Some). by split.
  - intros [Hs [set Hl]]. exists (s, set). split; [done|].
    apply elem_of_map_to_list, map_lookup_filter_Some. naive_solver.
Qed.

Lemma offsets_of_Some vm s : vm_ok vm ->
  is_Some (by_size vm !! s) <-> exists o, by_offset vm !! o = Some s.
Proof.
  intros [Ha Hn _]. setoid_rewrite Ha. unfold offsets_of. split.
  - intros [set E]. rewrite E. simpl. by apply set_choose_L, (Hn s).
  - intros [o Ho]. destruct (by_size vm !! s); [eauto|set_solver].
Qed.

Lemma minimum_useful_ok vm :
  minimum_useful_void_size vm = Ok (FIXED_HEADER_SIZE + hash_length (vm_hash_algo vm)).
Proof. unfold minimum_useful_void_size. by destruct (vm_hash_algo vm). Qed.

(** What the size index picks: the smallest size that fits, and the lowest
    offset of that size. *)
Definition best_fit (vm : VoidManager) (n o s : Z) : Prop :=
  by_offset vm !! o = Some s /\ n <= s
  /\ forall o' s', by_offset vm !! o' = Some s' -> n <= s' -> s < s' \/ (s' = s /\ o <= o').

(** The free-space index after a span is handed out. *)
Definition after_alloc (vm : VoidManager) (n o s : Z) : gmap Z Z :=
  let m := delete o (by_offset vm) in
  if FIXED_HEADER_SIZE + hash_length (vm_hash_algo vm) <=? s - n
  then <[wrap64 (o + n) := s - n]> m else m.

Lemma find_void_spec vm n :
  vm_ok vm ->
  exists r vm', find_void vm n = Ok (r, vm') /\ vm_ok vm' /\
    match r with
    | None => vm' = vm /\ forall o s, by_offset vm !! o = Some s -> s < n
    | Some (o, s) => best_fit vm n o s /\ by_offset vm' = after_alloc vm n o s
    end.
Proof.
  intros Hok. pose proof Hok as [Ha Hn Hm]. unfold find_void, first_fit.
  destruct (least _) as [s|] eqn:Es.
  2: { eexists _, _. split; [done|]. split; [done|]. split; [done|]. intros o s Ho.
       apply least_None in Es. destruct (decide (n <= s)) as [Hle|]; [|lia]. exfalso.
       assert (Hin : s ∈ (map_to_list (filter (fun kv => n <= kv.1 /\ kv.2 ≠ ∅) (by_size vm))).*1)
         by (apply first_fit_elem; [done|]; split; [done|]; apply offsets_of_Some; eauto).
       rewrite Es in Hin. by apply not_elem_of_nil in Hin. }
  apply least_spec in Es as [Hs Hleast]. apply first_fit_elem in Hs as [Hns [set Eset]]; [|done].
  rewrite Eset. destruct (least (elements set)) as [o|] eqn:Eo.
  2: { apply least_None in Eo. exfalso. apply (Hn s set Eset).
       by apply leibniz_equiv, elements_empty_iff. }
  apply least_spec in Eo as [Ho Hlo]. apply elem_of_elements in Ho.
  assert (Hos : by_offset vm !! o = Some s) by (apply Ha; unfold offsets_of; by rewrite Eset).
  rewrite minimum_useful_ok, bind_ret. cbn [vm_hash_algo].
  eexists _, _. split; [done|]. split.
  { case_match; [apply register_void_ok|]; by apply vm_ok_take. }
  split.
  - split; [done|]. split; [done|]. intros o' s' Ho' Hns'.
    rewrite Forall_forall in Hleast. assert (s <= s').
    { apply Hleast, first_fit_elem; [done|]. split; [done|]. apply offsets_of_Some; eauto. }
    destruct (decide (s' = s)) as [->|]; [right|lia]. split; [done|].
    rewrite Forall_forall in Hlo. apply Hlo, elem_of_elements.
    apply Ha in Ho'. unfold offsets_of in Ho'. by rewrite Eset in Ho'.
  - unfold after_alloc. destruct (Z.leb_spec (FIXED_HEADER_SIZE + hash_length (vm_hash_algo vm)) (s - n)) as [Hr|]; [|done].
    rewrite register_void_offsets. cbn [by_offset].
    rewrite (proj2 (Z.ltb_ge _ _)); [done|]. pose proof (hash_length_pos (vm_hash_algo vm)).
    unfold MINIMUM_VOID_SIZE, FIXED_HEADER_SIZE in *. lia.
Qed.

(** [find_void] is best fit: it fails exactly when no tracked span is large
    enough; otherwise it takes the smallest that is, the lowest among equals, and
    puts back what is left when an entry still fits there.  Both indexes agree
    afterwards, and the [expect] inside never fires. *)
Theorem find_void_best_fit vm n :
  vm_ok vm ->
  exists r vm', find_void vm n = Ok (r, vm') /\ vm_ok vm' /\
    match r with
    | None => vm' = vm /\ forall o s, by_offset vm !! o = Some s -> s < n
    | Some (o, s) => best_fit vm n o s /\ by_offset vm' = after_alloc vm n o s
    end.
Proof. apply find_void_spec. Qed.

(** Registering, removing and replacing keep the two indexes in agreement, and
    act on the offset index as a map update. *)
Theorem void_index_updates vm o s l :
  vm_ok vm ->
  (vm_ok (register_void vm o s) /\
   by_offset (register_void vm o s)
     = if s <? MINIMUM_VOID_SIZE then by_offset vm else <[o := s]> (by_offset vm))
  /\ (vm_ok (remove_void vm o).2 /\ (remove_void vm o).1 = by_offset vm !! o
      /\ by_offset (remove_void vm o).2 = delete o (by_offset vm))
  /\ (vm_ok (replace_all vm l) /\ by_offset (replace_all vm l)
       = list_to_map (reverse (filter (fun v => MINIMUM_VOID_SIZE <= v.2) l))).
Proof.
  intros Hok. split_and!.
  - by apply register_void_ok.
  - apply register_void_offsets.
  - unfold remove_void. destruct (by_offset vm !! o) eqn:E; [by apply vm_ok_take|done].
  - unfold remove_void. by destruct (by_offset vm !! o).
  - unfold remove_void. destruct (by_offset vm !! o) eqn:E; [done|]. by rewrite delete_id.
  - unfold replace_all. change (vm_ok (foldl (fun vm v => register_void vm v.1 v.2) (VoidManager_new (vm_hash_algo vm)) l)).
    generalize (vm_ok_new (vm_hash_algo vm)). generalize (VoidManager_new (vm_hash_algo vm)).
    induction l as [|v l IH]; intros vm0 H0; [done|]. by apply IH, register_void_ok.
  - unfold replace_all. induction l as [|v l IH] using rev_ind; [done|].
    rewrite foldl_app. cbn [foldl]. rewrite register_void_offsets, IH, filter_app.
    destruct (Z.ltb_spec v.2 MINIMUM_VOID_SIZE).
    + rewrite (filter_cons_False _ v) by lia. by rewrite app_nil_r.
    + rewrite (filter_cons_True _ v) by lia. rewrite filter_nil, reverse_app. by destruct v.
Qed.

(** ** Allocation is safe *)

(** Byte [b] of the file is free. *)
Definition free (m : gmap Z Z) (b : Z) : Prop := exists o s, m !! o = Some s /\ o <= b < o + s.

(** Free spans lie in the file and do not overlap. *)
Record spans_ok (m : gmap Z Z) : Prop := {
  spans_range : forall o s, m !! o = Some s -> 0 <= o /\ 0 < s /\ o + s < 2^64;
  spans_disjoint : forall o s o' s', m !! o = Some s -> m !! o' = Some s' -> o < o' -> o + s <= o';
}.

Lemma after_alloc_lookup vm n o s o' s' :
  spans_ok (by_offset vm) -> 0 <= n -> best_fit vm n o s ->
  after_alloc vm n o s !! o' = Some s' ->
  (o' = o + n /\ s' = s - n /\ 0 < s') \/ (o' <> o /\ by_offset vm !! o' = Some s').
Proof.
  intros [Hr Hd] Hn (Ho & Hns & _). unfold after_alloc. cbv zeta.
  destruct (Hr o s Ho) as (? & ? & ?). pose proof (hash_length_pos (vm_hash_algo vm)).
  unfold wrap64, FIXED_HEADER_SIZE. rewrite Z.mod_small by lia.
  destruct (Z.leb_spec (31 + hash_length (vm_hash_algo vm)) (s - n)).
  - intros [[<- <-]|[Hne [? Hl]%lookup_delete_Some]]%lookup_insert_Some; [left; lia|by right].
  - intros [? Hl]%lookup_delete_Some. by right.
Qed.

(** What the span handed out takes away from the free space. *)
Lemma find_void_alloc vm n o s vm' :
  vm_ok vm -> spans_ok (by_offset vm) -> 0 <= n ->
  find_void vm n = Ok (Some (o, s), vm') ->
  spans_ok (by_offset vm')
  /\ (forall b, o <= b < o + n -> free (by_offset vm) b /\ ~ free (by_offset vm') b)
  /\ (forall b, free (by_offset vm') b -> free (by_offset vm) b).
Proof.
  intros Hok Hsp Hn Hf. destruct (find_void_spec vm n Hok) as (r & vm0 & E & _ & Hr).
  rewrite E in Hf. injection Hf as -> ->. destruct Hr as [Hbf ->].
  pose proof Hbf as (Ho & Hns & _). pose proof Hsp as [Hrange Hdis].
  destruct (Hrange o s Ho) as (? & ? & ?).
  split; [|split].
  - split.
    + intros o' s' [(-> & -> & ?)|[_ ?%Hrange]]%after_alloc_lookup; [lia|done..].
    + intros o1 s1 o2 s2 L1%after_alloc_lookup L2%after_alloc_lookup Hlt; [|done..].
      destruct L1 as [(-> & -> & ?)|[Hn1 L1]], L2 as [(-> & -> & ?)|[Hn2 L2]]; [lia| | |by apply (Hdis o1 s1 o2 s2)].
      * destruct (decide (o < o2)); [pose proof (Hdis o s o2 s2 Ho L2); lia|lia].
      * destruct (decide (o1 < o)); [pose proof (Hdis o1 s1 o s L1 Ho); lia|].
        pose proof (Hdis o s o1 s1 Ho L1). destruct (Hrange o1 s1 L1). lia.
  - intros b Hb. split; [exists o, s; split; [done|lia]|].
    intros (o' & s' & [(-> & -> & ?)|[Hne Hl]]%after_alloc_lookup & Hb'); [lia| |done..].
    destruct (decide (o' < o)); [pose proof (Hdis o' s' o s Hl Ho)|pose proof (Hdis o s o' s' Ho Hl)]; lia.
  - intros b (o' & s' & [(-> & -> & ?)|[Hne Hl]]%after_alloc_lookup & Hb'); [|by exists o', s'|done..].
    exists o, s. split; [done|lia].
Qed.

Lemma total_insert (m : gmap Z Z) o s : m !! o = None ->
  map_fold (fun _ sz acc => sz + acc) 0 (<[o := s]> m) = s + map_fold (fun _ sz acc => sz + acc) 0 m.
Proof. intros Ho. apply (map_fold_insert_L (fun _ sz acc => sz + acc)); [intros; lia|done]. Qed.

Lemma total_delete (m : gmap Z Z) o s : m !! o = Some s ->
  map_fold (fun _ sz acc => sz + acc) 0 m = s + map_fold (fun _ sz acc => sz + acc) 0 (delete o m).
Proof. intros Ho. apply (map_fold_delete_L (fun _ sz acc => sz + acc)); [intros; lia|done]. Qed.

Lemma total_nonneg vm : vm_ok vm -> 0 <= total_void_space vm.
Proof.
  intros [_ _ Hm]. unfold total_void_space. revert Hm. generalize (by_offset vm). intros m.
  induction m as [|o s m Hn IH] using map_ind; intros Hm; [done|].
  rewrite total_insert by done. pose proof (Hm o s (lookup_insert_eq _ _ _)). unfold MINIMUM_VOID_SIZE in *.
  assert (0 <= map_fold (fun _ sz acc => sz + acc) 0 m); [|lia].
  apply IH. intros o' s' Ho'. apply (Hm o' s'). rewrite lookup_insert_ne by congruence. done.
Qed.

(** Every allocation takes what it hands out from the total. *)
Lemma find_void_total vm n o s vm' :
  vm_ok vm -> spans_ok (by_offset vm) -> 0 <= n -> find_void vm n = Ok (Some (o, s), vm') ->
  n <= s /\ total_void_space vm' <= total_void_space vm - n.
Proof.
  intros Hok Hsp Hn Hf. destruct (find_void_spec vm n Hok) as (r & vm0 & E & _ & Hr).
  rewrite E in Hf. injection Hf as -> ->. destruct Hr as [Hbf Heq].
  pose proof Hbf as (Ho & Hns & _). destruct Hsp as [Hrange Hdis]. destruct (Hrange o s Ho) as (? & ? & ?).
  split; [done|]. unfold total_void_space. rewrite Heq, (total_delete _ _ _ Ho). unfold after_alloc. cbv zeta.
  case_match; [|lia]. rewrite total_insert; [lia|]. unfold wrap64. rewrite Z.mod_small by lia.
  destruct (delete o (by_offset vm) !! (o + n)) as [s'|] eqn:El; [|done].
  apply lookup_delete_Some in El as [Hne El]. pose proof (Hdis o s (o + n) s' Ho El).
  pose proof (hash_length_pos (vm_hash_algo vm)). unfold FIXED_HEADER_SIZE in *. lia.
Qed.

(** C33. The span handed out was free, no byte of it is free afterwards, nothing
    becomes free, and the spans that remain still do not overlap: two
    allocations never share a byte. *)
Theorem find_void_safe vm n o s vm' :
  vm_ok vm -> spans_ok (by_offset vm) -> 0 <= n ->
  find_void vm n = Ok (Some (o, s), vm') ->
  spans_ok (by_offset vm')
  /\ (forall b, o <= b < o + n -> free (by_offset vm) b /\ ~ free (by_offset vm') b)
  /\ (forall b, free (by_offset vm') b -> free (by_offset vm) b).
Proof. apply find_void_alloc. Qed.

(** ** Witnesses *)

Definition sample_voids : VoidManager :=
  register_void (register_void (VoidManager_new Blake3_256) 1000 200) 5000 4096.

Lemma sample_voids_ok : vm_ok sample_voids.
Proof. apply register_void_ok, register_void_ok, vm_ok_new. Qed.

Lemma sample_voids_spans : spans_ok (by_offset sample_voids).
Proof.
  assert (E : by_offset sample_voids = <[5000 := 4096]> {[1000 := 200]}) by (vm_compute; reflexivity).
  rewrite E. constructor.
  - intros o s. rewrite lookup_insert_Some, lookup_singleton_Some. intros [[<- <-]|(_ & <- & <-)]; lia.
  - intros o s o' s'. rewrite !lookup_insert_Some, !lookup_singleton_Some. lia.
Qed.

Lemma find_void_best_fit_witness :
  exists r vm', find_void sample_voids 150 = Ok (r, vm') /\ vm_ok vm' /\
    match r with
    | None => vm' = sample_voids /\ forall o s, by_offset sample_voids !! o = Some s -> s < 150
    | Some (o, s) => best_fit sample_voids 150 o s /\ by_offset vm' = after_alloc sample_voids 150 o s
    end.
Proof. exact (find_void_best_fit sample_voids 150 sample_voids_ok). Defined.

Lemma void_index_updates_witness :
  by_offset (register_void sample_voids 9000 64) = <[9000 := 64]> (by_offset sample_voids)
  /\ (remove_void sample_voids 1000).1 = Some 200.
Proof.
  destruct (void_index_updates sample_voids 9000 64 [] sample_voids_ok) as [[_ H1] _].
  destruct (void_index_updates sample_voids 1000 64 [] sample_voids_ok) as [_ [[_ [H2 _]] _]].
  split; [exact H1|rewrite H2; vm_compute; reflexivity].
Defined.

Definition sample_found : VoidManager :=
  match find_void sample_voids 150 with Ok (_, vm) => vm | _ => sample_voids end.

Lemma find_void_safe_witness :
  spans_ok (by_offset sample_found)
  /\ (forall b, 1000 <= b < 1000 + 150 -> free (by_offset sample_voids) b /\ ~ free (by_offset sample_found) b)
  /\ (forall b, free (by_offset sample_found) b -> free (by_offset sample_voids) b).
Proof.
  exact (find_void_safe sample_voids 150 1000 200 sample_found sample_voids_ok sample_voids_spans
    ltac:(lia) ltac:(vm_compute; reflexivity)).
Defined.
