(* ===== verification/AppendWriter.v ===== *)
(** The append log (src/aeordb-lib/src/engine/append_writer.rs): entries written
    at the tail of the file or over a free span, entries read back by offset, and
    the file header kept in its two slots.  The writer's two file handles see the
    same bytes; an operation returns its value with the writer after it, and an
    [Err] leaves the writer as it was.  I/O failures other than a short read are
    not modelled. *)
From S2P Require Import Prelude Codec EntryFormat KvEntry KvPages FileIo HotTail FileHeader.

Local Open Scope Z_scope.

Definition CURRENT_ENTRY_VERSION : byte := z2b 0.

Record AppendWriter := {
  aw_file : bytes;
  aw_file_header : FileHeader;
  aw_current_offset : Z;
  aw_active_slot : Z;
}.

Definition with_updated_at (h : FileHeader) (updated_at : Z) : FileHeader :=
  {| fh_header_version := fh_header_version h; fh_hash_algo := fh_hash_algo h;
     fh_sequence := fh_sequence h; fh_created_at := fh_created_at h;
     fh_updated_at := updated_at; fh_kv_block_offset := fh_kv_block_offset h;
     fh_kv_block_length := fh_kv_block_length h; fh_kv_block_version := fh_kv_block_version h;
     fh_nvt_offset := fh_nvt_offset h; fh_nvt_length := fh_nvt_length h;
     fh_nvt_version := fh_nvt_version h; fh_head_hash := fh_head_hash h;
     fh_entry_count := fh_entry_count h; fh_resize_in_progress := fh_resize_in_progress h;
     fh_buffer_kvs_offset := fh_buffer_kvs_offset h; fh_buffer_nvt_offset := fh_buffer_nvt_offset h;
     fh_hot_tail_offset := fh_hot_tail_offset h; fh_kv_block_stage := fh_kv_block_stage h;
     fh_resize_target_stage := fh_resize_target_stage h; fh_backup_type := fh_backup_type h;
     fh_base_hash := fh_base_hash h; fh_target_hash := fh_target_hash h |}.

Definition with_entry_count (h : FileHeader) (entry_count : Z) : FileHeader :=
  {| fh_header_version := fh_header_version h; fh_hash_algo := fh_hash_algo h;
     fh_sequence := fh_sequence h; fh_created_at := fh_created_at h;
     fh_updated_at := fh_updated_at h; fh_kv_block_offset := fh_kv_block_offset h;
     fh_kv_block_length := fh_kv_block_length h; fh_kv_block_version := fh_kv_block_version h;
     fh_nvt_offset := fh_nvt_offset h; fh_nvt_length := fh_nvt_length h;
     fh_nvt_version := fh_nvt_version h; fh_head_hash := fh_head_hash h;
     fh_entry_count := entry_count; fh_resize_in_progress := fh_resize_in_progress h;
     fh_buffer_kvs_offset := fh_buffer_kvs_offset h; fh_buffer_nvt_offset := fh_buffer_nvt_offset h;
     fh_hot_tail_offset := fh_hot_tail_offset h; fh_kv_block_stage := fh_kv_block_stage h;
     fh_resize_target_stage := fh_resize_target_stage h; fh_backup_type := fh_backup_type h;
     fh_base_hash := fh_base_hash h; fh_target_hash := fh_target_hash h |}.

Definition with_header (aw : AppendWriter) (h : FileHeader) : AppendWriter :=
  {| aw_file := aw_file aw; aw_file_header := h; aw_current_offset := aw_current_offset aw;
     aw_active_slot := aw_active_slot aw |}.

Definition with_file (aw : AppendWriter) (file : bytes) : AppendWriter :=
  {| aw_file := file; aw_file_header := aw_file_header aw;
     aw_current_offset := aw_current_offset aw; aw_active_slot := aw_active_slot aw |}.

Definition set_offset (aw : AppendWriter) (offset : Z) : AppendWriter :=
  {| aw_file := aw_file aw; aw_file_header := aw_file_header aw;
     aw_current_offset := offset; aw_active_slot := aw_active_slot aw |}.

(** [i64::saturating_add(1)]. *)
Definition i64_succ_sat (z : Z) : Z := Z.min (z + 1) (2^63 - 1).

(** [now] is the clock's milliseconds. *)
Definition next_entry_timestamp (now : Z) (aw : AppendWriter) : Z * AppendWriter :=
  let updated_at := fh_updated_at (aw_file_header aw) in
  let next := if now <=? updated_at then i64_succ_sat updated_at else now in
  (next, with_header aw (with_updated_at (aw_file_header aw) next)).

Definition set_header_in_memory (aw : AppendWriter) (header : FileHeader) : AppendWriter :=
  with_header aw (with_updated_at header
    (Z.max (fh_updated_at header) (fh_updated_at (aw_file_header aw)))).

(** Reading a span; [read_exact_at] fills the buffer or fails at end of file. *)
Definition read_span_at (file : bytes) (offset length : Z) : res bytes := file_read file offset length.

Definition write_at (aw : AppendWriter) (offset : Z) (data : bytes) : AppendWriter :=
  with_file aw (file_write (aw_file aw) offset data).

Definition CHUNK : Z := 64 * 1024 * 1024.

(** [copy_region]'s loop, with fuel for its rounds; [None] when it runs out. *)
Fixpoint copy_region_loop (fuel : nat) (file : bytes) (read_pos write_pos remaining : Z) : option (res bytes) :=
  match fuel with
  | O => None
  | S fuel =>
    if remaining <=? 0 then Some (Ok file) else
    let chunk_len := Z.min CHUNK remaining in
    match file_read file read_pos chunk_len with
    | Ok buf =>
      copy_region_loop fuel (file_write file write_pos buf)
        (read_pos + chunk_len) (write_pos + chunk_len) (remaining - chunk_len)
    | Err e => Some (Err e)
    | Panic => Some Panic
    end
  end.

Section AppendWriter.
Context `{Crc32, Blake3}.

(** On a fresh file. *)
Definition AppendWriter_create (now : Z) : res AppendWriter :=
  '(file_header, file) ← write_initial_header [] (FileHeader_new now Blake3_256);
  Ok {| aw_file := file; aw_file_header := file_header;
        aw_current_offset := HEADER_REGION_SIZE; aw_active_slot := 0 |}.

Definition AppendWriter_open (file : bytes) : res AppendWriter :=
  '(file_header, active_slot) ← read_active_header file;
  Ok {| aw_file := file; aw_file_header := file_header;
        aw_current_offset := zlen file; aw_active_slot := active_slot |}.

(** Synchronisation calls ([sync_data], [sync_all]) change no byte of the file:
    they are the points at which [hdr_step] below lets a crash happen. *)
Definition update_header (aw : AppendWriter) (header : FileHeader) : res AppendWriter :=
  let new_header := with_sequence header (fh_sequence (aw_file_header aw)) in
  let new_header := with_updated_at new_header
    (Z.max (fh_updated_at new_header) (fh_updated_at (aw_file_header aw))) in
  '(new_header, file) ← write_header_to_inactive_slot (aw_file aw) new_header (aw_active_slot aw);
  Ok {| aw_file := file; aw_file_header := new_header;
        aw_current_offset := aw_current_offset aw;
        aw_active_slot := wrap64 (1 - aw_active_slot aw) |}.

Definition update_file_header (aw : AppendWriter) (header : FileHeader) : res AppendWriter :=
  let new_header := with_sequence header (fh_sequence (aw_file_header aw)) in
  let new_header := with_updated_at new_header
    (Z.max (fh_updated_at new_header) (fh_updated_at (aw_file_header aw))) in
  '(new_header, file) ← write_header_to_inactive_slot (aw_file aw) new_header (aw_active_slot aw);
  Ok {| aw_file := file; aw_file_header := new_header;
        aw_current_offset := aw_current_offset aw;
        aw_active_slot := wrap64 (1 - aw_active_slot aw) |}.

(** The header both write paths build for an entry. *)
Definition make_entry_header (hash_algo : HashAlgorithm) (entry_type : EntryType) (key value : bytes)
    (flags : byte) (compression_algo : CompressionAlgorithm) (entry_version : byte)
    (timestamp total_length : Z) (hash : bytes) : EntryHeader :=
  {| eh_entry_version := entry_version; eh_entry_type := entry_type; eh_flags := flags;
     eh_hash_algo := hash_algo; eh_compression_algo := compression_algo;
     eh_encryption_algo := z2b 0; eh_key_length := zlen key mod 2^32;
     eh_value_length := zlen value mod 2^32; eh_timestamp := timestamp;
     eh_total_length := total_length; eh_hash := hash |}.

(** The three consecutive [write_all]s at the seek position. *)
Definition write_entry_bytes (file : bytes) (offset : Z) (header : EntryHeader) (key value : bytes) : bytes :=
  let header_bytes := EntryHeader_serialize header in
  let file := file_write file offset header_bytes in
  let file := file_write file (offset + zlen header_bytes) key in
  file_write file (offset + zlen header_bytes + zlen key) value.

Definition append_entry_with_compression_and_version (now : Z) (aw : AppendWriter)
    (entry_type : EntryType) (key value : bytes) (flags : byte)
    (compression_algo : CompressionAlgorithm) (entry_version : byte) : res ((Z * Z) * AppendWriter) :=
  let hash_algo := fh_hash_algo (aw_file_header aw) in
  hash ← entry_hash entry_type key value hash_algo;
  total_length ← compute_total_length hash_algo (zlen key) (zlen value);
  let '(now, aw) := next_entry_timestamp now aw in
  let header := make_entry_header hash_algo entry_type key value flags compression_algo
    entry_version now total_length hash in
  let entry_offset := aw_current_offset aw in
  let file := write_entry_bytes (aw_file aw) entry_offset header key value in
  Ok ((entry_offset, total_length),
      {| aw_file := file;
         aw_file_header := with_entry_count (aw_file_header aw)
           (wrap64 (fh_entry_count (aw_file_header aw) + 1));
         aw_current_offset := wrap64 (entry_offset + total_length);
         aw_active_slot := aw_active_slot aw |}).

Definition append_entry_with_compression (now : Z) (aw : AppendWriter) (entry_type : EntryType)
    (key value : bytes) (flags : byte) (compression_algo : CompressionAlgorithm)
    : res ((Z * Z) * AppendWriter) :=
  append_entry_with_compression_and_version now aw entry_type key value flags
    compression_algo CURRENT_ENTRY_VERSION.

Definition append_entry (now : Z) (aw : AppendWriter) (entry_type : EntryType) (key value : bytes)
    (flags : byte) : res ((Z * Z) * AppendWriter) :=
  append_entry_with_compression now aw entry_type key value flags NoCompression.

Definition write_void (now : Z) (aw : AppendWriter) (sz : Z) : res ((Z * Z) * AppendWriter) :=
  let header_size := 31 + hash_length (fh_hash_algo (aw_file_header aw)) in
  if sz <? header_size
  then Err (CorruptEntry (aw_current_offset aw) "Void size {} is smaller than minimum entry size {}") else
  let value_length := sz - header_size in
  append_entry now aw Void [] (zeros value_length) (z2b 0).

(** Over existing space: neither the tail offset nor the entry count moves. *)
Definition write_entry_at_nosync_full_with_version (now : Z) (aw : AppendWriter) (offset : Z)
    (entry_type : EntryType) (key value : bytes) (flags : byte)
    (compression_algo : CompressionAlgorithm) (entry_version : byte) : res (Z * AppendWriter) :=
  let hash_algo := fh_hash_algo (aw_file_header aw) in
  hash ← entry_hash entry_type key value hash_algo;
  total_length ← compute_total_length hash_algo (zlen key) (zlen value);
  let '(now, aw) := next_entry_timestamp now aw in
  let header := make_entry_header hash_algo entry_type key value flags compression_algo
    entry_version now total_length hash in
  Ok (total_length, with_file aw (write_entry_bytes (aw_file aw) offset header key value)).

Definition write_entry_at_nosync_full (now : Z) (aw : AppendWriter) (offset : Z) (entry_type : EntryType)
    (key value : bytes) (flags : byte) (compression_algo : CompressionAlgorithm) : res (Z * AppendWriter) :=
  write_entry_at_nosync_full_with_version now aw offset entry_type key value flags
    compression_algo CURRENT_ENTRY_VERSION.

Definition write_entry_at_nosync_with_flags (now : Z) (aw : AppendWriter) (offset : Z)
    (entry_type : EntryType) (key value : bytes) (flags : byte) : res (Z * AppendWriter) :=
  write_entry_at_nosync_full now aw offset entry_type key value flags NoCompression.

Definition write_entry_at_nosync (now : Z) (aw : AppendWriter) (offset : Z) (entry_type : EntryType)
    (key value : bytes) : res (Z * AppendWriter) :=
  write_entry_at_nosync_full now aw offset entry_type key value (z2b 0) NoCompression.

Definition write_entry_at (now : Z) (aw : AppendWriter) (offset : Z) (entry_type : EntryType)
    (key value : bytes) : res (Z * AppendWriter) :=
  write_entry_at_nosync now aw offset entry_type key value.

Definition write_void_at_nosync (now : Z) (aw : AppendWriter) (offset sz : Z) : res AppendWriter :=
  let header_size := 31 + hash_length (fh_hash_algo (aw_file_header aw)) in
  if sz <? header_size
  then Err (CorruptEntry offset "Void size {} is smaller than minimum entry size {}") else
  let value_length := sz - header_size in
  '(_, aw) ← write_entry_at_nosync now aw offset Void [] (zeros value_length);
  Ok aw.

Definition write_void_at (now : Z) (aw : AppendWriter) (offset sz : Z) : res AppendWriter :=
  write_void_at_nosync now aw offset sz.

(** Fuel for one round per chunk and the final test. *)
Definition copy_region (aw : AppendWriter) (src dst sz : Z) : option (res AppendWriter) :=
  match copy_region_loop (S (Z.to_nat ((sz + CHUNK - 1) / CHUNK))) (aw_file aw) src dst sz with
  | Some r => Some (file ← r; Ok (with_file aw file))
  | None => None
  end.

Definition write_hot_tail_at (aw : AppendWriter) (offset : Z) (payload : HotTailPayload)
    (hash_length : Z) : Z * AppendWriter :=
  let '(file, e) := write_hot_tail (aw_file aw) offset payload hash_length in (e, with_file aw file).

Definition read_hot_tail_payload (aw : AppendWriter) (offset hash_length : Z) : res HotTailPayload :=
  o ← read_hot_tail (aw_file aw) offset hash_length;
  Ok (default {| ht_writes := []; ht_voids := [] |} o).

(** The check of the lengths in a header against its total. *)
Definition payload_fits (header : EntryHeader) : bool :=
  let header_size := header_size header in
  let payload_size := eh_key_length header + eh_value_length header in
  let max_payload := saturating_sub (eh_total_length header) header_size in
  negb (max_payload <? payload_size).

Definition payload_error (offset : Z) : EngineError :=
  CorruptEntry offset "key_length ({}) + value_length ({}) exceeds total_length ({}) minus header ({})".

Definition verify_error (offset : Z) : EngineError :=
  CorruptEntry offset "Hash verification failed for entry at offset {}. Data may be corrupt.".

(** Reads the stream from the seek position on. *)
Definition read_entry_at_opt (file : bytes) (offset : Z) (do_verify : bool)
    : res (EntryHeader * bytes * bytes) :=
  '(header, stream) ← EntryHeader_deserialize (drop (Z.to_nat offset) file);
  if negb (payload_fits header) then Err (payload_error offset) else
  '(key, stream) ← read_exact (eh_key_length header) stream;
  '(value, stream) ← read_exact (eh_value_length header) stream;
  if do_verify && negb (verify header key value) then Err (verify_error offset) else
  Ok (header, key, value).

(** [pread]s through the shared handle: the fixed header first, then the rest. *)
Definition read_entry_header_at_shared (file : bytes) (offset : Z) : res EntryHeader :=
  fixed_buf ← file_read file offset FIXED_HEADER_SIZE;
  let hash_algo_raw := le_val (slice fixed_buf 7 9) in
  hash_algo ← ok_or (HashAlgorithm_from_u16 hash_algo_raw) (InvalidHashAlgorithm hash_algo_raw);
  let hash_length := hash_length hash_algo in
  rest ← file_read file (offset + FIXED_HEADER_SIZE) hash_length;
  '(header, _) ← EntryHeader_deserialize (fixed_buf ++ rest);
  if negb (payload_fits header) then Err (payload_error offset) else
  Ok header.

Definition read_entry_at_shared_opt (file : bytes) (offset : Z) (do_verify : bool)
    : res (EntryHeader * bytes * bytes) :=
  fixed_buf ← file_read file offset FIXED_HEADER_SIZE;
  let hash_algo_raw := le_val (slice fixed_buf 7 9) in
  hash_algo ← ok_or (HashAlgorithm_from_u16 hash_algo_raw) (InvalidHashAlgorithm hash_algo_raw);
  let hash_length := hash_length hash_algo in
  let full_header_size := FIXED_HEADER_SIZE + hash_length in
  let total_length := le_val (slice fixed_buf 27 31) in
  entry_buf ← file_read file offset total_length;
  head ← slice_chk entry_buf 0 full_header_size;
  '(header, _) ← EntryHeader_deserialize head;
  if negb (payload_fits header) then Err (payload_error offset) else
  let key_start := full_header_size in
  let key_end := key_start + eh_key_length header in
  let value_end := key_end + eh_value_length header in
  key ← slice_chk entry_buf key_start key_end;
  value ← slice_chk entry_buf key_end value_end;
  if do_verify && negb (verify header key value) then Err (verify_error offset) else
  Ok (header, key, value).
End AppendWriter.

(** ** The log as a list of entries *)

Record LogEntry := { le_header : EntryHeader; le_key : bytes; le_value : bytes }.

Definition entry_bytes (e : LogEntry) : bytes :=
  EntryHeader_serialize (le_header e) ++ le_key e ++ le_value e.

(** The entries lie one after the other from byte [start] to byte [stop]. *)
Definition log_at (file : bytes) (start : Z) (log : list LogEntry) (stop : Z) : Prop :=
  stop = start + zlen (concat (entry_bytes <$> log)) /\
  exists rest, suffix_at file start (concat (entry_bytes <$> log) ++ rest).

Section LogProofs.
Context `{Crc32, Blake3}.

(** What the writer guarantees of an entry: its lengths are the true ones and
    its hash verifies. *)
Record entry_ok (e : LogEntry) : Prop := {
  ok_header : EntryHeader_wf (le_header e);
  ok_key : eh_key_length (le_header e) = zlen (le_key e);
  ok_value : eh_value_length (le_header e) = zlen (le_value e);
  ok_total : eh_total_length (le_header e) = zlen (entry_bytes e);
  ok_verify : verify (le_header e) (le_key e) (le_value e) = true;
}.

Lemma zlen_EntryHeader_serialize h :
  EntryHeader_wf h -> zlen (EntryHeader_serialize h) = header_size h.
Proof.
  intros Hwf. destruct (EntryHeader_serialize_split h) as (fixed & -> & Hf).
  rewrite zlen_app, Hf, (wf_hash _ Hwf). done.
Qed.

Lemma entry_ok_total e : entry_ok e ->
  eh_total_length (le_header e) = header_size (le_header e) + zlen (le_key e) + zlen (le_value e).
Proof.
  intros []. rewrite ok_total0. unfold entry_bytes.
  rewrite !zlen_app, zlen_EntryHeader_serialize by done. lia.
Qed.

Lemma entry_ok_payload_fits e : entry_ok e -> payload_fits (le_header e) = true.
Proof.
  intros He. pose proof (entry_ok_total e He). destruct He. unfold payload_fits.
  pose proof (zlen_nonneg (le_key e)). pose proof (zlen_nonneg (le_value e)).
  unfold saturating_sub. rewrite ok_key0, ok_value0, (proj2 (Z.ltb_ge _ _)); [done|lia].
Qed.

Lemma suffix_at_drop {A} (data : list A) off rest :
  suffix_at data off rest -> drop (Z.to_nat off) data = rest.
Proof.
  intros (pre & -> & <-). unfold zlen. by rewrite Nat2Z.id, drop_app_length.
Qed.

Lemma read_entry_at_ok file off e rest v :
  suffix_at file off (entry_bytes e ++ rest) -> entry_ok e ->
  read_entry_at_opt file off v = Ok (le_header e, le_key e, le_value e).
Proof.
  intros Hs He. unfold read_entry_at_opt. rewrite (suffix_at_drop _ _ _ Hs).
  unfold entry_bytes. rewrite <- !app_assoc.
  rewrite EntryHeader_decode_encode, bind_ret by apply He.
  rewrite (entry_ok_payload_fits e He). simpl negb. cbv iota.
  rewrite read_exact_app, bind_ret by (symmetry; apply He).
  rewrite read_exact_app, bind_ret by (symmetry; apply He).
  rewrite (ok_verify _ He). by rewrite andb_false_r.
Qed.

(** The fields the shared reader takes from the raw fixed header. *)
Lemma serialized_fields h rest :
  EntryHeader_wf h ->
  slice (EntryHeader_serialize h ++ rest) 7 9 = u16_le (HashAlgorithm_to_u16 (eh_hash_algo h)) /\
  slice (EntryHeader_serialize h ++ rest) 27 31 = u32_le (eh_total_length h).
Proof.
  intros Hwf. unfold EntryHeader_serialize. rewrite <- !app_assoc. by split.
Qed.

(** A reader that starts at a serialized header gets past its two [pread]s. *)
Lemma shared_fixed file off h rest :
  suffix_at file off (EntryHeader_serialize h ++ rest) -> EntryHeader_wf h ->
  exists fixed, file_read file off FIXED_HEADER_SIZE = Ok fixed
    /\ HashAlgorithm_from_u16 (le_val (slice fixed 7 9)) = Some (eh_hash_algo h)
    /\ le_val (slice fixed 27 31) = eh_total_length h.
Proof.
  intros Hs Hwf. destruct (EntryHeader_serialize_split h) as (fixed & E & Hf).
  pose proof (serialized_fields h rest Hwf) as [H1 H2]. rewrite E, <- app_assoc in Hs, H1, H2.
  exists fixed. split; [by apply (file_read_at _ _ _ _ _ Hs)|].
  unfold FIXED_HEADER_SIZE in Hf. rewrite slice_app_l in H1, H2 by lia. rewrite H1, H2.
  rewrite le_val_u16, HashAlgorithm_to_from, le_val_u32 by (apply HashAlgorithm_u16 || apply Hwf).
  done.
Qed.

Lemma read_entry_at_shared_ok file off e rest v :
  suffix_at file off (entry_bytes e ++ rest) -> entry_ok e ->
  read_entry_at_shared_opt file off v = Ok (le_header e, le_key e, le_value e).
Proof.
  intros Hs He. pose proof (ok_header _ He) as Hwf.
  assert (Hh : zlen (EntryHeader_serialize (le_header e)) = FIXED_HEADER_SIZE + hash_length (eh_hash_algo (le_header e)))
    by (by apply zlen_EntryHeader_serialize).
  assert (Hs' : suffix_at file off (EntryHeader_serialize (le_header e) ++ (le_key e ++ le_value e) ++ rest))
    by (unfold entry_bytes in Hs; by rewrite <- !app_assoc in *).
  destruct (shared_fixed _ _ _ _ Hs' Hwf) as (fixed & E1 & E2 & E3).
  unfold read_entry_at_shared_opt. rewrite E1, bind_ret. cbv zeta.
  rewrite E2. cbn [ok_or]. rewrite bind_ret, E3, (ok_total _ He).
  rewrite (file_read_at _ _ _ _ _ Hs eq_refl), bind_ret.
  pose proof (suffix_at_start (entry_bytes e)) as HA. unfold entry_bytes in HA at 2.
  rewrite <- (app_nil_r (le_value e)) in HA.
  pose proof (suffix_at_slice_chk _ _ _ _ _ HA Hh) as HS. rewrite Z.add_0_l in HS.
  rewrite HS, bind_ret. apply (suffix_at_app _ _ _ _ _ ) with (2 := Hh) in HA. rewrite Z.add_0_l in HA.
  rewrite <- (app_nil_r (EntryHeader_serialize (le_header e))), EntryHeader_decode_encode, bind_ret by done.
  rewrite (entry_ok_payload_fits e He). simpl negb. cbv iota.
  rewrite (suffix_at_slice_chk _ _ _ _ _ HA (eq_sym (ok_key _ He))), bind_ret.
  apply (suffix_at_app _ _ _ _ _) with (2 := eq_sym (ok_key _ He)) in HA.
  rewrite (suffix_at_slice_chk _ _ _ _ _ HA (eq_sym (ok_value _ He))), bind_ret.
  rewrite (ok_verify _ He). by rewrite andb_false_r.
Qed.

(** ** Appending *)

Lemma write_entry_bytes_eq file off h key value :
  0 <= off -> write_entry_bytes file off h key value =
    file_write file off (entry_bytes {| le_header := h; le_key := key; le_value := value |}).
Proof.
  intros Ho. unfold write_entry_bytes, entry_bytes. cbv zeta. simpl.
  rewrite file_write_app by (pose proof (zlen_nonneg (EntryHeader_serialize h)); lia).
  by rewrite file_write_app by done.
Qed.

(** The writer can still append: its algorithm is the implemented one and its
    clock is in range. *)
Record aw_ok (aw : AppendWriter) : Prop := {
  ok_algo : fh_hash_algo (aw_file_header aw) = Blake3_256;
  ok_updated : is_i64 (fh_updated_at (aw_file_header aw));
  ok_offset : is_u64 (aw_current_offset aw);
}.

Lemma next_timestamp_range now z :
  is_i64 now -> is_i64 z -> is_i64 (if now <=? z then i64_succ_sat z else now).
Proof. unfold is_i64, i64_succ_sat. intros. case_match; lia. Qed.

Lemma compute_total_length_ok a k v :
  0 <= k <= MAX_KEY_OR_VALUE_BYTES -> 0 <= v <= MAX_KEY_OR_VALUE_BYTES ->
  compute_total_length a k v = Ok (FIXED_HEADER_SIZE + hash_length a + k + v)
  /\ is_u32 (FIXED_HEADER_SIZE + hash_length a + k + v) /\ is_u32 k /\ is_u32 v.
Proof.
  unfold compute_total_length, MAX_KEY_OR_VALUE_BYTES, FIXED_HEADER_SIZE, is_u32.
  change (Z.shiftl 1 30) with 1073741824. intros Hk Hv.
  assert (32 <= hash_length a <= 64) by (destruct a; simpl; lia).
  rewrite !(proj2 (Z.ltb_ge _ _)) by lia. split; [|lia]. cbv zeta. f_equal.
  rewrite (Z.mod_small (31 + _)), (Z.mod_small k), (Z.mod_small v), Z.mod_small; lia.
Qed.

Lemma make_entry_ok t key value fl comp ver ts :
  is_i64 ts -> zlen key <= MAX_KEY_OR_VALUE_BYTES -> zlen value <= MAX_KEY_OR_VALUE_BYTES ->
  let total := FIXED_HEADER_SIZE + 32 + zlen key + zlen value in
  let h := make_entry_header Blake3_256 t key value fl comp ver ts total
    (blake3 (z2b (EntryType_to_u8 t) :: key ++ value)) in
  entry_ok {| le_header := h; le_key := key; le_value := value |}.
Proof.
  intros Hts Hk Hv. cbv zeta. pose proof (zlen_nonneg key). pose proof (zlen_nonneg value).
  destruct (compute_total_length_ok Blake3_256 (zlen key) (zlen value)) as (_ & Hu & Huk & Huv); [lia..|].
  assert (Hwf : EntryHeader_wf (make_entry_header Blake3_256 t key value fl comp ver ts
    (FIXED_HEADER_SIZE + 32 + zlen key + zlen value) (blake3 (z2b (EntryType_to_u8 t) :: key ++ value)))).
  { split; cbn; rewrite ?Z.mod_small by done; try done. unfold zlen. by rewrite blake3_length. }
  split; cbn [le_header le_key le_value].
  - done.
  - cbn. by apply Z.mod_small.
  - cbn. by apply Z.mod_small.
  - unfold entry_bytes. rewrite !zlen_app, zlen_EntryHeader_serialize by done.
    cbn [eh_total_length make_entry_header]. unfold header_size.
    change (hash_length _) with 32.
    cbn [le_key le_value]. lia.
  - apply verify_spec. done.
Qed.

Lemma log_at_snoc file start log stop e :
  0 <= start -> log_at file start log stop ->
  log_at (file_write file stop (entry_bytes e)) start (log ++ [e]) (stop + zlen (entry_bytes e)).
Proof.
  intros Hs [-> [rest Hr]]. destruct Hr as (pre & -> & <-).
  set (C := concat (entry_bytes <$> log)). rewrite app_assoc, <- zlen_app, file_write_inside.
  unfold log_at. rewrite fmap_app, concat_app. cbn [fmap list_fmap concat]. rewrite app_nil_r.
  split; [rewrite !zlen_app; fold C; lia|].
  eexists. exists pre. split; [|done]. rewrite <- !app_assoc. done.
Qed.

Lemma append_entry_spec now aw t key value fl comp ver :
  aw_ok aw -> is_i64 now ->
  zlen key <= MAX_KEY_OR_VALUE_BYTES -> zlen value <= MAX_KEY_OR_VALUE_BYTES ->
  exists e aw', append_entry_with_compression_and_version now aw t key value fl comp ver
      = Ok ((aw_current_offset aw, zlen (entry_bytes e)), aw')
    /\ entry_ok e /\ le_key e = key /\ le_value e = value
    /\ eh_entry_type (le_header e) = t /\ eh_flags (le_header e) = fl
    /\ eh_timestamp (le_header e) = (if now <=? fh_updated_at (aw_file_header aw)
         then i64_succ_sat (fh_updated_at (aw_file_header aw)) else now)
    /\ aw_file aw' = file_write (aw_file aw) (aw_current_offset aw) (entry_bytes e)
    /\ aw_current_offset aw' = wrap64 (aw_current_offset aw + zlen (entry_bytes e))
    /\ fh_updated_at (aw_file_header aw') = eh_timestamp (le_header e)
    /\ fh_entry_count (aw_file_header aw') = wrap64 (fh_entry_count (aw_file_header aw) + 1).
Proof.
  intros [Halgo Hup Hoff] Hnow Hk Hv. unfold append_entry_with_compression_and_version. cbv zeta.
  rewrite Halgo. cbn [entry_hash compute_hash]. unfold entry_hash, compute_hash. rewrite bind_ret.
  pose proof (zlen_nonneg key). pose proof (zlen_nonneg value).
  destruct (compute_total_length_ok Blake3_256 (zlen key) (zlen value)) as (-> & _); [lia..|].
  rewrite bind_ret. unfold next_entry_timestamp. cbv zeta.
  set (ts := if now <=? _ then _ else _).
  assert (Hts : is_i64 ts) by (by apply next_timestamp_range).
  pose proof (make_entry_ok t key value fl comp ver ts Hts Hk Hv) as Hok. cbv zeta in Hok.
  set (h := make_entry_header _ _ _ _ _ _ _ _ _ _) in *.
  exists {| le_header := h; le_key := key; le_value := value |}. eexists.
  pose proof (ok_total _ Hok) as Htot. cbn [le_header eh_total_length h make_entry_header] in Htot.
  change (eh_total_length h) with (FIXED_HEADER_SIZE + 32 + zlen key + zlen value) in Htot.
  change (hash_length Blake3_256) with 32. rewrite <- Htot.
  split; [done|]. cbn [aw_file aw_file_header aw_current_offset with_header]. rewrite write_entry_bytes_eq by apply Hoff.
  done.
Qed.

Lemma append_extends now aw t key value fl comp ver start log :
  aw_ok aw -> is_i64 now -> 0 <= start ->
  zlen key <= MAX_KEY_OR_VALUE_BYTES -> zlen value <= MAX_KEY_OR_VALUE_BYTES ->
  aw_current_offset aw + (FIXED_HEADER_SIZE + 32 + zlen key + zlen value) < 2^64 ->
  log_at (aw_file aw) start log (aw_current_offset aw) ->
  exists e off total aw', append_entry_with_compression_and_version now aw t key value fl comp ver
      = Ok ((off, total), aw')
    /\ entry_ok e /\ le_key e = key /\ le_value e = value
    /\ eh_entry_type (le_header e) = t /\ eh_flags (le_header e) = fl
    /\ off = aw_current_offset aw /\ total = eh_total_length (le_header e)
    /\ log_at (aw_file aw') start (log ++ [e]) (aw_current_offset aw')
    /\ fh_updated_at (aw_file_header aw') = eh_timestamp (le_header e).
Proof.
  intros Hok Hnow Hs Hk Hv Hmax Hlog.
  destruct (append_entry_spec now aw t key value fl comp ver)
    as (e & aw' & E & He & Hke & Hve & Ht & Hf & Hts & Hfile & Hoff & Hup & _); [done..|].
  exists e, (aw_current_offset aw), (zlen (entry_bytes e)), aw'. split_and!; try done.
  - by rewrite (ok_total _ He).
  - assert (Hz : zlen (entry_bytes e) = FIXED_HEADER_SIZE + 32 + zlen key + zlen value).
    { rewrite <- (ok_total _ He), (entry_ok_total _ He), Hke, Hve.
      pose proof (proj1 (proj1 (verify_spec _ _ _) (ok_verify _ He))) as Ha.
      unfold header_size. rewrite Ha. done. }
    rewrite Hfile, Hoff. unfold wrap64. rewrite Z.mod_small.
    + by apply log_at_snoc.
    + pose proof (ok_offset _ Hok) as Hu. unfold is_u64 in Hu. pose proof (zlen_nonneg (entry_bytes e)). lia.
Qed.

(** C9. Appending refines adding to a list.  With entries laid out from [start] to
    the tail, an append of a key and value within the size caps writes one
    well-formed entry for them at the tail: the file then holds the same entries
    followed by the new one, and nothing before the tail changes. *)
Theorem append_entry_refines now aw t key value fl comp ver start log :
  aw_ok aw -> is_i64 now -> 0 <= start ->
  zlen key <= MAX_KEY_OR_VALUE_BYTES -> zlen value <= MAX_KEY_OR_VALUE_BYTES ->
  aw_current_offset aw + (FIXED_HEADER_SIZE + 32 + zlen key + zlen value) < 2^64 ->
  log_at (aw_file aw) start log (aw_current_offset aw) ->
  exists e off total aw', append_entry_with_compression_and_version now aw t key value fl comp ver
      = Ok ((off, total), aw')
    /\ entry_ok e /\ le_key e = key /\ le_value e = value
    /\ eh_entry_type (le_header e) = t /\ eh_flags (le_header e) = fl
    /\ off = aw_current_offset aw /\ total = eh_total_length (le_header e)
    /\ log_at (aw_file aw') start (log ++ [e]) (aw_current_offset aw')
    /\ fh_updated_at (aw_file_header aw') = eh_timestamp (le_header e).
Proof. apply append_extends. Qed.

(** ** Reading by offset *)

(** The offset of the [i]-th entry. *)
Definition entry_offset (start : Z) (log : list LogEntry) (i : nat) : Z :=
  start + zlen (concat (entry_bytes <$> take i log)).

Lemma log_at_entry file start log stop i e :
  log_at file start log stop -> log !! i = Some e ->
  exists rest, suffix_at file (entry_offset start log i) (entry_bytes e ++ rest).
Proof.
  intros [_ [rest Hs]] Hi. rewrite <- (take_drop_middle log i e Hi) in Hs.
  rewrite fmap_app, concat_app in Hs. cbn [fmap list_fmap concat] in Hs.
  rewrite <- !app_assoc in Hs. eexists. unfold entry_offset.
  by eapply suffix_at_app in Hs.
Qed.

(** Every entry of the log is read back by its offset, verified or not, through
    the writer's handle and through the shared one. *)
Theorem log_entries_readable file start log stop i e v :
  log_at file start log stop -> Forall entry_ok log -> log !! i = Some e ->
  read_entry_at_opt file (entry_offset start log i) v = Ok (le_header e, le_key e, le_value e)
  /\ read_entry_at_shared_opt file (entry_offset start log i) v = Ok (le_header e, le_key e, le_value e).
Proof.
  intros Hlog Hall Hi. destruct (log_at_entry _ _ _ _ _ _ Hlog Hi) as [rest Hs].
  pose proof (Forall_lookup_1 _ _ _ _ Hall Hi) as He.
  split; [by eapply read_entry_at_ok|by eapply read_entry_at_shared_ok].
Qed.

(** The shared reader allocates [total_length] bytes and takes the header out of
    them; an entry header that is well formed but whose stored total is shorter
    than the header makes that slice panic. *)
Theorem shared_read_short_total_panics file off h rest v :
  suffix_at file off (EntryHeader_serialize h ++ rest) -> EntryHeader_wf h ->
  eh_total_length h < header_size h ->
  read_entry_at_shared_opt file off v = Panic.
Proof.
  intros Hs Hwf Hlt. destruct (shared_fixed _ _ _ _ Hs Hwf) as (fixed & E1 & E2 & E3).
  unfold read_entry_at_shared_opt. rewrite E1, bind_ret. cbv zeta.
  rewrite E2. cbn [ok_or]. rewrite bind_ret, E3.
  pose proof (suffix_at_bounds _ _ _ Hs) as [? Hb]. pose proof (wf_total_length _ Hwf) as Ht.
  unfold is_u32 in Ht. pose proof (zlen_EntryHeader_serialize _ Hwf) as Hz.
  unfold file_read. rewrite (proj2 (Z.ltb_ge _ _)) by zlen_lia. rewrite bind_ret.
  unfold slice_chk. rewrite (proj2 (Z.leb_gt _ (zlen (slice _ _ _)))).
  - by rewrite andb_false_r.
  - rewrite zlen_slice by zlen_lia. unfold header_size in Hlt. lia.
Qed.

Lemma slice_drop {A} (l : list A) a b o :
  0 <= o -> 0 <= a -> slice (drop (Z.to_nat o) l) a b = slice l (o + a) (o + b).
Proof.
  intros. unfold slice. rewrite drop_drop. f_equal; [lia|]. f_equal. lia.
Qed.

(** Decoding a buffer of exactly the header's length leaves nothing over. *)
Lemma deserialize_exact head h r algo :
  EntryHeader_deserialize head = Ok (h, r) ->
  HashAlgorithm_from_u16 (le_val (slice head 7 9)) = Some algo ->
  zlen head = FIXED_HEADER_SIZE + hash_length algo -> r = [].
Proof.
  intros [-> Hwf]%EntryHeader_encode_decode Ea Hl.
  rewrite (proj1 (serialized_fields h r Hwf)), le_val_u16, HashAlgorithm_to_from in Ea
    by apply HashAlgorithm_u16.
  injection Ea as <-. rewrite zlen_app, zlen_EntryHeader_serialize in Hl by done.
  unfold header_size in Hl. apply length_zero_iff_nil. unfold zlen in Hl. lia.
Qed.

(** Whatever the shared reader accepts, the writer's own reader returns too. *)
Theorem shared_read_refines file off v h key value :
  0 <= off -> read_entry_at_shared_opt file off v = Ok (h, key, value) ->
  read_entry_at_opt file off v = Ok (h, key, value).
Proof.
  intros Ho Hr. unfold read_entry_at_shared_opt in Hr.
  apply bind_Ok in Hr as (fixed & Ef & Hr). cbv zeta in Hr.
  apply bind_Ok in Hr as (algo & Ea%ok_or_Ok & Hr).
  set (total := le_val (slice fixed 27 31)) in Hr. pose proof (le_val_nonneg (slice fixed 27 31)) as Ht.
  fold total in Ht. set (fhs := FIXED_HEADER_SIZE + hash_length algo) in Hr.
  apply bind_Ok in Hr as (buf & Eb & Hr). apply bind_Ok in Hr as (head & Eh & Hr).
  apply bind_Ok in Hr as ([h' r] & Ed & Hr). cbv beta iota in Hr.
  apply if_Err_Ok in Hr as [Hpf Hr].
  apply bind_Ok in Hr as (k & Ek & Hr). apply bind_Ok in Hr as (vv & Ev & Hr).
  apply if_Err_Ok in Hr as [Hver Hr]. injection Hr as -> -> ->.
  unfold file_read in Eb. apply if_Err_Ok in Eb as [Hb%Z.ltb_ge [= <-]].
  unfold slice_chk in Eh, Ek, Ev.
  rewrite zlen_slice in Eh, Ek, Ev by lia. replace (off + total - off) with total in * by lia.
  destruct ((0 <=? 0) && _ && _) eqn:Hc1 in Eh; [|done]. injection Eh as Eh.
  destruct ((0 <=? fhs) && _ && _) eqn:Hc2 in Ek; [|done]. injection Ek as Ek.
  destruct (_ && _ && _) eqn:Hc3 in Ev; [|done]. injection Ev as Ev.
  set (d := drop (Z.to_nat off) file).
  assert (Hbuf : slice file off (off + total) = take (Z.to_nat total) d).
  { unfold slice. f_equal. lia. }
  rewrite Hbuf in Eh, Ek, Ev. pose proof (EntryHeader_encode_decode _ _ _ Ed) as [Hser Hwf].
  rewrite slice_take in Eh, Ek, Ev by lia.
  assert (Hd : d = head ++ drop (Z.to_nat fhs) d).
  { rewrite <- Eh. unfold slice. rewrite Z.sub_0_r, drop_0, take_drop. done. }
  unfold read_entry_at_opt. fold d. rewrite Hd, Hser, <- app_assoc.
  rewrite EntryHeader_decode_encode, bind_ret, Hpf by done.
  assert (Hfh : zlen head = fhs).
  { rewrite <- Eh, zlen_slice; [lia|lia|]. unfold d, zlen. rewrite length_drop. unfold zlen in Hb. lia. }
  assert (Hsl : slice fixed 7 9 = slice head 7 9).
  { unfold file_read in Ef. apply if_Err_Ok in Ef as [_ [= <-]].
    rewrite <- Eh. unfold slice at 2 4. fold d. rewrite drop_0.
    rewrite !slice_take; [done|lia|..]; unfold fhs, FIXED_HEADER_SIZE in *;
      pose proof (hash_length_pos algo); lia. }
  rewrite Hsl in Ea. rewrite (deserialize_exact _ _ _ _ Ed Ea Hfh). simpl app. unfold read_exact.
  assert (Hk : zlen (drop (Z.to_nat fhs) d) = zlen d - fhs /\ total <= zlen d).
  { unfold d, zlen in *. rewrite !length_drop. lia. }
  rewrite (proj2 (Z.ltb_ge _ _)) by lia. rewrite bind_ret.
  rewrite (proj2 (Z.ltb_ge _ _)).
  2: { unfold zlen in *. rewrite !length_drop. lia. }
  rewrite bind_ret.
  assert (Hkey : take (Z.to_nat (eh_key_length h)) (drop (Z.to_nat fhs) d) = key).
  { rewrite <- Ek. unfold slice. f_equal. lia. }
  assert (Hval : take (Z.to_nat (eh_value_length h)) (drop (Z.to_nat (eh_key_length h)) (drop (Z.to_nat fhs) d)) = value).
  { rewrite <- Ev. unfold slice. rewrite drop_drop. f_equal; [lia|]. f_equal. lia. }
  by rewrite Hkey, Hval, Hver.
Qed.

(** ** The header across updates and crashes *)

Definition eh_total_length_bound (key value : bytes) : Z :=
  FIXED_HEADER_SIZE + 64 + zlen key + zlen value.

(** [h] is what the next open finds, in the slot the writer believes active. *)
Record durable (aw : AppendWriter) (h : FileHeader) : Prop := {
  du_disk : read_active_header (aw_file aw) = Ok (h, aw_active_slot aw);
  du_seq : fh_sequence (aw_file_header aw) = fh_sequence h;
  du_disk_wf : FileHeader_wf h;
  du_disk_algo : hash_length (fh_hash_algo h) = 32;
  du_mem_wf : FileHeader_wf (aw_file_header aw);
  du_tail : HEADER_REGION_SIZE <= aw_current_offset aw;
}.

(** What can happen to a writer; the second component is the header last
    committed.  A crash tears the update of the inactive slot, or happens between
    operations; the database is then opened again. *)
Inductive hdr_step : AppendWriter * FileHeader -> AppendWriter * FileHeader -> Prop :=
| step_commit aw c h aw' :
    FileHeader_wf h -> hash_length (fh_hash_algo h) = 32 -> fh_sequence c < u64_max ->
    update_header aw h = Ok aw' -> hdr_step (aw, c) (aw', aw_file_header aw')
| step_append now aw c t key value fl comp ver r aw' :
    is_i64 now -> aw_current_offset aw + eh_total_length_bound key value < 2^64 ->
    append_entry_with_compression_and_version now aw t key value fl comp ver = Ok (r, aw') ->
    hdr_step (aw, c) (aw', c)
| step_memory aw c h :
    FileHeader_wf h -> fh_sequence h = fh_sequence (aw_file_header aw) ->
    hdr_step (aw, c) (set_header_in_memory aw h, c)
| step_crash aw c aw' :
    AppendWriter_open (aw_file aw) = Ok aw' -> hdr_step (aw, c) (aw', c)
| step_torn aw c torn e aw' :
    zlen torn = FILE_HEADER_SIZE -> FileHeader_deserialize torn = Err e ->
    AppendWriter_open (file_write (aw_file aw) (inactive_slot_offset (aw_active_slot aw)) torn) = Ok aw' ->
    hdr_step (aw, c) (aw', c).

Lemma with_updated_at_wf h z : FileHeader_wf h -> is_i64 z -> FileHeader_wf (with_updated_at h z).
Proof. intros [] Hz. by constructor. Qed.

Lemma with_entry_count_wf h z : FileHeader_wf h -> is_u64 z -> FileHeader_wf (with_entry_count h z).
Proof. intros [] Hz. by constructor. Qed.

Lemma is_i64_max a b : is_i64 a -> is_i64 b -> is_i64 (Z.max a b).
Proof. unfold is_i64. lia. Qed.

(** Writes into the data region do not touch the header slots. *)
Lemma read_active_header_data file off x h s :
  HEADER_REGION_SIZE <= off -> read_active_header file = Ok (h, s) ->
  read_active_header (file_write file off x) = Ok (h, s).
Proof.
  intros Ho Hr. destruct (read_active_header_slot _ _ _ Hr) as [_ Hf].
  unfold HEADER_REGION_SIZE, FILE_HEADER_SIZE in *. rewrite <- Hr. unfold read_active_header, FILE_HEADER_SIZE.
  by rewrite !file_read_write_before by lia.
Qed.

Lemma durable_open file h s aw :
  read_active_header file = Ok (h, s) -> FileHeader_wf h -> hash_length (fh_hash_algo h) = 32 ->
  AppendWriter_open file = Ok aw -> durable aw h /\ aw_file_header aw = h /\ aw_file aw = file.
Proof.
  intros Hr Hwf Ha Ho. unfold AppendWriter_open in Ho. rewrite Hr, bind_ret in Ho.
  injection Ho as <-. split; [|done]. split; simpl; try done.
  by destruct (read_active_header_slot _ _ _ Hr).
Qed.

Lemma durable_append now aw c t key value fl comp ver r aw' :
  durable aw c -> is_i64 now -> aw_current_offset aw + eh_total_length_bound key value < 2^64 ->
  append_entry_with_compression_and_version now aw t key value fl comp ver = Ok (r, aw') ->
  durable aw' c.
Proof.
  intros [Hdisk Hseq Hwf Ha Hmem Htail] Hnow Hmax E.
  assert (0 <= aw_current_offset aw) by (unfold HEADER_REGION_SIZE, FILE_HEADER_SIZE in Htail; lia).
  unfold append_entry_with_compression_and_version in E. cbv zeta in E.
  apply bind_Ok in E as (hash & _ & E). apply bind_Ok in E as (total & Et & E).
  unfold next_entry_timestamp in E. cbv zeta in E. injection E as <- <-.
  rewrite write_entry_bytes_eq by done. split; cbn [aw_file aw_file_header aw_current_offset with_header aw_active_slot].
  - by apply read_active_header_data.
  - done.
  - done.
  - done.
  - apply with_entry_count_wf; [apply with_updated_at_wf|]; [done| |apply Z.mod_pos_bound; lia].
    apply next_timestamp_range; [done|apply Hmem].
  - pose proof Et as Et0. unfold compute_total_length in Et. apply if_Err_Ok in Et as [Hk%Z.ltb_ge Et].
    apply if_Err_Ok in Et as [Hv%Z.ltb_ge _].
    destruct (compute_total_length_ok (fh_hash_algo (aw_file_header aw)) (zlen key) (zlen value)) as (Et' & Hu & _).
    { pose proof (zlen_nonneg key). lia. } { pose proof (zlen_nonneg value). lia. }
    assert (total = FIXED_HEADER_SIZE + hash_length (fh_hash_algo (aw_file_header aw)) + zlen key + zlen value) as -> by (apply Ok_inj; by rewrite <- Et0, <- Et').
    assert (0 < hash_length (fh_hash_algo (aw_file_header aw)) <= 64) by (generalize (fh_hash_algo (aw_file_header aw)); intros []; simpl; lia).
    unfold wrap64, is_u32, eh_total_length_bound in *. rewrite Z.mod_small by lia. lia.
Qed.

Lemma durable_commit aw c h aw' :
  durable aw c -> FileHeader_wf h -> hash_length (fh_hash_algo h) = 32 -> fh_sequence c < u64_max ->
  update_header aw h = Ok aw' -> durable aw' (aw_file_header aw').
Proof.
  intros [Hdisk Hseq Hwf Ha Hmem Htail] Hh Hha Hmax E. unfold update_header in E. cbv zeta in E.
  set (new := with_updated_at _ _) in E.
  assert (Hnew : FileHeader_wf new).
  { apply with_updated_at_wf; [apply with_sequence_wf; [done|apply Hmem]|].
    apply is_i64_max; [apply Hh|apply Hmem]. }
  destruct (write_header_ok _ _ _ new Hdisk Hnew) as (bs & Hz & Hd & Ew); [done..|].
  rewrite Ew, bind_ret in E. cbv beta iota in E. injection E as <-.
  pose proof (read_active_header_overwrite _ _ _ _ Hdisk Hz) as Hr. rewrite Hd in Hr.
  destruct (read_active_header_slot _ _ _ Hdisk) as [Hslot _].
  assert (Hs : fh_sequence (with_sequence new (fh_sequence c + 1)) = fh_sequence c + 1) by done.
  rewrite Hs, (proj2 (Z.leb_gt _ _)), (proj2 (Z.ltb_ge _ _)) in Hr by lia.
  assert (Hseq' : is_u64 (fh_sequence c + 1))
    by (pose proof (wf_fh_sequence _ Hwf); unfold is_u64 in *; lia).
  split; cbn [aw_file aw_file_header aw_active_slot aw_current_offset].
  - rewrite Hr. destruct Hslot as [-> | ->]; reflexivity.
  - reflexivity.
  - by apply with_sequence_wf.
  - exact Hha.
  - by apply with_sequence_wf.
  - exact Htail.
Qed.

Lemma durable_step s s' : hdr_step s s' -> durable s.1 s.2 -> durable s'.1 s'.2.
Proof.
  destruct 1 as [aw c h aw' Hh Ha Hmax E|now aw c t key value fl comp ver r aw' Hnow Hmax E
    |aw c h Hh Hseq|aw c aw' E|aw c torn e aw' Hz Hd E]; cbn [fst snd]; intros Hdu.
  - by eapply durable_commit.
  - by eapply durable_append.
  - destruct Hdu as [Hdisk Hs Hwf Ha Hmem Htail]. split; simpl; try done.
    { by rewrite Hseq. }
    apply with_updated_at_wf; [done|]. apply is_i64_max; [apply Hh|apply Hmem].
  - eapply durable_open; [apply Hdu..|done].
  - destruct Hdu as [Hdisk Hs Hwf Ha Hmem Htail].
    pose proof (read_active_header_overwrite _ _ _ _ Hdisk Hz) as Hr. rewrite Hd in Hr.
    by eapply (durable_open _ _ _ aw').
Qed.

Lemma FileHeader_new_wf now : is_i64 now -> FileHeader_wf (FileHeader_new now Blake3_256).
Proof. intros Hnow. by constructor. Qed.

Lemma create_ok now :
  is_i64 now -> exists aw, AppendWriter_create now = Ok aw /\ durable aw (aw_file_header aw)
    /\ aw_file_header aw = with_sequence (FileHeader_new now Blake3_256) 1.
Proof.
  intros Hnow. pose proof (FileHeader_new_wf now Hnow) as Hwf. unfold AppendWriter_create.
  destruct (write_initial_header_ok [] _ Hwf eq_refl) as (file & -> & Hr & Hf).
  rewrite bind_ret. eexists. split; [done|]. split; [|done]. split; simpl; try done.
  all: by apply with_sequence_wf.
Qed.

(** C8. Whatever sequence of header updates, appends, in-memory header changes,
    crashes and torn header writes a database goes through after it is created,
    opening the file finds the header that was last committed. *)
Theorem committed_header_survives now aw0 aw c :
  is_i64 now -> AppendWriter_create now = Ok aw0 ->
  rtc hdr_step (aw0, aw_file_header aw0) (aw, c) ->
  exists aw', AppendWriter_open (aw_file aw) = Ok aw' /\ aw_file_header aw' = c
    /\ aw_active_slot aw' = aw_active_slot aw.
Proof.
  intros Hnow Hc Hs. destruct (create_ok now Hnow) as (aw1 & Hc' & Hdu & _).
  assert (aw1 = aw0) as -> by (apply Ok_inj; by rewrite <- Hc', <- Hc).
  assert (Hinv : durable aw c).
  { change (durable (aw, c).1 (aw, c).2). revert Hs. generalize (aw, c).
    change (durable (aw0, aw_file_header aw0).1 (aw0, aw_file_header aw0).2) in Hdu. revert Hdu.
    generalize (aw0, aw_file_header aw0). intros s Hdu s' Hs.
    induction Hs; eauto using durable_step. }
  unfold AppendWriter_open. rewrite (du_disk _ _ Hinv), bind_ret. eexists. split; [reflexivity|]. split; reflexivity.
Qed.
End LogProofs.

(** ** Witnesses *)

Definition sample_aw : AppendWriter :=
  {| aw_file := sample_db; aw_file_header := sample_active;
     aw_current_offset := HEADER_REGION_SIZE; aw_active_slot := 0 |}.

Lemma sample_aw_created : @AppendWriter_create crc32_ieee 1700000000000 = Ok sample_aw.
Proof. vm_compute. reflexivity. Qed.

Lemma sample_aw_ok : aw_ok sample_aw.
Proof. constructor; concrete. Qed.

Lemma sample_aw_log : log_at (aw_file sample_aw) HEADER_REGION_SIZE [] (aw_current_offset sample_aw).
Proof.
  split; [reflexivity|]. exists []. exists sample_db. split; [by rewrite app_nil_r|vm_compute; reflexivity].
Qed.

Lemma append_entry_refines_witness :
  exists e off total aw',
    @append_entry_with_compression_and_version blake3_pad 1700000000005 sample_aw Chunk (lit "k") (lit "value")
      Byte.x00 NoCompression Byte.x01 = Ok ((off, total), aw')
    /\ @entry_ok blake3_pad e /\ le_key e = lit "k" /\ le_value e = lit "value"
    /\ eh_entry_type (le_header e) = Chunk /\ eh_flags (le_header e) = Byte.x00
    /\ off = aw_current_offset sample_aw /\ total = eh_total_length (le_header e)
    /\ log_at (aw_file aw') HEADER_REGION_SIZE ([] ++ [e]) (aw_current_offset aw')
    /\ fh_updated_at (aw_file_header aw') = eh_timestamp (le_header e).
Proof.
  apply (@append_entry_refines blake3_pad 1700000000005 sample_aw Chunk (lit "k") (lit "value")
    Byte.x00 NoCompression Byte.x01 HEADER_REGION_SIZE []).
  - exact sample_aw_ok.
  - concrete.
  - concrete.
  - concrete.
  - concrete.
  - vm_compute. reflexivity.
  - exact sample_aw_log.
Defined.

(** One verified entry at byte 10 of a file. *)
Definition sample_entry : LogEntry :=
  {| le_header := sample_header; le_key := [z2b 7]; le_value := [z2b 8; z2b 9] |}.
Definition sample_log_file : bytes := zeros 10 ++ entry_bytes sample_entry.

Lemma sample_entry_ok : @entry_ok blake3_pad sample_entry.
Proof. constructor; [constructor; concrete|..]; vm_compute; reflexivity. Qed.

Lemma sample_log_at : log_at sample_log_file 10 [sample_entry] 76.
Proof. split; [vm_compute; reflexivity|]. exists []. exists (zeros 10). split; [vm_compute; reflexivity|reflexivity]. Qed.

Lemma log_entries_readable_witness :
  @read_entry_at_opt blake3_pad sample_log_file 10 true = Ok (sample_header, [z2b 7], [z2b 8; z2b 9])
  /\ @read_entry_at_shared_opt blake3_pad sample_log_file 10 true = Ok (sample_header, [z2b 7], [z2b 8; z2b 9]).
Proof.
  exact (@log_entries_readable blake3_pad sample_log_file 10 [sample_entry] 76 0 sample_entry true
    sample_log_at (proj2 (Forall_singleton _ _) sample_entry_ok) eq_refl).
Defined.

(** A header that decodes and whose total length is shorter than itself. *)
Definition short_header : EntryHeader :=
  {| eh_entry_version := Byte.x01; eh_entry_type := Chunk; eh_flags := Byte.x00;
     eh_hash_algo := Blake3_256; eh_compression_algo := NoCompression; eh_encryption_algo := Byte.x00;
     eh_key_length := 1; eh_value_length := 2; eh_timestamp := 0; eh_total_length := 0;
     eh_hash := zeros 32 |}.

Lemma short_header_wf : EntryHeader_wf short_header.
Proof. constructor; concrete. Qed.

Lemma shared_read_short_total_panics_witness :
  @read_entry_at_shared_opt blake3_pad (EntryHeader_serialize short_header ++ []) 0 true = Panic.
Proof.
  apply (@shared_read_short_total_panics blake3_pad _ 0 short_header [] true).
  - exists []. split; reflexivity.
  - exact short_header_wf.
  - vm_compute. reflexivity.
Defined.

Lemma shared_read_refines_witness :
  @read_entry_at_opt blake3_pad sample_log_file 10 true = Ok (sample_header, [z2b 7], [z2b 8; z2b 9]).
Proof.
  apply (@shared_read_refines blake3_pad sample_log_file 10 true); [lia|]. vm_compute. reflexivity.
Defined.

(** A commit and then a crash between operations. *)
Definition sample_committed : AppendWriter :=
  match @update_header crc32_ieee sample_aw sample_active with Ok aw => aw | _ => sample_aw end.

Lemma committed_header_survives_witness :
  exists aw', @AppendWriter_open crc32_ieee (aw_file sample_committed) = Ok aw'
    /\ aw_file_header aw' = aw_file_header sample_committed
    /\ aw_active_slot aw' = aw_active_slot sample_committed.
Proof.
  apply (@committed_header_survives crc32_ieee blake3_pad 1700000000000 sample_aw sample_committed
    (aw_file_header sample_committed)).
  - concrete.
  - exact sample_aw_created.
  - apply rtc_once. apply (step_commit sample_aw sample_active sample_active sample_committed).
    + exact sample_active_wf.
    + reflexivity.
    + vm_compute. reflexivity.
    + vm_compute. reflexivity.
Defined.
