(* ===== verification/EntryScanner.v ===== *)
(** Scanning the log (src/aeordb-lib/src/engine/entry_scanner.rs): the iterator
    over the entries between the end of the header or KV block and the hot tail,
    with recovery from damaged entries, and its variant for index rebuilds. *)
From S2P Require Import Prelude Codec EntryFormat KvPages FileIo FileHeader AppendWriter.

Local Open Scope Z_scope.

Record EntryScanner := {
  sc_file : bytes;
  sc_current_offset : Z;
  sc_file_length : Z;
  sc_report_errors : bool;
  sc_last_skipped_region : option (Z * Z);
  sc_skipped_regions : list (Z * Z);
}.

Record ScannedEntry := {
  se_offset : Z;
  se_header : EntryHeader;
  se_key : bytes;
  se_value : bytes;
}.

Record ScannedRebuildEntry := {
  sr_offset : Z;
  sr_header : EntryHeader;
  sr_key : bytes;
  sr_value : option bytes;
}.

Definition with_offset (sc : EntryScanner) (offset : Z) : EntryScanner :=
  {| sc_file := sc_file sc; sc_current_offset := offset; sc_file_length := sc_file_length sc;
     sc_report_errors := sc_report_errors sc;
     sc_last_skipped_region := sc_last_skipped_region sc;
     sc_skipped_regions := sc_skipped_regions sc |}.

Definition record_skipped_region (sc : EntryScanner) (offset length : Z) : EntryScanner :=
  {| sc_file := sc_file sc; sc_current_offset := sc_current_offset sc;
     sc_file_length := sc_file_length sc; sc_report_errors := sc_report_errors sc;
     sc_last_skipped_region := Some (offset, length);
     sc_skipped_regions := sc_skipped_regions sc ++ [(offset, length)] |}.

Section Scanner.
Context `{Crc32, Blake3}.

(** Where the log starts and ends, from the active header. *)
Definition scan_range (file : bytes) (header : FileHeader) (dirty_recovery : bool) : Z * Z :=
  let header_end := HEADER_REGION_SIZE in
  if (0 <? fh_kv_block_offset header) && (0 <? fh_kv_block_length header) then
    if fh_kv_block_offset header =? header_end then
      let start := wrap64 (fh_kv_block_offset header + fh_kv_block_length header) in
      let stop :=
        if dirty_recovery then zlen file
        else if start <? fh_hot_tail_offset header then fh_hot_tail_offset header
        else zlen file in
      (start, stop)
    else (header_end, fh_kv_block_offset header)
  else
    let stop :=
      if dirty_recovery then zlen file
      else if 0 <? fh_hot_tail_offset header then fh_hot_tail_offset header
      else zlen file in
    (header_end, stop).

Definition EntryScanner_new_internal (file : bytes) (report_errors dirty_recovery : bool) : res EntryScanner :=
  '(header, _) ← read_active_header file;
  let '(start_offset, file_length) := scan_range file header dirty_recovery in
  Ok {| sc_file := file; sc_current_offset := start_offset; sc_file_length := file_length;
        sc_report_errors := report_errors; sc_last_skipped_region := None;
        sc_skipped_regions := [] |}.

Definition EntryScanner_new (file : bytes) : res EntryScanner :=
  EntryScanner_new_internal file false false.
Definition EntryScanner_new_reporting (file : bytes) : res EntryScanner :=
  EntryScanner_new_internal file true false.
Definition EntryScanner_new_dirty_recovery (file : bytes) : res EntryScanner :=
  EntryScanner_new_internal file true true.

(** [EntryHeader::deserialize] after a seek. *)
Definition header_at (file : bytes) (offset : Z) : res (EntryHeader * bytes) :=
  EntryHeader_deserialize (drop (Z.to_nat offset) file).

(** The search loop: [n] window positions left from index [i] on. *)
Fixpoint magic_loop (n : nat) (sc : EntryScanner) (start : Z) (buffer : bytes) (i : Z) : option (Z * Z) :=
  match n with
  | O => None
  | S n =>
    let next := magic_loop n sc start buffer (i + 1) in
    if bool_decide (slice buffer i (i + 4) = u32_le ENTRY_MAGIC) then
      let candidate_offset := start + i in
      match header_at (sc_file sc) candidate_offset with
      | Ok (header, _) =>
        let remaining := sc_file_length sc - candidate_offset in
        if (eh_total_length header <=? remaining) && (0 <? eh_total_length header)
        then Some (candidate_offset, candidate_offset - start + 1)
        else next
      | _ => next
      end
    else next
  end.

(** The search window is 1 MB; past the end of the file it is what is there. *)
Definition scan_for_next_magic (sc : EntryScanner) (start : Z) : option (Z * Z) :=
  let max_scan := 1048576 in
  let stop := Z.min (start + max_scan) (sc_file_length sc) in
  let window_size := stop - start in
  if window_size <? 4 then None else
  let buffer := slice (sc_file sc) start stop in
  magic_loop (Z.to_nat (saturating_sub (zlen buffer) 3)) sc start buffer 0.

(** One round of a scanning loop: it returns an item ([None] ends the scan) or
    goes round again. *)
Inductive round (A : Type) :=
| Return (item : option (res A)) (sc : EntryScanner)
| Continue (sc : EntryScanner).
Arguments Return {A} item sc.
Arguments Continue {A} sc.

(** [if self.report_errors { return Some(Err(..)) } continue]. *)
Definition report {A} (sc : EntryScanner) (e : EngineError) : round A :=
  if sc_report_errors sc then Return (Some (Err e)) sc else Continue sc.

(** The recovery both loops run on a header that does not decode. *)
Definition recover {A} (sc : EntryScanner) (entry_offset : Z) : round A :=
  match scan_for_next_magic sc (entry_offset + 1) with
  | Some (next_offset, skipped_bytes) =>
    let sc := record_skipped_region sc entry_offset skipped_bytes in
    let sc := with_offset sc next_offset in
    report sc (CorruptEntry entry_offset "Corrupt header: {}")
  | None =>
    Return None (record_skipped_region sc entry_offset (sc_file_length sc - entry_offset))
  end.

Definition next_rebuild_round (sc : EntryScanner) : round ScannedRebuildEntry :=
  if sc_file_length sc <=? sc_current_offset sc then Return None sc else
  let entry_offset := sc_current_offset sc in
  match header_at (sc_file sc) entry_offset with
  | Panic => Return (Some Panic) sc
  | Err UnexpectedEof => Return None sc
  | Err _ => recover sc entry_offset
  | Ok (header, stream) =>
    let payload_size := eh_key_length header + eh_value_length header in
    if negb (eh_total_length header =? header_size header + payload_size) then
      report (with_offset sc (entry_offset + Z.max (eh_total_length header) 1))
        (CorruptEntry entry_offset "Corrupt header: key_length ({}) + value_length ({}) + header ({}) does not equal total_length ({})")
    else
    let entry_end := entry_offset + eh_total_length header in
    if sc_file_length sc <? entry_end then
      let sc := with_offset sc (sc_file_length sc) in
      if sc_report_errors sc
      then Return (Some (Err (CorruptEntry entry_offset "entry extends past scan end: {} > {}"))) sc
      else Return None sc
    else
    match read_exact (eh_key_length header) stream with
    | Ok (key, stream) =>
      if negb (bool_decide (eh_entry_type header = Chunk \/ eh_entry_type header = Void)) then
        match read_exact (eh_value_length header) stream with
        | Ok (value, _) =>
          if negb (verify header key value) then
            report (with_offset sc entry_end) (CorruptEntry entry_offset "Hash verification failed")
          else
          Return (Some (Ok {| sr_offset := entry_offset; sr_header := header; sr_key := key;
                              sr_value := Some value |})) (with_offset sc entry_end)
        | _ =>
          let sc := record_skipped_region sc entry_offset (eh_total_length header) in
          report (with_offset sc entry_end) (CorruptEntry entry_offset "IO error reading value: {}")
        end
      else
      Return (Some (Ok {| sr_offset := entry_offset; sr_header := header; sr_key := key;
                          sr_value := None |})) (with_offset sc entry_end)
    | _ =>
      let sc := record_skipped_region sc entry_offset (eh_total_length header) in
      report (with_offset sc entry_end) (CorruptEntry entry_offset "IO error reading key: {}")
    end
  end.

Definition next_round (sc : EntryScanner) : round ScannedEntry :=
  if sc_file_length sc <=? sc_current_offset sc then Return None sc else
  let entry_offset := sc_current_offset sc in
  match header_at (sc_file sc) entry_offset with
  | Panic => Return (Some Panic) sc
  | Err UnexpectedEof => Return None sc
  | Err _ => recover sc entry_offset
  | Ok (header, stream) =>
    let entry_end := entry_offset + eh_total_length header in
    if negb (payload_fits header) then
      report (with_offset sc entry_end)
        (CorruptEntry entry_offset "Corrupt header: key_length ({}) + value_length ({}) exceeds total_length ({})")
    else
    match read_exact (eh_key_length header) stream with
    | Ok (key, stream) =>
      match read_exact (eh_value_length header) stream with
      | Ok (value, _) =>
        if negb (verify header key value) then
          report (with_offset sc entry_end) (CorruptEntry entry_offset "Hash verification failed")
        else
        Return (Some (Ok {| se_offset := entry_offset; se_header := header; se_key := key;
                            se_value := value |})) (with_offset sc entry_end)
      | _ =>
        let sc := record_skipped_region sc entry_offset (eh_total_length header) in
        report (with_offset sc entry_end) (CorruptEntry entry_offset "IO error reading value: {}")
      end
    | _ =>
      let sc := record_skipped_region sc entry_offset (eh_total_length header) in
      report (with_offset sc entry_end) (CorruptEntry entry_offset "IO error reading key: {}")
    end
  end.

(** [loop { .. }], with fuel; [None] when it runs out. *)
Fixpoint run_loop {A} (round_of : EntryScanner -> round A) (fuel : nat) (sc : EntryScanner)
    : option (option (res A) * EntryScanner) :=
  match fuel with
  | O => None
  | S fuel =>
    match round_of sc with
    | Return item sc => Some (item, sc)
    | Continue sc => run_loop round_of fuel sc
    end
  end.

Definition EntryScanner_next (fuel : nat) (sc : EntryScanner) : option (option (res ScannedEntry) * EntryScanner) :=
  run_loop next_round fuel sc.

Definition next_rebuild_entry (fuel : nat) (sc : EntryScanner)
    : option (option (res ScannedRebuildEntry) * EntryScanner) :=
  run_loop next_rebuild_round fuel sc.

(** The items of a [for] loop over the iterator, at most [n] of them. *)
Fixpoint collect {A} (next : EntryScanner -> option (option (res A) * EntryScanner)) (n : nat)
    (sc : EntryScanner) : option (list (res A)) :=
  match n with
  | O => None
  | S n =>
    match next sc with
    | None => None
    | Some (None, _) => Some []
    | Some (Some item, sc) =>
      match collect next n sc with Some items => Some (item :: items) | None => None end
    end
  end.
End Scanner.
Arguments Return {A} item sc.
Arguments Continue {A} sc.

(** ** A clean scan returns the log *)

(** The items a scan of the log should yield. *)
Fixpoint scanned (start : Z) (log : list LogEntry) : list ScannedEntry :=
  match log with
  | [] => []
  | e :: log =>
    {| se_offset := start; se_header := le_header e; se_key := le_key e; se_value := le_value e |}
    :: scanned (start + zlen (entry_bytes e)) log
  end.

(** For an index rebuild the payloads of chunks and voids are skipped. *)
Fixpoint scanned_rebuild (start : Z) (log : list LogEntry) : list ScannedRebuildEntry :=
  match log with
  | [] => []
  | e :: log =>
    {| sr_offset := start; sr_header := le_header e; sr_key := le_key e;
       sr_value := if bool_decide (eh_entry_type (le_header e) = Chunk \/ eh_entry_type (le_header e) = Void)
                   then None else Some (le_value e) |}
    :: scanned_rebuild (start + zlen (entry_bytes e)) log
  end.

Section ScannerProofs.
Context `{Crc32, Blake3}.

Lemma entry_bytes_pos e : entry_ok e -> 0 < zlen (entry_bytes e).
Proof.
  intros He. unfold entry_bytes. rewrite zlen_app, zlen_EntryHeader_serialize by apply He.
  pose proof (hash_length_pos (eh_hash_algo (le_header e))). unfold header_size, FIXED_HEADER_SIZE. zlen_lia.
Qed.

Lemma header_at_entry file off e rest :
  suffix_at file off (entry_bytes e ++ rest) -> entry_ok e ->
  header_at file off = Ok (le_header e, le_key e ++ le_value e ++ rest).
Proof.
  intros Hs He. unfold header_at. rewrite (suffix_at_drop _ _ _ Hs). unfold entry_bytes.
  rewrite <- !app_assoc. apply EntryHeader_decode_encode, He.
Qed.

Lemma next_round_entry sc e rest :
  suffix_at (sc_file sc) (sc_current_offset sc) (entry_bytes e ++ rest) -> entry_ok e ->
  sc_current_offset sc < sc_file_length sc ->
  next_round sc = Return (Some (Ok {| se_offset := sc_current_offset sc; se_header := le_header e;
                                      se_key := le_key e; se_value := le_value e |}))
                         (with_offset sc (sc_current_offset sc + zlen (entry_bytes e))).
Proof.
  intros Hs He Hlt. unfold next_round. rewrite (proj2 (Z.leb_gt _ _)) by done.
  rewrite (header_at_entry _ _ _ _ Hs He). cbv zeta iota.
  rewrite (entry_ok_payload_fits e He). simpl negb. cbv iota.
  rewrite !read_exact_app by (symmetry; apply He).
  rewrite (ok_verify _ He), (ok_total _ He). done.
Qed.

Lemma next_rebuild_round_entry sc e rest :
  suffix_at (sc_file sc) (sc_current_offset sc) (entry_bytes e ++ rest) -> entry_ok e ->
  sc_current_offset sc + zlen (entry_bytes e) <= sc_file_length sc ->
  next_rebuild_round sc =
    Return (Some (Ok {| sr_offset := sc_current_offset sc; sr_header := le_header e; sr_key := le_key e;
        sr_value := if bool_decide (eh_entry_type (le_header e) = Chunk \/ eh_entry_type (le_header e) = Void)
                    then None else Some (le_value e) |}))
      (with_offset sc (sc_current_offset sc + zlen (entry_bytes e))).
Proof.
  intros Hs He Hlt. pose proof (entry_bytes_pos e He). unfold next_rebuild_round.
  rewrite (proj2 (Z.leb_gt _ _)) by lia.
  rewrite (header_at_entry _ _ _ _ Hs He). cbv zeta iota.
  rewrite (proj2 (Z.eqb_eq _ _)).
  2: { rewrite (entry_ok_total e He), (ok_key _ He), (ok_value _ He). lia. }
  simpl negb. cbv iota. rewrite (ok_total _ He), (proj2 (Z.ltb_ge _ _)) by done.
  rewrite !read_exact_app by (symmetry; apply He).
  destruct (bool_decide (_ \/ _)); simpl negb; cbv iota; [done|].
  by rewrite (ok_verify _ He).
Qed.

Lemma collect_S {A} (next : EntryScanner -> option (option (res A) * EntryScanner)) n sc :
  collect next (S n) sc =
    match next sc with
    | None => None
    | Some (None, _) => Some []
    | Some (Some item, sc) =>
      match collect next n sc with Some items => Some (item :: items) | None => None end
    end.
Proof. done. Qed.

(** Both loops walk a laid-out log to its end. *)
Lemma collect_log {A} (next : EntryScanner -> option (option (res A) * EntryScanner))
    (item : Z -> LogEntry -> A) (items : Z -> list LogEntry -> list A) log :
  (forall start, items start [] = []) ->
  (forall start e log, items start (e :: log) = item start e :: items (start + zlen (entry_bytes e)) log) ->
  (forall sc, sc_file_length sc <= sc_current_offset sc -> next sc = Some (None, sc)) ->
  (forall sc e rest, suffix_at (sc_file sc) (sc_current_offset sc) (entry_bytes e ++ rest) -> entry_ok e ->
     sc_current_offset sc + zlen (entry_bytes e) <= sc_file_length sc ->
     next sc = Some (Some (Ok (item (sc_current_offset sc) e)),
                     with_offset sc (sc_current_offset sc + zlen (entry_bytes e)))) ->
  forall sc, log_at (sc_file sc) (sc_current_offset sc) log (sc_file_length sc) -> Forall entry_ok log ->
  collect next (S (length log)) sc = Some (Ok <$> items (sc_current_offset sc) log).
Proof.
  intros Hnil Hcons Hend Hone. induction log as [|e log IH]; intros sc [Hstop [rest Hs]] Hall.
  - cbn [collect length]. rewrite Hend, Hnil; [done|]. rewrite Hstop. simpl. zlen_lia.
  - apply Forall_cons in Hall as [He Hall]. cbn [fmap list_fmap concat] in Hs, Hstop.
    rewrite <- app_assoc in Hs. rewrite zlen_app in Hstop.
    change (length (e :: log)) with (S (length log)). rewrite collect_S.
    rewrite (Hone _ _ _ Hs He) by zlen_lia.
    rewrite IH; [by rewrite Hcons| |done]. split; [simpl; lia|].
    exists rest. simpl. by eapply suffix_at_app in Hs.
Qed.

Lemma next_Return {A} (round_of : EntryScanner -> round A) fuel sc item sc' :
  round_of sc = Return item sc' -> run_loop round_of (S fuel) sc = Some (item, sc').
Proof. intros E. cbn [run_loop]. by rewrite E. Qed.

(** C24. Scanning a log that ends where the scan ends yields its entries, in order,
    each with its offset, and no error; one round per entry is enough.  The
    rebuild scan yields the same entries without the chunk and void payloads. *)
Theorem scan_returns_log log sc fuel :
  log_at (sc_file sc) (sc_current_offset sc) log (sc_file_length sc) -> Forall entry_ok log ->
  collect (EntryScanner_next (S fuel)) (S (length log)) sc
    = Some (Ok <$> scanned (sc_current_offset sc) log)
  /\ collect (next_rebuild_entry (S fuel)) (S (length log)) sc
    = Some (Ok <$> scanned_rebuild (sc_current_offset sc) log).
Proof.
  intros Hlog Hall. split.
  - eapply collect_log; [done..| | |done|done].
    + intros sc0 Hle. apply next_Return. unfold next_round. by rewrite (proj2 (Z.leb_le _ _)).
    + intros sc0 e rest Hs He Hle. pose proof (entry_bytes_pos e He). apply next_Return.
      apply (next_round_entry _ _ _ Hs He). lia.
  - eapply collect_log; [done..| | |done|done].
    + intros sc0 Hle. apply next_Return. unfold next_rebuild_round. by rewrite (proj2 (Z.leb_le _ _)).
    + intros sc0 e rest Hs He Hle. apply next_Return. by apply (next_rebuild_round_entry _ _ rest).
Qed.

(** ** The rebuild scan terminates on any file *)

(** A round that goes on, or yields an item, moves forward; the file and the end
    of the scan stay. *)
Definition advances (sc sc' : EntryScanner) : Prop :=
  sc_current_offset sc < sc_current_offset sc' /\ sc_file_length sc' = sc_file_length sc
  /\ sc_file sc' = sc_file sc.

Definition round_advances {A} (sc : EntryScanner) (r : round A) : Prop :=
  match r with
  | Return None _ => True
  | Return (Some _) sc' | Continue sc' => advances sc sc'
  end.

Lemma report_advances {A} sc sc' e : advances sc sc' -> round_advances sc (@report A sc' e).
Proof. unfold report. by destruct (sc_report_errors sc'). Qed.

Lemma magic_loop_ge n : forall sc start buffer i o k,
  magic_loop n sc start buffer i = Some (o, k) -> start + i <= o.
Proof.
  induction n as [|n IH]; intros sc start buffer i o k; [done|]. cbn [magic_loop]. cbv zeta.
  assert (Hrec : magic_loop n sc start buffer (i + 1) = Some (o, k) -> start + i <= o)
    by (intros ?%IH; lia).
  case_match; [|done]. destruct (header_at _ _) as [[h s]| |]; [|done..].
  case_match; [|done]. intros [= <- <-]. lia.
Qed.

Lemma recover_advances {A} sc : round_advances sc (@recover A sc (sc_current_offset sc)).
Proof.
  unfold recover. destruct (scan_for_next_magic _ _) as [[o k]|] eqn:E; [|done].
  apply report_advances. split; [|done]. simpl. unfold scan_for_next_magic in E.
  cbv zeta in E. case_match; [done|]. apply magic_loop_ge in E. lia.
Qed.

Lemma next_rebuild_round_advances sc : round_advances sc (next_rebuild_round sc).
Proof.
  unfold next_rebuild_round. destruct (Z.leb_spec (sc_file_length sc) (sc_current_offset sc)); [done|].
  cbv zeta. destruct (header_at _ _) as [[h stream]|e|] eqn:E.
  3: by apply EntryHeader_deserialize_safe in E.
  2: destruct e; try apply recover_advances; done.
  apply EntryHeader_encode_decode in E as [_ Hwf].
  pose proof (wf_key_length _ Hwf). pose proof (wf_value_length _ Hwf). unfold is_u32 in *.
  pose proof (hash_length_pos (eh_hash_algo h)).
  destruct (Z.eqb_spec (eh_total_length h) (header_size h + (eh_key_length h + eh_value_length h))) as [Ht|].
  2: { apply report_advances. split; [simpl; lia|done]. }
  simpl negb. cbv iota. unfold header_size, FIXED_HEADER_SIZE in Ht.
  assert (Hadv : forall sc0, sc_file_length sc0 = sc_file_length sc -> sc_file sc0 = sc_file sc ->
    advances sc (with_offset sc0 (sc_current_offset sc + eh_total_length h)))
    by (intros; split; [simpl; lia|done]).
  case_match.
  { destruct (sc_report_errors _); [|done]. split; [simpl; lia|done]. }
  destruct (read_exact _ stream) as [[key s1]| |]; [|by apply report_advances, Hadv..].
  case_match; [|by apply Hadv].
  destruct (read_exact _ s1) as [[value s2]| |]; [|by apply report_advances, Hadv..].
  case_match; [by apply report_advances, Hadv|by apply Hadv].
Qed.

Lemma run_loop_terminates {A} (round_of : EntryScanner -> round A) :
  (forall sc, round_advances sc (round_of sc)) ->
  (forall sc, sc_file_length sc <= sc_current_offset sc -> round_of sc = Return None sc) ->
  forall fuel sc, (Z.to_nat (sc_file_length sc - sc_current_offset sc) < fuel)%nat ->
  exists item sc', run_loop round_of fuel sc = Some (item, sc')
    /\ (item = None \/ advances sc sc').
Proof.
  intros Hadv Hend. induction fuel as [|fuel IH]; intros sc Hf; [lia|].
  cbn [run_loop]. specialize (Hadv sc). destruct (round_of sc) as [[item|] sc'|sc'] eqn:E; simpl in Hadv.
  - eexists _, _. split; [done|]. by right.
  - eexists _, _. split; [done|]. by left.
  - destruct (decide (sc_file_length sc <= sc_current_offset sc)) as [Hle|].
    { by rewrite Hend in E. }
    destruct Hadv as (Ho & Hl & Hfi). destruct (IH sc') as (item & sc2 & E2 & Hadv2); [lia|].
    eexists _, _. split; [done|]. destruct Hadv2 as [|(? & ? & ?)]; [by left|right].
    split; [lia|]. split; congruence.
Qed.

(** C34. Whatever the bytes of the file, the rebuild scan ends: with fuel for the
    bytes left, every call of [next_rebuild_entry] returns, and after at most as
    many items as bytes the iteration is over. *)
Theorem rebuild_scan_terminates sc fuel n :
  (Z.to_nat (sc_file_length sc - sc_current_offset sc) < fuel)%nat ->
  (Z.to_nat (sc_file_length sc - sc_current_offset sc) < n)%nat ->
  exists items, collect (next_rebuild_entry fuel) n sc = Some items.
Proof.
  assert (Hend : forall sc, sc_file_length sc <= sc_current_offset sc -> next_rebuild_round sc = Return None sc).
  { intros sc0 Hle. unfold next_rebuild_round. by rewrite (proj2 (Z.leb_le _ _)). }
  revert sc. induction n as [|n IH]; intros sc Hf Hn; [lia|]. rewrite collect_S. unfold next_rebuild_entry at 1.
  destruct (decide (sc_file_length sc <= sc_current_offset sc)) as [Hle|].
  { destruct fuel as [|fuel]; [lia|]. cbn [run_loop]. rewrite Hend by done. eauto. }
  destruct (run_loop_terminates _ next_rebuild_round_advances Hend _ _ Hf) as (item & sc' & -> & Hitem).
  destruct item as [item|]; [|eauto]. destruct Hitem as [|(Ho & Hl & _)]; [done|].
  destruct (IH sc') as [items ->]; [lia|lia|eauto].
Qed.

(** ** The plain iterator does not *)

(** A decodable header with a zero total length and a non-empty payload makes
    [next] go round forever when it skips errors: the offset is advanced by the
    stored total. *)
Theorem scan_zero_total_diverges sc h rest fuel :
  suffix_at (sc_file sc) (sc_current_offset sc) (EntryHeader_serialize h ++ rest) ->
  EntryHeader_wf h -> eh_total_length h = 0 -> 0 < eh_key_length h + eh_value_length h ->
  sc_current_offset sc < sc_file_length sc -> sc_report_errors sc = false ->
  EntryScanner_next fuel sc = None.
Proof.
  intros Hs Hwf Ht Hp Hlt Hrep.
  assert (Hround : next_round sc = Continue sc).
  { unfold next_round. rewrite (proj2 (Z.leb_gt _ _)) by done. unfold header_at.
    rewrite (suffix_at_drop _ _ _ Hs), EntryHeader_decode_encode by done. cbv zeta iota.
    assert (payload_fits h = false) as ->.
    { unfold payload_fits, saturating_sub, header_size, FIXED_HEADER_SIZE.
      pose proof (hash_length_pos (eh_hash_algo h)). rewrite Ht, (proj2 (Z.ltb_lt _ _)) by lia. done. }
    simpl negb. cbv iota. unfold report. simpl. rewrite Hrep, Ht, Z.add_0_r. by destruct sc. }
  unfold EntryScanner_next. induction fuel as [|fuel IH]; [done|]. cbn [run_loop]. by rewrite Hround.
Qed.
End ScannerProofs.

(** ** Witnesses *)

Definition sample_scanner (file : bytes) (start : Z) : EntryScanner :=
  {| sc_file := file; sc_current_offset := start; sc_file_length := zlen file;
     sc_report_errors := false; sc_last_skipped_region := None; sc_skipped_regions := [] |}.

Lemma scan_returns_log_witness :
  let sc := sample_scanner sample_log_file 10 in
  collect (@EntryScanner_next blake3_pad 1) 2 sc = Some (Ok <$> scanned 10 [sample_entry])
  /\ collect (@next_rebuild_entry blake3_pad 1) 2 sc = Some (Ok <$> scanned_rebuild 10 [sample_entry]).
Proof.
  exact (@scan_returns_log blake3_pad [sample_entry] (sample_scanner sample_log_file 10) 0
    sample_log_at (proj2 (Forall_singleton _ _) sample_entry_ok)).
Defined.

Lemma rebuild_scan_terminates_witness :
  exists items, collect (@next_rebuild_entry blake3_pad 20) 20 (sample_scanner (lit "not a log") 0) = Some items.
Proof.
  apply (@rebuild_scan_terminates blake3_pad (sample_scanner (lit "not a log") 0) 20 20); vm_compute; lia.
Defined.

Lemma scan_zero_total_diverges_witness :
  @EntryScanner_next blake3_pad 1000 (sample_scanner (EntryHeader_serialize short_header ++ []) 0) = None.
Proof.
  apply (@scan_zero_total_diverges blake3_pad _ short_header []).
  - exists []. split; reflexivity.
  - exact short_header_wf.
  - reflexivity.
  - reflexivity.
  - vm_compute. reflexivity.
  - reflexivity.
Defined.
