(* ===== verification/KvExpand.v ===== *)
(** Growing the KV block (src/aeordb-lib/src/engine/kv_expand.rs): the log is
    moved forward to make room, the block is zeroed and the header updated. *)
From S2P Require Import Prelude Codec EntryFormat KvEntry KvPages FileIo FileHeader AppendWriter.

Local Open Scope Z_scope.

Definition CHUNK_SIZE : Z := 64 * 1024 * 1024.

(** The log copied from its end, in chunks of [chunk]; fuel for the rounds. *)
Fixpoint relocate_loop (fuel : nat) (chunk : Z) (file : bytes) (wal_start delta remaining : Z) : option (res bytes) :=
  match fuel with
  | O => None
  | S fuel =>
    if remaining <=? 0 then Some (Ok file) else
    let chunk_len := Z.min chunk remaining in
    let src_offset := wal_start + remaining - chunk_len in
    let dst_offset := src_offset + delta in
    match file_read file src_offset chunk_len with
    | Ok buf => relocate_loop fuel chunk (file_write file dst_offset buf) wal_start delta (remaining - chunk_len)
    | Err e => Some (Err e)
    | Panic => Some Panic
    end
  end.

Fixpoint zero_fill_loop (fuel : nat) (zero_buf_len : Z) (file : bytes) (offset zeroed total : Z) : option bytes :=
  match fuel with
  | O => None
  | S fuel =>
    if total <=? zeroed then Some file else
    let chunk := Z.min zero_buf_len (total - zeroed) in
    zero_fill_loop fuel zero_buf_len (file_write file (offset + zeroed) (zeros chunk)) offset
      (zeroed + chunk) total
  end.

(** Rounds of a loop over [total] bytes in chunks of [chunk], and the last test. *)
Definition rounds (total chunk : Z) : nat := S (Z.to_nat ((total + chunk - 1) / chunk)).

Definition with_kv_block (h : FileHeader) (len : Z) (stage target : byte) (hot_tail : Z) : FileHeader :=
  {| fh_header_version := fh_header_version h; fh_hash_algo := fh_hash_algo h;
     fh_sequence := fh_sequence h; fh_created_at := fh_created_at h;
     fh_updated_at := fh_updated_at h; fh_kv_block_offset := fh_kv_block_offset h;
     fh_kv_block_length := len; fh_kv_block_version := fh_kv_block_version h;
     fh_nvt_offset := fh_nvt_offset h; fh_nvt_length := fh_nvt_length h;
     fh_nvt_version := fh_nvt_version h; fh_head_hash := fh_head_hash h;
     fh_entry_count := fh_entry_count h; fh_resize_in_progress := fh_resize_in_progress h;
     fh_buffer_kvs_offset := fh_buffer_kvs_offset h; fh_buffer_nvt_offset := fh_buffer_nvt_offset h;
     fh_hot_tail_offset := hot_tail; fh_kv_block_stage := stage;
     fh_resize_target_stage := target; fh_backup_type := fh_backup_type h;
     fh_base_hash := fh_base_hash h; fh_target_hash := fh_target_hash h |}.

Section Expand.
Context `{Crc32}.

(** The file once the log is moved and the new block zeroed, before the header
    is written; [None] when a loop runs out of fuel. *)
Definition expand_data (file : bytes) (header : FileHeader) (new_block_size : Z) : option (res bytes) :=
  let old_kv_offset := fh_kv_block_offset header in
  let old_kv_length := fh_kv_block_length header in
  let wal_start := old_kv_offset + old_kv_length in
  let wal_end := fh_hot_tail_offset header in
  let wal_size := saturating_sub wal_end wal_start in
  let delta := new_block_size - old_kv_length in
  match relocate_loop (rounds wal_size CHUNK_SIZE) CHUNK_SIZE file wal_start delta wal_size with
  | Some (Ok file) =>
    let zero_buf_len := Z.min 65536 new_block_size in
    match zero_fill_loop (rounds new_block_size zero_buf_len) zero_buf_len file old_kv_offset 0 new_block_size with
    | Some file => Some (Ok file)
    | None => None
    end
  | r => r
  end.

(** The returned triple and the file; the [u64] sums are taken not to overflow. *)
Definition expand_kv_block (file : bytes) (target_stage hash_length : Z)
    : option (res ((Z * Z * Z) * bytes)) :=
  let psize := page_size hash_length in
  let '(new_block_size, _) := stage_params target_stage psize in
  match read_active_header file with
  | Ok (header, active_slot) =>
    let old_kv_length := fh_kv_block_length header in
    if new_block_size <=? old_kv_length
    then Some (Ok ((old_kv_length, b2z (fh_kv_block_stage header), 0), file)) else
    let delta := new_block_size - old_kv_length in
    let old_hot_tail := fh_hot_tail_offset header in
    let new_hot_tail := if old_hot_tail =? 0 then 0 else old_hot_tail + delta in
    match expand_data file header new_block_size with
    | Some (Ok file) =>
      let header := with_kv_block header new_block_size (z2b target_stage) (z2b 0) new_hot_tail in
      Some ('(_, file) ← write_header_to_inactive_slot file header active_slot;
            Ok ((new_block_size, target_stage, delta), file))
    | Some (Err e) => Some (Err e)
    | Some Panic => Some Panic
    | None => None
    end
  | Err e => Some (Err e)
  | Panic => Some Panic
  end.
End Expand.

(** ** The loops *)

(** Bytes before the block's new end are not what is moved. *)
Record relocated (f0 f : bytes) (ws delta sz r : Z) : Prop := {
  rl_left : forall i, 0 <= i < r -> at_ f (ws + i) = at_ f0 (ws + i);
  rl_done : forall i, r <= i < sz -> at_ f (ws + delta + i) = at_ f0 (ws + i);
  rl_low : forall i, 0 <= i < ws -> at_ f i = at_ f0 i;
  rl_len : zlen f0 <= zlen f;
  rl_grown : r < sz -> ws + delta + sz <= zlen f;
}.

Lemma relocate_round f0 f ws delta sz r k buf :
  relocated f0 f ws delta sz r -> 0 <= ws -> 0 < delta -> 0 < k <= r -> r <= sz -> ws + sz <= zlen f0 ->
  file_read f (ws + r - k) k = Ok buf ->
  relocated f0 (file_write f (ws + r - k + delta) buf) ws delta sz (r - k).
Proof.
  intros [Hl Hd Hlow Hlen Hg] Hws Hde Hk Hr Hsz Hbuf.
  unfold file_read in Hbuf. apply if_Err_Ok in Hbuf as [Hb%Z.ltb_ge [= <-]].
  assert (Hz : zlen (slice f (ws + r - k) (ws + r - k + k)) = k) by (rewrite zlen_slice; lia).
  split.
  - intros i Hi. rewrite at_file_write by lia. rewrite decide_True by lia.
    rewrite at_app_l by lia. apply Hl. lia.
  - intros i Hi. rewrite at_file_write by lia. rewrite decide_False by lia. rewrite Hz.
    case_decide.
    + rewrite at_slice by lia. rewrite <- Hl by lia. f_equal. lia.
    + apply Hd. lia.
  - intros i Hi. rewrite at_file_write by lia. rewrite decide_True by lia.
    rewrite at_app_l by lia. by apply Hlow.
  - rewrite zlen_file_write by lia. lia.
  - intros _. rewrite zlen_file_write, Hz by lia. destruct (decide (r = sz)); [lia|].
    specialize (Hg ltac:(lia)). lia.
Qed.

Lemma fuel_step chunk r fuel :
  0 < chunk -> 0 < r -> r <= chunk * (Z.of_nat (S fuel) - 1) ->
  r - Z.min chunk r <= chunk * (Z.of_nat fuel - 1).
Proof. intros. destruct fuel; nia. Qed.

Lemma relocate_loop_spec chunk f0 ws delta sz fuel : forall f r,
  0 < chunk -> 0 <= ws -> 0 < delta -> ws + sz <= zlen f0 -> 0 <= r <= sz ->
  r <= chunk * (Z.of_nat fuel - 1) -> relocated f0 f ws delta sz r ->
  exists f', relocate_loop fuel chunk f ws delta r = Some (Ok f') /\ relocated f0 f' ws delta sz 0.
Proof.
  induction fuel as [|fuel IH]; intros f r Hc Hws Hde Hsz Hr Hfuel Hrel; [lia|].
  cbn [relocate_loop]. cbv zeta. destruct (Z.leb_spec r 0).
  { exists f. split; [done|]. by replace 0 with r by lia. }
  set (k := Z.min chunk r). pose proof (rl_len _ _ _ _ _ _ Hrel).
  assert (Hbuf : file_read f (ws + r - k) k = Ok (slice f (ws + r - k) (ws + r - k + k))).
  { unfold file_read. rewrite (proj2 (Z.ltb_ge _ _)) by lia. done. }
  rewrite Hbuf. apply IH; [lia..|by apply fuel_step|]. by apply relocate_round; try lia.
Qed.

Lemma zero_fill_loop_spec chunk file off total fuel : forall zeroed,
  0 < chunk -> 0 <= off <= zlen file -> 0 <= zeroed <= total ->
  total - zeroed <= chunk * (Z.of_nat fuel - 1) ->
  zero_fill_loop fuel chunk (file_write file off (zeros zeroed)) off zeroed total
    = Some (file_write file off (zeros total)).
Proof.
  induction fuel as [|fuel IH]; intros z Hc Ho Hz Hf; [lia|]. cbn [zero_fill_loop]. cbv zeta.
  destruct (Z.leb_spec total z); [by replace z with total by lia|].
  replace (off + z) with (off + zlen (zeros z)) by (rewrite zlen_zeros; lia).
  rewrite file_write_app, <- zeros_split by lia. apply IH; [lia..|].
  pose proof (fuel_step chunk (total - z) fuel). lia.
Qed.

Lemma rounds_enough total chunk : 0 <= total -> 0 < chunk -> total <= chunk * (Z.of_nat (rounds total chunk) - 1).
Proof.
  intros. unfold rounds. rewrite Nat2Z.inj_succ, Z2Nat.id by (apply Z.div_pos; lia).
  pose proof (Z.div_mod (total + chunk - 1) chunk ltac:(lia)).
  pose proof (Z.mod_pos_bound (total + chunk - 1) chunk ltac:(lia)). lia.
Qed.

(** ** What the expansion does to the file *)

(** A file whose KV block and log lie where its header says. *)
Record layout_ok (file : bytes) (h : FileHeader) : Prop := {
  ly_region : HEADER_REGION_SIZE <= fh_kv_block_offset h;
  ly_wal : fh_kv_block_offset h + fh_kv_block_length h <= fh_hot_tail_offset h;
  ly_len : 0 <= fh_kv_block_length h;
  ly_end : fh_hot_tail_offset h <= zlen file;
}.

Section ExpandProofs.
Context `{Crc32}.

Lemma expand_data_spec file h new_size :
  layout_ok file h -> fh_kv_block_length h < new_size ->
  let ws := fh_kv_block_offset h + fh_kv_block_length h in
  let sz := fh_hot_tail_offset h - ws in
  exists file', expand_data file h new_size = Some (Ok file')
    /\ file_read file' (fh_kv_block_offset h + new_size) sz = file_read file ws sz
    /\ file_read file' (fh_kv_block_offset h) new_size = Ok (zeros new_size)
    /\ (forall i, 0 <= i < fh_kv_block_offset h -> at_ file' i = at_ file i)
    /\ zlen file <= zlen file'.
Proof.
  intros [Hreg Hwal Hlen Hend] Hnew. cbv zeta. unfold HEADER_REGION_SIZE, FILE_HEADER_SIZE in Hreg.
  unfold expand_data. cbv zeta.
  set (ko := fh_kv_block_offset h) in *. set (kl := fh_kv_block_length h) in *.
  set (ht := fh_hot_tail_offset h) in *. set (ws := ko + kl). set (delta := new_size - kl).
  assert (saturating_sub ht ws = ht - ws) as -> by (unfold saturating_sub; lia).
  set (sz := ht - ws).
  destruct (relocate_loop_spec CHUNK_SIZE file ws delta sz (rounds sz CHUNK_SIZE) file sz) as (f1 & -> & Hrel);
    [done|lia..|apply rounds_enough; unfold CHUNK_SIZE; lia|split; intros; first [done|lia]|].
  set (zb := Z.min 65536 new_size). destruct Hrel as [_ Hd Hlow Hl Hg].
  pose proof (zero_fill_loop_spec zb f1 ko new_size (rounds new_size zb) 0) as Hzf.
  change (zeros 0) with (@nil byte) in Hzf. rewrite file_write_nil in Hzf by lia.
  rewrite Hzf; [|lia..|rewrite Z.sub_0_r; apply rounds_enough; lia].
  eexists. split; [done|].
  assert (Hlen' : zlen (file_write f1 ko (zeros new_size)) = Z.max (zlen f1) (ko + new_size))
    by (rewrite zlen_file_write, zlen_zeros by lia; done).
  split_and!.
  - apply file_read_ext; try lia.
    intros i Hi. rewrite at_file_write by lia. rewrite zlen_zeros, !decide_False by lia.
    rewrite <- Hd by lia. f_equal. unfold ws, delta. lia.
  - apply file_read_zeros; [lia..|]. intros i Hi. rewrite at_file_write by lia.
    rewrite decide_False, zlen_zeros, decide_True by lia. apply at_zeros. lia.
  - intros i Hi. rewrite at_file_write by lia. rewrite decide_True by lia.
    rewrite at_app_l by lia. apply Hlow. lia.
  - lia.
Qed.

Lemma read_active_header_ext file file' :
  (forall i, 0 <= i < HEADER_REGION_SIZE -> at_ file' i = at_ file i) ->
  HEADER_REGION_SIZE <= zlen file -> HEADER_REGION_SIZE <= zlen file' ->
  read_active_header file' = read_active_header file.
Proof.
  unfold HEADER_REGION_SIZE, FILE_HEADER_SIZE. intros Heq Hf Hf'. unfold read_active_header, FILE_HEADER_SIZE.
  by rewrite (file_read_ext file' file 0 0 256), (file_read_ext file' file 256 256 256)
    by (try lia; intros; apply Heq; lia).
Qed.

(** What the header says after the expansion. *)
Definition expanded_header (h : FileHeader) (new_size stage : Z) : FileHeader :=
  with_kv_block h new_size (z2b stage) (z2b 0)
    (if fh_hot_tail_offset h =? 0 then 0 else fh_hot_tail_offset h + (new_size - fh_kv_block_length h)).

(** C35. Expanding the KV block terminates and moves the log as a whole: the new
    header, in the other slot, points past the larger zeroed block to a copy of
    the old log bytes, although source and destination may overlap. *)
Theorem expand_kv_block_relocates file stage hl h s new_size buckets :
  read_active_header file = Ok (h, s) -> FileHeader_wf h -> hash_length (fh_hash_algo h) = 32 ->
  fh_sequence h < u64_max -> layout_ok file h ->
  stage_params stage (page_size hl) = (new_size, buckets) -> fh_kv_block_length h < new_size < 2^63 ->
  fh_hot_tail_offset h < 2^63 ->
  let ws := fh_kv_block_offset h + fh_kv_block_length h in
  let sz := fh_hot_tail_offset h - ws in
  exists file',
    expand_kv_block file stage hl = Some (Ok ((new_size, stage, new_size - fh_kv_block_length h), file'))
    /\ read_active_header file' = Ok (with_sequence (expanded_header h new_size stage) (fh_sequence h + 1), 1 - s)
    /\ file_read file' (fh_kv_block_offset h + new_size) sz = file_read file ws sz
    /\ file_read file' (fh_kv_block_offset h) new_size = Ok (zeros new_size).
Proof.
  intros Hr Hwf Ha Hseq Hly Hst Hnew Hht ws sz. unfold expand_kv_block. rewrite Hst, Hr.
  rewrite (proj2 (Z.leb_gt _ _)) by lia. cbv zeta.
  destruct (expand_data_spec file h new_size Hly) as (f1 & -> & Hcopy & Hzero & Hlow & Hlen); [lia|].
  fold ws sz in Hcopy.
  destruct (read_active_header_slot _ _ _ Hr) as [Hslot Hreg]. pose proof (ly_region _ _ Hly) as Hko.
  assert (Hr1 : read_active_header f1 = Ok (h, s)).
  { rewrite <- Hr. apply read_active_header_ext; [|lia..]. intros. apply Hlow. lia. }
  fold (expanded_header h new_size stage). set (new := expanded_header h new_size stage).
  assert (Hn : FileHeader_wf new).
  { destruct Hly. destruct Hwf. constructor; try done; cbn [new expanded_header with_kv_block].
    - cbn. unfold is_u64 in *. lia.
    - cbn. unfold is_u64 in *. case_match; lia. }
  destruct (write_header_ok f1 h s new) as (bs & Hz & Hd & ->); [done..|]. rewrite bind_ret.
  eexists. split; [done|].
  assert (Hoff : 0 <= inactive_slot_offset s /\ inactive_slot_offset s + zlen bs <= HEADER_REGION_SIZE)
    by (rewrite Hz; destruct Hslot as [-> | ->]; by vm_compute).
  assert (Hrd : forall a n, HEADER_REGION_SIZE <= a -> 0 <= n -> a + n <= zlen f1 ->
    file_read (file_write f1 (inactive_slot_offset s) bs) a n = file_read f1 a n)
    by (intros; apply file_read_write_after; lia).
  split_and!.
  - rewrite (read_active_header_overwrite _ _ _ _ Hr1 Hz), Hd.
    cbn [with_sequence fh_sequence]. rewrite (proj2 (Z.leb_gt _ _)), (proj2 (Z.ltb_ge _ _)) by lia.
    by destruct (s =? 0).
  - rewrite <- Hcopy. destruct Hly. apply Hrd; [lia..|].
    assert (E : exists x, file_read f1 (fh_kv_block_offset h + new_size) sz = Ok x).
    { rewrite Hcopy. unfold file_read. rewrite (proj2 (Z.ltb_ge _ _)) by lia. eauto. }
    destruct E as [x E]. unfold file_read in E. by apply if_Err_Ok in E as [?%Z.ltb_ge _].
  - rewrite <- Hzero. destruct Hly. apply Hrd; [lia..|].
    unfold file_read in Hzero. by apply if_Err_Ok in Hzero as [?%Z.ltb_ge _].
Qed.

(** The data is moved before the header commits: a crash between the two leaves
    the old header in force, and where that header says the log begins the file
    holds zeros, up to the length the block grew by. *)
Theorem expand_crash_before_header file stage hl h s new_size buckets :
  read_active_header file = Ok (h, s) -> layout_ok file h ->
  stage_params stage (page_size hl) = (new_size, buckets) -> fh_kv_block_length h < new_size ->
  exists crashed,
    expand_data file h new_size = Some (Ok crashed)
    /\ read_active_header crashed = Ok (h, s)
    /\ let ws := fh_kv_block_offset h + fh_kv_block_length h in
       let n := new_size - fh_kv_block_length h in
       file_read crashed ws n = Ok (zeros n).
Proof.
  intros Hr Hly Hst Hnew. destruct (expand_data_spec file h new_size Hly Hnew) as (f1 & E & _ & Hzero & Hlow & Hlen).
  destruct (read_active_header_slot _ _ _ Hr) as [_ Hreg]. destruct Hly.
  exists f1. split; [done|]. split.
  - rewrite <- Hr. apply read_active_header_ext; [|lia..]. intros. apply Hlow. lia.
  - cbv zeta. unfold HEADER_REGION_SIZE, FILE_HEADER_SIZE in *. unfold file_read in Hzero.
    apply if_Err_Ok in Hzero as [Hb%Z.ltb_ge [= Hz]].
    apply file_read_zeros; [lia..|]. intros i Hi.
    replace (fh_kv_block_offset h + fh_kv_block_length h + i)
      with (fh_kv_block_offset h + (fh_kv_block_length h + i)) by lia.
    rewrite <- (at_slice _ _ (fh_kv_block_offset h + new_size)) by lia. rewrite Hz. apply at_zeros. lia.
Qed.
End ExpandProofs.

(** ** Witnesses *)

(** A database with an empty KV block right after its header, and an eight-byte log. *)
Definition layout_header : FileHeader :=
  {| fh_header_version := SUPPORTED_HEADER_VERSION; fh_hash_algo := Blake3_256; fh_sequence := 1;
     fh_created_at := 1; fh_updated_at := 1; fh_kv_block_offset := 512; fh_kv_block_length := 0;
     fh_kv_block_version := z2b 1; fh_nvt_offset := 0; fh_nvt_length := 0; fh_nvt_version := z2b 1;
     fh_head_hash := zeros 32; fh_entry_count := 0; fh_resize_in_progress := false;
     fh_buffer_kvs_offset := 0; fh_buffer_nvt_offset := 0; fh_hot_tail_offset := 520;
     fh_kv_block_stage := z2b 0; fh_resize_target_stage := z2b 0; fh_backup_type := z2b 0;
     fh_base_hash := zeros 32; fh_target_hash := zeros 32 |}.

Definition layout_db : bytes :=
  match @write_initial_header crc32_ieee [] layout_header with Ok (_, file) => file ++ lit "log-data" | _ => [] end.

Lemma layout_db_active : @read_active_header crc32_ieee layout_db = Ok (layout_header, 0).
Proof. vm_compute. reflexivity. Qed.

Lemma layout_header_wf : FileHeader_wf layout_header.
Proof. constructor; concrete. Qed.

Lemma layout_db_ok : layout_ok layout_db layout_header.
Proof. constructor; vm_compute; congruence. Qed.

Lemma expand_kv_block_relocates_witness :
  exists file',
    @expand_kv_block crc32_ieee layout_db 0 32 = Some (Ok ((65536, 0, 65536 - 0), file'))
    /\ @read_active_header crc32_ieee file' = Ok (with_sequence (expanded_header layout_header 65536 0) (1 + 1), 1 - 0)
    /\ file_read file' (512 + 65536) 8 = file_read layout_db 512 8
    /\ file_read file' 512 65536 = Ok (zeros 65536).
Proof.
  apply (@expand_kv_block_relocates crc32_ieee layout_db 0 32 layout_header 0 65536 (65536 / page_size 32)
    layout_db_active layout_header_wf eq_refl).
  - vm_compute. reflexivity.
  - exact layout_db_ok.
  - reflexivity.
  - vm_compute. split; reflexivity.
  - vm_compute. reflexivity.
Defined.

Lemma expand_crash_before_header_witness :
  exists crashed,
    expand_data layout_db layout_header 65536 = Some (Ok crashed)
    /\ @read_active_header crc32_ieee crashed = Ok (layout_header, 0)
    /\ file_read crashed (512 + 0) (65536 - 0) = Ok (zeros (65536 - 0)).
Proof.
  apply (@expand_crash_before_header crc32_ieee layout_db 0 32 layout_header 0 65536 (65536 / page_size 32)
    layout_db_active layout_db_ok); vm_compute; reflexivity.
Defined.
