(* ===== verification/Converters.v ===== *)
(** Scalar converters (src/aeordb-lib/src/engine/scalar_converter.rs): the tagged
    union behind [Box<dyn ScalarConverter>], its serialization, and the scaling
    of hashes that picks a bucket.  The [f64] bounds of [F64Converter] are kept as
    their 64 bits. *)
From S2P Require Import Prelude Codec.

Local Open Scope Z_scope.

Inductive PhoneticAlgorithm := Soundex | DoubleMetaphonePrimary | DoubleMetaphoneAlt.

Inductive Converter :=
| HashConverter
| U8Converter (min max : byte)
| U16Converter (min max : Z)
| U32Converter (min max : Z)
| U64Converter (min max : Z)
| I64Converter (min max : Z)
| F64Converter (min max : Z)
| StringConverter (max_length : Z)
| TimestampConverter (min max : Z)
| TrigramConverter
| PhoneticConverter (algorithm : PhoneticAlgorithm).

Definition CONVERTER_TYPE_HASH : Z := 0x01.
Definition CONVERTER_TYPE_U8 : Z := 0x02.
Definition CONVERTER_TYPE_U16 : Z := 0x03.
Definition CONVERTER_TYPE_U32 : Z := 0x04.
Definition CONVERTER_TYPE_U64 : Z := 0x05.
Definition CONVERTER_TYPE_I64 : Z := 0x06.
Definition CONVERTER_TYPE_F64 : Z := 0x07.
Definition CONVERTER_TYPE_STRING : Z := 0x08.
Definition CONVERTER_TYPE_TIMESTAMP : Z := 0x09.
Definition CONVERTER_TYPE_TRIGRAM : Z := 0x0B.
Definition CONVERTER_TYPE_PHONETIC : Z := 0x0C.

Definition phonetic_tag (a : PhoneticAlgorithm) : Z :=
  match a with Soundex => 0 | DoubleMetaphonePrimary => 1 | DoubleMetaphoneAlt => 2 end.

Definition serialize_converter (c : Converter) : bytes :=
  match c with
  | HashConverter => [z2b CONVERTER_TYPE_HASH]
  | U8Converter mn mx => [z2b CONVERTER_TYPE_U8; mn; mx]
  | U16Converter mn mx => z2b CONVERTER_TYPE_U16 :: u16_le mn ++ u16_le mx
  | U32Converter mn mx => z2b CONVERTER_TYPE_U32 :: u32_le mn ++ u32_le mx
  | U64Converter mn mx => z2b CONVERTER_TYPE_U64 :: u64_le mn ++ u64_le mx
  | I64Converter mn mx => z2b CONVERTER_TYPE_I64 :: i64_le mn ++ i64_le mx
  | F64Converter mn mx => z2b CONVERTER_TYPE_F64 :: u64_le mn ++ u64_le mx
  | StringConverter max_length => z2b CONVERTER_TYPE_STRING :: u32_le (max_length mod 2^32)
  | TimestampConverter mn mx => z2b CONVERTER_TYPE_TIMESTAMP :: i64_le mn ++ i64_le mx
  | TrigramConverter => [z2b CONVERTER_TYPE_TRIGRAM]
  | PhoneticConverter a => [z2b CONVERTER_TYPE_PHONETIC; z2b (phonetic_tag a)]
  end.

(** [StringConverter::new]. *)
Definition StringConverter_new (max_length : Z) : Converter :=
  StringConverter (if max_length =? 0 then 1024 else max_length).

(** Two integers of [n] bytes at the start of the payload. *)
Definition le_pair (payload : bytes) (n : Z) : res (Z * Z) :=
  a ← le_at payload 0 n; b ← le_at payload n n; Ok (a, b).

Definition deserialize_converter (data : bytes) : res Converter :=
  match data with
  | [] => Err (CorruptEntry 0 "Converter data is empty")
  | type_tag :: payload =>
    match b2z type_tag with
    | 0x01 => Ok HashConverter
    | 0x02 =>
      if zlen payload <? 2 then Err (CorruptEntry 0 "U8Converter data too short") else
      a ← index payload 0; b ← index payload 1; Ok (U8Converter a b)
    | 0x03 =>
      if zlen payload <? 4 then Err (CorruptEntry 0 "U16Converter data too short") else
      '(a, b) ← le_pair payload 2; Ok (U16Converter a b)
    | 0x04 =>
      if zlen payload <? 8 then Err (CorruptEntry 0 "U32Converter data too short") else
      '(a, b) ← le_pair payload 4; Ok (U32Converter a b)
    | 0x05 =>
      if zlen payload <? 16 then Err (CorruptEntry 0 "U64Converter data too short") else
      '(a, b) ← le_pair payload 8; Ok (U64Converter a b)
    | 0x06 =>
      if zlen payload <? 16 then Err (CorruptEntry 0 "I64Converter data too short") else
      '(a, b) ← le_pair payload 8; Ok (I64Converter (i64_of_bits a) (i64_of_bits b))
    | 0x07 =>
      if zlen payload <? 16 then Err (CorruptEntry 0 "F64Converter data too short") else
      '(a, b) ← le_pair payload 8; Ok (F64Converter a b)
    | 0x08 =>
      if zlen payload <? 4 then Err (CorruptEntry 0 "StringConverter data too short") else
      n ← le_at payload 0 4; Ok (StringConverter_new n)
    | 0x09 =>
      if zlen payload <? 16 then Err (CorruptEntry 0 "TimestampConverter data too short") else
      '(a, b) ← le_pair payload 8; Ok (TimestampConverter (i64_of_bits a) (i64_of_bits b))
    | 0x0B => Ok TrigramConverter
    | 0x0C =>
      match payload with
      | [] => Err (CorruptEntry 0 "Phonetic converter missing algorithm byte")
      | b :: _ =>
        match b2z b with
        | 0 => Ok (PhoneticConverter Soundex)
        | 1 => Ok (PhoneticConverter DoubleMetaphonePrimary)
        | 2 => Ok (PhoneticConverter DoubleMetaphoneAlt)
        | _ => Err (CorruptEntry 0 "Unknown phonetic algorithm: {}")
        end
      end
    | _ => Err (CorruptEntry 0 "Unknown converter type tag: 0x{:02X}")
    end
  end.

(** ** Scaling a hash *)

(** [u64::from_be_bytes]. *)
Definition be_val (l : bytes) : Z := le_val (rev l).

(** Rounding a non-negative integer to the 53 significant bits of an [f64], ties
    to even. *)
Definition round53 (x : Z) : Z :=
  if x <? 2^53 then x else
  let e := Z.log2 x - 52 in
  let q := x / 2^e in
  let r := x mod 2^e in
  let half := 2^(e - 1) in
  let q := if (half <? r) || ((r =? half) && Z.odd q) then q + 1 else q in
  q * 2^e.

(** [(to_scalar(value) * n as f64).floor() as usize] for [HashConverter], where
    [to_scalar] is [numeric as f64 / u64::MAX as f64].  [u64::MAX as f64] is
    [2^64] and dividing by it is exact, so both roundings are those of an
    integer scaled by [2^-64]. *)
Definition hash_scaled (value : bytes) (n : Z) : Z :=
  if zlen value <? 8 then 0 else
  let numeric := be_val (slice value 0 8) in
  round53 (round53 numeric * round53 n) / 2^64.

(** ** Serialization *)

Definition Converter_wf (c : Converter) : Prop :=
  match c with
  | U16Converter mn mx => is_u16 mn /\ is_u16 mx
  | U32Converter mn mx => is_u32 mn /\ is_u32 mx
  | U64Converter mn mx | F64Converter mn mx => is_u64 mn /\ is_u64 mx
  | I64Converter mn mx | TimestampConverter mn mx => is_i64 mn /\ is_i64 mx
  | StringConverter n => is_u32 n /\ n <> 0
  | _ => True
  end.

Lemma le_pair_app x y rest n :
  zlen x = n -> zlen y = n -> le_pair (x ++ y ++ rest) n = Ok (le_val x, le_val y).
Proof.
  intros Hx Hy. unfold le_pair. pose proof (suffix_at_start (x ++ y ++ rest)) as HA.
  rewrite (le_at_at _ _ _ _ n HA Hx), bind_ret.
  apply (suffix_at_app _ _ _ _ n) in HA; [|done]. rewrite Z.add_0_l in HA.
  by rewrite (le_at_at _ _ _ _ n HA Hy).
Qed.

(** A serialized converter is read back, whatever follows it. *)
Lemma converter_roundtrip c rest :
  Converter_wf c -> deserialize_converter (serialize_converter c ++ rest) = Ok c.
Proof.
  destruct c as [|mn mx|mn mx|mn mx|mn mx|mn mx|mn mx|n|mn mx| |a]; intros Hwf; try done.
  all: cbn [serialize_converter app deserialize_converter]; try rewrite <- app_assoc;
    match goal with |- context [b2z (z2b ?t)] =>
      let v := eval vm_compute in (b2z (z2b t)) in change (b2z (z2b t)) with v end; cbv iota.
  1: { rewrite (proj2 (Z.ltb_ge _ _)) by zlen_lia.
       pose proof (suffix_at_start (mn :: mx :: rest)) as HA. pose proof (suffix_at_cons _ _ _ _ HA) as HB. change (0 + 1) with 1 in HB.
       by rewrite (suffix_at_index _ _ _ _ HA), bind_ret, (suffix_at_index _ _ _ _ HB). }
  8: by destruct a.
  all: destruct Hwf as [Ha Hb]; rewrite (proj2 (Z.ltb_ge _ _)) by zlen_lia;
    rewrite ?le_pair_app, ?bind_ret by done;
    rewrite ?le_val_u16, ?le_val_u32, ?le_val_u64, ?le_val_i64 by done; try done.
  rewrite Z.mod_small by done. pose proof (suffix_at_start (u32_le n ++ rest)) as HA.
  rewrite (le_at_at _ _ _ _ 4 HA), bind_ret, le_val_u32 by done.
  unfold StringConverter_new. by rewrite (proj2 (Z.eqb_neq _ _)).
Qed.

Lemma le_pair_ok payload n : 0 <= n -> 2 * n <= zlen payload -> exists p, le_pair payload n = Ok p.
Proof.
  intros. unfold le_pair. rewrite !le_at_ok, !bind_ret by lia. eauto.
Qed.

Lemma deserialize_converter_safe data : deserialize_converter data <> Panic.
Proof.
  destruct data as [|t p]; [done|]. cbn [deserialize_converter].
  repeat case_match; try done; subst;
    repeat match goal with H : (_ <? _) = false |- _ => apply Z.ltb_ge in H end.
  all: try (destruct (le_pair_ok p 2) as [[] ->]; [lia..|done]);
       try (destruct (le_pair_ok p 4) as [[] ->]; [lia..|done]);
       try (destruct (le_pair_ok p 8) as [[] ->]; [lia..|done]).
  - by rewrite le_at_ok by lia.
  - destruct (index_ok p 0) as [a ->]; [lia|]. destruct (index_ok p 1) as [b ->]; [lia|]. done.
Qed.

(** ** Rounding is monotone *)

Lemma round53_exp x : 2^53 <= x -> let e := Z.log2 x - 52 in
  0 < e /\ 2^52 <= x / 2^e < 2^53 /\ 2^(e + 52) <= x < 2^(e + 53).
Proof.
  intros Hx e. assert (Hl : 2^53 <= x) by done. pose proof (Z.log2_spec x ltac:(lia)) as Hs.
  assert (53 <= Z.log2 x) by (apply Z.log2_le_pow2; lia).
  replace (Z.succ (Z.log2 x)) with (e + 53) in Hs by (unfold e; lia).
  replace (Z.log2 x) with (e + 52) in Hs by (unfold e; lia).
  assert (0 < 2^e) by (apply Z.pow_pos_nonneg; unfold e; lia).
  split; [unfold e; lia|]. split; [|done]. rewrite !Z.pow_add_r in Hs by (unfold e; lia). split.
  - apply Z.div_le_lower_bound; lia.
  - apply Z.div_lt_upper_bound; lia.
Qed.

(** The rounded value is the quotient or the next, at the number's own exponent. *)
Lemma round53_bounds x : 2^53 <= x -> let e := Z.log2 x - 52 in
  2^(e + 52) <= round53 x <= 2^(e + 53).
Proof.
  intros Hx e. destruct (round53_exp x Hx) as (He & Hq & _). fold e in He, Hq.
  unfold round53. rewrite (proj2 (Z.ltb_ge _ _)) by done. cbv zeta. fold e.
  rewrite !Z.pow_add_r by lia. assert (0 < 2^e) by (apply Z.pow_pos_nonneg; lia).
  case_match; nia.
Qed.

Lemma round53_mono x y : 0 <= x <= y -> round53 x <= round53 y.
Proof.
  intros Hxy. destruct (decide (y < 2^53)).
  { unfold round53. rewrite !(proj2 (Z.ltb_lt _ _)) by lia. lia. }
  pose proof (round53_bounds y ltac:(lia)) as Hby. cbv zeta in Hby.
  destruct (decide (x < 2^53)) as [Hx|Hx].
  { unfold round53 at 1. rewrite (proj2 (Z.ltb_lt _ _)) by done.
    assert (53 <= Z.log2 y) by (apply Z.log2_le_pow2; lia).
    pose proof (Z.pow_le_mono_r 2 53 (Z.log2 y - 52 + 52)). lia. }
  pose proof (round53_bounds x ltac:(lia)) as Hbx. cbv zeta in Hbx.
  destruct (decide (Z.log2 x = Z.log2 y)) as [Heq|Hne].
  - destruct (round53_exp x ltac:(lia)) as (He & _). cbv zeta in He.
    unfold round53. rewrite (proj2 (Z.ltb_ge x _)), (proj2 (Z.ltb_ge y _)) by lia. cbv zeta. rewrite <- Heq.
    set (e := Z.log2 x - 52) in *. assert (Hp : 0 < 2^e) by (apply Z.pow_pos_nonneg; lia).
    apply Z.mul_le_mono_nonneg_r; [lia|].
    pose proof (Z.div_le_mono x y (2^e) Hp ltac:(lia)) as Hq.
    destruct (decide (x / 2^e = y / 2^e)) as [E|]; [|repeat case_match; lia].
    pose proof (Z.div_mod x (2^e) ltac:(lia)) as Dx. pose proof (Z.div_mod y (2^e) ltac:(lia)) as Dy.
    rewrite E in *.
    destruct (Z.ltb_spec (2^(e-1)) (x mod 2^e)), (Z.ltb_spec (2^(e-1)) (y mod 2^e)); simpl; try lia;
    destruct (Z.eqb_spec (x mod 2^e) (2^(e-1))), (Z.eqb_spec (y mod 2^e) (2^(e-1))); simpl; try lia;
    destruct (Z.odd (y / 2^e)); lia.
  - pose proof (Z.log2_le_mono x y ltac:(lia)).
    pose proof (Z.pow_le_mono_r 2 (Z.log2 x - 52 + 53) (Z.log2 y - 52 + 52)). lia.
Qed.

Lemma round53_nonneg x : 0 <= x -> 0 <= round53 x.
Proof.
  intros. change 0 with (round53 0) at 1. apply round53_mono. lia.
Qed.

(** Hashes in byte order scale in order. *)
Lemma hash_scaled_mono a b n :
  0 <= n -> 8 <= zlen a -> 8 <= zlen b -> be_val (slice a 0 8) <= be_val (slice b 0 8) ->
  hash_scaled a n <= hash_scaled b n.
Proof.
  intros Hn Ha Hb Hle. unfold hash_scaled. rewrite !(proj2 (Z.ltb_ge _ _)) by done. cbv zeta.
  pose proof (le_val_range (rev (slice a 0 8))) as Hra. fold (be_val (slice a 0 8)) in Hra.
  apply Z.div_le_mono; [lia|]. apply round53_mono.
  pose proof (round53_mono _ _ (conj (proj1 Hra) Hle)). pose proof (round53_nonneg n Hn).
  pose proof (round53_nonneg _ (proj1 Hra)). nia.
Qed.

(** ** Byte order is numeric order *)

Lemma le_val_cons x l : le_val (x :: l) = b2z x + 256 * le_val l.
Proof. done. Qed.

Lemma le_val_app l k : le_val (l ++ k) = le_val l + 256 ^ zlen l * le_val k.
Proof.
  induction l as [|x l IH]; [change (zlen (@nil byte)) with 0; rewrite Z.pow_0_r, Z.mul_1_l; done|].
  rewrite <- app_comm_cons, !le_val_cons, IH, zlen_cons, Z.pow_add_r by zlen_lia. lia.
Qed.

Lemma be_val_cons x l : be_val (x :: l) = be_val l + 256 ^ zlen l * b2z x.
Proof.
  unfold be_val. cbn [rev]. rewrite le_val_app. unfold zlen. rewrite length_rev, le_val_cons. change (le_val []) with 0. lia.
Qed.

Lemma be_val_range l : 0 <= be_val l < 256 ^ zlen l.
Proof. unfold be_val. pose proof (le_val_range (rev l)) as Hr. unfold zlen in *. by rewrite length_rev in Hr. Qed.

Lemma lex_be_val a : forall b, length a = length b -> lex_compare a b <> Gt -> be_val a <= be_val b.
Proof.
  induction a as [|x a IH]; intros [|y b] Hl Hc; try done. injection Hl as Hl.
  rewrite !be_val_cons. cbn [lex_compare] in Hc.
  assert (Hz : zlen a = zlen b) by (unfold zlen; lia). rewrite Hz.
  pose proof (be_val_range a) as Ha. rewrite Hz in Ha. pose proof (be_val_range b).
  destruct (Z.compare_spec (b2z x) (b2z y)) as [E|E|E]; [|nia|done].
  rewrite E. specialize (IH b Hl Hc). lia.
Qed.

Lemma lex_take n a : forall b, lex_compare a b <> Gt -> lex_compare (take n a) (take n b) <> Gt.
Proof.
  revert a. induction n as [|n IH]; intros [|x a] [|y b]; simpl; try done.
  destruct (b2z x ?= b2z y); [apply IH|done|done].
Qed.

Lemma hash_scaled_lex a b n :
  0 <= n -> 8 <= zlen a -> zlen a = zlen b -> lex_lt a b -> hash_scaled a n <= hash_scaled b n.
Proof.
  intros Hn Ha Hab Hlt. apply hash_scaled_mono; [lia..|]. unfold slice. rewrite !drop_0.
  apply lex_be_val.
  - rewrite !length_take. unfold zlen in *. lia.
  - apply lex_take. unfold lex_lt in Hlt. by rewrite Hlt.
Qed.
