(* ===== verification/Nvt.v ===== *)
(** The normalized vector table (src/aeordb-lib/src/engine/nvt.rs): buckets that
    say where in a sorted list the values of one slice of the scalar range lie. *)
From S2P Require Import Prelude Codec Converters.

Local Open Scope Z_scope.

(** What the table asks of a converter: [(to_scalar(value) * n as f64).floor() as
    usize].  It is [hash_scaled] for hashes; the scalings of the other converters
    are the interface's. *)
Class ToScalar := {
  scaled : Converter -> bytes -> Z -> Z;
  scaled_nonneg : forall c v n, 0 <= n -> 0 <= scaled c v n;
  scaled_hash : forall v n, scaled HashConverter v n = hash_scaled v n;
}.

Record NVTBucket := { nb_kv_block_offset : Z; nb_entry_count : Z }.

Record NormalizedVectorTable := {
  nvt_version : byte;
  nvt_buckets : list NVTBucket;
  nvt_converter : Converter;
}.

Definition empty_bucket : NVTBucket := {| nb_kv_block_offset := 0; nb_entry_count := 0 |}.

Definition NVT_new (converter : Converter) (initial_bucket_count : Z) : NormalizedVectorTable :=
  {| nvt_version := z2b 1; nvt_buckets := replicate (Z.to_nat initial_bucket_count) empty_bucket;
     nvt_converter := converter |}.

Definition nvt_bucket_count (t : NormalizedVectorTable) : Z := zlen (nvt_buckets t).

Definition bucket_for_value `{ToScalar} (t : NormalizedVectorTable) (value : bytes) : Z :=
  let index := scaled (nvt_converter t) value (nvt_bucket_count t) in
  Z.min index (saturating_sub (nvt_bucket_count t) 1).

Definition get_bucket (t : NormalizedVectorTable) (i : Z) : res NVTBucket := index (nvt_buckets t) i.

Definition with_buckets (t : NormalizedVectorTable) (buckets : list NVTBucket) : NormalizedVectorTable :=
  {| nvt_version := nvt_version t; nvt_buckets := buckets; nvt_converter := nvt_converter t |}.

Definition update_bucket (t : NormalizedVectorTable) (i offset count : Z) : res NormalizedVectorTable :=
  _ ← get_bucket t i;
  Ok (with_buckets t (<[Z.to_nat i := {| nb_kv_block_offset := offset; nb_entry_count := count |}]> (nvt_buckets t))).

Definition bucket_bytes (b : NVTBucket) : bytes := u64_le (nb_kv_block_offset b) ++ u32_le (nb_entry_count b).

Definition NVT_serialize (t : NormalizedVectorTable) : bytes :=
  let converter_data := serialize_converter (nvt_converter t) in
  [nvt_version t] ++ u32_le (zlen converter_data mod 2^32) ++ converter_data
  ++ u32_le (zlen (nvt_buckets t) mod 2^32) ++ concat (bucket_bytes <$> nvt_buckets t).

Fixpoint read_buckets (n : nat) (data : bytes) (cursor : Z) : res (list NVTBucket) :=
  match n with
  | O => Ok []
  | S n =>
    kv_block_offset ← le_at data cursor 8;
    entry_count ← le_at data (cursor + 8) 4;
    bs ← read_buckets n data (cursor + 12);
    Ok ({| nb_kv_block_offset := kv_block_offset; nb_entry_count := entry_count |} :: bs)
  end.

Definition NVT_deserialize_v1 (data : bytes) : res NormalizedVectorTable :=
  if zlen data <? 5 then Err (CorruptEntry 0 "NVT data too short for header") else
  let cursor := 1 in
  converter_length ← le_at data cursor 4;
  let cursor := cursor + 4 in
  if zlen data <? cursor + converter_length
  then Err (CorruptEntry 0 "NVT data too short for converter section") else
  cd ← slice_chk data cursor (cursor + converter_length);
  converter ← deserialize_converter cd;
  let cursor := cursor + converter_length in
  if zlen data <? cursor + 4 then Err (CorruptEntry 0 "NVT data too short for bucket count") else
  bucket_count ← le_at data cursor 4;
  let cursor := cursor + 4 in
  let expected_length := cursor + bucket_count * 12 in
  if zlen data <? expected_length
  then Err (CorruptEntry 0 "NVT data too short: expected {} bytes for {} buckets, got {}") else
  buckets ← read_buckets (Z.to_nat bucket_count) data cursor;
  Ok {| nvt_version := z2b 1; nvt_buckets := buckets; nvt_converter := converter |}.

Definition NVT_deserialize (data : bytes) : res NormalizedVectorTable :=
  match data with
  | [] => Err (CorruptEntry 0 "NVT data is empty")
  | version :: _ =>
    if b2z version =? 1 then NVT_deserialize_v1 data else Err (InvalidEntryVersion (b2z version))
  end.

(** ** Serialization *)

Record NVT_wf (t : NormalizedVectorTable) : Prop := {
  wf_nvt_version : nvt_version t = z2b 1;
  wf_nvt_converter : Converter_wf (nvt_converter t);
  wf_nvt_count : is_u32 (zlen (nvt_buckets t));
  wf_nvt_buckets : Forall (fun b => is_u64 (nb_kv_block_offset b) /\ is_u32 (nb_entry_count b)) (nvt_buckets t);
}.

Lemma read_buckets_at bs : forall data cursor rest,
  suffix_at data cursor (concat (bucket_bytes <$> bs) ++ rest) ->
  Forall (fun b => is_u64 (nb_kv_block_offset b) /\ is_u32 (nb_entry_count b)) bs ->
  read_buckets (length bs) data cursor = Ok bs.
Proof.
  induction bs as [|b bs IH]; intros data cursor rest HA Hall; [done|].
  apply Forall_cons in Hall as [[Ho Hc] Hall]. cbn [fmap list_fmap concat] in HA.
  unfold bucket_bytes in HA at 1. rewrite <- !app_assoc in HA.
  pose proof (suffix_at_app _ _ _ _ 8 HA eq_refl) as HB.
  pose proof (suffix_at_app _ _ _ _ 4 HB eq_refl) as HC. rewrite <- Z.add_assoc in HC.
  cbn [length read_buckets].
  rewrite (le_at_at _ _ _ _ 8 HA), bind_ret, le_val_u64 by done.
  rewrite (le_at_at _ _ _ _ 4 HB), bind_ret, le_val_u32 by done.
  change (8 + 4) with 12 in HC. rewrite (IH _ _ _ HC Hall), bind_ret. by destruct b.
Qed.

Lemma serialize_converter_bounds c : 1 <= zlen (serialize_converter c) <= 17.
Proof. destruct c; cbn [serialize_converter]; zlen_lia. Qed.

(** A table is read back from its serialization, whatever follows it. *)
Lemma NVT_roundtrip t rest :
  NVT_wf t -> NVT_deserialize (NVT_serialize t ++ rest) = Ok t.
Proof.
  intros [Hv Hc Hn Hb]. pose proof (serialize_converter_bounds (nvt_converter t)) as Hcb.
  set (cd := serialize_converter (nvt_converter t)) in *. set (bs := nvt_buckets t) in *.
  assert (Hser : NVT_serialize t ++ rest = [z2b 1] ++ u32_le (zlen cd) ++ cd ++ u32_le (zlen bs)
    ++ concat (bucket_bytes <$> bs) ++ rest).
  { unfold NVT_serialize. fold cd bs. rewrite Hv, !Z.mod_small by (lia || apply Hn). by rewrite <- !app_assoc. }
  rewrite Hser. set (data := [z2b 1] ++ _). unfold NVT_deserialize. cbn [data app].
  change (b2z (z2b 1) =? 1) with true. cbv iota. fold data.
  change (z2b 1 :: u32_le (zlen cd) ++ cd ++ u32_le (zlen bs) ++ concat (bucket_bytes <$> bs) ++ rest) with data.
  pose proof (suffix_at_start data) as HA. unfold data in HA at 2.
  apply (suffix_at_app _ _ _ _ 1) in HA; [|done]. rewrite Z.add_0_l in HA.
  assert (Hlen : zlen (concat (bucket_bytes <$> bs)) = zlen bs * 12).
  { clear. induction bs as [|b bs IH]; [done|]. cbn [fmap list_fmap concat].
    rewrite zlen_app, zlen_cons, IH. change (zlen (bucket_bytes b)) with 12. lia. }
  assert (Hd : zlen data = 1 + 4 + zlen cd + 4 + zlen bs * 12 + zlen rest)
    by (unfold data; rewrite !zlen_app, Hlen; change (zlen [z2b 1]) with 1; zlen_lia).
  pose proof (zlen_nonneg rest). pose proof (zlen_nonneg bs).
  unfold NVT_deserialize_v1. rewrite (proj2 (Z.ltb_ge _ _)) by lia. cbv zeta.
  rewrite (le_at_at _ _ _ _ 4 HA), bind_ret, le_val_u32 by (done || unfold is_u32; lia).
  apply (suffix_at_app _ _ _ _ 4) in HA; [|done].
  rewrite (proj2 (Z.ltb_ge _ _)) by lia.
  rewrite (suffix_at_slice_chk _ _ _ _ _ HA eq_refl), bind_ret.
  pose proof (converter_roundtrip (nvt_converter t) [] Hc) as Hcr. rewrite app_nil_r in Hcr.
  unfold cd. rewrite Hcr, bind_ret. fold cd.
  apply (suffix_at_app _ _ _ _ _) with (2 := eq_refl (zlen cd)) in HA.
  rewrite (proj2 (Z.ltb_ge _ _)) by lia.
  rewrite (le_at_at _ _ _ _ 4 HA), bind_ret, le_val_u32 by done.
  apply (suffix_at_app _ _ _ _ 4) in HA; [|done].
  rewrite (proj2 (Z.ltb_ge _ _)) by lia. unfold zlen at 1. rewrite Nat2Z.id.
  rewrite (read_buckets_at _ _ _ _ HA Hb), bind_ret. unfold bs. rewrite <- Hv. by destruct t.
Qed.

Lemma read_buckets_ok n : forall data cursor,
  0 <= cursor -> cursor + Z.of_nat n * 12 <= zlen data -> exists bs, read_buckets n data cursor = Ok bs.
Proof.
  induction n as [|n IH]; intros data cursor Hc Hb; [by exists []|]. cbn [read_buckets].
  rewrite !le_at_ok, !bind_ret by lia. destruct (IH data (cursor + 12)) as [bs ->]; [lia..|]. eauto.
Qed.

Lemma NVT_deserialize_safe data : NVT_deserialize data <> Panic.
Proof.
  unfold NVT_deserialize. destruct data as [|v d]; [done|]. case_match; [|done].
  set (data := v :: d). unfold NVT_deserialize_v1. destruct (Z.ltb_spec (zlen data) 5); [done|]. cbv zeta.
  rewrite le_at_ok, bind_ret by lia. set (cl := le_val _). pose proof (le_val_nonneg (slice data 1 (1 + 4))) as Hcl.
  fold cl in Hcl. destruct (Z.ltb_spec (zlen data) (1 + 4 + cl)); [done|].
  rewrite slice_chk_ok, bind_ret by lia.
  pose proof (deserialize_converter_safe (slice data (1 + 4) (1 + 4 + cl))).
  destruct (deserialize_converter _); [|done..]. rewrite bind_ret.
  destruct (Z.ltb_spec (zlen data) (1 + 4 + cl + 4)); [done|]. rewrite le_at_ok, bind_ret by lia.
  set (bc := le_val _). pose proof (le_val_nonneg (slice data (1 + 4 + cl) (1 + 4 + cl + 4))) as Hbc. fold bc in Hbc.
  destruct (Z.ltb_spec (zlen data) (1 + 4 + cl + 4 + bc * 12)); [done|].
  destruct (read_buckets_ok (Z.to_nat bc) data (1 + 4 + cl + 4)) as [bs ->]; [lia..|done].
Qed.

(** The table codec: a well-formed table, with any of the converters, is read
    back from its serialization whatever follows it, and no input makes the
    decoder panic. *)
Theorem NVT_codec :
  (forall t rest, NVT_wf t -> NVT_deserialize (NVT_serialize t ++ rest) = Ok t)
  /\ forall data, NVT_deserialize data <> Panic.
Proof. split; [intros; by apply NVT_roundtrip|apply NVT_deserialize_safe]. Qed.

(** ** Witnesses *)

(** Every converter scaled as the hash converter is. *)
Lemma be_val_nonneg l : 0 <= be_val l.
Proof. unfold be_val. pose proof (le_val_range (rev l)). lia. Qed.

Lemma hash_scaled_nonneg (c : Converter) v n : 0 <= n -> 0 <= hash_scaled v n.
Proof.
  intros Hn. unfold hash_scaled. case_match; [lia|]. cbv zeta. apply Z.div_pos; [|lia].
  apply round53_nonneg, Z.mul_nonneg_nonneg; apply round53_nonneg; [apply be_val_nonneg|done].
Qed.

Definition hash_to_scalar : ToScalar :=
  {| scaled := fun _ => hash_scaled; scaled_nonneg := hash_scaled_nonneg; scaled_hash := fun _ _ => eq_refl |}.

Definition sample_nvt : NormalizedVectorTable :=
  match update_bucket (NVT_new HashConverter 4) 2 7 3 with Ok t => t | _ => NVT_new HashConverter 4 end.

Lemma NVT_codec_witness :
  NVT_deserialize (NVT_serialize sample_nvt ++ lit "rest") = Ok sample_nvt.
Proof.
  apply (proj1 NVT_codec sample_nvt (lit "rest")).
  constructor; [reflexivity|exact I|concrete|]. repeat constructor; concrete.
Defined.
