(* ===== verification/NvtMask.v ===== *)
(** Bitmasks over index buckets (src/aeordb-lib/src/engine/nvt_ops.rs), combined
    by the query engine to intersect and unite index lookups.  Words are [u64]
    values.  The word vector always covers the bucket count ([mask_ok] below),
    so that no word index of the code is out of range. *)
From S2P Require Import Prelude Nvt.

Local Open Scope Z_scope.

Record NVTMask := { nm_bucket_count : Z; nm_bits : list Z }.

Definition words_needed (bucket_count : Z) : Z := (bucket_count + 63) / 64.

Definition NVTMask_new (bucket_count : Z) : NVTMask :=
  {| nm_bucket_count := bucket_count;
     nm_bits := replicate (Z.to_nat (words_needed bucket_count)) 0 |}.

(** [if remainder > 0 && !bits.is_empty() { bits[last] &= (1 << remainder) - 1 }]. *)
Definition clear_trailing (bucket_count : Z) (bits : list Z) : list Z :=
  let remainder := bucket_count mod 64 in
  if (0 <? remainder) && negb (bool_decide (bits = []))
  then alter (fun w => Z.land w (Z.shiftl 1 remainder - 1)) (length bits - 1)%nat bits
  else bits.

Definition all_on (bucket_count : Z) : NVTMask :=
  let bits := replicate (Z.to_nat (words_needed bucket_count)) u64_max in
  let remainder := bucket_count mod 64 in
  let bits :=
    if (0 <? remainder) && negb (bool_decide (bits = []))
    then <[(length bits - 1)%nat := Z.shiftl 1 remainder - 1]> bits
    else bits in
  {| nm_bucket_count := bucket_count; nm_bits := bits |}.

Definition set_bit (m : NVTMask) (i : Z) : NVTMask :=
  if nm_bucket_count m <=? i then m else
  {| nm_bucket_count := nm_bucket_count m;
     nm_bits := alter (fun w => Z.lor w (Z.shiftl 1 (i mod 64))) (Z.to_nat (i / 64)) (nm_bits m) |}.

Definition word_of (bits : list Z) (i : Z) : Z := default 0 (bits !! Z.to_nat (i / 64)).

Definition get_bit (m : NVTMask) (i : Z) : bool :=
  if nm_bucket_count m <=? i then false else
  negb (Z.land (word_of (nm_bits m) i) (Z.shiftl 1 (i mod 64)) =? 0).

(** [!w] on a [u64]. *)
Definition lnot64 (w : Z) : Z := Z.lxor w u64_max.

Definition clear_bit (m : NVTMask) (i : Z) : NVTMask :=
  if nm_bucket_count m <=? i then m else
  {| nm_bucket_count := nm_bucket_count m;
     nm_bits := alter (fun w => Z.land w (lnot64 (Z.shiftl 1 (i mod 64)))) (Z.to_nat (i / 64)) (nm_bits m) |}.

(** [for index in a..b { mask.set_bit(index) }]. *)
Definition set_range (m : NVTMask) (a b : Z) : NVTMask := foldl set_bit m (seqZ a (b - a)).

Definition from_range (bucket_count start_bucket end_bucket : Z) : NVTMask :=
  let clamped_start := Z.min start_bucket bucket_count in
  let clamped_end := Z.min end_bucket bucket_count in
  set_range (NVTMask_new bucket_count) clamped_start clamped_end.

(** Every index of the loop is one of the table's buckets. *)
Definition from_nvt (nvt : NormalizedVectorTable) : NVTMask :=
  let bucket_count := nvt_bucket_count nvt in
  foldl (fun m i =>
      match nvt_buckets nvt !! Z.to_nat i with
      | Some bucket => if 0 <? nb_entry_count bucket then set_bit m i else m
      | None => m
      end)
    (NVTMask_new bucket_count) (seqZ 0 bucket_count).

Definition require_same_bucket_count (a b : NVTMask) : res unit :=
  if negb (nm_bucket_count a =? nm_bucket_count b)
  then Err (CorruptEntry 0 "NVTMask bucket count mismatch: {} vs {}") else Ok tt.

Definition mask_and (a b : NVTMask) : res NVTMask :=
  _ ← require_same_bucket_count a b;
  Ok {| nm_bucket_count := nm_bucket_count a; nm_bits := zip_with Z.land (nm_bits a) (nm_bits b) |}.

Definition mask_or (a b : NVTMask) : res NVTMask :=
  _ ← require_same_bucket_count a b;
  Ok {| nm_bucket_count := nm_bucket_count a; nm_bits := zip_with Z.lor (nm_bits a) (nm_bits b) |}.

Definition mask_not (a : NVTMask) : NVTMask :=
  {| nm_bucket_count := nm_bucket_count a;
     nm_bits := clear_trailing (nm_bucket_count a) (lnot64 <$> nm_bits a) |}.

Definition mask_xor (a b : NVTMask) : res NVTMask :=
  _ ← require_same_bucket_count a b;
  Ok {| nm_bucket_count := nm_bucket_count a; nm_bits := zip_with Z.lxor (nm_bits a) (nm_bits b) |}.

Definition mask_difference (a b : NVTMask) : res NVTMask :=
  _ ← require_same_bucket_count a b;
  Ok {| nm_bucket_count := nm_bucket_count a;
        nm_bits := clear_trailing (nm_bucket_count a)
          (zip_with (fun x y => Z.land x (lnot64 y)) (nm_bits a) (nm_bits b)) |}.

(** The positions of the one bits of a word, low to high. *)
Definition word_bits (w : Z) : list Z := filter (fun i => Z.testbit w i = true) (seqZ 0 64).

Definition count_ones (w : Z) : Z := zlen (word_bits w).

Definition trailing_zeros (w : Z) : Z :=
  match list_find (fun i => Z.testbit w i = true) (seqZ 0 64) with
  | Some (_, i) => i
  | None => 64
  end.

Definition popcount (m : NVTMask) : Z := foldr Z.add 0 (count_ones <$> nm_bits m).

(** [while remaining != 0], at most 64 rounds and the last test. *)
Fixpoint word_loop (fuel : nat) (bucket_count base remaining : Z) : list Z :=
  match fuel with
  | O => []
  | S fuel =>
    if remaining =? 0 then [] else
    let bucket_index := base + trailing_zeros remaining in
    (if bucket_index <? bucket_count then [bucket_index] else [])
    ++ word_loop fuel bucket_count base (Z.land remaining (remaining - 1))
  end.

Fixpoint surviving_loop (bucket_count word_index : Z) (bits : list Z) : list Z :=
  match bits with
  | [] => []
  | w :: bits =>
    (if w =? 0 then [] else word_loop 65 bucket_count (word_index * 64) w)
    ++ surviving_loop bucket_count (word_index + 1) bits
  end.

Definition surviving_buckets (m : NVTMask) : list Z := surviving_loop (nm_bucket_count m) 0 (nm_bits m).

Definition mask_is_empty (m : NVTMask) : bool := forallb (fun w => w =? 0) (nm_bits m).

(** The positions [0, stride, 2 * stride, ..] below the bucket count. *)
Definition samples (bucket_count stride : Z) : list Z :=
  (fun k => k * stride) <$> seqZ 0 ((bucket_count + stride - 1) / stride).

Definition and_strided (a b : NVTMask) (stride : Z) : res NVTMask :=
  _ ← require_same_bucket_count a b;
  let stride := Z.max stride 1 in
  Ok (foldl (fun r s =>
        if get_bit a s && get_bit b s
        then set_range r s (Z.min (s + stride) (nm_bucket_count a))
        else r)
      (NVTMask_new (nm_bucket_count a)) (samples (nm_bucket_count a) stride)).

Definition and_progressive (a b : NVTMask) (initial_stride : Z) : res NVTMask :=
  _ ← require_same_bucket_count a b;
  let initial_stride := Z.max initial_stride 1 in
  let surviving_regions :=
    filter (fun s => get_bit a s && get_bit b s = true) (samples (nm_bucket_count a) initial_stride) in
  Ok (foldl (fun r region_start =>
        let region_end := Z.min (region_start + initial_stride) (nm_bucket_count a) in
        foldl (fun r i => if get_bit a i && get_bit b i then set_bit r i else r)
          r (seqZ region_start (region_end - region_start)))
      (NVTMask_new (nm_bucket_count a)) surviving_regions).

(** ** Masks as sets of buckets *)

(** The word vector covers the buckets, and no bit past the last bucket is on. *)
Record mask_ok (m : NVTMask) : Prop := {
  mk_count : 0 <= nm_bucket_count m;
  mk_words : zlen (nm_bits m) = words_needed (nm_bucket_count m);
  mk_u64 : Forall is_u64 (nm_bits m);
  mk_trailing : forall i, nm_bucket_count m <= i -> Z.testbit (word_of (nm_bits m) i) (i mod 64) = false;
}.

Lemma land_shiftl_testbit w k : 0 <= k -> negb (Z.land w (Z.shiftl 1 k) =? 0) = Z.testbit w k.
Proof.
  intros Hk. destruct (Z.testbit w k) eqn:E.
  - destruct (Z.eqb_spec (Z.land w (Z.shiftl 1 k)) 0) as [H0|]; [|done].
    apply (f_equal (fun z => Z.testbit z k)) in H0.
    rewrite Z.land_spec, E, Z.shiftl_spec, Z.sub_diag, Z.bits_0 in H0 by done. done.
  - destruct (Z.eqb_spec (Z.land w (Z.shiftl 1 k)) 0) as [|H0]; [done|]. exfalso. apply H0.
    apply Z.bits_inj'. intros i Hi. rewrite Z.land_spec, Z.bits_0, Z.shiftl_spec by done.
    destruct (decide (i = k)) as [->|]; [by rewrite E|].
    destruct (Z.testbit 1 (i - k)) eqn:E1; [|by rewrite andb_false_r].
    destruct (decide (i - k < 0)); [by rewrite Z.testbit_neg_r in E1|].
    change 1 with (2^0) in E1. rewrite Z.pow2_bits_false in E1 by lia. done.
Qed.

Lemma get_bit_testbit m i :
  0 <= i -> get_bit m i = (i <? nm_bucket_count m) && Z.testbit (word_of (nm_bits m) i) (i mod 64).
Proof.
  intros. unfold get_bit. destruct (Z.leb_spec (nm_bucket_count m) i).
  - by rewrite (proj2 (Z.ltb_ge _ _)).
  - rewrite (proj2 (Z.ltb_lt _ _)) by done. apply land_shiftl_testbit. apply Z.mod_pos_bound. lia.
Qed.

Lemma get_bit_raw m i :
  mask_ok m -> 0 <= i -> get_bit m i = Z.testbit (word_of (nm_bits m) i) (i mod 64).
Proof.
  intros Hok Hi. rewrite get_bit_testbit by done. destruct (Z.ltb_spec i (nm_bucket_count m)); [done|].
  by rewrite mk_trailing.
Qed.

Lemma mod64_range i : 0 <= i mod 64 < 64.
Proof. apply Z.mod_pos_bound. lia. Qed.

(** Two masks of the same count have words at the same positions. *)
Lemma word_of_zip f a b i :
  f 0 0 = 0 -> length a = length b ->
  word_of (zip_with f a b) i = f (word_of a i) (word_of b i).
Proof.
  intros Hf Hl. unfold word_of. rewrite lookup_zip_with.
  destruct (a !! Z.to_nat (i / 64)) as [x|] eqn:Ea, (b !! Z.to_nat (i / 64)) as [y|] eqn:Eb; simpl; try done.
  - apply lookup_lt_Some in Ea. apply lookup_ge_None in Eb. lia.
  - apply lookup_lt_Some in Eb. apply lookup_ge_None in Ea. lia.
Qed.

Lemma word_of_u64 bits i : Forall is_u64 bits -> is_u64 (word_of bits i).
Proof.
  intros Hall. unfold word_of. destruct (bits !! _) as [w|] eqn:E; [|done].
  by apply (Forall_lookup_1 _ _ _ _ Hall E).
Qed.

Lemma u64_testbit_high w i : is_u64 w -> 64 <= i -> Z.testbit w i = false.
Proof.
  intros [Hw1 Hw2] Hi. destruct (decide (w = 0)) as [->|]; [apply Z.bits_0|].
  apply Z.bits_above_log2; [lia|]. apply Z.log2_lt_pow2; [lia|].
  eapply Z.lt_le_trans; [done|]. apply Z.pow_le_mono_r; lia.
Qed.

Lemma u64_of_bits w : 0 <= w -> (forall i, 64 <= i -> Z.testbit w i = false) -> is_u64 w.
Proof.
  intros Hw Hb. split; [done|]. destruct (decide (w < 2^64)); [done|].
  assert (64 <= Z.log2 w) by (apply Z.log2_le_pow2; lia).
  exfalso.
  specialize (Hb (Z.log2 w) ltac:(done)). rewrite Z.bit_log2 in Hb by lia. done.
Qed.

Lemma lnot64_testbit w i : 0 <= i < 64 -> Z.testbit (lnot64 w) i = negb (Z.testbit w i).
Proof.
  intros Hi. unfold lnot64. rewrite Z.lxor_spec. change u64_max with (Z.ones 64).
  rewrite Z.ones_spec_low by done. apply xorb_true_r.
Qed.

Lemma lnot64_u64 w : is_u64 w -> is_u64 (lnot64 w).
Proof.
  intros Hw. apply u64_of_bits.
  - unfold lnot64. apply Z.lxor_nonneg. destruct Hw. lia.
  - intros i Hi. unfold lnot64. rewrite Z.lxor_spec, u64_testbit_high by done.
    change u64_max with (Z.ones 64). by rewrite Z.ones_spec_high by lia.
Qed.

(** Bitwise operations of words, as used by the zips. *)
Lemma land_u64 a b : is_u64 a -> is_u64 b -> is_u64 (Z.land a b).
Proof.
  intros Ha Hb. apply u64_of_bits; [apply Z.land_nonneg; left; apply Ha|].
  intros i Hi. by rewrite Z.land_spec, (u64_testbit_high a).
Qed.
Lemma lor_u64 a b : is_u64 a -> is_u64 b -> is_u64 (Z.lor a b).
Proof.
  intros Ha Hb. apply u64_of_bits; [apply Z.lor_nonneg; split; [apply Ha|apply Hb]|].
  intros i Hi. by rewrite Z.lor_spec, !u64_testbit_high.
Qed.
Lemma lxor_u64 a b : is_u64 a -> is_u64 b -> is_u64 (Z.lxor a b).
Proof.
  intros Ha Hb. apply u64_of_bits; [apply Z.lxor_nonneg; destruct Ha, Hb; lia|].
  intros i Hi. by rewrite Z.lxor_spec, !u64_testbit_high.
Qed.

Lemma zip_ok f a b :
  mask_ok a -> mask_ok b -> nm_bucket_count a = nm_bucket_count b ->
  (forall x y, is_u64 x -> is_u64 y -> is_u64 (f x y)) -> f 0 0 = 0 ->
  length (nm_bits a) = length (nm_bits b) /\
  Forall is_u64 (zip_with f (nm_bits a) (nm_bits b)) /\
  zlen (zip_with f (nm_bits a) (nm_bits b)) = words_needed (nm_bucket_count a).
Proof.
  intros Ha Hb Hc Hf H0. pose proof (mk_words _ Ha) as La. pose proof (mk_words _ Hb) as Lb.
  assert (Hl : length (nm_bits a) = length (nm_bits b)) by (rewrite <- Hc in Lb; unfold zlen in *; lia).
  split; [done|]. split.
  - apply Forall_lookup_2. intros i x Hx. rewrite lookup_zip_with in Hx.
    destruct (nm_bits a !! i) eqn:Ea; [|done]. simpl in Hx. destruct (nm_bits b !! i) eqn:Eb; [|done].
    injection Hx as <-. apply Hf; eapply Forall_lookup_1; [apply Ha|done|apply Hb|done].
  - unfold zlen in *. rewrite length_zip_with. lia.
Qed.

(** A zip by a bitwise operation that keeps zeros is that operation on the sets. *)
Lemma zip_mask f g a b :
  mask_ok a -> mask_ok b -> nm_bucket_count a = nm_bucket_count b ->
  (forall x y, is_u64 x -> is_u64 y -> is_u64 (f x y)) -> f 0 0 = 0 ->
  (forall x y k, is_u64 x -> is_u64 y -> 0 <= k < 64 -> Z.testbit (f x y) k = g (Z.testbit x k) (Z.testbit y k)) ->
  g false false = false ->
  let m := {| nm_bucket_count := nm_bucket_count a; nm_bits := zip_with f (nm_bits a) (nm_bits b) |} in
  mask_ok m /\ forall i, 0 <= i -> get_bit m i = g (get_bit a i) (get_bit b i).
Proof.
  intros Ha Hb Hc Hf H0 Hg Hff m. destruct (zip_ok f a b) as (Hl & Hu & Hz); try done.
  assert (Hok : mask_ok m).
  { split; simpl; [apply Ha|done|done|]. intros i Hi. rewrite word_of_zip by done.
    rewrite Hg by (apply word_of_u64; (apply Ha || apply Hb)) || apply mod64_range.
    rewrite (mk_trailing _ Ha), (mk_trailing _ Hb) by lia. done. }
  split; [done|]. intros i Hi. rewrite !get_bit_raw by done. simpl. rewrite word_of_zip by done.
  apply Hg; [apply word_of_u64, Ha|apply word_of_u64, Hb|apply mod64_range].
Qed.

Lemma shiftl_1 k : 0 <= k -> Z.shiftl 1 k = 2^k.
Proof. intros. by rewrite Z.shiftl_mul_pow2, Z.mul_1_l. Qed.

Lemma div_mod_64 i : i = 64 * (i / 64) + i mod 64.
Proof. apply Z.div_mod. lia. Qed.

Lemma words_needed_range n i : 0 <= i < n -> 0 <= i / 64 < words_needed n.
Proof.
  intros. unfold words_needed. split; [apply Z.div_pos; lia|].
  apply Z.div_lt_upper_bound; [lia|]. pose proof (div_mod_64 (n + 63)). pose proof (mod64_range (n + 63)). lia.
Qed.

(** Changing one word. *)
Lemma testbit_alter f bits i j b :
  0 <= i -> 0 <= j -> j / 64 < zlen bits ->
  (forall w, Z.testbit (f w) (i mod 64) = if decide (i = j) then b else Z.testbit w (i mod 64)) ->
  Z.testbit (word_of (alter f (Z.to_nat (j / 64)) bits) i) (i mod 64) =
    if decide (i = j) then b else Z.testbit (word_of bits i) (i mod 64).
Proof.
  intros Hi Hj Hl Hf. unfold word_of.
  assert (0 <= i / 64) by (apply Z.div_pos; lia). assert (0 <= j / 64) by (apply Z.div_pos; lia).
  destruct (decide (i / 64 = j / 64)) as [E|E].
  - rewrite E, list_lookup_alter_eq.
    destruct (bits !! Z.to_nat (j / 64)) as [w|] eqn:Ew; [apply Hf|].
    apply lookup_ge_None in Ew. unfold zlen in Hl. lia.
  - rewrite list_lookup_alter_ne by lia. rewrite decide_False by (intros ->; done). done.
Qed.

Lemma alter_u64 f n bits :
  Forall is_u64 bits -> (forall w, is_u64 w -> is_u64 (f w)) -> Forall is_u64 (alter f n bits).
Proof.
  intros Hall Hf. apply Forall_lookup_2. intros i x Hx.
  destruct (decide (i = n)) as [->|].
  - rewrite list_lookup_alter_eq in Hx. apply fmap_Some in Hx as (w & Hw & ->).
    eapply Hf, Forall_lookup_1; done.
  - rewrite list_lookup_alter_ne in Hx by done. by eapply Forall_lookup_1.
Qed.

Lemma pow2_u64 k : 0 <= k < 64 -> is_u64 (2^k).
Proof.
  intros Hk. split; [apply Z.pow_nonneg; lia|]. apply Z.pow_lt_mono_r; lia.
Qed.

Lemma set_bit_ok m j :
  mask_ok m -> 0 <= j ->
  mask_ok (set_bit m j) /\ nm_bucket_count (set_bit m j) = nm_bucket_count m /\
  forall i, 0 <= i -> get_bit (set_bit m j) i =
    if decide (i = j /\ j < nm_bucket_count m) then true else get_bit m i.
Proof.
  intros Hok Hj. unfold set_bit. destruct (Z.leb_spec (nm_bucket_count m) j) as [Hge|Hlt].
  { split; [done|]. split; [done|]. intros. rewrite decide_False; [done|lia]. }
  assert (Hw : j / 64 < zlen (nm_bits m)) by (rewrite (mk_words _ Hok); apply words_needed_range; lia).
  assert (Hbit : forall i, 0 <= i -> Z.testbit (word_of (alter (fun w => Z.lor w (Z.shiftl 1 (j mod 64)))
      (Z.to_nat (j / 64)) (nm_bits m)) i) (i mod 64) =
      if decide (i = j) then true else
      if decide (i / 64 = j / 64) then Z.testbit (word_of (nm_bits m) i) (i mod 64)
      else Z.testbit (word_of (nm_bits m) i) (i mod 64)).
  { intros i Hi. pose proof (mod64_range i). pose proof (mod64_range j).
    destruct (decide (i / 64 = j / 64)) as [E|E].
    - apply testbit_alter; [done..|]. intros w. rewrite Z.lor_spec, shiftl_1, Z.pow2_bits_eqb by lia.
      pose proof (div_mod_64 i). pose proof (div_mod_64 j).
      case_decide; [subst; rewrite Z.eqb_refl; apply orb_true_r|].
      rewrite (proj2 (Z.eqb_neq _ _)) by lia. apply orb_false_r.
    - rewrite decide_False by (intros ->; done). unfold word_of.
      assert (0 <= i / 64) by (apply Z.div_pos; lia). assert (0 <= j / 64) by (apply Z.div_pos; lia).
      by rewrite list_lookup_alter_ne by lia. }
  assert (Hok' : mask_ok {| nm_bucket_count := nm_bucket_count m;
    nm_bits := alter (fun w => Z.lor w (Z.shiftl 1 (j mod 64))) (Z.to_nat (j / 64)) (nm_bits m) |}).
  { split; simpl.
    - apply Hok.
    - unfold zlen. rewrite length_alter. apply Hok.
    - apply alter_u64; [apply Hok|]. intros w Hu. apply lor_u64; [done|].
      pose proof (mod64_range j). rewrite shiftl_1 by lia. apply pow2_u64. lia.
    - intros i Hi. rewrite Hbit by (pose proof (mk_count _ Hok); lia).
      rewrite decide_False by lia. case_decide; by apply (mk_trailing _ Hok). }
  split; [done|]. split; [done|]. intros i Hi. rewrite get_bit_raw by done. simpl. rewrite Hbit by done.
  rewrite get_bit_raw by done. repeat case_decide; naive_solver lia.
Qed.

Lemma NVTMask_new_ok n : 0 <= n -> mask_ok (NVTMask_new n) /\ forall i, get_bit (NVTMask_new n) i = false.
Proof.
  intros Hn. assert (Hw : forall i, word_of (nm_bits (NVTMask_new n)) i = 0).
  { intros i. unfold word_of. simpl. destruct (replicate _ 0 !! _) as [w|] eqn:E; [|done].
    by apply lookup_replicate in E as [-> _]. }
  split.
  - split; simpl; [done| | |].
    + unfold zlen. rewrite length_replicate. pose proof (Z.div_pos (n + 63) 64). unfold words_needed. lia.
    + by apply Forall_replicate.
    + intros i _. fold (nm_bits (NVTMask_new n)). change (replicate _ 0) with (nm_bits (NVTMask_new n)).
      rewrite Hw. apply Z.bits_0.
  - intros i. unfold get_bit. rewrite Hw. by destruct (_ <=? i).
Qed.

Lemma clear_trailing_bits n bits i :
  0 <= n -> zlen bits = words_needed n -> 0 <= i ->
  Z.testbit (word_of (clear_trailing n bits) i) (i mod 64) =
    (i <? n) && Z.testbit (word_of bits i) (i mod 64).
Proof.
  intros Hn Hl Hi. unfold clear_trailing. cbv zeta. unfold words_needed in Hl.
  pose proof (mod64_range n). pose proof (mod64_range i). pose proof (div_mod_64 n). pose proof (div_mod_64 i).
  assert (Hout : n <= i -> zlen bits <= i / 64 -> word_of bits i = 0).
  { intros _ Hge. unfold word_of. rewrite lookup_ge_None_2; [done|]. unfold zlen in Hge. lia. }
  destruct (Z.ltb_spec 0 (n mod 64)) as [Hr|Hr]; simpl.
  - assert (Hlen : zlen bits = n / 64 + 1).
    { rewrite Hl. symmetry. apply (Z.div_unique _ _ _ (n mod 64 - 1)); lia. }
    rewrite bool_decide_eq_false_2; simpl.
    2: { intros ->. rewrite zlen_nil in Hlen. assert (0 <= n / 64) by (apply Z.div_pos; lia). lia. }
    unfold word_of. assert (0 <= n / 64) by (apply Z.div_pos; lia). assert (0 <= i / 64) by (apply Z.div_pos; lia).
    replace (length bits - 1)%nat with (Z.to_nat (n / 64)) by (unfold zlen in Hlen; lia).
    destruct (decide (i / 64 = n / 64)) as [E|E].
    + rewrite E, list_lookup_alter_eq. destruct (bits !! Z.to_nat (n / 64)) as [w|]; simpl; [|by rewrite Z.bits_0, andb_false_r].
      rewrite Z.land_spec, shiftl_1 by lia.
      replace (2 ^ (n mod 64) - 1) with (Z.ones (n mod 64)) by (rewrite Z.ones_equiv; lia).
      destruct (Z.ltb_spec i n).
      * rewrite Z.ones_spec_low by lia. by rewrite andb_true_r.
      * rewrite Z.ones_spec_high by lia. by rewrite andb_false_r.
    + rewrite list_lookup_alter_ne by lia. destruct (Z.ltb_spec i n); [done|].
      rewrite lookup_ge_None_2 by (unfold zlen in *; lia). apply Z.bits_0.
  - assert (Hlen : zlen bits = n / 64).
    { rewrite Hl. symmetry. apply (Z.div_unique _ _ _ 63); lia. }
    destruct (Z.ltb_spec i n); [done|]. rewrite Hout by lia. apply Z.bits_0.
Qed.

Lemma clear_trailing_shape n bits :
  Forall is_u64 bits -> zlen (clear_trailing n bits) = zlen bits /\ Forall is_u64 (clear_trailing n bits).
Proof.
  intros Hall. unfold clear_trailing. cbv zeta. case_match; [|done]. split.
  - unfold zlen. by rewrite length_alter.
  - apply alter_u64; [done|]. intros w Hw. pose proof (mod64_range n). rewrite shiftl_1 by lia.
    apply land_u64; [done|]. pose proof (pow2_u64 (n mod 64) ltac:(lia)) as [? ?].
    pose proof (Z.pow_pos_nonneg 2 (n mod 64)). split; lia.
Qed.

(** ** The boolean algebra of masks *)

Lemma mask_not_ok a : mask_ok a ->
  mask_ok (mask_not a) /\
  forall i, 0 <= i -> get_bit (mask_not a) i = (i <? nm_bucket_count a) && negb (get_bit a i).
Proof.
  intros Ha. assert (Hu : Forall is_u64 (lnot64 <$> nm_bits a)).
  { apply Forall_fmap. eapply Forall_impl; [apply Ha|]. intros w. apply lnot64_u64. }
  assert (Hl : zlen (lnot64 <$> nm_bits a) = words_needed (nm_bucket_count a))
    by (unfold zlen; rewrite length_fmap; apply Ha).
  destruct (clear_trailing_shape (nm_bucket_count a) _ Hu) as [Hz Hu'].
  assert (Hok : mask_ok (mask_not a)).
  { split; simpl; [apply Ha|by rewrite Hz|done|]. intros i Hi. pose proof (mk_count _ Ha).
    rewrite clear_trailing_bits by (done || lia). by rewrite (proj2 (Z.ltb_ge _ _)). }
  split; [done|]. intros i Hi. rewrite get_bit_raw by done. simpl.
  rewrite clear_trailing_bits by (apply Ha || done). rewrite get_bit_raw by done.
  destruct (Z.ltb_spec i (nm_bucket_count a)) as [Hlt|]; [|done]. simpl.
  unfold word_of. rewrite list_lookup_fmap.
  destruct (lookup_lt_is_Some_2 (nm_bits a) (Z.to_nat (i / 64))) as [w Hw].
  { pose proof (mk_words _ Ha). pose proof (words_needed_range (nm_bucket_count a) i). unfold zlen in *. lia. }
  rewrite Hw. simpl. apply lnot64_testbit, mod64_range.
Qed.

Lemma mask_difference_ok a b : mask_ok a -> mask_ok b -> nm_bucket_count a = nm_bucket_count b ->
  exists m, mask_difference a b = Ok m /\ mask_ok m /\
  forall i, 0 <= i -> get_bit m i = get_bit a i && negb (get_bit b i).
Proof.
  intros Ha Hb Hc. unfold mask_difference, require_same_bucket_count. rewrite Hc, Z.eqb_refl. simpl.
  eexists. split; [done|]. rewrite <- Hc.
  set (f := fun x y => Z.land x (lnot64 y)).
  destruct (zip_ok f a b) as (Hl & Hu & Hz); [done..| |done|].
  { intros x y Hx Hy. by apply land_u64, lnot64_u64. }
  destruct (clear_trailing_shape (nm_bucket_count a) _ Hu) as [Hz' Hu'].
  set (m := {| nm_bucket_count := _; nm_bits := _ |}).
  assert (Hok : mask_ok m).
  { split; simpl; [apply Ha|by rewrite Hz'|done|]. intros i Hi. pose proof (mk_count _ Ha).
    rewrite clear_trailing_bits by (done || lia). by rewrite (proj2 (Z.ltb_ge _ _)). }
  split; [done|]. intros i Hi. rewrite !get_bit_raw by done. simpl.
  rewrite clear_trailing_bits by (apply Ha || done). rewrite word_of_zip by done. unfold f.
  rewrite Z.land_spec, lnot64_testbit by apply mod64_range.
  destruct (Z.ltb_spec i (nm_bucket_count a)); [done|]. by rewrite (mk_trailing _ Ha).
Qed.

(** A binary operation whose operands cover different bucket counts is refused. *)
Definition mask_op_is (op : NVTMask -> NVTMask -> res NVTMask) (g : bool -> bool -> bool) : Prop :=
  forall a b, mask_ok a -> mask_ok b ->
  if nm_bucket_count a =? nm_bucket_count b
  then exists m, op a b = Ok m /\ mask_ok m /\
         forall i, 0 <= i -> get_bit m i = g (get_bit a i) (get_bit b i)
  else exists e, op a b = Err e.

Lemma zip_op f g op :
  (forall x y, is_u64 x -> is_u64 y -> is_u64 (f x y)) -> f 0 0 = 0 ->
  (forall x y k, is_u64 x -> is_u64 y -> 0 <= k < 64 -> Z.testbit (f x y) k = g (Z.testbit x k) (Z.testbit y k)) ->
  g false false = false ->
  (forall a b, op a b = (_ ← require_same_bucket_count a b;
     Ok {| nm_bucket_count := nm_bucket_count a; nm_bits := zip_with f (nm_bits a) (nm_bits b) |})) ->
  mask_op_is op g.
Proof.
  intros Hf H0 Hg Hff Hop a b Ha Hb. rewrite Hop. unfold require_same_bucket_count.
  destruct (Z.eqb_spec (nm_bucket_count a) (nm_bucket_count b)) as [Hc|]; simpl; [|eauto].
  eexists. split; [done|]. by apply zip_mask.
Qed.

(** The mask operations are the boolean operations on sets of buckets: each bit
    of a result is the connective of the operands' bits, [not] complements within
    the bucket count, and every result keeps the bits past the end off. *)
Theorem mask_algebra :
  mask_op_is mask_and andb /\ mask_op_is mask_or orb /\ mask_op_is mask_xor xorb
  /\ mask_op_is mask_difference (fun x y => x && negb y)
  /\ forall a, mask_ok a -> mask_ok (mask_not a) /\
       forall i, 0 <= i -> get_bit (mask_not a) i = (i <? nm_bucket_count a) && negb (get_bit a i).
Proof.
  split_and!.
  - apply (zip_op Z.land); auto using land_u64. intros. apply Z.land_spec.
  - apply (zip_op Z.lor); auto using lor_u64. intros. apply Z.lor_spec.
  - apply (zip_op Z.lxor); auto using lxor_u64. intros. apply Z.lxor_spec.
  - intros a b Ha Hb. destruct (Z.eqb_spec (nm_bucket_count a) (nm_bucket_count b)).
    + by apply mask_difference_ok.
    + unfold mask_difference, require_same_bucket_count. rewrite (proj2 (Z.eqb_neq _ _)) by done. simpl. eauto.
  - apply mask_not_ok.
Qed.

(** ** Loops that set bits *)

(** Setting the bits a test selects, in any order of the positions. *)
Lemma set_filter_ok (p : Z -> bool) l m :
  mask_ok m -> Forall (Z.le 0) l ->
  let r := foldl (fun r i => if p i then set_bit r i else r) m l in
  mask_ok r /\ nm_bucket_count r = nm_bucket_count m /\
  forall i, 0 <= i -> get_bit r i =
    get_bit m i || bool_decide (i ∈ l /\ p i = true /\ i < nm_bucket_count m).
Proof.
  revert m. induction l as [|j l IH]; intros m Hok Hall; cbn [foldl].
  - split; [done|]. split; [done|]. intros. rewrite bool_decide_eq_false_2 by (intros [?%not_elem_of_nil _]; done).
    by rewrite orb_false_r.
  - apply Forall_cons in Hall as [Hj Hall]. destruct (p j) eqn:Ep.
    + destruct (set_bit_ok m j Hok Hj) as (Hok' & Hc' & Hb').
      destruct (IH _ Hok' Hall) as (Hr & Hc & Hb). split; [done|]. split; [congruence|].
      intros i Hi. rewrite Hb, Hb', Hc' by done. destruct (decide (i = j /\ j < nm_bucket_count m)) as [[-> ?]|Hne].
      * rewrite (bool_decide_eq_true_2 (_ ∈ j :: l /\ _)) by (split_and!; [apply elem_of_cons; by left|done|done]). by rewrite orb_true_r.
      * f_equal. apply bool_decide_ext. rewrite elem_of_cons. intuition (subst; try congruence; lia).
    + destruct (IH _ Hok Hall) as (Hr & Hc & Hb). split; [done|]. split; [done|].
      intros i Hi. rewrite Hb by done. f_equal. apply bool_decide_ext. rewrite elem_of_cons. intuition (subst; try congruence; lia).
Qed.

Lemma seqZ_nonneg a n : 0 <= a -> Forall (Z.le 0) (seqZ a n).
Proof. intros. apply Forall_forall. intros x Hx%elem_of_seqZ. lia. Qed.

Lemma foldl_set_bit l m : foldl set_bit m l = foldl (fun r i => if true then set_bit r i else r) m l.
Proof. done. Qed.

Lemma set_range_ok m a b : mask_ok m -> 0 <= a ->
  mask_ok (set_range m a b) /\ nm_bucket_count (set_range m a b) = nm_bucket_count m /\
  forall i, 0 <= i -> get_bit (set_range m a b) i =
    get_bit m i || ((a <=? i) && (i <? b) && (i <? nm_bucket_count m)).
Proof.
  intros Hok Ha. unfold set_range. rewrite foldl_set_bit.
  destruct (set_filter_ok (fun _ => true) (seqZ a (b - a)) m Hok) as (H1 & H2 & H3); [by apply seqZ_nonneg|].
  split; [done|]. split; [done|]. intros i Hi. rewrite H3 by done. f_equal.
  destruct (bool_decide _) eqn:E; symmetry.
  - apply bool_decide_eq_true in E as (E%elem_of_seqZ & _ & ?). rewrite !andb_true_iff. lia.
  - apply bool_decide_eq_false in E. rewrite elem_of_seqZ in E.
    destruct (Z.leb_spec a i), (Z.ltb_spec i b), (Z.ltb_spec i (nm_bucket_count m)); try done.
    exfalso. apply E. split_and!; [lia..|done|lia].
Qed.

(** ** Enumerating the survivors *)

Lemma testbit_pred w k i :
  0 <= k -> Z.testbit w k = true -> (forall j, 0 <= j < k -> Z.testbit w j = false) -> 0 <= i ->
  Z.testbit (Z.land w (w - 1)) i = Z.testbit w i && negb (i =? k).
Proof.
  intros Hk Hb Hlow Hi. rewrite Z.land_spec.
  destruct (decide (i < k)) as [|Hge]; [by rewrite Hlow by lia|].
  assert (Hpow : 0 < 2^k) by (apply Z.pow_pos_nonneg; lia).
  assert (Hmod : w mod 2^k = 0).
  { apply Z.bits_inj'. intros j Hj. rewrite Z.bits_0. destruct (decide (j < k)).
    - rewrite Z.mod_pow2_bits_low by lia. apply Hlow. lia.
    - apply Z.mod_pow2_bits_high. lia. }
  assert (Hdiv : (w - 1) / 2^k = w / 2^k - 1).
  { symmetry. apply (Z.div_unique _ _ _ (2^k - 1)); [lia|].
    pose proof (Z.div_mod w (2^k) ltac:(lia)). lia. }
  assert (Hodd : Z.odd (w / 2^k) = true).
  { rewrite <- Z.bit0_odd. rewrite Z.div_pow2_bits by lia. by rewrite Z.add_0_l. }
  replace i with ((i - k) + k) by lia. rewrite <- !Z.div_pow2_bits by lia. rewrite Hdiv.
  apply Z.odd_spec in Hodd as [r Hr]. rewrite Hr.
  destruct (decide (i = k)) as [->|].
  - rewrite Z.sub_diag, Z.add_0_l, Z.eqb_refl. replace (2 * r + 1 - 1) with (2 * r) by lia.
    rewrite Z.testbit_even_0. cbn [negb]. by rewrite !andb_false_r.
  - rewrite (proj2 (Z.eqb_neq _ _)) by lia. replace (2 * r + 1 - 1) with (2 * r) by lia.
    replace (i - k) with (Z.succ (i - k - 1)) by lia.
    rewrite Z.testbit_odd_succ, Z.testbit_even_succ by lia. simpl. by rewrite andb_true_r, andb_diag.
Qed.

Lemma word_bits_step w :
  is_u64 w -> w <> 0 ->
  is_u64 (Z.land w (w - 1)) /\ word_bits w = trailing_zeros w :: word_bits (Z.land w (w - 1)).
Proof.
  intros Hw Hnz. pose proof Hw as [Hw0 Hw64]. unfold trailing_zeros.
  destruct (list_find _ _) as [[idx k]|] eqn:E.
  2: { exfalso. apply list_find_None in E. rewrite Forall_forall in E. apply Hnz.
       apply Z.bits_inj'. intros i Hi. rewrite Z.bits_0. destruct (decide (i < 64)).
       - destruct (Z.testbit w i) eqn:Eb; [|done]. exfalso. apply (E i); [by apply elem_of_seqZ; lia|done].
       - apply u64_testbit_high; [done|lia]. }
  apply list_find_Some in E as (Hidx & Hb & Hfirst).
  apply lookup_seqZ in Hidx as [-> Hidx]. rewrite Z.add_0_l in *. set (k := Z.of_nat idx) in *.
  assert (Hlow : forall j, 0 <= j < k -> Z.testbit w j = false).
  { intros j Hj. destruct (Z.testbit w j) eqn:Ej; [|done]. exfalso.
    apply (Hfirst (Z.to_nat j) j); [apply lookup_seqZ; lia|lia|done]. }
  pose proof (testbit_pred w k) as Hp. split.
  - apply u64_of_bits; [apply Z.land_nonneg; lia|]. intros i Hi. rewrite Hp by (done || lia).
    by rewrite u64_testbit_high by done.
  - unfold word_bits. replace 64 with (k + (1 + (63 - k))) by lia.
    rewrite !seqZ_app by lia. rewrite Z.add_0_l, !filter_app.
    change (seqZ k 1) with [k]. rewrite !(filter_cons _ k), !filter_nil.
    rewrite Hp by (done || lia). rewrite Hb, Z.eqb_refl. cbn [negb andb].
    rewrite decide_True, decide_False by done.
    assert (Hnil : forall v, (forall j, 0 <= j < k -> Z.testbit v j = false) ->
      filter (fun i => Z.testbit v i = true) (seqZ 0 k) = []).
    { intros v Hv. apply filter_none. intros x Hx%elem_of_seqZ. rewrite Hv by lia. done. }
    rewrite Hnil by done. rewrite Hnil by (intros j Hj; rewrite Hp by (done || lia); by rewrite Hlow).
    simpl. f_equal. apply filter_ext_in. intros x Hx%elem_of_seqZ. rewrite Hp by (done || lia).
    rewrite (proj2 (Z.eqb_neq _ _)) by lia. by rewrite andb_true_r.
Qed.

Lemma word_bits_0 : word_bits 0 = [].
Proof. apply filter_none. intros x _. by rewrite Z.bits_0. Qed.

Lemma word_loop_spec fuel n base : forall w,
  is_u64 w -> (length (word_bits w) < fuel)%nat ->
  word_loop fuel n base w = filter (fun b => b < n) (Z.add base <$> word_bits w).
Proof.
  induction fuel as [|fuel IH]; intros w Hw Hf; [lia|]. cbn [word_loop]. cbv zeta.
  destruct (Z.eqb_spec w 0) as [->|Hnz]; [by rewrite word_bits_0|].
  destruct (word_bits_step w Hw Hnz) as [Hu E]. rewrite E in Hf |- *. cbn [length] in Hf.
  rewrite IH by (done || lia). rewrite fmap_cons, filter_cons.
  destruct (Z.ltb_spec (base + trailing_zeros w) n); [by rewrite decide_True|by rewrite decide_False by lia].
Qed.

Lemma word_bits_length w : (length (word_bits w) <= 64)%nat.
Proof. unfold word_bits. apply (length_filter _ (seqZ 0 64)). Qed.

(** All on bits of a word vector, in order. *)
Fixpoint raw_bits (word_index : Z) (bits : list Z) : list Z :=
  match bits with
  | [] => []
  | w :: bits => (Z.add (word_index * 64) <$> word_bits w) ++ raw_bits (word_index + 1) bits
  end.

Lemma surviving_loop_raw n bits : forall wi, Forall is_u64 bits ->
  surviving_loop n wi bits = filter (fun b => b < n) (raw_bits wi bits).
Proof.
  induction bits as [|w bits IH]; intros wi Hall; [done|]. apply Forall_cons in Hall as [Hw Hall].
  cbn [surviving_loop raw_bits]. rewrite filter_app, IH by done. f_equal.
  destruct (Z.eqb_spec w 0) as [->|]; [by rewrite word_bits_0|].
  apply word_loop_spec; [done|]. pose proof (word_bits_length w). lia.
Qed.

Lemma popcount_raw bits : forall wi, foldr Z.add 0 (count_ones <$> bits) = zlen (raw_bits wi bits).
Proof.
  induction bits as [|w bits IH]; intros wi; [done|]. cbn [fmap list_fmap foldr raw_bits].
  rewrite zlen_app, <- IH. f_equal. unfold count_ones, zlen. by rewrite length_fmap.
Qed.

Lemma raw_bits_seq bits : forall wi, 0 <= wi ->
  raw_bits wi bits = filter (fun i => Z.testbit (default 0 (bits !! Z.to_nat (i / 64 - wi))) (i mod 64) = true)
    (seqZ (wi * 64) (zlen bits * 64)).
Proof.
  induction bits as [|w bits IH]; intros wi Hwi; [done|]. cbn [raw_bits].
  rewrite zlen_cons, Z.mul_add_distr_r, seqZ_app, filter_app by zlen_lia. f_equal.
  - replace (seqZ (wi * 64) (1 * 64)) with (Z.add (wi * 64) <$> seqZ 0 64) by (rewrite fmap_add_seqZ; f_equal; lia).
    rewrite filter_fmap. f_equal. unfold word_bits. apply filter_ext_in. intros x Hx%elem_of_seqZ.
    replace ((wi * 64 + x) / 64) with wi by (apply (Z.div_unique _ _ _ x); lia).
    replace ((wi * 64 + x) mod 64) with x by (apply (Z.mod_unique _ _ wi); lia).
    rewrite Z.sub_diag. done.
  - rewrite IH by lia. replace (wi * 64 + 1 * 64) with ((wi + 1) * 64) by lia.
    apply filter_ext_in. intros x Hx%elem_of_seqZ.
    assert (wi + 1 <= x / 64) by (apply Z.div_le_lower_bound; lia).
    replace (Z.to_nat (x / 64 - wi)) with (S (Z.to_nat (x / 64 - (wi + 1)))) by lia. done.
Qed.

Lemma raw_bits_nil bits : forall wi,
  Forall is_u64 bits -> forallb (fun w => w =? 0) bits = true <-> raw_bits wi bits = [].
Proof.
  induction bits as [|w bits IH]; intros wi Hu; [done|].
  apply Forall_cons in Hu as [Hw Hu]. cbn [forallb raw_bits]. rewrite andb_true_iff, (IH (wi + 1)) by done.
  destruct (Z.eqb_spec w 0) as [->|Hnz]; [rewrite word_bits_0; simpl; tauto|].
  destruct (word_bits_step w Hw Hnz) as [_ ->]. split; [by intros [? _]|done].
Qed.

(** [surviving_buckets] lists exactly the buckets whose bit is on, in increasing
    order, [popcount] is their number and [is_empty] says there are none. *)
Theorem surviving_buckets_spec m :
  mask_ok m ->
  surviving_buckets m = filter (fun i => get_bit m i = true) (seqZ 0 (nm_bucket_count m))
  /\ popcount m = zlen (surviving_buckets m)
  /\ (mask_is_empty m = true <-> surviving_buckets m = []).
Proof.
  intros Hok. pose proof (mk_count _ Hok). pose proof (mk_words _ Hok) as Hl. unfold words_needed in Hl.
  set (n := nm_bucket_count m) in *.
  assert (Hn : n <= zlen (nm_bits m) * 64).
  { rewrite Hl. pose proof (div_mod_64 (n + 63)). pose proof (mod64_range (n + 63)). lia. }
  assert (Hraw : raw_bits 0 (nm_bits m) = filter (fun i => get_bit m i = true) (seqZ 0 n)).
  { rewrite raw_bits_seq by lia. rewrite Z.mul_0_l.
    replace (zlen (nm_bits m) * 64) with (n + (zlen (nm_bits m) * 64 - n)) by lia.
    rewrite seqZ_app, filter_app by lia. rewrite (filter_none _ (seqZ (0 + n) _)), app_nil_r.
    - apply filter_ext_in. intros i Hi%elem_of_seqZ. rewrite get_bit_raw by (done || lia).
      unfold word_of. by rewrite Z.sub_0_r.
    - intros i Hi%elem_of_seqZ. rewrite Z.sub_0_r. fold (word_of (nm_bits m) i).
      rewrite (mk_trailing _ Hok) by lia. done. }
  assert (Hs : surviving_buckets m = raw_bits 0 (nm_bits m)).
  { unfold surviving_buckets. rewrite surviving_loop_raw by apply Hok. apply filter_all.
    intros i Hi. rewrite Hraw in Hi. apply list_elem_of_filter in Hi as [_ Hi%elem_of_seqZ]. fold n. lia. }
  split; [by rewrite Hs|]. split; [unfold popcount; by rewrite (popcount_raw _ 0), Hs|].
  rewrite Hs. apply raw_bits_nil, Hok.
Qed.

(** ** Strided and progressive intersection *)

Lemma samples_elem n stride s :
  0 < stride -> s ∈ samples n stride <-> 0 <= s < n /\ s mod stride = 0.
Proof.
  intros Hst. unfold samples. rewrite list_elem_of_fmap. split.
  - intros (k & -> & Hk%elem_of_seqZ). rewrite Z.mod_mul by lia. split; [|done].
    pose proof (Z.mul_div_le (n + stride - 1) stride Hst). nia.
  - intros [Hs Hm]. exists (s / stride). pose proof (Z.div_mod s stride ltac:(lia)).
    split; [lia|]. apply elem_of_seqZ. split; [apply Z.div_pos; lia|].
    rewrite Z.add_0_l. apply Z.lt_le_trans with (s / stride + 1); [lia|].
    apply Z.div_le_lower_bound; nia.
Qed.

(** The nested loop of [and_progressive], region by region. *)
Lemma progressive_loop (p : Z -> bool) stride n regions m :
  mask_ok m -> nm_bucket_count m = n -> Forall (Z.le 0) regions ->
  let r := foldl (fun r s => foldl (fun r i => if p i then set_bit r i else r)
             r (seqZ s (Z.min (s + stride) n - s))) m regions in
  mask_ok r /\ nm_bucket_count r = n /\
  forall i, 0 <= i -> get_bit r i = true <->
    get_bit m i = true \/ (p i = true /\ i < n /\ exists s, s ∈ regions /\ s <= i < s + stride).
Proof.
  revert m. induction regions as [|s regions IH]; intros m Hok Hc Hall; cbn [foldl].
  - split; [done|]. split; [done|]. intros i Hi. split; [by left|].
    intros [?|(_ & _ & s & Hs & _)]; [done|]. by apply not_elem_of_nil in Hs.
  - apply Forall_cons in Hall as [Hs Hall].
    destruct (set_filter_ok p (seqZ s (Z.min (s + stride) n - s)) m Hok) as (Hok1 & Hc1 & Hb1);
      [by apply seqZ_nonneg|].
    destruct (IH _ Hok1 ltac:(by rewrite Hc1) Hall) as (Hr & Hcr & Hbr).
    split; [done|]. split; [done|]. intros i Hi. rewrite Hbr, Hb1, Hc by done.
    rewrite orb_true_iff, bool_decide_eq_true, elem_of_seqZ. split.
    + intros [[?|(Hin & Hp & Hlt)]|(Hp & Hlt & s' & Hs' & Hr')]; [by left|right|right].
      * split_and!; [done..|]. exists s. split; [apply elem_of_cons; by left|lia].
      * split_and!; [done..|]. exists s'. split; [apply elem_of_cons; by right|lia].
    + intros [?|(Hp & Hlt & s' & Hs' & Hr')]; [by left; left|].
      apply elem_of_cons in Hs' as [->|Hs']; [left; right; split_and!; lia || done|].
      right. split_and!; [done..|]. by exists s'.
Qed.

Lemma and_progressive_bits a b stride :
  mask_ok a -> mask_ok b -> nm_bucket_count a = nm_bucket_count b ->
  exists m, and_progressive a b stride = Ok m /\ mask_ok m /\
  forall i, 0 <= i -> get_bit m i = true <->
    get_bit a i = true /\ get_bit b i = true /\
    let s := i - i mod Z.max stride 1 in get_bit a s = true /\ get_bit b s = true.
Proof.
  intros Ha Hb Hc. unfold and_progressive, require_same_bucket_count. rewrite Hc, Z.eqb_refl. simpl negb.
  cbv iota. rewrite <- Hc. set (st := Z.max stride 1). assert (Hst : 0 < st) by lia.
  set (n := nm_bucket_count a). destruct (NVTMask_new_ok n) as [Hnew Hoff]; [apply Ha|].
  set (regions := filter _ _). eexists. split; [done|]. fold n st.
  assert (Hreg : forall s, s ∈ regions <-> (0 <= s < n /\ s mod st = 0) /\ get_bit a s = true /\ get_bit b s = true).
  { intros s. unfold regions. rewrite list_elem_of_filter, samples_elem, andb_true_iff by done. tauto. }
  destruct (progressive_loop (fun i => get_bit a i && get_bit b i) st n regions (NVTMask_new n)) as (Hok & _ & Hbits);
    [done..| |].
  { apply Forall_forall. intros s Hs%Hreg. lia. }
  split; [done|]. intros i Hi. rewrite Hbits, Hoff, andb_true_iff by done.
  pose proof (Z.div_mod i st ltac:(lia)). pose proof (Z.mod_pos_bound i st Hst). split.
  - intros [?|([H1 H2] & Hlt & s & [[Hs Hm] Hab]%Hreg & Hsi)]; [done|].
    assert (i - i mod st = s) as ->; [|tauto].
    pose proof (Z.div_mod s st ltac:(lia)). rewrite Hm in *.
    assert (i / st = s / st) by (symmetry; apply (Z.div_unique i st (s / st) (i - s)); lia). lia.
  - intros (H1 & H2 & H3 & H4). right.
    assert (Hlt : i < n) by (unfold get_bit in H1; destruct (Z.leb_spec (nm_bucket_count a) i); [done|]; unfold n; lia).
    split_and!; [done..|]. exists (i - i mod st). split; [|lia]. apply Hreg.
    assert (0 <= i / st) by (apply Z.div_pos; lia).
    split; [|tauto]. split; [nia|]. replace (i - i mod st) with (i / st * st) by lia. apply Z.mod_mul. lia.
Qed.

(** [and_progressive] keeps a bucket exactly when it is in both masks and the
    first bucket of its stride window is too: it is a subset of [and], and [and]
    itself for stride 1. *)
Theorem and_progressive_spec a b stride :
  mask_ok a -> mask_ok b -> nm_bucket_count a = nm_bucket_count b ->
  exists m, and_progressive a b stride = Ok m /\ mask_ok m /\
  (forall i, 0 <= i -> get_bit m i = true <->
    get_bit a i = true /\ get_bit b i = true /\
    let s := i - i mod Z.max stride 1 in get_bit a s = true /\ get_bit b s = true)
  /\ (stride <= 1 -> forall i, 0 <= i -> get_bit m i = get_bit a i && get_bit b i).
Proof.
  intros Ha Hb Hc. destruct (and_progressive_bits a b stride Ha Hb Hc) as (m & E & Hok & Hbits).
  exists m. split_and!; [done..|]. intros Hst i Hi.
  pose proof (Hbits i Hi) as Hi'. replace (Z.max stride 1) with 1 in Hi' by lia.
  rewrite Z.mod_1_r, Z.sub_0_r in Hi'. cbv zeta in Hi'.
  destruct (get_bit m i), (get_bit a i), (get_bit b i); simpl; naive_solver.
Qed.

(** With a stride above 1 it loses common buckets: here bucket 1 is in both masks
    and in their [and], but the sample at bucket 0 is off. *)
Theorem and_progressive_drops :
  let m := set_bit (NVTMask_new 8) 1 in
  get_bit m 1 = true /\ (r ← mask_and m m; Ok (get_bit r 1)) = Ok true
  /\ (r ← and_progressive m m 4; Ok (get_bit r 1)) = Ok false.
Proof. by vm_compute. Qed.

(** ** Witnesses *)

Definition sample_mask (n i : Z) : NVTMask := set_bit (NVTMask_new n) i.

Lemma sample_mask_ok n i : 0 <= n -> 0 <= i -> mask_ok (sample_mask n i).
Proof. intros Hn Hi. apply set_bit_ok; [by apply NVTMask_new_ok|done]. Qed.

Lemma mask_algebra_witness :
  mask_ok (mask_not (sample_mask 70 3)) /\
  get_bit (mask_not (sample_mask 70 3)) 69 = (69 <? 70) && negb (get_bit (sample_mask 70 3) 69).
Proof.
  destruct mask_algebra as (_ & _ & _ & _ & H).
  destruct (H (sample_mask 70 3) (sample_mask_ok 70 3 ltac:(lia) ltac:(lia))) as [H1 H2].
  split; [exact H1|exact (H2 69 ltac:(lia))].
Defined.

Lemma surviving_buckets_spec_witness :
  surviving_buckets (sample_mask 70 65)
    = filter (fun i => get_bit (sample_mask 70 65) i = true) (seqZ 0 (nm_bucket_count (sample_mask 70 65)))
  /\ popcount (sample_mask 70 65) = zlen (surviving_buckets (sample_mask 70 65))
  /\ (mask_is_empty (sample_mask 70 65) = true <-> surviving_buckets (sample_mask 70 65) = []).
Proof. exact (surviving_buckets_spec _ (sample_mask_ok 70 65 ltac:(lia) ltac:(lia))). Defined.

Lemma and_progressive_spec_witness :
  exists m, and_progressive (sample_mask 70 4) (sample_mask 70 4) 4 = Ok m /\ mask_ok m /\
  (forall i, 0 <= i -> get_bit m i = true <->
    get_bit (sample_mask 70 4) i = true /\ get_bit (sample_mask 70 4) i = true /\
    let s := i - i mod Z.max 4 1 in get_bit (sample_mask 70 4) s = true /\ get_bit (sample_mask 70 4) s = true)
  /\ (4 <= 1 -> forall i, 0 <= i -> get_bit m i = get_bit (sample_mask 70 4) i && get_bit (sample_mask 70 4) i).
Proof.
  exact (and_progressive_spec (sample_mask 70 4) (sample_mask 70 4) 4
    (sample_mask_ok 70 4 ltac:(lia) ltac:(lia)) (sample_mask_ok 70 4 ltac:(lia) ltac:(lia)) eq_refl).
Defined.
