(* ===== verification/KvStore.v ===== *)
(** The in-memory key/value index (src/aeordb-lib/src/engine/kv_store.rs): entries
    sorted by hash, with a vector table that narrows a lookup to one bucket; and
    the manager that buffers writes while the index is resized (kv_resize.rs). *)
From S2P Require Import Prelude Sorted Codec EntryFormat KvEntry Converters Nvt.

Local Open Scope Z_scope.

Record KVStore := {
  ks_version : byte;
  ks_hash_algo : HashAlgorithm;
  ks_entries : list KVEntry;
  ks_nvt : NormalizedVectorTable;
}.

Definition KVStore_new (hash_algo : HashAlgorithm) (initial_nvt_buckets : Z) : KVStore :=
  {| ks_version := z2b 1; ks_hash_algo := hash_algo; ks_entries := [];
     ks_nvt := NVT_new HashConverter initial_nvt_buckets |}.

Definition with_entries (s : KVStore) (entries : list KVEntry) : KVStore :=
  {| ks_version := ks_version s; ks_hash_algo := ks_hash_algo s; ks_entries := entries; ks_nvt := ks_nvt s |}.

Definition with_nvt (s : KVStore) (nvt : NormalizedVectorTable) : KVStore :=
  {| ks_version := ks_version s; ks_hash_algo := ks_hash_algo s; ks_entries := ks_entries s; ks_nvt := nvt |}.

(** [entries.binary_search_by(|e| e.hash.cmp(hash))]. *)
Definition binary_search (entries : list KVEntry) (hash : bytes) : nat + nat :=
  binary_search_by kv_hash entries hash.

Definition wrap32 (z : Z) : Z := z mod 2^32.

(** One round of the loop over the buckets: bucket [i] of the table after an
    entry of bucket [bucket_index] was inserted at [insert_index]. *)
Definition increment_bucket (bucket_index insert_index : Z) (i : nat) (bucket : NVTBucket) : NVTBucket :=
  if Z.of_nat i =? bucket_index then
    if nb_entry_count bucket =? 0
    then {| nb_kv_block_offset := insert_index; nb_entry_count := 1 |}
    else
      let new_offset := Z.min (nb_kv_block_offset bucket) insert_index in
      {| nb_kv_block_offset := new_offset; nb_entry_count := wrap32 (nb_entry_count bucket + 1) |}
  else if (insert_index <=? nb_kv_block_offset bucket) && (0 <? nb_entry_count bucket)
  then {| nb_kv_block_offset := wrap64 (nb_kv_block_offset bucket + 1); nb_entry_count := nb_entry_count bucket |}
  else bucket.

Definition nvt_increment (t : NormalizedVectorTable) (bucket_index insert_index : Z) : NormalizedVectorTable :=
  with_buckets t (imap (increment_bucket bucket_index insert_index) (nvt_buckets t)).

Definition decrement_bucket (bucket_index remove_index : Z) (i : nat) (bucket : NVTBucket) : NVTBucket :=
  if nb_entry_count bucket =? 0 then bucket else
  if Z.of_nat i =? bucket_index then
    if nb_entry_count bucket <=? 1 then empty_bucket
    else {| nb_kv_block_offset := nb_kv_block_offset bucket; nb_entry_count := nb_entry_count bucket - 1 |}
  else if remove_index <? nb_kv_block_offset bucket
  then {| nb_kv_block_offset := nb_kv_block_offset bucket - 1; nb_entry_count := nb_entry_count bucket |}
  else bucket.

Definition nvt_decrement (t : NormalizedVectorTable) (bucket_index remove_index : Z) : NormalizedVectorTable :=
  with_buckets t (imap (decrement_bucket bucket_index remove_index) (nvt_buckets t)).

Section KVStore.
Context `{ToScalar}.

Definition insert (s : KVStore) (entry : KVEntry) : KVStore :=
  match binary_search (ks_entries s) (kv_hash entry) with
  | inl i => with_entries s (<[i := entry]> (ks_entries s))
  | inr i =>
    let bucket_index := bucket_for_value (ks_nvt s) (kv_hash entry) in
    let entries := take i (ks_entries s) ++ entry :: drop i (ks_entries s) in
    with_nvt (with_entries s entries) (nvt_increment (ks_nvt s) bucket_index (Z.of_nat i))
  end.

Definition get (s : KVStore) (hash : bytes) : res (option KVEntry) :=
  let bucket_index := bucket_for_value (ks_nvt s) hash in
  bucket ← get_bucket (ks_nvt s) bucket_index;
  let start := nb_kv_block_offset bucket in
  let count := nb_entry_count bucket in
  if (zlen (ks_entries s) <=? start) || (count =? 0) then Ok None else
  let stop := Z.min (start + count) (zlen (ks_entries s)) in
  range ← slice_chk (ks_entries s) start stop;
  match binary_search range hash with
  | inl relative_index => e ← index (ks_entries s) (start + Z.of_nat relative_index); Ok (Some e)
  | inr _ => Ok None
  end.

Definition remove (s : KVStore) (hash : bytes) : option KVEntry * KVStore :=
  match binary_search (ks_entries s) hash with
  | inl i =>
    let bucket_index := bucket_for_value (ks_nvt s) hash in
    let removed := ks_entries s !! i in
    let entries := take i (ks_entries s) ++ drop (S i) (ks_entries s) in
    (removed, with_nvt (with_entries s entries) (nvt_decrement (ks_nvt s) bucket_index (Z.of_nat i)))
  | inr _ => (None, s)
  end.

Definition update_offset (s : KVStore) (hash : bytes) (new_offset : Z) : bool * KVStore :=
  match binary_search (ks_entries s) hash with
  | inl i =>
    (true, with_entries s (alter (fun e => {| kv_type_flags := kv_type_flags e; kv_hash := kv_hash e;
      kv_offset := new_offset; kv_total_length := kv_total_length e |}) i (ks_entries s)))
  | inr _ => (false, s)
  end.

Definition update_flags (s : KVStore) (hash : bytes) (new_flags : Z) : bool * KVStore :=
  match binary_search (ks_entries s) hash with
  | inl i =>
    (true, with_entries s (alter (fun e =>
      let entry_type := Z.land (b2z (kv_type_flags e)) 0x0F in
      {| kv_type_flags := z2b (Z.lor entry_type (Z.land new_flags 0xF0)); kv_hash := kv_hash e;
         kv_offset := kv_offset e; kv_total_length := kv_total_length e |}) i (ks_entries s)))
  | inr _ => (false, s)
  end.

Definition contains (s : KVStore) (hash : bytes) : res bool :=
  o ← get s hash; Ok (match o with Some _ => true | None => false end).

Definition entries_in_range (s : KVStore) (start_offset end_offset : Z) : list KVEntry :=
  filter (fun e => start_offset <= kv_offset e /\ kv_offset e < end_offset) (ks_entries s).

(** The pass over the entries of [rebuild_nvt]: the current bucket, where it
    starts and how many entries it has, and the table so far. *)
Definition rebuild_step (st : option Z * Z * Z * NormalizedVectorTable) (ie : nat * KVEntry)
    : option Z * Z * Z * NormalizedVectorTable :=
  let '(current_bucket, bucket_start, count, t) := st in
  let '(entry_index, entry) := ie in
  let bucket_index := bucket_for_value t (kv_hash entry) in
  if bool_decide (current_bucket = Some bucket_index)
  then (current_bucket, bucket_start, wrap32 (count + 1), t)
  else
    let t :=
      match current_bucket with
      | Some previous =>
        with_buckets t (<[Z.to_nat previous := {| nb_kv_block_offset := bucket_start; nb_entry_count := count |}]> (nvt_buckets t))
      | None => t
      end in
    (Some bucket_index, Z.of_nat entry_index, 1, t).

Definition rebuild_nvt (s : KVStore) : KVStore :=
  let t := with_buckets (ks_nvt s) ((fun _ => empty_bucket) <$> nvt_buckets (ks_nvt s)) in
  if bool_decide (ks_entries s = []) then with_nvt s t else
  let '(current_bucket, bucket_start, count, t) :=
    foldl rebuild_step (None, 0, 0, t) (imap (fun i e => (i, e)) (ks_entries s)) in
  match current_bucket with
  | Some previous =>
    with_nvt s (with_buckets t (<[Z.to_nat previous := {| nb_kv_block_offset := bucket_start; nb_entry_count := count |}]> (nvt_buckets t)))
  | None => with_nvt s t
  end.
End KVStore.

Definition store_entry_bytes (e : KVEntry) : bytes :=
  [kv_type_flags e] ++ kv_hash e ++ u64_le (kv_offset e) ++ u32_le (kv_total_length e).

Definition KVStore_serialize (s : KVStore) : bytes :=
  let nvt_data := NVT_serialize (ks_nvt s) in
  [ks_version s] ++ u16_le (HashAlgorithm_to_u16 (ks_hash_algo s)) ++ u64_le (zlen (ks_entries s))
  ++ concat (store_entry_bytes <$> ks_entries s)
  ++ u32_le (zlen nvt_data mod 2^32) ++ nvt_data.

Fixpoint read_store_entries (n : nat) (data : bytes) (hash_length cursor : Z) : res (list KVEntry * Z) :=
  match n with
  | O => Ok ([], cursor)
  | S n =>
    type_flags ← index data cursor;
    let cursor := cursor + 1 in
    hash ← slice_chk data cursor (cursor + hash_length);
    let cursor := cursor + hash_length in
    offset ← le_at data cursor 8;
    let cursor := cursor + 8 in
    total_length ← le_at data cursor 4;
    let cursor := cursor + 4 in
    '(es, cursor) ← read_store_entries n data hash_length cursor;
    Ok ({| kv_type_flags := type_flags; kv_hash := hash; kv_offset := offset;
           kv_total_length := total_length |} :: es, cursor)
  end.

(** The largest allocation [Vec::with_capacity] accepts; beyond it it panics with
    a capacity overflow.  An entry takes 40 bytes in memory. *)
Definition with_capacity_ok (entry_count : Z) : bool := entry_count * 40 <=? 2^63 - 1.

(** Length arithmetic is [usize] arithmetic of a release build. *)
Definition KVStore_deserialize (data : bytes) : res KVStore :=
  if zlen data <? 11 then Err (CorruptEntry 0 "KVStore data too short for header") else
  version ← index data 0;
  if b2z version =? 0 then Err (CorruptEntry 0 "Invalid KVStore version: {}") else
  hash_algo_raw ← le_at data 1 2;
  hash_algo ← ok_or (HashAlgorithm_from_u16 hash_algo_raw) (InvalidHashAlgorithm hash_algo_raw);
  entry_count ← le_at data 3 8;
  let hash_length := hash_length hash_algo in
  let entry_size := 1 + hash_length + 8 + 4 in
  let entries_end := wrap64 (11 + entry_count * entry_size) in
  if zlen data <? wrap64 (entries_end + 4)
  then Err (CorruptEntry 0 "KVStore data too short: expected at least {} bytes, got {}") else
  if negb (with_capacity_ok entry_count) then Panic else
  '(entries, cursor) ← read_store_entries (Z.to_nat entry_count) data hash_length 11;
  nvt_length ← le_at data cursor 4;
  let cursor := cursor + 4 in
  if zlen data <? cursor + nvt_length
  then Err (CorruptEntry 0 "KVStore data too short for NVT section") else
  nd ← slice_chk data cursor (cursor + nvt_length);
  nvt ← NVT_deserialize nd;
  Ok {| ks_version := version; ks_hash_algo := hash_algo; ks_entries := entries; ks_nvt := nvt |}.

(** ** The resize manager *)

Record KVResizeManager := {
  rm_primary : KVStore;
  rm_buffer : option KVStore;
  rm_is_resizing : bool;
}.

Definition KVResizeManager_new (primary : KVStore) : KVResizeManager :=
  {| rm_primary := primary; rm_buffer := None; rm_is_resizing := false |}.

Definition begin_resize (m : KVResizeManager) : KVResizeManager :=
  {| rm_primary := rm_primary m;
     rm_buffer := Some (KVStore_new (ks_hash_algo (rm_primary m)) 64);
     rm_is_resizing := true |}.

Section Resize.
Context `{ToScalar}.

Definition end_resize (m : KVResizeManager) : KVResizeManager :=
  let primary :=
    match rm_buffer m with
    | Some buffer => foldl insert (rm_primary m) (ks_entries buffer)
    | None => rm_primary m
    end in
  {| rm_primary := primary; rm_buffer := None; rm_is_resizing := false |}.

Definition rm_insert (m : KVResizeManager) (entry : KVEntry) : KVResizeManager :=
  match rm_is_resizing m, rm_buffer m with
  | true, Some buffer =>
    {| rm_primary := rm_primary m; rm_buffer := Some (insert buffer entry); rm_is_resizing := true |}
  | _, _ =>
    {| rm_primary := insert (rm_primary m) entry; rm_buffer := rm_buffer m; rm_is_resizing := rm_is_resizing m |}
  end.

Definition rm_get (m : KVResizeManager) (hash : bytes) : res (option KVEntry) :=
  match rm_is_resizing m, rm_buffer m with
  | true, Some buffer =>
    o ← get buffer hash;
    match o with
    | Some entry => Ok (Some entry)
    | None => get (rm_primary m) hash
    end
  | _, _ => get (rm_primary m) hash
  end.
End Resize.

(** ** Sorted entries *)

Abbreviation hash_lt := (key_lt kv_hash).

Lemma binary_search_spec l h :
  StronglySorted hash_lt l -> search_result kv_hash l h (binary_search l h).
Proof. apply binary_search_by_spec. Qed.

(** The entries as a finite map. *)
Definition store_map (s : KVStore) : gmap bytes KVEntry :=
  list_to_map ((fun e => (kv_hash e, e)) <$> ks_entries s).

Definition entries_map (l : list KVEntry) : gmap bytes KVEntry := list_to_map ((fun e => (kv_hash e, e)) <$> l).

Lemma entries_map_app l1 l2 : entries_map (l1 ++ l2) = entries_map l1 ∪ entries_map l2.
Proof. unfold entries_map. by rewrite fmap_app, list_to_map_app. Qed.

Lemma entries_map_cons e l : entries_map (e :: l) = <[kv_hash e := e]> (entries_map l).
Proof. done. Qed.

Lemma entries_map_None l h : (forall x, x ∈ l -> kv_hash x <> h) -> entries_map l !! h = None.
Proof.
  intros Hn. unfold entries_map. apply not_elem_of_list_to_map_1. rewrite <- list_fmap_compose.
  rewrite list_elem_of_fmap. intros (x & -> & Hx). by apply (Hn x).
Qed.

Lemma lt_neq_l l h : Forall (fun x => lex_lt (kv_hash x) h) l -> forall x, x ∈ l -> kv_hash x <> h.
Proof. rewrite Forall_forall. intros Hl x Hx <-. by apply (lex_lt_irrefl (kv_hash x)), Hl. Qed.
Lemma lt_neq_r l h : Forall (fun x => lex_lt h (kv_hash x)) l -> forall x, x ∈ l -> kv_hash x <> h.
Proof. rewrite Forall_forall. intros Hl x Hx <-. by apply (lex_lt_irrefl (kv_hash x)), Hl. Qed.

(** The three shapes of an update, as map updates. *)
Lemma entries_map_middle l1 e l2 h :
  kv_hash e = h -> Forall (fun x => lex_lt (kv_hash x) h) l1 ->
  entries_map (l1 ++ e :: l2) = <[h := e]> (entries_map (l1 ++ l2)).
Proof.
  intros <- H1. rewrite !entries_map_app, entries_map_cons.
  rewrite insert_union_r; [done|]. by apply entries_map_None, lt_neq_l.
Qed.

Lemma entries_map_absent l1 l2 h :
  Forall (fun x => lex_lt (kv_hash x) h) l1 -> Forall (fun x => lex_lt h (kv_hash x)) l2 ->
  entries_map (l1 ++ l2) !! h = None.
Proof.
  intros H1 H2. apply entries_map_None. intros x [Hx|Hx]%elem_of_app; [by eapply lt_neq_l|by eapply lt_neq_r].
Qed.

(** ** The table describes the entries *)

Section StoreProofs.
Context `{ToScalar}.

(** What the index needs of its converter: hashes of the store's length go to
    buckets in order. *)
Definition ordered (c : Converter) (hl : Z) : Prop :=
  forall a b n, 0 <= n -> zlen a = hl -> zlen b = hl -> lex_lt a b -> scaled c a n <= scaled c b n.

Lemma hash_ordered hl : 8 <= hl -> ordered HashConverter hl.
Proof.
  intros Hhl a b n Hn Ha Hb Hlt. rewrite !scaled_hash. apply hash_scaled_lex; (lia || done).
Qed.

Section Counts.
Context (f : KVEntry -> Z) (l : list KVEntry).

(** The entries of a bucket, and those of the buckets before it. *)
Definition in_bucket (b : Z) : Z := zlen (filter (fun e => f e = b) l).
Definition before_bucket (b : Z) : Z := zlen (filter (fun e => f e < b) l).
End Counts.

(** A bucket of the table is right about the entries. *)
Definition bucket_ok (f : KVEntry -> Z) (l : list KVEntry) (b : Z) (bk : NVTBucket) : Prop :=
  nb_entry_count bk = in_bucket f l b /\
  (0 < in_bucket f l b -> nb_kv_block_offset bk = before_bucket f l b).

Definition entry_bucket (t : NormalizedVectorTable) (e : KVEntry) : Z := bucket_for_value t (kv_hash e).

Record ks_ok (s : KVStore) : Prop := {
  ks_sorted : StronglySorted hash_lt (ks_entries s);
  ks_hashes : Forall (fun e => zlen (kv_hash e) = hash_length (ks_hash_algo s)) (ks_entries s);
  ks_ordered : ordered (nvt_converter (ks_nvt s)) (hash_length (ks_hash_algo s));
  ks_buckets : 0 < nvt_bucket_count (ks_nvt s);
  ks_small : zlen (ks_entries s) < 2^32;
  ks_table : forall b bk, nvt_buckets (ks_nvt s) !! b = Some bk ->
    bucket_ok (entry_bucket (ks_nvt s)) (ks_entries s) (Z.of_nat b) bk;
}.

Lemma bucket_for_value_range t h :
  0 < nvt_bucket_count t -> 0 <= bucket_for_value t h < nvt_bucket_count t.
Proof.
  intros Hn. unfold bucket_for_value, saturating_sub. pose proof (scaled_nonneg (nvt_converter t) h (nvt_bucket_count t)). lia.
Qed.

Lemma bucket_for_value_mono t hl a b :
  ordered (nvt_converter t) hl -> zlen a = hl -> zlen b = hl -> lex_lt a b ->
  bucket_for_value t a <= bucket_for_value t b.
Proof.
  intros Ho Ha Hb Hlt. unfold bucket_for_value.
  pose proof (Ho a b (nvt_bucket_count t) (zlen_nonneg _) Ha Hb Hlt). lia.
Qed.

Lemma sorted_by_bucket t hl l :
  ordered (nvt_converter t) hl -> StronglySorted hash_lt l -> Forall (fun e => zlen (kv_hash e) = hl) l ->
  StronglySorted (fun a b => entry_bucket t a <= entry_bucket t b) l.
Proof.
  intros Ho Hs. induction Hs as [|a l Hs IH Hall]; intros Hl; [constructor|].
  apply Forall_cons in Hl as [Ha Hl]. constructor; [by apply IH|].
  rewrite Forall_forall in Hall, Hl |- *. intros b Hb.
  eapply bucket_for_value_mono; [done..|by apply Hl|by apply Hall].
Qed.

(** Entries sorted by bucket: those of one bucket are a contiguous run. *)
Lemma bucket_run f (l : list KVEntry) b :
  StronglySorted (fun x y => f x <= f y) l ->
  l = filter (fun e => f e < b) l ++ filter (fun e => f e = b) l ++ filter (fun e => b < f e) l.
Proof.
  intros Hs. rewrite (sorted_split (fun x y => f x <= f y) (fun e => f e < b) l) at 1; [|done|simpl; lia]. f_equal.
  induction Hs as [|a l Hs IH Hall]; [done|]. rewrite !filter_cons. rewrite Forall_forall in Hall.
  destruct (decide (f a < b)); [rewrite !decide_False by lia; done|].
  rewrite decide_True by lia. destruct (decide (f a = b)) as [E|E].
  - rewrite (decide_False (P := b < f a)) by lia. simpl. by rewrite IH.
  - rewrite decide_True by lia.
    rewrite (filter_none (fun e => f e = b)) by (intros x Hx%Hall; lia).
    simpl. f_equal. apply filter_ext_in. intros x Hx%Hall. lia.
Qed.

Lemma ks_get_spec s h :
  ks_ok s -> zlen h = hash_length (ks_hash_algo s) -> get s h = Ok (store_map s !! h).
Proof.
  intros [Hs Hh Ho Hb Hsm Ht] Hl. unfold get. cbv zeta.
  set (t := ks_nvt s) in *. set (k := bucket_for_value t h).
  pose proof (bucket_for_value_range t h Hb) as Hk. fold k in Hk.
  unfold get_bucket. destruct (index_ok (nvt_buckets t) k) as [bk Ebk]; [done|]. rewrite Ebk, bind_ret.
  assert (Hlk : nvt_buckets t !! Z.to_nat k = Some bk).
  { unfold index in Ebk. case_match; [|done]. destruct (nvt_buckets t !! Z.to_nat k); congruence. }
  apply Ht in Hlk. rewrite Z2Nat.id in Hlk by lia. destruct Hlk as [Hc Hoff].
  set (l := ks_entries s) in *. set (f := entry_bucket t) in *.
  assert (Hrun := bucket_run f l k (sorted_by_bucket _ _ _ Ho Hs Hh)).
  set (l1 := filter (fun e => f e < k) l) in *. set (l2 := filter (fun e => f e = k) l) in *.
  set (l3 := filter (fun e => k < f e) l) in *.
  assert (Hfind : forall e, e ∈ l -> kv_hash e = h -> e ∈ l2).
  { intros e He Heq. apply list_elem_of_filter. split; [|done]. unfold f, entry_bucket. by rewrite Heq. }
  unfold store_map. fold l. change (list_to_map _) with (entries_map l).
  rewrite Hc. change (in_bucket f l k) with (zlen l2) in *. change (before_bucket f l k) with (zlen l1) in *.
  destruct (decide (zlen l2 = 0)) as [E0|E0].
  { rewrite E0, Z.eqb_refl, orb_true_r. f_equal. symmetry. apply entries_map_None.
    intros x Hx Heq. specialize (Hfind x Hx Heq).
    assert (l2 = []) as E by (apply length_zero_iff_nil; unfold zlen in E0; lia).
    rewrite E in Hfind. by apply not_elem_of_nil in Hfind. }
  pose proof (zlen_nonneg l1). pose proof (zlen_nonneg l2). pose proof (zlen_nonneg l3).
  assert (Hll : zlen l = zlen l1 + zlen l2 + zlen l3) by (rewrite Hrun at 1; rewrite !zlen_app; lia).
  rewrite Hoff by lia. rewrite (proj2 (Z.leb_gt _ _)), (proj2 (Z.eqb_neq _ _)) by lia. cbn [orb].
  rewrite Z.min_l by lia.
  assert (HA : suffix_at l (zlen l1) (l2 ++ l3)) by (exists l1; done).
  rewrite (suffix_at_slice_chk _ _ _ _ _ HA eq_refl), bind_ret.
  assert (Hs2 : StronglySorted hash_lt l2).
  { rewrite Hrun in Hs. apply StronglySorted_app_iff in Hs as (_ & Hs & _).
    by apply StronglySorted_app_iff in Hs as (Hs & _). }
  destruct (binary_search_spec l2 h Hs2) as [m1 e m2 El2 He Hm1 Hm2|m1 m2 El2 Hm1 Hm2].
  - rewrite El2, <- app_assoc, <- app_comm_cons in HA.
    pose proof (suffix_at_app _ _ _ _ _ HA eq_refl) as HB.
    fold (zlen m1). rewrite (suffix_at_index _ _ _ _ HB), bind_ret. f_equal. symmetry.
    apply elem_of_list_to_map_1.
    { rewrite <- list_fmap_compose. by apply sorted_keys_NoDup. }
    apply list_elem_of_fmap. exists e. rewrite He. split; [done|].
    rewrite Hrun, El2, !elem_of_app, elem_of_cons. tauto.
  - f_equal. symmetry. apply entries_map_None. intros x Hx Heq. specialize (Hfind x Hx Heq).
    rewrite El2 in Hfind. apply elem_of_app in Hfind as [Hf|Hf]; [by apply (lt_neq_l _ _ Hm1 x)|by apply (lt_neq_r _ _ Hm2 x)].
Qed.

(** ** Counting around an update *)

Lemma filter_insert_len (P : KVEntry -> Prop) `{!forall x, Decision (P x)} l1 e l2 :
  zlen (filter P (l1 ++ e :: l2)) = zlen (filter P (l1 ++ l2)) + (if decide (P e) then 1 else 0).
Proof. rewrite !filter_app, !zlen_app, filter_cons. case_decide; rewrite ?zlen_cons; lia. Qed.

Lemma in_bucket_insert f l1 e l2 b :
  in_bucket f (l1 ++ e :: l2) b = in_bucket f (l1 ++ l2) b + (if decide (f e = b) then 1 else 0).
Proof. apply filter_insert_len. Qed.

Lemma before_bucket_insert f l1 e l2 b :
  before_bucket f (l1 ++ e :: l2) b = before_bucket f (l1 ++ l2) b + (if decide (f e < b) then 1 else 0).
Proof. apply filter_insert_len. Qed.

Lemma before_succ f l b : before_bucket f l b + in_bucket f l b = zlen (filter (fun e => f e <= b) l).
Proof.
  unfold before_bucket, in_bucket. induction l as [|e l IH]; [done|]. rewrite !filter_cons.
  repeat case_decide; rewrite ?zlen_cons; lia.
Qed.

(** Where a position between smaller and larger hashes falls among the runs. *)
Lemma position_bounds f l1 l2 k :
  Forall (fun x => f x <= k) l1 -> Forall (fun x => k <= f x) l2 ->
  before_bucket f (l1 ++ l2) k <= zlen l1 <= before_bucket f (l1 ++ l2) k + in_bucket f (l1 ++ l2) k
  /\ (forall b, b < k -> before_bucket f (l1 ++ l2) b + in_bucket f (l1 ++ l2) b <= zlen l1)
  /\ (forall b, k < b -> zlen l1 <= before_bucket f (l1 ++ l2) b).
Proof.
  intros H1 H2. rewrite Forall_forall in H1, H2.
  assert (Hle : forall b, b <= k -> before_bucket f (l1 ++ l2) b <= zlen l1).
  { intros b Hb. unfold before_bucket. rewrite filter_app, zlen_app.
    rewrite (filter_none _ l2) by (intros x Hx%H2; lia). rewrite zlen_nil.
    pose proof (length_filter (fun e => f e < b) l1). unfold zlen. lia. }
  split; [split; [apply Hle; lia|]|split].
  - rewrite before_succ, filter_app, zlen_app, (filter_all _ l1) by done. zlen_lia.
  - intros b Hb. rewrite before_succ, filter_app, zlen_app.
    rewrite (filter_none _ l2) by (intros x Hx%H2; lia). rewrite zlen_nil.
    pose proof (length_filter (fun e => f e <= b) l1). unfold zlen. lia.
  - intros b Hb. unfold before_bucket. rewrite filter_app, zlen_app.
    rewrite (filter_all _ l1) by (intros x Hx%H1; lia). zlen_lia.
Qed.

Lemma in_bucket_nonneg f l b : 0 <= in_bucket f l b.
Proof. apply zlen_nonneg. Qed.
Lemma before_bucket_nonneg f l b : 0 <= before_bucket f l b.
Proof. apply zlen_nonneg. Qed.
Lemma in_bucket_le f l b : before_bucket f l b + in_bucket f l b <= zlen l.
Proof. rewrite before_succ. unfold zlen. pose proof (length_filter (fun e => f e <= b) l). lia. Qed.

Lemma increment_bucket_ok f l1 e l2 i bk :
  Forall (fun x => f x <= f e) l1 -> Forall (fun x => f e <= f x) l2 -> zlen (l1 ++ l2) + 1 < 2^32 ->
  bucket_ok f (l1 ++ l2) (Z.of_nat i) bk ->
  bucket_ok f (l1 ++ e :: l2) (Z.of_nat i) (increment_bucket (f e) (zlen l1) i bk).
Proof.
  intros H1 H2 Hsm [Hc Ho]. destruct (position_bounds f l1 l2 (f e) H1 H2) as (Hpos & Hlow & Hhigh).
  set (b := Z.of_nat i) in *. pose proof (in_bucket_nonneg f (l1 ++ l2) b).
  pose proof (in_bucket_le f (l1 ++ l2) b). pose proof (before_bucket_nonneg f (l1 ++ l2) b).
  unfold bucket_ok, increment_bucket. fold b. rewrite in_bucket_insert, before_bucket_insert.
  destruct (Z.eqb_spec b (f e)) as [E|E].
  - rewrite decide_True, decide_False by lia. rewrite <- E in Hpos. rewrite Hc.
    destruct (Z.eqb_spec (in_bucket f (l1 ++ l2) b) 0) as [E0|E0]; simpl; [lia|].
    unfold wrap32. rewrite Z.mod_small by lia. rewrite Ho by lia. lia.
  - rewrite (decide_False (P := f e = b)) by lia. rewrite Hc.
    destruct (Z.ltb_spec 0 (in_bucket f (l1 ++ l2) b)) as [Hp|Hp].
    2: { rewrite andb_false_r. lia. }
    rewrite andb_true_r, Ho by done. destruct (decide (f e < b)) as [Hlt|Hge].
    + specialize (Hhigh b Hlt). rewrite (proj2 (Z.leb_le _ _)) by done. simpl. unfold wrap64.
      rewrite Z.mod_small by lia. lia.
    + specialize (Hlow b ltac:(lia)). rewrite (proj2 (Z.leb_gt _ _)) by lia. rewrite Hc, Ho by done. lia.
Qed.

Lemma decrement_bucket_ok f l1 e l2 i bk :
  Forall (fun x => f x <= f e) l1 -> Forall (fun x => f e <= f x) l2 ->
  bucket_ok f (l1 ++ e :: l2) (Z.of_nat i) bk ->
  bucket_ok f (l1 ++ l2) (Z.of_nat i) (decrement_bucket (f e) (zlen l1) i bk).
Proof.
  intros H1 H2. destruct (position_bounds f l1 l2 (f e) H1 H2) as (Hpos & Hlow & Hhigh).
  set (b := Z.of_nat i) in *. pose proof (in_bucket_nonneg f (l1 ++ l2) b).
  unfold bucket_ok, decrement_bucket. fold b. rewrite in_bucket_insert, before_bucket_insert. intros [Hc Ho].
  destruct (Z.eqb_spec (nb_entry_count bk) 0) as [E0|E0].
  { repeat case_decide; lia. }
  destruct (Z.eqb_spec b (f e)) as [E|E].
  - rewrite decide_True in Hc, Ho by lia. rewrite decide_False in Ho by lia.
    destruct (Z.leb_spec (nb_entry_count bk) 1); simpl; lia.
  - rewrite decide_False in Hc, Ho by lia. rewrite Z.add_0_r in Hc, Ho. specialize (Ho ltac:(lia)).
    destruct (decide (f e < b)) as [Hlt|Hge].
    + specialize (Hhigh b Hlt). rewrite (proj2 (Z.ltb_lt _ _)) by lia. simpl. lia.
    + specialize (Hlow b ltac:(lia)). rewrite (proj2 (Z.ltb_ge _ _)) by lia. lia.
Qed.

(** ** The store is a map *)

Lemma bucket_for_value_buckets t bs h :
  zlen bs = nvt_bucket_count t -> bucket_for_value (with_buckets t bs) h = bucket_for_value t h.
Proof. intros E. unfold bucket_for_value, nvt_bucket_count. simpl. unfold nvt_bucket_count in E. by rewrite E. Qed.

Lemma bucket_ok_ext f g l b bk :
  (forall e, f e = g e) -> bucket_ok f l b bk <-> bucket_ok g l b bk.
Proof.
  intros E. unfold bucket_ok, in_bucket, before_bucket.
  rewrite (filter_ext_in (fun e => f e = b) (fun e => g e = b)) by (intros x _; by rewrite E).
  rewrite (filter_ext_in (fun e => f e < b) (fun e => g e < b)) by (intros x _; by rewrite E). done.
Qed.

(** The entries on either side of a position, by bucket. *)
Lemma sides_by_bucket s h l1 l2 :
  ks_ok s -> zlen h = hash_length (ks_hash_algo s) ->
  (forall x, x ∈ l1 -> x ∈ ks_entries s) -> (forall x, x ∈ l2 -> x ∈ ks_entries s) ->
  Forall (fun x => lex_lt (kv_hash x) h) l1 -> Forall (fun x => lex_lt h (kv_hash x)) l2 ->
  Forall (fun x => entry_bucket (ks_nvt s) x <= bucket_for_value (ks_nvt s) h) l1 /\
  Forall (fun x => bucket_for_value (ks_nvt s) h <= entry_bucket (ks_nvt s) x) l2.
Proof.
  intros Hok Hh Hin1 Hin2 H1 H2. rewrite Forall_forall in H1, H2 |- *. rewrite Forall_forall.
  pose proof (ks_hashes _ Hok) as Hl. rewrite Forall_forall in Hl.
  split; intros x Hx; eapply bucket_for_value_mono; try apply Hok; auto.
Qed.

Lemma length_sides {A} (l1 l2 : list A) i : i = length l1 -> take i (l1 ++ l2) = l1 /\ drop i (l1 ++ l2) = l2.
Proof. intros ->. by rewrite take_app_length, drop_app_length. Qed.

Lemma sorted_replace l1 e0 e l2 :
  kv_hash e0 = kv_hash e -> StronglySorted hash_lt (l1 ++ e0 :: l2) -> StronglySorted hash_lt (l1 ++ e :: l2).
Proof.
  intros Heq. rewrite !StronglySorted_app_iff. intros (H1 & H2 & H12).
  apply StronglySorted_inv in H2 as [H2 Hall]. split_and!; [done| |].
  - constructor; [done|]. eapply Forall_impl; [done|]. unfold key_lt. intros x. by rewrite Heq.
  - intros a b Ha [->|Hb]%elem_of_cons.
    + unfold key_lt. rewrite <- Heq. apply H12; [done|left].
    + apply H12; [done|by right].
Qed.

(** Replacing an entry by one of the same hash: the table still describes it. *)
Lemma ks_ok_replace s l1 e0 e l2 :
  ks_ok s -> ks_entries s = l1 ++ e0 :: l2 -> kv_hash e0 = kv_hash e ->
  ks_ok (with_entries s (l1 ++ e :: l2)).
Proof.
  intros [Hs Hh Ho Hb Hsm Ht] El Heq. rewrite El in *. split; cbn [with_entries ks_entries ks_hash_algo ks_nvt]; try done.
  - by eapply sorted_replace.
  - apply Forall_app in Hh as [Hh1 Hh2]. apply Forall_cons in Hh2 as [Hh0 Hh2].
    apply Forall_app. split; [done|]. constructor; [by rewrite <- Heq|done].
  - zlen_lia.
  - intros b bk Hbk. specialize (Ht b bk Hbk). revert Ht. unfold bucket_ok.
    rewrite !in_bucket_insert, !before_bucket_insert. unfold entry_bucket. by rewrite Heq.
Qed.

Lemma insert_ok s e :
  ks_ok s -> zlen (kv_hash e) = hash_length (ks_hash_algo s) -> zlen (ks_entries s) + 1 < 2^32 ->
  ks_ok (insert s e) /\ store_map (insert s e) = <[kv_hash e := e]> (store_map s)
  /\ ks_hash_algo (insert s e) = ks_hash_algo s
  /\ zlen (ks_entries s) <= zlen (ks_entries (insert s e)) <= zlen (ks_entries s) + 1.
Proof.
  intros Hok He Hsm. unfold insert.
  destruct (binary_search_spec (ks_entries s) (kv_hash e) (ks_sorted _ Hok)) as [l1 e0 l2 El Heq H1 H2|l1 l2 El H1 H2].
  - assert (Hins : <[length l1 := e]> (ks_entries s) = l1 ++ e :: l2).
    { rewrite El. replace (length l1) with (length l1 + 0)%nat by lia. by rewrite insert_app_r. }
    rewrite Hins. split; [by eapply ks_ok_replace|]. split; [|split; [done|]].
    + unfold store_map. cbn [with_entries ks_entries]. rewrite El.
      change (entries_map (l1 ++ e :: l2) = <[kv_hash e := e]> (entries_map (l1 ++ e0 :: l2))).
      rewrite (entries_map_middle l1 e l2 (kv_hash e)), (entries_map_middle l1 e0 l2 (kv_hash e)) by done.
      by rewrite insert_insert_eq.
    + cbn [with_entries ks_entries]. rewrite El. zlen_lia.
  - cbv zeta. rewrite El. destruct (length_sides l1 l2 (length l1) eq_refl) as [-> ->].
    assert (Hsides := sides_by_bucket s (kv_hash e) l1 l2 Hok He).
    destruct Hsides as [Hb1 Hb2]; [intros x Hx; rewrite El; apply elem_of_app; tauto..|done|done|].
    split; [|split; [|split; [done|]]].
    + destruct Hok as [Hs Hh Ho Hb Hsm' Ht]. rewrite El in *.
      assert (Hcnt : zlen (imap (increment_bucket (bucket_for_value (ks_nvt s) (kv_hash e)) (Z.of_nat (length l1)))
        (nvt_buckets (ks_nvt s))) = nvt_bucket_count (ks_nvt s)) by (unfold zlen, nvt_bucket_count, zlen; by rewrite length_imap).
      split; cbn [with_entries with_nvt ks_entries ks_hash_algo ks_nvt nvt_increment]; try done.
      * apply StronglySorted_app_iff in Hs as (Hs1 & Hs2 & Hs12). apply StronglySorted_app_iff. split_and!; [done| |].
        -- constructor; [done|]. done.
        -- intros a b Ha [->|Hb']%elem_of_cons; [|by apply Hs12].
           rewrite Forall_forall in H1. by apply H1.
      * apply Forall_app in Hh as [Hh1 Hh2]. apply Forall_app. split; [done|]. by constructor.
      * unfold nvt_increment, nvt_bucket_count in *. cbn [with_buckets nvt_buckets]. by rewrite Hcnt.
      * zlen_lia.
      * intros b bk Hbk. unfold nvt_increment in Hbk |- *. cbn [with_buckets nvt_buckets] in Hbk. rewrite list_lookup_imap in Hbk.
        apply fmap_Some in Hbk as (bk0 & Hbk0 & ->).
        eapply bucket_ok_ext; [intros x; by apply bucket_for_value_buckets|].
        apply (increment_bucket_ok (entry_bucket (ks_nvt s)) l1 e l2); [done|done| |by apply Ht].
        zlen_lia.
    + unfold store_map. cbn [with_entries with_nvt ks_entries]. rewrite El.
      by apply (entries_map_middle l1 e l2).
    + cbn [with_entries with_nvt ks_entries]. zlen_lia.
Qed.

Lemma remove_ok s h :
  ks_ok s -> zlen h = hash_length (ks_hash_algo s) ->
  ks_ok (remove s h).2 /\ (remove s h).1 = store_map s !! h
  /\ store_map (remove s h).2 = delete h (store_map s).
Proof.
  intros Hok He. unfold remove.
  destruct (binary_search_spec (ks_entries s) h (ks_sorted _ Hok)) as [l1 e l2 El Heq H1 H2|l1 l2 El H1 H2].
  - cbv zeta. rewrite El. rewrite list_lookup_middle by done. rewrite take_app_length.
    replace (drop (S (length l1)) (l1 ++ e :: l2)) with l2.
    2: { rewrite (cons_middle e), app_assoc. symmetry. apply drop_app_length'. rewrite length_app. simpl. lia. }
    assert (Hsides := sides_by_bucket s h l1 l2 Hok He).
    destruct Hsides as [Hb1 Hb2]; [intros x Hx; rewrite El, elem_of_app, elem_of_cons; tauto..|done|done|].
    assert (Hmap : store_map s = <[h := e]> (entries_map (l1 ++ l2)))
      by (unfold store_map; rewrite El; by apply entries_map_middle).
    cbn [fst snd]. split; [|split].
    + destruct Hok as [Hs Hh Ho Hb Hsm Ht]. rewrite El in *.
      assert (Hcnt : zlen (imap (decrement_bucket (bucket_for_value (ks_nvt s) h) (Z.of_nat (length l1)))
        (nvt_buckets (ks_nvt s))) = nvt_bucket_count (ks_nvt s)) by (unfold zlen, nvt_bucket_count, zlen; by rewrite length_imap).
      split; cbn [with_entries with_nvt ks_entries ks_hash_algo ks_nvt]; try done.
      * apply StronglySorted_app_iff in Hs as (Hs1 & Hs2 & Hs12). apply StronglySorted_inv in Hs2 as [Hs2 _].
        apply StronglySorted_app_iff. split_and!; [done..|]. intros a b Ha Hb'. apply Hs12; [done|by right].
      * apply Forall_app in Hh as [Hh1 Hh2]. apply Forall_cons in Hh2 as [_ Hh2]. by apply Forall_app.
      * unfold nvt_decrement, nvt_bucket_count in *. cbn [with_buckets nvt_buckets]. by rewrite Hcnt.
      * zlen_lia.
      * intros b bk Hbk. unfold nvt_decrement in Hbk |- *. cbn [with_buckets nvt_buckets] in Hbk.
        rewrite list_lookup_imap in Hbk. apply fmap_Some in Hbk as (bk0 & Hbk0 & ->).
        eapply bucket_ok_ext; [intros x; by apply bucket_for_value_buckets|].
        assert (Hfe : bucket_for_value (ks_nvt s) h = entry_bucket (ks_nvt s) e)
          by (unfold entry_bucket; by rewrite Heq).
        rewrite Hfe in *. apply (decrement_bucket_ok (entry_bucket (ks_nvt s)) l1 e l2); [done|done|by apply Ht].
    + rewrite Hmap. by rewrite lookup_insert_eq.
    + rewrite Hmap, delete_insert_id by (by apply entries_map_absent). done.
  - cbn [fst snd]. assert (Hn : store_map s !! h = None) by (unfold store_map; rewrite El; by apply entries_map_absent).
    rewrite Hn, delete_id by done. done.
Qed.

(** C25. The index implements a finite map from hashes to entries: [insert] and
    [remove] keep the invariant (entries sorted, every bucket of the table right
    about its run of entries) and update the map, and [get], which looks only
    inside one bucket, is lookup. *)
Theorem kv_store_refines_map s e h :
  ks_ok s -> zlen (kv_hash e) = hash_length (ks_hash_algo s) -> zlen h = hash_length (ks_hash_algo s) ->
  zlen (ks_entries s) + 1 < 2^32 ->
  get s h = Ok (store_map s !! h)
  /\ (ks_ok (insert s e) /\ store_map (insert s e) = <[kv_hash e := e]> (store_map s))
  /\ (ks_ok (remove s h).2 /\ (remove s h).1 = store_map s !! h
      /\ store_map (remove s h).2 = delete h (store_map s)).
Proof.
  intros Hok He Hh Hsm. split; [by apply ks_get_spec|]. split; [|by apply remove_ok].
  destruct (insert_ok s e Hok He Hsm) as (H1 & H2 & _). done.
Qed.

Lemma KVStore_new_ok a n : 0 < n -> ks_ok (KVStore_new a n).
Proof.
  intros Hn. split; cbn [KVStore_new ks_entries ks_hash_algo ks_nvt].
  - constructor.
  - constructor.
  - apply hash_ordered. destruct a; simpl; lia.
  - unfold nvt_bucket_count, zlen. simpl. rewrite length_replicate. lia.
  - done.
  - intros b bk Hbk. simpl in Hbk. apply lookup_replicate in Hbk as [-> _]. split; done.
Qed.

(** ** Resizing is invisible *)

Lemma foldl_insert_ok es : forall s,
  ks_ok s -> Forall (fun e => zlen (kv_hash e) = hash_length (ks_hash_algo s)) es ->
  NoDup (kv_hash <$> es) -> zlen (ks_entries s) + zlen es < 2^32 ->
  ks_ok (foldl insert s es) /\ store_map (foldl insert s es) = entries_map es ∪ store_map s
  /\ ks_hash_algo (foldl insert s es) = ks_hash_algo s
  /\ zlen (ks_entries (foldl insert s es)) <= zlen (ks_entries s) + zlen es.
Proof.
  induction es as [|e es IH]; intros s Hok Hall Hnd Hsm; cbn [foldl].
  - split_and!; [done| |done|zlen_lia]. change (entries_map []) with (∅ : gmap bytes KVEntry). by rewrite (left_id_L ∅ (∪)).
  - apply Forall_cons in Hall as [He Hall]. rewrite fmap_cons in Hnd. apply NoDup_cons in Hnd as [Hni Hnd].
    rewrite zlen_cons in Hsm. pose proof (zlen_nonneg es).
    destruct (insert_ok s e Hok He) as (Hok1 & Hm1 & Ha1 & Hz1); [lia|].
    destruct (IH (insert s e)) as (Hok2 & Hm2 & Ha2 & Hz2); [done|by rewrite Ha1|done|lia|].
    split_and!; [done| |by rewrite Ha2|rewrite zlen_cons; lia].
    rewrite Hm2, Hm1, entries_map_cons, <- insert_union_l. rewrite insert_union_r; [done|].
    apply entries_map_None. intros x Hx Heq. apply Hni. rewrite <- Heq. by apply list_elem_of_fmap_2.
Qed.

(** What the manager stands for: buffered writes shadow the primary. *)
Definition rm_map (m : KVResizeManager) : gmap bytes KVEntry :=
  match rm_buffer m with
  | Some buffer => store_map buffer ∪ store_map (rm_primary m)
  | None => store_map (rm_primary m)
  end.

Record rm_ok (m : KVResizeManager) : Prop := {
  rm_primary_ok : ks_ok (rm_primary m);
  rm_flag : rm_is_resizing m = bool_decide (is_Some (rm_buffer m));
  rm_buffer_ok : forall b, rm_buffer m = Some b ->
    ks_ok b /\ ks_hash_algo b = ks_hash_algo (rm_primary m);
}.

(** Entries held in both stores. *)
Definition rm_len (m : KVResizeManager) : Z :=
  zlen (ks_entries (rm_primary m)) + match rm_buffer m with Some b => zlen (ks_entries b) | None => 0 end.

Lemma rm_get_spec m h :
  rm_ok m -> zlen h = hash_length (ks_hash_algo (rm_primary m)) -> rm_get m h = Ok (rm_map m !! h).
Proof.
  intros [Hp Hf Hb] Hh. unfold rm_get, rm_map. rewrite Hf.
  destruct (rm_buffer m) as [b|].
  - rewrite bool_decide_eq_true_2 by eauto. destruct (Hb b eq_refl) as [Hbo Ha].
    rewrite (ks_get_spec b), bind_ret by (done || by rewrite Ha). rewrite lookup_union.
    destruct (store_map b !! h) as [e|] eqn:E; rewrite ?E.
    + by destruct (store_map (rm_primary m) !! h).
    + rewrite ks_get_spec by done. by destruct (store_map (rm_primary m) !! h).
  - by rewrite bool_decide_eq_false_2, ks_get_spec by (done || by intros []).
Qed.

Lemma rm_insert_ok m e :
  rm_ok m -> zlen (kv_hash e) = hash_length (ks_hash_algo (rm_primary m)) -> rm_len m + 1 < 2^32 ->
  rm_ok (rm_insert m e) /\ rm_map (rm_insert m e) = <[kv_hash e := e]> (rm_map m).
Proof.
  intros [Hp Hf Hb] He Hl. unfold rm_insert, rm_map, rm_len in *. rewrite Hf.
  pose proof (zlen_nonneg (ks_entries (rm_primary m))).
  destruct (rm_buffer m) as [b|] eqn:Eb.
  - rewrite bool_decide_eq_true_2 by eauto. destruct (Hb b eq_refl) as [Hbo Ha].
    destruct (insert_ok b e Hbo) as (H1 & H2 & H3 & _); [by rewrite Ha|lia|]. split.
    + split; simpl; [done| |].
      * done.
      * intros b' [= <-]. split; [done|]. by rewrite H3.
    + cbn [rm_buffer rm_primary]. by rewrite H2, insert_union_l.
  - rewrite bool_decide_eq_false_2 by (by intros []).
    destruct (insert_ok (rm_primary m) e Hp He) as (H1 & H2 & H3 & _); [lia|]. split.
    + by split.
    + cbn [rm_buffer rm_primary]. done.
Qed.

Lemma end_resize_ok m :
  rm_ok m -> rm_len m < 2^32 -> rm_ok (end_resize m) /\ rm_map (end_resize m) = rm_map m.
Proof.
  intros [Hp Hf Hb] Hl. unfold end_resize, rm_map, rm_len in *. cbn [rm_buffer rm_primary].
  destruct (rm_buffer m) as [b|] eqn:Eb.
  - destruct (Hb b eq_refl) as [Hbo Ha].
    destruct (foldl_insert_ok (ks_entries b) (rm_primary m)) as (H1 & H2 & H3 & _); [done| | |lia|].
    + rewrite <- Ha. apply Hbo.
    + apply sorted_keys_NoDup, Hbo.
    + split; [|done]. by split.
  - split; [|done]. by split.
Qed.

(** A resize is invisible to clients: entering resize mode, merging the buffer
    back and leaving it do not change what is stored, a write during it is a
    write, and a read finds the buffered writes first. *)
Theorem resize_transparent m e h :
  rm_ok m -> rm_is_resizing m = false -> rm_len m + 1 < 2^32 ->
  zlen (kv_hash e) = hash_length (ks_hash_algo (rm_primary m)) ->
  zlen h = hash_length (ks_hash_algo (rm_primary m)) ->
  let m1 := begin_resize m in
  let m2 := rm_insert m1 e in
  let m3 := end_resize m2 in
  (rm_ok m1 /\ rm_map m1 = rm_map m)
  /\ (rm_ok m2 /\ rm_map m2 = <[kv_hash e := e]> (rm_map m) /\ rm_get m2 h = Ok (rm_map m2 !! h))
  /\ (rm_ok m3 /\ rm_map m3 = rm_map m2 /\ rm_is_resizing m3 = false).
Proof.
  intros Hok Hres Hl He Hh. cbv zeta. destruct Hok as [Hp Hf Hb].
  assert (Hnone : rm_buffer m = None).
  { rewrite Hres in Hf. symmetry in Hf. apply bool_decide_eq_false in Hf. by apply eq_None_not_Some. }
  assert (H1 : rm_ok (begin_resize m)).
  { split; simpl; [done| |].
    - done.
    - intros b [= <-]. split; [by apply KVStore_new_ok|done]. }
  assert (M1 : rm_map (begin_resize m) = rm_map m).
  { unfold rm_map. rewrite Hnone. cbn [begin_resize rm_buffer rm_primary].
    change (store_map (KVStore_new _ 64)) with (∅ : gmap bytes KVEntry). by rewrite (left_id_L ∅ (∪)). }
  unfold rm_len in Hl. rewrite Hnone in Hl.
  destruct (rm_insert_ok (begin_resize m) e H1 He) as [H2 M2].
  { unfold rm_len. simpl. rewrite zlen_nil. lia. }
  assert (Hb2 : exists b, rm_buffer (rm_insert (begin_resize m) e) = Some b /\ zlen (ks_entries b) <= 1
    /\ rm_primary (rm_insert (begin_resize m) e) = rm_primary m).
  { unfold rm_insert. cbn [begin_resize rm_is_resizing rm_buffer rm_primary]. eexists. split; [done|]. split; [|done].
    destruct (insert_ok (KVStore_new (ks_hash_algo (rm_primary m)) 64) e) as (_ & _ & _ & Hz);
      [by apply KVStore_new_ok|done|done|]. cbn [KVStore_new ks_entries] in Hz. rewrite zlen_nil in Hz. lia. }
  destruct Hb2 as (b & Eb & Hz & Epr).
  destruct (end_resize_ok (rm_insert (begin_resize m) e) H2) as [H3 M3].
  { unfold rm_len. rewrite Eb, Epr. lia. }
  split_and!; try done; [by rewrite M2, M1|]. apply rm_get_spec; [done|]. by rewrite Epr.
Qed.
End StoreProofs.

(** ** The snapshot format *)

Lemma read_store_entries_at hl es : forall data cursor rest,
  suffix_at data cursor (concat (store_entry_bytes <$> es) ++ rest) -> Forall (KVEntry_wf hl) es ->
  let cursor' := cursor + zlen es * (1 + hl + 8 + 4) in
  read_store_entries (length es) data hl cursor = Ok (es, cursor') /\ suffix_at data cursor' rest.
Proof.
  induction es as [|e es IH]; intros data cursor rest HA Hall; cbv zeta.
  - rewrite (zlen_nil (A:=KVEntry)), Z.mul_0_l, Z.add_0_r. done.
  - apply Forall_cons in Hall as [He Hall]. cbn [fmap list_fmap concat] in HA.
    unfold store_entry_bytes in HA at 1. rewrite <- !app_assoc in HA. pose proof He as [Hh Ho Ht].
    pose proof (suffix_at_app _ _ _ _ 1 HA eq_refl) as HB.
    pose proof (suffix_at_app _ _ _ _ hl HB Hh) as HC.
    pose proof (suffix_at_app _ _ _ _ 8 HC eq_refl) as HD.
    pose proof (suffix_at_app _ _ _ _ 4 HD eq_refl) as HE.
    cbn [length read_store_entries]. rewrite (suffix_at_index _ _ _ _ HA), bind_ret. cbv zeta.
    rewrite (suffix_at_slice_chk _ _ _ _ _ HB Hh), bind_ret.
    rewrite (le_at_at _ _ _ _ 8 HC), bind_ret, le_val_u64 by done.
    rewrite (le_at_at _ _ _ _ 4 HD), bind_ret, le_val_u32 by done.
    destruct (IH _ _ _ HE Hall) as [-> Hs]. rewrite bind_ret.
    replace (cursor + zlen (e :: es) * (1 + hl + 8 + 4))
      with (cursor + 1 + hl + 8 + 4 + zlen es * (1 + hl + 8 + 4)) by (rewrite zlen_cons; lia).
    split; [by destruct e|done].
Qed.

Record KVStore_wf (s : KVStore) : Prop := {
  wf_ks_version : b2z (ks_version s) <> 0;
  wf_ks_entries : Forall (KVEntry_wf (hash_length (ks_hash_algo s))) (ks_entries s);
  wf_ks_nvt : NVT_wf (ks_nvt s);
  wf_ks_count : zlen (ks_entries s) < 2^32;
}.

Lemma zlen_NVT_serialize t : NVT_wf t -> zlen (NVT_serialize t) <= 1 + 4 + 17 + 4 + zlen (nvt_buckets t) * 12.
Proof.
  intros _. unfold NVT_serialize. cbv zeta. pose proof (serialize_converter_bounds (nvt_converter t)).
  assert (E : zlen (concat (bucket_bytes <$> nvt_buckets t)) = zlen (nvt_buckets t) * 12).
  { induction (nvt_buckets t) as [|b bs IH]; [done|]. cbn [fmap list_fmap concat].
    rewrite zlen_app, zlen_cons, IH. change (zlen (bucket_bytes b)) with 12. lia. }
  rewrite !zlen_app, E. zlen_lia.
Qed.

(** A serialized index is read back exactly, as long as its table's own section
    fits the 32-bit length field. *)
Theorem kv_store_roundtrip s :
  KVStore_wf s -> zlen (nvt_buckets (ks_nvt s)) < 2^28 ->
  KVStore_deserialize (KVStore_serialize s) = Ok s.
Proof.
  intros [Hv Hes Hn Hc] Hb. unfold KVStore_serialize. cbv zeta.
  set (nd := NVT_serialize (ks_nvt s)). set (es := ks_entries s) in *. set (a := ks_hash_algo s) in *.
  pose proof (zlen_NVT_serialize _ Hn) as Hnd. fold nd in Hnd. pose proof (zlen_nonneg nd). pose proof (zlen_nonneg es).
  rewrite (Z.mod_small (zlen nd)) by lia. set (data := [ks_version s] ++ _).
  pose proof (suffix_at_start data) as HA. unfold data in HA at 2.
  assert (Hal : 0 < hash_length a <= 64) by (destruct a; simpl; lia).
  assert (Hlen : zlen (concat (store_entry_bytes <$> es)) = zlen es * (1 + hash_length a + 8 + 4)).
  { clear -Hes. induction Hes as [|e es He _ IH]; [done|]. cbn [fmap list_fmap concat].
    rewrite zlen_app, zlen_cons, IH. unfold store_entry_bytes. destruct He. zlen_lia. }
  assert (Hd : zlen data = 11 + zlen es * (1 + hash_length a + 8 + 4) + 4 + zlen nd)
    by (unfold data; rewrite !zlen_app, Hlen; zlen_lia).
  assert (Hprod : 0 <= zlen es * (1 + hash_length a + 8 + 4) <= 2^32 * 77) by nia.
  unfold KVStore_deserialize. rewrite (proj2 (Z.ltb_ge _ _)) by lia.
  rewrite (suffix_at_index _ _ _ _ HA), bind_ret, (proj2 (Z.eqb_neq _ _)) by done.
  apply (suffix_at_app _ _ _ _ 1) in HA; [|done]. rewrite Z.add_0_l in HA.
  rewrite (le_at_at _ _ _ _ 2 HA), bind_ret, le_val_u16, HashAlgorithm_to_from by (done || apply HashAlgorithm_u16).
  cbn [ok_or]. rewrite bind_ret. apply (suffix_at_app _ _ _ _ 2) in HA; [|done]. change (1 + 2) with 3 in HA.
  rewrite (le_at_at _ _ _ _ 8 HA), bind_ret, le_val_u64 by (done || unfold is_u64; lia).
  apply (suffix_at_app _ _ _ _ 8) in HA; [|done]. change (3 + 8) with 11 in HA. cbv zeta. unfold wrap64.
  rewrite !Z.mod_small by (rewrite ?Z.mod_small; lia). rewrite (proj2 (Z.ltb_ge _ _)) by lia.
  unfold with_capacity_ok. rewrite (proj2 (Z.leb_le _ _)) by lia. cbn [negb].
  replace (Z.to_nat (zlen es)) with (length es) by (unfold zlen; lia).
  destruct (read_store_entries_at _ _ _ _ _ HA Hes) as [-> HB]. rewrite bind_ret. fold a.
  rewrite (le_at_at _ _ _ _ 4 HB), bind_ret, le_val_u32 by (done || unfold is_u32; lia).
  apply (suffix_at_app _ _ _ _ 4) in HB; [|done]. rewrite <- (app_nil_r nd) in HB.
  rewrite (proj2 (Z.ltb_ge _ _)) by lia. rewrite (suffix_at_slice_chk _ _ _ _ _ HB eq_refl), bind_ret.
  pose proof (NVT_roundtrip (ks_nvt s) [] Hn) as Hr. rewrite app_nil_r in Hr. unfold nd. rewrite Hr, bind_ret.
  unfold a, es. by destruct s.
Qed.

(** An entry count chosen so that [11 + count * 45] wraps around passes the
    length check of a 44-byte buffer; the vector allocation then panics. *)
Definition overflow_snapshot : bytes :=
  [z2b 1] ++ u16_le 1 ++ u64_le 409927646082434481 ++ zeros 33.

Theorem kv_store_count_overflow_panics :
  zlen overflow_snapshot = 44 /\ KVStore_deserialize overflow_snapshot = Panic.
Proof. by vm_compute. Qed.

(** ** Witnesses *)

Definition sample_store : KVStore :=
  @insert hash_to_scalar (KVStore_new Blake3_256 4) (sample_kv Byte.x80 512).

Lemma sample_store_ok : @ks_ok hash_to_scalar sample_store.
Proof.
  apply (@insert_ok hash_to_scalar); [apply KVStore_new_ok; lia|reflexivity|vm_compute; reflexivity].
Qed.

Lemma kv_store_refines_map_witness :
  @get hash_to_scalar sample_store (replicate 32 Byte.x80) = Ok (Some (sample_kv Byte.x80 512)) /\
  store_map (@insert hash_to_scalar sample_store (sample_kv Byte.x20 640))
    = <[replicate 32 Byte.x20 := sample_kv Byte.x20 640]> (store_map sample_store).
Proof.
  destruct (@kv_store_refines_map hash_to_scalar sample_store (sample_kv Byte.x20 640) (replicate 32 Byte.x80)
    sample_store_ok eq_refl eq_refl ltac:(vm_compute; reflexivity)) as (Hg & [_ Hi] & _).
  split; [rewrite Hg; vm_compute; reflexivity|exact Hi].
Defined.

Definition sample_manager : KVResizeManager := KVResizeManager_new sample_store.

Lemma sample_manager_ok : @rm_ok hash_to_scalar sample_manager.
Proof. constructor; [exact sample_store_ok|reflexivity|done]. Qed.

Lemma resize_transparent_witness :
  let m2 := @rm_insert hash_to_scalar (begin_resize sample_manager) (sample_kv Byte.x20 640) in
  rm_map m2 = <[replicate 32 Byte.x20 := sample_kv Byte.x20 640]> (rm_map sample_manager)
  /\ rm_map (@end_resize hash_to_scalar m2) = rm_map m2.
Proof.
  destruct (@resize_transparent hash_to_scalar sample_manager (sample_kv Byte.x20 640) (replicate 32 Byte.x80)
    sample_manager_ok eq_refl ltac:(vm_compute; reflexivity) eq_refl eq_refl) as (_ & (_ & H2 & _) & _ & H3 & _).
  split; [exact H2|exact H3].
Defined.

Definition sample_buckets : list NVTBucket :=
  [ {| nb_kv_block_offset := 0; nb_entry_count := 0 |}; {| nb_kv_block_offset := 0; nb_entry_count := 0 |};
    {| nb_kv_block_offset := 0; nb_entry_count := 1 |}; {| nb_kv_block_offset := 0; nb_entry_count := 0 |} ].

Lemma sample_buckets_wf :
  Forall (fun b => is_u64 (nb_kv_block_offset b) /\ is_u32 (nb_entry_count b)) sample_buckets.
Proof. repeat constructor; concrete. Qed.

Lemma sample_store_buckets : nvt_buckets (ks_nvt sample_store) = sample_buckets.
Proof. vm_compute. reflexivity. Qed.

Lemma sample_store_entries : ks_entries sample_store = [sample_kv Byte.x80 512].
Proof. vm_compute. reflexivity. Qed.

Lemma sample_store_wf : KVStore_wf sample_store.
Proof.
  constructor.
  - vm_compute. congruence.
  - rewrite sample_store_entries. repeat constructor; concrete.
  - constructor; rewrite ?sample_store_buckets.
    + vm_compute. reflexivity.
    + vm_compute. exact I.
    + vm_compute. split; [congruence|reflexivity].
    + exact sample_buckets_wf.
  - rewrite sample_store_entries. vm_compute. reflexivity.
Qed.

Lemma kv_store_roundtrip_witness : KVStore_deserialize (KVStore_serialize sample_store) = Ok sample_store.
Proof.
  apply (kv_store_roundtrip sample_store sample_store_wf).
  rewrite sample_store_buckets. vm_compute. reflexivity.
Defined.
