(* ===== verification/StateM.v ===== *)
(** Methods that mutate a record and may fail: a state monad in which an error
    keeps the state reached so far, a panic is a value, and [None] stands for
    running out of fuel.  [runs m s Q]: from [s], [m] returns without error and its
    result and final state satisfy [Q]. *)
From S2P Require Import Prelude.

Definition M (S A : Type) : Type := S -> option (res A * S).

Section StateM.
Context {S : Type}.

#[global] Instance M_ret : MRet (M S) := fun A a s => Some (Ok a, s).

#[global] Instance M_bind : MBind (M S) := fun A B f m s =>
  match m s with
  | Some (Ok a, s') => f a s'
  | Some (Err e, s') => Some (Err e, s')
  | Some (Panic, s') => Some (Panic, s')
  | None => None
  end.

(** The state, a change of it, the lifting of a fallible function. *)
Definition gets {A} (f : S -> A) : M S A := fun s => Some (Ok (f s), s).
Definition modify (f : S -> S) : M S unit := fun s => Some (Ok tt, f s).
Definition lift {A} (r : res A) : M S A := fun s => Some (r, s).

(** [if let Err(e) = m { log }]: the error is dropped, the state it left is kept. *)
Definition ignore_err (m : M S unit) : M S unit := fun s =>
  match m s with Some (Err _, s') => Some (Ok tt, s') | r => r end.

(** [match m { Ok(a) => .., Err(e) => .. }]: the result as a value; a panic passes. *)
Definition attempt {A} (m : M S A) : M S (res A) := fun s =>
  match m s with Some (Panic, s') => Some (Panic, s') | Some (r, s') => Some (Ok r, s') | None => None end.

(** [fin] as the destructor of a guard: it runs after [m] whatever the result of [m]. *)
Definition finally {A} (m : M S A) (fin : M S unit) : M S A := fun s =>
  match m s with
  | Some (r, s1) =>
    match fin s1 with Some (Panic, s2) => Some (Panic, s2) | Some (_, s2) => Some (r, s2) | None => None end
  | None => None
  end.

(** [for x in l { body }]. *)
Fixpoint for_each {A} (l : list A) (body : A -> M S unit) : M S unit :=
  match l with
  | [] => mret tt
  | x :: l => body x ;; for_each l body
  end.

(** Total correctness of a run. *)
Definition runs {A} (m : M S A) (s : S) (Q : A -> S -> Prop) : Prop :=
  exists a s', m s = Some (Ok a, s') /\ Q a s'.

Lemma runs_ret {A} (a : A) s (Q : A -> S -> Prop) : Q a s -> runs (mret a) s Q.
Proof. intros HQ. by exists a, s. Qed.

Lemma runs_bind {A B} (m : M S A) (f : A -> M S B) s (Q : B -> S -> Prop) :
  runs m s (fun a s' => runs (f a) s' Q) -> runs (m ≫= f) s Q.
Proof. intros (a & s' & E & HQ). unfold runs, mbind, M_bind. by rewrite E. Qed.

(** What is known of a composition, seen from its first part. *)
Lemma runs_bind_inv {A B} (m : M S A) (f : A -> M S B) s (Q : B -> S -> Prop) :
  runs (m ≫= f) s Q -> runs m s (fun a s' => runs (f a) s' Q).
Proof.
  intros (b & s' & E & HQ). unfold mbind, M_bind in E. destruct (m s) as [[[a|e|] s1]|] eqn:Em; [|done..].
  exists a, s1. split; [done|]. by exists b, s'.
Qed.

Lemma runs_ret_inv {A} (a : A) s (Q : A -> S -> Prop) : runs (mret a) s Q -> Q a s.
Proof. by intros (b & s' & [= <- <-] & HQ). Qed.

Lemma runs_gets {A} (f : S -> A) s (Q : A -> S -> Prop) : Q (f s) s -> runs (gets f) s Q.
Proof. intros HQ. by exists (f s), s. Qed.

Lemma runs_modify f s (Q : unit -> S -> Prop) : Q tt (f s) -> runs (modify f) s Q.
Proof. intros HQ. by exists tt, (f s). Qed.

Lemma runs_lift {A} (r : res A) (a : A) s (Q : A -> S -> Prop) : r = Ok a -> Q a s -> runs (lift r) s Q.
Proof. intros -> HQ. by exists a, s. Qed.

Lemma runs_ignore_err m s (Q : unit -> S -> Prop) : runs m s Q -> runs (ignore_err m) s Q.
Proof. intros ([] & s' & E & HQ). exists tt, s'. split; [|done]. unfold ignore_err. by rewrite E. Qed.

Lemma runs_attempt {A} (m : M S A) s (Q : res A -> S -> Prop) : runs m s (fun a s' => Q (Ok a) s') -> runs (attempt m) s Q.
Proof. intros (a & s' & E & HQ). exists (Ok a), s'. split; [|done]. unfold attempt. by rewrite E. Qed.

Lemma runs_finally {A} (m : M S A) fin s (Q : A -> S -> Prop) :
  runs m s (fun a s' => runs fin s' (fun _ s'' => Q a s'')) -> runs (finally m fin) s Q.
Proof. intros (a & s1 & E & u & s2 & E' & HQ). exists a, s2. split; [|done]. unfold finally. by rewrite E, E'. Qed.

Lemma runs_mono {A} (m : M S A) s (P Q : A -> S -> Prop) :
  runs m s P -> (forall a s', P a s' -> Q a s') -> runs m s Q.
Proof. intros (a & s' & E & HP) HPQ. exists a, s'. split; [done|by apply HPQ]. Qed.

Lemma runs_eq {A} (m m' : M S A) s (Q : A -> S -> Prop) : m s = m' s -> runs m' s Q -> runs m s Q.
Proof. unfold runs. by intros ->. Qed.

Lemma runs_and {A} (m : M S A) s (P Q : A -> S -> Prop) :
  runs m s P -> runs m s Q -> runs m s (fun a s' => P a s' /\ Q a s').
Proof. intros (a & s' & E & HP) (a' & s'' & E' & HQ). rewrite E in E'. injection E' as <- <-. by exists a, s'. Qed.

(** A loop by an invariant on the part of the list done and the part to do. *)
Lemma runs_for_each {A} (I : list A -> list A -> S -> Prop) (body : A -> M S unit) (l : list A) :
  (forall pre x post s, l = pre ++ x :: post -> I pre (x :: post) s ->
     runs (body x) s (fun _ s' => I (pre ++ [x]) post s')) ->
  forall s, I [] l s -> runs (for_each l body) s (fun _ s' => I l [] s').
Proof.
  intros Hstep. cut (forall post pre s, l = pre ++ post -> I pre post s ->
    runs (for_each post body) s (fun _ s' => I l [] s')).
  { intros Hc s HI. by apply (Hc l [] s). }
  induction post as [|x post IH]; intros pre s Hl HI; cbn [for_each].
  - apply runs_ret. rewrite app_nil_r in Hl. by subst.
  - apply runs_bind. eapply runs_mono; [by apply (Hstep pre x post)|]. intros [] s' HI'.
    apply (IH (pre ++ [x])); [by rewrite <- app_assoc|done].
Qed.

(** ** Termination whatever the outcome *)

Definition halts {A} (m : M S A) (s : S) (Q : res A -> S -> Prop) : Prop :=
  exists r s', m s = Some (r, s') /\ Q r s'.

Lemma halts_bind {A B} (m : M S A) (f : A -> M S B) s (Q : res B -> S -> Prop) :
  halts m s (fun r s' => match r with
    | Ok a => halts (f a) s' Q | Err e => Q (Err e) s' | Panic => Q Panic s' end) ->
  halts (m ≫= f) s Q.
Proof.
  intros (r & s' & E & HQ). unfold halts, mbind, M_bind. rewrite E. destruct r as [a|e|]; [exact HQ|eauto..].
Qed.

Lemma halts_mono {A} (m : M S A) s (P Q : res A -> S -> Prop) :
  halts m s P -> (forall r s', P r s' -> Q r s') -> halts m s Q.
Proof. intros (r & s' & E & HP) HPQ. exists r, s'. split; [done|by apply HPQ]. Qed.

(** [m] always ends and keeps a component of the state. *)
Definition keeps {T A} (f : S -> T) (m : M S A) : Prop := forall s, halts m s (fun _ s' => f s' = f s).

Section Keeps.
Context {T : Type} (f : S -> T).

Lemma keeps_ret {A} (a : A) : keeps f (mret a).
Proof. intros s. by exists (Ok a), s. Qed.

Lemma keeps_gets {A} (g : S -> A) : keeps f (gets g).
Proof. intros s. by exists (Ok (g s)), s. Qed.

Lemma keeps_lift {A} (r : res A) : keeps f (lift r).
Proof. intros s. by exists r, s. Qed.

Lemma keeps_modify g : (forall s, f (g s) = f s) -> keeps f (modify g).
Proof. intros Hg s. exists (Ok tt), (g s). split; [done|apply Hg]. Qed.

Lemma keeps_bind {A B} (m : M S A) (k : A -> M S B) : keeps f m -> (forall a, keeps f (k a)) -> keeps f (m ≫= k).
Proof.
  intros Hm Hk s. apply halts_bind. eapply halts_mono; [apply Hm|]. intros [a|e|] s' E; [|done..].
  eapply halts_mono; [apply Hk|]. intros r s'' ->. done.
Qed.

Lemma keeps_if {A} (b : bool) (m n : M S A) : keeps f m -> keeps f n -> keeps f (if b then m else n).
Proof. by destruct b. Qed.

Lemma keeps_ignore_err m : keeps f m -> keeps f (ignore_err m).
Proof.
  intros Hm s. destruct (Hm s) as (r & s' & E & Hf). unfold halts, ignore_err. rewrite E.
  destruct r as [[]|e|]; eauto.
Qed.

Lemma keeps_for_each {A} (l : list A) body : (forall x, keeps f (body x)) -> keeps f (for_each l body).
Proof. intros Hb. induction l as [|x l IH]; [apply keeps_ret|]. cbn [for_each]. apply keeps_bind; [apply Hb|done]. Qed.
End Keeps.

(** [m], when it ends, leaves a component of the state as it was. *)
Definition preserves {T A} (f : S -> T) (m : M S A) : Prop := forall s r s', m s = Some (r, s') -> f s' = f s.

Lemma runs_preserves {T A} (f : S -> T) (m : M S A) s (Q : A -> S -> Prop) :
  preserves f m -> runs m s Q -> runs m s (fun a s' => Q a s' /\ f s' = f s).
Proof. intros Hp (a & s' & E & HQ). exists a, s'. split; [done|]. split; [done|by apply Hp in E]. Qed.

Section Preserves.
Context {T : Type} (f : S -> T).

Lemma preserves_ret {A} (a : A) : preserves f (mret a).
Proof. by intros s r s' [= _ <-]. Qed.

Lemma preserves_gets {A} (g : S -> A) : preserves f (gets g).
Proof. by intros s r s' [= _ <-]. Qed.

Lemma preserves_lift {A} (r : res A) : preserves f (lift r).
Proof. by intros s ? s' [= _ <-]. Qed.

Lemma preserves_modify g : (forall s, f (g s) = f s) -> preserves f (modify g).
Proof. intros Hg s r s' [= _ <-]. apply Hg. Qed.

Lemma preserves_bind {A B} (m : M S A) (k : A -> M S B) : preserves f m -> (forall a, preserves f (k a)) -> preserves f (m ≫= k).
Proof.
  intros Hm Hk s r s' E. unfold mbind, M_bind in E. destruct (m s) as [[[a|e|] s1]|] eqn:Em; [|simplify_eq; by apply Hm in Em..|done].
  rewrite (Hk a s1 r s' E). by apply Hm in Em.
Qed.

(** A read first: the rest may use that it sees the same state. *)
Lemma preserves_gets_bind {A B} (g : S -> A) (k : A -> M S B) :
  (forall s r s', k (g s) s = Some (r, s') -> f s' = f s) -> preserves f (gets g ≫= k).
Proof. intros Hk s r s' E. by apply Hk in E. Qed.

Lemma bind_preserves_at {A B} (m : M S A) (k : A -> M S B) s r s' : (m ≫= k) s = Some (r, s') ->
  (forall r1 s1, m s = Some (r1, s1) -> f s1 = f s) -> (forall a, preserves f (k a)) -> f s' = f s.
Proof.
  unfold mbind, M_bind. intros E Hm Hk. destruct (m s) as [[[a|e|] s1]|] eqn:Em; [|simplify_eq; by eapply Hm..|done].
  rewrite (Hk a s1 r s' E). by eapply Hm.
Qed.

Lemma preserves_if {A} (b : bool) (m n : M S A) : preserves f m -> preserves f n -> preserves f (if b then m else n).
Proof. by destruct b. Qed.

Lemma preserves_ignore_err m : preserves f m -> preserves f (ignore_err m).
Proof.
  intros Hm s r s' E. unfold ignore_err in E. destruct (m s) as [[[a|e|] s1]|] eqn:Em; [..|done];
    simplify_eq; by apply Hm in Em.
Qed.

Lemma preserves_for_each {A} (l : list A) body : (forall x, preserves f (body x)) -> preserves f (for_each l body).
Proof. intros Hb. induction l as [|x l IH]; [apply preserves_ret|]. cbn [for_each]. apply preserves_bind; [apply Hb|done]. Qed.
End Preserves.
End StateM.

Create HintDb keeps.
#[export] Hint Resolve keeps_ret keeps_gets keeps_lift keeps_if keeps_ignore_err keeps_for_each : keeps.

(** Straight-line code keeps what each of its steps keeps. *)
Ltac keeps :=
  repeat match goal with
  | |- keeps _ (_ ≫= _) => apply keeps_bind; [|intros ?]
  | |- keeps _ (if _ then _ else _) => apply keeps_if
  | |- keeps _ (modify _) => apply keeps_modify; intros ?; reflexivity
  | |- keeps _ _ => progress (auto with keeps)
  end.

Create HintDb preserves.
#[export] Hint Resolve preserves_ret preserves_gets preserves_lift preserves_if preserves_ignore_err preserves_for_each : preserves.

Ltac preserves :=
  repeat match goal with
  | |- preserves _ (_ ≫= _) => apply preserves_bind; [|intros ?]
  | |- preserves _ (if _ then _ else _) => apply preserves_if
  | |- preserves _ (modify _) => apply preserves_modify; intros ?; reflexivity
  | |- preserves _ (let '(_, _) := ?x in _) => destruct x
  | |- preserves _ (match ?x with _ => _ end) => destruct x
  | |- preserves _ _ => progress (auto with preserves)
  end.

(** Symbolic execution of straight-line code. *)
Ltac run_step :=
  match goal with
  | |- runs (_ ≫= _) _ _ => apply runs_bind
  | |- runs (mret _) _ _ => apply runs_ret
  | |- runs (gets _) _ _ => apply runs_gets
  | |- runs (modify _) _ _ => apply runs_modify
  end; cbv beta delta [id].

Ltac run := repeat run_step.
