(* ===== verification/BTreeNode.v ===== *)
(** B-tree directory nodes (src/aeordb-lib/src/engine/btree.rs, lines 1-278): a leaf
    with sorted children, an internal node with sorted keys and the hashes of its
    children, their byte format and the operations on one node. *)
From S2P Require Import Prelude Sorted Codec EntryFormat Records.

Local Open Scope Z_scope.

Definition BTREE_MAX_LEAF_ENTRIES : Z := 40.
Definition BTREE_MIN_LEAF_ENTRIES : Z := 20.
Definition BTREE_MAX_INTERNAL_KEYS : Z := 77.
Definition BTREE_MIN_INTERNAL_KEYS : Z := 38.
Definition BTREE_CONVERSION_THRESHOLD : Z := 256.
Definition BTREE_LEAF_MARKER : Z := 0x00.
Definition BTREE_INTERNAL_MARKER : Z := 0x01.

Record LeafNode := { ln_entries : list ChildEntry }.
Record InternalNode := { in_keys : list bytes; in_children : list bytes }.

Inductive BTreeNode :=
| Leaf (leaf : LeafNode)
| Internal (internal : InternalNode).

(** ** Byte format *)

Fixpoint serialize_keys (keys : list bytes) : res bytes :=
  match keys with
  | [] => Ok []
  | key :: keys =>
    if u16_max <? zlen key
    then Err (InvalidInput "B-tree key too long: {} bytes exceeds u16 max (65535)") else
    rest ← serialize_keys keys;
    Ok (u16_le (zlen key) ++ key ++ rest)
  end.

Definition BTreeNode_serialize (node : BTreeNode) (hash_length : Z) : res bytes :=
  match node with
  | Leaf leaf =>
    child_data ← serialize_child_entries (ln_entries leaf) hash_length;
    Ok ([z2b BTREE_LEAF_MARKER] ++ u16_le (zlen (ln_entries leaf)) ++ child_data)
  | Internal internal =>
    keys ← serialize_keys (in_keys internal);
    Ok ([z2b BTREE_INTERNAL_MARKER] ++ u16_le (zlen (in_keys internal)) ++ keys
        ++ concat (in_children internal))
  end.

Fixpoint read_keys (n : nat) (data : bytes) (offset : Z) : res (list bytes * Z) :=
  match n with
  | O => Ok ([], offset)
  | S n =>
    if zlen data <? offset + 2
    then Err (CorruptEntry offset "Internal node data too short for key length") else
    key_len ← le_at data offset 2;
    let offset := offset + 2 in
    if zlen data <? offset + key_len
    then Err (CorruptEntry offset "Internal node data too short for key") else
    key ← slice_chk data offset (offset + key_len);
    if negb (utf8_valid key) then Err (CorruptEntry offset "Invalid UTF-8 key: {}") else
    '(keys, offset) ← read_keys n data (offset + key_len);
    Ok (key :: keys, offset)
  end.

Fixpoint read_children (n : nat) (data : bytes) (offset hash_length : Z) : res (list bytes) :=
  match n with
  | O => Ok []
  | S n =>
    if zlen data <? offset + hash_length
    then Err (CorruptEntry offset "Internal node data too short for child hash") else
    child ← slice_chk data offset (offset + hash_length);
    children ← read_children n data (offset + hash_length) hash_length;
    Ok (child :: children)
  end.

Definition BTreeNode_deserialize_v0 (data : bytes) (hash_length : Z) : res BTreeNode :=
  if bool_decide (data = []) then Err (CorruptEntry 0 "Empty B-tree node data") else
  marker ← index data 0;
  if b2z marker =? BTREE_LEAF_MARKER then
    if zlen data <? 3 then Err (CorruptEntry 0 "Leaf node data too short") else
    entry_count ← le_at data 1 2;
    entries ← (if entry_count =? 0 then Ok []
               else rest ← slice_chk data 3 (zlen data); deserialize_child_entries rest hash_length 0);
    Ok (Leaf {| ln_entries := entries |})
  else if b2z marker =? BTREE_INTERNAL_MARKER then
    if zlen data <? 3 then Err (CorruptEntry 0 "Internal node data too short") else
    key_count ← le_at data 1 2;
    '(keys, offset) ← read_keys (Z.to_nat key_count) data 3;
    children ← read_children (Z.to_nat (key_count + 1)) data offset hash_length;
    Ok (Internal {| in_keys := keys; in_children := children |})
  else Err (CorruptEntry 0 "Unknown B-tree node type: 0x{:02x}").

Definition BTreeNode_deserialize (data : bytes) (hash_length version : Z) : res BTreeNode :=
  match version with
  | 0 => BTreeNode_deserialize_v0 data hash_length
  | _ => Err (InvalidEntryVersion version)
  end.

Definition is_btree_format (data : bytes) : bool :=
  match data with
  | [] => false
  | b :: _ => (b2z b =? BTREE_LEAF_MARKER) || (b2z b =? BTREE_INTERNAL_MARKER)
  end.

Definition content_hash `{Blake3} (node : BTreeNode) (hash_length : Z) (algo : HashAlgorithm) : res bytes :=
  serialized ← BTreeNode_serialize node hash_length;
  compute_hash algo (lit "btree:" ++ serialized).

(** ** Operations on one node *)

(** [Vec::insert] and [Vec::remove] at an index that is in range. *)
Definition insert_at {A} (i : nat) (x : A) (l : list A) : list A := take i l ++ x :: drop i l.
Definition remove_at {A} (i : nat) (l : list A) : list A := take i l ++ drop (S i) l.

Definition LeafNode_is_full (leaf : LeafNode) : bool := BTREE_MAX_LEAF_ENTRIES <=? zlen (ln_entries leaf).

Definition LeafNode_is_underflow (leaf : LeafNode) : bool := zlen (ln_entries leaf) <? BTREE_MIN_LEAF_ENTRIES.

Definition LeafNode_find (leaf : LeafNode) (name : bytes) : option ChildEntry :=
  match binary_search_by ce_name (ln_entries leaf) name with
  | inl idx => ln_entries leaf !! idx
  | inr _ => None
  end.

Definition LeafNode_upsert (leaf : LeafNode) (entry : ChildEntry) : bool * LeafNode :=
  match binary_search_by ce_name (ln_entries leaf) (ce_name entry) with
  | inl idx => (false, {| ln_entries := <[idx := entry]> (ln_entries leaf) |})
  | inr idx => (true, {| ln_entries := insert_at idx entry (ln_entries leaf) |})
  end.

Definition LeafNode_remove (leaf : LeafNode) (name : bytes) : bool * LeafNode :=
  match binary_search_by ce_name (ln_entries leaf) name with
  | inl idx => (true, {| ln_entries := remove_at idx (ln_entries leaf) |})
  | inr _ => (false, leaf)
  end.

(** [right_entries[0]] panics on an empty leaf. *)
Definition LeafNode_split (leaf : LeafNode) : res (LeafNode * bytes * LeafNode) :=
  let mid := Nat.div2 (length (ln_entries leaf)) in
  let right_entries := drop mid (ln_entries leaf) in
  first ← index right_entries 0;
  let split_key := ce_name first in
  Ok ({| ln_entries := take mid (ln_entries leaf) |}, split_key, {| ln_entries := right_entries |}).

Definition find_child_index (internal : InternalNode) (name : bytes) : nat :=
  match binary_search_by id (in_keys internal) name with
  | inl idx => S idx
  | inr idx => idx
  end.

Definition InternalNode_is_full (internal : InternalNode) : bool :=
  BTREE_MAX_INTERNAL_KEYS <=? zlen (in_keys internal).

Definition InternalNode_is_underflow (internal : InternalNode) : bool :=
  zlen (in_keys internal) <? BTREE_MIN_INTERNAL_KEYS.

(** [children.insert(idx + 1, _)] panics beyond the end. *)
Definition insert_key (internal : InternalNode) (key right_child_hash : bytes) : res InternalNode :=
  let idx := match binary_search_by id (in_keys internal) key with inl idx => idx | inr idx => idx end in
  if (length (in_children internal) <? S idx)%nat then Panic else
  Ok {| in_keys := insert_at idx key (in_keys internal);
        in_children := insert_at (S idx) right_child_hash (in_children internal) |}.

(** [split_off(mid + 1)] and [pop] leave the keys before [mid]. *)
Definition InternalNode_split (internal : InternalNode) : res (InternalNode * bytes * InternalNode) :=
  let mid := Nat.div2 (length (in_keys internal)) in
  split_key ← index (in_keys internal) (Z.of_nat mid);
  if (length (in_children internal) <? S mid)%nat then Panic else
  let right_keys := drop (S mid) (in_keys internal) in
  let right_children := drop (S mid) (in_children internal) in
  Ok ({| in_keys := take mid (in_keys internal); in_children := take (S mid) (in_children internal) |},
      split_key, {| in_keys := right_keys; in_children := right_children |}).

(** ** The format *)

(** What a node must satisfy to be stored and read back: fields of the right
    width, one more child than keys, names and keys within the length fields. *)
Definition entry_fits (e : ChildEntry) : Prop :=
  zlen (ce_name e) <= u16_max /\ zlen (unwrap_or_empty (ce_content_type e)) <= u16_max.

Definition key_ok (k : bytes) : Prop := utf8_valid k = true /\ zlen k <= u16_max.

Inductive node_wf (hl : Z) : BTreeNode -> Prop :=
| leaf_wf es :
    Forall (ChildEntry_wf hl) es -> Forall entry_fits es -> zlen es <= u16_max ->
    node_wf hl (Leaf {| ln_entries := es |})
| internal_wf ks cs :
    Forall key_ok ks -> Forall (fun c => zlen c = hl) cs -> zlen cs = zlen ks + 1 -> zlen ks <= u16_max ->
    node_wf hl (Internal {| in_keys := ks; in_children := cs |}).

(** Reading a node back turns an empty content type into an absent one. *)
Definition node_norm (n : BTreeNode) : BTreeNode :=
  match n with
  | Leaf leaf => Leaf {| ln_entries := ChildEntry_norm <$> ln_entries leaf |}
  | Internal internal => Internal internal
  end.

Lemma serialize_child_entries_ok hl es :
  Forall (ChildEntry_wf hl) es -> Forall entry_fits es -> 0 <= hl ->
  exists data, serialize_child_entries es hl = Ok data /\ zlen data <= zlen es * (2^18 + hl).
Proof.
  intros Hwf Hfit Hhl. induction es as [|e es IH]; [by exists []|].
  apply Forall_cons in Hwf as [He Hwf]. apply Forall_cons in Hfit as [[Hn Hc] Hfit].
  destruct (IH Hwf Hfit) as (rest & E & Hl). simpl. unfold ChildEntry_serialize at 1. cbv zeta.
  rewrite !(proj2 (Z.ltb_ge _ _)) by done. rewrite bind_ret, E, bind_ret. eexists. split; [done|].
  pose proof (wf_ce_hash _ _ He). zlen_lia.
Qed.

Lemma serialize_keys_ok ks :
  Forall key_ok ks -> exists data, serialize_keys ks = Ok data /\ zlen data <= zlen ks * 2^17.
Proof.
  induction 1 as [|k ks [_ Hk] _ (rest & E & Hl)]; [by exists []|]. simpl.
  rewrite (proj2 (Z.ltb_ge _ _)) by done. rewrite E, bind_ret. eexists. split; [done|]. zlen_lia.
Qed.

Lemma zlen_concat_hashes hl (cs : list bytes) :
  Forall (fun c => zlen c = hl) cs -> zlen (concat cs) = zlen cs * hl.
Proof. induction 1 as [|c cs Hc _ IH]; [done|]. simpl. zlen_lia. Qed.

Lemma read_keys_at ks : forall data off enc rest,
  Forall key_ok ks -> serialize_keys ks = Ok enc -> suffix_at data off (enc ++ rest) ->
  read_keys (length ks) data off = Ok (ks, off + zlen enc) /\ suffix_at data (off + zlen enc) rest.
Proof.
  induction ks as [|k ks IH]; intros data off enc rest Hall HS H.
  - apply Ok_inj in HS. subst enc. rewrite zlen_nil, Z.add_0_r. done.
  - apply Forall_cons in Hall as [[Hu Hk] Hall]. cbn [serialize_keys] in HS.
    apply if_Err_Ok in HS as [_ HS]. apply bind_Ok in HS as [enc' [E HS]]. apply Ok_inj in HS. subst enc.
    rewrite <- !app_assoc in H. pose proof (suffix_at_bounds _ _ _ H) as Hb.
    cbn [length read_keys]. rewrite (proj2 (Z.ltb_ge _ _)) by zlen_lia.
    pose proof (suffix_at_app _ _ _ _ 2 H (zlen_u16_le _)) as H1.
    pose proof (suffix_at_app _ _ _ _ (zlen k) H1 eq_refl) as H2.
    rewrite (le_at_at _ _ _ _ _ H (zlen_u16_le _)), bind_ret.
    rewrite le_val_u16 by (unfold is_u16; zlen_lia). cbv zeta.
    rewrite (proj2 (Z.ltb_ge _ _)) by zlen_lia.
    rewrite (suffix_at_slice_chk _ _ _ _ _ H1 eq_refl), bind_ret, Hu. cbn [negb].
    destruct (IH _ _ _ _ Hall E H2) as [-> H3]. rewrite bind_ret.
    replace (off + zlen (u16_le (zlen k) ++ k ++ enc')) with (off + 2 + zlen k + zlen enc') by zlen_lia.
    done.
Qed.

Lemma read_children_at cs : forall data off hl rest,
  Forall (fun c => zlen c = hl) cs -> suffix_at data off (concat cs ++ rest) ->
  read_children (length cs) data off hl = Ok cs.
Proof.
  induction cs as [|c cs IH]; intros data off hl rest Hall H; [done|].
  apply Forall_cons in Hall as [Hc Hall]. cbn [concat] in H. rewrite <- app_assoc in H.
  pose proof (suffix_at_bounds _ _ _ H) as Hb. cbn [length read_children].
  rewrite (proj2 (Z.ltb_ge _ _)) by zlen_lia.
  rewrite (suffix_at_slice_chk _ _ _ _ _ H Hc), bind_ret.
  rewrite (IH _ _ _ rest Hall); [done|]. by eapply suffix_at_app.
Qed.

Lemma node_serialize_ok hl n : node_wf hl n -> 0 <= hl <= 64 ->
  exists data, BTreeNode_serialize n hl = Ok data /\
    zlen data <= 3 + match n with Leaf l => zlen (ln_entries l) * (2^18 + hl)
                     | Internal i => zlen (in_keys i) * 2^17 + zlen (in_children i) * hl end.
Proof.
  intros [es Hwf Hfit Hn|ks cs Hk Hc Hcs Hn] Hhl; simpl.
  - destruct (serialize_child_entries_ok hl es) as (data & -> & Hl); [done..|lia|]. rewrite bind_ret.
    eexists. split; [done|]. zlen_lia.
  - destruct (serialize_keys_ok ks Hk) as (data & -> & Hl). rewrite bind_ret. eexists. split; [done|].
    pose proof (zlen_concat_hashes hl cs Hc). zlen_lia.
Qed.

(** The three bytes every node starts with. *)
Lemma node_prefix m n enc data :
  data = [m] ++ u16_le n ++ enc -> is_u16 n ->
  data <> [] /\ index data 0 = Ok m /\ (zlen data <? 3) = false /\ le_at data 1 2 = Ok n /\ suffix_at data 3 enc.
Proof.
  intros -> Hn. pose proof (suffix_at_start ([m] ++ u16_le n ++ enc)) as H.
  pose proof (suffix_at_app _ _ _ _ 1 H eq_refl) as H1.
  pose proof (suffix_at_app _ _ _ _ 2 H1 (zlen_u16_le _)) as H2.
  split_and!; [done|by apply (suffix_at_index _ _ _ _ H)|apply Z.ltb_ge; zlen_lia| |exact H2].
  pose proof (le_at_at _ _ _ _ 2 H1 (zlen_u16_le _)) as E. rewrite le_val_u16 in E by done. exact E.
Qed.

Lemma node_roundtrip hl n data :
  node_wf hl n -> BTreeNode_serialize n hl = Ok data ->
  BTreeNode_deserialize data hl 0 = Ok (node_norm n).
Proof.
  intros Hwf HS. change (BTreeNode_deserialize_v0 data hl = Ok (node_norm n)).
  destruct Hwf as [es Hwf Hfit Hn|ks cs Hk Hc Hcs Hn]; cbn [BTreeNode_serialize ln_entries in_keys in_children] in HS;
    apply bind_Ok in HS as [enc [E HS]]; apply Ok_inj in HS; symmetry in HS;
    apply node_prefix in HS as (Hne & H0 & H3 & Hc1 & H); try (unfold is_u16; zlen_lia);
    unfold BTreeNode_deserialize_v0; rewrite bool_decide_false, H0, bind_ret, H3, Hc1, !bind_ret by done.
  - change (b2z (z2b BTREE_LEAF_MARKER) =? BTREE_LEAF_MARKER) with true. cbv iota.
    destruct es as [|e es]; [done|]. rewrite (proj2 (Z.eqb_neq _ _)) by zlen_lia. rewrite (slice_to_end _ _ _ H), bind_ret.
    change (deserialize_child_entries enc hl 0) with (child_entries_loop (length enc) enc hl 0).
    by rewrite (child_entries_loop_roundtrip hl (e :: es) enc 0 enc) by eauto using suffix_at_start.
  - change (b2z (z2b BTREE_INTERNAL_MARKER) =? BTREE_LEAF_MARKER) with false.
    change (b2z (z2b BTREE_INTERNAL_MARKER) =? BTREE_INTERNAL_MARKER) with true. cbv iota.
    replace (Z.to_nat (zlen ks)) with (length ks) by (unfold zlen; lia).
    destruct (read_keys_at ks _ _ _ _ Hk E H) as [-> H'].
    rewrite bind_ret. replace (Z.to_nat (_ + 1)) with (length cs) by (unfold zlen in *; lia).
    rewrite <- (app_nil_r (concat cs)) in H'. by rewrite (read_children_at cs _ _ _ _ Hc H').
Qed.

(** ** No bytes make the decoder panic *)

Lemma read_keys_total n : forall data off, 0 <= off ->
  match read_keys n data off with Ok (_, off') => off <= off' | Err _ => True | Panic => False end.
Proof.
  induction n as [|n IH]; intros data off Ho; cbn [read_keys]; [lia|].
  destruct (Z.ltb_spec (zlen data) (off + 2)); [done|].
  pose proof (le_at_ok data off 2 ltac:(lia) ltac:(lia) ltac:(lia)) as Hle. rewrite Hle, bind_ret. cbv zeta.
  set (v := le_val _). assert (0 <= v) by apply le_val_nonneg.
  destruct (Z.ltb_spec (zlen data) (off + 2 + v)); [done|].
  rewrite slice_chk_ok, bind_ret by lia. destruct (utf8_valid _); [|done]. cbn [negb].
  specialize (IH data (off + 2 + v) ltac:(lia)). destruct (read_keys n _ _) as [[ks o]| |]; [|done..]. simpl. lia.
Qed.

Lemma read_children_total n : forall data off hl, 0 <= off -> 0 <= hl -> read_children n data off hl <> Panic.
Proof.
  induction n as [|n IH]; intros data off hl Ho Hh; cbn [read_children]; [done|].
  destruct (Z.ltb_spec (zlen data) (off + hl)); [done|]. rewrite slice_chk_ok, bind_ret by lia.
  specialize (IH data (off + hl) hl ltac:(lia) Hh). by destruct (read_children n _ _ _).
Qed.

Lemma node_deserialize_total data hl version : 0 <= hl -> BTreeNode_deserialize data hl version <> Panic.
Proof.
  intros Hh. unfold BTreeNode_deserialize. destruct version; [|done..]. unfold BTreeNode_deserialize_v0.
  case_bool_decide as Hne; [done|]. destruct (index_ok data 0) as [m ->]; [destruct data; [done|zlen_lia]|].
  rewrite bind_ret. destruct (_ =? _).
  - destruct (Z.ltb_spec (zlen data) 3); [done|]. rewrite le_at_ok, bind_ret by lia.
    destruct (_ =? _); [done|]. rewrite slice_chk_ok, bind_ret by lia.
    change (deserialize_child_entries ?d hl 0) with (child_entries_loop (length d) d hl 0).
    pose proof (child_entries_loop_total (length (slice data 3 (zlen data))) (slice data 3 (zlen data)) hl 0
      Hh ltac:(lia) ltac:(unfold zlen; lia)) as Ht.
    by destruct (child_entries_loop _ _ _ _).
  - destruct (_ =? _); [|done]. destruct (Z.ltb_spec (zlen data) 3); [done|].
    rewrite le_at_ok, bind_ret by lia. set (v := le_val _).
    pose proof (read_keys_total (Z.to_nat v) data 3 ltac:(lia)) as Hk.
    destruct (read_keys _ _ _) as [[ks o]| |]; [|done..]. rewrite bind_ret.
    pose proof (read_children_total (Z.to_nat (v + 1)) data o hl ltac:(lia) Hh).
    by destruct (read_children _ _ _ _).
Qed.
