(* ===== verification/BTree.v ===== *)
(** The content-addressed B-tree of a large directory
    (src/aeordb-lib/src/engine/btree.rs, lines 280-726): insertion with splits,
    bulk construction, lookup, listing, deletion, and insertion with batched
    writes.  The tree reaches its nodes through the storage engine by hash; what
    it uses of the engine is the class [NodeStore].  Recursion follows hashes
    through the store and takes fuel, one unit per level. *)
From S2P Require Import Prelude Sorted Codec EntryFormat Records KvEntry StateM BTreeNode.

Local Open Scope Z_scope.

(** [WriteBatch] and its entries (storage_engine.rs). *)
Record BatchEntry := {
  be_entry_type : EntryType;
  be_key : bytes;
  be_value : bytes;
  be_kv_type : Z;
}.

Abbreviation WriteBatch := (list BatchEntry).

Definition WriteBatch_add (batch : WriteBatch) (entry_type : EntryType) (key value : bytes) : WriteBatch :=
  batch ++ [{| be_entry_type := entry_type; be_key := key; be_value := value; be_kv_type := to_kv_type entry_type |}].

(** What the tree uses of the engine: reads return an entry's format version and
    value; writes return the offsets they wrote at. *)
Class NodeStore (E : Type) := {
  ns_get_entry : E -> bytes -> res (option (Z * bytes));
  ns_get_entry_including_deleted : E -> bytes -> res (option (Z * bytes));
  ns_store_entry : EntryType -> bytes -> bytes -> M E Z;
  ns_flush_batch : WriteBatch -> M E (list Z);
}.

Inductive InsertResult :=
| Done (new_hash serialized : bytes)
| Split (left_hash split_key right_hash : bytes).

Section BTree.
Context `{Blake3} {E : Type} `{!NodeStore E}.
Context (hash_length : Z) (algo : HashAlgorithm).

Definition out_of_fuel {A} : M E A := fun _ => None.

Definition store_btree_node (node : BTreeNode) : M E bytes :=
  serialized ← lift (BTreeNode_serialize node hash_length);
  content_hash ← lift (content_hash node hash_length algo);
  _ ← ns_store_entry DirectoryIndex content_hash serialized;
  mret content_hash.

(** [engine.get_entry(hash)?.ok_or(..)?]. *)
Definition load (include_deleted : bool) (hash : bytes) (missing : string) : M E (Z * bytes) :=
  s ← gets id;
  node_data ← lift (if include_deleted then ns_get_entry_including_deleted s hash else ns_get_entry s hash);
  lift (ok_or node_data (NotFound missing)).

(** ** Insertion *)

Fixpoint btree_insert_node (fuel : nat) (node : BTreeNode) (entry : ChildEntry) : M E InsertResult :=
  match fuel with
  | O => out_of_fuel
  | S fuel =>
    match node with
    | Leaf leaf =>
      let '(_, leaf) := LeafNode_upsert leaf entry in
      if LeafNode_is_full leaf then
        '(left_node, split_key, right_node) ← lift (LeafNode_split leaf);
        left_hash ← store_btree_node (Leaf left_node);
        right_hash ← store_btree_node (Leaf right_node);
        mret (Split left_hash split_key right_hash)
      else
        let node := Leaf leaf in
        data ← lift (BTreeNode_serialize node hash_length);
        hash ← store_btree_node node;
        mret (Done hash data)
    | Internal internal =>
      let child_idx := find_child_index internal (ce_name entry) in
      child_hash ← lift (index (in_children internal) (Z.of_nat child_idx));
      child_data ← load false child_hash "B-tree child not found: {}";
      child_node ← lift (BTreeNode_deserialize child_data.2 hash_length child_data.1);
      child_result ← btree_insert_node fuel child_node entry;
      match child_result with
      | Done new_child_hash _ =>
        let node := Internal {| in_keys := in_keys internal;
                                in_children := <[child_idx := new_child_hash]> (in_children internal) |} in
        data ← lift (BTreeNode_serialize node hash_length);
        hash ← store_btree_node node;
        mret (Done hash data)
      | Split left_hash split_key right_hash =>
        let internal := {| in_keys := in_keys internal;
                           in_children := <[child_idx := left_hash]> (in_children internal) |} in
        internal ← lift (insert_key internal split_key right_hash);
        if InternalNode_is_full internal then
          '(left_node, parent_split_key, right_node) ← lift (InternalNode_split internal);
          left_hash ← store_btree_node (Internal left_node);
          right_hash ← store_btree_node (Internal right_node);
          mret (Split left_hash parent_split_key right_hash)
        else
          let node := Internal internal in
          data ← lift (BTreeNode_serialize node hash_length);
          hash ← store_btree_node node;
          mret (Done hash data)
      end
    end
  end.

Definition btree_insert_with_data (fuel : nat) (root_data : bytes) (entry : ChildEntry) : M E (bytes * bytes) :=
  root_node ← lift (BTreeNode_deserialize root_data hash_length 0);
  result ← btree_insert_node fuel root_node entry;
  match result with
  | Done new_hash new_data => mret (new_hash, new_data)
  | Split left_hash split_key right_hash =>
    let new_root := Internal {| in_keys := [split_key]; in_children := [left_hash; right_hash] |} in
    new_data ← lift (BTreeNode_serialize new_root hash_length);
    new_hash ← store_btree_node new_root;
    mret (new_hash, new_data)
  end.

Definition btree_insert (fuel : nat) (root_hash : bytes) (entry : ChildEntry) : M E bytes :=
  root_data ← load false root_hash "B-tree root not found: {}";
  '(new_hash, _) ← btree_insert_with_data fuel root_data.2 entry;
  mret new_hash.

(** ** Insertion with batched writes *)

(** The batch with a node and its hash added; the writes follow the code's order. *)
Definition batch_node (batch : WriteBatch) (hash data : bytes) : WriteBatch :=
  WriteBatch_add batch DirectoryIndex hash data.

Fixpoint btree_insert_node_batched (fuel : nat) (node : BTreeNode) (entry : ChildEntry) (batch : WriteBatch)
    : M E (InsertResult * WriteBatch) :=
  match fuel with
  | O => out_of_fuel
  | S fuel =>
    match node with
    | Leaf leaf =>
      let '(_, leaf) := LeafNode_upsert leaf entry in
      if LeafNode_is_full leaf then
        '(left_node, split_key, right_node) ← lift (LeafNode_split leaf);
        left_hash ← lift (content_hash (Leaf left_node) hash_length algo);
        right_hash ← lift (content_hash (Leaf right_node) hash_length algo);
        left_data ← lift (BTreeNode_serialize (Leaf left_node) hash_length);
        right_data ← lift (BTreeNode_serialize (Leaf right_node) hash_length);
        mret (Split left_hash split_key right_hash,
              batch_node (batch_node batch left_hash left_data) right_hash right_data)
      else
        data ← lift (BTreeNode_serialize (Leaf leaf) hash_length);
        hash ← lift (content_hash (Leaf leaf) hash_length algo);
        mret (Done hash data, batch_node batch hash data)
    | Internal internal =>
      let child_idx := find_child_index internal (ce_name entry) in
      child_hash ← lift (index (in_children internal) (Z.of_nat child_idx));
      child_data ← load false child_hash "B-tree child not found: {}";
      child_node ← lift (BTreeNode_deserialize child_data.2 hash_length child_data.1);
      '(child_result, batch) ← btree_insert_node_batched fuel child_node entry batch;
      match child_result with
      | Done new_child_hash _ =>
        let node := Internal {| in_keys := in_keys internal;
                                in_children := <[child_idx := new_child_hash]> (in_children internal) |} in
        data ← lift (BTreeNode_serialize node hash_length);
        hash ← lift (content_hash node hash_length algo);
        mret (Done hash data, batch_node batch hash data)
      | Split left_hash split_key right_hash =>
        let internal := {| in_keys := in_keys internal;
                           in_children := <[child_idx := left_hash]> (in_children internal) |} in
        internal ← lift (insert_key internal split_key right_hash);
        if InternalNode_is_full internal then
          '(left_node, parent_split_key, right_node) ← lift (InternalNode_split internal);
          left_hash ← lift (content_hash (Internal left_node) hash_length algo);
          right_hash ← lift (content_hash (Internal right_node) hash_length algo);
          left_data ← lift (BTreeNode_serialize (Internal left_node) hash_length);
          right_data ← lift (BTreeNode_serialize (Internal right_node) hash_length);
          mret (Split left_hash parent_split_key right_hash,
                batch_node (batch_node batch left_hash left_data) right_hash right_data)
        else
          data ← lift (BTreeNode_serialize (Internal internal) hash_length);
          hash ← lift (content_hash (Internal internal) hash_length algo);
          mret (Done hash data, batch_node batch hash data)
      end
    end
  end.

Definition btree_insert_batched (fuel : nat) (root_data : bytes) (entry : ChildEntry) : M E (bytes * bytes) :=
  root_node ← lift (BTreeNode_deserialize root_data hash_length 0);
  '(result, batch) ← btree_insert_node_batched fuel root_node entry [];
  '(new_hash, new_data, batch) ←
    match result with
    | Done hash data => mret (hash, data, batch)
    | Split left_hash split_key right_hash =>
      let new_root := Internal {| in_keys := [split_key]; in_children := [left_hash; right_hash] |} in
      new_data ← lift (BTreeNode_serialize new_root hash_length);
      new_hash ← lift (content_hash new_root hash_length algo);
      mret (new_hash, new_data, batch_node batch new_hash new_data)
    end;
  _ ← ns_flush_batch batch;
  mret (new_hash, new_data).

(** ** Bulk construction *)

(** [for chunk in entries.chunks(BTREE_MAX_LEAF_ENTRIES)]. *)
Fixpoint store_leaves (chunks : list (list ChildEntry)) (leaf_hashes split_keys : list bytes)
    : M E (list bytes * list bytes) :=
  match chunks with
  | [] => mret (leaf_hashes, split_keys)
  | chunk :: chunks =>
    hash ← store_btree_node (Leaf {| ln_entries := chunk |});
    split_keys ← (if bool_decide (leaf_hashes = []) then mret split_keys
                  else first ← lift (index chunk 0); mret (split_keys ++ [ce_name first]));
    store_leaves chunks (leaf_hashes ++ [hash]) split_keys
  end.

Definition max_children : nat := Z.to_nat (BTREE_MAX_INTERNAL_KEYS + 1).

(** [while i < children.len()], with a round per group of children. *)
Fixpoint group_children (fuel : nat) (children keys : list bytes) (i : nat) (new_children new_keys : list bytes)
    : M E (list bytes * list bytes) :=
  match fuel with
  | O => out_of_fuel
  | S fuel =>
    if (i <? length children)%nat then
      let stop := Nat.min (i + max_children) (length children) in
      node_children ← lift (slice_chk children (Z.of_nat i) (Z.of_nat stop));
      node_keys ← lift (if (i =? 0)%nat then slice_chk keys 0 (Z.of_nat stop - 1)
                        else slice_chk keys (Z.of_nat i - 1) (Z.of_nat stop - 1));
      hash ← store_btree_node (Internal {| in_keys := node_keys; in_children := node_children |});
      new_keys ← (if negb (bool_decide (new_children = [])) && (0 <? i)%nat && (i - 1 <? length keys)%nat
                  then key ← lift (index keys (Z.of_nat i - 1)); mret (new_keys ++ [key])
                  else mret new_keys);
      group_children fuel children keys stop (new_children ++ [hash]) new_keys
    else mret (new_children, new_keys)
  end.

Fixpoint build_internal_level (fuel : nat) (children keys : list bytes) : M E bytes :=
  match fuel with
  | O => out_of_fuel
  | S fuel =>
    match children with
    | [child] => mret child
    | _ =>
      '(new_children, new_keys) ← group_children (S (length children)) children keys 0 [] [];
      match new_children with
      | [child] => mret child
      | _ => build_internal_level fuel new_children new_keys
      end
    end
  end.

Definition btree_from_entries (fuel : nat) (entries : list ChildEntry) : M E bytes :=
  let entries := sort_by_key ce_name entries in
  match entries with
  | [] => store_btree_node (Leaf {| ln_entries := [] |})
  | _ =>
    '(leaf_hashes, split_keys) ← store_leaves (chunks_of (Z.to_nat BTREE_MAX_LEAF_ENTRIES) entries) [] [];
    match leaf_hashes with
    | [hash] => mret hash
    | _ => build_internal_level fuel leaf_hashes split_keys
    end
  end.

(** ** Lookup and listing *)

Fixpoint btree_lookup (fuel : nat) (root_hash name : bytes) (include_deleted : bool) : M E (option ChildEntry) :=
  match fuel with
  | O => out_of_fuel
  | S fuel =>
    node_data ← load include_deleted root_hash "B-tree root not found";
    node ← lift (BTreeNode_deserialize node_data.2 hash_length node_data.1);
    match node with
    | Leaf leaf => mret (LeafNode_find leaf name)
    | Internal internal =>
      let child_idx := find_child_index internal name in
      child_hash ← lift (index (in_children internal) (Z.of_nat child_idx));
      btree_lookup fuel child_hash name include_deleted
    end
  end.

(** [for child_hash in children { all.extend(list(child_hash)?) }]. *)
Fixpoint list_children (list_child : bytes -> M E (list ChildEntry)) (children : list bytes) : M E (list ChildEntry) :=
  match children with
  | [] => mret []
  | child_hash :: children =>
    entries ← list_child child_hash;
    all_entries ← list_children list_child children;
    mret (entries ++ all_entries)
  end.

Fixpoint btree_list (fuel : nat) (root_hash : bytes) (include_deleted : bool) : M E (list ChildEntry) :=
  match fuel with
  | O => out_of_fuel
  | S fuel =>
    node_data ← load include_deleted root_hash "B-tree root not found";
    node ← lift (BTreeNode_deserialize node_data.2 hash_length node_data.1);
    match node with
    | Leaf leaf => mret (ln_entries leaf)
    | Internal internal =>
      list_children (fun child_hash => btree_list fuel child_hash include_deleted) (in_children internal)
    end
  end.

Definition btree_list_from_node (fuel : nat) (root_data : bytes) (include_deleted : bool) : M E (list ChildEntry) :=
  node ← lift (BTreeNode_deserialize root_data hash_length 0);
  match node with
  | Leaf leaf => mret (ln_entries leaf)
  | Internal internal =>
    list_children (fun child_hash => btree_list fuel child_hash include_deleted) (in_children internal)
  end.

(** ** Deletion *)

(** The node without a child and the key beside it; [remove] panics out of range. *)
Definition remove_child (internal : InternalNode) (child_idx : nat) : res InternalNode :=
  let keys :=
    if (child_idx <? length (in_keys internal))%nat then remove_at child_idx (in_keys internal)
    else if bool_decide (in_keys internal = []) then in_keys internal
    else remove_at (child_idx - 1) (in_keys internal) in
  if (length (in_children internal) <=? child_idx)%nat then Panic else
  Ok {| in_keys := keys; in_children := remove_at child_idx (in_children internal) |}.

Fixpoint btree_delete (fuel : nat) (root_hash name : bytes) : M E (option bytes) :=
  match fuel with
  | O => out_of_fuel
  | S fuel =>
    node_data ← load false root_hash "B-tree root not found";
    node ← lift (BTreeNode_deserialize node_data.2 hash_length node_data.1);
    match node with
    | Leaf leaf =>
      let '(_, leaf) := LeafNode_remove leaf name in
      if bool_decide (ln_entries leaf = []) then mret None else
      new_hash ← store_btree_node (Leaf leaf);
      mret (Some new_hash)
    | Internal internal =>
      let child_idx := find_child_index internal name in
      child_hash ← lift (index (in_children internal) (Z.of_nat child_idx));
      o ← btree_delete fuel child_hash name;
      match o with
      | Some new_child_hash =>
        new_hash ← store_btree_node (Internal {| in_keys := in_keys internal;
          in_children := <[child_idx := new_child_hash]> (in_children internal) |});
        mret (Some new_hash)
      | None =>
        internal ← lift (remove_child internal child_idx);
        match in_children internal with
        | [] => mret None
        | [child] => mret (Some child)
        | _ =>
          new_hash ← store_btree_node (Internal internal);
          mret (Some new_hash)
        end
      end
    end
  end.
End BTree.
