(* ===== verification/BTreeSpec.v ===== *)
(** What the directory B-tree promises.  [NodeStoreLaws] states what the tree relies
    on of the storage engine; [tree_at] says which sorted list of children a node
    stands for, through the nodes its hashes lead to; the reference operations
    [put], [del] and [find] act on that list. *)
From S2P Require Import Prelude Sorted Codec EntryFormat Records KvEntry StateM BTreeNode BTree.

Local Open Scope Z_scope.

(** ** The engine as a store of nodes *)

(** Room for a node's encoding: at most 40 children or 77 keys. *)
Definition NODE_MAX : Z := 2^24.

(** The live entries after writes in order. *)
Definition apply_writes {A} (m : gmap bytes A) (ws : list (bytes * A)) : gmap bytes A :=
  foldl (fun m w => <[w.1 := w.2]> m) m ws.

(** [ns_view] is what is live, [ns_log] every entry ever written, and [ns_room n]
    says that the next [n] writes of nodes succeed. *)
Class NodeStoreLaws (E : Type) `{!NodeStore E} := {
  ns_view : E -> gmap bytes (Z * bytes);
  ns_log : E -> list (bytes * (Z * bytes));
  ns_room : nat -> E -> Prop;
  ns_room_le m n s : (m <= n)%nat -> ns_room n s -> ns_room m s;
  ns_view_logged n s h x : ns_room n s -> ns_view s !! h = Some x -> (h, x) ∈ ns_log s;
  ns_get_spec n s h : ns_room n s -> ns_get_entry s h = Ok (ns_view s !! h);
  ns_get_deleted_spec n s h x : ns_room n s -> ns_view s !! h = Some x ->
    ns_get_entry_including_deleted s h = Ok (Some x);
  ns_store_spec n s k v : ns_room (S n) s -> zlen k = 32 -> zlen v <= NODE_MAX ->
    runs (ns_store_entry DirectoryIndex k v) s (fun _ s' => ns_room n s' /\
      ns_log s' = ns_log s ++ [(k, (0, v))] /\ ns_view s' = <[k := (0, v)]> (ns_view s));
  ns_flush_spec n s b : ns_room (length b + n) s ->
    Forall (fun be => be_entry_type be = DirectoryIndex /\ be_kv_type be = to_kv_type DirectoryIndex /\
              zlen (be_key be) = 32 /\ zlen (be_value be) <= NODE_MAX) b ->
    runs (ns_flush_batch b) s (fun _ s' => ns_room n s' /\
      ns_log s' = ns_log s ++ ((fun be => (be_key be, (0, be_value be))) <$> b) /\
      ns_view s' = apply_writes (ns_view s) ((fun be => (be_key be, (0, be_value be))) <$> b));
}.

(** ** The reference: a list of children sorted by name *)

Definition put (e : ChildEntry) (es : list ChildEntry) : list ChildEntry :=
  filter (fun x => lex_lt (ce_name x) (ce_name e)) es ++ e :: filter (fun x => lex_lt (ce_name e) (ce_name x)) es.

Definition del (name : bytes) (es : list ChildEntry) : list ChildEntry :=
  filter (fun x => ce_name x <> name) es.

Definition lookup_name (name : bytes) (es : list ChildEntry) : option ChildEntry :=
  head (filter (fun x => ce_name x = name) es).

Abbreviation before k := (fun x : ChildEntry => lex_lt (ce_name x) k).
Abbreviation after k := (fun x : ChildEntry => lex_lt k (ce_name x)).
Abbreviation by_name := (key_lt ce_name).

Lemma before_ne k x : lex_lt (ce_name x) k -> ce_name x <> k.
Proof. intros Hlt <-. by apply lex_lt_irrefl in Hlt. Qed.
Lemma after_ne k x : lex_lt k (ce_name x) -> ce_name x <> k.
Proof. intros Hlt <-. by apply lex_lt_irrefl in Hlt. Qed.
Lemma lex_lt_asym a b : lex_lt a b -> ~ lex_lt b a.
Proof. intros Hab Hba. exact (lex_lt_irrefl _ (lex_lt_trans _ _ _ Hab Hba)). Qed.

(** Filters of elements all on one side of a name. *)
Lemma filter_before k es : Forall (before k) es ->
  filter (before k) es = es /\ filter (after k) es = [] /\
  filter (fun x => ce_name x = k) es = [] /\ filter (fun x => ce_name x <> k) es = es.
Proof.
  rewrite Forall_forall. intros Hb. split_and!.
  - by apply filter_all.
  - apply filter_none. intros x Hx. by apply lex_lt_asym, Hb.
  - apply filter_none. intros x Hx. by apply before_ne, Hb.
  - apply filter_all. intros x Hx. by apply before_ne, Hb.
Qed.

Lemma filter_after k es : Forall (after k) es ->
  filter (before k) es = [] /\ filter (after k) es = es /\
  filter (fun x => ce_name x = k) es = [] /\ filter (fun x => ce_name x <> k) es = es.
Proof.
  rewrite Forall_forall. intros Ha. split_and!.
  - apply filter_none. intros x Hx. by apply lex_lt_asym, Ha.
  - by apply filter_all.
  - apply filter_none. intros x Hx. by apply after_ne, Ha.
  - apply filter_all. intros x Hx. by apply after_ne, Ha.
Qed.

(** The operations only touch the part that can hold the name. *)
Section Local.
Context (k : bytes) (es1 es0 es2 : list ChildEntry).
Context (H1 : Forall (before k) es1) (H2 : Forall (after k) es2).

Lemma put_local e : ce_name e = k -> put e (es1 ++ es0 ++ es2) = es1 ++ put e es0 ++ es2.
Proof.
  intros <-. unfold put. rewrite !filter_app.
  destruct (filter_before _ _ H1) as (-> & -> & _), (filter_after _ _ H2) as (-> & -> & _).
  by rewrite app_nil_r, <- !app_assoc.
Qed.

Lemma del_local : del k (es1 ++ es0 ++ es2) = es1 ++ del k es0 ++ es2.
Proof.
  unfold del. rewrite !filter_app.
  by destruct (filter_before _ _ H1) as (_ & _ & _ & ->), (filter_after _ _ H2) as (_ & _ & _ & ->).
Qed.

Lemma lookup_local : lookup_name k (es1 ++ es0 ++ es2) = lookup_name k es0.
Proof.
  unfold lookup_name. rewrite !filter_app.
  destruct (filter_before _ _ H1) as (_ & _ & -> & _), (filter_after _ _ H2) as (_ & _ & -> & _).
  by rewrite app_nil_r.
Qed.
End Local.

(** The leaf operations are the reference operations. *)
Lemma insert_at_app {A} (l1 l2 : list A) x : insert_at (length l1) x (l1 ++ l2) = l1 ++ x :: l2.
Proof. unfold insert_at. by rewrite take_app_length, drop_app_length. Qed.

Lemma remove_at_app {A} (l1 l2 : list A) x : remove_at (length l1) (l1 ++ x :: l2) = l1 ++ l2.
Proof.
  unfold remove_at. rewrite take_app_length. f_equal. rewrite drop_app_ge by lia.
  by replace (S (length l1) - length l1)%nat with 1%nat by lia.
Qed.

Lemma insert_middle {A} (l1 l2 : list A) x y : <[length l1 := y]> (l1 ++ x :: l2) = l1 ++ y :: l2.
Proof. rewrite insert_app_r_alt by lia. by rewrite Nat.sub_diag. Qed.

Lemma put_around e l1 x l2 : ce_name x = ce_name e ->
  Forall (before (ce_name e)) l1 -> Forall (after (ce_name e)) l2 -> put e (l1 ++ x :: l2) = l1 ++ e :: l2.
Proof.
  intros Hx H1 H2. etrans; [exact (put_local (ce_name e) l1 [x] l2 H1 H2 e eq_refl)|]. f_equal.
  unfold put. rewrite !filter_cons, !decide_False by (rewrite Hx; apply lex_lt_irrefl). done.
Qed.

Lemma put_between e l1 l2 :
  Forall (before (ce_name e)) l1 -> Forall (after (ce_name e)) l2 -> put e (l1 ++ l2) = l1 ++ e :: l2.
Proof. intros H1 H2. exact (put_local (ce_name e) l1 [] l2 H1 H2 e eq_refl). Qed.

Lemma leaf_upsert_put leaf e : StronglySorted by_name (ln_entries leaf) ->
  ln_entries (LeafNode_upsert leaf e).2 = put e (ln_entries leaf).
Proof.
  intros Hs. unfold LeafNode_upsert.
  destruct (binary_search_by_spec ce_name _ (ce_name e) Hs) as [l1 x l2 -> Hx H1 H2|l1 l2 -> H1 H2]; simpl.
  - by rewrite insert_middle, put_around.
  - by rewrite insert_at_app, put_between.
Qed.

Lemma leaf_remove_del leaf name : StronglySorted by_name (ln_entries leaf) ->
  ln_entries (LeafNode_remove leaf name).2 = del name (ln_entries leaf).
Proof.
  intros Hs. unfold LeafNode_remove.
  destruct (binary_search_by_spec ce_name _ name Hs) as [l1 x l2 E Hx H1 H2|l1 l2 E H1 H2]; simpl; rewrite E.
  - rewrite remove_at_app. symmetry. etrans; [exact (del_local name l1 [x] l2 H1 H2)|]. unfold del.
    rewrite filter_cons, decide_False by (rewrite Hx; tauto). done.
  - symmetry. exact (del_local name l1 [] l2 H1 H2).
Qed.

Lemma leaf_find_lookup leaf name : StronglySorted by_name (ln_entries leaf) ->
  LeafNode_find leaf name = lookup_name name (ln_entries leaf).
Proof.
  intros Hs. unfold LeafNode_find.
  destruct (binary_search_by_spec ce_name _ name Hs) as [l1 x l2 E Hx H1 H2|l1 l2 E H1 H2]; rewrite E.
  - rewrite list_lookup_middle by done. symmetry. etrans; [exact (lookup_local name l1 [x] l2 H1 H2)|].
    unfold lookup_name. by rewrite filter_cons, decide_True.
  - symmetry. exact (lookup_local name l1 [] l2 H1 H2).
Qed.

(** ** The children a node stands for *)

(** Names between two optional bounds: the lower included, the upper excluded. *)
Definition in_lo (lo : option bytes) (k : bytes) : Prop :=
  match lo with Some l => ~ lex_lt k l | None => True end.
Definition in_hi (hi : option bytes) (k : bytes) : Prop :=
  match hi with Some h => lex_lt k h | None => True end.
Definition bound_lt (lo hi : option bytes) : Prop :=
  match lo, hi with Some l, Some h => lex_lt l h | _, _ => True end.

Definition named_in (lo hi : option bytes) (e : ChildEntry) : Prop :=
  in_lo lo (ce_name e) /\ in_hi hi (ce_name e).

(** A child as it is read from a node: within its fields, an absent content type
    never an empty one. *)
Record child_ok (e : ChildEntry) : Prop := {
  co_wf : ChildEntry_wf 32 e;
  co_fits : entry_fits e;
  co_norm : ChildEntry_norm e = e;
}.

Record leaf_ok (lo hi : option bytes) (es : list ChildEntry) : Prop := {
  lo_sorted : StronglySorted by_name es;
  lo_named : Forall (named_in lo hi) es;
  lo_children : Forall child_ok es;
  lo_size : zlen es <= BTREE_MAX_LEAF_ENTRIES;
}.

Definition node_at (view : gmap bytes (Z * bytes)) (h : bytes) (n : BTreeNode) : Prop :=
  zlen h = 32 /\ exists data, view !! h = Some (0, data) /\ BTreeNode_deserialize data 32 0 = Ok n.

(** [tree_at n lo hi node es]: [node], of height at most [n], holds the children
    [es], all named within the bounds; [kids]: so do the children of an internal
    node, each between the keys around it. *)
Inductive tree_at (view : gmap bytes (Z * bytes)) :
    nat -> option bytes -> option bytes -> BTreeNode -> list ChildEntry -> Prop :=
| at_leaf n lo hi es :
    leaf_ok lo hi es -> tree_at view (S n) lo hi (Leaf {| ln_entries := es |}) es
| at_node n lo hi ks cs es :
    zlen ks <= BTREE_MAX_INTERNAL_KEYS -> kids view n lo hi ks cs es ->
    tree_at view (S n) lo hi (Internal {| in_keys := ks; in_children := cs |}) es
with kids (view : gmap bytes (Z * bytes)) :
    nat -> option bytes -> option bytes -> list bytes -> list bytes -> list ChildEntry -> Prop :=
| kids_last n lo hi c node es :
    bound_lt lo hi -> node_at view c node -> tree_at view n lo hi node es -> kids view n lo hi [] [c] es
| kids_cons n lo hi k ks c cs node es1 es2 :
    bound_lt lo (Some k) -> key_ok k -> node_at view c node -> tree_at view n lo (Some k) node es1 ->
    kids view n (Some k) hi ks cs es2 -> kids view n lo hi (k :: ks) (c :: cs) (es1 ++ es2).

Scheme tree_at_mind := Induction for tree_at Sort Prop
  with kids_mind := Induction for kids Sort Prop.
Combined Scheme tree_kids_ind from tree_at_mind, kids_mind.

(** A root hash that stands for a directory's children. *)
Definition holds (view : gmap bytes (Z * bytes)) (n : nat) (lo hi : option bytes) (root : bytes)
    (es : list ChildEntry) : Prop :=
  exists node, node_at view root node /\ tree_at view n lo hi node es.

(** ** Bounds *)

Lemma lex_le_lt_trans a b c : ~ lex_lt b a -> lex_lt b c -> lex_lt a c.
Proof.
  intros Hab Hbc. destruct (lex_trichotomy a b) as [?|[->|?]]; [by eapply lex_lt_trans|done|done].
Qed.
Lemma lex_lt_le_trans a b c : lex_lt a b -> ~ lex_lt c b -> lex_lt a c.
Proof.
  intros Hab Hbc. destruct (lex_trichotomy b c) as [?|[->|?]]; [by eapply lex_lt_trans|done|done].
Qed.

(** [lo' ≤ lo] and [hi ≤ hi'] for optional bounds. *)
Definition lo_le (lo' lo : option bytes) : Prop :=
  match lo', lo with None, _ => True | Some a, Some b => ~ lex_lt b a | Some _, None => False end.
Definition hi_le (hi hi' : option bytes) : Prop :=
  match hi, hi' with _, None => True | Some a, Some b => ~ lex_lt b a | None, Some _ => False end.

Lemma lo_le_refl lo : lo_le lo lo.
Proof. destruct lo; simpl; [apply lex_lt_irrefl|done]. Qed.
Lemma hi_le_refl hi : hi_le hi hi.
Proof. destruct hi; simpl; [apply lex_lt_irrefl|done]. Qed.

Lemma in_lo_le lo' lo k : lo_le lo' lo -> in_lo lo k -> in_lo lo' k.
Proof.
  destruct lo' as [a|], lo as [b|]; simpl; try done. intros Hab Hb Ha. apply Hb. by eapply lex_lt_le_trans.
Qed.
Lemma in_hi_le hi hi' k : hi_le hi hi' -> in_hi hi k -> in_hi hi' k.
Proof. destruct hi as [a|], hi' as [b|]; simpl; try done. intros Hab Hb. by eapply lex_lt_le_trans. Qed.

Lemma bound_lo_le lo k : bound_lt lo (Some k) -> lo_le lo (Some k).
Proof. destruct lo; simpl; [apply lex_lt_asym|done]. Qed.
Lemma bound_hi_le k hi : bound_lt (Some k) hi -> hi_le (Some k) hi.
Proof. destruct hi; simpl; [apply lex_lt_asym|done]. Qed.

Lemma bound_lt_trans lo k hi : bound_lt lo (Some k) -> bound_lt (Some k) hi -> bound_lt lo hi.
Proof. destruct lo, hi; simpl; try done. apply lex_lt_trans. Qed.

Lemma bound_lt_widen lo hi lo' hi' : bound_lt lo hi -> lo_le lo' lo -> hi_le hi hi' -> bound_lt lo' hi'.
Proof.
  destruct lo as [a|], hi as [b|], lo' as [a'|], hi' as [b'|]; simpl; try done.
  intros Hb Hlo Hhi. by eapply lex_le_lt_trans, lex_lt_le_trans.
Qed.
#[export] Hint Resolve lo_le_refl hi_le_refl bound_lo_le bound_hi_le : bounds.

Lemma named_widen lo hi lo' hi' es :
  lo_le lo' lo -> hi_le hi hi' -> Forall (named_in lo hi) es -> Forall (named_in lo' hi') es.
Proof.
  intros Hlo Hhi Hall. eapply Forall_impl; [exact Hall|]. intros e [H1 H2]. split; [by eapply in_lo_le|by eapply in_hi_le].
Qed.

(** ** Reading the relation *)

Section Trees.
Implicit Types view : gmap bytes (Z * bytes).

Lemma tree_mono view view' : view ⊆ view' ->
  (forall n lo hi node es, tree_at view n lo hi node es -> tree_at view' n lo hi node es) /\
  (forall n lo hi ks cs es, kids view n lo hi ks cs es -> kids view' n lo hi ks cs es).
Proof.
  intros Hsub. assert (Hn : forall h node, node_at view h node -> node_at view' h node).
  { intros h node (Hl & data & Hd & Hdec). split; [done|]. exists data. split; [|done].
    by eapply lookup_weaken. }
  apply tree_kids_ind; intros; econstructor; eauto.
Qed.

Lemma tree_height view :
  (forall n lo hi node es, tree_at view n lo hi node es -> forall m, (n <= m)%nat -> tree_at view m lo hi node es) /\
  (forall n lo hi ks cs es, kids view n lo hi ks cs es -> forall m, (n <= m)%nat -> kids view m lo hi ks cs es).
Proof.
  apply tree_kids_ind; intros; try (destruct m as [|m]; [lia|]); econstructor; eauto with lia.
Qed.

Lemma tree_widen view :
  (forall n lo hi node es, tree_at view n lo hi node es ->
     forall lo' hi', lo_le lo' lo -> hi_le hi hi' -> tree_at view n lo' hi' node es) /\
  (forall n lo hi ks cs es, kids view n lo hi ks cs es ->
     forall lo' hi', lo_le lo' lo -> hi_le hi hi' -> kids view n lo' hi' ks cs es).
Proof.
  apply tree_kids_ind; intros.
  - constructor. destruct l. split; [done|by eapply named_widen|done|done].
  - constructor; eauto.
  - econstructor; eauto. by eapply bound_lt_widen.
  - econstructor; eauto with bounds. eapply bound_lt_widen; eauto with bounds.
Qed.

(** The children come out sorted and within the bounds. *)
Lemma tree_entries view :
  (forall n lo hi node es, tree_at view n lo hi node es ->
     StronglySorted by_name es /\ Forall (named_in lo hi) es /\ Forall child_ok es) /\
  (forall n lo hi ks cs es, kids view n lo hi ks cs es -> bound_lt lo hi /\
     StronglySorted by_name es /\ Forall (named_in lo hi) es /\ Forall child_ok es).
Proof.
  apply tree_kids_ind; intros; [by destruct l|by destruct H as (_ & ?)|done|].
  destruct H as (Hs1 & Hn1 & Hc1), H0 as (Hb & Hs2 & Hn2 & Hc2). split_and!.
  - by eapply bound_lt_trans.
  - apply (sorted_join ce_name es1 es2 k); [done..| |].
    + eapply Forall_impl; [exact Hn1|]. by intros x [_ Hx].
    + eapply Forall_impl; [exact Hn2|]. by intros x [Hx _].
  - apply Forall_app. split; (eapply named_widen; [..|done]); eauto with bounds.
  - by apply Forall_app.
Qed.

(** The keys of an internal node are sorted and within the bounds. *)
Lemma kids_keys view n lo hi ks cs es : kids view n lo hi ks cs es ->
  StronglySorted (key_lt id) ks /\ Forall (fun k => bound_lt lo (Some k) /\ bound_lt (Some k) hi /\ key_ok k) ks /\
  length cs = S (length ks) /\ Forall (fun c => zlen c = 32) cs.
Proof.
  induction 1 as [n lo hi c node es Hb [Hc _] Ht|n lo hi k ks c cs node es1 es2 Hb Hk [Hc _] Ht Hkids IH].
  - split_and!; [constructor..|done|by repeat constructor].
  - pose proof (proj1 (proj2 (tree_entries view) _ _ _ _ _ _ Hkids)) as Hkh.
    destruct IH as (Hs & Hall & Hl & Hcs). split_and!; [| |simpl; lia|by constructor].
    + constructor; [done|]. eapply Forall_impl; [exact Hall|]. by intros x (Hx & _).
    + constructor; [done|]. eapply Forall_impl; [exact Hall|]. intros x (Hx1 & Hx2 & Hx3).
      split_and!; [by eapply bound_lt_trans|done|done].
Qed.
End Trees.

(** ** One child in focus *)

Section Focus.
Context (view : gmap bytes (Z * bytes)).

(** The children left of the one in focus, with their keys up to its lower bound. *)
Inductive left_kids (n : nat) : option bytes -> list bytes -> list bytes -> option bytes -> list ChildEntry -> Prop :=
| left_nil lo : left_kids n lo [] [] lo []
| left_cons lo k ks c cs lo' node es es' :
    bound_lt lo (Some k) -> key_ok k -> node_at view c node -> tree_at view n lo (Some k) node es ->
    left_kids n (Some k) ks cs lo' es' -> left_kids n lo (k :: ks) (c :: cs) lo' (es ++ es').

(** The children right of it, with their keys from its upper bound on. *)
Inductive right_kids (n : nat) : option bytes -> option bytes -> list bytes -> list bytes -> list ChildEntry -> Prop :=
| right_nil hi : right_kids n hi hi [] [] []
| right_cons k hi ks cs es : key_ok k -> kids view n (Some k) hi ks cs es -> right_kids n (Some k) hi (k :: ks) cs es.

(** The focus: child [c] with its bounds and children among those of a node. *)
Record focus (n : nat) (lo hi : option bytes) (ks1 ks2 cs : list bytes) (es : list ChildEntry)
    (cs1 : list bytes) (c : bytes) (cs2 : list bytes) (lo' hi' : option bytes)
    (es1 es0 es2 : list ChildEntry) : Prop := {
  fo_cs : cs = cs1 ++ c :: cs2;
  fo_es : es = es1 ++ es0 ++ es2;
  fo_len : length cs1 = length ks1;
  fo_left : left_kids n lo ks1 cs1 lo' es1;
  fo_bound : bound_lt lo' hi';
  fo_child : holds view n lo' hi' c es0;
  fo_right : right_kids n hi' hi ks2 cs2 es2;
}.

Lemma kids_focus n ks1 : forall lo hi ks2 cs es, kids view n lo hi (ks1 ++ ks2) cs es ->
  exists cs1 c cs2 lo' hi' es1 es0 es2, focus n lo hi ks1 ks2 cs es cs1 c cs2 lo' hi' es1 es0 es2.
Proof.
  induction ks1 as [|k ks1 IH]; intros lo hi ks2 cs es Hk.
  - simpl in Hk. inversion Hk as [? ? ? c node ? Hb Hn Ht|? ? ? k' ks' c cs' node e1 e2 Hb Hk' Hn Ht Hks]; subst.
    + exists [], c, [], lo, hi, [], es, []. split; [done|by rewrite app_nil_r|done|constructor|done| |constructor].
      by exists node.
    + exists [], c, cs', lo, (Some k'), [], e1, e2. split; [done..|constructor|done| |by constructor]. by exists node.
  - simpl in Hk. inversion Hk as [|? ? ? k' ks' c cs' node e1 e2 Hb Hk' Hn Ht Hks]; subst.
    destruct (IH _ _ _ _ _ Hks) as (cs1 & c0 & cs2 & lo' & hi' & es1 & es0 & es2 & [-> -> Hl HL Hb' Hc HR]).
    exists (c :: cs1), c0, cs2, lo', hi', (e1 ++ es1), es0, es2.
    split; [done|by rewrite <- app_assoc|simpl; lia|by econstructor|done|done|done].
Qed.

(** Putting children back to the right of a left part, and beside a right part. *)
Lemma left_kids_app n lo ks1 cs1 lo' es1 hi ks cs es :
  left_kids n lo ks1 cs1 lo' es1 -> kids view n lo' hi ks cs es -> kids view n lo hi (ks1 ++ ks) (cs1 ++ cs) (es1 ++ es).
Proof.
  induction 1 as [lo|lo k ks1 c cs1 lo' node es0 es' Hb Hk Hn Ht HL IH]; intros Hks; [done|].
  simpl. rewrite <- app_assoc. econstructor; eauto.
Qed.

Lemma right_kids_cons n lo' hi' hi c es0 ks2 cs2 es2 :
  bound_lt lo' hi' -> holds view n lo' hi' c es0 -> right_kids n hi' hi ks2 cs2 es2 ->
  kids view n lo' hi ks2 (c :: cs2) (es0 ++ es2).
Proof.
  intros Hb (node & Hn & Ht) HR. inversion HR; subst; [rewrite app_nil_r|]; by econstructor.
Qed.

(** What lies left of the focus comes before a name in focus, what lies right after. *)
Lemma left_kids_before n lo ks1 cs1 lo' es1 name :
  left_kids n lo ks1 cs1 lo' es1 -> Forall (fun k => ~ lex_lt name k) ks1 -> in_lo lo name ->
  in_lo lo' name /\ Forall (before name) es1.
Proof.
  induction 1 as [lo|lo k ks c cs lo' node es es' Hb Hk Hn Ht HL IH]; intros Hall Hlo; [done|].
  apply Forall_cons in Hall as [Hle Hall]. destruct (IH Hall Hle) as [Hlo' Hes]. split; [done|].
  apply Forall_app. split; [|done]. destruct (proj1 (tree_entries view) _ _ _ _ _ Ht) as (_ & Hnm & _).
  eapply Forall_impl; [exact Hnm|]. intros x [_ Hx]. by eapply lex_lt_le_trans.
Qed.

Lemma right_kids_after n hi' hi ks2 cs2 es2 name :
  right_kids n hi' hi ks2 cs2 es2 -> Forall (fun k => lex_lt name k) ks2 -> in_hi hi name ->
  in_hi hi' name /\ Forall (after name) es2.
Proof.
  intros HR Hall Hhi. inversion HR as [?|k ? ks cs es Hk Hks]; subst; [done|]. apply Forall_cons in Hall as [Hlt _]. split; [done|].
  destruct (proj2 (tree_entries view) _ _ _ _ _ _ Hks) as (_ & _ & Hnm & _).
  eapply Forall_impl; [exact Hnm|]. intros x [Hx _]. by eapply lex_lt_le_trans.
Qed.

(** The binary search over the keys selects the child whose bounds hold the name. *)
Lemma find_child_index_split ks cs name : StronglySorted (key_lt id) ks ->
  exists ks1 ks2, ks = ks1 ++ ks2 /\
    find_child_index {| in_keys := ks; in_children := cs |} name = length ks1 /\
    Forall (fun k => ~ lex_lt name k) ks1 /\ Forall (fun k => lex_lt name k) ks2.
Proof.
  intros Hs. unfold find_child_index. cbn [in_keys].
  destruct (binary_search_by_spec id ks name Hs) as [l1 x l2 -> Hx H1 H2|l1 l2 -> H1 H2].
  - exists (l1 ++ [x]), l2. rewrite <- app_assoc, length_app, Nat.add_1_r. split_and!; [done..| |done].
    apply Forall_app. split; [|constructor; [|done]].
    + eapply Forall_impl; [exact H1|]. intros k. apply lex_lt_asym.
    + unfold id in Hx. subst x. apply lex_lt_irrefl.
  - exists l1, l2. split_and!; [done..| |done]. eapply Forall_impl; [exact H1|]. intros k. apply lex_lt_asym.
Qed.

(** The step every operation starts with. *)
Lemma kids_find n lo hi ks cs es name : kids view n lo hi ks cs es -> in_lo lo name -> in_hi hi name ->
  exists ks1 ks2 cs1 c cs2 lo' hi' es1 es0 es2,
    ks = ks1 ++ ks2 /\ focus n lo hi ks1 ks2 cs es cs1 c cs2 lo' hi' es1 es0 es2 /\
    find_child_index {| in_keys := ks; in_children := cs |} name = length cs1 /\
    index cs (Z.of_nat (length cs1)) = Ok c /\
    in_lo lo' name /\ in_hi hi' name /\ Forall (before name) es1 /\ Forall (after name) es2.
Proof.
  intros Hk Hlo Hhi. destruct (kids_keys _ _ _ _ _ _ _ Hk) as (Hs & _).
  destruct (find_child_index_split ks cs name Hs) as (ks1 & ks2 & -> & Ei & H1 & H2).
  destruct (kids_focus _ _ _ _ _ _ _ Hk) as (cs1 & c & cs2 & lo' & hi' & es1 & es0 & es2 & Hf).
  exists ks1, ks2, cs1, c, cs2, lo', hi', es1, es0, es2. rewrite (fo_len _ _ _ _ _ _ _ _ _ _ _ _ _ _ _ Hf).
  destruct (left_kids_before _ _ _ _ _ _ name (fo_left _ _ _ _ _ _ _ _ _ _ _ _ _ _ _ Hf) H1 Hlo) as [? ?].
  destruct (right_kids_after _ _ _ _ _ _ name (fo_right _ _ _ _ _ _ _ _ _ _ _ _ _ _ _ Hf) H2 Hhi) as [? ?].
  split_and!; try done. destruct Hf as [-> _ Hl _ _ _ _]. rewrite <- Hl. unfold index.
  rewrite (proj2 (Z.leb_le _ _)), (proj2 (Z.ltb_lt _ _)) by (unfold zlen; rewrite ?length_app; simpl; lia).
  by rewrite Nat2Z.id, list_lookup_middle.
Qed.
End Focus.
