(* ===== verification/BTreeRefine.v ===== *)
(** The B-tree operations against the reference on sorted lists: lookup and
    listing read what a root stands for; insertion, batched insertion and deletion
    write nodes whose root stands for the updated list. *)
From S2P Require Import Prelude Sorted Codec EntryFormat Records KvEntry StateM BTreeNode BTree BTreeSpec.

Local Open Scope Z_scope.

(** ** Children as they are stored *)

Lemma norm_idem e : ChildEntry_norm (ChildEntry_norm e) = ChildEntry_norm e.
Proof. unfold ChildEntry_norm. simpl. f_equal. by destruct (ce_content_type e) as [[|]|]. Qed.

Lemma norm_child_ok e : ChildEntry_wf 32 e -> entry_fits e -> child_ok (ChildEntry_norm e).
Proof.
  intros Hwf [Hn Hc]. split; [|split; [done|]|apply norm_idem].
  - destruct Hwf. split; try done. simpl. by destruct (ce_content_type e) as [[|]|].
  - simpl. by destruct (ce_content_type e) as [[|]|].
Qed.

Lemma norm_filter (P : ChildEntry -> Prop) `{!forall x, Decision (P x)} es :
  Forall child_ok es -> ChildEntry_norm <$> filter P es = filter P es.
Proof.
  intros Hall. induction Hall as [|e es He _ IH]; [done|]. rewrite filter_cons.
  destruct (decide (P e)); [|done]. rewrite fmap_cons, IH. by rewrite (co_norm _ He).
Qed.

Lemma norm_put e es : Forall child_ok es -> ChildEntry_norm <$> put e es = put (ChildEntry_norm e) es.
Proof. intros Hes. unfold put. by rewrite fmap_app, fmap_cons, !norm_filter. Qed.

Lemma norm_id es : Forall child_ok es -> ChildEntry_norm <$> es = es.
Proof. induction 1 as [|e es He _ IH]; [done|]. by rewrite fmap_cons, IH, (co_norm _ He). Qed.

Lemma Forall_filter {A} (P Q : A -> Prop) `{!forall x, Decision (Q x)} l : Forall P l -> Forall P (filter Q l).
Proof. rewrite !Forall_forall. intros HP x [_ Hx]%list_elem_of_filter. by apply HP. Qed.

Lemma Forall_put (P : ChildEntry -> Prop) e es : P e -> Forall P es -> Forall P (put e es).
Proof. intros He Hes. unfold put. apply Forall_app. split; [|constructor; [done|]]; by apply Forall_filter. Qed.

Lemma sorted_filter (P : ChildEntry -> Prop) `{!forall x, Decision (P x)} es :
  StronglySorted by_name es -> StronglySorted by_name (filter P es).
Proof.
  induction 1 as [|e es Hs IH Hall]; [constructor|]. rewrite filter_cons.
  destruct (decide (P e)); [|done]. constructor; [done|by apply Forall_filter].
Qed.

Lemma sorted_put e es : StronglySorted by_name es -> StronglySorted by_name (put e es).
Proof.
  intros Hs. apply sorted_middle; [by apply sorted_filter..| |];
    apply Forall_forall; intros x [Hx _]%list_elem_of_filter; done.
Qed.

Lemma zlen_put e es : zlen (put e es) <= zlen es + 1.
Proof.
  unfold put, zlen. rewrite length_app. cbn [length].
  induction es as [|x es IH]; [simpl; lia|]. rewrite !filter_cons.
  pose proof (lex_lt_asym (ce_name x) (ce_name e)).
  destruct (decide (lex_lt (ce_name x) (ce_name e))), (decide (lex_lt (ce_name e) (ce_name x)));
    simpl in *; try tauto; lia.
Qed.

Lemma zlen_del name es : zlen (del name es) <= zlen es.
Proof. unfold del, zlen. pose proof (length_filter (fun x => ce_name x <> name) es). lia. Qed.

(** ** Nodes and their entries in the store *)

Section Nodes.
Context `{Blake3}.

Definition node_good (n : BTreeNode) : Prop :=
  node_wf 32 n /\ match n with
                  | Leaf leaf => zlen (ln_entries leaf) <= BTREE_MAX_LEAF_ENTRIES
                  | Internal internal => zlen (in_keys internal) <= BTREE_MAX_INTERNAL_KEYS
                  end.

Definition node_data (n : BTreeNode) : bytes :=
  match BTreeNode_serialize n 32 with Ok data => data | _ => [] end.
Definition node_key (n : BTreeNode) : bytes := blake3 (lit "btree:" ++ node_data n).
Definition node_entry (n : BTreeNode) : bytes * (Z * bytes) := (node_key n, (0, node_data n)).
Definition node_batch (n : BTreeNode) : BatchEntry :=
  {| be_entry_type := DirectoryIndex; be_key := node_key n; be_value := node_data n;
     be_kv_type := to_kv_type DirectoryIndex |}.

Lemma good_data n : node_good n -> BTreeNode_serialize n 32 = Ok (node_data n) /\ zlen (node_data n) <= NODE_MAX.
Proof.
  intros [Hwf Hsz]. destruct (node_serialize_ok 32 n Hwf ltac:(lia)) as (data & E & Hl).
  unfold node_data. rewrite E. split; [done|]. etrans; [exact Hl|]. unfold NODE_MAX.
  destruct n as [[es]|[ks cs]]; inversion Hwf; subst; cbn [ln_entries in_keys in_children] in *;
    unfold BTREE_MAX_LEAF_ENTRIES, BTREE_MAX_INTERNAL_KEYS in *; lia.
Qed.

Lemma good_hash n : node_good n -> content_hash n 32 Blake3_256 = Ok (node_key n).
Proof. intros Hg. unfold content_hash. by rewrite (proj1 (good_data n Hg)). Qed.

Lemma zlen_node_key n : zlen (node_key n) = 32.
Proof. unfold zlen, node_key. by rewrite blake3_length. Qed.

Lemma written_node_at view n : node_good n -> view !! node_key n = Some (0, node_data n) ->
  node_at view (node_key n) (node_norm n).
Proof.
  intros Hg Hv. split; [apply zlen_node_key|]. exists (node_data n). split; [done|].
  apply node_roundtrip; [apply Hg|by apply good_data].
Qed.

Definition has_nodes (view : gmap bytes (Z * bytes)) (ns : list BTreeNode) : Prop :=
  Forall (fun n => view !! node_key n = Some (0, node_data n)) ns.

(** Every node entry of the log is the only content logged under its hash: no two
    entries of the log collide. *)
Definition no_collision (log : list (bytes * (Z * bytes))) : Prop :=
  forall v x, (blake3 (lit "btree:" ++ v), (0, v)) ∈ log -> (blake3 (lit "btree:" ++ v), x) ∈ log -> x = (0, v).

Lemma apply_writes_app {A} (m : gmap bytes A) ws ws' :
  apply_writes m (ws ++ ws') = apply_writes (apply_writes m ws) ws'.
Proof. apply foldl_app. Qed.

Lemma apply_writes_lookup {A} (m : gmap bytes A) ws k x : apply_writes m ws !! k = Some x ->
  (k, x) ∈ ws \/ (m !! k = Some x /\ k ∉ ws.*1).
Proof.
  induction ws as [|[k' y] ws IH] using rev_ind; [right; split; [done|]; by apply not_elem_of_nil|].
  rewrite apply_writes_app, fmap_app. simpl. intros [[-> ->]|[Hne Hx]]%lookup_insert_Some.
  - left. set_solver.
  - destruct (IH Hx) as [?|[? ?]]; [left; set_solver|right; split; [done|set_solver]].
Qed.

Lemma apply_writes_is_Some {A} (m : gmap bytes A) ws k :
  is_Some (m !! k) \/ k ∈ ws.*1 -> is_Some (apply_writes m ws !! k).
Proof.
  induction ws as [|[k' y] ws IH] using rev_ind; [intros [?|Hk]; [done|by apply not_elem_of_nil in Hk]|].
  rewrite apply_writes_app, fmap_app. simpl. intros Hk. destruct (decide (k' = k)) as [->|Hne].
  - rewrite lookup_insert_eq. by eexists.
  - rewrite lookup_insert_ne by done. apply IH. set_solver.
Qed.
End Nodes.

Section Ops.
Context `{Blake3} {E : Type} `{!NodeStore E, !NodeStoreLaws E}.
Implicit Types s : E.

Abbreviation insert_node := (btree_insert_node 32 Blake3_256).
Abbreviation insert_node_batched := (btree_insert_node_batched 32 Blake3_256).

(** The nodes written between two states. *)
Definition wrote (s s' : E) (ns : list BTreeNode) : Prop :=
  ns_log s' = ns_log s ++ (node_entry <$> ns) /\
  ns_view s' = apply_writes (ns_view s) (node_entry <$> ns).

Lemma wrote_trans s s1 s2 ns ns' : wrote s s1 ns -> wrote s1 s2 ns' -> wrote s s2 (ns ++ ns').
Proof.
  intros [L1 V1] [L2 V2]. split; [by rewrite L2, L1, fmap_app, <- app_assoc|].
  by rewrite V2, V1, fmap_app, apply_writes_app.
Qed.

(** Without collisions nothing that was stored is lost, and everything written is there. *)
Lemma wrote_view m s s' ns : ns_room m s -> wrote s s' ns -> no_collision (ns_log s') ->
  ns_view s ⊆ ns_view s' /\ has_nodes (ns_view s') ns.
Proof.
  intros Hr [HL HV] Hnc.
  assert (Hw : forall n k x, n ∈ ns -> k = node_key n -> ns_view s' !! k = Some x -> x = (0, node_data n)).
  { intros n k x Hn -> Hx. apply (Hnc (node_data n) x); rewrite HL, elem_of_app.
    - right. by apply (list_elem_of_fmap_2 node_entry).
    - rewrite HV in Hx. apply apply_writes_lookup in Hx as [Hx|[Hx _]]; [by right|].
      left. by eapply ns_view_logged. }
  assert (Hall : forall n, n ∈ ns -> ns_view s' !! node_key n = Some (0, node_data n)).
  { intros n Hn. destruct (apply_writes_is_Some (ns_view s) (node_entry <$> ns) (node_key n)) as [x Hx].
    - right. rewrite <- list_fmap_compose. by apply (list_elem_of_fmap_2 (fst ∘ node_entry)).
    - rewrite <- HV in Hx. by rewrite Hx, (Hw n _ x Hn eq_refl Hx). }
  split; [|by apply Forall_forall]. apply map_subseteq_spec. intros k x Hx.
  destruct (apply_writes_is_Some (ns_view s) (node_entry <$> ns) k) as [y Hy]; [left; by eexists|].
  rewrite <- HV in Hy. rewrite Hy. pose proof Hy as Hy'. rewrite HV in Hy'.
  apply apply_writes_lookup in Hy' as [Hw'|[? _]]; [|congruence].
  apply list_elem_of_fmap in Hw' as (n & E' & Hn). injection E' as -> ->. f_equal.
  symmetry. apply (Hnc (node_data n) x); rewrite HL, elem_of_app.
  - right. by apply (list_elem_of_fmap_2 node_entry).
  - left. by eapply ns_view_logged.
Qed.

(** ** Running the operations *)

Lemma M_bind_ok {A B} (c : M E A) (f : A -> M E B) s a s' : c s = Some (Ok a, s') -> (c ≫= f) s = f a s'.
Proof. intros Hc. unfold mbind, M_bind. by rewrite Hc. Qed.

Lemma lift_ok {A} (r : res A) (a : A) s : r = Ok a -> lift r s = Some (Ok a, s).
Proof. by intros ->. Qed.

Lemma load_ok m s b h x missing : ns_room m s -> ns_view s !! h = Some x -> load b h missing s = Some (Ok x, s).
Proof.
  intros Hr Hx. unfold load, gets, mbind, M_bind, lift, id. destruct b.
  - by rewrite (ns_get_deleted_spec m s h x Hr Hx).
  - by rewrite (ns_get_spec m s h Hr), Hx.
Qed.

(** Following a hash to its node. *)
Lemma load_node m s b h node missing {A} (k : BTreeNode -> M E A) :
  ns_room m s -> node_at (ns_view s) h node ->
  (nd ← load b h missing; node ← lift (BTreeNode_deserialize nd.2 32 nd.1); k node) s = k node s.
Proof.
  intros Hr (_ & data & Hv & Hd). rewrite (M_bind_ok _ _ _ _ _ (load_ok m s b h _ missing Hr Hv)).
  by rewrite (M_bind_ok _ _ _ _ _ (lift_ok _ _ _ Hd)).
Qed.

Lemma lookup_runs m s b name n : forall fuel lo hi root es,
  ns_room m s -> (n <= fuel)%nat -> holds (ns_view s) n lo hi root es -> in_lo lo name -> in_hi hi name ->
  btree_lookup 32 fuel root name b s = Some (Ok (lookup_name name es), s).
Proof.
  induction n as [|n IH]; intros fuel lo hi root es Hr Hf (node & Hn & Ht) Hlo Hhi; [inversion Ht|].
  destruct fuel as [|fuel]; [lia|]. cbn [btree_lookup]. rewrite (load_node m) with (node := node) by done.
  inversion Ht as [? ? ? ? Hl|? ? ? ks cs ? Hsz Hk]; subst.
  - by rewrite leaf_find_lookup by apply Hl.
  - destruct (kids_find _ _ _ _ _ _ _ _ Hk Hlo Hhi)
      as (ks1 & ks2 & cs1 & c & cs2 & lo' & hi' & es1 & es0 & es2 & -> & Hfo & -> & Hix & Hlo' & Hhi' & Hb & Ha).
    cbn [in_children]. rewrite (M_bind_ok _ _ _ _ _ (lift_ok _ _ _ Hix)).
    destruct Hfo as [_ -> _ _ _ Hc _]. rewrite (lookup_local name _ _ _ Hb Ha).
    by apply (IH fuel lo' hi'); [|lia|..].
Qed.

Lemma list_runs m s b : ns_room m s ->
  (forall n lo hi node es, tree_at (ns_view s) n lo hi node es -> forall fuel root,
     node_at (ns_view s) root node -> (n <= fuel)%nat -> btree_list 32 fuel root b s = Some (Ok es, s)) /\
  (forall n lo hi ks cs es, kids (ns_view s) n lo hi ks cs es -> forall fuel, (n <= fuel)%nat ->
     list_children (fun c => btree_list 32 fuel c b) cs s = Some (Ok es, s)).
Proof.
  intros Hr. apply tree_kids_ind.
  - intros n lo hi es Hl [|fuel] root Hn Hf; [lia|]. cbn [btree_list].
    by rewrite (load_node m) with (node := Leaf {| ln_entries := es |}).
  - intros n lo hi ks cs es Hsz _ IH [|fuel] root Hn Hf; [lia|]. cbn [btree_list].
    rewrite (load_node m) with (node := Internal {| in_keys := ks; in_children := cs |}) by done.
    apply IH. lia.
  - intros n lo hi c node es _ Hn _ IH fuel Hf. cbn [list_children].
    rewrite (M_bind_ok _ _ _ _ _ (IH fuel c Hn Hf)). rewrite (M_bind_ok _ _ _ [] s) by done. by rewrite app_nil_r.
  - intros n lo hi k ks c cs node es1 es2 _ _ Hn _ IH1 _ IH2 fuel Hf. cbn [list_children].
    rewrite (M_bind_ok _ _ _ _ _ (IH1 fuel c Hn Hf)). by rewrite (M_bind_ok _ _ _ _ _ (IH2 fuel Hf)).
Qed.

(** ** Writing nodes *)

Lemma store_raw_runs k s nd :
  BTreeNode_serialize nd 32 = Ok (node_data nd) -> zlen (node_data nd) <= NODE_MAX -> ns_room (S k) s ->
  runs (store_btree_node 32 Blake3_256 nd) s (fun h s' => h = node_key nd /\ wrote s s' [nd] /\ ns_room k s').
Proof.
  intros Hs Hl Hr. unfold store_btree_node.
  apply runs_bind. apply runs_lift with (1 := Hs). apply runs_bind.
  apply runs_lift with (a := node_key nd); [unfold content_hash; by rewrite Hs|].
  apply runs_bind. eapply runs_mono; [apply (ns_store_spec k); [done|apply zlen_node_key|done]|].
  intros _ s' (Hr' & HL & HV). apply runs_ret. done.
Qed.

Lemma store_runs k s nd : node_good nd -> ns_room (S k) s ->
  runs (store_btree_node 32 Blake3_256 nd) s (fun h s' => h = node_key nd /\ wrote s s' [nd] /\ ns_room k s').
Proof. intros Hg. destruct (good_data nd Hg). by apply store_raw_runs. Qed.

Lemma done_batched s batch nd : node_good nd ->
  (data ← lift (BTreeNode_serialize nd 32); hash ← lift (content_hash nd 32 Blake3_256);
   mret (Done hash data, batch_node batch hash data)) s
  = Some (Ok (Done (node_key nd) (node_data nd), batch ++ (node_batch <$> [nd])), s).
Proof.
  intros Hg. rewrite (M_bind_ok _ _ _ _ _ (lift_ok _ _ _ (proj1 (good_data nd Hg)))).
  by rewrite (M_bind_ok _ _ _ _ _ (lift_ok _ _ _ (good_hash nd Hg))).
Qed.

Lemma split_batched s batch l key r : node_good l -> node_good r ->
  (left_hash ← lift (content_hash l 32 Blake3_256); right_hash ← lift (content_hash r 32 Blake3_256);
   left_data ← lift (BTreeNode_serialize l 32); right_data ← lift (BTreeNode_serialize r 32);
   mret (Split left_hash key right_hash,
         batch_node (batch_node batch left_hash left_data) right_hash right_data)) s
  = Some (Ok (Split (node_key l) key (node_key r), batch ++ (node_batch <$> [l; r])), s).
Proof.
  intros Hl Hr. rewrite (M_bind_ok _ _ _ _ _ (lift_ok _ _ _ (good_hash l Hl))).
  rewrite (M_bind_ok _ _ _ _ _ (lift_ok _ _ _ (good_hash r Hr))).
  rewrite (M_bind_ok _ _ _ _ _ (lift_ok _ _ _ (proj1 (good_data l Hl)))).
  rewrite (M_bind_ok _ _ _ _ _ (lift_ok _ _ _ (proj1 (good_data r Hr)))).
  unfold batch_node, WriteBatch_add. by rewrite <- app_assoc.
Qed.

Lemma done_runs k s nd : node_good nd -> ns_room (S k) s ->
  runs (data ← lift (BTreeNode_serialize nd 32); hash ← store_btree_node 32 Blake3_256 nd; mret (Done hash data)) s
    (fun r s' => r = Done (node_key nd) (node_data nd) /\ wrote s s' [nd] /\ ns_room k s').
Proof.
  intros Hg Hr. apply runs_bind. apply runs_lift with (1 := proj1 (good_data nd Hg)).
  apply runs_bind. eapply runs_mono; [by apply (store_runs k)|]. intros h s' (-> & Hw & Hr'). by apply runs_ret.
Qed.

Lemma split_runs k s l key r : node_good l -> node_good r -> ns_room (2 + k) s ->
  runs (left_hash ← store_btree_node 32 Blake3_256 l; right_hash ← store_btree_node 32 Blake3_256 r;
        mret (Split left_hash key right_hash)) s
    (fun res s' => res = Split (node_key l) key (node_key r) /\ wrote s s' [l; r] /\ ns_room k s').
Proof.
  intros Hl Hr Hroom. apply runs_bind. eapply runs_mono; [by apply (store_runs (S k))|].
  intros h s1 (-> & Hw1 & Hr1). apply runs_bind. eapply runs_mono; [by apply (store_runs k)|].
  intros h s2 (-> & Hw2 & Hr2). apply runs_ret. split_and!; [done| |done]. by apply (wrote_trans _ _ _ [l] [r]) with (1 := Hw1).
Qed.
End Ops.
