(* ===== verification/BTreeInsert.v ===== *)
(** Insertion into the directory B-tree: the nodes written, directly or through a
    batch, make a tree that stands for the list with the child put in. *)
From S2P Require Import Prelude Sorted Codec EntryFormat Records KvEntry StateM BTreeNode BTree BTreeSpec BTreeRefine.

Local Open Scope Z_scope.

(** ** Leaves *)

Definition raw_ok (e : ChildEntry) : Prop := ChildEntry_wf 32 e /\ entry_fits e.

Lemma child_raw_ok es : Forall child_ok es -> Forall raw_ok es.
Proof. intros Hall. eapply Forall_impl; [exact Hall|]. by intros e []. Qed.

Lemma sorted_norm es : StronglySorted by_name es -> StronglySorted by_name (ChildEntry_norm <$> es).
Proof.
  induction 1 as [|e es Hs IH Hall]; [constructor|]. rewrite fmap_cons. constructor; [done|].
  by apply Forall_fmap.
Qed.

Lemma leaf_good es : Forall raw_ok es -> zlen es <= BTREE_MAX_LEAF_ENTRIES -> node_good (Leaf {| ln_entries := es |}).
Proof.
  intros Hall Hl. split; [|done]. constructor; [..|unfold BTREE_MAX_LEAF_ENTRIES in Hl; lia];
    (eapply Forall_impl; [exact Hall|]); by intros e [].
Qed.

Lemma norm_leaf_ok lo hi es :
  StronglySorted by_name es -> Forall (named_in lo hi) es -> Forall raw_ok es -> zlen es <= BTREE_MAX_LEAF_ENTRIES ->
  leaf_ok lo hi (ChildEntry_norm <$> es).
Proof.
  intros Hs Hn Hr Hl. split; [by apply sorted_norm|by apply Forall_fmap| |unfold zlen; by rewrite length_fmap].
  apply Forall_fmap. eapply Forall_impl; [exact Hr|]. intros e []. by apply norm_child_ok.
Qed.

Lemma leaf_split_ok lo hi es :
  StronglySorted by_name es -> Forall (named_in lo hi) es -> Forall raw_ok es -> 40 <= zlen es <= 41 ->
  exists l k r, LeafNode_split {| ln_entries := es |} = Ok ({| ln_entries := l |}, k, {| ln_entries := r |}) /\
    es = l ++ r /\ key_ok k /\ bound_lt lo (Some k) /\ bound_lt (Some k) hi /\
    leaf_ok lo (Some k) (ChildEntry_norm <$> l) /\ leaf_ok (Some k) hi (ChildEntry_norm <$> r) /\
    node_good (Leaf {| ln_entries := l |}) /\ node_good (Leaf {| ln_entries := r |}).
Proof.
  intros Hs Hn Hr Hl. set (mid := Nat.div2 (length es)).
  assert (Hmid : (20 <= mid <= 20)%nat /\ (length es <= 41)%nat).
  { unfold mid. rewrite Nat.div2_div. unfold zlen in Hl. pose proof (Nat.div_le_mono 40 (length es) 2).
    pose proof (Nat.div_le_mono (length es) 41 2). change (40 / 2)%nat with 20%nat in *. change (41 / 2)%nat with 20%nat in *. lia. }
  set (l := take mid es). destruct (drop mid es) as [|x r] eqn:Er.
  { apply (f_equal length) in Er. rewrite length_drop in Er. simpl in Er. unfold zlen in Hl. lia. }
  assert (Es : es = l ++ x :: r) by (rewrite <- Er; unfold l; by rewrite take_drop).
  assert (Hll : length l = mid) by (unfold l; rewrite length_take; unfold zlen in Hl; lia).
  exists l, (ce_name x), (x :: r). unfold LeafNode_split. cbn [ln_entries]. fold mid l. rewrite Er.
  change (index (x :: r) 0) with (Ok x). rewrite bind_ret.
  split; [done|]. split; [done|]. rewrite Es in Hs, Hn, Hr.
  apply StronglySorted_app_iff in Hs as (Hs1 & Hs2 & Hs12).
  apply Forall_app in Hn as [Hn1 Hn2]. apply Forall_app in Hr as [Hr1 Hr2].
  pose proof (Forall_inv Hn2) as [Hxlo Hxhi]. pose proof (Forall_inv Hr2) as [Hxw [Hxf _]].
  assert (Hl1 : Forall (before (ce_name x)) l) by (apply Forall_forall; intros y Hy; apply Hs12; [done|left]).
  assert (Hl40 : zlen l <= 40 /\ zlen (x :: r) <= 40).
  { unfold zlen. rewrite <- Er, length_drop. lia. }
  clearbody l. clear Er. split_and!.
  - split; [apply Hxw|done].
  - destruct lo as [lo|]; [|done]. destruct l as [|y l']; [cbn [length] in Hll; clear -Hll Hmid; lia|].
    apply Forall_cons in Hl1 as [Hy _]. apply Forall_cons in Hn1 as [[Hylo _] _].
    exact (lex_le_lt_trans _ _ _ Hylo Hy).
  - by destruct hi.
  - apply norm_leaf_ok; [done| |done|apply Hl40]. rewrite Forall_forall in Hn1, Hl1 |- *.
    intros y Hy. split; [by apply Hn1|by apply Hl1].
  - apply norm_leaf_ok; [done| |done|apply Hl40]. apply Forall_cons in Hn2 as [_ Hn2].
    constructor; [split; [apply lex_lt_irrefl|done]|].
    apply StronglySorted_inv in Hs2 as [_ Hs2]. rewrite Forall_forall in Hn2, Hs2 |- *.
    intros y Hy. split; [by apply lex_lt_asym, Hs2|by apply Hn2].
  - apply leaf_good; [done|apply Hl40].
  - apply leaf_good; [done|apply Hl40].
Qed.

(** ** Internal nodes *)

Lemma internal_good ks cs : Forall key_ok ks -> Forall (fun c => zlen c = 32) cs -> length cs = S (length ks) ->
  zlen ks <= BTREE_MAX_INTERNAL_KEYS -> node_good (Internal {| in_keys := ks; in_children := cs |}).
Proof.
  intros Hk Hc Hl Hs. split; [|done]. unfold BTREE_MAX_INTERNAL_KEYS in Hs. constructor; unfold zlen in *; [done|done|lia|lia].
Qed.

Lemma node_at_mono view view' h nd : view ⊆ view' -> node_at view h nd -> node_at view' h nd.
Proof.
  intros Hsub (Hz & data & Hd & Hdec). split; [done|]. exists data. split; [by eapply lookup_weaken|done].
Qed.

Lemma left_kids_mono view view' n lo ks cs lo' es : view ⊆ view' ->
  left_kids view n lo ks cs lo' es -> left_kids view' n lo ks cs lo' es.
Proof.
  intros Hsub. induction 1; econstructor; eauto using node_at_mono. by apply (tree_mono _ _ Hsub).
Qed.

Lemma right_kids_mono view view' n hi' hi ks cs es : view ⊆ view' ->
  right_kids view n hi' hi ks cs es -> right_kids view' n hi' hi ks cs es.
Proof. intros Hsub [|]; constructor; [done|]. by apply (tree_mono _ _ Hsub). Qed.

Section Keys.
Context (view : gmap bytes (Z * bytes)).

Lemma left_kids_keys n lo ks cs lo' es k : left_kids view n lo ks cs lo' es -> bound_lt lo' (Some k) ->
  bound_lt lo (Some k) /\ Forall (fun x => lex_lt x k) ks.
Proof.
  induction 1 as [lo|lo k0 ks c cs lo' node es0 es' Hb Hk Hn Ht HL IH]; intros Hlt; [done|].
  destruct (IH Hlt) as [Hk0 Hall]. split; [by eapply bound_lt_trans|by constructor].
Qed.

Lemma right_kids_keys n hi' hi ks cs es k : right_kids view n hi' hi ks cs es -> bound_lt (Some k) hi' ->
  bound_lt (Some k) hi /\ Forall (fun x => lex_lt k x) ks.
Proof.
  intros HR Hlt. inversion HR as [?|k0 ? ks' cs' es' Hk Hks]; subst; [done|].
  destruct (kids_keys _ _ _ _ _ _ _ Hks) as (_ & Hall & _).
  pose proof (proj1 (proj2 (tree_entries view) _ _ _ _ _ _ Hks)) as Hb.
  split; [by eapply bound_lt_trans|]. constructor; [done|]. eapply Forall_impl; [exact Hall|].
  intros x (Hx & _). simpl in *. by eapply lex_lt_trans.
Qed.

(** A node's children around one of its keys. *)
Lemma kids_split_key n lo hi ks1 k ks2 cs1 cs2 es :
  kids view n lo hi (ks1 ++ k :: ks2) (cs1 ++ cs2) es -> length cs1 = S (length ks1) ->
  exists es1 es2, es = es1 ++ es2 /\ kids view n lo (Some k) ks1 cs1 es1 /\ kids view n (Some k) hi ks2 cs2 es2.
Proof.
  intros Hk Hl. destruct (kids_focus view _ _ _ _ _ _ _ Hk) as (ds1 & c & ds2 & lo' & hi' & es1 & es0 & es2 & [Hcs -> Hd HL Hb Hc HR]).
  inversion HR as [|? ? ? ? ? Hkk Hks]; subst.
  assert (E : cs1 = ds1 ++ [c] /\ cs2 = ds2).
  { change (c :: ds2) with ([c] ++ ds2) in Hcs. rewrite app_assoc in Hcs. apply app_inj_1 in Hcs; [done|].
    rewrite length_app. simpl. lia. }
  destruct E as [-> ->]. exists (es1 ++ es0), es2. rewrite <- app_assoc. split_and!; [done| |done].
  rewrite <- (app_nil_r ks1). eapply left_kids_app; [exact HL|].
  destruct Hc as (node & Hn & Ht). by econstructor.
Qed.

(** The node after the child in focus became two. *)
Lemma focus_plug_two view' n lo hi ks1 ks2 cs es cs1 c cs2 lo' hi' es1 es0 es2 k l r el er :
  view ⊆ view' -> focus view n lo hi ks1 ks2 cs es cs1 c cs2 lo' hi' es1 es0 es2 ->
  key_ok k -> bound_lt lo' (Some k) -> bound_lt (Some k) hi' ->
  holds view' n lo' (Some k) l el -> holds view' n (Some k) hi' r er ->
  kids view' n lo hi (ks1 ++ k :: ks2) (cs1 ++ l :: r :: cs2) (es1 ++ (el ++ er) ++ es2).
Proof.
  intros Hsub [_ _ _ HL _ _ HR] Hk Hlo Hhi (nl & Hnl & Hl) Hr.
  eapply left_kids_app; [by eapply left_kids_mono|]. rewrite <- app_assoc. econstructor; try done.
  eapply right_kids_cons; [exact Hhi|exact Hr|by eapply right_kids_mono].
Qed.

(** The node after the child in focus was replaced by one. *)
Lemma focus_plug view' n lo hi ks1 ks2 cs es cs1 c cs2 lo' hi' es1 es0 es2 c' es' :
  view ⊆ view' -> focus view n lo hi ks1 ks2 cs es cs1 c cs2 lo' hi' es1 es0 es2 ->
  holds view' n lo' hi' c' es' -> kids view' n lo hi (ks1 ++ ks2) (cs1 ++ c' :: cs2) (es1 ++ es' ++ es2).
Proof.
  intros Hsub [_ _ _ HL Hb _ HR] Hc.
  eapply left_kids_app; [by eapply left_kids_mono|]. eapply right_kids_cons; [exact Hb|exact Hc|by eapply right_kids_mono].
Qed.
End Keys.

Lemma insert_key_ok ks1 ks2 cs1 cs2 k l r :
  Forall (fun x => lex_lt x k) ks1 -> Forall (fun x => lex_lt k x) ks2 -> length cs1 = length ks1 ->
  insert_key {| in_keys := ks1 ++ ks2; in_children := cs1 ++ l :: cs2 |} k r
  = Ok {| in_keys := ks1 ++ k :: ks2; in_children := cs1 ++ l :: r :: cs2 |}.
Proof.
  intros H1 H2 Hl. unfold insert_key. cbn [in_keys in_children].
  rewrite (binary_search_between id ks1 ks2 k H1 H2). cbv zeta iota.
  rewrite (proj2 (Nat.ltb_ge _ _)) by (rewrite length_app; simpl; lia). rewrite insert_at_app.
  change (cs1 ++ l :: cs2) with (cs1 ++ [l] ++ cs2). rewrite app_assoc.
  replace (S (length ks1)) with (length (cs1 ++ [l])) by (rewrite length_app; simpl; lia).
  rewrite insert_at_app, <- app_assoc. done.
Qed.

Lemma internal_split_ok K C :
  77 <= zlen K <= 78 -> length C = S (length K) -> Forall key_ok K -> Forall (fun c => zlen c = 32) C ->
  exists K1 km K2 C1 C2,
    InternalNode_split {| in_keys := K; in_children := C |}
      = Ok ({| in_keys := K1; in_children := C1 |}, km, {| in_keys := K2; in_children := C2 |}) /\
    K = K1 ++ km :: K2 /\ C = C1 ++ C2 /\ length C1 = S (length K1) /\
    node_good (Internal {| in_keys := K1; in_children := C1 |}) /\
    node_good (Internal {| in_keys := K2; in_children := C2 |}).
Proof.
  intros HK HC Hk Hc. set (mid := Nat.div2 (length K)).
  assert (Hmid : (38 <= mid <= 39)%nat).
  { unfold mid. rewrite Nat.div2_div. unfold zlen in HK. pose proof (Nat.div_le_mono 77 (length K) 2).
    pose proof (Nat.div_le_mono (length K) 78 2). change (77 / 2)%nat with 38%nat in *. change (78 / 2)%nat with 39%nat in *. lia. }
  destruct (lookup_lt_is_Some_2 K mid) as [km Hkm]; [unfold zlen in HK; lia|].
  assert (EK : K = take mid K ++ km :: drop (S mid) K) by (symmetry; by apply take_drop_middle).
  exists (take mid K), km, (drop (S mid) K), (take (S mid) C), (drop (S mid) C).
  assert (Hl1 : length (take mid K) = mid) by (rewrite length_take; unfold zlen in HK; lia).
  unfold zlen in HK. split_and!.
  - unfold InternalNode_split. cbn [in_keys in_children]. fold mid. unfold index.
    rewrite (proj2 (Z.leb_le _ _)), (proj2 (Z.ltb_lt _ _)) by (unfold zlen; lia). rewrite Nat2Z.id, Hkm. cbn [andb].
    rewrite bind_ret, (proj2 (Nat.ltb_ge _ _)) by lia. done.
  - done.
  - by rewrite take_drop.
  - rewrite Hl1, length_take. lia.
  - apply internal_good; [by apply Forall_take|by apply Forall_take|rewrite Hl1, length_take; lia|].
    unfold zlen. rewrite Hl1. unfold BTREE_MAX_INTERNAL_KEYS. lia.
  - apply internal_good; [by apply Forall_drop|by apply Forall_drop|rewrite !length_drop; lia|].
    unfold zlen. rewrite length_drop. unfold BTREE_MAX_INTERNAL_KEYS. lia.
Qed.

(** ** Insertion *)

Section Insert.
Context `{Blake3} {E : Type} `{!NodeStore E, !NodeStoreLaws E}.
Context (s : E) (e : ChildEntry) (He : raw_ok e).

Abbreviation insert_node := (btree_insert_node 32 Blake3_256).
Abbreviation insert_node_batched := (btree_insert_node_batched 32 Blake3_256).

(** The hashes and the key of a result, known before anything is written. *)
Definition shape_ok (lo hi : option bytes) (r : InsertResult) : Prop :=
  match r with
  | Done h _ => zlen h = 32
  | Split l k r => zlen l = 32 /\ zlen r = 32 /\ key_ok k /\ bound_lt lo (Some k) /\ bound_lt (Some k) hi
  end.

(** What a result stands for once its nodes are stored. *)
Definition result_ok (view : gmap bytes (Z * bytes)) (n : nat) (lo hi : option bytes) (r : InsertResult)
    (es : list ChildEntry) : Prop :=
  match r with
  | Done h data => view !! h = Some (0, data) /\ holds view n lo hi h es
  | Split l k r => exists el er, es = el ++ er /\ holds view n lo (Some k) l el /\ holds view n (Some k) hi r er
  end.

(** Both insertions of [e] into [node] produce [r] and write [ns]. *)
Record inserted (n fuel : nat) (lo hi : option bytes) (node : BTreeNode) (es : list ChildEntry) (batch : WriteBatch)
    (r : InsertResult) (ns : list BTreeNode) : Prop := {
  ins_good : Forall node_good ns;
  ins_count : (length ns <= 2 * n)%nat;
  ins_shape : shape_ok lo hi r;
  ins_batched : insert_node_batched fuel node e batch s = Some (Ok (r, batch ++ (node_batch <$> ns)), s);
  ins_runs k : ns_room (length ns + k) s ->
    runs (insert_node fuel node e) s (fun r' s' => r' = r /\ wrote s s' ns /\ ns_room k s');
  ins_result view : ns_view s ⊆ view -> has_nodes view ns -> result_ok view n lo hi r (put (ChildEntry_norm e) es);
}.

Lemma written_holds view n lo hi nd es : node_good nd -> has_nodes view [nd] ->
  tree_at view n lo hi (node_norm nd) es -> holds view n lo hi (node_key nd) es.
Proof.
  intros Hg Hv Ht. apply Forall_inv in Hv. exists (node_norm nd). split; [by apply written_node_at|done].
Qed.

Lemma insert_leaf n fuel lo hi es batch :
  leaf_ok lo hi es -> in_lo lo (ce_name e) -> in_hi hi (ce_name e) ->
  exists r ns, inserted (S n) (S fuel) lo hi (Leaf {| ln_entries := es |}) es batch r ns.
Proof.
  intros [Hs Hn Hc Hsz] Hlo Hhi.
  assert (Hs' : StronglySorted by_name (put e es)) by by apply sorted_put.
  assert (Hn' : Forall (named_in lo hi) (put e es)) by by apply Forall_put.
  assert (Hr' : Forall raw_ok (put e es)) by (apply Forall_put; [done|by apply child_raw_ok]).
  pose proof (zlen_put e es) as Hz.
  destruct (LeafNode_upsert {| ln_entries := es |} e) as [b [es']] eqn:Eu.
  pose proof (leaf_upsert_put {| ln_entries := es |} e Hs) as Ep. rewrite Eu in Ep. simpl in Ep. subst es'.
  destruct (LeafNode_is_full {| ln_entries := put e es |}) eqn:Ef.
  - destruct (leaf_split_ok lo hi (put e es) Hs' Hn' Hr') as (l & k & r & Esp & Eapp & Hk & Hb1 & Hb2 & Hl & Hr & Hgl & Hgr).
    { apply Z.leb_le in Ef. unfold BTREE_MAX_LEAF_ENTRIES in *. simpl in Ef. lia. }
    exists (Split (node_key (Leaf {| ln_entries := l |})) k (node_key (Leaf {| ln_entries := r |}))),
      [Leaf {| ln_entries := l |}; Leaf {| ln_entries := r |}]. split.
    + constructor; [exact Hgl|by constructor].
    + simpl. lia.
    + split_and!; [apply zlen_node_key..|done|done|done].
    + cbn [btree_insert_node_batched]. rewrite Eu, Ef. rewrite (M_bind_ok _ _ _ _ _ (lift_ok _ _ _ Esp)).
      cbv beta iota. exact (split_batched _ _ _ _ _ Hgl Hgr).
    + intros m Hm. cbn [btree_insert_node]. rewrite Eu, Ef. apply runs_bind. apply runs_lift with (1 := Esp).
      cbv beta iota. by apply split_runs.
    + intros view Hsub Hv. apply Forall_cons in Hv as [Hv1 Hv2].
      exists (ChildEntry_norm <$> l), (ChildEntry_norm <$> r).
      split; [by rewrite <- norm_put, Eapp, fmap_app|].
      apply Forall_inv in Hv2.
      split; (eapply written_holds; [done|by constructor|by constructor]).
  - assert (Hg : node_good (Leaf {| ln_entries := put e es |})).
    { apply leaf_good; [done|]. apply Z.leb_gt in Ef. simpl in Ef. lia. }
    exists (Done (node_key (Leaf {| ln_entries := put e es |})) (node_data (Leaf {| ln_entries := put e es |}))),
      [Leaf {| ln_entries := put e es |}]. split.
    + by constructor.
    + simpl. lia.
    + apply zlen_node_key.
    + cbn [btree_insert_node_batched]. rewrite Eu, Ef. by apply done_batched.
    + intros m Hm. cbn [btree_insert_node]. rewrite Eu, Ef. by apply done_runs.
    + intros view Hsub Hv. split; [by apply Forall_inv in Hv|]. eapply written_holds; [done|done|].
      simpl. rewrite norm_put by done. constructor. rewrite <- norm_put by done.
      apply norm_leaf_ok; [done..|]. apply Z.leb_gt in Ef. simpl in Ef. lia.
Qed.

(** One internal node: its child in focus, and what inserting into that child gave. *)
Section Internal.
Context (m n fuel : nat) (lo hi : option bytes) (ks1 ks2 cs : list bytes) (es : list ChildEntry).
Context (cs1 : list bytes) (c : bytes) (cs2 : list bytes) (lo' hi' : option bytes) (es1 es0 es2 : list ChildEntry).
Context (node : BTreeNode) (batch : WriteBatch) (r : InsertResult) (ns : list BTreeNode).
Context (Hroom : ns_room m s) (Hsz : zlen (ks1 ++ ks2) <= BTREE_MAX_INTERNAL_KEYS).
Context (Hkids : kids (ns_view s) n lo hi (ks1 ++ ks2) cs es).
Context (Hfo : focus (ns_view s) n lo hi ks1 ks2 cs es cs1 c cs2 lo' hi' es1 es0 es2).
Context (Hidx : find_child_index {| in_keys := ks1 ++ ks2; in_children := cs |} (ce_name e) = length cs1).
Context (Hget : index cs (Z.of_nat (length cs1)) = Ok c).
Context (Hbefore : Forall (before (ce_name e)) es1) (Hafter : Forall (after (ce_name e)) es2).
Context (Hnode : node_at (ns_view s) c node).
Context (Hins : inserted n fuel lo' hi' node es0 batch r ns).

Abbreviation parent := (Internal {| in_keys := ks1 ++ ks2; in_children := cs |}).

Lemma put_focus : put (ChildEntry_norm e) es = es1 ++ put (ChildEntry_norm e) es0 ++ es2.
Proof. destruct Hfo as [_ -> _ _ _ _ _]. by apply (put_local (ce_name e)). Qed.

Lemma keys_facts : Forall key_ok (ks1 ++ ks2) /\ Forall (fun k => bound_lt lo (Some k) /\ bound_lt (Some k) hi) (ks1 ++ ks2)
  /\ length cs1 = length ks1 /\ length cs2 = length ks2
  /\ Forall (fun x => zlen x = 32) cs1 /\ Forall (fun x => zlen x = 32) cs2.
Proof.
  destruct (kids_keys _ _ _ _ _ _ _ Hkids) as (_ & Hk & Hl & Hc). destruct Hfo as [Ecs _ Hl1 _ _ _ _].
  rewrite Ecs in Hc, Hl. apply Forall_app in Hc as [Hc1 Hc2]. apply Forall_cons in Hc2 as [_ Hc2].
  rewrite !length_app in Hl. cbn [length] in Hl. split_and!; try done; [..|lia].
  - eapply Forall_impl; [exact Hk|]. by intros k (_ & _ & ?).
  - eapply Forall_impl; [exact Hk|]. by intros k (? & ? & _).
Qed.

(** The steps up to the child's insertion, in both versions. *)
Lemma batched_focus {A} (k : InsertResult -> WriteBatch -> M E A) :
  (child_hash ← lift (index cs (Z.of_nat (length cs1)));
   child_data ← load false child_hash "B-tree child not found: {}";
   child_node ← lift (BTreeNode_deserialize child_data.2 32 child_data.1);
   '(child_result, batch) ← insert_node_batched fuel child_node e batch; k child_result batch) s
  = k r (batch ++ (node_batch <$> ns)) s.
Proof.
  rewrite (M_bind_ok _ _ _ _ _ (lift_ok _ _ _ Hget)). rewrite (load_node m) with (node := node) by done.
  by rewrite (M_bind_ok _ _ _ _ _ (ins_batched _ _ _ _ _ _ _ _ _ Hins)).
Qed.

Lemma runs_focus {A} (k : InsertResult -> M E A) j Q : ns_room (length ns + j) s ->
  (forall s', wrote s s' ns -> ns_room j s' -> runs (k r) s' Q) ->
  runs (child_hash ← lift (index cs (Z.of_nat (length cs1)));
   child_data ← load false child_hash "B-tree child not found: {}";
   child_node ← lift (BTreeNode_deserialize child_data.2 32 child_data.1);
   child_result ← insert_node fuel child_node e; k child_result) s Q.
Proof.
  intros Hj Hk. apply runs_bind. apply runs_lift with (1 := Hget). unfold runs.
  rewrite (load_node m) with (node := node) by done. apply runs_bind.
  eapply runs_mono; [by apply (ins_runs _ _ _ _ _ _ _ _ _ Hins j)|]. intros r' s' (-> & Hw & Hr'). by apply Hk.
Qed.

Lemma insert_internal_done h d : r = Done h d ->
  exists r' ns', inserted (S n) (S fuel) lo hi parent es batch r' ns'.
Proof.
  intros Er. destruct keys_facts as (Hk & _ & Hl1 & Hl2 & Hc1 & Hc2).
  pose proof (ins_shape _ _ _ _ _ _ _ _ _ Hins) as Hh. rewrite Er in Hh. simpl in Hh. pose proof (fo_cs _ _ _ _ _ _ _ _ _ _ _ _ _ _ _ _ Hfo) as Ecs.
  set (nd := Internal {| in_keys := ks1 ++ ks2; in_children := cs1 ++ h :: cs2 |}).
  assert (Hg : node_good nd).
  { apply internal_good; [done| |rewrite !length_app; simpl; lia|done]. apply Forall_app. split; [done|by constructor]. }
  exists (Done (node_key nd) (node_data nd)), (ns ++ [nd]). split.
  - apply Forall_app. split; [apply Hins|by constructor].
  - rewrite length_app. pose proof (ins_count _ _ _ _ _ _ _ _ _ Hins). simpl. lia.
  - apply zlen_node_key.
  - cbn [btree_insert_node_batched]. rewrite Hidx. cbn [in_keys in_children]. rewrite batched_focus, Er.
    rewrite Ecs, insert_middle. fold nd. rewrite done_batched by done. by rewrite fmap_app, app_assoc.
  - intros k Hk'. cbn [btree_insert_node]. rewrite Hidx. cbn [in_keys in_children].
    rewrite length_app, <- Nat.add_assoc in Hk'. apply (runs_focus _ (1 + k) _ Hk'). intros s' Hw Hr'.
    rewrite Er, Ecs, insert_middle. fold nd. eapply runs_mono; [by apply done_runs|].
    intros ? s2 (-> & Hw2 & Hr2). split_and!; [done|by eapply wrote_trans|done].
  - intros view Hsub [Hv1 Hv2]%Forall_app. pose proof (ins_result _ _ _ _ _ _ _ _ _ Hins view Hsub Hv1) as Hc.
    rewrite Er in Hc. destruct Hc as [_ Hc].
    split; [by apply Forall_inv in Hv2|]. apply written_holds; [done|done|]. constructor; [done|].
    rewrite put_focus. by eapply focus_plug.
Qed.

(** The parent once the split child's key and second hash are in. *)
Record split_parent (k : bytes) (K C : list bytes) : Prop := {
  sp_keys : Forall (fun x => key_ok x /\ bound_lt lo (Some x) /\ bound_lt (Some x) hi) K;
  sp_hashes : Forall (fun x => zlen x = 32) C;
  sp_length : length C = S (length K);
  sp_size : zlen K = zlen (ks1 ++ ks2) + 1;
  sp_kids view : ns_view s ⊆ view -> has_nodes view ns -> kids view n lo hi K C (put (ChildEntry_norm e) es);
}.

Lemma split_parent_ok lh k rh : r = Split lh k rh -> exists K C,
  insert_key {| in_keys := ks1 ++ ks2; in_children := <[length cs1 := lh]> cs |} k rh
  = Ok {| in_keys := K; in_children := C |} /\ split_parent k K C.
Proof.
  intros Er. destruct keys_facts as (Hk & Hkb & Hl1 & Hl2 & Hc1 & Hc2).
  pose proof (ins_shape _ _ _ _ _ _ _ _ _ Hins) as Hsh. rewrite Er in Hsh. destruct Hsh as (Hlh & Hrh & Hkk & Hlo & Hhi).
  rewrite (fo_cs _ _ _ _ _ _ _ _ _ _ _ _ _ _ _ _ Hfo), insert_middle.
  destruct (left_kids_keys _ _ _ _ _ _ _ k (fo_left _ _ _ _ _ _ _ _ _ _ _ _ _ _ _ _ Hfo) Hlo) as [Hlo0 Hbk].
  destruct (right_kids_keys _ _ _ _ _ _ _ k (fo_right _ _ _ _ _ _ _ _ _ _ _ _ _ _ _ _ Hfo) Hhi) as [Hhi0 Hak].
  exists (ks1 ++ k :: ks2), (cs1 ++ lh :: rh :: cs2). split; [by apply insert_key_ok|]. split.
  - apply Forall_app in Hk as [? ?], Hkb as [? ?]. apply Forall_app. split; [by apply Forall_and|].
    constructor; [done|by apply Forall_and].
  - apply Forall_app. split; [done|by repeat constructor].
  - rewrite !length_app. simpl. lia.
  - zlen_lia.
  - intros view Hsub Hv. pose proof (ins_result _ _ _ _ _ _ _ _ _ Hins view Hsub Hv) as Hc. rewrite Er in Hc.
    destruct Hc as (el & er & Eput & Hel & Her). rewrite put_focus, Eput. by eapply focus_plug_two.
Qed.

Lemma split_parent_keys k K C : split_parent k K C -> Forall key_ok K.
Proof. intros [HK _ _ _ _]. eapply Forall_impl; [exact HK|]. by intros x []. Qed.

(** The parent splits in turn. *)
Lemma insert_split_full lh k rh K C : r = Split lh k rh -> split_parent k K C ->
  insert_key {| in_keys := ks1 ++ ks2; in_children := <[length cs1 := lh]> cs |} k rh
  = Ok {| in_keys := K; in_children := C |} ->
  InternalNode_is_full {| in_keys := K; in_children := C |} = true ->
  exists r' ns', inserted (S n) (S fuel) lo hi parent es batch r' ns'.
Proof.
  intros Er Hsp Hik Ef. pose proof (split_parent_keys _ _ _ Hsp) as Hkeys. destruct Hsp as [HK HC Hlen HzK Hres].
  apply Z.leb_le in Ef as Hfull. cbn [in_keys] in Hfull. unfold BTREE_MAX_INTERNAL_KEYS in *.
  destruct (internal_split_ok K C ltac:(lia) Hlen Hkeys HC) as (K1 & km & K2 & C1 & C2 & Esp & EK & EC & HlC & Hg1 & Hg2).
  set (nl := Internal {| in_keys := K1; in_children := C1 |}) in *.
  set (nr := Internal {| in_keys := K2; in_children := C2 |}) in *.
  assert (Hkm : km ∈ K) by (rewrite EK; set_solver). rewrite Forall_forall in HK. destruct (HK km Hkm) as (? & ? & ?).
  exists (Split (node_key nl) km (node_key nr)), (ns ++ [nl; nr]). split.
  - apply Forall_app. split; [apply Hins|]. constructor; [done|by constructor].
  - rewrite length_app. pose proof (ins_count _ _ _ _ _ _ _ _ _ Hins). simpl. lia.
  - split_and!; [apply zlen_node_key..|done|done|done].
  - cbn [btree_insert_node_batched]. rewrite Hidx. cbn [in_keys in_children]. rewrite batched_focus, Er.
    rewrite (M_bind_ok _ _ _ _ _ (lift_ok _ _ _ Hik)), Ef.
    rewrite (M_bind_ok _ _ _ _ _ (lift_ok _ _ _ Esp)). cbv beta iota. fold nl nr.
    rewrite split_batched by done. by rewrite fmap_app, app_assoc.
  - intros j Hj. cbn [btree_insert_node]. rewrite Hidx. cbn [in_keys in_children].
    rewrite length_app, <- Nat.add_assoc in Hj. apply (runs_focus _ (2 + j) _ Hj). intros s' Hw Hr'.
    rewrite Er. apply runs_bind. apply runs_lift with (1 := Hik). rewrite Ef.
    apply runs_bind. apply runs_lift with (1 := Esp). cbv beta iota. fold nl nr.
    eapply runs_mono; [by apply split_runs|].
    intros ? s2 (-> & Hw2 & Hr2). split_and!; [done|by eapply wrote_trans|done].
  - intros view Hsub [Hv1 Hv2]%Forall_app. specialize (Hres view Hsub Hv1). rewrite EK, EC in Hres.
    destruct (kids_split_key _ _ _ _ _ _ _ _ _ _ Hres HlC) as (el & er & -> & Hel & Her).
    apply Forall_cons in Hv2 as [Hv2 Hv3]. apply Forall_inv in Hv3.
    exists el, er. split; [done|]. destruct Hg1 as [? Hz1], Hg2 as [? Hz2].
    split; (apply written_holds; [done|by constructor|by constructor]).
Qed.

(** The parent has room. *)
Lemma insert_split_room lh k rh K C : r = Split lh k rh -> split_parent k K C ->
  insert_key {| in_keys := ks1 ++ ks2; in_children := <[length cs1 := lh]> cs |} k rh
  = Ok {| in_keys := K; in_children := C |} ->
  InternalNode_is_full {| in_keys := K; in_children := C |} = false ->
  exists r' ns', inserted (S n) (S fuel) lo hi parent es batch r' ns'.
Proof.
  intros Er Hsp Hik Ef. pose proof (split_parent_keys _ _ _ Hsp) as Hkeys. destruct Hsp as [HK HC Hlen HzK Hres].
  set (nd := Internal {| in_keys := K; in_children := C |}) in *. apply Z.leb_gt in Ef as Hfull. cbn [in_keys] in Hfull.
  assert (Hg : node_good nd) by (apply internal_good; [done..|lia]).
  exists (Done (node_key nd) (node_data nd)), (ns ++ [nd]). split.
  - apply Forall_app. split; [apply Hins|by constructor].
  - rewrite length_app. pose proof (ins_count _ _ _ _ _ _ _ _ _ Hins). simpl. lia.
  - apply zlen_node_key.
  - cbn [btree_insert_node_batched]. rewrite Hidx. cbn [in_keys in_children]. rewrite batched_focus, Er.
    rewrite (M_bind_ok _ _ _ _ _ (lift_ok _ _ _ Hik)), Ef. fold nd.
    rewrite done_batched by done. by rewrite fmap_app, app_assoc.
  - intros j Hj. cbn [btree_insert_node]. rewrite Hidx. cbn [in_keys in_children].
    rewrite length_app, <- Nat.add_assoc in Hj. apply (runs_focus _ (1 + j) _ Hj). intros s' Hw Hr'.
    rewrite Er. apply runs_bind. apply runs_lift with (1 := Hik). rewrite Ef. fold nd.
    eapply runs_mono; [by apply done_runs|].
    intros ? s2 (-> & Hw2 & Hr2). split_and!; [done|by eapply wrote_trans|done].
  - intros view Hsub [Hv1 Hv2]%Forall_app. specialize (Hres view Hsub Hv1).
    split; [by apply Forall_inv in Hv2|]. apply written_holds; [done|done|]. constructor; [lia|done].
Qed.

Lemma insert_internal_split lh k rh : r = Split lh k rh ->
  exists r' ns', inserted (S n) (S fuel) lo hi parent es batch r' ns'.
Proof.
  intros Er. destruct (split_parent_ok lh k rh Er) as (K & C & Hik & Hsp).
  destruct (InternalNode_is_full {| in_keys := K; in_children := C |}) eqn:Ef.
  - by eapply insert_split_full.
  - by eapply insert_split_room.
Qed.
End Internal.

Lemma insert_node_ok m n : forall fuel lo hi node es batch,
  ns_room m s -> (n <= fuel)%nat -> tree_at (ns_view s) n lo hi node es ->
  in_lo lo (ce_name e) -> in_hi hi (ce_name e) ->
  exists r ns, inserted n fuel lo hi node es batch r ns.
Proof.
  induction n as [|n IH]; intros fuel lo hi node es batch Hr Hf Ht Hlo Hhi; [inversion Ht|].
  destruct fuel as [|fuel]; [lia|]. inversion Ht as [? ? ? ? Hl|? ? ? ks cs ? Hsz Hk]; subst; [by apply insert_leaf|].
  destruct (kids_find _ _ _ _ _ _ _ _ Hk Hlo Hhi)
    as (ks1 & ks2 & cs1 & c & cs2 & lo' & hi' & es1 & es0 & es2 & -> & Hfo & Hi & Hix & Hlo' & Hhi' & Hb & Ha).
  destruct (fo_child _ _ _ _ _ _ _ _ _ _ _ _ _ _ _ _ Hfo) as (node & Hn & Htn).
  destruct (IH fuel lo' hi' node es0 batch Hr ltac:(lia) Htn Hlo' Hhi') as (r & ns & Hins).
  destruct r as [h d|lh k rh].
  - by eapply insert_internal_done.
  - by eapply insert_internal_split.
Qed.
End Insert.
