(* ===== verification/BTreeOps.v ===== *)
(** The directory B-tree as its callers see it: reading, insertion, batched
    insertion and deletion on a root hash. *)
From S2P Require Import Prelude Sorted Codec EntryFormat Records KvEntry StateM BTreeNode BTree BTreeSpec BTreeRefine BTreeInsert.

Local Open Scope Z_scope.

Section Top.
Context `{Blake3} {E : Type} `{!NodeStore E, !NodeStoreLaws E}.
Implicit Types s : E.

Abbreviation insert_with_data := (btree_insert_with_data 32 Blake3_256).
Abbreviation insert_batched := (btree_insert_batched 32 Blake3_256).
Abbreviation delete := (btree_delete 32 Blake3_256).

Lemma node_batch_ok ns : Forall node_good ns ->
  Forall (fun be => be_entry_type be = DirectoryIndex /\ be_kv_type be = to_kv_type DirectoryIndex /\
            zlen (be_key be) = 32 /\ zlen (be_value be) <= NODE_MAX) (node_batch <$> ns).
Proof.
  intros Hg. apply Forall_fmap. eapply Forall_impl; [exact Hg|]. intros n Hn.
  split_and!; [done..|apply zlen_node_key|by apply good_data].
Qed.

Lemma flush_runs k s ns : Forall node_good ns -> ns_room (length ns + k) s ->
  runs (ns_flush_batch (node_batch <$> ns)) s (fun _ s' => wrote s s' ns /\ ns_room k s').
Proof.
  intros Hg Hr. eapply runs_mono.
  - apply (ns_flush_spec k); [by rewrite length_fmap|by apply node_batch_ok].
  - intros _ s' (Hr' & HL & HV). rewrite <- !list_fmap_compose in HL, HV. done.
Qed.

(** Both insertions return one root and its bytes, and write the same nodes. *)
Lemma insert_top s n fuel root_data node es e :
  ns_room (2 * n + 1) s -> (n <= fuel)%nat -> raw_ok e ->
  BTreeNode_deserialize root_data 32 0 = Ok node -> tree_at (ns_view s) n None None node es ->
  exists root data ns, Forall node_good ns /\ (length ns <= 2 * n + 1)%nat /\
    (forall k, ns_room (length ns + k) s ->
       runs (insert_with_data fuel root_data e) s
         (fun r s' => r = (root, data) /\ wrote s s' ns /\ ns_room k s') /\
       runs (insert_batched fuel root_data e) s
         (fun r s' => r = (root, data) /\ wrote s s' ns /\ ns_room k s')) /\
    (forall view, ns_view s ⊆ view -> has_nodes view ns ->
       view !! root = Some (0, data) /\ holds view (S n) None None root (put (ChildEntry_norm e) es)).
Proof.
  intros Hr Hf He Hdec Ht.
  destruct (insert_node_ok s e He _ n fuel None None node es [] Hr Hf Ht I I) as (r & ns & [Hg Hcnt Hsh Hbat Hrun Hres]).
  destruct r as [h d|lh k rh].
  - exists h, d, ns. split_and!; [done|lia| |].
    + intros k Hk. split; (apply runs_bind; apply runs_lift with (1 := Hdec); apply runs_bind).
      * eapply runs_mono; [by apply Hrun|]. intros r s' (-> & Hw & Hr'). by apply runs_ret.
      * exists (Done h d, [] ++ (node_batch <$> ns)), s. split; [exact Hbat|].
        apply runs_bind. apply runs_ret. apply runs_bind. eapply runs_mono; [by apply (flush_runs k)|].
        intros _ s' [Hw Hr']. by apply runs_ret.
    + intros view Hsub Hv. destruct (Hres view Hsub Hv) as [Hh (nd & Hnd & Htn)]. split; [done|].
      exists nd. split; [done|]. eapply (proj1 (tree_height view)); [done|lia].
  - destruct Hsh as (Hl & Hrr & Hk & _ & _).
    set (nd := Internal {| in_keys := [k]; in_children := [lh; rh] |}).
    assert (Hgn : node_good nd) by (apply internal_good; [by constructor|constructor; [done|by constructor]|done|done]).
    assert (Hga : Forall node_good (ns ++ [nd])) by (apply Forall_app; split; [done|by constructor]).
    exists (node_key nd), (node_data nd), (ns ++ [nd]). split_and!; [done|rewrite length_app; simpl; lia| |].
    + intros j Hj. pose proof Hj as Hj'. rewrite length_app, <- Nat.add_assoc in Hj'.
      split; (apply runs_bind; apply runs_lift with (1 := Hdec); apply runs_bind).
      * eapply runs_mono; [by apply Hrun|]. intros r s' (-> & Hw & Hr'). fold nd.
        apply runs_bind. apply runs_lift with (1 := proj1 (good_data nd Hgn)). apply runs_bind.
        eapply runs_mono; [by apply (store_runs j)|]. intros h s2 (-> & Hw2 & Hr2). apply runs_ret.
        split_and!; [done|by eapply wrote_trans|done].
      * exists (Split lh k rh, [] ++ (node_batch <$> ns)), s. split; [exact Hbat|]. fold nd.
        apply runs_bind. apply runs_bind. apply runs_lift with (1 := proj1 (good_data nd Hgn)). apply runs_bind.
        apply runs_lift with (1 := good_hash nd Hgn). apply runs_ret. apply runs_bind.
        replace (batch_node ([] ++ (node_batch <$> ns)) (node_key nd) (node_data nd)) with (node_batch <$> (ns ++ [nd]))
          by (rewrite fmap_app; done).
        eapply runs_mono; [by apply (flush_runs j)|]. intros _ s' [Hw Hr']. by apply runs_ret.
    + intros view Hsub [Hv1 Hv2]%Forall_app. destruct (Hres view Hsub Hv1) as (el & er & -> & (nl & Hnl & Htl) & Her).
      split; [by apply Forall_inv in Hv2|]. apply written_holds; [done|done|]. constructor; [done|].
      econstructor; try done. destruct Her as (nr & Hnr & Htr). by econstructor.
Qed.

(** ** Deletion *)

Lemma Forall_del (P : ChildEntry -> Prop) name es : Forall P es -> Forall P (del name es).
Proof. apply Forall_filter. Qed.

(** The children left of an emptied last child, once its lower key goes too. *)
Lemma left_kids_last view n ks k : forall lo cs lo' es, left_kids view n lo (ks ++ [k]) cs lo' es ->
  lo' = Some k /\ kids view n lo (Some k) ks cs es.
Proof.
  induction ks as [|k0 ks IH]; intros lo cs lo' es HL; simpl in HL;
    inversion HL as [|? ? ? c cs' ? node e1 e2 Hb Hk Hn Ht HL']; subst.
  - inversion HL'; subst. split; [done|]. rewrite app_nil_r. by econstructor.
  - destruct (IH _ _ _ _ HL') as [-> Hks]. split; [done|]. by econstructor.
Qed.

(** What is left of a node when the child in focus is empty. *)
Lemma focus_drop view n lo hi ks1 ks2 cs es cs1 c cs2 lo' hi' es1 es0 es2 :
  focus view n lo hi ks1 ks2 cs es cs1 c cs2 lo' hi' es1 es0 es2 ->
  exists ks', remove_child {| in_keys := ks1 ++ ks2; in_children := cs |} (length cs1)
              = Ok {| in_keys := ks'; in_children := cs1 ++ cs2 |} /\ (length ks' <= length (ks1 ++ ks2))%nat /\
    (cs1 ++ cs2 = [] /\ es1 ++ es2 = [] \/ kids view n lo hi ks' (cs1 ++ cs2) (es1 ++ es2)).
Proof.
  intros [Ecs Ees Hl HL Hb Hc HR]. unfold remove_child. cbn [in_keys in_children].
  rewrite Ecs, remove_at_app, (proj2 (Nat.leb_gt _ _)) by (rewrite length_app; simpl; lia). rewrite Hl.
  inversion HR as [?|k ? ks cs' es' Hk Hks]; subst.
  - rewrite !app_nil_r, (proj2 (Nat.ltb_ge _ _)) by lia.
    induction ks1 as [|k ks _] using rev_ind.
    + destruct cs1; [|done]. inversion HL; subst. exists []. split_and!; [done..|by left].
    + rewrite bool_decide_false by (by destruct ks). rewrite length_app, Nat.add_sub. cbn [length].
      rewrite remove_at_app, app_nil_r. destruct (left_kids_last _ _ _ _ _ _ _ _ HL) as [-> Hks].
      exists ks. split_and!; [done|lia|]. right. eapply (proj2 (tree_widen view)); eauto with bounds.
  - rewrite (proj2 (Nat.ltb_lt _ _)) by (rewrite length_app; simpl; lia). rewrite remove_at_app.
    exists (ks1 ++ ks). split_and!; [done|rewrite !length_app; simpl; lia|]. right.
    eapply left_kids_app; [exact HL|]. eapply (proj2 (tree_widen view)); eauto with bounds.
Qed.

(** What deleting [name] under [root] gives: no root when nothing is left. *)
Record deleted (s : E) (n fuel : nat) (lo hi : option bytes) (root name : bytes) (es : list ChildEntry)
    (o : option bytes) (ns : list BTreeNode) : Prop := {
  del_good : Forall node_good ns;
  del_count : (length ns <= n)%nat;
  del_runs k : ns_room (length ns + k) s ->
    runs (delete fuel root name) s (fun o' s' => o' = o /\ wrote s s' ns /\ ns_room k s');
  del_none : o = None -> del name es = [];
  del_some h : o = Some h -> zlen h = 32 /\ forall view, ns_view s ⊆ view -> has_nodes view ns ->
    holds view n lo hi h (del name es);
}.

Lemma delete_leaf m s n fuel lo hi root name es :
  ns_room m s -> node_at (ns_view s) root (Leaf {| ln_entries := es |}) -> leaf_ok lo hi es ->
  exists o ns, deleted s (S n) (S fuel) lo hi root name es o ns.
Proof.
  intros Hr Hn [Hs Hnm Hc Hsz].
  destruct (LeafNode_remove {| ln_entries := es |} name) as [b [es']] eqn:Eu.
  pose proof (leaf_remove_del {| ln_entries := es |} name Hs) as Ep. rewrite Eu in Ep. simpl in Ep. subst es'.
  assert (Hloc : forall A (k : BTreeNode -> M E A), (nd ← load false root "B-tree root not found";
    node ← lift (BTreeNode_deserialize nd.2 32 nd.1); k node) s = k (Leaf {| ln_entries := es |}) s)
    by (intros; by apply (load_node m)).
  destruct (decide (del name es = [])) as [Ed|Ed].
  - exists None, []. split; [constructor|simpl; lia| |done|done].
    intros k Hk. exists None, s. split; [|split_and!; [done|by split; rewrite ?app_nil_r|done]].
    cbn [btree_delete]. rewrite Hloc, Eu. cbn [ln_entries]. by rewrite bool_decide_true.
  - assert (Hz : zlen (del name es) <= BTREE_MAX_LEAF_ENTRIES) by (pose proof (zlen_del name es); lia).
    set (nd := Leaf {| ln_entries := del name es |}).
    assert (Hg : node_good nd) by (apply leaf_good; [by apply Forall_del, child_raw_ok|done]).
    exists (Some (node_key nd)), [nd]. split; [by constructor|simpl; lia| |done|].
    + intros k Hk. unfold runs. cbn [btree_delete]. rewrite Hloc, Eu. cbn [ln_entries].
      rewrite bool_decide_false by done. apply runs_bind. eapply runs_mono; [by apply (store_runs k)|].
      intros h s' (-> & Hw & Hr'). by apply runs_ret.
    + intros h [= <-]. split; [apply zlen_node_key|]. intros view _ Hv. apply written_holds; [done|done|]. simpl.
      rewrite norm_id by by apply Forall_del. constructor.
      split; [by apply sorted_filter|by apply Forall_del|by apply Forall_del|done].
Qed.

Section DeleteInternal.
Context (m : nat) (s : E) (n fuel : nat) (lo hi : option bytes) (root name : bytes) (ks1 ks2 cs : list bytes).
Context (es : list ChildEntry) (cs1 : list bytes) (c : bytes) (cs2 : list bytes) (lo' hi' : option bytes).
Context (es1 es0 es2 : list ChildEntry) (o : option bytes) (ns : list BTreeNode).
Context (Hroom : ns_room m s) (Hsz : zlen (ks1 ++ ks2) <= BTREE_MAX_INTERNAL_KEYS).
Context (Hroot : node_at (ns_view s) root (Internal {| in_keys := ks1 ++ ks2; in_children := cs |})).
Context (Hkids : kids (ns_view s) n lo hi (ks1 ++ ks2) cs es).
Context (Hfo : focus (ns_view s) n lo hi ks1 ks2 cs es cs1 c cs2 lo' hi' es1 es0 es2).
Context (Hidx : find_child_index {| in_keys := ks1 ++ ks2; in_children := cs |} name = length cs1).
Context (Hget : index cs (Z.of_nat (length cs1)) = Ok c).
Context (Hbefore : Forall (before name) es1) (Hafter : Forall (after name) es2).
Context (Hdel : deleted s n fuel lo' hi' c name es0 o ns).

Lemma del_focus : del name es = es1 ++ del name es0 ++ es2.
Proof. destruct Hfo as [_ -> _ _ _ _ _]. by apply del_local. Qed.

(** The steps up to the child's deletion. *)
Lemma delete_runs_focus j (Q : option bytes -> E -> Prop) : ns_room (length ns + j) s ->
  (forall s', wrote s s' ns -> ns_room j s' -> runs
     (match o with
      | Some new_child_hash =>
        new_hash ← store_btree_node 32 Blake3_256 (Internal {| in_keys := ks1 ++ ks2;
          in_children := <[length cs1 := new_child_hash]> cs |});
        mret (Some new_hash)
      | None =>
        internal ← lift (remove_child {| in_keys := ks1 ++ ks2; in_children := cs |} (length cs1));
        match in_children internal with
        | [] => mret None
        | [child] => mret (Some child)
        | _ => new_hash ← store_btree_node 32 Blake3_256 (Internal internal); mret (Some new_hash)
        end
      end) s' Q) ->
  runs (delete (S fuel) root name) s Q.
Proof.
  intros Hj Hk. unfold runs. cbn [btree_delete].
  rewrite (load_node m) with (node := Internal {| in_keys := ks1 ++ ks2; in_children := cs |}) by done.
  rewrite Hidx. cbn [in_keys in_children]. apply runs_bind. apply runs_lift with (1 := Hget). apply runs_bind.
  eapply runs_mono; [by apply (del_runs _ _ _ _ _ _ _ _ _ _ Hdel j)|]. intros o' s' (-> & Hw & Hr'). by apply Hk.
Qed.

Lemma delete_replaced h : o = Some h -> exists o' ns', deleted s (S n) (S fuel) lo hi root name es o' ns'.
Proof.
  intros Eo. destruct (kids_keys _ _ _ _ _ _ _ Hkids) as (_ & Hk & Hl & Hc).
  pose proof (fo_cs _ _ _ _ _ _ _ _ _ _ _ _ _ _ _ _ Hfo) as Ecs.
  destruct (del_some _ _ _ _ _ _ _ _ _ _ Hdel h Eo) as [Hh Hch].
  set (nd := Internal {| in_keys := ks1 ++ ks2; in_children := cs1 ++ h :: cs2 |}).
  assert (Hg : node_good nd).
  { rewrite Ecs in Hc, Hl. apply Forall_app in Hc as [Hc1 Hc2]. apply Forall_cons in Hc2 as [_ Hc2].
    apply internal_good; [|by apply Forall_app; split; [|constructor]|rewrite <- Hl, !length_app; done|done].
    eapply Forall_impl; [exact Hk|]. by intros k (_ & _ & ?). }
  exists (Some (node_key nd)), (ns ++ [nd]). split.
  - apply Forall_app. split; [apply Hdel|by constructor].
  - rewrite length_app. pose proof (del_count _ _ _ _ _ _ _ _ _ _ Hdel). simpl. lia.
  - intros k Hk'. rewrite length_app, <- Nat.add_assoc in Hk'. apply (delete_runs_focus (1 + k) _ Hk'). intros s' Hw Hr'.
    rewrite Eo, Ecs, insert_middle. fold nd. apply runs_bind. eapply runs_mono; [by apply (store_runs k)|].
    intros h' s2 (-> & Hw2 & Hr2). apply runs_ret. split_and!; [done|by eapply wrote_trans|done].
  - done.
  - intros h' [= <-]. split; [apply zlen_node_key|]. intros view Hsub [Hv1 Hv2]%Forall_app.
    apply written_holds; [done|done|]. constructor; [done|]. rewrite del_focus. eapply focus_plug; [done|done|].
    by apply Hch.
Qed.

Lemma delete_emptied : o = None -> exists o' ns', deleted s (S n) (S fuel) lo hi root name es o' ns'.
Proof.
  intros Eo. pose proof (del_none _ _ _ _ _ _ _ _ _ _ Hdel Eo) as Hnil.
  destruct (focus_drop _ _ _ _ _ _ _ _ _ _ _ _ _ _ _ _ Hfo) as (ks' & Hrm & Hle & Hks).
  assert (Edel : del name es = es1 ++ es2) by (rewrite del_focus, Hnil; done).
  assert (Hrun : forall (r : option bytes) (k : nat), ns_room (length ns + k) s ->
    (forall s', match cs1 ++ cs2 with
     | [] => mret None | [child] => mret (Some child)
     | _ => new_hash ← store_btree_node 32 Blake3_256 (Internal {| in_keys := ks'; in_children := cs1 ++ cs2 |});
            mret (Some new_hash) end s' = Some (Ok r, s')) ->
    runs (delete (S fuel) root name) s (fun o' s' => o' = r /\ wrote s s' ns /\ ns_room k s')).
  { intros r k Hk Hm. apply (delete_runs_focus k _ Hk). intros s' Hw Hr'. rewrite Eo. apply runs_bind.
    apply runs_lift with (1 := Hrm). cbn [in_children]. exists r, s'. split; [apply Hm|done]. }
  destruct Hks as [[Ec Ees]|Hks].
  - exists None, ns. split; [apply Hdel| |intros k Hk; apply (Hrun None k Hk); by rewrite Ec|by rewrite Edel|done].
    pose proof (del_count _ _ _ _ _ _ _ _ _ _ Hdel). lia.
  - destruct (kids_keys _ _ _ _ _ _ _ Hks) as (_ & Hk & Hl & Hc).
    destruct (cs1 ++ cs2) as [|c1 [|c2 rest]] eqn:Ec; [by inversion Hks| |].
    + exists (Some c1), ns. split; [apply Hdel| |intros k Hk'; by apply (Hrun (Some c1) k Hk')|done|].
      { pose proof (del_count _ _ _ _ _ _ _ _ _ _ Hdel). lia. }
      intros h [= <-]. split; [by apply Forall_inv in Hc|]. intros view Hsub _. rewrite Edel.
      inversion Hks as [? ? ? ? node ? Hb Hn Ht|? ? ? ? ? ? ? ? ? ? ? ? ? ? Hks']; subst; [|inversion Hks'].
      exists node. split; [by eapply node_at_mono|]. apply (proj1 (tree_height view) n); [|lia].
      by apply (tree_mono _ _ Hsub).
    + set (nd := Internal {| in_keys := ks'; in_children := c1 :: c2 :: rest |}).
      assert (Hz : zlen ks' <= BTREE_MAX_INTERNAL_KEYS) by (etrans; [|exact Hsz]; unfold zlen; lia).
      assert (Hg : node_good nd).
      { apply internal_good; [|done|done|done]. eapply Forall_impl; [exact Hk|]. by intros x (_ & _ & ?). }
      exists (Some (node_key nd)), (ns ++ [nd]). split.
      * apply Forall_app. split; [apply Hdel|by constructor].
      * rewrite length_app. pose proof (del_count _ _ _ _ _ _ _ _ _ _ Hdel). simpl. lia.
      * intros k Hk'. rewrite length_app, <- Nat.add_assoc in Hk'. apply (delete_runs_focus (1 + k) _ Hk').
        intros s' Hw Hr'. rewrite Eo. apply runs_bind. apply runs_lift with (1 := Hrm). cbn [in_children].
        fold nd. apply runs_bind. eapply runs_mono; [by apply (store_runs k)|].
        intros h' s2 (-> & Hw2 & Hr2). apply runs_ret. split_and!; [done|by eapply wrote_trans|done].
      * done.
      * intros h' [= <-]. split; [apply zlen_node_key|]. intros view Hsub [Hv1 Hv2]%Forall_app.
        apply written_holds; [done|done|]. constructor; [done|]. rewrite Edel. by apply (tree_mono _ _ Hsub).
Qed.
End DeleteInternal.

Lemma delete_ok m s name n : forall fuel lo hi root es,
  ns_room m s -> (n <= fuel)%nat -> holds (ns_view s) n lo hi root es -> in_lo lo name -> in_hi hi name ->
  exists o ns, deleted s n fuel lo hi root name es o ns.
Proof.
  induction n as [|n IH]; intros fuel lo hi root es Hr Hf (node & Hn & Ht) Hlo Hhi; [inversion Ht|].
  destruct fuel as [|fuel]; [lia|]. inversion Ht as [? ? ? ? Hl|? ? ? ks cs ? Hsz Hk]; subst; [by eapply delete_leaf|].
  destruct (kids_find _ _ _ _ _ _ _ _ Hk Hlo Hhi)
    as (ks1 & ks2 & cs1 & c & cs2 & lo' & hi' & es1 & es0 & es2 & -> & Hfo & Hi & Hix & Hlo' & Hhi' & Hb & Ha).
  destruct (IH fuel lo' hi' c es0 Hr ltac:(lia) (fo_child _ _ _ _ _ _ _ _ _ _ _ _ _ _ _ _ Hfo) Hlo' Hhi')
    as ([h|] & ns & Hd).
  - by eapply delete_replaced.
  - by eapply delete_emptied.
Qed.
End Top.
