(* ===== verification/BTreeTop.v ===== *)
(** The directory B-tree refines a finite map from names to children: lookup and
    listing read the map, insertion and deletion return the root of an updated
    tree, and the old root keeps standing for the old map. *)
From S2P Require Import Prelude Sorted Codec EntryFormat Records KvEntry StateM BTreeNode BTree BTreeSpec BTreeRefine BTreeInsert BTreeOps.

Local Open Scope Z_scope.

(** ** Sorted lists as maps *)

Definition dir_map (es : list ChildEntry) : gmap bytes ChildEntry := list_to_map ((fun e => (ce_name e, e)) <$> es).

Lemma dir_map_app es1 es2 : dir_map (es1 ++ es2) = dir_map es1 ∪ dir_map es2.
Proof. unfold dir_map. by rewrite fmap_app, list_to_map_app. Qed.

Lemma dir_map_None es name : Forall (fun x => ce_name x <> name) es -> dir_map es !! name = None.
Proof.
  intros Hall. apply not_elem_of_list_to_map_1. rewrite <- list_fmap_compose, list_elem_of_fmap.
  intros (x & -> & Hx). rewrite Forall_forall in Hall. by apply (Hall x).
Qed.

Lemma dir_map_around es1 es0 es2 name : Forall (before name) es1 -> Forall (after name) es2 ->
  dir_map (es1 ++ es0 ++ es2) !! name = dir_map es0 !! name.
Proof.
  intros H1 H2. rewrite !dir_map_app, !lookup_union.
  rewrite (dir_map_None es1), (dir_map_None es2); [by destruct (dir_map es0 !! name)| |].
  - eapply Forall_impl; [exact H2|]. intros x. apply after_ne.
  - eapply Forall_impl; [exact H1|]. intros x. apply before_ne.
Qed.

(** A sorted list splits around every name. *)
Lemma sorted_around es name : StronglySorted by_name es -> exists es1 es0 es2,
  es = es1 ++ es0 ++ es2 /\ Forall (before name) es1 /\ Forall (after name) es2 /\
  (es0 = [] \/ exists x, es0 = [x] /\ ce_name x = name).
Proof.
  intros Hs. destruct (binary_search_by_spec ce_name es name Hs) as [l1 x l2 -> Hx H1 H2|l1 l2 -> H1 H2].
  - exists l1, [x], l2. split_and!; [done..|]. right. by exists x.
  - exists l1, [], l2. split_and!; [done..|]. by left.
Qed.

Lemma dir_map_put e es : StronglySorted by_name es -> dir_map (put e es) = <[ce_name e := e]> (dir_map es).
Proof.
  intros Hs. destruct (sorted_around es (ce_name e) Hs) as (l1 & l0 & l2 & -> & H1 & H2 & H0).
  rewrite (put_local (ce_name e)) by done. apply map_eq. intros k. destruct (decide (k = ce_name e)) as [->|Hne].
  - rewrite dir_map_around by done. rewrite lookup_insert_eq.
    destruct H0 as [->|(x & -> & Hx)]; unfold put; rewrite ?filter_cons, ?filter_nil, ?decide_False
      by (rewrite Hx; apply lex_lt_irrefl); simpl; apply lookup_insert_eq.
  - rewrite lookup_insert_ne by done. rewrite !dir_map_app, !lookup_union. do 2 f_equal.
    destruct H0 as [->|(x & -> & Hx)]; unfold put; rewrite ?filter_cons, ?filter_nil, ?decide_False
      by (rewrite Hx; apply lex_lt_irrefl); simpl; unfold dir_map; simpl; rewrite ?Hx;
      by rewrite ?lookup_insert_ne by done.
Qed.

Lemma dir_map_del name es : StronglySorted by_name es -> dir_map (del name es) = delete name (dir_map es).
Proof.
  intros Hs. destruct (sorted_around es name Hs) as (l1 & l0 & l2 & -> & H1 & H2 & H0).
  rewrite del_local by done. apply map_eq. intros k. destruct (decide (k = name)) as [->|Hne].
  - rewrite dir_map_around, lookup_delete_eq by done.
    destruct H0 as [->|(x & -> & Hx)]; unfold del; rewrite ?filter_cons, ?decide_False by tauto; done.
  - rewrite lookup_delete_ne by done. rewrite !dir_map_app, !lookup_union. do 2 f_equal.
    destruct H0 as [->|(x & -> & Hx)]; unfold del; rewrite ?filter_cons, ?decide_False by tauto; [done|].
    unfold dir_map. simpl. rewrite Hx. by rewrite lookup_insert_ne.
Qed.

Lemma lookup_dir_map name es : StronglySorted by_name es -> lookup_name name es = dir_map es !! name.
Proof.
  intros Hs. destruct (sorted_around es name Hs) as (l1 & l0 & l2 & -> & H1 & H2 & H0).
  rewrite dir_map_around, lookup_local by done. unfold lookup_name, dir_map.
  destruct H0 as [->|(x & -> & Hx)]; [done|]. rewrite filter_cons, decide_True by done. simpl.
  by rewrite Hx, lookup_insert_eq.
Qed.

Section Theorems.
Context `{Blake3} {E : Type} `{!NodeStore E, !NodeStoreLaws E}.
Implicit Types s : E.

(** [root] is the directory [m], in a tree of height at most [n]. *)
Definition directory (s : E) (n : nat) (root : bytes) (m : gmap bytes ChildEntry) : Prop :=
  exists es, holds (ns_view s) n None None root es /\ m = dir_map es.

Lemma directory_sorted s n root es : holds (ns_view s) n None None root es -> StronglySorted by_name es.
Proof. intros (node & _ & Ht). by destruct (proj1 (tree_entries _) _ _ _ _ _ Ht). Qed.

Lemma directory_mono s s' n root m : ns_view s ⊆ ns_view s' -> directory s n root m -> directory s' n root m.
Proof.
  intros Hsub (es & (node & Hn & Ht) & ->). exists es. split; [|done]. exists node.
  split; [by eapply node_at_mono|by apply (tree_mono _ _ Hsub)].
Qed.

(** C31. Reading a directory: looking a name up returns exactly the child the directory
    maps it to, and listing returns every child once, sorted by name. *)
Theorem btree_reads_map r s n fuel root m b :
  ns_room r s -> (n <= fuel)%nat -> directory s n root m ->
  (forall name, btree_lookup 32 fuel root name b s = Some (Ok (m !! name), s)) /\
  (exists es, btree_list 32 fuel root b s = Some (Ok es, s) /\ StronglySorted by_name es /\ dir_map es = m).
Proof.
  intros Hr Hf (es & Hh & ->). pose proof (directory_sorted _ _ _ _ Hh) as Hs. split.
  - intros name. rewrite <- lookup_dir_map by done. by apply (lookup_runs r s b name n fuel None None root es).
  - exists es. split_and!; [|done|done]. destruct Hh as (node & Hn & Ht).
    by apply (proj1 (list_runs r s b Hr) n None None node es Ht fuel root).
Qed.

(** C13. Inserting a child returns a new root that stands for the directory with the
    child under its name, replacing a child of that name, while the old root keeps
    standing for the old directory: provided the store has room for the nodes and
    no two entries of the log have the same content hash and different contents. *)
Theorem btree_insert_refines k s n fuel root m e :
  ns_room (2 * n + 1 + k) s -> (n <= fuel)%nat -> ChildEntry_wf 32 e -> entry_fits e -> directory s n root m ->
  runs (btree_insert 32 Blake3_256 fuel root e) s (fun root' s' => ns_room k s' /\
    (no_collision (ns_log s') ->
       directory s' (S n) root' (<[ce_name e := ChildEntry_norm e]> m) /\ directory s' n root m)).
Proof.
  intros Hr Hf Hwf Hfit (es & Hh & ->). pose proof (directory_sorted _ _ _ _ Hh) as Hs.
  destruct Hh as (node & (Hz & data & Hv & Hdec) & Ht).
  destruct (insert_top s n fuel data node es e) as (root' & data' & ns & Hg & Hc & Hruns & Hres);
    [eapply ns_room_le; [|exact Hr]; lia|done|done|done|done|].
  destruct (Hruns (2 * n + 1 - length ns + k)%nat) as [Hrun _]; [eapply ns_room_le; [|exact Hr]; lia|].
  unfold btree_insert. apply runs_bind. exists (0, data), s. split; [by eapply load_ok|].
  apply runs_bind. eapply runs_mono; [exact Hrun|]. intros ? s' (-> & Hw & Hr'). apply runs_ret.
  split; [eapply ns_room_le; [|exact Hr']; lia|]. intros Hnc. destruct (wrote_view _ _ _ _ Hr Hw Hnc) as [Hsub Hns].
  destruct (Hres _ Hsub Hns) as [_ Hnew]. split; [eexists; split; [exact Hnew|by rewrite dir_map_put]|].
  eapply directory_mono; [exact Hsub|]. exists es. split; [|done]. exists node. split; [|done]. split; [done|eauto].
Qed.

(** Batching the writes changes nothing: on a loaded root, the batched insertion
    returns the same root and root bytes as the direct one and leaves the store
    with the same entries and the same log. *)
Theorem btree_insert_batched_equiv k s n fuel root_data node m e :
  ns_room (2 * n + 1 + k) s -> (n <= fuel)%nat -> ChildEntry_wf 32 e -> entry_fits e ->
  BTreeNode_deserialize root_data 32 0 = Ok node ->
  (exists es, tree_at (ns_view s) n None None node es /\ m = dir_map es) ->
  exists root data view log,
    runs (btree_insert_with_data 32 Blake3_256 fuel root_data e) s (fun r s' =>
      r = (root, data) /\ ns_view s' = view /\ ns_log s' = log /\ ns_room k s') /\
    runs (btree_insert_batched 32 Blake3_256 fuel root_data e) s (fun r s' =>
      r = (root, data) /\ ns_view s' = view /\ ns_log s' = log /\ ns_room k s') /\
    (no_collision log -> view !! root = Some (0, data)).
Proof.
  intros Hr Hf Hwf Hfit Hdec (es & Ht & ->).
  destruct (insert_top s n fuel root_data node es e) as (root & data & ns & Hg & Hc & Hruns & Hres);
    [eapply ns_room_le; [|exact Hr]; lia|done|done|done|done|].
  destruct (Hruns (2 * n + 1 - length ns + k)%nat) as [Hrun Hbat]; [eapply ns_room_le; [|exact Hr]; lia|].
  exists root, data, (apply_writes (ns_view s) (node_entry <$> ns)), (ns_log s ++ (node_entry <$> ns)). split_and!.
  - eapply runs_mono; [exact Hrun|]. intros r s' (-> & [HL HV] & Hr'). split_and!; [done..|]. eapply ns_room_le; [|exact Hr']; lia.
  - eapply runs_mono; [exact Hbat|]. intros r s' (-> & [HL HV] & Hr'). split_and!; [done..|]. eapply ns_room_le; [|exact Hr']; lia.
  - intros Hnc. destruct Hrun as (? & s' & _ & _ & Hw & _). destruct Hw as [HL HV].
    rewrite <- HL in Hnc. destruct (wrote_view _ _ _ ns Hr (conj HL HV) Hnc) as [Hsub Hns].
    rewrite <- HV. by apply Hres.
Qed.

(** C14. Deleting a name returns a root that stands for the directory without it, or no
    root when nothing is left, and the old root keeps standing for the old
    directory, under the same conditions. *)
Theorem btree_delete_refines k s n fuel root m name :
  ns_room (n + k) s -> (n <= fuel)%nat -> directory s n root m ->
  runs (btree_delete 32 Blake3_256 fuel root name) s (fun o s' => ns_room k s' /\
    (no_collision (ns_log s') ->
       match o with
       | None => delete name m = ∅
       | Some root' => directory s' n root' (delete name m)
       end /\ directory s' n root m)).
Proof.
  intros Hr Hf (es & Hh & ->). pose proof (directory_sorted _ _ _ _ Hh) as Hs.
  destruct (delete_ok (n + k) s name n fuel None None root es Hr Hf Hh I I) as (o & ns & Hd).
  pose proof (del_count _ _ _ _ _ _ _ _ _ _ Hd) as Hc.
  eapply runs_mono; [apply (del_runs _ _ _ _ _ _ _ _ _ _ Hd (n - length ns + k)); eapply ns_room_le; [|exact Hr]; lia|].
  intros ? s' (-> & Hw & Hr'). split; [eapply ns_room_le; [|exact Hr']; lia|].
  intros Hnc. destruct (wrote_view _ _ _ _ Hr Hw Hnc) as [Hsub Hns].
  split; [|eapply directory_mono; [exact Hsub|by exists es]]. rewrite <- dir_map_del by done. destruct o as [h|].
  - destruct (del_some _ _ _ _ _ _ _ _ _ _ Hd h eq_refl) as [_ Hnew]. exists (del name es). split; [by apply Hnew|done].
  - by rewrite (del_none _ _ _ _ _ _ _ _ _ _ Hd eq_refl).
Qed.
End Theorems.
