(* ===== verification/BTreeBuild.v ===== *)
(** Building a directory B-tree from a list of children.  Up to 3120 children (78
    leaves of 40) the tree has one internal node and stands for the list; beyond
    that the groups after the first get a key too many, and the tree cannot be
    listed. *)
From S2P Require Import Prelude Sorted Codec EntryFormat Records KvEntry StateM BTreeNode BTree BTreeSpec BTreeRefine BTreeInsert BTreeOps BTreeTop.

Local Open Scope Z_scope.

(** ** Leaves *)

Definition chunk_leaf (chunk : list ChildEntry) : BTreeNode := Leaf {| ln_entries := chunk |}.

(** The name of a chunk's first child. *)
Definition chunk_key (chunk : list ChildEntry) : bytes :=
  match chunk with e :: _ => ce_name e | [] => [] end.

Definition chunk_ok (chunk : list ChildEntry) : Prop :=
  chunk <> [] /\ (length chunk <= 40)%nat /\ Forall raw_ok chunk.

Lemma chunk_good chunk : chunk_ok chunk -> node_good (chunk_leaf chunk).
Proof. intros (_ & Hl & Hr). apply leaf_good; [done|]. unfold zlen, BTREE_MAX_LEAF_ENTRIES. lia. Qed.

Section Build.
Context `{Blake3} {E : Type} `{!NodeStore E, !NodeStoreLaws E}.
Implicit Types s : E.

Lemma store_leaves_runs k chunks : forall s lh sk, Forall chunk_ok chunks -> ns_room (length chunks + k) s ->
  runs (store_leaves 32 Blake3_256 chunks lh sk) s (fun r s' =>
    r = (lh ++ (node_key ∘ chunk_leaf <$> chunks),
         sk ++ (chunk_key <$> (if bool_decide (lh = []) then tail chunks else chunks))) /\
    wrote s s' (chunk_leaf <$> chunks) /\ ns_room k s').
Proof.
  induction chunks as [|ch chunks IH]; intros s lh sk Hok Hr; cbn [store_leaves].
  - apply runs_ret. split_and!; [|by split; rewrite ?app_nil_r|done]. by destruct lh; rewrite ?app_nil_r.
  - apply Forall_cons in Hok as [Hch Hok]. apply runs_bind.
    eapply runs_mono; [by apply (store_runs (length chunks + k)), Hr; apply chunk_good|].
    intros h s1 (-> & Hw1 & Hr1). apply runs_bind.
    assert (Hsplit : runs (if bool_decide (lh = []) then mret sk else first ← lift (index ch 0); mret (sk ++ [ce_name first])) s1
      (fun sk' s' => sk' = sk ++ (if bool_decide (lh = []) then [] else [chunk_key ch]) /\ s' = s1)).
    { case_bool_decide; [apply runs_ret; by rewrite app_nil_r|]. destruct Hch as [Hne _]. destruct ch as [|e ch]; [done|].
      apply runs_bind. apply runs_lift with (a := e); [done|]. by apply runs_ret. }
    eapply runs_mono; [exact Hsplit|]. intros sk' s' [-> ->].
    eapply runs_mono; [by apply IH|]. intros r s2 (-> & Hw2 & Hr2).
    split_and!; [|by apply (wrote_trans _ _ _ [chunk_leaf ch] _ Hw1)|done].
    rewrite (bool_decide_false (lh ++ _ = [])) by (by destruct lh). rewrite <- !app_assoc.
    case_bool_decide; [by destruct lh|done].
Qed.

(** The stored leaves are the children of a node over all the entries. *)
Lemma kids_of_chunks view chunks : forall lo, chunks <> [] -> Forall chunk_ok chunks ->
  StronglySorted by_name (concat chunks) -> Forall (named_in lo None) (concat chunks) ->
  has_nodes view (chunk_leaf <$> chunks) ->
  kids view 1 lo None (chunk_key <$> tail chunks) (node_key ∘ chunk_leaf <$> chunks) (ChildEntry_norm <$> concat chunks).
Proof.
  induction chunks as [|ch chunks IH]; intros lo Hne Hok Hs Hn Hv; [done|].
  apply Forall_cons in Hok as [Hch Hok]. rewrite fmap_cons in Hv. apply Forall_cons in Hv as [Hv1 Hv].
  pose proof (chunk_good ch Hch) as Hg. pose proof (written_node_at _ _ Hg Hv1) as Hat.
  simpl in Hs, Hn. apply StronglySorted_app_iff in Hs as (Hs1 & Hs2 & Hs12). apply Forall_app in Hn as [Hn1 Hn2].
  destruct Hch as (Hne1 & Hl1 & Hr1). assert (Hz : zlen ch <= BTREE_MAX_LEAF_ENTRIES) by (unfold zlen, BTREE_MAX_LEAF_ENTRIES; lia).
  destruct chunks as [|ch2 chunks].
  - simpl. rewrite app_nil_r. econstructor; [by destruct lo|exact Hat|]. constructor. by apply norm_leaf_ok.
  - cbn [tail concat]. rewrite fmap_app, !fmap_cons. pose proof (Forall_inv Hok) as (Hne2 & _ & Hr2).
    destruct ch2 as [|y ch2]; [done|]. destruct ch as [|x ch]; [done|].
    assert (Hxy : lex_lt (ce_name x) (ce_name y)) by (apply Hs12; [left|simpl; left]).
    apply kids_cons with (node := node_norm (chunk_leaf (x :: ch))); [| |exact Hat| |].
    + destruct lo as [l|]; [|done]. apply Forall_inv in Hn1 as [Hlx _]. exact (lex_le_lt_trans _ _ _ Hlx Hxy).
    + apply Forall_inv in Hr2 as [Hw [Hf _]]. split; [apply Hw|done].
    + constructor. apply norm_leaf_ok; [done| |done|done]. rewrite Forall_forall in Hn1 |- *. intros z Hz'.
      split; [by apply Hn1|]. apply Hs12; [done|simpl; left].
    + apply IH; [done..| |done]. simpl in Hs2 |- *. apply StronglySorted_inv in Hs2 as [_ Hall].
      constructor; [by split; [apply lex_lt_irrefl|]|]. eapply Forall_impl; [exact Hall|].
      intros z Hz'. split; [by apply lex_lt_asym|done].
Qed.

(** ** One level of internal nodes *)

Lemma slice_chk_all {A} (l : list A) n : zlen l = n -> slice_chk l 0 n = Ok l.
Proof. intros <-. rewrite slice_chk_ok by (pose proof (zlen_nonneg l); lia). by rewrite slice_all. Qed.

Lemma group_one k s children keys : let nd := Internal {| in_keys := keys; in_children := children |} in
  (2 <= length children <= 78)%nat -> length children = S (length keys) -> node_good nd -> ns_room (S k) s ->
  runs (group_children 32 Blake3_256 (S (length children)) children keys 0 [] []) s
    (fun r s' => r = ([node_key nd], []) /\ wrote s s' [nd] /\ ns_room k s').
Proof.
  intros nd Hl Hk Hg Hr. cbn [group_children]. rewrite (proj2 (Nat.ltb_lt _ _)) by lia.
  replace (Nat.min (0 + max_children) (length children)) with (length children)
    by (change max_children with 78%nat; lia). cbv zeta.
  apply runs_bind. apply runs_lift with (a := children); [by apply slice_chk_all|].
  apply runs_bind. apply runs_lift with (a := keys); [apply slice_chk_all; unfold zlen; lia|]. fold nd.
  apply runs_bind. eapply runs_mono; [by apply (store_runs k)|]. intros h s' (-> & Hw & Hr').
  apply runs_bind. apply runs_ret. destruct (length children) as [|n] eqn:El; [lia|]. cbn [group_children].
  rewrite El, Nat.ltb_irrefl. by apply runs_ret.
Qed.

Lemma build_one k s fuel children keys : let nd := Internal {| in_keys := keys; in_children := children |} in
  (2 <= length children <= 78)%nat -> length children = S (length keys) -> node_good nd -> ns_room (S k) s ->
  runs (build_internal_level 32 Blake3_256 (S fuel) children keys) s
    (fun r s' => r = node_key nd /\ wrote s s' [nd] /\ ns_room k s').
Proof.
  intros nd Hl Hk Hg Hr. cbn [build_internal_level]. destruct children as [|c1 [|c2 cs]]; [simpl in Hl; lia..|].
  apply runs_bind. eapply runs_mono; [by apply (group_one k)|]. intros r s' (-> & Hw & Hr'). by apply runs_ret.
Qed.

(** ** The whole construction *)

Section Chunks.
Context (entries : list ChildEntry) (Hnd : NoDup (ce_name <$> entries)) (Hraw : Forall raw_ok entries).

Abbreviation sorted := (sort_by_key ce_name entries).
Abbreviation chunks := (chunks_of 40 sorted).

Lemma sorted_sorted : StronglySorted by_name sorted.
Proof. by apply sort_by_key_sorted. Qed.

Lemma sorted_raw : Forall raw_ok sorted.
Proof. rewrite Forall_forall in Hraw |- *. intros e. rewrite sort_by_key_perm. apply Hraw. Qed.

Lemma chunks_concat : concat chunks = sorted.
Proof. apply chunks_of_spec. lia. Qed.

Lemma chunks_ok : Forall chunk_ok chunks.
Proof.
  destruct (chunks_of_spec 40 sorted ltac:(lia)) as [E1 Hall]. rewrite Forall_forall in Hall |- *.
  intros ch Hch. destruct (Hall ch Hch) as [Hne Hl]. split_and!; [done|done|].
  pose proof sorted_raw as Hr. rewrite Forall_forall in Hr |- *. intros e He. apply Hr.
  rewrite <- E1. apply list_elem_of_In, in_concat. exists ch. by rewrite <- !list_elem_of_In.
Qed.

Lemma dir_map_entries : dir_map (ChildEntry_norm <$> sorted) = dir_map (ChildEntry_norm <$> entries).
Proof.
  unfold dir_map. apply list_to_map_proper.
  - rewrite <- !list_fmap_compose. change (NoDup (ce_name <$> sorted)). by rewrite sort_by_key_perm.
  - by rewrite sort_by_key_perm.
Qed.

Lemma chunks_kids view : entries <> [] -> has_nodes view (chunk_leaf <$> chunks) ->
  kids view 1 None None (chunk_key <$> tail chunks) (node_key ∘ chunk_leaf <$> chunks) (ChildEntry_norm <$> sorted).
Proof.
  intros Hne Hv. pose proof chunks_concat as Ec. rewrite <- Ec at 3. apply kids_of_chunks.
  - intros Hn. rewrite Hn in Ec. simpl in Ec. pose proof (sort_by_key_perm ce_name entries) as Hp. rewrite <- Ec in Hp.
    by apply Permutation_nil in Hp.
  - apply chunks_ok.
  - rewrite Ec. apply sorted_sorted.
  - rewrite Ec. apply Forall_forall. by intros e _.
  - done.
Qed.
End Chunks.

Lemma chunks_nonempty entries : entries <> [] -> sort_by_key ce_name entries <> [].
Proof. intros Hne Hs. pose proof (sort_by_key_perm ce_name entries) as Hp. rewrite Hs in Hp. by apply Permutation_nil in Hp. Qed.

(** The leaves and their keys, as the internal levels start from them. *)
Lemma from_entries_leaves k s fuel entries (Q : bytes -> E -> Prop) :
  NoDup (ce_name <$> entries) -> Forall raw_ok entries -> entries <> [] ->
  let chunks := chunks_of 40 (sort_by_key ce_name entries) in
  ns_room (length chunks + k) s ->
  (forall s', wrote s s' (chunk_leaf <$> chunks) -> ns_room k s' ->
     runs (match node_key ∘ chunk_leaf <$> chunks with
           | [hash] => mret hash
           | _ => build_internal_level 32 Blake3_256 fuel (node_key ∘ chunk_leaf <$> chunks) (chunk_key <$> tail chunks)
           end) s' Q) ->
  runs (btree_from_entries 32 Blake3_256 fuel entries) s Q.
Proof.
  intros Hnd Hraw Hne chunks Hr Hk. unfold btree_from_entries.
  pose proof (chunks_nonempty entries Hne) as Hs. pose proof (chunks_ok entries Hraw) as Hok. fold chunks in Hok.
  change (Z.to_nat BTREE_MAX_LEAF_ENTRIES) with 40%nat. cbv zeta. fold chunks. clearbody chunks.
  destruct (sort_by_key ce_name entries); [done|]. apply runs_bind.
  eapply runs_mono; [by apply (store_leaves_runs k)|].
  intros r s' (-> & Hw & Hr'). by apply Hk.
Qed.

(** The keys and hashes one level of leaves hands to the level above. *)
Lemma chunks_level chunks : Forall chunk_ok chunks -> chunks <> [] ->
  Forall key_ok (chunk_key <$> tail chunks) /\ Forall (fun c => zlen c = 32) (node_key ∘ chunk_leaf <$> chunks) /\
  length (node_key ∘ chunk_leaf <$> chunks) = S (length (chunk_key <$> tail chunks)).
Proof.
  intros Hok Hne. destruct chunks as [|c chunks]; [done|]. apply Forall_cons in Hok as [_ Hok]. cbn [tail]. split_and!.
  - apply Forall_fmap. eapply Forall_impl; [exact Hok|]. intros [|e ch] (Hn & _ & Hr); [done|].
    apply Forall_inv in Hr as [Hw [Hf _]]. split; [apply Hw|done].
  - apply Forall_fmap, Forall_forall. intros ch _. apply zlen_node_key.
  - rewrite !length_fmap. done.
Qed.

Lemma chunks_node_good chunks : Forall chunk_ok chunks -> (1 <= length chunks <= 78)%nat ->
  node_good (Internal {| in_keys := chunk_key <$> tail chunks; in_children := node_key ∘ chunk_leaf <$> chunks |}).
Proof.
  intros Hok Hl. destruct (chunks_level chunks Hok) as (Hk & Hc & Hlen); [by intros ->; simpl in Hl; lia|].
  apply internal_good; [done..|]. rewrite length_fmap in Hlen. unfold zlen, BTREE_MAX_INTERNAL_KEYS. lia.
Qed.

Lemma chunks_count entries (c := length (chunks_of 40 (sort_by_key ce_name entries))) :
  (length entries <= 40 * c <= length entries + 39)%nat.
Proof.
  pose proof (chunks_of_count 40 (sort_by_key ce_name entries) ltac:(lia)) as Hc. fold c in Hc.
  rewrite (Permutation_length (sort_by_key_perm ce_name entries)) in Hc. lia.
Qed.

(** C30. Building a tree from at most 3120 children with distinct names returns a root
    that stands for exactly those children. *)
Theorem btree_from_entries_spec k s fuel entries :
  NoDup (ce_name <$> entries) -> Forall (ChildEntry_wf 32) entries -> Forall entry_fits entries ->
  zlen entries <= 3120 -> ns_room (79 + k) s ->
  runs (btree_from_entries 32 Blake3_256 (S fuel) entries) s (fun root s' => ns_room k s' /\
    (no_collision (ns_log s') -> directory s' 2 root (dir_map (ChildEntry_norm <$> entries)))).
Proof.
  intros Hnd Hwf Hfit Hlen Hr. assert (Hraw : Forall raw_ok entries) by (apply Forall_and; done).
  destruct (decide (entries = [])) as [->|Hne].
  - assert (Hg : node_good (chunk_leaf [])) by (by apply leaf_good).
    eapply runs_mono; [apply (store_runs (78 + k)); [exact Hg|exact Hr]|].
    intros root s' (-> & Hw & Hr'). split; [eapply ns_room_le; [|exact Hr']; lia|]. intros Hnc.
    destruct (wrote_view _ _ _ _ Hr Hw Hnc) as [_ Hns]. exists []. split; [|done].
    apply written_holds; [done|done|]. constructor. split; [constructor..|done].
  - set (chunks := chunks_of 40 (sort_by_key ce_name entries)).
    assert (Hcnt : (1 <= length chunks <= 78)%nat).
    { pose proof (chunks_count entries) as Hc. fold chunks in Hc. unfold zlen in Hlen.
      destruct entries; [done|]. simpl in Hc, Hlen. lia. }
    assert (Hok : Forall chunk_ok chunks) by by apply chunks_ok.
    apply (from_entries_leaves (79 - length chunks + k) s (S fuel) entries); [done..| |].
    { fold chunks. eapply ns_room_le; [|exact Hr]. lia. }
    fold chunks. intros s1 Hw1 Hr1.
    assert (Hk1 : forall view, has_nodes view (chunk_leaf <$> chunks) ->
      kids view 1 None None (chunk_key <$> tail chunks) (node_key ∘ chunk_leaf <$> chunks)
        (ChildEntry_norm <$> sort_by_key ce_name entries)) by (intros; by apply chunks_kids).
    rewrite <- dir_map_entries by done. clearbody chunks. destruct chunks as [|c1 [|c2 cs]]; [simpl in Hcnt; lia| |].
    + apply runs_ret. split; [eapply ns_room_le; [|exact Hr1]; simpl; lia|]. intros Hnc.
      destruct (wrote_view _ _ _ _ Hr Hw1 Hnc) as [_ Hns]. specialize (Hk1 _ Hns).
      inversion Hk1 as [? ? ? ? node ? Hb Hn Ht|]; subst.
      eexists. split; [|done]. exists node. split; [done|]. apply (proj1 (tree_height _) 1%nat); [done|lia].
    + pose proof (chunks_node_good _ Hok Hcnt) as Hg. cbn [fmap list_fmap] in Hw1 |- *.
      set (nd := Internal _) in Hg. cbv iota.
      eapply runs_mono; [apply (build_one (79 - length (c1 :: c2 :: cs) - 1 + k))|].
      * simpl. rewrite length_fmap. simpl in Hcnt. lia.
      * simpl. by rewrite !length_fmap.
      * exact Hg.
      * eapply ns_room_le; [|exact Hr1]. lia.
      * intros root s2 (-> & Hw2 & Hr2). split; [eapply ns_room_le; [|exact Hr2]; lia|]. intros Hnc.
        destruct (wrote_view _ _ _ _ Hr (wrote_trans _ _ _ _ _ Hw1 Hw2) Hnc) as [_ [Hns1 Hns2]%Forall_app].
        eexists. split; [|done]. apply written_holds; [done|done|]. constructor; [apply Hg|]. by apply Hk1.
Qed.

(** ** Beyond one internal node *)

(** A node with as many keys as children is stored, and cannot be decoded. *)
Lemma short_node_stored ks cs : Forall key_ok ks -> Forall (fun c => zlen c = 32) cs -> zlen ks <= 78 -> zlen cs <= 78 ->
  let nd := Internal {| in_keys := ks; in_children := cs |} in
  BTreeNode_serialize nd 32 = Ok (node_data nd) /\ zlen (node_data nd) <= NODE_MAX.
Proof.
  intros Hk Hc Hlk Hlc nd. destruct (serialize_keys_ok ks Hk) as (enc & E1 & Hl).
  assert (E2 : BTreeNode_serialize nd 32 = Ok ([z2b BTREE_INTERNAL_MARKER] ++ u16_le (zlen ks) ++ enc ++ concat cs))
    by (unfold nd; cbn [BTreeNode_serialize in_keys in_children]; by rewrite E1).
  unfold node_data. rewrite E2. split; [done|]. pose proof (zlen_concat_hashes 32 cs Hc). unfold NODE_MAX. zlen_lia.
Qed.

Lemma read_children_short cs : forall data off, Forall (fun c => zlen c = 32) cs -> suffix_at data off (concat cs) ->
  read_children (S (length cs)) data off 32
  = Err (CorruptEntry (off + zlen (concat cs)) "Internal node data too short for child hash").
Proof.
  induction cs as [|c cs IH]; intros data off Hall Hd; cbn [length concat] in *; cbn [read_children];
    pose proof (suffix_at_bounds _ _ _ Hd) as Hb.
  - rewrite zlen_nil in *. rewrite (proj2 (Z.ltb_lt _ _)) by lia. by rewrite Z.add_0_r.
  - apply Forall_cons in Hall as [Hc Hall]. rewrite (proj2 (Z.ltb_ge _ _)) by zlen_lia.
    rewrite (suffix_at_slice_chk _ _ _ _ _ Hd Hc), bind_ret.
    pose proof (suffix_at_app _ _ _ _ _ Hd Hc) as Hd'. specialize (IH _ _ Hall Hd'). cbn [read_children] in IH.
    rewrite IH. simpl. do 2 f_equal. zlen_lia.
Qed.

Lemma short_node_unreadable ks cs : Forall key_ok ks -> Forall (fun c => zlen c = 32) cs -> zlen ks = zlen cs -> zlen ks <= 78 ->
  exists off, BTreeNode_deserialize (node_data (Internal {| in_keys := ks; in_children := cs |})) 32 0
  = Err (CorruptEntry off "Internal node data too short for child hash").
Proof.
  intros Hk Hc Heq Hl. destruct (serialize_keys_ok ks Hk) as (enc & E1 & _).
  unfold node_data. cbn [BTreeNode_serialize in_keys in_children]. rewrite E1, bind_ret.
  set (data := _ ++ _ ++ _ ++ _). destruct (node_prefix _ _ _ data eq_refl) as (Hne & H0 & H3 & Hc1 & Hd);
    [unfold is_u16; zlen_lia|].
  change (BTreeNode_deserialize data 32 0) with (BTreeNode_deserialize_v0 data 32).
  unfold BTreeNode_deserialize_v0. rewrite bool_decide_false, H0, bind_ret, H3, Hc1, !bind_ret by done.
  change (b2z (z2b BTREE_INTERNAL_MARKER) =? BTREE_LEAF_MARKER) with false.
  change (b2z (z2b BTREE_INTERNAL_MARKER) =? BTREE_INTERNAL_MARKER) with true. cbv iota.
  replace (Z.to_nat (zlen ks)) with (length ks) by (unfold zlen; lia).
  destruct (read_keys_at ks _ _ _ _ Hk E1 Hd) as [-> Hd']. rewrite bind_ret.
  replace (Z.to_nat (zlen ks + 1)) with (S (length cs)) by (unfold zlen in *; lia).
  eexists. by rewrite (read_children_short cs _ _ Hc Hd').
Qed.

(** The node of the group from child [i > 0] on. *)
Definition group_stop (children : list bytes) (i : nat) : nat := Nat.min (i + 78) (length children).
Definition group_node (children keys : list bytes) (i : nat) : BTreeNode :=
  Internal {| in_keys := slice keys (Z.of_nat i - 1) (Z.of_nat (group_stop children i) - 1);
              in_children := slice children (Z.of_nat i) (Z.of_nat (group_stop children i)) |}.

Lemma Forall_slice {A} (P : A -> Prop) l a b : Forall P l -> Forall P (slice l a b).
Proof. intros Hl. unfold slice. by apply Forall_take, Forall_drop. Qed.

Section Groups.
Context (children keys : list bytes) (Hk : Forall key_ok keys) (Hc : Forall (fun c => zlen c = 32) children).
Context (Hlen : length children = S (length keys)).

Lemma group_node_shape i : (0 < i < length children)%nat ->
  exists ks cs, group_node children keys i = Internal {| in_keys := ks; in_children := cs |} /\
    Forall key_ok ks /\ Forall (fun c => zlen c = 32) cs /\ zlen ks = zlen cs /\ zlen ks <= 78.
Proof.
  intros Hi. unfold group_node. eexists _, _. split; [done|]. split_and!; [by apply Forall_slice..| |];
    rewrite ?zlen_slice by (unfold group_stop, zlen; lia); unfold group_stop; lia.
Qed.

(** One round of the loop after the first. *)
Lemma group_round k s fuel i nc nk (Q : list bytes * list bytes -> E -> Prop) :
  (0 < i < length children)%nat -> nc <> [] -> ns_room (S k) s ->
  (forall s' key, key_ok key -> wrote s s' [group_node children keys i] -> ns_room k s' ->
     runs (group_children 32 Blake3_256 fuel children keys (group_stop children i)
             (nc ++ [node_key (group_node children keys i)]) (nk ++ [key])) s' Q) ->
  runs (group_children 32 Blake3_256 (S fuel) children keys i nc nk) s Q.
Proof.
  intros Hi Hnc Hr Hrest. cbn [group_children]. rewrite (proj2 (Nat.ltb_lt _ _)) by lia.
  change (Nat.min (i + max_children) (length children)) with (group_stop children i). cbv zeta.
  assert (Hst : (i < group_stop children i <= length children)%nat) by (unfold group_stop; lia).
  apply runs_bind. eapply runs_lift; [apply slice_chk_ok; unfold zlen; lia|].
  rewrite (proj2 (Nat.eqb_neq i 0)) by lia. apply runs_bind.
  eapply runs_lift; [apply slice_chk_ok; unfold zlen; lia|].
  fold (group_node children keys i). destruct (group_node_shape i Hi) as (ks & cs & Eg & Hks & Hcs & Heq & Hl).
  destruct (short_node_stored ks cs Hks Hcs Hl ltac:(lia)) as [Hs Hz]. rewrite <- Eg in Hs, Hz.
  apply runs_bind. eapply runs_mono; [by apply (store_raw_runs k)|]. intros h s' (-> & Hw & Hr').
  rewrite bool_decide_false, (proj2 (Nat.ltb_lt 0 i)), (proj2 (Nat.ltb_lt (i - 1) (length keys))) by (done || lia).
  destruct (index_ok keys (Z.of_nat i - 1)) as [key Ekey]; [unfold zlen; lia|]. cbn [negb andb].
  apply runs_bind, runs_bind. apply runs_lift with (1 := Ekey). apply runs_ret. apply Hrest; [|done|done].
  rewrite Forall_forall in Hk. apply Hk. unfold index in Ekey. destruct (_ && _); [|done].
  destruct (keys !! _) as [x|] eqn:Ex; [|done]. apply Ok_inj in Ekey as <-. by eapply list_elem_of_lookup_2.
Qed.

Lemma group_rest k fuel : forall s i nc nk, nc <> [] -> (0 < i <= length children)%nat ->
  (length children - i < fuel)%nat -> ns_room (length children - i + k) s ->
  runs (group_children 32 Blake3_256 fuel children keys i nc nk) s (fun r s' => exists ns kk,
    r = (nc ++ (node_key <$> ns), nk ++ kk) /\ wrote s s' ns /\ length kk = length ns /\ Forall key_ok kk /\
    (78 * length ns <= length children - i + 77)%nat /\ ns_room k s').
Proof.
  induction fuel as [|fuel IH]; intros s i nc nk Hnc Hi Hf Hr; [lia|].
  destruct (decide (i = length children)) as [->|Hne].
  - cbn [group_children]. rewrite Nat.ltb_irrefl. apply runs_ret. exists [], [].
    rewrite !app_nil_r. split_and!; [done|by split; rewrite ?app_nil_r|done|constructor|simpl; lia|].
    eapply ns_room_le; [|exact Hr]. lia.
  - apply (group_round (length children - i - 1 + k)); [lia|done| |].
    { eapply ns_room_le; [|exact Hr]. lia. }
    intros s1 key Hkey Hw1 Hr1. assert (Hst : (group_stop children i = Nat.min (i + 78) (length children))%nat) by done.
    eapply runs_mono.
    + apply (IH s1 (group_stop children i)); [by destruct nc|lia|lia|]. eapply ns_room_le; [|exact Hr1]. lia.
    + intros r s2 (ns & kk & -> & Hw2 & Hl & Hkk & Hcnt & Hr2).
      exists (group_node children keys i :: ns), (key :: kk). rewrite fmap_cons, <- !app_assoc.
      split_and!; [done|by apply (wrote_trans _ _ _ [_] _ Hw1)|simpl; lia|by constructor|simpl; lia|done].
Qed.

Definition first_node : BTreeNode :=
  Internal {| in_keys := take 77 keys; in_children := take 78 children |}.

Lemma first_node_good : (79 <= length children)%nat -> node_good first_node.
Proof.
  intros Hl. apply internal_good; [by apply Forall_take|by apply Forall_take|rewrite !length_take; lia|].
  unfold zlen, BTREE_MAX_INTERNAL_KEYS. rewrite length_take. lia.
Qed.

Lemma group_many k s : (79 <= length children)%nat -> ns_room (length children + k) s ->
  runs (group_children 32 Blake3_256 (S (length children)) children keys 0 [] []) s (fun r s' => exists rest kk,
    let ns := first_node :: group_node children keys 78 :: rest in
    r = (node_key <$> ns, kk) /\ wrote s s' ns /\ length ns = S (length kk) /\ Forall key_ok kk /\
    (78 * length ns <= length children + 77)%nat /\ ns_room k s').
Proof.
  intros Hl Hr. cbn [group_children]. rewrite (proj2 (Nat.ltb_lt _ _)) by lia.
  replace (Nat.min (0 + max_children) (length children)) with 78%nat by (change max_children with 78%nat; lia). cbv zeta.
  apply runs_bind. eapply runs_lift; [apply slice_chk_ok; unfold zlen; lia|].
  apply runs_bind. eapply runs_lift; [apply slice_chk_ok; unfold zlen; lia|].
  change (Internal {| in_keys := slice keys 0 (Z.of_nat 78 - 1); in_children := slice children (Z.of_nat 0) (Z.of_nat 78) |})
    with first_node. apply runs_bind.
  eapply runs_mono; [apply (store_runs (length children - 1 + k)); [by apply first_node_good|eapply ns_room_le; [|exact Hr]; lia]|].
  intros h s1 (-> & Hw1 & Hr1). apply runs_bind, runs_ret.
  set (rounds := length children) at 1. assert (Ef : rounds = S (length children - 1)) by (unfold rounds; lia).
  clearbody rounds. subst rounds. apply (group_round (length children - 2 + k)); [lia|done| |].
  { eapply ns_room_le; [|exact Hr1]. lia. }
  intros s2 key Hkey Hw2 Hr2. assert (Hst : (group_stop children 78 = Nat.min 156 (length children))%nat) by done.
  eapply runs_mono.
  - apply (group_rest k); [done|lia|lia|]. eapply ns_room_le; [|exact Hr2]. lia.
  - intros r s3 (ns & kk & -> & Hw3 & Hlk & Hkk & Hcnt & Hr3). exists ns, (key :: kk). cbv zeta.
    split_and!; [done| |simpl; lia|by constructor|cbn [length]; lia|done].
    apply (wrote_trans _ _ _ [first_node] _ Hw1). by apply (wrote_trans _ _ _ [_] _ Hw2).
Qed.
End Groups.

Lemma M_bind_err {A B} (c : M E A) (f : A -> M E B) s e s' : c s = Some (Err e, s') -> (c ≫= f) s = Some (Err e, s').
Proof. intros Hc. unfold mbind, M_bind. by rewrite Hc. Qed.

(** Listing stops at the first child that cannot be decoded. *)
Lemma list_unreadable m s b fuel root kk c1 c2 cs n1 lo hi es1 data e :
  ns_room m s -> (3 <= S fuel)%nat -> node_at (ns_view s) root (Internal {| in_keys := kk; in_children := c1 :: c2 :: cs |}) ->
  node_at (ns_view s) c1 n1 -> tree_at (ns_view s) 2 lo hi n1 es1 ->
  ns_view s !! c2 = Some (0, data) -> BTreeNode_deserialize data 32 0 = Err e ->
  btree_list 32 (S fuel) root b s = Some (Err e, s).
Proof.
  intros Hr Hf Hroot Hn1 Ht1 Hv Hdec. cbn [btree_list].
  rewrite (load_node m) with (node := Internal {| in_keys := kk; in_children := c1 :: c2 :: cs |}) by done.
  cbn [in_children list_children].
  rewrite (M_bind_ok _ _ _ _ _ (proj1 (list_runs m s b Hr) _ _ _ _ _ Ht1 fuel c1 Hn1 ltac:(lia))).
  apply M_bind_err, M_bind_err. destruct fuel as [|fuel]; [lia|]. cbn [btree_list].
  rewrite (M_bind_ok _ _ _ _ _ (load_ok m s b c2 _ _ Hr Hv)). apply M_bind_err. unfold lift. cbn [fst snd]. by rewrite Hdec.
Qed.

(** The levels above more than 78 leaves: a root over a good first node and a
    second one with as many keys as children. *)
Lemma build_many k s fuel children keys :
  Forall key_ok keys -> Forall (fun c => zlen c = 32) children -> length children = S (length keys) ->
  79 <= zlen children <= 6084 -> ns_room (length children + 1 + k) s ->
  runs (build_internal_level 32 Blake3_256 (S (S fuel)) children keys) s (fun root s' => exists rest kk,
    let root_node := Internal {| in_keys := kk; in_children := node_key <$> first_node children keys :: group_node children keys 78 :: rest |} in
    root = node_key root_node /\ node_good root_node /\
    wrote s s' (first_node children keys :: group_node children keys 78 :: rest ++ [root_node]) /\ ns_room k s').
Proof.
  intros Hk Hc Hlen Hl Hr. unfold zlen in Hl. remember (S fuel) as fuel1. cbn [build_internal_level].
  destruct children as [|c1 [|c2 cs]]; [simpl in Hl; lia..|]. apply runs_bind.
  eapply runs_mono; [apply (group_many _ _ Hk Hc Hlen (S k)); [lia|eapply ns_room_le; [|exact Hr]; lia]|].
  set (children := c1 :: c2 :: cs) in *. intros r s1 (rest & kk & -> & Hw1 & Hlk & Hkk & Hcnt & Hr1). cbv zeta in *.
  set (ns := first_node children keys :: group_node children keys 78 :: rest) in *.
  set (root_node := Internal {| in_keys := kk; in_children := node_key <$> ns |}).
  assert (Hg : node_good root_node).
  { apply internal_good; [done| |by rewrite length_fmap|].
    - apply Forall_fmap, Forall_forall. intros n _. apply zlen_node_key.
    - unfold zlen, BTREE_MAX_INTERNAL_KEYS. lia. }
  rewrite Heqfuel1. match goal with |- runs _ _ ?Q =>
    change (runs (build_internal_level 32 Blake3_256 (S fuel) (node_key <$> ns) kk) s1 Q) end.
  eapply runs_mono; [apply (build_one k s1 fuel (node_key <$> ns) kk)|].
  - rewrite length_fmap. unfold ns in *. cbn [length] in *. lia.
  - rewrite length_fmap. done.
  - exact Hg.
  - done.
  - intros root s2 (-> & Hw2 & Hr2). exists rest, kk. cbv zeta. split_and!; [done|done| |done].
    exact (wrote_trans _ _ _ _ _ Hw1 Hw2).
Qed.

(** Once its nodes are stored, such a tree cannot be listed. *)
Lemma many_unreadable m s b fuel children keys rest kk es :
  let ns := first_node children keys :: group_node children keys 78 :: rest in
  let root_node := Internal {| in_keys := kk; in_children := node_key <$> ns |} in
  Forall key_ok keys -> Forall (fun c => zlen c = 32) children -> length children = S (length keys) ->
  (79 <= length children)%nat -> (3 <= fuel)%nat -> ns_room m s -> kids (ns_view s) 1 None None keys children es ->
  node_good root_node -> has_nodes (ns_view s) (ns ++ [root_node]) ->
  exists off, btree_list 32 fuel (node_key root_node) b s
    = Some (Err (CorruptEntry off "Internal node data too short for child hash"), s).
Proof.
  intros ns root_node Hk Hc Hlen Hl Hf Hr Hkids Hg Hns.
  apply Forall_app in Hns as [Hns Hroot]. apply Forall_inv in Hroot.
  apply Forall_cons in Hns as [Hn1 Hns]. apply Forall_cons in Hns as [Hn2 _].
  destruct (group_node_shape children keys Hk Hc Hlen 78 ltac:(lia)) as (ks & cs & Eg & Hks & Hcs & Heq & Hle).
  destruct (short_node_unreadable ks cs Hks Hcs Heq Hle) as [off Hoff]. rewrite <- Eg in Hoff. exists off.
  destruct fuel as [|fuel]; [lia|]. destruct (lookup_lt_is_Some_2 keys 77) as [key Ekey]; [lia|].
  pose proof (kids_split_key (ns_view s) 1 None None (take 77 keys) key (drop 78 keys) (take 78 children) (drop 78 children) es) as Hsplit.
  rewrite take_drop_middle, take_drop in Hsplit by done.
  destruct (Hsplit Hkids) as (es1 & es2 & _ & Hk1 & _); [rewrite !length_take; lia|].
  eapply list_unreadable; [exact Hr|done| | | |exact Hn2|exact Hoff].
  - exact (written_node_at _ _ Hg Hroot).
  - apply (written_node_at _ (first_node children keys)); [by apply first_node_good|done].
  - constructor; [|exact Hk1]. unfold zlen, BTREE_MAX_INTERNAL_KEYS. rewrite length_take. lia.
Qed.

(** Building a tree from more than 3120 children (up to 243360) succeeds and
    returns a root whose tree cannot be listed: the second internal node was
    written with as many keys as children, and decoding it fails. *)
Theorem btree_from_entries_large_unreadable s fuel entries :
  NoDup (ce_name <$> entries) -> Forall (ChildEntry_wf 32) entries -> Forall entry_fits entries ->
  3120 < zlen entries <= 243360 -> ns_room (Z.to_nat 12169) s ->
  runs (btree_from_entries 32 Blake3_256 (S (S fuel)) entries) s (fun root s' =>
    no_collision (ns_log s') -> forall b fuel', (3 <= fuel')%nat -> exists off,
    btree_list 32 fuel' root b s'
    = Some (Err (CorruptEntry off "Internal node data too short for child hash"), s')).
Proof.
  intros Hnd Hwf Hfit Hlen Hr. assert (Hraw : Forall raw_ok entries) by (apply Forall_and; done).
  assert (Hne : entries <> []) by (intros ->; unfold zlen in Hlen; simpl in Hlen; lia).
  set (chunks := chunks_of 40 (sort_by_key ce_name entries)).
  assert (Hcnt : 79 <= Z.of_nat (length chunks) <= 6084).
  { pose proof (chunks_count entries) as Hc. cbv zeta in Hc. fold chunks in Hc. unfold zlen in Hlen. clear -Hc Hlen. lia. }
  apply (from_entries_leaves (length chunks + 1) s (S (S fuel)) entries); [done..| |].
  { fold chunks. eapply ns_room_le; [|exact Hr]. lia. }
  fold chunks. intros s1 Hw1 Hr1.
  assert (Hkids : forall view, has_nodes view (chunk_leaf <$> chunks) ->
    kids view 1 None None (chunk_key <$> tail chunks) (node_key ∘ chunk_leaf <$> chunks)
      (ChildEntry_norm <$> sort_by_key ce_name entries)) by (intros; by apply chunks_kids).
  destruct (chunks_level chunks) as (Hk & Hc & Hlc); [by apply chunks_ok|intros E1; rewrite E1 in Hcnt; simpl in Hcnt; lia|].
  assert (Hl2 : length (node_key ∘ chunk_leaf <$> chunks) = length chunks) by apply length_fmap.
  set (children := node_key ∘ chunk_leaf <$> chunks) in *. set (keys := chunk_key <$> tail chunks) in *.
  pose proof (build_many 0 s1 fuel children keys Hk Hc Hlc ltac:(unfold zlen; lia)) as Hb.
  rewrite Hl2, Nat.add_0_r in Hb. specialize (Hb Hr1).
  match goal with |- runs _ _ ?Q => enough (He : runs (build_internal_level 32 Blake3_256 (S (S fuel)) children keys) s1 Q) end.
  { clearbody children. destruct children as [|c1 [|c2 cs]]; [simpl in Hl2; lia..|exact He]. }
  eapply runs_mono; [exact Hb|]. intros root s2 (rest & kk & -> & Hg & Hw2 & Hr2) Hnc b fuel' Hf.
  destruct (wrote_view _ _ _ _ Hr (wrote_trans _ _ _ _ _ Hw1 Hw2) Hnc) as [_ [Hns1 Hns2]%Forall_app].
  by apply (many_unreadable 0 s2 b fuel' children keys rest kk _ Hk Hc Hlc ltac:(lia) Hf Hr2 (Hkids _ Hns1) Hg).
Qed.
End Build.
