(* ===== verification/BTreeMem.v ===== *)
(** A store of nodes in memory: the simplest engine that keeps the promises of
    [NodeStoreLaws], and the tree's theorems applied to it on a small directory. *)
From S2P Require Import Prelude Sorted Codec EntryFormat Records KvEntry StateM BTreeNode BTree BTreeSpec BTreeRefine BTreeInsert BTreeOps BTreeTop BTreeBuild.

Local Open Scope Z_scope.

Record MemStore := { mem_live : gmap bytes (Z * bytes); mem_log : list (bytes * (Z * bytes)) }.

Definition mem_write (w : bytes * (Z * bytes)) (s : MemStore) : MemStore :=
  {| mem_live := <[w.1 := w.2]> (mem_live s); mem_log := mem_log s ++ [w] |}.

#[export] Instance mem_nodes : NodeStore MemStore := {|
  ns_get_entry s h := Ok (mem_live s !! h);
  ns_get_entry_including_deleted s h := Ok (mem_live s !! h);
  ns_store_entry _ k v := modify (mem_write (k, (0, v))) ;; mret 0;
  ns_flush_batch b := for_each b (fun be => modify (mem_write (be_key be, (0, be_value be)))) ;; mret [];
|}.

Definition mem_ok (s : MemStore) : Prop := forall h x, mem_live s !! h = Some x -> (h, x) ∈ mem_log s.

Lemma mem_write_ok w s : mem_ok s -> mem_ok (mem_write w s).
Proof.
  destruct w as [k x]. intros Hok h y. simpl. rewrite elem_of_app.
  intros [[-> ->]|[Hne Hy]]%lookup_insert_Some; [right; by left|left; by apply Hok].
Qed.

Lemma mem_flush b : forall s, mem_ok s ->
  runs (for_each b (fun be => modify (mem_write (be_key be, (0, be_value be))))) s (fun _ s' => mem_ok s' /\
    mem_log s' = mem_log s ++ ((fun be => (be_key be, (0, be_value be))) <$> b) /\
    mem_live s' = apply_writes (mem_live s) ((fun be => (be_key be, (0, be_value be))) <$> b)).
Proof.
  induction b as [|be b IH]; intros s Hok; cbn [for_each].
  - apply runs_ret. by rewrite app_nil_r.
  - apply runs_bind. apply runs_modify. eapply runs_mono; [by apply IH, mem_write_ok|].
    intros _ s' (Hok' & HL & HV). rewrite HL, HV. simpl. by rewrite <- app_assoc.
Qed.

#[export] Instance mem_laws : NodeStoreLaws MemStore.
Proof.
  refine {| ns_view := mem_live; ns_log := mem_log; ns_room := fun _ => mem_ok |}.
  - by intros m n s _.
  - intros n s h x Hok. apply Hok.
  - done.
  - intros n s h x _ Hx. simpl. by rewrite Hx.
  - intros n s k v Hok _ _. apply runs_bind, runs_modify, runs_ret. split_and!; [by apply mem_write_ok|done|done].
  - intros n s b Hok _. apply runs_bind. eapply runs_mono; [by apply mem_flush|]. intros u s' Hs. by apply runs_ret.
Defined.

(** A digest that tells small inputs apart. *)
Definition digest (data : bytes) : bytes :=
  le_bytes 32 (foldl (fun a b => (a * 257 + b2z b + 1) mod 2^256) 0 data).

#[local] Instance blake3_digest : Blake3 := {| blake3 := digest; blake3_length data := length_le_bytes 32 _ |}.

(** A directory with two children, stored as one leaf. *)
Definition sample_dir : list ChildEntry := ChildEntry_norm <$> [sample_child (lit "a"); sample_child (lit "c")].
Definition sample_leaf : BTreeNode := Leaf {| ln_entries := sample_dir |}.
Definition sample_store : MemStore := mem_write (node_entry sample_leaf) {| mem_live := ∅; mem_log := [] |}.

Lemma sample_child_ok name : utf8_valid name = true -> zlen name <= u16_max ->
  ChildEntry_wf 32 (sample_child name) /\ entry_fits (sample_child name).
Proof. intros Hu Hl. split; [split; try done; by vm_compute|split; [done|by vm_compute]]. Qed.

Lemma sample_good : node_good sample_leaf.
Proof.
  split; [|by vm_compute]. constructor; [| |by vm_compute]; apply Forall_fmap; repeat constructor; by vm_compute.
Qed.

Lemma sample_sorted : StronglySorted by_name sample_dir.
Proof. repeat constructor; by vm_compute. Qed.

Lemma sample_directory : directory sample_store 1 (node_key sample_leaf) (dir_map sample_dir).
Proof.
  exists sample_dir. split; [|done]. apply written_holds; [exact sample_good| |].
  - constructor; [|constructor]. unfold sample_store. apply lookup_insert_eq.
  - change (node_norm sample_leaf) with sample_leaf. constructor. split; [exact sample_sorted| | |by vm_compute].
    + by apply Forall_forall.
    + apply Forall_fmap. repeat (apply Forall_cons; split); [..|constructor];
        (apply norm_child_ok; by apply sample_child_ok).
Qed.

Lemma sample_room n : ns_room n sample_store.
Proof. apply mem_write_ok. intros h x Hx. simpl in Hx. by rewrite lookup_empty in Hx. Qed.

Lemma btree_reads_map_witness :
  btree_lookup 32 1 (node_key sample_leaf) (lit "c") false sample_store
  = Some (Ok (dir_map sample_dir !! lit "c"), sample_store).
Proof.
  apply (btree_reads_map 0 sample_store 1 1 (node_key sample_leaf) (dir_map sample_dir) false
    (sample_room 0) ltac:(lia) sample_directory).
Defined.

Lemma btree_insert_refines_witness :
  runs (btree_insert 32 Blake3_256 1 (node_key sample_leaf) (sample_child (lit "b"))) sample_store
    (fun root' s' => ns_room 0 s' /\ (no_collision (ns_log s') ->
       directory s' 2 root' (<[lit "b" := ChildEntry_norm (sample_child (lit "b"))]> (dir_map sample_dir)) /\
       directory s' 1 (node_key sample_leaf) (dir_map sample_dir))).
Proof.
  apply (btree_insert_refines 0 sample_store 1 1 (node_key sample_leaf) (dir_map sample_dir) (sample_child (lit "b"))
    (sample_room _) ltac:(lia) (proj1 (sample_child_ok (lit "b") eq_refl ltac:(by vm_compute)))
    (proj2 (sample_child_ok (lit "b") eq_refl ltac:(by vm_compute))) sample_directory).
Defined.

Lemma btree_insert_batched_equiv_witness : exists root data view log,
    runs (btree_insert_with_data 32 Blake3_256 1 (node_data sample_leaf) (sample_child (lit "b"))) sample_store (fun r s' =>
      r = (root, data) /\ ns_view s' = view /\ ns_log s' = log /\ ns_room 0 s') /\
    runs (btree_insert_batched 32 Blake3_256 1 (node_data sample_leaf) (sample_child (lit "b"))) sample_store (fun r s' =>
      r = (root, data) /\ ns_view s' = view /\ ns_log s' = log /\ ns_room 0 s') /\
    (no_collision log -> view !! root = Some (0, data)).
Proof.
  apply (btree_insert_batched_equiv 0 sample_store 1 1 (node_data sample_leaf) sample_leaf (dir_map sample_dir)
    (sample_child (lit "b")) (sample_room _) ltac:(lia) (proj1 (sample_child_ok (lit "b") eq_refl ltac:(by vm_compute)))
    (proj2 (sample_child_ok (lit "b") eq_refl ltac:(by vm_compute)))).
  - vm_compute. reflexivity.
  - destruct sample_directory as (es & (node & (_ & data & Hv & Hd) & Ht) & Hm). exists es. split; [|exact Hm].
    unfold sample_store, node_entry in Hv. simpl in Hv. rewrite lookup_insert_eq in Hv. injection Hv as <-.
    assert (Hd' : BTreeNode_deserialize (node_data sample_leaf) 32 0 = Ok sample_leaf) by (vm_compute; reflexivity).
    rewrite Hd' in Hd. injection Hd as <-. exact Ht.
Defined.

Lemma btree_delete_refines_witness :
  runs (btree_delete 32 Blake3_256 1 (node_key sample_leaf) (lit "a")) sample_store (fun o s' => ns_room 0 s' /\
    (no_collision (ns_log s') ->
       match o with
       | None => delete (lit "a") (dir_map sample_dir) = ∅
       | Some root' => directory s' 1 root' (delete (lit "a") (dir_map sample_dir))
       end /\ directory s' 1 (node_key sample_leaf) (dir_map sample_dir))).
Proof.
  apply (btree_delete_refines 0 sample_store 1 1 (node_key sample_leaf) (dir_map sample_dir) (lit "a")
    (sample_room _) ltac:(lia) sample_directory).
Defined.

Lemma btree_from_entries_spec_witness :
  runs (btree_from_entries 32 Blake3_256 1 [sample_child (lit "b"); sample_child (lit "a")]) sample_store
    (fun root s' => ns_room 0 s' /\ (no_collision (ns_log s') ->
       directory s' 2 root (dir_map (ChildEntry_norm <$> [sample_child (lit "b"); sample_child (lit "a")])))).
Proof.
  apply (btree_from_entries_spec 0 sample_store 0 [sample_child (lit "b"); sample_child (lit "a")]).
  - by vm_compute; repeat constructor; set_solver.
  - repeat (apply Forall_cons; split); [..|constructor]; by apply sample_child_ok.
  - repeat (apply Forall_cons; split); [..|constructor]; by apply sample_child_ok.
  - by vm_compute.
  - apply sample_room.
Defined.

(** What the code does on it: the inserted child is found, the deleted one is not. *)
Example sample_insert_lookup :
  (root ← btree_insert 32 Blake3_256 1 (node_key sample_leaf) (sample_child (lit "b"));
   root ← btree_delete 32 Blake3_256 2 root (lit "a");
   b ← btree_lookup 32 2 (default [] root) (lit "b") false;
   a ← btree_lookup 32 2 (default [] root) (lit "a") false;
   mret (b, a)) sample_store
  ≫= (fun r => Some r.1) = Some (Ok (Some (ChildEntry_norm (sample_child (lit "b"))), None)).
Proof. vm_compute. reflexivity. Qed.
