(* ===== verification/KvSnapshot.v ===== *)
(** Read snapshots of the disk index (src/aeordb-lib/src/engine/kv_snapshot.rs):
    the write buffer, the bucket pages and cached counts at one moment, read
    without locks.  The theorems: a snapshot is a finite view in which the buffer
    shadows the pages; enumeration returns exactly its live entries; and the
    incremental count by type equals the length of the enumeration. *)
From S2P Require Import Prelude Codec EntryFormat KvEntry KvPages Converters Nvt.

Local Open Scope Z_scope.

(** The iteration order of a [HashMap] is not specified: it is some order of
    the map's content. *)
Class HashOrder := {
  hash_iter : gmap bytes KVEntry -> list (bytes * KVEntry);
  bucket_iter : gmap Z (list KVEntry) -> list (Z * list KVEntry);
  hash_iter_perm : forall m, hash_iter m ≡ₚ map_to_list m;
  bucket_iter_perm : forall m, bucket_iter m ≡ₚ map_to_list m;
}.

Record ReadSnapshot := {
  rs_buffer : gmap bytes KVEntry;
  rs_nvt : NormalizedVectorTable;
  rs_bucket_count : Z;
  rs_hash_algo : HashAlgorithm;
  rs_entry_count : Z;
  rs_pages : list bytes;
  rs_page_type_counts : list Z;
  rs_buffer_type_counts : list Z;
}.

Section Snapshot.
Context `{Crc32, ToScalar, HashOrder}.

(** A page that does not decode counts for nothing. *)
Fixpoint build_page_type_counts (pages : list bytes) (hash_length : Z) (counts : list Z) : res (list Z) :=
  match pages with
  | [] => Ok counts
  | page_data :: pages =>
    match live_type_counts_in_page page_data hash_length with
    | Ok page_counts => build_page_type_counts pages hash_length (zip_with Z.add counts page_counts)
    | Err _ => build_page_type_counts pages hash_length counts
    | Panic => Panic
    end
  end.

Definition build_buffer_type_counts (buffer : gmap bytes KVEntry) : list Z :=
  foldl (fun counts e => if is_deleted e then counts else bump counts (kv_entry_type e))
    (replicate 16 0) ((hash_iter buffer).*2).

Definition new_with_page_type_counts (buffer : gmap bytes KVEntry) (nvt : NormalizedVectorTable)
    (bucket_count : Z) (hash_algo : HashAlgorithm) (entry_count : Z) (pages : list bytes)
    (page_type_counts : list Z) : ReadSnapshot :=
  {| rs_buffer := buffer; rs_nvt := nvt; rs_bucket_count := bucket_count; rs_hash_algo := hash_algo;
     rs_entry_count := entry_count; rs_pages := pages; rs_page_type_counts := page_type_counts;
     rs_buffer_type_counts := build_buffer_type_counts buffer |}.

Definition ReadSnapshot_new (buffer : gmap bytes KVEntry) (nvt : NormalizedVectorTable)
    (bucket_count : Z) (hash_algo : HashAlgorithm) (entry_count : Z) (pages : list bytes) : res ReadSnapshot :=
  page_type_counts ← build_page_type_counts pages (hash_length hash_algo) (replicate 16 0);
  Ok (new_with_page_type_counts buffer nvt bucket_count hash_algo entry_count pages page_type_counts).

(** [find_entry_in_page_data(..).ok().flatten()] on the bucket's page. *)
Definition read_from_disk (sn : ReadSnapshot) (hash : bytes) (include_deleted : bool) : res (option KVEntry) :=
  let bucket_index := bucket_for_value (rs_nvt sn) hash in
  if (rs_bucket_count sn <=? bucket_index) || (zlen (rs_pages sn) <=? bucket_index) then Ok None else
  page_data ← index (rs_pages sn) bucket_index;
  match find_entry_in_page_data page_data (hash_length (rs_hash_algo sn)) hash include_deleted with
  | Ok o => Ok o
  | Err _ => Ok None
  | Panic => Panic
  end.

Definition snapshot_get (sn : ReadSnapshot) (hash : bytes) : res (option KVEntry) :=
  match rs_buffer sn !! hash with
  | Some entry => Ok (if is_deleted entry then None else Some entry)
  | None => read_from_disk sn hash false
  end.

Definition get_raw (sn : ReadSnapshot) (hash : bytes) : res (option KVEntry) :=
  match rs_buffer sn !! hash with
  | Some entry => Ok (Some entry)
  | None => read_from_disk sn hash true
  end.

(** [if let Ok(entries) = deserialize_page(..)] over all pages, keeping what
    [keep] accepts. *)
Fixpoint scan_pages (pages : list bytes) (hash_length : Z) (keep : KVEntry -> bool) : res (list KVEntry) :=
  match pages with
  | [] => Ok []
  | page_data :: pages =>
    match deserialize_page page_data hash_length with
    | Ok entries =>
      rest ← scan_pages pages hash_length keep;
      Ok (filter (fun e => keep e = true) entries ++ rest)
    | Err _ => scan_pages pages hash_length keep
    | Panic => Panic
    end
  end.

Definition iter_by_type (sn : ReadSnapshot) (target_type : Z) : res (list KVEntry) :=
  paged ← scan_pages (rs_pages sn) (hash_length (rs_hash_algo sn))
    (fun e => (kv_entry_type e =? target_type) && negb (is_deleted e)
              && bool_decide (rs_buffer sn !! kv_hash e = None));
  Ok (paged ++ filter (fun e => (kv_entry_type e =? target_type) && negb (is_deleted e) = true)
                 ((hash_iter (rs_buffer sn)).*2)).

Definition snapshot_iter_all (sn : ReadSnapshot) : res (list KVEntry) :=
  paged ← scan_pages (rs_pages sn) (hash_length (rs_hash_algo sn))
    (fun e => negb (is_deleted e) && bool_decide (rs_buffer sn !! kv_hash e = None));
  Ok (paged ++ filter (fun e => negb (is_deleted e) = true) ((hash_iter (rs_buffer sn)).*2)).

(** The loop of [count_by_type] over the buffer. *)
Fixpoint count_loop (sn : ReadSnapshot) (target_type : Z) (buffered : list (bytes * KVEntry)) (count : Z) : res Z :=
  match buffered with
  | [] => Ok count
  | (hash, entry) :: buffered =>
    on_page ← read_from_disk sn hash false;
    let count :=
      match on_page with
      | Some page_entry => if kv_entry_type page_entry =? target_type then saturating_sub count 1 else count
      | None => count
      end in
    let count := if negb (is_deleted entry) && (kv_entry_type entry =? target_type) then count + 1 else count in
    count_loop sn target_type buffered count
  end.

Definition count_by_type (sn : ReadSnapshot) (target_type : Z) : res Z :=
  let target_index := Z.land target_type 0x0F in
  count_loop sn target_type (hash_iter (rs_buffer sn)) (nth (Z.to_nat target_index) (rs_page_type_counts sn) 0).

Definition is_deleted_in_buffer (sn : ReadSnapshot) (hash : bytes) : bool :=
  match rs_buffer sn !! hash with Some e => is_deleted e | None => false end.

(** ** The view *)

(** The entries a page decodes to. *)
Definition page_entries (hl : Z) (page : bytes) : list KVEntry :=
  match deserialize_page page hl with Ok es => es | _ => [] end.

(** A page of bucket [b]: it decodes, no hash occurs twice, and every entry
    belongs to the bucket. *)
Record page_good (nvt : NormalizedVectorTable) (hl b : Z) (page : bytes) : Prop := {
  pg_decodes : deserialize_page page hl = Ok (page_entries hl page);
  pg_ok : page_ok (page_entries hl page);
  pg_wf : Forall (KVEntry_wf hl) (page_entries hl page);
  pg_bucket : Forall (fun e => bucket_for_value nvt (kv_hash e) = b) (page_entries hl page);
}.

Definition pages_good (nvt : NormalizedVectorTable) (hl : Z) (pages : list bytes) : Prop :=
  forall b page, pages !! b = Some page -> page_good nvt hl (Z.of_nat b) page.

(** The entry of a hash in the pages, tombstones included. *)
Definition pages_lookup (nvt : NormalizedVectorTable) (hl : Z) (pages : list bytes) (hash : bytes) : option KVEntry :=
  match pages !! Z.to_nat (bucket_for_value nvt hash) with
  | Some page => page_map (page_entries hl page) !! hash
  | None => None
  end.

(** The buffer shadows the pages. *)
Definition view (buffer : gmap bytes KVEntry) (nvt : NormalizedVectorTable) (hl : Z) (pages : list bytes)
    (hash : bytes) : option KVEntry :=
  match buffer !! hash with Some e => Some e | None => pages_lookup nvt hl pages hash end.

(** Tombstones are hidden from readers. *)
Definition live (o : option KVEntry) : option KVEntry :=
  match o with Some e => if is_deleted e then None else Some e | None => None end.

Definition buffer_ok (hl : Z) (buffer : gmap bytes KVEntry) : Prop :=
  forall h e, buffer !! h = Some e -> kv_hash e = h /\ KVEntry_wf hl e.

Record snapshot_ok (sn : ReadSnapshot) : Prop := {
  so_buffer : buffer_ok (hash_length (rs_hash_algo sn)) (rs_buffer sn);
  so_pages : pages_good (rs_nvt sn) (hash_length (rs_hash_algo sn)) (rs_pages sn);
  so_count : zlen (rs_pages sn) = rs_bucket_count sn;
  so_nvt : nvt_bucket_count (rs_nvt sn) = rs_bucket_count sn;
  so_pos : 0 < rs_bucket_count sn;
  so_types : build_page_type_counts (rs_pages sn) (hash_length (rs_hash_algo sn)) (replicate 16 0)
             = Ok (rs_page_type_counts sn);
}.

Definition snapshot_view (sn : ReadSnapshot) : bytes -> option KVEntry :=
  view (rs_buffer sn) (rs_nvt sn) (hash_length (rs_hash_algo sn)) (rs_pages sn).

Lemma hash_length_nonneg a : 0 <= hash_length a.
Proof. by destruct a. Qed.

Lemma nvt_bucket_range t h :
  0 < nvt_bucket_count t -> 0 <= bucket_for_value t h < nvt_bucket_count t.
Proof.
  intros Hn. unfold bucket_for_value, saturating_sub.
  pose proof (scaled_nonneg (nvt_converter t) h (nvt_bucket_count t)). lia.
Qed.

Lemma read_from_disk_spec sn h inc : snapshot_ok sn ->
  read_from_disk sn h inc =
    Ok (let o := pages_lookup (rs_nvt sn) (hash_length (rs_hash_algo sn)) (rs_pages sn) h in
        if inc then o else live o).
Proof.
  intros [_ Hp Hc Hn Hpos _]. unfold read_from_disk, pages_lookup. cbv zeta.
  pose proof (nvt_bucket_range (rs_nvt sn) h) as Hb. rewrite Hn in Hb. specialize (Hb Hpos).
  set (b := bucket_for_value (rs_nvt sn) h) in *.
  rewrite Hc, !(proj2 (Z.leb_gt _ _)) by lia. cbn [orb].
  destruct (lookup_lt_is_Some_2 (rs_pages sn) (Z.to_nat b)) as [page Hpage]; [unfold zlen in Hc; lia|].
  unfold index. rewrite (proj2 (Z.leb_le _ _)), (proj2 (Z.ltb_lt _ _)) by lia. cbn [andb].
  rewrite Hpage. cbn [mbind res_bind].
  rewrite find_entry_in_page_data_lookup by apply hash_length_nonneg.
  destruct (Hp _ _ Hpage) as [-> _ _ _]. cbn [mbind res_bind].
  rewrite lookup_in_page_map. f_equal. destruct (page_map _ !! h) as [e|]; [|by destruct inc].
  simpl. by destruct inc, (is_deleted e).
Qed.

Lemma snapshot_get_ok sn h : snapshot_ok sn -> snapshot_get sn h = Ok (live (snapshot_view sn h)).
Proof.
  intros Hok. unfold snapshot_get, snapshot_view, view. destruct (rs_buffer sn !! h); [done|].
  by rewrite read_from_disk_spec.
Qed.

Lemma get_raw_ok sn h : snapshot_ok sn -> get_raw sn h = Ok (snapshot_view sn h).
Proof.
  intros Hok. unfold get_raw, snapshot_view, view. destruct (rs_buffer sn !! h); [done|].
  by rewrite read_from_disk_spec.
Qed.

(** ** Enumeration *)

Definition all_entries (hl : Z) (pages : list bytes) : list KVEntry := concat (page_entries hl <$> pages).

Lemma scan_pages_ok nvt hl keep pages : pages_good nvt hl pages ->
  scan_pages pages hl keep = Ok (filter (fun e => keep e = true) (all_entries hl pages)).
Proof.
  unfold pages_good. intros Hg.
  assert (Hd : Forall (fun p => deserialize_page p hl = Ok (page_entries hl p)) pages).
  { apply Forall_lookup. intros i p Hp. apply (Hg _ _ Hp). }
  clear Hg. induction Hd as [|p pages Hp Hd IH]; [done|]. cbn [scan_pages].
  rewrite Hp, IH. unfold all_entries. cbn [fmap list_fmap concat mbind res_bind]. by rewrite filter_app.
Qed.

Lemma all_entries_elem hl pages e :
  e ∈ all_entries hl pages <-> exists b page, pages !! b = Some page /\ e ∈ page_entries hl page.
Proof.
  unfold all_entries. induction pages as [|p pages IH]; cbn [fmap list_fmap concat].
  - split; [intros []%elem_of_nil|intros ([] & ? & [=] & _)].
  - rewrite elem_of_app, IH. split.
    + intros [He|(b & page & Hb & He)]; [by exists 0%nat, p|by exists (S b), page].
    + intros ([|b] & page & Hb & He); [left; by simplify_eq/=|right; by exists b, page].
Qed.

Lemma page_map_elem es e : NoDup (kv_hash <$> es) -> e ∈ es <-> page_map es !! kv_hash e = Some e.
Proof.
  intros Hnd. unfold page_map. rewrite <- elem_of_list_to_map.
  - rewrite list_elem_of_fmap. split; [intros He; by exists e|]. by intros (e' & [= Heq <-] & He).
  - by rewrite <- list_fmap_compose.
Qed.

Lemma all_entries_nodup_from nvt hl pages : forall k,
  (forall b page, pages !! b = Some page -> page_good nvt hl (Z.of_nat (k + b)) page) ->
  NoDup (kv_hash <$> all_entries hl pages).
Proof.
  induction pages as [|p pages IH]; intros k Hg; [constructor|].
  unfold all_entries. cbn [fmap list_fmap concat]. rewrite fmap_app. apply NoDup_app.
  pose proof (Hg 0%nat p eq_refl) as [_ [Hnd _] _ Hb]. split; [done|]. split.
  - intros h (e & -> & He)%list_elem_of_fmap (e' & Heq & He')%list_elem_of_fmap.
    apply all_entries_elem in He' as (b & page & Hpage & He').
    destruct (Hg (S b) page Hpage) as [_ _ _ Hb'].
    rewrite Forall_forall in Hb, Hb'. specialize (Hb _ He). specialize (Hb' _ He'). rewrite <- Heq in Hb'. lia.
  - apply (IH (S k)). intros b page Hpage. replace (S k + b)%nat with (k + S b)%nat by lia. by apply Hg.
Qed.

Lemma all_entries_nodup nvt hl pages : pages_good nvt hl pages -> NoDup (kv_hash <$> all_entries hl pages).
Proof. intros Hg. by apply (all_entries_nodup_from nvt hl pages 0). Qed.

Lemma all_entries_lookup nvt hl pages e : pages_good nvt hl pages ->
  e ∈ all_entries hl pages <-> pages_lookup nvt hl pages (kv_hash e) = Some e.
Proof.
  intros Hg. rewrite all_entries_elem. unfold pages_lookup. split.
  - intros (b & page & Hp & He). destruct (Hg _ _ Hp) as [_ [Hnd _] _ Hb].
    rewrite Forall_forall in Hb. rewrite (Hb _ He), Nat2Z.id, Hp. by apply page_map_elem.
  - destruct (pages !! _) as [page|] eqn:Hp; [|done]. intros He.
    destruct (Hg _ _ Hp) as [_ [Hnd _] _ _]. exists (Z.to_nat (bucket_for_value nvt (kv_hash e))), page.
    split; [done|]. by apply page_map_elem.
Qed.

Lemma pages_lookup_hash nvt hl pages h e :
  pages_good nvt hl pages -> pages_lookup nvt hl pages h = Some e -> kv_hash e = h /\ KVEntry_wf hl e.
Proof.
  intros Hg. unfold pages_lookup. destruct (pages !! _) as [page|] eqn:Hp; [|done].
  destruct (Hg _ _ Hp) as [_ [Hnd _] Hwf _]. rewrite page_map_lookup.
  destruct (list_find _ _) as [[i e']|] eqn:E; [|done]. intros [= <-].
  apply list_find_Some in E as (Hi & Hh & _). split; [done|]. by eapply Forall_lookup_1.
Qed.

(** The buffered entries in iteration order. *)
Lemma buffer_values_elem hl buffer e : buffer_ok hl buffer ->
  e ∈ (hash_iter buffer).*2 <-> buffer !! kv_hash e = Some e.
Proof.
  intros Hb. rewrite (hash_iter_perm buffer). rewrite list_elem_of_fmap. split.
  - intros ([h e'] & -> & He). apply elem_of_map_to_list in He. simpl. by destruct (Hb _ _ He) as [-> _].
  - intros He. exists (kv_hash e, e). split; [done|]. by apply elem_of_map_to_list.
Qed.

Lemma buffer_values_hashes hl buffer : buffer_ok hl buffer ->
  kv_hash <$> (hash_iter buffer).*2 = (hash_iter buffer).*1.
Proof.
  intros Hb. assert (Hf : Forall (fun he => kv_hash he.2 = he.1) (hash_iter buffer)).
  { rewrite (hash_iter_perm buffer). apply Forall_forall. intros [h e] He.
    apply elem_of_map_to_list in He. by destruct (Hb _ _ He). }
  induction Hf as [|[h e] l Hhe Hf IH]; [done|]. cbn. simpl in Hhe. by rewrite Hhe, IH.
Qed.

Lemma hash_iter_nodup buffer : NoDup ((hash_iter buffer).*1).
Proof. rewrite (hash_iter_perm buffer). apply NoDup_fst_map_to_list. Qed.

Lemma NoDup_hash_filter (P : KVEntry -> Prop) `{!forall e, Decision (P e)} l :
  NoDup (kv_hash <$> l) -> NoDup (kv_hash <$> filter P l).
Proof.
  induction l as [|e l IH]; [done|]. cbn [fmap list_fmap]. intros [He Hl]%NoDup_cons.
  rewrite filter_cons. case_decide; [|by apply IH]. cbn [fmap list_fmap]. apply NoDup_cons.
  split; [|by apply IH]. intros (e' & Heq & [_ He']%list_elem_of_filter)%list_elem_of_fmap.
  apply He. apply list_elem_of_fmap. eauto.
Qed.

(** The live entries satisfying [p], pages first, as both iterators list them. *)
Lemma enumeration sn (p : KVEntry -> bool) : snapshot_ok sn ->
  let keep e := p e && negb (is_deleted e) in
  let l := filter (fun e => keep e && bool_decide (rs_buffer sn !! kv_hash e = None) = true)
             (all_entries (hash_length (rs_hash_algo sn)) (rs_pages sn))
           ++ filter (fun e => keep e = true) ((hash_iter (rs_buffer sn)).*2) in
  NoDup (kv_hash <$> l) /\
  forall e, e ∈ l <-> live (snapshot_view sn (kv_hash e)) = Some e /\ p e = true.
Proof.
  intros [Hb Hp _ _ _ _]. cbv zeta. split.
  - rewrite fmap_app. apply NoDup_app. split; [by apply NoDup_hash_filter, (all_entries_nodup _ _ _ Hp)|].
    split.
    + intros h (e & -> & [Hk _]%list_elem_of_filter)%list_elem_of_fmap
        (e' & Heq & [_ He']%list_elem_of_filter)%list_elem_of_fmap.
      apply andb_true_iff in Hk as [_ Hn%bool_decide_eq_true].
      apply (buffer_values_elem _ _ _ Hb) in He'. congruence.
    + apply NoDup_hash_filter. rewrite (buffer_values_hashes _ _ Hb). apply hash_iter_nodup.
  - intros e. rewrite elem_of_app, !list_elem_of_filter, (all_entries_lookup _ _ _ _ Hp),
      (buffer_values_elem _ _ _ Hb), !andb_true_iff, bool_decide_eq_true, negb_true_iff.
    unfold snapshot_view, view. destruct (rs_buffer sn !! kv_hash e) as [e'|] eqn:E.
    + simpl. destruct (is_deleted e') eqn:D; intuition congruence.
    + unfold live. destruct (pages_lookup _ _ _ _) as [e'|]; [|intuition congruence].
      destruct (is_deleted e') eqn:D; intuition congruence.
Qed.

(** ** Counting *)

Lemma length_bump c i : length (bump c i) = length c.
Proof. apply length_alter. Qed.

Lemma bump_nth c i t : 0 <= i -> (Z.to_nat i < length c)%nat -> 0 <= t ->
  nth (Z.to_nat t) (bump c i) 0 = nth (Z.to_nat t) c 0 + if i =? t then 1 else 0.
Proof.
  intros Hi Hlt Ht. unfold bump. rewrite !nth_lookup. destruct (Z.eqb_spec i t) as [->|Hne].
  - destruct (lookup_lt_is_Some_2 c (Z.to_nat t) Hlt) as [x Hx].
    rewrite list_lookup_alter_eq, Hx. simpl. lia.
  - rewrite list_lookup_alter_ne by lia. lia.
Qed.

Lemma kv_entry_type_range e : 0 <= kv_entry_type e < 16.
Proof.
  unfold kv_entry_type. change 0x0F with (Z.ones 4). rewrite Z.land_ones by lia.
  apply Z.mod_pos_bound. lia.
Qed.

Definition live_type (t : Z) (e : KVEntry) : bool := (kv_entry_type e =? t) && negb (is_deleted e).

Lemma count_live_nth t es : 0 <= t < 16 -> forall c, length c = 16%nat ->
  length (count_live c es) = 16%nat /\
  nth (Z.to_nat t) (count_live c es) 0
    = nth (Z.to_nat t) c 0 + zlen (filter (fun e => live_type t e = true) es).
Proof.
  intros Ht. induction es as [|e es IH]; intros c Hc; [split; [done|]; change (zlen (filter _ [])) with 0; unfold count_live; cbn [foldl]; lia|].
  unfold count_live in *. cbn [foldl]. pose proof (kv_entry_type_range e) as Hr.
  rewrite filter_cons. destruct (is_deleted e) eqn:D.
  - destruct (IH c Hc) as [? ->]. split; [done|].
    rewrite decide_False by (unfold live_type; by rewrite D, andb_false_r). lia.
  - destruct (IH (bump c (kv_entry_type e))) as [Hl ->]; [by rewrite length_bump|].
    split; [done|]. rewrite bump_nth by lia. destruct (Z.eqb_spec (kv_entry_type e) t) as [E|E].
    + rewrite decide_True by (unfold live_type; by rewrite D, E, Z.eqb_refl). rewrite zlen_cons. lia.
    + rewrite decide_False by (unfold live_type; by rewrite (proj2 (Z.eqb_neq _ _) E)). lia.
Qed.

Lemma page_type_counts_nth nvt hl t pages : 0 <= hl -> 0 <= t < 16 -> pages_good nvt hl pages ->
  forall c, length c = 16%nat -> exists c', build_page_type_counts pages hl c = Ok c' /\ length c' = 16%nat /\
    nth (Z.to_nat t) c' 0 = nth (Z.to_nat t) c 0
      + zlen (filter (fun e => live_type t e = true) (all_entries hl pages)).
Proof.
  intros Hhl Ht Hg. assert (Hd : Forall (fun p => deserialize_page p hl = Ok (page_entries hl p)) pages).
  { apply Forall_lookup. intros i p Hp. apply (Hg _ _ Hp). }
  clear Hg. induction Hd as [|p pages Hp Hd IH]; intros c Hc.
  - exists c. split; [done|]. split; [done|]. unfold all_entries. change (zlen (filter _ _)) with 0. lia.
  - cbn [build_page_type_counts]. rewrite live_type_counts_equiv, Hp by done. cbn [mbind res_bind].
    destruct (count_live_nth t (page_entries hl p) Ht (replicate 16 0) eq_refl) as [Hl Hn].
    destruct (IH (zip_with Z.add c (count_live (replicate 16 0) (page_entries hl p)))) as (c' & E & Hl' & Hn').
    { rewrite length_zip_with. lia. }
    exists c'. split; [done|]. split; [done|]. rewrite Hn'. unfold all_entries. cbn [fmap list_fmap concat].
    rewrite filter_app, zlen_app. fold (all_entries hl pages).
    assert (Ez : nth (Z.to_nat t) (zip_with Z.add c (count_live (replicate 16 0) (page_entries hl p))) 0
      = nth (Z.to_nat t) c 0 + nth (Z.to_nat t) (count_live (replicate 16 0) (page_entries hl p)) 0).
    { rewrite !nth_lookup, lookup_zip_with.
      destruct (lookup_lt_is_Some_2 c (Z.to_nat t)) as [x ->]; [lia|].
      destruct (lookup_lt_is_Some_2 (count_live (replicate 16 0) (page_entries hl p)) (Z.to_nat t)) as [y ->]; [lia|]. done. }
    assert (E0 : nth (Z.to_nat t) (replicate 16 0) 0 = 0)
      by (rewrite nth_lookup, lookup_replicate_2 by lia; done).
    rewrite Ez, Hn, E0. lia.
Qed.

(** What the loop over the buffer takes off and puts on. *)
Definition shadowed (sn : ReadSnapshot) (t : Z) (h : bytes) : Prop :=
  match live (pages_lookup (rs_nvt sn) (hash_length (rs_hash_algo sn)) (rs_pages sn) h) with
  | Some e => kv_entry_type e = t
  | None => False
  end.

#[local] Instance shadowed_dec sn t h : Decision (shadowed sn t h).
Proof. unfold shadowed. destruct (live _); apply _. Defined.

Lemma count_loop_spec sn t : snapshot_ok sn -> forall l count,
  zlen (filter (shadowed sn t) l.*1) <= count ->
  count_loop sn t l count
    = Ok (count - zlen (filter (shadowed sn t) l.*1) + zlen (filter (fun e => live_type t e = true) l.*2)).
Proof.
  intros Hok. induction l as [|[h e] l IH]; intros count Hc.
  - change (zlen (filter _ _)) with 0. cbn [count_loop]. f_equal.
    change (zlen (filter (fun e => live_type t e = true) (@nil (bytes * KVEntry)).*2)) with 0. lia.
  - cbn [count_loop]. rewrite read_from_disk_spec by done. cbn [mbind res_bind]. cbv zeta.
    cbn [fmap list_fmap fst snd] in *. rewrite !filter_cons in *.
    set (o := live _). assert (Hs : shadowed sn t h <-> exists e', o = Some e' /\ kv_entry_type e' = t).
    { unfold shadowed. fold o. destruct o; naive_solver. }
    set (c1 := match o with Some pe => if kv_entry_type pe =? t then saturating_sub count 1 else count | None => count end).
    assert (Hc1 : c1 = count - if decide (shadowed sn t h) then 1 else 0).
    { unfold c1. case_decide as Hd.
      - apply Hs in Hd as (e' & -> & ->). rewrite Z.eqb_refl. rewrite zlen_cons in Hc. unfold saturating_sub.
        pose proof (zlen_nonneg (filter (shadowed sn t) l.*1)). lia.
      - destruct o as [e'|]; [|lia]. destruct (Z.eqb_spec (kv_entry_type e') t); [|lia].
        exfalso. apply Hd, Hs. eauto. }
    rewrite IH.
    + f_equal. rewrite Hc1. rewrite (andb_comm (negb _)).
      destruct (decide (shadowed sn t h)), (decide (live_type t e = true)) as [Hl|Hl]; unfold live_type in Hl;
        rewrite ?zlen_cons; destruct ((kv_entry_type e =? t) && negb (is_deleted e)); try done; lia.
    + assert (zlen (filter (shadowed sn t) l.*1) <= c1)
        by (rewrite Hc1; destruct (decide (shadowed sn t h)); rewrite ?zlen_cons in Hc; lia).
      destruct (_ && _); lia.
Qed.

Lemma zlen_perm {A} (l k : list A) : l ≡ₚ k -> zlen l = zlen k.
Proof. intros Hp. unfold zlen. by rewrite Hp. Qed.

Lemma filter_split {A} (P Q : A -> bool) (l : list A) :
  zlen (filter (fun x => P x = true) l)
    = zlen (filter (fun x => P x && Q x = true) l) + zlen (filter (fun x => P x && negb (Q x) = true) l).
Proof.
  induction l as [|x l IH]; [done|]. rewrite !filter_cons.
  destruct (decide (P x = true)) as [HP|HP], (decide (P x && Q x = true)) as [HQ|HQ],
    (decide (P x && negb (Q x) = true)) as [HR|HR]; rewrite ?zlen_cons; destruct (P x), (Q x); try done; lia.
Qed.

(** The page entries of a type that the buffer shadows are as many as the
    buffered hashes the loop takes off. *)
Lemma shadowed_count sn t : snapshot_ok sn ->
  zlen (filter (fun e => live_type t e && negb (bool_decide (rs_buffer sn !! kv_hash e = None)) = true)
          (all_entries (hash_length (rs_hash_algo sn)) (rs_pages sn)))
  = zlen (filter (shadowed sn t) (hash_iter (rs_buffer sn)).*1).
Proof.
  intros [Hb Hp _ _ _ _]. set (l := filter _ (all_entries _ _)).
  assert (E : zlen l = zlen (kv_hash <$> l)) by (unfold zlen; by rewrite length_fmap). rewrite E.
  apply zlen_perm, NoDup_Permutation.
  - by apply NoDup_hash_filter, (all_entries_nodup _ _ _ Hp).
  - apply NoDup_filter, hash_iter_nodup.
  - intros h. rewrite list_elem_of_fmap, list_elem_of_filter, (hash_iter_perm (rs_buffer sn)), list_elem_of_fmap.
    unfold shadowed. split.
    + intros (e & -> & [Hk He]%list_elem_of_filter). apply andb_true_iff in Hk as [Hk Hn].
      apply (all_entries_lookup _ _ _ _ Hp) in He. rewrite He. unfold live_type in Hk.
      apply andb_true_iff in Hk as [Ht%Z.eqb_eq Hd%negb_true_iff]. simpl. rewrite Hd. split; [done|].
      apply negb_true_iff, bool_decide_eq_false in Hn.
      destruct (rs_buffer sn !! kv_hash e) as [e'|] eqn:Eb; [|done]. exists (kv_hash e, e').
      split; [done|]. by apply elem_of_map_to_list.
    + intros [Hs ([h' e'] & -> & He'%elem_of_map_to_list)]. simpl in *.
      destruct (pages_lookup _ _ _ h') as [e|] eqn:El; [|done]. simpl in Hs.
      destruct (is_deleted e) eqn:D; [done|]. destruct (pages_lookup_hash _ _ _ _ _ Hp El) as [<- _].
      exists e. split; [done|]. apply list_elem_of_filter. split; [|by apply (all_entries_lookup _ _ _ _ Hp)].
      unfold live_type. by rewrite (proj2 (Z.eqb_eq _ _) Hs), D, bool_decide_eq_false_2 by (by rewrite He').
Qed.

(** ** Theorems *)

Lemma iter_by_type_ok sn t : snapshot_ok sn -> exists l, iter_by_type sn t = Ok l /\ NoDup (kv_hash <$> l) /\
  forall e, e ∈ l <-> live (snapshot_view sn (kv_hash e)) = Some e /\ kv_entry_type e = t.
Proof.
  intros Hok. destruct (enumeration sn (fun e => kv_entry_type e =? t) Hok) as [Hnd Hel].
  eexists. split; [unfold iter_by_type; rewrite (scan_pages_ok _ _ _ _ (so_pages _ Hok)); reflexivity|].
  split; [exact Hnd|]. intros e. etransitivity; [apply Hel|]. by rewrite Z.eqb_eq.
Qed.

Lemma snapshot_iter_all_ok sn : snapshot_ok sn -> exists l, snapshot_iter_all sn = Ok l /\ NoDup (kv_hash <$> l) /\
  forall e, e ∈ l <-> live (snapshot_view sn (kv_hash e)) = Some e.
Proof.
  intros Hok. destruct (enumeration sn (fun _ => true) Hok) as [Hnd Hel]. cbn [andb] in Hnd, Hel.
  eexists. split; [unfold snapshot_iter_all; rewrite (scan_pages_ok _ _ _ _ (so_pages _ Hok)); reflexivity|].
  split; [exact Hnd|]. intros e. etransitivity; [apply Hel|]. split; [by intros [-> _]|done].
Qed.

(** A snapshot answers from one view: [get_raw] returns what the view holds for a
    hash, [get] hides tombstones, and [iter_all] lists, each once, exactly the
    entries that [get] returns. *)
Theorem snapshot_view_spec sn : snapshot_ok sn ->
  (forall h, get_raw sn h = Ok (snapshot_view sn h) /\ snapshot_get sn h = Ok (live (snapshot_view sn h))) /\
  exists l, snapshot_iter_all sn = Ok l /\ NoDup (kv_hash <$> l) /\
    forall e, e ∈ l <-> snapshot_get sn (kv_hash e) = Ok (Some e).
Proof.
  intros Hok. split; [intros h; split; [by apply get_raw_ok|by apply snapshot_get_ok]|].
  destruct (snapshot_iter_all_ok sn Hok) as (l & El & Hnd & Hel). exists l. split; [done|]. split; [done|].
  intros e. rewrite snapshot_get_ok by done. rewrite Hel. split; [by intros ->|by intros [=]].
Qed.

(** Counting without cloning: for each of the sixteen types [count_by_type],
    which corrects the cached page counts by the buffer, returns the number of
    entries [iter_by_type] lists, and those are exactly the readable entries of
    that type. *)
Theorem count_by_type_equiv sn t : snapshot_ok sn -> 0 <= t < 16 ->
  exists l, iter_by_type sn t = Ok l /\ count_by_type sn t = Ok (zlen l) /\ NoDup (kv_hash <$> l) /\
    forall e, e ∈ l <-> snapshot_get sn (kv_hash e) = Ok (Some e) /\ kv_entry_type e = t.
Proof.
  intros Hok Ht. destruct (enumeration sn (fun e => kv_entry_type e =? t) Hok) as [Hnd Hel].
  eexists. split; [unfold iter_by_type; rewrite (scan_pages_ok _ _ _ _ (so_pages _ Hok)); reflexivity|].
  split; [|split; [exact Hnd|]].
  - destruct (page_type_counts_nth (rs_nvt sn) (hash_length (rs_hash_algo sn)) t (rs_pages sn)
      (hash_length_nonneg _) Ht (so_pages _ Hok) (replicate 16 0) eq_refl) as (c & Ec & _ & Hn).
    rewrite (so_types _ Hok) in Ec. apply Ok_inj in Ec. subst c.
    unfold count_by_type. cbv zeta. change 0x0F with (Z.ones 4). rewrite Z.land_ones, Z.mod_small by lia.
    assert (E0 : nth (Z.to_nat t) (replicate 16 0) 0 = 0) by (rewrite nth_lookup, lookup_replicate_2 by lia; done).
    rewrite Hn, E0, (filter_split (live_type t) (fun e => bool_decide (rs_buffer sn !! kv_hash e = None))).
    pose proof (zlen_nonneg (filter (fun e => live_type t e && bool_decide (rs_buffer sn !! kv_hash e = None) = true)
      (all_entries (hash_length (rs_hash_algo sn)) (rs_pages sn)))).
    rewrite (shadowed_count sn t Hok). rewrite count_loop_spec by (done || lia). f_equal. rewrite zlen_app.
    unfold live_type. lia.
  - intros e. rewrite snapshot_get_ok by done. etransitivity; [apply Hel|]. rewrite Z.eqb_eq.
    split; [intros [-> ?]; done|intros [[=] ?]; done].
Qed.
End Snapshot.

(** ** Witnesses *)

Definition map_order : HashOrder :=
  {| hash_iter := map_to_list; bucket_iter := map_to_list;
     hash_iter_perm := fun _ => reflexivity _; bucket_iter_perm := fun _ => reflexivity _ |}.

(** One bucket with two entries, the second shadowed by a tombstone. *)
Definition tombstone : KVEntry :=
  {| kv_type_flags := Byte.x21; kv_hash := replicate 32 Byte.x02; kv_offset := 640; kv_total_length := 99 |}.

Definition sample_snapshot : ReadSnapshot :=
  {| rs_buffer := {[replicate 32 Byte.x02 := tombstone]}; rs_nvt := NVT_new HashConverter 1;
     rs_bucket_count := 1; rs_hash_algo := Blake3_256; rs_entry_count := 1; rs_pages := [sample_page];
     rs_page_type_counts := 0 :: 2 :: replicate 14 0; rs_buffer_type_counts := replicate 16 0 |}.

Lemma sample_page_entries :
  @page_entries crc32_ieee 32 sample_page = [sample_kv Byte.x01 512; sample_kv Byte.x02 640].
Proof. vm_compute. reflexivity. Qed.

Lemma sample_page_good :
  @page_good crc32_ieee hash_to_scalar (NVT_new HashConverter 1) 32 0 sample_page.
Proof.
  constructor; rewrite ?sample_page_entries.
  - vm_compute. reflexivity.
  - split; [|vm_compute; congruence]. apply (bool_decide_unpack _). vm_compute. exact I.
  - repeat constructor; concrete.
  - repeat constructor; vm_compute; reflexivity.
Qed.

Lemma sample_snapshot_ok : @snapshot_ok crc32_ieee hash_to_scalar sample_snapshot.
Proof.
  constructor; cbn [rs_buffer rs_nvt rs_bucket_count rs_hash_algo rs_pages rs_page_type_counts sample_snapshot].
  - intros h e [<- <-]%lookup_singleton_Some. split; [reflexivity|]. constructor; concrete.
  - intros [|b] page; [|done]. intros [= <-]. exact sample_page_good.
  - reflexivity.
  - reflexivity.
  - lia.
  - vm_compute. reflexivity.
Qed.

Lemma snapshot_view_spec_witness :
  @snapshot_get crc32_ieee hash_to_scalar sample_snapshot (replicate 32 Byte.x02) = Ok None /\
  exists l, @snapshot_iter_all crc32_ieee map_order sample_snapshot = Ok l /\ NoDup (kv_hash <$> l) /\
    forall e, e ∈ l <-> @snapshot_get crc32_ieee hash_to_scalar sample_snapshot (kv_hash e) = Ok (Some e).
Proof.
  destruct (@snapshot_view_spec crc32_ieee hash_to_scalar map_order sample_snapshot sample_snapshot_ok) as [H1 H2].
  split; [|exact H2]. destruct (H1 (replicate 32 Byte.x02)) as [_ ->]. vm_compute. reflexivity.
Defined.

Lemma count_by_type_equiv_witness :
  exists l, @iter_by_type crc32_ieee map_order sample_snapshot 1 = Ok l /\
    @count_by_type crc32_ieee hash_to_scalar map_order sample_snapshot 1 = Ok (zlen l) /\ NoDup (kv_hash <$> l) /\
    forall e, e ∈ l <->
      @snapshot_get crc32_ieee hash_to_scalar sample_snapshot (kv_hash e) = Ok (Some e) /\ kv_entry_type e = 1.
Proof.
  exact (@count_by_type_equiv crc32_ieee hash_to_scalar map_order sample_snapshot 1 sample_snapshot_ok ltac:(lia)).
Defined.
