(* ===== verification/VoidRanges.v ===== *)
(** Reclaimed ranges (src/aeordb-lib/src/engine/disk_kv_store.rs,
    [build_merged_void_ranges] and [entry_overlaps_void_ranges]): on opening, index
    entries that point into space the garbage collector gave back are masked.
    The theorem: searching the sorted, merged ranges finds an overlap exactly
    when some reclaimed range overlaps the entry. *)
From S2P Require Import Prelude Codec EntryFormat KvEntry KvPages FileIo HotTail.

Local Open Scope Z_scope.

Abbreviation range := (Z * Z)%type.

(** The [filter_map]: empty and overflowing voids are dropped. *)
Definition void_range (void : VoidRecord) : option range :=
  if vr_size void =? 0 then None
  else if u64_max <? vr_offset void + vr_size void then None
  else
    let stop := vr_offset void + vr_size void in
    if stop <=? vr_offset void then None else Some (vr_offset void, stop).

(** [sort_unstable_by_key(|(start, end)| (start, end))]. *)
Definition range_le (a b : range) : Prop := a.1 < b.1 \/ (a.1 = b.1 /\ a.2 <= b.2).

#[export] Instance range_le_dec : RelDecision range_le.
Proof. intros a b. unfold range_le. apply _. Defined.

(** One round of the merging loop; the last merged range is [merged.last_mut()]. *)
Definition merge_range (merged : list range) (r : range) : list range :=
  match last merged with
  | Some (s, e) => if r.1 <=? e then removelast merged ++ [(s, Z.max e r.2)] else merged ++ [r]
  | None => merged ++ [r]
  end.

Definition build_merged_void_ranges (voids : list VoidRecord) : list range :=
  let ranges := merge_sort range_le (omap void_range voids) in
  fold_left merge_range ranges [].

(** [partition_point]: the length of the prefix that satisfies the predicate. *)
Fixpoint partition_point (p : range -> bool) (l : list range) : nat :=
  match l with
  | [] => 0
  | r :: l => if p r then S (partition_point p l) else 0
  end.

Definition entry_overlaps_void_ranges (entry_start entry_end : Z) (void_ranges : list range) : bool :=
  if (entry_end <=? entry_start) || bool_decide (void_ranges = []) then false else
  let idx := partition_point (fun r => r.2 <=? entry_start) void_ranges in
  match void_ranges !! idx with
  | Some r => r.1 <? entry_end
  | None => false
  end.

(** ** The bytes a list of ranges covers *)

Definition covers (l : list range) (x : Z) : Prop := exists r, r ∈ l /\ r.1 <= x < r.2.

(** Ranges that are non-empty, in order and do not touch. *)
Inductive separated : list range -> Prop :=
| sep_nil : separated []
| sep_one r : r.1 < r.2 -> separated [r]
| sep_cons r r' l : r.1 < r.2 -> r.2 < r'.1 -> separated (r' :: l) -> separated (r :: r' :: l).

Lemma covers_app l k x : covers (l ++ k) x <-> covers l x \/ covers k x.
Proof. unfold covers. setoid_rewrite elem_of_app. naive_solver. Qed.

Lemma covers_single r x : covers [r] x <-> r.1 <= x < r.2.
Proof. unfold covers. setoid_rewrite list_elem_of_singleton. naive_solver. Qed.

Lemma separated_snoc l r r' :
  separated (l ++ [r]) -> r.1 < r'.1 \/ True -> r'.1 < r'.2 -> r.2 < r'.1 -> separated ((l ++ [r]) ++ [r']).
Proof.
  intros Hs _ Hr Hlt. induction l as [|a l IH]; cbn in *.
  - inversion Hs; subst. by repeat constructor.
  - destruct l as [|b l]; cbn in *; inversion Hs; subst; constructor; auto.
Qed.

Lemma separated_last l s e e' : separated (l ++ [(s, e)]) -> e <= e' -> separated (l ++ [(s, e')]).
Proof.
  intros Hs Hle. induction l as [|a l IH]; cbn in *.
  - inversion Hs; subst. constructor. cbn in *. lia.
  - destruct l as [|b l]; cbn in *; inversion Hs as [| |???? ?? Hs']; subst; constructor; auto.
Qed.

(** The loop invariant: [merged] is separated, covers what was consumed, and its
    last range starts no later than what is left. *)
Lemma merge_range_step merged r :
  separated merged -> r.1 < r.2 -> (forall q, last merged = Some q -> q.1 <= r.1) ->
  separated (merge_range merged r) /\
  (forall x, covers (merge_range merged r) x <-> covers merged x \/ r.1 <= x < r.2) /\
  (forall q, last (merge_range merged r) = Some q -> q.1 <= r.1).
Proof.
  intros Hs Hr Hlast. unfold merge_range.
  destruct merged as [|[s e] merged _] using rev_ind.
  - cbn. split; [by constructor|]. split; [|by intros q [= <-]].
    intros x. rewrite covers_single. split; [by right|]. intros [(q & []%elem_of_nil & _)|]; done.
  - rewrite last_snoc in *. specialize (Hlast _ eq_refl). cbn in Hlast.
    destruct (Z.leb_spec r.1 e) as [Hle|Hgt].
    + rewrite removelast_last. split; [|split].
      * eapply separated_last; [exact Hs|lia].
      * intros x. rewrite !covers_app, !covers_single. cbn. split; [|intuition lia].
        intros [?|?]; [auto|]. destruct (decide (x < e)); intuition lia.
      * intros q. rewrite last_snoc. by intros [= <-].
    + split; [|split].
      * apply separated_snoc; auto.
      * intros x. by rewrite covers_app, covers_single.
      * intros q. rewrite last_snoc. by intros [= <-].
Qed.

Lemma merge_ranges_spec ranges : forall merged,
  separated merged -> Forall (fun r => r.1 < r.2) ranges -> StronglySorted range_le ranges ->
  (forall q r, last merged = Some q -> r ∈ ranges -> q.1 <= r.1) ->
  separated (fold_left merge_range ranges merged) /\
  forall x, covers (fold_left merge_range ranges merged) x <-> covers merged x \/ covers ranges x.
Proof.
  induction ranges as [|r ranges IH]; intros merged Hs Hf Hso Hl; cbn [fold_left].
  - split; [done|]. intros x. split; [by left|]. intros [?|(q & []%elem_of_nil & _)]. done.
  - inversion Hf as [|?? Hr Hf']; subst. inversion Hso as [|?? Hso' Hall]; subst.
    destruct (merge_range_step merged r Hs Hr) as (H1 & H2 & H3).
    { intros q Hq. apply (Hl q r Hq). apply elem_of_cons. by left. }
    destruct (IH (merge_range merged r) H1 Hf' Hso') as [H4 H5].
    { intros q r' Hq Hr'. specialize (H3 _ Hq). rewrite Forall_forall in Hall.
      destruct (Hall _ Hr'); lia. }
    split; [done|]. intros x. rewrite H5, H2. change (r :: ranges) with ([r] ++ ranges).
    rewrite (covers_app [r]), covers_single. tauto.
Qed.

#[local] Instance range_le_total : Total range_le.
Proof. intros a b. unfold range_le. lia. Qed.
#[local] Instance range_le_trans : Transitive range_le.
Proof. intros a b c. unfold range_le. lia. Qed.

Lemma build_merged_spec voids :
  separated (build_merged_void_ranges voids) /\
  forall x, covers (build_merged_void_ranges voids) x <-> covers (omap void_range voids) x.
Proof.
  unfold build_merged_void_ranges. cbv zeta.
  pose proof (merge_sort_Permutation range_le (omap void_range voids)) as Hp.
  destruct (merge_ranges_spec (merge_sort range_le (omap void_range voids)) []) as [H1 H2].
  - constructor.
  - rewrite Hp. apply Forall_forall. intros r (v & Hv & Hr)%list_elem_of_omap. unfold void_range in Hr.
    destruct (_ =? 0); [done|]. destruct (_ <? _); [done|]. cbv zeta in Hr.
    destruct (Z.leb_spec (vr_offset v + vr_size v) (vr_offset v)); [done|]. injection Hr as <-. done.
  - apply (StronglySorted_merge_sort range_le).
  - done.
  - split; [done|]. intros x. rewrite H2. split.
    + intros [(q & []%elem_of_nil & _)|(r & Hr & Hx)]. exists r. split; [by rewrite <- Hp|done].
    + intros (r & Hr & Hx). right. exists r. split; [by rewrite Hp|done].
Qed.

(** The search in a separated list. *)
Lemma separated_tail r l : separated (r :: l) -> separated l /\ r.1 < r.2 /\ forall q, q ∈ l -> r.2 < q.1.
Proof.
  revert r. induction l as [|r' l IH]; intros r Hs.
  - inversion Hs; subst. split; [constructor|]. split; [done|]. intros q []%elem_of_nil.
  - inversion Hs as [| |???? Hlt Hs']; subst. destruct (IH r' Hs') as (H1 & H2 & H3).
    split; [done|]. split; [done|]. intros q [->|Hq]%elem_of_cons; [done|]. specialize (H3 _ Hq). lia.
Qed.

Lemma search_separated l a b : separated l -> a < b ->
  match l !! partition_point (fun r => r.2 <=? a) l with Some r => r.1 <? b | None => false end = true
  <-> exists x, a <= x < b /\ covers l x.
Proof.
  intros Hs Hab. induction l as [|r l IH].
  - cbn. split; [done|]. intros (x & _ & q & []%elem_of_nil & _).
  - destruct (separated_tail _ _ Hs) as (Hs' & Hr & Hafter). cbn [partition_point].
    destruct (Z.leb_spec r.2 a) as [Hle|Hgt].
    + cbn [lookup list_lookup]. rewrite (IH Hs'). split.
      * intros (x & Hx & q & Hq & Hc). exists x. split; [done|]. exists q. split; [apply elem_of_cons; by right|done].
      * intros (x & Hx & q & [->|Hq]%elem_of_cons & Hc); [lia|]. exists x. split; [done|]. by exists q.
    + cbn [lookup list_lookup]. rewrite Z.ltb_lt. split.
      * intros Hlt. exists (Z.max a r.1). split; [lia|]. exists r. split; [apply elem_of_cons; by left|lia].
      * intros (x & Hx & q & [->|Hq]%elem_of_cons & Hc); [lia|]. specialize (Hafter _ Hq). lia.
Qed.

Lemma entry_overlaps_covers a b voids :
  entry_overlaps_void_ranges a b (build_merged_void_ranges voids) = true
  <-> exists x, a <= x < b /\ covers (omap void_range voids) x.
Proof.
  destruct (build_merged_spec voids) as [Hs Hc]. unfold entry_overlaps_void_ranges.
  destruct (Z.leb_spec b a) as [Hle|Hlt]; cbn [orb].
  - split; [done|]. intros (x & Hx & _). lia.
  - setoid_rewrite <- Hc. rewrite <- search_separated by done.
    case_bool_decide as E; [|done]. by rewrite E.
Qed.

(** ** Theorem *)

(** Masking is exact: the binary search over the sorted and merged ranges reports
    an overlap of the non-empty entry span exactly when the span intersects one
    of the voids that are non-empty and end within 64 bits. *)
Theorem void_overlap_exact a b voids :
  entry_overlaps_void_ranges a b (build_merged_void_ranges voids) = true <->
  exists void, void ∈ voids /\ 0 < vr_size void /\ vr_offset void + vr_size void <= u64_max /\
    Z.max a (vr_offset void) < Z.min b (vr_offset void + vr_size void).
Proof.
  rewrite entry_overlaps_covers. unfold covers. setoid_rewrite list_elem_of_omap. unfold void_range. split.
  - intros (x & Hx & r & (v & Hv & Hr) & Hc). exists v. split; [done|].
    destruct (Z.eqb_spec (vr_size v) 0); [done|].
    destruct (Z.ltb_spec u64_max (vr_offset v + vr_size v)); [done|]. cbv zeta in Hr.
    destruct (Z.leb_spec (vr_offset v + vr_size v) (vr_offset v)); [done|].
    injection Hr as <-. cbn in Hc. lia.
  - intros (v & Hv & Hsz & Hmax & Ho). exists (Z.max a (vr_offset v)). split; [lia|].
    exists (vr_offset v, vr_offset v + vr_size v). split; [|cbn; lia]. exists v. split; [done|].
    rewrite (proj2 (Z.eqb_neq _ _)), (proj2 (Z.ltb_ge _ _)) by lia. cbv zeta.
    by rewrite (proj2 (Z.leb_gt _ _)) by lia.
Qed.
