(* ===== verification/DiskKv.v ===== *)
(** The disk index (src/aeordb-lib/src/engine/disk_kv_store.rs): bucket pages at
    the head of the database file, a write buffer in front of them, the hot tail
    behind the log, and the snapshot published to readers.  The methods are the
    functions of the source in the monad of StateM; [&mut self] is the state, the
    file handle is the bytes of the file.  Writing a file does not fail here;
    reading past its end does. *)
From S2P Require Import Prelude Codec EntryFormat KvEntry KvPages FileIo HotTail FileHeader KvExpand Converters Nvt StateM KvSnapshot VoidRanges.

Local Open Scope Z_scope.

Definition WRITE_BUFFER_THRESHOLD : Z := 512.
Definition HOT_BUFFER_THRESHOLD : Z := 512.
Definition CURRENT_KV_BLOCK_VERSION : Z := 1.

(** [HashMap::len]. *)
Definition map_len (m : gmap bytes KVEntry) : Z := Z.of_nat (size m).

(** [File::set_len]. *)
Definition file_set_len (file : bytes) (n : Z) : bytes :=
  take (Z.to_nat n) (file ++ zeros (n - zlen file)).

(** The handle shared with the readers holds [dk_snapshot]. *)
Record DiskKVStore := MkDiskKV {
  dk_nvt : NormalizedVectorTable;
  dk_write_buffer : gmap bytes KVEntry;
  dk_file : bytes;
  dk_kv_block_offset : Z;
  dk_kv_block_length : Z;
  dk_hot_tail_offset : Z;
  dk_hot_tail_enabled : bool;
  dk_stage : Z;
  dk_hash_algo : HashAlgorithm;
  dk_entry_count : Z;
  dk_bucket_count : Z;
  dk_hot_buffer : list KVEntry;
  dk_snapshot : ReadSnapshot;
  dk_shared_nvt : NormalizedVectorTable;
  dk_needs_rebuild : bool;
  dk_needs_expansion : option Z;
  dk_transaction_depth : Z;
  dk_pending_voids : list VoidRecord;
}.

(** [self.field = v]. *)
Definition dk_set_nvt (v : NormalizedVectorTable) (s : DiskKVStore) : DiskKVStore :=
  MkDiskKV v (dk_write_buffer s) (dk_file s) (dk_kv_block_offset s) (dk_kv_block_length s)
    (dk_hot_tail_offset s) (dk_hot_tail_enabled s) (dk_stage s) (dk_hash_algo s) (dk_entry_count s)
    (dk_bucket_count s) (dk_hot_buffer s) (dk_snapshot s) (dk_shared_nvt s) (dk_needs_rebuild s)
    (dk_needs_expansion s) (dk_transaction_depth s) (dk_pending_voids s).
Definition dk_set_write_buffer (v : gmap bytes KVEntry) (s : DiskKVStore) : DiskKVStore :=
  MkDiskKV (dk_nvt s) v (dk_file s) (dk_kv_block_offset s) (dk_kv_block_length s) (dk_hot_tail_offset s)
    (dk_hot_tail_enabled s) (dk_stage s) (dk_hash_algo s) (dk_entry_count s) (dk_bucket_count s)
    (dk_hot_buffer s) (dk_snapshot s) (dk_shared_nvt s) (dk_needs_rebuild s) (dk_needs_expansion s)
    (dk_transaction_depth s) (dk_pending_voids s).
Definition dk_set_file (v : bytes) (s : DiskKVStore) : DiskKVStore :=
  MkDiskKV (dk_nvt s) (dk_write_buffer s) v (dk_kv_block_offset s) (dk_kv_block_length s)
    (dk_hot_tail_offset s) (dk_hot_tail_enabled s) (dk_stage s) (dk_hash_algo s) (dk_entry_count s)
    (dk_bucket_count s) (dk_hot_buffer s) (dk_snapshot s) (dk_shared_nvt s) (dk_needs_rebuild s)
    (dk_needs_expansion s) (dk_transaction_depth s) (dk_pending_voids s).
Definition dk_set_kv_block_length (v : Z) (s : DiskKVStore) : DiskKVStore :=
  MkDiskKV (dk_nvt s) (dk_write_buffer s) (dk_file s) (dk_kv_block_offset s) v (dk_hot_tail_offset s)
    (dk_hot_tail_enabled s) (dk_stage s) (dk_hash_algo s) (dk_entry_count s) (dk_bucket_count s)
    (dk_hot_buffer s) (dk_snapshot s) (dk_shared_nvt s) (dk_needs_rebuild s) (dk_needs_expansion s)
    (dk_transaction_depth s) (dk_pending_voids s).
Definition dk_set_hot_tail_offset (v : Z) (s : DiskKVStore) : DiskKVStore :=
  MkDiskKV (dk_nvt s) (dk_write_buffer s) (dk_file s) (dk_kv_block_offset s) (dk_kv_block_length s) v
    (dk_hot_tail_enabled s) (dk_stage s) (dk_hash_algo s) (dk_entry_count s) (dk_bucket_count s)
    (dk_hot_buffer s) (dk_snapshot s) (dk_shared_nvt s) (dk_needs_rebuild s) (dk_needs_expansion s)
    (dk_transaction_depth s) (dk_pending_voids s).
Definition dk_set_hot_tail_enabled (v : bool) (s : DiskKVStore) : DiskKVStore :=
  MkDiskKV (dk_nvt s) (dk_write_buffer s) (dk_file s) (dk_kv_block_offset s) (dk_kv_block_length s)
    (dk_hot_tail_offset s) v (dk_stage s) (dk_hash_algo s) (dk_entry_count s) (dk_bucket_count s)
    (dk_hot_buffer s) (dk_snapshot s) (dk_shared_nvt s) (dk_needs_rebuild s) (dk_needs_expansion s)
    (dk_transaction_depth s) (dk_pending_voids s).
Definition dk_set_stage (v : Z) (s : DiskKVStore) : DiskKVStore :=
  MkDiskKV (dk_nvt s) (dk_write_buffer s) (dk_file s) (dk_kv_block_offset s) (dk_kv_block_length s)
    (dk_hot_tail_offset s) (dk_hot_tail_enabled s) v (dk_hash_algo s) (dk_entry_count s)
    (dk_bucket_count s) (dk_hot_buffer s) (dk_snapshot s) (dk_shared_nvt s) (dk_needs_rebuild s)
    (dk_needs_expansion s) (dk_transaction_depth s) (dk_pending_voids s).
Definition dk_set_entry_count (v : Z) (s : DiskKVStore) : DiskKVStore :=
  MkDiskKV (dk_nvt s) (dk_write_buffer s) (dk_file s) (dk_kv_block_offset s) (dk_kv_block_length s)
    (dk_hot_tail_offset s) (dk_hot_tail_enabled s) (dk_stage s) (dk_hash_algo s) v (dk_bucket_count s)
    (dk_hot_buffer s) (dk_snapshot s) (dk_shared_nvt s) (dk_needs_rebuild s) (dk_needs_expansion s)
    (dk_transaction_depth s) (dk_pending_voids s).
Definition dk_set_bucket_count (v : Z) (s : DiskKVStore) : DiskKVStore :=
  MkDiskKV (dk_nvt s) (dk_write_buffer s) (dk_file s) (dk_kv_block_offset s) (dk_kv_block_length s)
    (dk_hot_tail_offset s) (dk_hot_tail_enabled s) (dk_stage s) (dk_hash_algo s) (dk_entry_count s) v
    (dk_hot_buffer s) (dk_snapshot s) (dk_shared_nvt s) (dk_needs_rebuild s) (dk_needs_expansion s)
    (dk_transaction_depth s) (dk_pending_voids s).
Definition dk_set_hot_buffer (v : list KVEntry) (s : DiskKVStore) : DiskKVStore :=
  MkDiskKV (dk_nvt s) (dk_write_buffer s) (dk_file s) (dk_kv_block_offset s) (dk_kv_block_length s)
    (dk_hot_tail_offset s) (dk_hot_tail_enabled s) (dk_stage s) (dk_hash_algo s) (dk_entry_count s)
    (dk_bucket_count s) v (dk_snapshot s) (dk_shared_nvt s) (dk_needs_rebuild s) (dk_needs_expansion s)
    (dk_transaction_depth s) (dk_pending_voids s).
Definition dk_set_snapshot (v : ReadSnapshot) (s : DiskKVStore) : DiskKVStore :=
  MkDiskKV (dk_nvt s) (dk_write_buffer s) (dk_file s) (dk_kv_block_offset s) (dk_kv_block_length s)
    (dk_hot_tail_offset s) (dk_hot_tail_enabled s) (dk_stage s) (dk_hash_algo s) (dk_entry_count s)
    (dk_bucket_count s) (dk_hot_buffer s) v (dk_shared_nvt s) (dk_needs_rebuild s) (dk_needs_expansion s)
    (dk_transaction_depth s) (dk_pending_voids s).
Definition dk_set_shared_nvt (v : NormalizedVectorTable) (s : DiskKVStore) : DiskKVStore :=
  MkDiskKV (dk_nvt s) (dk_write_buffer s) (dk_file s) (dk_kv_block_offset s) (dk_kv_block_length s)
    (dk_hot_tail_offset s) (dk_hot_tail_enabled s) (dk_stage s) (dk_hash_algo s) (dk_entry_count s)
    (dk_bucket_count s) (dk_hot_buffer s) (dk_snapshot s) v (dk_needs_rebuild s) (dk_needs_expansion s)
    (dk_transaction_depth s) (dk_pending_voids s).
Definition dk_set_needs_rebuild (v : bool) (s : DiskKVStore) : DiskKVStore :=
  MkDiskKV (dk_nvt s) (dk_write_buffer s) (dk_file s) (dk_kv_block_offset s) (dk_kv_block_length s)
    (dk_hot_tail_offset s) (dk_hot_tail_enabled s) (dk_stage s) (dk_hash_algo s) (dk_entry_count s)
    (dk_bucket_count s) (dk_hot_buffer s) (dk_snapshot s) (dk_shared_nvt s) v (dk_needs_expansion s)
    (dk_transaction_depth s) (dk_pending_voids s).
Definition dk_set_needs_expansion (v : option Z) (s : DiskKVStore) : DiskKVStore :=
  MkDiskKV (dk_nvt s) (dk_write_buffer s) (dk_file s) (dk_kv_block_offset s) (dk_kv_block_length s)
    (dk_hot_tail_offset s) (dk_hot_tail_enabled s) (dk_stage s) (dk_hash_algo s) (dk_entry_count s)
    (dk_bucket_count s) (dk_hot_buffer s) (dk_snapshot s) (dk_shared_nvt s) (dk_needs_rebuild s) v
    (dk_transaction_depth s) (dk_pending_voids s).
Definition dk_set_transaction_depth (v : Z) (s : DiskKVStore) : DiskKVStore :=
  MkDiskKV (dk_nvt s) (dk_write_buffer s) (dk_file s) (dk_kv_block_offset s) (dk_kv_block_length s)
    (dk_hot_tail_offset s) (dk_hot_tail_enabled s) (dk_stage s) (dk_hash_algo s) (dk_entry_count s)
    (dk_bucket_count s) (dk_hot_buffer s) (dk_snapshot s) (dk_shared_nvt s) (dk_needs_rebuild s)
    (dk_needs_expansion s) v (dk_pending_voids s).
Definition dk_set_voids (v : list VoidRecord) (s : DiskKVStore) : DiskKVStore :=
  MkDiskKV (dk_nvt s) (dk_write_buffer s) (dk_file s) (dk_kv_block_offset s) (dk_kv_block_length s)
    (dk_hot_tail_offset s) (dk_hot_tail_enabled s) (dk_stage s) (dk_hash_algo s) (dk_entry_count s)
    (dk_bucket_count s) (dk_hot_buffer s) (dk_snapshot s) (dk_shared_nvt s) (dk_needs_rebuild s)
    (dk_needs_expansion s) (dk_transaction_depth s) v.

Definition or_flags (flags : Z) (e : KVEntry) : KVEntry :=
  {| kv_type_flags := z2b (Z.lor (b2z (kv_type_flags e)) flags); kv_hash := kv_hash e;
     kv_offset := kv_offset e; kv_total_length := kv_total_length e |}.

Definition at_offset (offset : Z) (e : KVEntry) : KVEntry :=
  {| kv_type_flags := kv_type_flags e; kv_hash := kv_hash e; kv_offset := offset;
     kv_total_length := kv_total_length e |}.

Definition saturating_add64 (a b : Z) : Z := Z.min (a + b) u64_max.

Definition valid_void_range_for_layout (kv_block_offset kv_block_length hot_tail_offset offset sz : Z) : bool :=
  if sz =? 0 then false else
  let wal_start := saturating_add64 kv_block_offset kv_block_length in
  if u64_max <? offset + sz then false else
  let stop := offset + sz in
  (wal_start <=? offset) && (stop <=? hot_tail_offset).

Definition sanitize_pending_voids (s : DiskKVStore) : DiskKVStore :=
  dk_set_voids
    (filter (fun void => valid_void_range_for_layout (dk_kv_block_offset s) (dk_kv_block_length s)
       (dk_hot_tail_offset s) (vr_offset void) (vr_size void) = true) (dk_pending_voids s)) s.

Definition dk_hl (s : DiskKVStore) : Z := hash_length (dk_hash_algo s).

(** Where the page of a bucket lives, and [seek] with [read_exact] there. *)
Definition page_offset (s : DiskKVStore) (bucket : Z) : Z :=
  dk_kv_block_offset s + bucket_page_offset bucket (dk_hl s).

Definition read_page (s : DiskKVStore) (bucket : Z) : res bytes :=
  file_read (dk_file s) (page_offset s bucket) (page_size (dk_hl s)).

(** Empty pages for the buckets [0..n]; consecutive writes from the first. *)
Definition zero_pages (file : bytes) (kv_block_offset n hash_length : Z) : bytes :=
  foldl (fun file bucket =>
           file_write file (kv_block_offset + bucket_page_offset bucket hash_length)
             (zeros (page_size hash_length)))
    file (seqZ 0 n).

Section DiskKv.
Context `{Crc32, ToScalar, HashOrder}.

Abbreviation MK A := (M DiskKVStore A).

Definition DiskKVStore_create (db_file : bytes) (hash_algo : HashAlgorithm)
    (kv_block_offset hot_tail_offset stage : Z) : res DiskKVStore :=
  let stage := Z.min stage (zlen KV_STAGE_SIZES - 1) in
  let hl := hash_length hash_algo in
  let psize := page_size hl in
  let '(block_size, bucket_count) := stage_params stage psize in
  let db_file := zero_pages db_file kv_block_offset bucket_count hl in
  let nvt := NVT_new HashConverter bucket_count in
  let pages := replicate (Z.to_nat bucket_count) (zeros psize) in
  snapshot ← ReadSnapshot_new ∅ nvt bucket_count hash_algo 0 pages;
  Ok {| dk_nvt := nvt; dk_write_buffer := ∅; dk_file := db_file; dk_kv_block_offset := kv_block_offset;
        dk_kv_block_length := block_size; dk_hot_tail_offset := hot_tail_offset;
        dk_hot_tail_enabled := true; dk_stage := stage; dk_hash_algo := hash_algo; dk_entry_count := 0;
        dk_bucket_count := bucket_count; dk_hot_buffer := []; dk_snapshot := snapshot;
        dk_shared_nvt := nvt; dk_needs_rebuild := false; dk_needs_expansion := None;
        dk_transaction_depth := 0; dk_pending_voids := [] |}.

Definition create_temp (db_file : bytes) (hash_algo : HashAlgorithm) (kv_block_offset stage : Z) : res DiskKVStore :=
  s ← DiskKVStore_create db_file hash_algo kv_block_offset 0 stage;
  Ok (dk_set_hot_tail_enabled false s).

(** ** Opening *)

(** The count in a page's header, zero when the header cannot be read or its
    magic is not that of a page. *)
Definition header_entry_count (file : bytes) (offset : Z) : Z :=
  match file_read file offset PAGE_HEADER_SIZE with
  | Ok header_buf =>
    if le_val (slice header_buf 0 4) =? PAGE_MAGIC
    then le_val (slice header_buf (PAGE_HEADER_SIZE - 2) PAGE_HEADER_SIZE) else 0
  | _ => 0
  end.

(** All pages, with whether one of them failed its checksum. *)
Fixpoint read_pages_checked (file : bytes) (kv_block_offset hl : Z) (buckets : list Z) : res (list bytes * bool) :=
  match buckets with
  | [] => Ok ([], false)
  | bucket :: buckets =>
    page_data ← file_read file (kv_block_offset + bucket_page_offset bucket hl) (page_size hl);
    corrupt ← match deserialize_page page_data hl with
              | Ok _ => Ok false
              | Err _ => Ok true
              | Panic => Panic
              end;
    '(pages, detected) ← read_pages_checked file kv_block_offset hl buckets;
    Ok (page_data :: pages, corrupt || detected)
  end.

(** The entry an index entry over reclaimed space is masked with. *)
Definition mask_entry (void_ranges : list range) (st : gmap bytes KVEntry * Z) (entry : KVEntry) : gmap bytes KVEntry * Z :=
  let '(write_buffer, voided) := st in
  match write_buffer !! kv_hash entry with
  | Some _ => st
  | None =>
    let entry_end := saturating_add64 (kv_offset entry) (kv_total_length entry) in
    if entry_overlaps_void_ranges (kv_offset entry) entry_end void_ranges
    then (<[kv_hash entry := or_flags KV_FLAG_DELETED entry]> write_buffer, voided + 1)
    else st
  end.

Fixpoint mask_pages (pages : list bytes) (hl : Z) (void_ranges : list range) (st : gmap bytes KVEntry * Z)
    : res (gmap bytes KVEntry * Z) :=
  match pages with
  | [] => Ok st
  | page_data :: pages =>
    match deserialize_page page_data hl with
    | Ok entries => mask_pages pages hl void_ranges (foldl (mask_entry void_ranges) st entries)
    | Err _ => mask_pages pages hl void_ranges st
    | Panic => Panic
    end
  end.

Definition DiskKVStore_open (db_file : bytes) (hash_algo : HashAlgorithm)
    (kv_block_offset hot_tail_offset stage : Z) (hot_entries : list KVEntry) (hot_voids : list VoidRecord)
    (kv_block_version : Z) : res DiskKVStore :=
  if negb (kv_block_version =? CURRENT_KV_BLOCK_VERSION) then Err (InvalidEntryVersion kv_block_version) else
  let stage := Z.min stage (zlen KV_STAGE_SIZES - 1) in
  let hl := hash_length hash_algo in
  let psize := page_size hl in
  let '(block_size, bucket_count) := stage_params stage psize in
  let entry_count := foldl (fun n bucket =>
    n + header_entry_count db_file (kv_block_offset + bucket_page_offset bucket hl)) 0 (seqZ 0 bucket_count) in
  let nvt := NVT_new HashConverter bucket_count in
  '(pages, detected_page_corruption) ← read_pages_checked db_file kv_block_offset hl (seqZ 0 bucket_count);
  let write_buffer := foldl (fun m e => <[kv_hash e := e]> m) ∅ hot_entries in
  let hot_count := map_len write_buffer in
  let merged_hot_void_ranges := build_merged_void_ranges hot_voids in
  '(write_buffer, voided_page_entries) ←
    (if bool_decide (hot_voids = []) then Ok (write_buffer, 0)
     else mask_pages pages hl merged_hot_void_ranges (write_buffer, 0));
  let effective_entry_count := saturating_sub entry_count voided_page_entries + hot_count in
  snapshot ← ReadSnapshot_new write_buffer nvt bucket_count hash_algo effective_entry_count pages;
  Ok {| dk_nvt := nvt; dk_write_buffer := write_buffer; dk_file := db_file;
        dk_kv_block_offset := kv_block_offset; dk_kv_block_length := block_size;
        dk_hot_tail_offset := hot_tail_offset; dk_hot_tail_enabled := true; dk_stage := stage;
        dk_hash_algo := hash_algo; dk_entry_count := effective_entry_count;
        dk_bucket_count := bucket_count; dk_hot_buffer := []; dk_snapshot := snapshot;
        dk_shared_nvt := nvt; dk_needs_rebuild := detected_page_corruption; dk_needs_expansion := None;
        dk_transaction_depth := 0; dk_pending_voids := hot_voids |}.

(** ** Publishing snapshots *)

Fixpoint read_all_pages_from (s : DiskKVStore) (buckets : list Z) : list bytes :=
  match buckets with
  | [] => []
  | bucket :: buckets =>
    match read_page s bucket with
    | Ok page_data => page_data
    | _ => zeros (page_size (dk_hl s))
    end :: read_all_pages_from s buckets
  end.

Definition read_all_pages (s : DiskKVStore) : list bytes :=
  read_all_pages_from s (seqZ 0 (dk_bucket_count s)).

Definition publish_buffer_only : MK unit :=
  modify (fun s =>
    let current := dk_snapshot s in
    dk_set_snapshot (new_with_page_type_counts (dk_write_buffer s) (dk_shared_nvt s) (dk_bucket_count s)
      (dk_hash_algo s) (dk_entry_count s) (rs_pages current) (rs_page_type_counts current)) s).

Definition publish_full_snapshot : MK unit := fun s =>
  let pages := read_all_pages s in
  match ReadSnapshot_new (dk_write_buffer s) (dk_shared_nvt s) (dk_bucket_count s) (dk_hash_algo s)
          (dk_entry_count s) pages with
  | Ok snapshot => Some (Ok tt, dk_set_snapshot snapshot s)
  | Err e => Some (Err e, s)
  | Panic => Some (Panic, s)
  end.

(** A buffer of zeros that a read fills as far as the file goes. *)
Definition read_page_lossy (s : DiskKVStore) (bucket : Z) : bytes :=
  let psize := page_size (dk_hl s) in
  take (Z.to_nat psize) (drop (Z.to_nat (page_offset s bucket)) (dk_file s) ++ zeros psize).

(** [live_type_counts_in_page(..).unwrap_or([0; 16])]. *)
Definition page_counts_or_zero (page_data : bytes) (hl : Z) : res (list Z) :=
  match live_type_counts_in_page page_data hl with
  | Ok counts => Ok counts
  | Err _ => Ok (replicate 16 0)
  | Panic => Panic
  end.

(** Saturation at [usize::MAX] is out of reach of a count of entries. *)
Definition adjust_counts (counts old_counts new_counts : list Z) : list Z :=
  zip_with Z.add (zip_with saturating_sub counts old_counts) new_counts.

Fixpoint refresh_pages (s : DiskKVStore) (modified_buckets : list Z) (pages : list bytes) (counts : list Z)
    : res (list bytes * list Z) :=
  match modified_buckets with
  | [] => Ok (pages, counts)
  | bucket :: modified_buckets =>
    if bucket <? zlen pages then
      old_page ← index pages bucket;
      old_counts ← page_counts_or_zero old_page (dk_hl s);
      let page_data := read_page_lossy s bucket in
      new_counts ← page_counts_or_zero page_data (dk_hl s);
      refresh_pages s modified_buckets (<[Z.to_nat bucket := page_data]> pages)
        (adjust_counts counts old_counts new_counts)
    else refresh_pages s modified_buckets pages counts
  end.

Definition publish_snapshot_incremental (modified_buckets : list Z) : MK unit :=
  modify (fun s => if nvt_bucket_count (dk_shared_nvt s) =? nvt_bucket_count (dk_nvt s) then s
                   else dk_set_shared_nvt (dk_nvt s) s) ;;
  s ← gets id;
  let current := dk_snapshot s in
  '(new_pages, new_page_type_counts) ←
    lift (refresh_pages s modified_buckets (rs_pages current) (rs_page_type_counts current));
  modify (dk_set_snapshot (new_with_page_type_counts (dk_write_buffer s) (dk_shared_nvt s)
    (dk_bucket_count s) (dk_hash_algo s) (dk_entry_count s) new_pages new_page_type_counts)).

Definition publish_full_snapshot_with_new_nvt : MK unit :=
  modify (fun s => dk_set_shared_nvt (dk_nvt s) s) ;;
  publish_full_snapshot.

(** The handle adopted becomes the one that holds [dk_snapshot]. *)
Definition adopt_snapshot_handle (snapshot : ReadSnapshot) : MK unit :=
  modify (dk_set_snapshot snapshot) ;;
  publish_full_snapshot.

(** ** Lookup *)

Definition dk_get (s : DiskKVStore) (hash : bytes) : res (option KVEntry) :=
  match dk_write_buffer s !! hash with
  | Some entry => Ok (if is_deleted entry then None else Some entry)
  | None =>
    let bucket_index := bucket_for_value (dk_nvt s) hash in
    match read_page s bucket_index with
    | Ok page_data =>
      match deserialize_page page_data (dk_hl s) with
      | Ok entries => Ok (find_in_page entries hash)
      | Err _ => Ok None
      | Panic => Panic
      end
    | Err _ => Ok None
    | Panic => Panic
    end
  end.

Definition dk_contains (s : DiskKVStore) (hash : bytes) : res bool :=
  o ← dk_get s hash; Ok (bool_decide (is_Some o)).

Definition entry_exists_on_disk (s : DiskKVStore) (hash : bytes) : res bool :=
  o ← get_raw (dk_snapshot s) hash; Ok (bool_decide (is_Some o)).

Definition get_buffered (s : DiskKVStore) (hash : bytes) : option KVEntry := dk_write_buffer s !! hash.

(** The pages' entries overwritten by the buffer's. *)
Fixpoint collect_pages (s : DiskKVStore) (buckets : list Z) (all : gmap bytes KVEntry) : res (gmap bytes KVEntry) :=
  match buckets with
  | [] => Ok all
  | bucket :: buckets =>
    match read_page s bucket with
    | Ok page_data =>
      match deserialize_page page_data (dk_hl s) with
      | Ok entries => collect_pages s buckets (foldl (fun all e => <[kv_hash e := e]> all) all entries)
      | Err _ => collect_pages s buckets all
      | Panic => Panic
      end
    | Err _ => collect_pages s buckets all
    | Panic => Panic
    end
  end.

Definition dk_iter_all (s : DiskKVStore) : res (list KVEntry) :=
  all ← collect_pages s (seqZ 0 (dk_bucket_count s)) ∅;
  let all := foldl (fun all he => <[he.1 := he.2]> all) all (hash_iter (dk_write_buffer s)) in
  Ok (filter (fun e => negb (is_deleted e) = true) ((hash_iter all).*2)).

(** ** The hot tail *)

(** Invalid voids dropped, the payload written, the file cut after it. *)
Definition persist_hot_tail (writes : list KVEntry) : MK unit :=
  modify sanitize_pending_voids ;;
  modify (fun s =>
    let payload := {| ht_writes := writes; ht_voids := dk_pending_voids s |} in
    let '(file, stop) := write_hot_tail (dk_file s) (dk_hot_tail_offset s) payload (dk_hl s) in
    dk_set_file (file_set_len file stop) s).

Definition buffered_writes (s : DiskKVStore) : list KVEntry := (hash_iter (dk_write_buffer s)).*2.

Definition flush_hot_buffer : MK unit :=
  s ← gets id;
  if bool_decide (dk_hot_buffer s = []) || negb (dk_hot_tail_enabled s) then mret tt else
  persist_hot_tail (buffered_writes s) ;;
  modify (dk_set_hot_buffer []).

Definition force_flush_hot_buffer : MK unit :=
  s ← gets id;
  if negb (dk_hot_tail_enabled s) then mret tt else
  persist_hot_tail (buffered_writes s).

Definition set_pending_voids (voids : list VoidRecord) : MK unit :=
  modify (fun s => sanitize_pending_voids (dk_set_voids voids s)).

Definition emergency_hot_tail_payload : MK HotTailPayload :=
  s ← gets id;
  modify sanitize_pending_voids ;;
  s' ← gets id;
  mret {| ht_writes := buffered_writes s; ht_voids := dk_pending_voids s' |}.

Definition set_hot_tail_offset (offset : Z) : MK unit :=
  modify (fun s => if dk_hot_tail_offset s <? offset then dk_set_hot_tail_offset offset s else s).
(** ** Flushing *)

(** [by_bucket.entry(bucket).or_default().push(entry)]. *)
Definition push_bucket (nvt : NormalizedVectorTable) (by_bucket : gmap Z (list KVEntry)) (entry : KVEntry)
    : gmap Z (list KVEntry) :=
  let bucket := bucket_for_value nvt (kv_hash entry) in
  <[bucket := default [] (by_bucket !! bucket) ++ [entry]]> by_bucket.

Definition group_by_bucket (s : DiskKVStore) : list (Z * list KVEntry) :=
  bucket_iter (foldl (push_bucket (dk_nvt s)) ∅ (buffered_writes s)).

(** The page after the upserts, and the entries that did not fit. *)
Fixpoint upsert_all (existing new_entries : list KVEntry) : list KVEntry * list KVEntry :=
  match new_entries with
  | [] => (existing, [])
  | entry :: new_entries =>
    let '(existing, fits) := upsert_in_page existing entry in
    let '(existing, overflow) := upsert_all existing new_entries in
    (existing, if fits then overflow else entry :: overflow)
  end.

Definition write_page (bucket : Z) (data : bytes) : MK unit :=
  modify (fun s => dk_set_file (file_write (dk_file s) (page_offset s bucket) data) s).

(** One bucket: a page that does not decode is reset. *)
Definition flush_bucket (bucket_index : Z) (new_entries : list KVEntry) : MK (list KVEntry) :=
  s ← gets id;
  page_data ← lift (read_page s bucket_index);
  existing ←
    match deserialize_page page_data (dk_hl s) with
    | Ok entries => mret entries
    | Err _ =>
      write_page bucket_index (zeros (page_size (dk_hl s))) ;;
      modify (dk_set_needs_rebuild true) ;;
      mret []
    | Panic => lift Panic
    end;
  let '(existing, overflow) := upsert_all existing new_entries in
  serialized ← lift (serialize_page existing (dk_hl s));
  write_page bucket_index serialized ;;
  mret overflow.

Fixpoint flush_buckets (by_bucket : list (Z * list KVEntry)) : MK (list KVEntry) :=
  match by_bucket with
  | [] => mret []
  | (bucket_index, new_entries) :: by_bucket =>
    overflow ← flush_bucket bucket_index new_entries;
    rest ← flush_buckets by_bucket;
    mret (overflow ++ rest)
  end.

(** What does not fit is dropped. *)
Definition flush_no_snapshot : MK unit :=
  s ← gets id;
  if bool_decide (dk_write_buffer s = ∅) then mret tt else
  _overflow ← flush_buckets (group_by_bucket s);
  modify (dk_set_write_buffer ∅).

(** [if is_new { self.entry_count += 1 }]. *)
Definition count_new (known : bool) (s : DiskKVStore) : DiskKVStore :=
  if known then s else dk_set_entry_count (dk_entry_count s + 1) s.

Definition bulk_insert_one (entry : KVEntry) : MK unit :=
  s ← gets id;
  known ← lift (if bool_decide (is_Some (dk_write_buffer s !! kv_hash entry)) then Ok true
                else entry_exists_on_disk s (kv_hash entry));
  modify (count_new known) ;;
  modify (fun s => dk_set_write_buffer (<[kv_hash entry := entry]> (dk_write_buffer s)) s) ;;
  s ← gets id;
  if WRITE_BUFFER_THRESHOLD <=? map_len (dk_write_buffer s) then ignore_err flush_no_snapshot else mret tt.

Definition bulk_insert (entries : list KVEntry) : MK unit := for_each entries bulk_insert_one.

Definition resize_to_next_stage : MK unit :=
  s ← gets id;
  let new_stage := Z.min (dk_stage s + 1) (zlen KV_STAGE_SIZES - 1) in
  if new_stage =? dk_stage s then lift (Err IoError) else
  let psize := page_size (dk_hl s) in
  let '(_, new_bucket_count) := stage_params new_stage psize in
  let new_pages_size := new_bucket_count * psize in
  if dk_kv_block_length s <? new_pages_size then modify (dk_set_needs_expansion (Some new_stage)) else
  all_entries ← lift (dk_iter_all s);
  modify (fun s => dk_set_file (zero_pages (dk_file s) (dk_kv_block_offset s) new_bucket_count (dk_hl s)) s) ;;
  modify (dk_set_stage new_stage) ;;
  modify (dk_set_bucket_count new_bucket_count) ;;
  modify (dk_set_nvt (NVT_new HashConverter new_bucket_count)) ;;
  modify (dk_set_entry_count 0) ;;
  bulk_insert all_entries ;;
  flush_no_snapshot ;;
  modify (dk_set_entry_count (zlen all_entries)) ;;
  publish_full_snapshot_with_new_nvt.

(** [self.write_buffer.insert(..)] for every entry. *)
Definition rebuffer (entries : list KVEntry) : MK unit :=
  modify (fun s => dk_set_write_buffer (foldl (fun m e => <[kv_hash e := e]> m) (dk_write_buffer s) entries) s).

(** [flush], with [again] for the recursive call after a resize. *)
Definition flush_body (again : MK unit) : MK unit :=
  s ← gets id;
  if bool_decide (dk_write_buffer s = ∅) then mret tt else
  let by_bucket := group_by_bucket s in
  let modified_buckets := by_bucket.*1 in
  overflow_entries ← flush_buckets by_bucket;
  modify (dk_set_write_buffer ∅) ;;
  if bool_decide (overflow_entries = []) then
    flush_hot_buffer ;;
    s ← gets id;
    (if (dk_transaction_depth s =? 0) && dk_hot_tail_enabled s then persist_hot_tail [] else mret tt) ;;
    publish_snapshot_incremental modified_buckets
  else
    publish_snapshot_incremental modified_buckets ;;
    old_stage ← gets dk_stage;
    resize_to_next_stage ;;
    stage ← gets dk_stage;
    if old_stage <? stage then rebuffer overflow_entries ;; again else
    rebuffer overflow_entries ;;
    s ← gets id;
    (if dk_hot_tail_enabled s then persist_hot_tail (buffered_writes s) else mret tt) ;;
    publish_snapshot_incremental modified_buckets ;;
    publish_buffer_only.

Fixpoint flush_loop (fuel : nat) : MK unit :=
  match fuel with
  | O => fun _ => None
  | S fuel => flush_body (flush_loop fuel)
  end.

(** Every recursive call has a higher stage, and there are ten. *)
Definition flush : MK unit := flush_loop 11.

(** ** Updates *)

Definition dk_insert (entry : KVEntry) : MK unit :=
  s ← gets id;
  known ← lift (if bool_decide (is_Some (dk_write_buffer s !! kv_hash entry)) then Ok true
                else entry_exists_on_disk s (kv_hash entry));
  modify (fun s => dk_set_write_buffer (<[kv_hash entry := entry]> (dk_write_buffer s)) s) ;;
  modify (count_new known) ;;
  s ← gets id;
  (if dk_hot_tail_enabled s then
     modify (fun s => dk_set_hot_buffer (dk_hot_buffer s ++ [entry]) s) ;;
     s ← gets id;
     if HOT_BUFFER_THRESHOLD <=? zlen (dk_hot_buffer s) then flush_hot_buffer else mret tt
   else mret tt) ;;
  s ← gets id;
  if WRITE_BUFFER_THRESHOLD <=? map_len (dk_write_buffer s) then flush else publish_buffer_only.

Definition put_buffer (hash : bytes) (entry : KVEntry) : MK unit :=
  modify (fun s => dk_set_write_buffer (<[hash := entry]> (dk_write_buffer s)) s).

Definition dec_entry_count : MK unit :=
  modify (fun s => dk_set_entry_count (saturating_sub (dk_entry_count s) 1) s).

Definition mark_deleted (hash : bytes) : MK unit :=
  s ← gets id;
  o ← lift (dk_get s hash);
  match o with
  | Some entry =>
    put_buffer hash (or_flags KV_FLAG_DELETED entry) ;;
    dec_entry_count ;;
    publish_buffer_only
  | None => mret tt
  end.

(** The entry to mark: buffered, else in the snapshot loaded at the start. *)
Definition mark_one (snapshot : ReadSnapshot) (hash : bytes) : MK unit :=
  s ← gets id;
  o ← lift (match dk_write_buffer s !! hash with
            | Some buffered => Ok (if is_deleted buffered then None else Some buffered)
            | None =>
              o ← get_raw snapshot hash;
              Ok (match o with Some e => if is_deleted e then None else Some e | None => None end)
            end);
  match o with
  | Some entry => put_buffer hash (or_flags KV_FLAG_DELETED entry) ;; dec_entry_count
  | None => mret tt
  end.

Definition mark_deleted_batch (hashes : list bytes) : MK unit :=
  snapshot ← gets dk_snapshot;
  for_each hashes (mark_one snapshot) ;;
  publish_buffer_only.

Definition with_flags (new_flags : Z) (e : KVEntry) : KVEntry :=
  let entry_type := Z.land (b2z (kv_type_flags e)) 0x0F in
  {| kv_type_flags := z2b (Z.lor entry_type (Z.land new_flags 0xF0)); kv_hash := kv_hash e;
     kv_offset := kv_offset e; kv_total_length := kv_total_length e |}.

Definition dk_update_flags (hash : bytes) (new_flags : Z) : MK bool :=
  s ← gets id;
  o ← lift (dk_get s hash);
  match o with
  | Some entry => put_buffer hash (with_flags new_flags entry) ;; publish_buffer_only ;; mret true
  | None => mret false
  end.

Definition dk_update_offset (hash : bytes) (new_offset : Z) : MK bool :=
  s ← gets id;
  o ← lift (dk_get s hash);
  match o with
  | Some entry => put_buffer hash (at_offset new_offset entry) ;; publish_buffer_only ;; mret true
  | None => mret false
  end.

Definition clear_write_buffer : MK unit := modify (dk_set_write_buffer ∅).

Definition buffer_only (entry : KVEntry) : MK unit :=
  s ← gets id;
  let is_new := bool_decide (dk_write_buffer s !! kv_hash entry = None) in
  put_buffer (kv_hash entry) entry ;;
  modify (count_new (negb is_new)).

Definition dk_drop : MK unit :=
  s ← gets id;
  if bool_decide (dk_write_buffer s = ∅) then mret tt else ignore_err flush.

(** ** Expansion of the block *)

(** [(e.offset as i64 + offset_delta) as u64] for the entries that moved. *)
Definition relocate_entry (old_kv_end relocation_end offset_delta : Z) (e : KVEntry) : KVEntry :=
  if (old_kv_end <=? kv_offset e) && (kv_offset e <? relocation_end)
  then at_offset (i64_bits (i64_of_bits (kv_offset e) + offset_delta)) e else e.

(** The header of the expanded layout: no resize in progress. *)
Definition expanded_layout (h : FileHeader) (new_block_size target_stage new_hot_tail : Z) : FileHeader :=
  {| fh_header_version := fh_header_version h; fh_hash_algo := fh_hash_algo h;
     fh_sequence := fh_sequence h; fh_created_at := fh_created_at h;
     fh_updated_at := fh_updated_at h; fh_kv_block_offset := fh_kv_block_offset h;
     fh_kv_block_length := new_block_size; fh_kv_block_version := fh_kv_block_version h;
     fh_nvt_offset := fh_nvt_offset h; fh_nvt_length := fh_nvt_length h;
     fh_nvt_version := fh_nvt_version h; fh_head_hash := fh_head_hash h;
     fh_entry_count := fh_entry_count h; fh_resize_in_progress := false;
     fh_buffer_kvs_offset := fh_buffer_kvs_offset h; fh_buffer_nvt_offset := fh_buffer_nvt_offset h;
     fh_hot_tail_offset := new_hot_tail; fh_kv_block_stage := z2b target_stage;
     fh_resize_target_stage := z2b 0; fh_backup_type := fh_backup_type h;
     fh_base_hash := fh_base_hash h; fh_target_hash := fh_target_hash h |}.

Definition write_expanded_header (new_block_size target_stage new_hot_tail : Z) : MK unit :=
  s ← gets id;
  '(header, active_slot) ← lift (read_active_header (dk_file s));
  let header := expanded_layout header new_block_size target_stage new_hot_tail in
  '(_, file) ← lift (write_header_to_inactive_slot (dk_file s) header active_slot);
  modify (dk_set_file file) : MK unit.

Definition finalize_expansion (target_stage old_kv_end relocation_end offset_delta new_hot_tail : Z)
    (pending_voids : list VoidRecord) : MK unit :=
  s ← gets id;
  let hl := dk_hl s in
  let psize := page_size hl in
  let '(new_block_size, new_bucket_count) := stage_params target_stage psize in
  let new_pages_size := new_bucket_count * psize in
  all_entries ← lift (dk_iter_all s);
  modify (fun s => dk_set_file (zero_pages (dk_file s) (dk_kv_block_offset s) new_bucket_count hl) s) ;;
  (if new_pages_size <? new_block_size then
     modify (fun s => dk_set_file (file_write (dk_file s) (dk_kv_block_offset s + new_pages_size)
       (zeros (new_block_size - new_pages_size))) s)
   else mret tt) ;;
  modify (dk_set_kv_block_length new_block_size) ;;
  modify (dk_set_stage target_stage) ;;
  modify (dk_set_bucket_count new_bucket_count) ;;
  modify (dk_set_nvt (NVT_new HashConverter new_bucket_count)) ;;
  modify (dk_set_hot_tail_offset new_hot_tail) ;;
  modify (dk_set_entry_count 0) ;;
  modify (dk_set_voids pending_voids) ;;
  modify (dk_set_write_buffer ∅) ;;
  modify (dk_set_hot_buffer []) ;;
  let adjusted := relocate_entry old_kv_end relocation_end offset_delta <$> all_entries in
  bulk_insert adjusted ;;
  flush_no_snapshot ;;
  modify (dk_set_entry_count (zlen adjusted)) ;;
  persist_hot_tail [] ;;
  write_expanded_header new_block_size target_stage new_hot_tail ;;
  publish_full_snapshot_with_new_nvt ;;
  modify (dk_set_needs_expansion None).
End DiskKv.
