(* ===== verification/DiskKvHalts.v ===== *)
(** Termination of the disk index: [flush] calls itself after a resize, and always
    returns; the fuel of the model is never used up. *)
From S2P Require Import Prelude Codec EntryFormat KvEntry KvPages FileIo HotTail FileHeader KvExpand Converters Nvt StateM KvSnapshot VoidRanges DiskKv.

Local Open Scope Z_scope.

Section Halts.
Context `{Crc32, ToScalar, HashOrder}.

Lemma persist_hot_tail_keeps writes : keeps dk_stage (persist_hot_tail writes).
Proof. unfold persist_hot_tail. keeps. Qed.

Lemma flush_hot_buffer_keeps : keeps dk_stage flush_hot_buffer.
Proof. unfold flush_hot_buffer. pose proof persist_hot_tail_keeps. keeps. Qed.

Lemma publish_full_keeps : keeps dk_stage publish_full_snapshot.
Proof.
  intros s. unfold halts, publish_full_snapshot. cbv zeta. destruct (ReadSnapshot_new _ _ _ _ _ _); eauto.
Qed.

Lemma publish_incremental_keeps mb : keeps dk_stage (publish_snapshot_incremental mb).
Proof.
  unfold publish_snapshot_incremental. keeps; [apply keeps_modify; intros s; by case_match|].
  match goal with |- keeps _ (let '(_, _) := ?x in _) => destruct x end. keeps.
Qed.

Lemma flush_bucket_keeps b es : keeps dk_stage (flush_bucket b es).
Proof.
  unfold flush_bucket, write_page. keeps.
  - case_match; keeps.
  - destruct (upsert_all _ _). keeps.
Qed.

Lemma flush_buckets_keeps l : keeps dk_stage (flush_buckets l).
Proof.
  induction l as [|[b es] l IH]; cbn [flush_buckets]; keeps. apply flush_bucket_keeps.
Qed.

Lemma flush_no_snapshot_keeps : keeps dk_stage flush_no_snapshot.
Proof. unfold flush_no_snapshot. pose proof flush_buckets_keeps. keeps. Qed.

Lemma bulk_insert_keeps es : keeps dk_stage (bulk_insert es).
Proof.
  apply keeps_for_each. intros e. unfold bulk_insert_one. pose proof flush_no_snapshot_keeps. keeps.
  apply keeps_modify. intros s. unfold count_new. by case_match.
Qed.

(** A resize that succeeds leaves the stage or moves to one of the table. *)
Lemma resize_halts s : halts resize_to_next_stage s (fun r s' =>
  r = Ok tt -> dk_stage s' = dk_stage s \/ dk_stage s' <= zlen KV_STAGE_SIZES - 1).
Proof.
  unfold resize_to_next_stage. apply halts_bind. exists (Ok s), s. split; [done|]. cbv zeta.
  case_match; [by eexists _, _|]. destruct (stage_params _ _) as [len n].
  case_match; [by eexists _, _; split; [done|left]|].
  apply halts_bind. eexists _, _. split; [done|]. destruct (dk_iter_all s) as [all| |]; [|done..].
  do 5 (apply halts_bind; eexists _, _; split; [done|]; cbv beta iota).
  eapply halts_mono.
  { apply (keeps_bind dk_stage (bulk_insert all)); [apply bulk_insert_keeps|]. intros [].
    apply keeps_bind; [apply flush_no_snapshot_keeps|]. intros []. apply keeps_bind; [by apply keeps_modify|]. intros [].
    unfold publish_full_snapshot_with_new_nvt. apply keeps_bind; [by apply keeps_modify|]. intros []. apply publish_full_keeps. }
  intros r s' E _. right. rewrite E. cbn. lia.
Qed.

Lemma flush_body_halts again s : 
  (forall s', dk_stage s < dk_stage s' <= zlen KV_STAGE_SIZES - 1 -> halts again s' (fun _ _ => True)) ->
  halts (flush_body again) s (fun _ _ => True).
Proof.
  intros Ha. unfold flush_body. apply halts_bind. exists (Ok s), s. split; [done|].
  case_bool_decide; [by eexists _, _|]. cbv zeta. apply halts_bind.
  eapply halts_mono; [apply flush_buckets_keeps|]. intros [overflow|e|] s1 E1; [|done..].
  apply halts_bind. eexists _, _. split; [done|]. cbv beta iota. case_bool_decide.
  { eapply halts_mono; [apply (keeps_bind dk_stage); [apply flush_hot_buffer_keeps|]|done]. intros [].
    pose proof persist_hot_tail_keeps. pose proof publish_incremental_keeps. keeps. }
  apply halts_bind. eapply halts_mono; [apply publish_incremental_keeps|]. intros [[]|e|] s2 E2; [|done..].
  apply halts_bind. eexists _, _. split; [done|]. cbv beta iota.
  apply halts_bind. eapply halts_mono; [apply resize_halts|]. intros [[]|e|] s3 E3; [|done..].
  specialize (E3 eq_refl). apply halts_bind. eexists _, _. split; [done|]. cbv beta iota.
  case_match eqn:Hlt.
  - apply halts_bind. eexists _, _. split; [done|]. cbv beta iota. apply Ha. cbn in *. lia.
  - eapply halts_mono; [apply (keeps_bind dk_stage); [by apply keeps_modify|]|done]. intros [].
    pose proof persist_hot_tail_keeps. pose proof publish_incremental_keeps. unfold publish_buffer_only. keeps.
Qed.

Lemma flush_loop_halts fuel : forall s, 0 < Z.of_nat fuel -> zlen KV_STAGE_SIZES - dk_stage s < Z.of_nat fuel ->
  halts (flush_loop fuel) s (fun _ _ => True).
Proof.
  induction fuel as [|fuel IH]; intros s Hf Hs; [lia|]. cbn [flush_loop]. apply flush_body_halts.
  intros s' Hs'. apply IH; lia.
Qed.

(** C32. [flush] always returns: from any state at any stage, whatever the file holds,
    the recursion after a resize ends. *)
Theorem flush_terminates s : 0 <= dk_stage s -> exists r s', flush s = Some (r, s').
Proof.
  intros Hs. destruct (flush_loop_halts 11 s) as (r & s' & E & _); [lia|change (zlen KV_STAGE_SIZES) with 10; lia|].
  by exists r, s'.
Qed.
End Halts.

(** ** Witnesses *)

(** A store over an empty file, which no flush can read. *)
Definition hollow_store : DiskKVStore :=
  {| dk_nvt := NVT_new HashConverter 1; dk_write_buffer := {[replicate 32 Byte.x01 := sample_kv Byte.x01 512]};
     dk_file := []; dk_kv_block_offset := 512; dk_kv_block_length := 65536; dk_hot_tail_offset := 66048;
     dk_hot_tail_enabled := true; dk_stage := 0; dk_hash_algo := Blake3_256; dk_entry_count := 1; dk_bucket_count := 45;
     dk_hot_buffer := []; dk_snapshot := sample_snapshot; dk_shared_nvt := NVT_new HashConverter 1;
     dk_needs_rebuild := false; dk_needs_expansion := None; dk_transaction_depth := 0; dk_pending_voids := [] |}.

Lemma flush_terminates_witness : exists r s', @flush crc32_ieee hash_to_scalar map_order hollow_store = Some (r, s').
Proof. exact (@flush_terminates crc32_ieee hash_to_scalar map_order hollow_store ltac:(discriminate)). Defined.
