(* ===== verification/DiskKvPages.v ===== *)
(** The pages of the disk index inside its file, and what the flush of the write
    buffer does to them: the lemmas behind the theorems of DiskKvSpec. *)
From S2P Require Import Prelude Codec EntryFormat KvEntry KvPages FileIo HotTail FileHeader KvExpand Converters Nvt StateM KvSnapshot VoidRanges DiskKv.

Local Open Scope Z_scope.

(** ** Bytes of a file *)

Lemma at_Some_lt file i x : 0 <= i -> at_ file i = Some x -> i < zlen file.
Proof. intros Hi Hx. unfold at_ in Hx. apply lookup_lt_Some in Hx. unfold zlen. lia. Qed.

Lemma at_file_set_len file n i x : 0 <= i < n -> at_ file i = Some x -> at_ (file_set_len file n) i = Some x.
Proof.
  intros Hi Hx. unfold at_, file_set_len in *. rewrite lookup_take_lt by lia. by apply lookup_app_l_Some.
Qed.

Lemma zlen_file_set_len file n : 0 <= n -> zlen (file_set_len file n) = n.
Proof.
  intros. unfold file_set_len, zlen, zeros. rewrite length_take, length_app, length_replicate. lia.
Qed.

Lemma slice_ext f g a b : 0 <= a -> b <= zlen f ->
  (forall i, a <= i < b -> at_ f i = at_ g i) -> slice f a b = slice g a b.
Proof.
  intros Ha Hf Heq. apply list_eq. intros i. destruct (decide (Z.of_nat i < b - a)) as [Hi|Hi].
  - unfold slice. rewrite !lookup_take_lt, !lookup_drop by lia.
    specialize (Heq (a + Z.of_nat i)). unfold at_ in Heq.
    replace (Z.to_nat (a + Z.of_nat i)) with (Z.to_nat a + i)%nat in Heq by lia. apply Heq. lia.
  - unfold slice. rewrite !lookup_ge_None_2; [done|..]; rewrite length_take; lia.
Qed.

Lemma at_file_write_out file off x i c : 0 <= off -> 0 <= i -> ~ (off <= i < off + zlen x) ->
  at_ file i = Some c -> at_ (file_write file off x) i = Some c.
Proof.
  intros Ho Hi Hout Hc. rewrite at_file_write by done. pose proof (at_Some_lt _ _ _ Hi Hc).
  repeat case_decide; [|lia|done]. by rewrite at_app_l by lia.
Qed.

(** ** Pages *)

Lemma page_size_pos hl : 0 <= hl -> 0 < page_size hl.
Proof. unfold page_size, PAGE_HEADER_SIZE, MAX_ENTRIES_PER_PAGE. lia. Qed.

Definition span_page (file : bytes) (off hl b : Z) : bytes :=
  slice file (off + bucket_page_offset b hl) (off + bucket_page_offset b hl + page_size hl).

(** The pages of [n] buckets from [off] on. *)
Definition span_pages (file : bytes) (off hl n : Z) : list bytes := span_page file off hl <$> seqZ 0 n.

Lemma zlen_span_pages file off hl n : 0 <= n -> zlen (span_pages file off hl n) = n.
Proof. intros. unfold span_pages, zlen. rewrite length_fmap, length_seqZ. lia. Qed.

Lemma span_pages_lookup file off hl n b page :
  span_pages file off hl n !! b = Some page <-> Z.of_nat b < n /\ page = span_page file off hl (Z.of_nat b).
Proof.
  unfold span_pages. rewrite list_lookup_fmap, fmap_Some. split.
  - intros (z & [-> Hb]%lookup_seqZ & ->). split; [lia|f_equal; lia].
  - intros [Hb ->]. exists (Z.of_nat b). split; [|done]. apply lookup_seqZ. lia.
Qed.

Lemma span_pages_at file off hl n b : 0 <= b < n ->
  span_pages file off hl n !! Z.to_nat b = Some (span_page file off hl b).
Proof. intros. apply span_pages_lookup. split; [lia|f_equal; lia]. Qed.

Lemma bucket_page_offset_mono a b hl : 0 <= hl -> a <= b -> bucket_page_offset a hl <= bucket_page_offset b hl.
Proof. intros Hhl. pose proof (page_size_pos hl Hhl). unfold bucket_page_offset. nia. Qed.

Lemma bucket_page_offset_succ b hl : bucket_page_offset (b + 1) hl = bucket_page_offset b hl + page_size hl.
Proof. unfold bucket_page_offset. lia. Qed.

(** The bytes of bucket [b], of [n] buckets. *)
Lemma page_bounds b n hl : 0 <= hl -> 0 <= b < n ->
  0 <= bucket_page_offset b hl /\ bucket_page_offset b hl + page_size hl <= bucket_page_offset n hl.
Proof.
  intros Hhl Hb. pose proof (page_size_pos hl Hhl). unfold bucket_page_offset. nia.
Qed.

(** Pages depend on the bytes below the end of the last one. *)
Lemma span_pages_ext f g off hl n : 0 <= hl -> 0 <= off -> off + bucket_page_offset n hl <= zlen f ->
  (forall i x, off <= i < off + bucket_page_offset n hl -> at_ f i = Some x -> at_ g i = Some x) ->
  span_pages g off hl n = span_pages f off hl n.
Proof.
  intros Hhl Ho Hf Heq. unfold span_pages. apply list_fmap_ext. intros k b [-> Hb]%lookup_seqZ.
  pose proof (page_bounds (0 + Z.of_nat k) n hl Hhl ltac:(lia)). symmetry. unfold span_page.
  apply slice_ext; [lia|lia|]. intros i Hi.
  destruct (lookup_lt_is_Some_2 f (Z.to_nat i)) as [x Hx]; [unfold zlen in Hf; lia|].
  fold (at_ f i) in Hx. rewrite Hx. symmetry. apply Heq; [lia|done].
Qed.

(** Writing a page replaces it and nothing else. *)
Lemma span_pages_write file off hl n b data : 0 <= hl -> 0 <= off -> 0 <= b < n ->
  off + bucket_page_offset n hl <= zlen file -> zlen data = page_size hl ->
  span_pages (file_write file (off + bucket_page_offset b hl) data) off hl n
    = <[Z.to_nat b := data]> (span_pages file off hl n).
Proof.
  intros Hhl Ho Hb Hf Hd. pose proof (page_bounds b n hl Hhl Hb) as [Hb0 Hb1].
  apply list_eq. intros i. destruct (decide (Z.of_nat i < n)) as [Hi|Hi].
  2: { rewrite !lookup_ge_None_2; [done|..]; rewrite ?length_insert;
       pose proof (zlen_span_pages file off hl n); pose proof (zlen_span_pages
         (file_write file (off + bucket_page_offset b hl) data) off hl n); unfold zlen in *; lia. }
  pose proof (span_pages_at (file_write file (off + bucket_page_offset b hl) data) off hl n (Z.of_nat i) ltac:(lia)) as E.
  rewrite Nat2Z.id in E. rewrite E. clear E.
  destruct (decide (Z.of_nat i = b)) as [<-|Hne].
  - rewrite Nat2Z.id, list_lookup_insert_eq.
    2: { pose proof (zlen_span_pages file off hl n). unfold zlen in *. lia. }
    f_equal. unfold span_page. pose proof (file_read_write file (off + bucket_page_offset (Z.of_nat i) hl) data _ ltac:(lia) Hd) as E.
    unfold file_read in E. destruct (_ <? _); [done|]. by injection E.
  - rewrite list_lookup_insert_ne by lia.
    pose proof (span_pages_at file off hl n (Z.of_nat i) ltac:(lia)) as E. rewrite Nat2Z.id in E. rewrite E.
    f_equal. unfold span_page. pose proof (page_bounds (Z.of_nat i) n hl Hhl ltac:(lia)) as [Hi0 Hi1].
    symmetry. apply slice_ext; [lia|lia|]. intros j Hj.
    destruct (lookup_lt_is_Some_2 file (Z.to_nat j)) as [x Hx]; [unfold zlen in Hf; lia|].
    fold (at_ file j) in Hx. rewrite Hx. symmetry. apply at_file_write_out; [lia|lia| |done].
    rewrite Hd. unfold bucket_page_offset in *. intros Hjb.
    assert (Z.of_nat i < b \/ b < Z.of_nat i) as [Hlt|Hlt] by lia; nia.
Qed.

Definition dk_pages (s : DiskKVStore) : list bytes :=
  span_pages (dk_file s) (dk_kv_block_offset s) (dk_hl s) (dk_bucket_count s).

(** The end of the last page. *)
Definition pages_end (s : DiskKVStore) : Z := page_offset s (dk_bucket_count s).

Lemma dk_hl_nonneg s : 0 <= dk_hl s.
Proof. apply hash_length_nonneg. Qed.

Lemma read_page_ok s b : 0 <= dk_kv_block_offset s -> pages_end s <= zlen (dk_file s) -> 0 <= b < dk_bucket_count s ->
  exists page, dk_pages s !! Z.to_nat b = Some page /\ read_page s b = Ok page.
Proof.
  intros Ho Hf Hb. eexists. split; [by apply span_pages_at|].
  pose proof (page_bounds b _ _ (dk_hl_nonneg s) Hb). unfold pages_end, page_offset in *.
  unfold read_page, file_read, page_offset. rewrite (proj2 (Z.ltb_ge _ _)) by lia. done.
Qed.

(** Bytes outside the pages and below the hot tail: the headers and the log. *)
Definition log_kept (s : DiskKVStore) (file : bytes) : Prop :=
  forall i x, 0 <= i < dk_hot_tail_offset s -> ~ (dk_kv_block_offset s <= i < pages_end s) ->
    at_ (dk_file s) i = Some x -> at_ file i = Some x.

(** ** Upserting into a page *)

Lemma upsert_wf (P : KVEntry -> Prop) es e : Forall P es -> P e -> Forall P (upsert_in_page es e).1.
Proof.
  intros Hes He. unfold upsert_in_page. destruct (list_find _ es) as [[i ?]|]; [by apply Forall_insert|].
  destruct (_ <? _); [|done]. apply Forall_app. by split; [|constructor].
Qed.

(** What fits goes to the page, what does not is returned: together they stand
    for the new entries over the old page. *)
Lemma upsert_all_spec (P : KVEntry -> Prop) new : forall es, page_ok es -> Forall P es -> Forall P new -> NoDup (kv_hash <$> new) ->
  let '(es', overflow) := upsert_all es new in
  page_ok es' /\ Forall P es' /\ overflow ⊆ new /\ page_map overflow ∪ page_map es' = page_map new ∪ page_map es.
Proof.
  induction new as [|e new IH]; intros es Hok Hes Hnew Hnd; cbn [upsert_all].
  { split_and!; done. }
  apply Forall_cons in Hnew as [He Hnew]. apply NoDup_cons in Hnd as [Hni Hnd].
  pose proof (upsert_in_page_spec es e Hok) as Hu. pose proof (upsert_wf P es e Hes He) as Hw.
  destruct (upsert_in_page es e) as [es1 fits]. destruct Hu as (Hok1 & _ & Hmap & _). simpl in Hw.
  specialize (IH es1 Hok1 Hw Hnew Hnd). destruct (upsert_all es1 new) as [es' overflow].
  destruct IH as (Hok' & Hw' & Hsub & Heq). apply page_map_None in Hni.
  assert (Hcons : forall l, page_map (e :: l) = <[kv_hash e := e]> (page_map l)) by done.
  split; [done|]. split; [done|]. destruct fits.
  - split; [set_solver|]. rewrite Heq, Hmap, Hcons, <- insert_union_l, insert_union_r by done. done.
  - split; [set_solver|]. rewrite !Hcons, <- !insert_union_l, Heq, Hmap. done.
Qed.

Lemma page_map_size es : NoDup (kv_hash <$> es) -> size (page_map es) = length es.
Proof.
  induction es as [|e es IH]; intros Hnd; [done|]. apply NoDup_cons in Hnd as [Hni Hnd].
  change (page_map (e :: es)) with (<[kv_hash e := e]> (page_map es)).
  rewrite map_size_insert_None by (by apply page_map_None). cbn [length]. by rewrite IH.
Qed.

Lemma page_map_size_le es : (size (page_map es) <= length es)%nat.
Proof.
  induction es as [|e es IH]; [done|]. change (page_map (e :: es)) with (<[kv_hash e := e]> (page_map es)).
  rewrite map_size_insert. cbn [length]. case_match; unfold id; lia.
Qed.

(** With room for all of them nothing overflows. *)
Lemma upsert_all_fits new : forall es, page_ok es -> NoDup (kv_hash <$> new) ->
  Z.of_nat (size (page_map new ∪ page_map es)) <= MAX_ENTRIES_PER_PAGE -> (upsert_all es new).2 = [].
Proof.
  induction new as [|e new IH]; intros es Hok Hnd Hl; [done|]. cbn [upsert_all].
  apply NoDup_cons in Hnd as [Hni Hnd]. apply page_map_None in Hni.
  change (page_map (e :: new)) with (<[kv_hash e := e]> (page_map new)) in Hl.
  pose proof (upsert_in_page_spec es e Hok) as Hu. destruct (upsert_in_page es e) as [es1 fits].
  destruct Hu as (Hok1 & Hfits & Hmap & _).
  assert (fits = true) as ->.
  { rewrite Hfits. apply bool_decide_eq_true_2. destruct (decide (kv_hash e ∈ kv_hash <$> es)) as [|Hout]; [by left|right].
    apply page_map_None in Hout. pose proof (page_map_size es (proj1 Hok)) as Hsz. unfold zlen. rewrite <- Hsz.
    rewrite <- insert_union_l in Hl. rewrite map_size_insert_None in Hl by (by apply lookup_union_None).
    pose proof (map_subseteq_size (page_map es) (page_map new ∪ page_map es)) as Hsub.
    assert (Hdom : (size (page_map es) <= size (page_map new ∪ page_map es))%nat).
    { rewrite <- !size_dom. apply subseteq_size. rewrite dom_union_L. set_solver. }
    lia. }
  specialize (IH es1 Hok1 Hnd). destruct (upsert_all es1 new) as [es2 ov]. cbn [snd] in *. apply IH.
  by rewrite Hmap, <- insert_union_r, insert_union_l.
Qed.

Section Flush.
Context `{Crc32, ToScalar, HashOrder}.

(** What is needed of the pages to flush into them. *)
Record store_pages (s : DiskKVStore) : Prop := {
  sp_offset : 0 <= dk_kv_block_offset s;
  sp_file : pages_end s <= zlen (dk_file s);
  sp_pages : pages_good (dk_nvt s) (dk_hl s) (dk_pages s);
  sp_count : nvt_bucket_count (dk_nvt s) = dk_bucket_count s;
  sp_pos : 0 < dk_bucket_count s;
}.

(** A group of entries that belong to bucket [b]. *)
Record group_ok (s : DiskKVStore) (g : Z * list KVEntry) : Prop := {
  go_wf : Forall (KVEntry_wf (dk_hl s)) g.2;
  go_bucket : Forall (fun e => bucket_for_value (dk_nvt s) (kv_hash e) = g.1) g.2;
  go_nodup : NoDup (kv_hash <$> g.2);
  go_range : 0 <= g.1 < dk_bucket_count s;
}.

Lemma page_entries_of page hl es : deserialize_page page hl = Ok es -> page_entries hl page = es.
Proof. unfold page_entries. by intros ->. Qed.

Lemma flush_bucket_spec s b new : store_pages s -> group_ok s (b, new) ->
  runs (flush_bucket b new) s (fun overflow s' =>
    exists page page', dk_pages s !! Z.to_nat b = Some page /\ zlen page' = page_size (dk_hl s) /\
      s' = dk_set_file (file_write (dk_file s) (page_offset s b) page') s /\
      page_good (dk_nvt s) (dk_hl s) b page' /\ overflow ⊆ new /\
      page_map overflow ∪ page_map (page_entries (dk_hl s) page')
        = page_map new ∪ page_map (page_entries (dk_hl s) page) /\
      (Z.of_nat (size (page_map new ∪ page_map (page_entries (dk_hl s) page))) <= MAX_ENTRIES_PER_PAGE -> overflow = [])).
Proof.
  intros [Ho Hf Hp Hn Hpos] [Hwf Hb Hnd Hr]. simpl in *. unfold flush_bucket. run.
  destruct (read_page_ok s b Ho Hf Hr) as (page & Hpage & Hread).
  apply (runs_lift _ page); [done|]. pose proof (Hp _ _ Hpage) as [Hdec Hok Hpwf Hpb].
  rewrite Z2Nat.id in Hpb by lia. apply runs_bind. rewrite Hdec. apply runs_ret.
  pose proof (upsert_all_spec (fun e => KVEntry_wf (dk_hl s) e /\ bucket_for_value (dk_nvt s) (kv_hash e) = b)
    new (page_entries (dk_hl s) page) Hok) as Hu. rewrite !Forall_and in Hu.
  pose proof (upsert_all_fits new (page_entries (dk_hl s) page) Hok Hnd) as Hfit.
  destruct (upsert_all _ new) as [es' overflow].
  destruct Hu as (Hok' & Hw' & Hsub & Heq); [done..|]. apply Forall_and in Hw' as [Hw' Hb'].
  destruct (serialize_page_ok es' (dk_hl s) (dk_hl_nonneg s) Hw') as (page' & Es & Hl & Hd).
  rewrite take_ge in Hd by (destruct Hok' as [_ Hle]; unfold MAX_ENTRIES_PER_PAGE, zlen in Hle; lia).
  run. apply (runs_lift _ page'); [done|]. unfold write_page. run.
  pose proof (page_entries_of _ _ _ Hd) as Epe. exists page, page'.
  split; [done|]. split; [done|]. split; [done|]. rewrite Epe. split; [by constructor; rewrite Epe|].
  split; [done|]. split; [done|]. exact Hfit.
Qed.
Lemma page_map_elem_of es h e : page_map es !! h = Some e -> e ∈ es /\ kv_hash e = h.
Proof.
  rewrite page_map_lookup. destruct (list_find _ es) as [[i e']|] eqn:E; [|done]. intros [= <-].
  apply list_find_Some in E as (Hi & Hh & _). split; [|done]. by eapply list_elem_of_lookup_2.
Qed.

Lemma page_map_other es h : (forall e, e ∈ es -> kv_hash e <> h) -> page_map es !! h = None.
Proof.
  intros Hn. destruct (page_map es !! h) as [e|] eqn:E; [|done].
  apply page_map_elem_of in E as [He Hh]. by destruct (Hn _ He).
Qed.

Lemma pages_good_insert nvt hl pages b page : 0 <= b -> pages_good nvt hl pages -> page_good nvt hl b page ->
  pages_good nvt hl (<[Z.to_nat b := page]> pages).
Proof.
  intros Hb Hg Hp k q Hk. apply list_lookup_insert_Some in Hk as [(<- & <- & _)|[_ Hk]]; [|by apply Hg].
  by rewrite Z2Nat.id by lia.
Qed.

(** The pages of the store with one page written. *)
Lemma dk_pages_write s b page : store_pages s -> 0 <= b < dk_bucket_count s -> zlen page = page_size (dk_hl s) ->
  dk_pages (dk_set_file (file_write (dk_file s) (page_offset s b) page) s) = <[Z.to_nat b := page]> (dk_pages s).
Proof.
  intros [Ho Hf _ _ _] Hb Hl. unfold dk_pages, page_offset. apply span_pages_write; try done. apply dk_hl_nonneg.
Qed.

Lemma page_write_inside s b page : store_pages s -> 0 <= b < dk_bucket_count s -> zlen page = page_size (dk_hl s) ->
  zlen (file_write (dk_file s) (page_offset s b) page) = zlen (dk_file s) /\
  forall i x, 0 <= i -> ~ (dk_kv_block_offset s <= i < pages_end s) -> at_ (dk_file s) i = Some x ->
    at_ (file_write (dk_file s) (page_offset s b) page) i = Some x.
Proof.
  intros [Ho Hf _ _ _] Hb Hl. pose proof (page_bounds b _ _ (dk_hl_nonneg s) Hb).
  unfold pages_end, page_offset in *. split; [rewrite zlen_file_write; lia|].
  intros i x Hi Hout Hx. apply at_file_write_out; [lia|done| |done]. lia.
Qed.

Definition outside_kept (s : DiskKVStore) (file : bytes) : Prop :=
  zlen file = zlen (dk_file s) /\
  forall i x, 0 <= i -> ~ (dk_kv_block_offset s <= i < pages_end s) -> at_ (dk_file s) i = Some x -> at_ file i = Some x.

Lemma bucket_group_other s b new h : group_ok s (b, new) -> bucket_for_value (dk_nvt s) h <> b ->
  page_map new !! h = None.
Proof.
  intros [_ Hb _ _] Hne. apply page_map_other. intros e He <-. simpl in Hb. rewrite Forall_forall in Hb. by apply Hne, Hb.
Qed.

Lemma groups_other s l h : Forall (group_ok s) l -> bucket_for_value (dk_nvt s) h ∉ l.*1 ->
  page_map (concat l.*2) !! h = None.
Proof.
  intros Hl Hni. induction Hl as [|[b new] l Hg Hl IH]; [done|]. cbn [fmap list_fmap concat fst snd] in *.
  apply not_elem_of_cons in Hni as [Hne Hni].
  by rewrite page_map_app, lookup_union, (bucket_group_other s b) , IH by done.
Qed.

Lemma page_map_sub_None es es' h : es ⊆ es' -> page_map es' !! h = None -> page_map es !! h = None.
Proof. rewrite !page_map_None, !list_elem_of_fmap. naive_solver. Qed.

Lemma pages_lookup_insert s b page h : store_pages s -> 0 <= b < dk_bucket_count s ->
  pages_lookup (dk_nvt s) (dk_hl s) (<[Z.to_nat b := page]> (dk_pages s)) h
    = if decide (bucket_for_value (dk_nvt s) h = b) then page_map (page_entries (dk_hl s) page) !! h
      else pages_lookup (dk_nvt s) (dk_hl s) (dk_pages s) h.
Proof.
  intros [_ _ _ Hn Hpos] Hb. unfold pages_lookup.
  pose proof (zlen_span_pages (dk_file s) (dk_kv_block_offset s) (dk_hl s) (dk_bucket_count s)) as Hl.
  fold (dk_pages s) in Hl. unfold zlen in Hl.
  pose proof (nvt_bucket_range (dk_nvt s) h). case_decide as Hd.
  - rewrite Hd, list_lookup_insert_eq by lia. done.
  - rewrite list_lookup_insert_ne by lia. done.
Qed.

(** Every group fits beside the entries of its page. *)
Definition groups_fit (s : DiskKVStore) (l : list (Z * list KVEntry)) : Prop :=
  Forall (fun g => forall page, dk_pages s !! Z.to_nat g.1 = Some page ->
    Z.of_nat (size (page_map g.2 ∪ page_map (page_entries (dk_hl s) page))) <= MAX_ENTRIES_PER_PAGE) l.

(** After the flush of the groups, what did not fit over the new pages stands for
    the groups over the old pages. *)
Lemma flush_buckets_spec l : forall s, store_pages s -> Forall (group_ok s) l -> NoDup l.*1 ->
  runs (flush_buckets l) s (fun overflow s' => exists file,
    s' = dk_set_file file s /\ store_pages s' /\ outside_kept s file /\ overflow ⊆ concat l.*2 /\
    (forall b, Z.of_nat b ∉ l.*1 -> dk_pages s' !! b = dk_pages s !! b) /\
    (groups_fit s l -> overflow = []) /\
    forall h, page_map overflow !! h ∪ pages_lookup (dk_nvt s) (dk_hl s) (dk_pages s') h
      = page_map (concat l.*2) !! h ∪ pages_lookup (dk_nvt s) (dk_hl s) (dk_pages s) h).
Proof.
  induction l as [|[b new] l IH]; intros s Hs Hl Hnd.
  - cbn [flush_buckets]. run. exists (dk_file s). split; [by destruct s|]. done.
  - cbn [flush_buckets fmap list_fmap concat fst snd] in *. apply Forall_cons in Hl as [Hg Hl].
    apply NoDup_cons in Hnd as [Hni Hnd]. run. eapply runs_mono; [by apply flush_bucket_spec|].
    intros ov1 s1 (page & page' & Hpage & Hlen & -> & Hgood & Hsub & Heq & Hfit1).
    set (s1 := dk_set_file _ s). pose proof (go_range _ _ Hg) as Hr. simpl in Hr.
    assert (Hp1 : dk_pages s1 = <[Z.to_nat b := page']> (dk_pages s)) by (by apply dk_pages_write).
    destruct (page_write_inside s b page' Hs Hr Hlen) as [Hz1 Hout1].
    assert (Hs1 : store_pages s1).
    { destruct Hs as [Ho Hf Hp Hn Hpos]. constructor; try done.
      - change (pages_end s1) with (pages_end s). change (dk_file s1) with (file_write (dk_file s) (page_offset s b) page'). lia.
      - rewrite Hp1. apply pages_good_insert; [lia|done|done]. }
    run. eapply runs_mono; [apply (IH s1 Hs1); [|done]|].
    { eapply Forall_impl; [exact Hl|]. intros g [? ? ? ?]. by constructor. }
    intros ov2 s2 (file & -> & Hs2 & [Hz2 Hout2] & Hsub2 & Hpg2 & Hfit2 & Heq2). run. exists file.
    split; [done|]. split; [done|]. split; [|split; [set_solver|split; [|split]]].
    + split; [by rewrite Hz2|]. intros i x Hi Ho Hx. apply Hout2; [done|done|]. by apply Hout1.
    + intros k Hk. rewrite Hpg2 by set_solver. rewrite Hp1. apply list_lookup_insert_ne. set_solver by lia.
    + intros [Hf1 Hf2]%Forall_cons. rewrite Hfit1 by (by apply Hf1). apply Hfit2.
      apply Forall_forall. intros g Hin q Hq. rewrite Forall_forall in Hf2. apply (Hf2 g Hin). rewrite Hp1 in Hq.
      rewrite list_lookup_insert_ne in Hq; [done|]. intros E. apply Hni. apply list_elem_of_fmap. exists g. split; [|done].
      rewrite Forall_forall in Hl. pose proof (go_range _ _ (Hl _ Hin)). lia.
    + intros h. specialize (Heq2 h). rewrite Hp1 in Heq2. change (dk_nvt s1) with (dk_nvt s) in Heq2.
      change (dk_hl s1) with (dk_hl s) in Heq2. rewrite (pages_lookup_insert s b page' h Hs Hr) in Heq2.
      rewrite !page_map_app, !lookup_union.
      assert (Hgl : bucket_for_value (dk_nvt s) h ∉ l.*1 -> page_map (concat l.*2) !! h = None)
        by (intros; by apply (groups_other s)).
      case_decide as Hd.
      * rewrite Hgl in * by (by rewrite Hd). rewrite (page_map_sub_None _ _ _ Hsub2) in *
          by (apply Hgl; by rewrite Hd). rewrite !option_union_right_id, !(left_id_L None (∪)) in *.
        rewrite Heq2. pose proof (f_equal (lookup h) Heq) as Hh. rewrite !lookup_union in Hh. rewrite Hh.
        f_equal. unfold pages_lookup. rewrite Hd, Hpage. done.
      * pose proof (bucket_group_other s b new h Hg Hd) as Hnone.
        rewrite (page_map_sub_None _ _ _ Hsub Hnone), Hnone, !(left_id_L None (∪)). done.
Qed.
(** ** Grouping the buffer by bucket *)

Lemma push_buckets_lookup nvt es : forall m b,
  (forall k l, m !! k = Some l -> l <> []) ->
  (foldl (push_bucket nvt) m es) !! b
    = match default [] (m !! b) ++ filter (fun e => bucket_for_value nvt (kv_hash e) = b) es with
      | [] => None | l => Some l end.
Proof.
  induction es as [|e es IH]; intros m b Hne.
  - cbn [foldl]. rewrite filter_nil, app_nil_r. destruct (m !! b) as [[|e l]|] eqn:E; [|done|done].
    by destruct (Hne _ _ E).
  - cbn [foldl]. rewrite IH.
    + unfold push_bucket at 1. cbv zeta. rewrite filter_cons. case_decide as Hd.
      * subst b. rewrite lookup_insert_eq. cbn [from_option id]. by rewrite <- app_assoc.
      * by rewrite lookup_insert_ne by done.
    + intros k l. unfold push_bucket. cbv zeta.
      rewrite lookup_insert_Some. intros [[_ <-]|[_ Hk]]; [|by eapply Hne]. by destruct (default _ _).
Qed.

Lemma group_lookup s b es : (b, es) ∈ group_by_bucket s <->
  es <> [] /\ es = filter (fun e => bucket_for_value (dk_nvt s) (kv_hash e) = b) (buffered_writes s).
Proof.
  unfold group_by_bucket. rewrite (bucket_iter_perm (foldl _ _ _)), elem_of_map_to_list, push_buckets_lookup
    by (intros k l; by rewrite lookup_empty).
  rewrite lookup_empty. cbn [from_option id app]. destruct (filter _ _) as [|e l]; naive_solver.
Qed.

Lemma groups_nodup s : NoDup (group_by_bucket s).*1.
Proof. unfold group_by_bucket. rewrite (bucket_iter_perm (foldl _ _ _)). apply NoDup_fst_map_to_list. Qed.

Lemma buffered_nodup s hl : buffer_ok hl (dk_write_buffer s) -> NoDup (kv_hash <$> buffered_writes s).
Proof. intros Hb. unfold buffered_writes. rewrite (buffer_values_hashes hl) by done. apply hash_iter_nodup. Qed.

Lemma groups_ok s : store_pages s -> buffer_ok (dk_hl s) (dk_write_buffer s) -> Forall (group_ok s) (group_by_bucket s).
Proof.
  intros Hs Hb. apply Forall_forall. intros [b es] [Hne ->]%group_lookup.
  assert (He : forall e, e ∈ filter (fun e => bucket_for_value (dk_nvt s) (kv_hash e) = b) (buffered_writes s) ->
    bucket_for_value (dk_nvt s) (kv_hash e) = b /\ KVEntry_wf (dk_hl s) e).
  { intros e [He1 He2]%list_elem_of_filter. split; [done|]. unfold buffered_writes in He2.
    rewrite (buffer_values_elem _ _ _ Hb) in He2. by apply (Hb _ _ He2). }
  constructor; cbn [fst snd].
  - apply Forall_forall. intros e Hin. by apply He.
  - apply Forall_forall. intros e Hin. by apply He.
  - apply NoDup_hash_filter. by apply (buffered_nodup s (dk_hl s)).
  - destruct Hs as [_ _ _ Hn Hpos]. destruct (filter _ _) as [|e es] eqn:E; [done|].
    destruct (He e) as [<- _]; [by left|]. rewrite <- Hn. apply nvt_bucket_range. lia.
Qed.

(** All groups together hold what the buffer holds. *)
Lemma groups_elem s e : e ∈ concat (group_by_bucket s).*2 <-> e ∈ buffered_writes s.
Proof.
  assert (Hc : forall (ll : list (list KVEntry)), e ∈ concat ll <-> exists l, l ∈ ll /\ e ∈ l).
  { induction ll as [|l ll IH]; cbn [concat]; [split; [by intros []%elem_of_nil|by intros (? & []%elem_of_nil & _)]|].
    rewrite elem_of_app, IH. split.
    - intros [He|(k & Hk & He)]; [by exists l; split; [left|]|by exists k; split; [right|]].
    - intros (k & [->|Hk]%elem_of_cons & He); [by left|right; eauto]. }
  rewrite Hc. split.
  - intros (l & ([b es] & -> & Hg)%list_elem_of_fmap & He). apply group_lookup in Hg as [_ ->].
    by apply list_elem_of_filter in He as [_ He].
  - intros He. set (b := bucket_for_value (dk_nvt s) (kv_hash e)).
    set (es := filter (fun e => bucket_for_value (dk_nvt s) (kv_hash e) = b) (buffered_writes s)).
    assert (Hes : e ∈ es) by (by apply list_elem_of_filter). exists es. split; [|done].
    apply list_elem_of_fmap. exists (b, es). split; [done|]. apply group_lookup. split; [|done].
    intros E. rewrite E in Hes. by apply elem_of_nil in Hes.
Qed.

Lemma groups_map s h : buffer_ok (dk_hl s) (dk_write_buffer s) ->
  page_map (concat (group_by_bucket s).*2) !! h = dk_write_buffer s !! h.
Proof.
  intros Hb. assert (He : forall e, e ∈ concat (group_by_bucket s).*2 <-> dk_write_buffer s !! kv_hash e = Some e).
  { intros e. rewrite groups_elem. by apply (buffer_values_elem (dk_hl s)). }
  destruct (dk_write_buffer s !! h) as [e|] eqn:E.
  - pose proof (Hb _ _ E) as [Hh _]. destruct (page_map _ !! h) as [e'|] eqn:E'.
    + apply page_map_elem_of in E' as [He' Hh']. apply He in He'. congruence.
    + apply page_map_None in E'. exfalso. apply E'. apply list_elem_of_fmap. exists e. split; [done|].
      apply He. congruence.
  - apply page_map_other. intros e Hin <-. apply He in Hin. congruence.
Qed.

(** The whole buffer flushed to the pages. *)
Lemma flush_buffer_spec s : store_pages s -> buffer_ok (dk_hl s) (dk_write_buffer s) ->
  runs (flush_buckets (group_by_bucket s)) s (fun overflow s' => exists file,
    s' = dk_set_file file s /\ store_pages s' /\ outside_kept s file /\
    (forall e, e ∈ overflow -> dk_write_buffer s !! kv_hash e = Some e) /\
    (forall b, Z.of_nat b ∉ (group_by_bucket s).*1 -> dk_pages s' !! b = dk_pages s !! b) /\
    (groups_fit s (group_by_bucket s) -> overflow = []) /\
    forall h, page_map overflow !! h ∪ pages_lookup (dk_nvt s) (dk_hl s) (dk_pages s') h
      = view (dk_write_buffer s) (dk_nvt s) (dk_hl s) (dk_pages s) h).
Proof.
  intros Hs Hb. eapply runs_mono; [apply flush_buckets_spec; [done|by apply groups_ok|apply groups_nodup]|].
  intros overflow s' (file & -> & Hs' & Hout & Hsub & Hpg & Hfit & Hv). exists file. split_and!; try done.
  - intros e He. apply (buffer_values_elem (dk_hl s)); [done|]. apply groups_elem. by apply Hsub.
  - intros h. rewrite Hv, groups_map by done. unfold view. by destruct (dk_write_buffer s !! h), (pages_lookup _ _ _ h).
Qed.
End Flush.
