(* ===== verification/DiskKvSpec.v ===== *)
(** What the disk index promises: every operation keeps the invariant [dk_ok],
    which ties buffer, pages, file and published snapshot together, and acts on
    the view [dk_view] as the corresponding operation of a finite map; the log
    between the pages and the hot tail is never touched. *)
From S2P Require Import Prelude Codec EntryFormat KvEntry KvPages FileIo HotTail FileHeader KvExpand Converters Nvt StateM KvSnapshot VoidRanges DiskKv DiskKvPages.

Local Open Scope Z_scope.

(** An invariant of the store after a change of fields it does not mention: what
    is left converts. *)
Ltac rebase Hb := destruct Hb as [[? ? ? ? ?] ? ? ? ? ? ?]; constructor; [by constructor|done..].

Section Spec.
Context `{Crc32, ToScalar, HashOrder}.

(** What the store holds for a hash, tombstones included. *)
Definition dk_view (s : DiskKVStore) : bytes -> option KVEntry :=
  view (dk_write_buffer s) (dk_nvt s) (dk_hl s) (dk_pages s).

(** A snapshot of the store's layout with a given buffer and given pages. *)
Record snap_of (s : DiskKVStore) (buffer : gmap bytes KVEntry) (pages : list bytes) (sn : ReadSnapshot) : Prop := {
  sf_buffer : rs_buffer sn = buffer;
  sf_nvt : rs_nvt sn = dk_nvt s;
  sf_count : rs_bucket_count sn = dk_bucket_count s;
  sf_algo : rs_hash_algo sn = dk_hash_algo s;
  sf_pages : rs_pages sn = pages;
  sf_types : build_page_type_counts pages (dk_hl s) (replicate 16 0) = Ok (rs_page_type_counts sn);
}.

(** Pages, buffer and layout. *)
Record dk_base (s : DiskKVStore) : Prop := {
  di_store : store_pages s;
  di_stage : 0 <= dk_stage s < zlen KV_STAGE_SIZES;
  di_params : stage_params (dk_stage s) (page_size (dk_hl s)) = (dk_kv_block_length s, dk_bucket_count s);
  di_nvt : dk_nvt s = NVT_new HashConverter (dk_bucket_count s);
  di_shared : dk_shared_nvt s = dk_nvt s;
  di_buffer : buffer_ok (dk_hl s) (dk_write_buffer s);
  di_tail : dk_hot_tail_enabled s = true -> dk_kv_block_offset s + dk_kv_block_length s <= dk_hot_tail_offset s;
}.

(** The invariant inside an operation: the snapshot's buffer may be behind. *)
Record dk_inv (s : DiskKVStore) : Prop := {
  di_base : dk_base s;
  di_snap : snap_of s (rs_buffer (dk_snapshot s)) (dk_pages s) (dk_snapshot s);
}.

(** Between operations the snapshot is up to date. *)
Definition published (s : DiskKVStore) : Prop := rs_buffer (dk_snapshot s) = dk_write_buffer s.
Definition dk_ok (s : DiskKVStore) : Prop := dk_inv s /\ published s.

(** What no operation but an expansion changes: the layout, the headers and the log. *)
Record frame (s s' : DiskKVStore) : Prop := {
  fr_offset : dk_kv_block_offset s' = dk_kv_block_offset s;
  fr_length : dk_kv_block_length s' = dk_kv_block_length s;
  fr_tail : dk_hot_tail_offset s <= dk_hot_tail_offset s';
  fr_enabled : dk_hot_tail_enabled s' = dk_hot_tail_enabled s;
  fr_stage : dk_stage s' = dk_stage s;
  fr_algo : dk_hash_algo s' = dk_hash_algo s;
  fr_count : dk_bucket_count s' = dk_bucket_count s;
  fr_log : log_kept s (dk_file s');
}.

(** ** Counts of pages *)

Definition counts_of (hl : Z) (pages : list bytes) (c : list Z) : Prop :=
  length c = 16%nat /\
  forall t, 0 <= t < 16 -> nth (Z.to_nat t) c 0 = zlen (filter (fun e => live_type t e = true) (all_entries hl pages)).

Lemma nth_zeros n k : nth n (replicate k 0) 0 = 0.
Proof. revert n. induction k as [|k IH]; intros [|n]; simpl; auto. Qed.

Lemma counts_of_build nvt hl pages c : 0 <= hl -> pages_good nvt hl pages ->
  build_page_type_counts pages hl (replicate 16 0) = Ok c <-> counts_of hl pages c.
Proof.
  intros Hhl Hg. assert (Hex : forall t, 0 <= t < 16 -> exists c', build_page_type_counts pages hl (replicate 16 0) = Ok c' /\
    length c' = 16%nat /\ nth (Z.to_nat t) c' 0 = zlen (filter (fun e => live_type t e = true) (all_entries hl pages))).
  { intros t Ht. destruct (page_type_counts_nth nvt hl t pages Hhl Ht Hg (replicate 16 0) eq_refl) as (c' & E & Hl & Hn).
    exists c'. split; [done|]. split; [done|]. rewrite Hn, nth_zeros. lia. }
  destruct (Hex 0 ltac:(lia)) as (c0 & E0 & Hl0 & _). split.
  - intros E. rewrite E in E0. apply Ok_inj in E0 as <-. split; [done|]. intros t Ht.
    destruct (Hex t Ht) as (c' & E' & _ & Hn). rewrite E in E'. by apply Ok_inj in E' as <-.
  - intros [Hl Hn]. rewrite E0. f_equal. apply (nth_ext _ _ 0 0); [congruence|]. intros n Hlt.
    destruct (Hex (Z.of_nat n) ltac:(lia)) as (c' & E' & _ & Hn'). rewrite E0 in E'. apply Ok_inj in E' as <-.
    specialize (Hn (Z.of_nat n) ltac:(lia)). rewrite Nat2Z.id in Hn, Hn'. congruence.
Qed.

Lemma page_counts_good nvt hl b page : 0 <= hl -> page_good nvt hl b page ->
  page_counts_or_zero page hl = Ok (count_live (replicate 16 0) (page_entries hl page)).
Proof.
  intros Hhl [Hd _ _ _]. unfold page_counts_or_zero. by rewrite live_type_counts_equiv, Hd by done.
Qed.

Lemma nth_zip_with (f : Z -> Z -> Z) l k n : (n < length l)%nat -> length l = length k ->
  nth n (zip_with f l k) 0 = f (nth n l 0) (nth n k 0).
Proof.
  intros Hl Hk. rewrite !nth_lookup, lookup_zip_with.
  destruct (lookup_lt_is_Some_2 l n) as [x ->]; [lia|]. destruct (lookup_lt_is_Some_2 k n) as [y ->]; [lia|]. done.
Qed.

Lemma adjust_counts_of hl pages c b old new : counts_of hl pages c -> pages !! b = Some old ->
  counts_of hl (<[b := new]> pages)
    (adjust_counts c (count_live (replicate 16 0) (page_entries hl old)) (count_live (replicate 16 0) (page_entries hl new))).
Proof.
  intros [Hl Hn] Hb. destruct (list_elem_of_split_length pages b old Hb) as (p1 & p2 & -> & ->).
  replace (length p1) with (length p1 + 0)%nat by lia. rewrite insert_app_r. cbn [insert list_insert].
  pose proof (fun t (Ht : 0 <= t < 16) => count_live_nth t (page_entries hl old) Ht (replicate 16 0) eq_refl) as Ho.
  pose proof (fun t (Ht : 0 <= t < 16) => count_live_nth t (page_entries hl new) Ht (replicate 16 0) eq_refl) as Hw.
  destruct (Ho 0 ltac:(lia)) as [Hlo _]. destruct (Hw 0 ltac:(lia)) as [Hlw _]. unfold adjust_counts. split.
  - rewrite !length_zip_with. lia.
  - intros t Ht. specialize (Hn t Ht). destruct (Ho t Ht) as [_ Hot]. destruct (Hw t Ht) as [_ Hwt].
    rewrite !nth_zip_with by (rewrite ?length_zip_with; lia). rewrite Hn, Hot, Hwt, nth_zeros.
    unfold all_entries, saturating_sub. rewrite !fmap_app. cbn [fmap list_fmap]. rewrite !concat_app. cbn [concat].
    rewrite !filter_app, !zlen_app. pose proof (zlen_nonneg (filter (fun e => live_type t e = true) (concat (page_entries hl <$> p1)))).
    pose proof (zlen_nonneg (filter (fun e => live_type t e = true) (concat (page_entries hl <$> p2)))).
    pose proof (zlen_nonneg (filter (fun e => live_type t e = true) (page_entries hl old))). lia.
Qed.

(** ** Publishing *)

Lemma read_page_lossy_ok s b : store_pages s -> 0 <= b < dk_bucket_count s ->
  dk_pages s !! Z.to_nat b = Some (read_page_lossy s b).
Proof.
  intros [Ho Hf _ _ _] Hb. unfold dk_pages. rewrite span_pages_at by done. f_equal.
  pose proof (page_bounds b _ _ (dk_hl_nonneg s) Hb). pose proof (page_size_pos _ (dk_hl_nonneg s)).
  unfold pages_end, page_offset in *. unfold span_page, read_page_lossy, slice, page_offset. cbv zeta.
  rewrite take_app_le by (rewrite length_drop; unfold zlen in *; lia). f_equal. lia.
Qed.

Lemma refresh_pages_spec s : store_pages s -> forall mb pages c,
  Forall (fun b => 0 <= b < dk_bucket_count s) mb -> zlen pages = dk_bucket_count s ->
  pages_good (dk_nvt s) (dk_hl s) pages -> counts_of (dk_hl s) pages c ->
  (forall b, Z.of_nat b ∉ mb -> pages !! b = dk_pages s !! b) ->
  exists c', refresh_pages s mb pages c = Ok (dk_pages s, c') /\ counts_of (dk_hl s) (dk_pages s) c'.
Proof.
  intros Hs. induction mb as [|b mb IH]; intros pages c Hmb Hl Hg Hc Hag; cbn [refresh_pages].
  - assert (Heq : pages = dk_pages s) by (apply list_eq; intros b; apply Hag; apply not_elem_of_nil).
    subst pages. by exists c.
  - apply Forall_cons in Hmb as [Hb Hmb]. rewrite (proj2 (Z.ltb_lt _ _)) by lia.
    destruct (lookup_lt_is_Some_2 pages (Z.to_nat b)) as [old Hold]; [unfold zlen in Hl; lia|].
    unfold index. rewrite (proj2 (Z.leb_le _ _)), (proj2 (Z.ltb_lt _ _)) by lia. cbn [andb]. rewrite Hold, bind_ret.
    pose proof (read_page_lossy_ok s b Hs Hb) as Hnew. set (new := read_page_lossy s b) in *.
    pose proof (sp_pages _ Hs _ _ Hnew) as Hgn. pose proof (Hg _ _ Hold) as Hgo.
    rewrite (page_counts_good _ _ _ _ (dk_hl_nonneg s) Hgo), bind_ret.
    rewrite (page_counts_good _ _ _ _ (dk_hl_nonneg s) Hgn), bind_ret. rewrite Z2Nat.id in Hgn by lia.
    apply IH; [done| | | |].
    + unfold zlen in *. rewrite length_insert. lia.
    + apply pages_good_insert; [lia|done|done].
    + by apply adjust_counts_of.
    + intros k Hk. destruct (decide (k = Z.to_nat b)) as [->|Hne].
      * rewrite list_lookup_insert_eq by (unfold zlen in Hl; lia). by rewrite Hnew.
      * rewrite list_lookup_insert_ne by done. apply Hag. intros [Heq|?]%elem_of_cons; [lia|done].
Qed.

(** The incremental publication brings a snapshot of older pages up to date. *)
Lemma publish_incremental_spec s mb buffer pages : store_pages s -> dk_shared_nvt s = dk_nvt s ->
  Forall (fun b => 0 <= b < dk_bucket_count s) mb -> zlen pages = dk_bucket_count s ->
  pages_good (dk_nvt s) (dk_hl s) pages -> snap_of s buffer pages (dk_snapshot s) ->
  (forall b, Z.of_nat b ∉ mb -> pages !! b = dk_pages s !! b) ->
  runs (publish_snapshot_incremental mb) s (fun _ s' => exists sn,
    s' = dk_set_snapshot sn s /\ snap_of s (dk_write_buffer s) (dk_pages s) sn).
Proof.
  intros Hs Hsh Hmb Hl Hg [Hbuf Hn Hc Ha Hp Ht] Hag. unfold publish_snapshot_incremental. run.
  rewrite Hsh, Z.eqb_refl. run. rewrite Hp.
  apply (counts_of_build (dk_nvt s)) in Ht; [|apply dk_hl_nonneg|done].
  destruct (refresh_pages_spec s Hs mb pages _ Hmb Hl Hg Ht Hag) as (c' & E & Hc').
  apply (runs_lift _ (dk_pages s, c')); [done|]. run. eexists. split; [done|].
  constructor; try done. apply (counts_of_build (dk_nvt s)); [apply dk_hl_nonneg|apply Hs|done].
Qed.

Lemma publish_buffer_spec s buffer pages : dk_shared_nvt s = dk_nvt s -> snap_of s buffer pages (dk_snapshot s) ->
  runs publish_buffer_only s (fun _ s' => exists sn, s' = dk_set_snapshot sn s /\ snap_of s (dk_write_buffer s) pages sn).
Proof.
  intros Hsh [Hbuf Hn Hc Ha Hp Ht]. unfold publish_buffer_only. run. eexists. split; [done|]. by constructor.
Qed.

(** ** The hot tail *)

Definition tail_payload (s : DiskKVStore) (writes : list KVEntry) : HotTailPayload :=
  {| ht_writes := writes; ht_voids := dk_pending_voids (sanitize_pending_voids s) |}.

(** The file holds the payload at the hot tail and ends after it. *)
Definition tail_holds (s : DiskKVStore) (p : HotTailPayload) : Prop :=
  dk_file s = take (Z.to_nat (dk_hot_tail_offset s)) (dk_file s) ++ serialize_hot_tail p (dk_hl s) /\
  dk_hot_tail_offset s <= zlen (dk_file s).

Lemma persist_hot_tail_spec s writes : 0 <= dk_hot_tail_offset s ->
  runs (persist_hot_tail writes) s (fun _ s' => exists file,
    s' = dk_set_file file (sanitize_pending_voids s) /\ dk_hot_tail_offset s <= zlen file /\
    (forall i x, 0 <= i < dk_hot_tail_offset s -> at_ (dk_file s) i = Some x -> at_ file i = Some x) /\
    tail_holds s' (tail_payload s writes)).
Proof.
  intros Ho. unfold persist_hot_tail. run. unfold write_hot_tail. cbv zeta.
  change (dk_hl (sanitize_pending_voids s)) with (dk_hl s).
  change (dk_file (sanitize_pending_voids s)) with (dk_file s).
  change (dk_hot_tail_offset (sanitize_pending_voids s)) with (dk_hot_tail_offset s).
  fold (tail_payload s writes). set (data := serialize_hot_tail _ _). set (off := dk_hot_tail_offset s) in *.
  set (file := file_set_len _ _). pose proof (zlen_nonneg data).
  assert (Hz : zlen file = off + zlen data) by (apply zlen_file_set_len; lia).
  assert (Hf : file = take (Z.to_nat off) (dk_file s ++ zeros (off - zlen (dk_file s))) ++ data).
  { unfold file, file_set_len. rewrite take_app_le.
    2: { pose proof (zlen_file_write (dk_file s) off data Ho). unfold zlen in *. lia. }
    unfold file_write. rewrite app_assoc, take_app_le.
    - apply take_ge. pose proof (take_pad (dk_file s) off Ho). rewrite length_app. unfold zlen in *. lia.
    - pose proof (take_pad (dk_file s) off Ho). rewrite length_app. unfold zlen in *. lia. }
  exists file. split; [done|]. split; [lia|]. split.
  - intros i x Hi Hx. rewrite Hf. unfold at_ in *. apply lookup_app_l_Some.
    rewrite lookup_take_lt by lia. by apply lookup_app_l_Some.
  - split; [|cbn [dk_file dk_hot_tail_offset dk_set_file]; change (dk_hot_tail_offset (sanitize_pending_voids s)) with off; lia].
    cbn [dk_file dk_set_file dk_hot_tail_offset]. change (dk_hot_tail_offset (sanitize_pending_voids s)) with off.
    change (serialize_hot_tail _ _) with data. rewrite Hf at 2.
    pose proof (take_pad (dk_file s) off Ho). rewrite take_app_le by (unfold zlen in *; lia).
    rewrite take_ge by (unfold zlen in *; lia). exact Hf.
Qed.

Lemma tail_holds_read s p : 0 <= dk_hot_tail_offset s -> HotTailPayload_wf (dk_hl s) p -> tail_holds s p ->
  read_hot_tail (dk_file s) (dk_hot_tail_offset s) (dk_hl s) = Ok (Some p).
Proof.
  intros Ho Hwf [Hf Hl]. rewrite read_hot_tail_equiv' by (done || apply dk_hl_nonneg).
  rewrite Hf, drop_app_ge by (rewrite length_take; lia). rewrite length_take.
  replace (_ - _)%nat with 0%nat by (unfold zlen in Hl; lia). rewrite drop_0.
  rewrite <- (app_nil_r (serialize_hot_tail _ _)). apply deserialize_serialize_hot_tail; [apply dk_hl_nonneg|done].
Qed.

(** ** Steps that only rewrite the hot tail *)

Record tail_step (s s' : DiskKVStore) : Prop := {
  ts_frame : frame s s';
  ts_base : dk_base s';
  ts_pages : dk_pages s' = dk_pages s;
  ts_nvt : dk_nvt s' = dk_nvt s;
  ts_buffer : dk_write_buffer s' = dk_write_buffer s;
  ts_snapshot : dk_snapshot s' = dk_snapshot s;
  ts_voids : dk_pending_voids s' `sublist_of` dk_pending_voids s;
}.

Lemma dk_hl_frame s s' : frame s s' -> dk_hl s' = dk_hl s.
Proof. intros [? ? ? ? ? Ha ? ?]. unfold dk_hl. by rewrite Ha. Qed.

Lemma pages_end_frame s s' : frame s s' -> pages_end s' = pages_end s.
Proof.
  intros Hf. pose proof (dk_hl_frame _ _ Hf) as Hh. destruct Hf as [Ho ? ? ? ? ? Hc ?].
  unfold pages_end, page_offset. by rewrite Ho, Hh, Hc.
Qed.

Lemma frame_refl s : frame s s.
Proof. constructor; try done. by intros i x. Qed.

Lemma frame_trans s1 s2 s3 : frame s1 s2 -> frame s2 s3 -> frame s1 s3.
Proof.
  intros H12 H23. pose proof (pages_end_frame _ _ H12) as He.
  destruct H12 as [? ? Ht ? ? ? ? Hl], H23 as [? ? Ht' ? ? ? ? Hl']. constructor; try congruence; [lia|].
  intros i x Hi Hout Hx. apply Hl'; [lia|congruence|]. by apply Hl.
Qed.

Lemma tail_step_refl s : dk_base s -> tail_step s s.
Proof. intros Hb. constructor; try done. apply frame_refl. Qed.

Lemma tail_step_trans s1 s2 s3 : tail_step s1 s2 -> tail_step s2 s3 -> tail_step s1 s3.
Proof. intros [] []. constructor; [by eapply frame_trans|done|congruence..|by etransitivity]. Qed.

Lemma pages_end_block s : dk_base s -> pages_end s <= dk_kv_block_offset s + dk_kv_block_length s.
Proof.
  intros [_ _ Hp _ _ _ _]. assert (E : dk_bucket_count s = dk_kv_block_length s / page_size (dk_hl s)).
  { unfold stage_params, buckets_for_block in Hp. cbv zeta in Hp. injection Hp as E1 E2. by rewrite <- E2, E1. }
  unfold pages_end, page_offset, bucket_page_offset. rewrite E, Z.mul_comm.
  pose proof (page_size_pos _ (dk_hl_nonneg s)). pose proof (Z.mul_div_le (dk_kv_block_length s) (page_size (dk_hl s))). lia.
Qed.

Lemma pages_end_ge s : store_pages s -> dk_kv_block_offset s <= pages_end s.
Proof.
  intros [_ _ _ _ Hpos]. unfold pages_end, page_offset. pose proof (page_bounds 0 _ _ (dk_hl_nonneg s) (conj (Z.le_refl 0) Hpos)).
  pose proof (page_size_pos _ (dk_hl_nonneg s)). lia.
Qed.

Lemma persist_step s writes : dk_base s -> dk_hot_tail_enabled s = true ->
  runs (persist_hot_tail writes) s (fun _ s' => tail_step s s' /\ 
    tail_holds s' {| ht_writes := writes; ht_voids := dk_pending_voids s' |} /\
    dk_transaction_depth s' = dk_transaction_depth s /\ dk_hot_buffer s' = dk_hot_buffer s).
Proof.
  intros Hb He. pose proof (pages_end_block s Hb) as Hpe. destruct Hb as [Hst Hsg Hpa Hnv Hsh Hbu Hta].
  pose proof (pages_end_ge s Hst) as Hge. pose proof (Hta He) as Hto. pose proof (sp_offset _ Hst) as Ho.
  eapply runs_mono; [apply persist_hot_tail_spec; lia|].
  intros [] s' (file & -> & Hlen & Hlow & Hold). set (s' := dk_set_file file _) in *.
  assert (Hpg : dk_pages s' = dk_pages s).
  { unfold dk_pages. apply span_pages_ext; [apply dk_hl_nonneg|done|apply Hst|].
    intros i x Hi Hx. apply Hlow; [|done]. unfold pages_end, page_offset in *. lia. }
  split; [|done]. constructor; try done.
  - constructor; try done. intros i x Hi _ Hx. by apply Hlow.
  - constructor; try done. destruct Hst as [_ Hf Hp Hn Hpos]. constructor; try done.
    + change (pages_end s') with (pages_end s). change (dk_file s') with file. lia.
    + by rewrite Hpg.
  - apply sublist_filter.
Qed.

Lemma flush_hot_buffer_step s : dk_base s ->
  runs flush_hot_buffer s (fun _ s' => tail_step s s' /\ dk_transaction_depth s' = dk_transaction_depth s).
Proof.
  intros Hb. unfold flush_hot_buffer. run. case_match eqn:Hc.
  - run. split; [by apply tail_step_refl|done].
  - apply orb_false_iff in Hc as [_ He%negb_false_iff]. run.
    eapply runs_mono; [by apply persist_step|]. intros [] s' (Hts & _ & Htd & _). run.
    split; [|done]. eapply tail_step_trans; [exact Hts|]. destruct Hts as [_ Hb' _ _ _ _ _].
    constructor; try done; [by constructor; try done; intros i x|by rebase Hb'].
Qed.

(** ** Flushing *)

Definition last_stage : Z := zlen KV_STAGE_SIZES - 1.

(** The next stage's pages never fit the current block: a resize in place is
    refused and an expansion is asked for. *)
Lemma next_stage_larger algo stage len n len' n' : 0 <= stage < last_stage ->
  stage_params stage (page_size (hash_length algo)) = (len, n) ->
  stage_params (stage + 1) (page_size (hash_length algo)) = (len', n') ->
  len < n' * page_size (hash_length algo).
Proof.
  unfold last_stage. change (zlen KV_STAGE_SIZES) with 10. intros Hs.
  assert (stage = 0 \/ stage = 1 \/ stage = 2 \/ stage = 3 \/ stage = 4 \/ stage = 5 \/ stage = 6 \/ stage = 7 \/ stage = 8)
    as Hc by lia.
  destruct algo; repeat (destruct Hc as [->|Hc]); try subst stage; vm_compute; intros [= <- <-] [= <- <-]; done.
Qed.

Lemma resize_refused s : dk_base s -> dk_stage s < last_stage ->
  runs resize_to_next_stage s (fun _ s' => exists o, s' = dk_set_needs_expansion o s).
Proof.
  intros [_ Hsg Hpa _ _ _ _] Hlast. unfold resize_to_next_stage. run. fold last_stage.
  rewrite Z.min_l by lia. rewrite (proj2 (Z.eqb_neq _ _)) by lia.
  destruct (stage_params (dk_stage s + 1) _) as [len' n'] eqn:E.
  rewrite (proj2 (Z.ltb_lt _ _)); [run; eauto|].
  eapply next_stage_larger; [|exact Hpa|exact E]. lia.
Qed.

Definition insert_all (m : gmap bytes KVEntry) (es : list KVEntry) : gmap bytes KVEntry :=
  foldl (fun m e => <[kv_hash e := e]> m) m es.

Lemma insert_all_snoc m es e : insert_all m (es ++ [e]) = <[kv_hash e := e]> (insert_all m es).
Proof. unfold insert_all. by rewrite foldl_snoc. Qed.

Lemma insert_all_cases m es h :
  (exists e, e ∈ es /\ kv_hash e = h /\ insert_all m es !! h = Some e) \/
  (h ∉ kv_hash <$> es /\ insert_all m es !! h = m !! h).
Proof.
  induction es as [|e es IH] using rev_ind; [right; split; [apply not_elem_of_nil|done]|].
  rewrite insert_all_snoc. destruct (decide (kv_hash e = h)) as [<-|Hne].
  - left. exists e. rewrite lookup_insert_eq. set_solver.
  - rewrite lookup_insert_ne by done. destruct IH as [(e' & He & Hh & ->)|[Hni ->]]; [left; exists e'; set_solver|].
    right. split; [|done]. rewrite fmap_app. set_solver.
Qed.

(** Entries taken from a buffer, put back into an empty one. *)
Lemma rebuffer_lookup (buffer : gmap bytes KVEntry) es h : (forall e, e ∈ es -> buffer !! kv_hash e = Some e) ->
  insert_all ∅ es !! h = page_map es !! h.
Proof.
  intros Hes. destruct (insert_all_cases ∅ es h) as [(e & He & <- & ->)|[Hni ->]].
  - destruct (page_map es !! kv_hash e) as [e'|] eqn:E.
    + apply page_map_elem_of in E as [He' Hh]. apply Hes in He, He'. congruence.
    + apply page_map_None in E. destruct E. apply list_elem_of_fmap. eauto.
  - rewrite lookup_empty. symmetry. by apply page_map_None.
Qed.

Lemma rebuffer_ok hl buffer es : buffer_ok hl buffer -> (forall e, e ∈ es -> buffer !! kv_hash e = Some e) ->
  buffer_ok hl (insert_all ∅ es).
Proof.
  intros Hb Hes h e. rewrite (rebuffer_lookup buffer) by done. intros [He <-]%page_map_elem_of.
  split; [done|]. by apply (Hb _ _ (Hes _ He)).
Qed.

Lemma groups_in_range s : store_pages s -> buffer_ok (dk_hl s) (dk_write_buffer s) ->
  Forall (fun b => 0 <= b < dk_bucket_count s) (group_by_bucket s).*1.
Proof.
  intros Hs Hb. apply Forall_fmap. eapply Forall_impl; [by apply groups_ok|]. intros [b es] Hg. apply Hg.
Qed.

Lemma snap_of_layout s s' buffer pages sn : dk_nvt s' = dk_nvt s -> dk_bucket_count s' = dk_bucket_count s ->
  dk_hash_algo s' = dk_hash_algo s -> snap_of s buffer pages sn -> snap_of s' buffer pages sn.
Proof. intros Hn Hc Ha []. unfold dk_hl in *. constructor; unfold dk_hl; congruence. Qed.

Lemma zlen_dk_pages s : store_pages s -> zlen (dk_pages s) = dk_bucket_count s.
Proof. intros [_ _ _ _ Hpos]. apply zlen_span_pages. lia. Qed.

(** The pages after the flush of the buffer, the buffer empty. *)
Lemma flushed_base s file : dk_base s -> store_pages (dk_set_file file s) ->
  dk_base (dk_set_write_buffer ∅ (dk_set_file file s)).
Proof.
  intros Hb Hs. destruct Hb as [_ ? ? ? ? ? ?]. constructor; try done. destruct Hs. by constructor.
Qed.

Lemma outside_log s file : outside_kept s file -> log_kept s file.
Proof. intros [_ Hout] i x Hi Ho Hx. apply Hout; [lia|done|done]. Qed.

(** After the pages are written: the hot tail, then the new pages are published. *)
Lemma publish_flushed s mb pages : dk_base s -> Forall (fun b => 0 <= b < dk_bucket_count s) mb ->
  zlen pages = dk_bucket_count s -> pages_good (dk_nvt s) (dk_hl s) pages ->
  snap_of s (rs_buffer (dk_snapshot s)) pages (dk_snapshot s) ->
  (forall b, Z.of_nat b ∉ mb -> pages !! b = dk_pages s !! b) ->
  runs (publish_snapshot_incremental mb) s (fun _ s' => exists sn, s' = dk_set_snapshot sn s /\ dk_ok s').
Proof.
  intros Hb Hmb Hl Hg Hsn Hag. eapply runs_mono; [eapply publish_incremental_spec; try done; apply Hb|].
  intros [] s' (sn & -> & Hsn'). exists sn. split; [done|]. split; [constructor|].
  - by rebase Hb.
  - change (dk_snapshot (dk_set_snapshot sn s)) with sn. rewrite (sf_buffer _ _ _ _ Hsn').
    eapply snap_of_layout; [..|exact Hsn']; done.
  - apply Hsn'.
Qed.

(** The outcome of a flush: the same view, all of it published, and what is left
    in the buffer also in the hot tail. *)
Definition tail_current (s : DiskKVStore) : Prop :=
  tail_holds s {| ht_writes := buffered_writes s; ht_voids := dk_pending_voids s |}.

Record flushed (s s' : DiskKVStore) : Prop := {
  fl_ok : dk_ok s';
  fl_frame : frame s s';
  fl_view : forall h, dk_view s' h = dk_view s h;
  fl_buffer : dk_write_buffer s' ⊆ dk_write_buffer s;
  fl_voids : dk_pending_voids s' `sublist_of` dk_pending_voids s;
  fl_depth : dk_transaction_depth s' = dk_transaction_depth s;
  fl_tail : dk_hot_tail_enabled s = true -> dk_transaction_depth s = 0 -> tail_current s';
}.

Lemma buffered_empty s : dk_write_buffer s = ∅ -> buffered_writes s = [].
Proof.
  intros E. unfold buffered_writes. rewrite E. pose proof (hash_iter_perm ∅) as Hp.
  rewrite map_to_list_empty in Hp. by apply Permutation_nil_r in Hp as ->.
Qed.

Lemma flush_fits s file mb : dk_base s -> snap_of s (rs_buffer (dk_snapshot s)) (dk_pages s) (dk_snapshot s) ->
  Forall (fun b => 0 <= b < dk_bucket_count s) mb -> store_pages (dk_set_file file s) -> outside_kept s file ->
  (forall b, Z.of_nat b ∉ mb -> dk_pages (dk_set_file file s) !! b = dk_pages s !! b) ->
  (forall h, pages_lookup (dk_nvt s) (dk_hl s) (dk_pages (dk_set_file file s)) h = dk_view s h) ->
  runs (flush_hot_buffer ;; s ← gets id;
        (if (dk_transaction_depth s =? 0) && dk_hot_tail_enabled s then persist_hot_tail [] else mret tt) ;;
        publish_snapshot_incremental mb)
    (dk_set_write_buffer ∅ (dk_set_file file s)) (fun _ s' => flushed s s').
Proof.
  intros Hb Hsn Hmb Hst Hout Hag Hv. pose proof (flushed_base _ _ Hb Hst) as Hb1.
  set (s1 := dk_set_write_buffer ∅ _) in *. run. eapply runs_mono; [by apply flush_hot_buffer_step|].
  intros [] s2 [H12 Hd2]. run.
  apply (runs_mono _ _ (fun _ s3 => tail_step s1 s3 /\ dk_transaction_depth s3 = dk_transaction_depth s /\
    (dk_hot_tail_enabled s = true -> dk_transaction_depth s = 0 ->
     tail_holds s3 {| ht_writes := []; ht_voids := dk_pending_voids s3 |}))).
  { pose proof (fr_enabled _ _ (ts_frame _ _ H12)) as He2. case_match eqn:Hc.
    - apply andb_true_iff in Hc as [_ He].
      eapply runs_mono; [apply persist_step; [apply H12|done]|]. intros [] s3 (H23 & Ht & Hd3 & _).
      split; [by eapply tail_step_trans|]. split; [by rewrite Hd3, Hd2|done].
    - run. split; [done|]. split; [by rewrite Hd2|]. intros E1 E2. rewrite He2, Hd2 in Hc.
      change (dk_transaction_depth s1) with (dk_transaction_depth s) in Hc.
      change (dk_hot_tail_enabled s1) with (dk_hot_tail_enabled s) in Hc. by rewrite E1, E2 in Hc. }
  intros [] s3 ([Hf Hb3 Hp Hn Hbu Hss Hvo] & Hd3 & Ht3).
  assert (Hl3 : dk_hl s3 = dk_hl s) by (apply (dk_hl_frame _ _ Hf)).
  assert (Hc3 : dk_bucket_count s3 = dk_bucket_count s) by apply Hf.
  eapply runs_mono; [apply (publish_flushed s3 mb (dk_pages s) Hb3)|].
  - by rewrite Hc3.
  - rewrite Hc3. apply zlen_dk_pages, Hb.
  - rewrite Hl3, Hn. apply Hb.
  - rewrite Hss. eapply snap_of_layout; [..|exact Hsn]; [done|done|apply Hf].
  - intros b Hni. rewrite Hp. symmetry. by apply Hag.
  - intros [] s4 (sn & -> & Hok). constructor; [done|..].
    + eapply frame_trans; [|eapply frame_trans; [exact Hf|]]; constructor; try done; [|by intros i x].
      by apply outside_log.
    + intros h. rewrite <- Hv. unfold dk_view, view. cbn [dk_write_buffer dk_set_snapshot]. rewrite Hbu.
      change (dk_write_buffer s1) with (∅ : gmap bytes KVEntry). rewrite lookup_empty.
      change (dk_hl (dk_set_snapshot sn s3)) with (dk_hl s3). rewrite Hl3.
      change (dk_pages (dk_set_snapshot sn s3)) with (dk_pages s3). rewrite Hp.
      change (dk_nvt (dk_set_snapshot sn s3)) with (dk_nvt s3). by rewrite Hn.
    + change (dk_write_buffer s3 ⊆ dk_write_buffer s). rewrite Hbu. apply map_empty_subseteq.
    + done.
    + done.
    + intros E1 E2. unfold tail_current. rewrite buffered_empty by exact Hbu. by apply Ht3.
Qed.

(** Entries that do not fit their page stay in the buffer and go to the hot tail. *)
Lemma flush_overflows s file mb overflow again :
  dk_base s -> snap_of s (rs_buffer (dk_snapshot s)) (dk_pages s) (dk_snapshot s) -> dk_stage s < last_stage ->
  Forall (fun b => 0 <= b < dk_bucket_count s) mb -> store_pages (dk_set_file file s) -> outside_kept s file ->
  (forall e, e ∈ overflow -> dk_write_buffer s !! kv_hash e = Some e) ->
  (forall b, Z.of_nat b ∉ mb -> dk_pages (dk_set_file file s) !! b = dk_pages s !! b) ->
  (forall h, page_map overflow !! h ∪ pages_lookup (dk_nvt s) (dk_hl s) (dk_pages (dk_set_file file s)) h = dk_view s h) ->
  runs (publish_snapshot_incremental mb ;;
        old_stage ← gets dk_stage;
        resize_to_next_stage ;;
        stage ← gets dk_stage;
        if old_stage <? stage then rebuffer overflow ;; again else
        rebuffer overflow ;;
        s ← gets id;
        (if dk_hot_tail_enabled s then persist_hot_tail (buffered_writes s) else mret tt) ;;
        publish_snapshot_incremental mb ;;
        publish_buffer_only)
    (dk_set_write_buffer ∅ (dk_set_file file s)) (fun _ s' => flushed s s').
Proof.
  intros Hb Hsn Hlast Hmb Hst Hout Hov Hag Hv. pose proof (flushed_base _ _ Hb Hst) as Hb1.
  set (s1 := dk_set_write_buffer ∅ _) in *. run.
  eapply runs_mono; [apply (publish_flushed s1 mb (dk_pages s) Hb1 Hmb)|].
  { exact (zlen_dk_pages s (di_store _ Hb)). }
  { exact (sp_pages _ (di_store _ Hb)). }
  { eapply snap_of_layout; [..|exact Hsn]; done. }
  { intros b Hni. symmetry. by apply Hag. }
  intros [] s2 (sn & -> & Hinv2 & _). run.
  eapply runs_mono; [apply resize_refused; [apply Hinv2|done]|]. intros [] s3 (o & ->). run.
  rewrite Z.ltb_irrefl. unfold rebuffer. run. fold (insert_all ∅ overflow).
  set (s4 := dk_set_write_buffer _ _).
  assert (Hb4 : dk_base s4).
  { destruct Hb1 as [Hs1 ? ? ? ? ? ?]. constructor; try done; [destruct Hs1; by constructor|].
    apply (rebuffer_ok _ (dk_write_buffer s)); [apply Hb|done]. }
  apply (runs_mono _ _ (fun _ s5 => tail_step s4 s5 /\ dk_transaction_depth s5 = dk_transaction_depth s /\
    (dk_hot_tail_enabled s = true -> tail_holds s5 {| ht_writes := buffered_writes s4; ht_voids := dk_pending_voids s5 |}))).
  { change (dk_hot_tail_enabled s4) with (dk_hot_tail_enabled s). case_match eqn:He.
    - eapply runs_mono; [by apply persist_step|]. intros [] s5 (H5 & Ht & Hd & _). done.
    - run. split; [by apply tail_step_refl|done]. }
  intros [] s5 ([Hf Hb5 Hp Hn Hbu Hss Hvo] & Hd5 & Ht5).
  assert (Hl5 : dk_hl s5 = dk_hl s) by (apply (dk_hl_frame _ _ Hf)).
  assert (Hc5 : dk_bucket_count s5 = dk_bucket_count s) by apply Hf.
  assert (Hsn5 : snap_of s5 (rs_buffer (dk_snapshot s5)) (dk_pages s5) (dk_snapshot s5)).
  { rewrite Hp, Hss. eapply snap_of_layout; [..|exact (di_snap _ Hinv2)]; [done|done|apply Hf]. }
  run. eapply runs_mono; [apply (publish_flushed s5 mb (dk_pages s5) Hb5)|].
  { by rewrite Hc5. }
  { apply zlen_dk_pages, Hb5. }
  { exact (sp_pages _ (di_store _ Hb5)). }
  { done. }
  { done. }
  intros [] s6 (sn6 & -> & [Hinv6 _]).
  eapply runs_mono; [eapply publish_buffer_spec; [apply Hinv6|apply Hinv6]|].
  intros [] s7 (sn7 & -> & Hsn7). constructor.
  - split; [|apply Hsn7]. constructor; [by rebase Hb5|].
    change (dk_snapshot (dk_set_snapshot sn7 _)) with sn7. rewrite (sf_buffer _ _ _ _ Hsn7).
    eapply snap_of_layout; [..|exact Hsn7]; done.
  - eapply frame_trans; [|eapply frame_trans; [exact Hf|]]; constructor; try done; [|by intros i x].
    by apply outside_log.
  - intros h. rewrite <- Hv. unfold dk_view, view. cbn [dk_write_buffer dk_set_snapshot]. rewrite Hbu.
    change (dk_write_buffer s4) with (insert_all ∅ overflow). rewrite (rebuffer_lookup (dk_write_buffer s)) by done.
    change (dk_hl (dk_set_snapshot _ (dk_set_snapshot _ s5))) with (dk_hl s5). rewrite Hl5.
    change (dk_pages (dk_set_snapshot _ (dk_set_snapshot _ s5))) with (dk_pages s5). rewrite Hp.
    change (dk_nvt (dk_set_snapshot _ (dk_set_snapshot _ s5))) with (dk_nvt s5). rewrite Hn.
    change (dk_nvt s4) with (dk_nvt s). change (dk_pages s4) with (dk_pages (dk_set_file file s)).
    by destruct (page_map overflow !! h), (pages_lookup _ _ _ h).
  - change (dk_write_buffer s5 ⊆ dk_write_buffer s). rewrite Hbu. apply map_subseteq_spec. intros h e.
    change (dk_write_buffer s4) with (insert_all ∅ overflow). rewrite (rebuffer_lookup (dk_write_buffer s)) by done.
    intros [He <-]%page_map_elem_of. by apply Hov.
  - done.
  - done.
  - intros E1 _. unfold tail_current. unfold buffered_writes. cbn [dk_write_buffer dk_set_snapshot].
    rewrite Hbu. by apply Ht5.
Qed.

(** Publishing and the hot tail touch the file, the snapshot with its table, the journal
    and the voids and nothing else. *)
Record untouched {T} (f : DiskKVStore -> T) : Prop := {
  un_file : forall v s, f (dk_set_file v s) = f s;
  un_snapshot : forall v s, f (dk_set_snapshot v s) = f s;
  un_hot_buffer : forall v s, f (dk_set_hot_buffer v s) = f s;
  un_voids : forall v s, f (dk_set_voids v s) = f s;
  un_shared : forall v s, f (dk_set_shared_nvt v s) = f s;
}.

Lemma needs_expansion_untouched : untouched dk_needs_expansion.
Proof. by split. Qed.
Lemma hot_tail_untouched : untouched dk_hot_tail_offset.
Proof. by split. Qed.

Lemma persist_preserves {T} (f : DiskKVStore -> T) writes : untouched f -> preserves f (persist_hot_tail writes).
Proof.
  intros [Hf _ _ Hv _]. unfold persist_hot_tail. apply preserves_bind; [|intros []]; apply preserves_modify; intros s; [apply Hv|].
  destruct (write_hot_tail _ _ _ _). apply Hf.
Qed.

Lemma flush_hot_preserves {T} (f : DiskKVStore -> T) : untouched f -> preserves f flush_hot_buffer.
Proof.
  intros Hu. unfold flush_hot_buffer. pose proof (fun w => persist_preserves f w Hu). preserves.
  apply preserves_modify, Hu.
Qed.

Lemma publish_buffer_preserves {T} (f : DiskKVStore -> T) : untouched f -> preserves f publish_buffer_only.
Proof. intros Hu. unfold publish_buffer_only. preserves. apply preserves_modify. intros s. apply Hu. Qed.

Lemma publish_incremental_preserves {T} (f : DiskKVStore -> T) mb : untouched f -> preserves f (publish_snapshot_incremental mb).
Proof.
  intros Hu. unfold publish_snapshot_incremental. preserves; apply preserves_modify; intros s; [|apply Hu].
  case_match; [done|]. apply Hu.
Qed.

Lemma flush_spec s : dk_inv s -> dk_stage s < last_stage -> dk_write_buffer s <> ∅ ->
  runs flush s (fun _ s' => flushed s s' /\
    (groups_fit s (group_by_bucket s) -> dk_needs_expansion s' = dk_needs_expansion s)).
Proof.
  intros [Hb Hsn] Hlast Hne. unfold flush. cbn [flush_loop]. unfold flush_body. run.
  rewrite bool_decide_eq_false_2 by done. cbv zeta. run.
  pose proof (groups_in_range s (di_store _ Hb) (di_buffer _ Hb)) as Hmb.
  eapply runs_mono; [apply flush_buffer_spec; apply Hb|].
  intros overflow s1 (file & -> & Hst & Hout & Hov & Hag & Hfit & Hv). run. case_bool_decide as Ho.
  - eapply runs_mono.
    + apply (runs_preserves dk_needs_expansion); [|apply flush_fits; try done].
      * pose proof needs_expansion_untouched as Hu. pose proof (flush_hot_preserves _ Hu).
        pose proof (fun w => persist_preserves _ w Hu). pose proof (fun mb => publish_incremental_preserves _ mb Hu). preserves.
      * intros h. specialize (Hv h). rewrite Ho in Hv. unfold dk_view. rewrite <- Hv. by destruct (pages_lookup _ _ _ h).
    + intros [] s' [Hfl E]. split; [done|]. intros _. by rewrite E.
  - eapply runs_mono; [by apply flush_overflows|]. intros [] s' Hfl. split; [done|]. intros Hg. by destruct Ho; apply Hfit.
Qed.

(** ** Reading *)

Lemma dk_get_ok s h : dk_base s -> dk_get s h = Ok (live (dk_view s h)).
Proof.
  intros [Hs _ _ _ _ _ _]. unfold dk_get, dk_view, view. destruct (dk_write_buffer s !! h) as [e|]; [done|]. cbv zeta.
  pose proof (nvt_bucket_range (dk_nvt s) h) as Hr. rewrite (sp_count _ Hs) in Hr. specialize (Hr (sp_pos _ Hs)).
  destruct (read_page_ok s _ (sp_offset _ Hs) (sp_file _ Hs) Hr) as (page & Hp & ->).
  pose proof (sp_pages _ Hs _ _ Hp) as [Hd [Hnd _] _ _]. rewrite Hd. f_equal.
  rewrite find_in_page_map by done. rewrite lookup_in_page_map. cbn [negb andb].
  unfold pages_lookup. rewrite Hp. by destruct (page_map _ !! h).
Qed.

(** The published snapshot is well formed and has the store's view. *)
Lemma dk_snapshot_ok s : dk_inv s -> buffer_ok (dk_hl s) (rs_buffer (dk_snapshot s)) -> snapshot_ok (dk_snapshot s).
Proof.
  intros [[Hs _ _ _ _ _ _] [_ Hn Hc Ha Hp Ht]] Hbo. unfold dk_hl in *.
  constructor; rewrite ?Ha, ?Hp, ?Hn, ?Hc; try done; try apply Hs. by apply zlen_dk_pages.
Qed.

Lemma dk_snapshot_view s h : dk_inv s -> snapshot_view (dk_snapshot s) h
  = view (rs_buffer (dk_snapshot s)) (dk_nvt s) (dk_hl s) (dk_pages s) h.
Proof. intros [_ [_ Hn Hc Ha Hp Ht]]. unfold snapshot_view, dk_hl. by rewrite Hn, Ha, Hp. Qed.

Lemma dk_get_raw s h : dk_inv s -> buffer_ok (dk_hl s) (rs_buffer (dk_snapshot s)) ->
  get_raw (dk_snapshot s) h = Ok (view (rs_buffer (dk_snapshot s)) (dk_nvt s) (dk_hl s) (dk_pages s) h).
Proof. intros Hi Hb. rewrite get_raw_ok by (by apply dk_snapshot_ok). by rewrite dk_snapshot_view. Qed.

(** ** Updates of the buffer *)

Definition buffered_state (wb : gmap bytes KVEntry) (count : Z) (s : DiskKVStore) : DiskKVStore :=
  dk_set_entry_count count (dk_set_write_buffer wb s).

Lemma buffered_inv wb count s : dk_inv s -> buffer_ok (dk_hl s) wb -> dk_inv (buffered_state wb count s).
Proof.
  intros [Hb Hsn] Hwb. constructor.
  - pose proof (di_store _ Hb) as Hs. destruct Hb as [_ ? ? ? ? ? ?]. constructor; try done. destruct Hs. by constructor.
  - eapply snap_of_layout; [..|exact Hsn]; done.
Qed.

Lemma buffered_frame wb count s : frame s (buffered_state wb count s).
Proof. constructor; try done. by intros i x. Qed.

Lemma publish_ok s : dk_inv s ->
  runs publish_buffer_only s (fun _ s' => exists sn, s' = dk_set_snapshot sn s /\ dk_ok s' /\ frame s s').
Proof.
  intros [Hb Hsn]. eapply runs_mono; [eapply publish_buffer_spec; [apply Hb|exact Hsn]|].
  intros [] s' (sn & -> & Hsn'). exists sn. split; [done|]. split; [split; [constructor|]|].
  - by rebase Hb.
  - change (dk_snapshot (dk_set_snapshot sn s)) with sn. rewrite (sf_buffer _ _ _ _ Hsn').
    eapply snap_of_layout; [..|exact Hsn']; done.
  - apply Hsn'.
  - constructor; try done. by intros i x.
Qed.

(** The store stands for a finite map. *)
Definition dk_abs (s : DiskKVStore) (m : gmap bytes KVEntry) : Prop := forall h, dk_view s h = m !! h.

Lemma buffered_abs s m h e count : dk_abs s m ->
  dk_abs (buffered_state (<[h := e]> (dk_write_buffer s)) count s) (<[h := e]> m).
Proof.
  intros Ha h'. unfold dk_view, view. cbn. destruct (decide (h = h')) as [<-|Hne]; [by rewrite !lookup_insert_eq|].
  rewrite !lookup_insert_ne by done. apply Ha.
Qed.

Lemma buffer_ok_insert hl wb h e : buffer_ok hl wb -> kv_hash e = h -> KVEntry_wf hl e -> buffer_ok hl (<[h := e]> wb).
Proof. intros Hb Hh Hw h' e'. rewrite lookup_insert_Some. intros [[<- <-]|[_ He]]; [done|by apply Hb]. Qed.

Lemma abs_wf s m h e : dk_base s -> dk_abs s m -> m !! h = Some e -> kv_hash e = h /\ KVEntry_wf (dk_hl s) e.
Proof.
  intros [Hs _ _ _ _ Hb _] Ha. rewrite <- Ha. unfold dk_view, view. destruct (dk_write_buffer s !! h) as [e'|] eqn:E.
  - intros [= <-]. by apply Hb.
  - intros El. eapply pages_lookup_hash; [apply Hs|exact El].
Qed.

(** What an update of the map must come to: the invariant, the frame, the map. *)
Definition refines_to (s : DiskKVStore) (m : gmap bytes KVEntry) (s' : DiskKVStore) : Prop :=
  dk_ok s' /\ frame s s' /\ dk_abs s' m.

(** An entry put into the buffer and published. *)
Lemma put_publish s m h e count : dk_inv s -> dk_abs s m -> kv_hash e = h -> KVEntry_wf (dk_hl s) e ->
  runs publish_buffer_only (buffered_state (<[h := e]> (dk_write_buffer s)) count s)
    (fun _ s' => refines_to s (<[h := e]> m) s').
Proof.
  intros Hi Ha Hh Hw. set (s1 := buffered_state _ _ _).
  assert (Hi1 : dk_inv s1) by (apply buffered_inv; [done|]; apply buffer_ok_insert; [apply Hi|done|done]).
  eapply runs_mono; [by apply publish_ok|]. intros [] s' (sn & -> & Hok & Hf). split; [done|]. split.
  - eapply frame_trans; [apply buffered_frame|exact Hf].
  - intros h'. apply (buffered_abs s m h e count Ha h').
Qed.
End Spec.
