(* ===== verification/DiskKvRefine.v ===== *)
(** The disk index refines a finite map: the operations as commands, the map
    commands they implement, and the simulation for any sequence of them. *)
From S2P Require Import Prelude Codec EntryFormat KvEntry KvPages FileIo HotTail FileHeader KvExpand Converters Nvt StateM KvSnapshot VoidRanges DiskKv DiskKvPages DiskKvSpec.

Local Open Scope Z_scope.

(** ** The map commands *)

(** A change of the live entry of a hash. *)
Definition map_update (f : KVEntry -> KVEntry) (h : bytes) (m : gmap bytes KVEntry) : gmap bytes KVEntry :=
  match live (m !! h) with Some e => <[h := f e]> m | None => m end.

Inductive kv_cmd :=
| CInsert (e : KVEntry)
| CMarkDeleted (h : bytes)
| CMarkDeletedBatch (hs : list bytes)
| CUpdateFlags (h : bytes) (flags : Z)
| CUpdateOffset (h : bytes) (offset : Z)
| CFlush
| CFlushHot
| CForceFlushHot
| CSetTail (offset : Z)
| CSetVoids (voids : list VoidRecord)
| CEmergency.

Definition spec_cmd (c : kv_cmd) (m : gmap bytes KVEntry) : gmap bytes KVEntry :=
  match c with
  | CInsert e => <[kv_hash e := e]> m
  | CMarkDeleted h => map_update (or_flags KV_FLAG_DELETED) h m
  | CMarkDeletedBatch hs => foldl (fun m h => map_update (or_flags KV_FLAG_DELETED) h m) m hs
  | CUpdateFlags h flags => map_update (with_flags flags) h m
  | CUpdateOffset h offset => map_update (at_offset offset) h m
  | _ => m
  end.

Definition spec_run (cs : list kv_cmd) (m : gmap bytes KVEntry) : gmap bytes KVEntry :=
  foldl (fun m c => spec_cmd c m) m cs.

(** Entries have the hash length of the store and offsets are 64-bit. *)
Definition cmd_wf (hl : Z) (c : kv_cmd) : Prop :=
  match c with
  | CInsert e => KVEntry_wf hl e
  | CUpdateOffset _ offset => is_u64 offset
  | _ => True
  end.

Section Refine.
Context `{Crc32, ToScalar, HashOrder}.

Definition run_cmd (c : kv_cmd) : M DiskKVStore unit :=
  match c with
  | CInsert e => dk_insert e
  | CMarkDeleted h => mark_deleted h
  | CMarkDeletedBatch hs => mark_deleted_batch hs
  | CUpdateFlags h flags => dk_update_flags h flags ;; mret tt
  | CUpdateOffset h offset => dk_update_offset h offset ;; mret tt
  | CFlush => flush
  | CFlushHot => flush_hot_buffer
  | CForceFlushHot => force_flush_hot_buffer
  | CSetTail offset => set_hot_tail_offset offset
  | CSetVoids voids => set_pending_voids voids
  | CEmergency => emergency_hot_tail_payload ;; mret tt
  end.

(** ** Each operation *)

Lemma tail_step_inv s s' : dk_inv s -> tail_step s s' -> dk_inv s'.
Proof.
  intros [_ Hsn] [Hf Hb Hp Hn Hbu Hs _]. constructor; [done|]. rewrite Hs, Hp.
  eapply snap_of_layout; [..|exact Hsn]; [done|apply Hf|apply Hf].
Qed.

Lemma tail_step_view s s' h : tail_step s s' -> dk_view s' h = dk_view s h.
Proof.
  intros [Hf _ Hp Hn Hb _ _]. unfold dk_view. by rewrite (dk_hl_frame _ _ Hf), Hp, Hn, Hb.
Qed.

Lemma tail_step_refines s m s' : dk_ok s -> dk_abs s m -> tail_step s s' -> refines_to s m s'.
Proof.
  intros [Hi Hp] Ha Ht. split; [split; [by eapply tail_step_inv|]|split; [apply Ht|]].
  - unfold published in *. destruct Ht as [_ _ _ _ -> -> _]. done.
  - intros h. rewrite (tail_step_view _ _ _ Ht). apply Ha.
Qed.

Lemma refines_refl s m : dk_ok s -> dk_abs s m -> refines_to s m s.
Proof. intros. split; [done|]. split; [apply frame_refl|done]. Qed.

Lemma refines_trans s m1 s1 m2 s2 : refines_to s m1 s1 -> refines_to s1 m2 s2 -> refines_to s m2 s2.
Proof. intros (_ & Hf & _) (Hok & Hf' & Ha). split; [done|]. split; [by eapply frame_trans|done]. Qed.

(** What a read before a write returns. *)
Lemma runs_get s m h (Q : option KVEntry -> DiskKVStore -> Prop) :
  dk_ok s -> dk_abs s m -> Q (live (m !! h)) s -> runs (lift (dk_get s h)) s Q.
Proof.
  intros [Hi _] Ha HQ. apply (runs_lift _ (live (m !! h))); [|done].
  rewrite dk_get_ok by apply Hi. by rewrite Ha.
Qed.

Lemma map_update_Some f h m e : live (m !! h) = Some e -> map_update f h m = <[h := f e]> m.
Proof. unfold map_update. by intros ->. Qed.

Lemma map_update_None f h m : live (m !! h) = None -> map_update f h m = m.
Proof. unfold map_update. by intros ->. Qed.

Lemma live_Some o e : live o = Some e -> o = Some e.
Proof. unfold live. destruct o as [e'|]; [|done]. by destruct (is_deleted e'). Qed.

(** A function of entries that keeps their hash and their widths. *)
Definition entry_change (hl : Z) (f : KVEntry -> KVEntry) : Prop :=
  forall e, KVEntry_wf hl e -> kv_hash (f e) = kv_hash e /\ KVEntry_wf hl (f e).

Lemma or_flags_change hl fl : entry_change hl (or_flags fl).
Proof. intros e []. by split; [|constructor]. Qed.

Lemma with_flags_change hl fl : entry_change hl (with_flags fl).
Proof. intros e []. by split; [|constructor]. Qed.

Lemma at_offset_change hl o : is_u64 o -> entry_change hl (at_offset o).
Proof. intros Ho e []. by split; [|constructor]. Qed.

(** The common shape of [mark_deleted], [dk_update_flags] and [dk_update_offset]. *)
Lemma update_live s m h f count : dk_ok s -> dk_abs s m -> entry_change (dk_hl s) f ->
  forall e, live (m !! h) = Some e ->
  runs publish_buffer_only (buffered_state (<[h := f e]> (dk_write_buffer s)) count s)
    (fun _ s' => refines_to s (map_update f h m) s').
Proof.
  intros [Hi Hp] Ha Hf e He. rewrite (map_update_Some _ _ _ _ He).
  destruct (abs_wf s m h e (di_base _ Hi) Ha (live_Some _ _ He)) as [Hh Hw]. destruct (Hf e Hw) as [Hh' Hw'].
  apply put_publish; [done|exact Ha|congruence|done].
Qed.

Lemma mark_deleted_refines s m h : dk_ok s -> dk_abs s m ->
  runs (mark_deleted h) s (fun _ s' => refines_to s (map_update (or_flags KV_FLAG_DELETED) h m) s').
Proof.
  intros Hok Ha. unfold mark_deleted. run. eapply runs_get; [done..|].
  destruct (live (m !! h)) as [e|] eqn:E.
  - unfold put_buffer, dec_entry_count. do 4 run_step.
    by apply (update_live s m h _ (saturating_sub (dk_entry_count s) 1) Hok Ha (or_flags_change _ KV_FLAG_DELETED)).
  - run. rewrite map_update_None by done. by apply refines_refl.
Qed.

Lemma update_flags_refines s m h fl : dk_ok s -> dk_abs s m ->
  runs (dk_update_flags h fl) s (fun found s' => found = bool_decide (is_Some (live (m !! h))) /\
    refines_to s (map_update (with_flags fl) h m) s').
Proof.
  intros Hok Ha. unfold dk_update_flags. run. eapply runs_get; [done..|].
  destruct (live (m !! h)) as [e|] eqn:E.
  - unfold put_buffer. do 3 run_step. eapply runs_mono;
      [by apply (update_live s m h _ (dk_entry_count s) Hok Ha (with_flags_change _ fl))|].
    intros [] s' Hr. run. split; [|done]. by rewrite bool_decide_eq_true_2.
  - run. rewrite map_update_None by done. split; [done|by apply refines_refl].
Qed.

Lemma update_offset_refines s m h o : dk_ok s -> dk_abs s m -> is_u64 o ->
  runs (dk_update_offset h o) s (fun found s' => found = bool_decide (is_Some (live (m !! h))) /\
    refines_to s (map_update (at_offset o) h m) s').
Proof.
  intros Hok Ha Ho. unfold dk_update_offset. run. eapply runs_get; [done..|].
  destruct (live (m !! h)) as [e|] eqn:E.
  - unfold put_buffer. do 3 run_step. eapply runs_mono;
      [by apply (update_live s m h _ (dk_entry_count s) Hok Ha (at_offset_change _ o Ho))|].
    intros [] s' Hr. run. split; [|done]. by rewrite bool_decide_eq_true_2.
  - run. rewrite map_update_None by done. split; [done|by apply refines_refl].
Qed.

(** ** Insertion *)

Lemma entry_exists_ok s h : dk_ok s -> entry_exists_on_disk s h = Ok (bool_decide (is_Some (dk_view s h))).
Proof.
  intros [Hi Hp]. unfold entry_exists_on_disk. unfold published in Hp.
  rewrite dk_get_raw by (try rewrite Hp; apply Hi). rewrite Hp. done.
Qed.

(** The journal of an insertion. *)
Lemma journal_step s e : dk_base s ->
  runs (if dk_hot_tail_enabled s then
          modify (fun s => dk_set_hot_buffer (dk_hot_buffer s ++ [e]) s) ;;
          s ← gets id;
          if HOT_BUFFER_THRESHOLD <=? zlen (dk_hot_buffer s) then flush_hot_buffer else mret tt
        else mret tt) s (fun _ s' => tail_step s s' /\ dk_needs_expansion s' = dk_needs_expansion s).
Proof.
  intros Hb. apply (runs_preserves dk_needs_expansion).
  { pose proof (flush_hot_preserves _ needs_expansion_untouched). preserves. }
  case_match; [|run; by apply tail_step_refl]. run.
  set (s1 := dk_set_hot_buffer _ s).
  assert (Hts1 : tail_step s s1).
  { constructor; try done; [|by rebase Hb]. constructor; try done. by intros i x. }
  case_match; [|run; done].
  eapply runs_mono; [apply flush_hot_buffer_step, Hts1|]. intros [] s2 [Hts2 _]. by eapply tail_step_trans.
Qed.

(** The insertion asks for an expansion only when a bucket does not fit its page. *)
Lemma insert_spec s m e : dk_ok s -> dk_abs s m -> dk_stage s < last_stage -> KVEntry_wf (dk_hl s) e ->
  runs (dk_insert e) s (fun _ s' => refines_to s (<[kv_hash e := e]> m) s' /\
    ((forall s2, dk_base s2 -> frame s s2 -> dk_abs s2 (<[kv_hash e := e]> m) -> groups_fit s2 (group_by_bucket s2)) ->
     dk_needs_expansion s' = dk_needs_expansion s)).
Proof.
  intros Hok Ha Hlast Hw. unfold dk_insert. run. eapply runs_lift.
  { instantiate (1 := bool_decide (is_Some (dk_view s (kv_hash e)))). rewrite entry_exists_ok by done.
    case_bool_decide as Hb; [|done]. f_equal. symmetry. apply bool_decide_eq_true_2.
    unfold dk_view, view. by destruct Hb as [x ->]. }
  run. set (known := bool_decide _).
  assert (Hc : exists c, count_new known (dk_set_write_buffer (<[kv_hash e := e]> (dk_write_buffer s)) s)
    = buffered_state (<[kv_hash e := e]> (dk_write_buffer s)) c s)
    by (unfold count_new; destruct known; eexists; reflexivity).
  destruct Hc as [c ->]. set (s1 := buffered_state _ c s).
  assert (Hi1 : dk_inv s1) by (apply buffered_inv; [apply Hok|apply buffer_ok_insert; [apply Hok|done|done]]).
  assert (Ha1 : dk_abs s1 (<[kv_hash e := e]> m)) by (by apply buffered_abs).
  eapply runs_mono; [apply journal_step, Hi1|]. intros [] s2 [H12 E12]. run.
  pose proof (tail_step_inv _ _ Hi1 H12) as Hi2.
  assert (Ha2 : dk_abs s2 (<[kv_hash e := e]> m)) by (intros h; rewrite (tail_step_view _ _ _ H12); apply Ha1).
  assert (Hf2 : frame s s2) by (eapply frame_trans; [apply buffered_frame|apply H12]).
  case_match.
  - eapply runs_mono; [apply flush_spec; [done| |]|].
    + rewrite (fr_stage _ _ Hf2). done.
    + rewrite (ts_buffer _ _ H12). apply insert_non_empty.
    + intros [] s3 [[Hok3 Hf3 Hv3 _ _ _ _] E3]. split; [split; [done|]; split; [by eapply frame_trans|]|].
      * intros h. rewrite Hv3. apply Ha2.
      * intros Hfit. rewrite E3 by (by apply Hfit; [apply Hi2|..]). exact E12.
  - eapply runs_mono; [by apply publish_ok|]. intros [] s3 (sn & -> & Hok3 & Hf3).
    split; [split; [done|]; split; [by eapply frame_trans|]; intros h; apply Ha2|]. intros _. exact E12.
Qed.

Lemma insert_refines s m e : dk_ok s -> dk_abs s m -> dk_stage s < last_stage -> KVEntry_wf (dk_hl s) e ->
  runs (dk_insert e) s (fun _ s' => refines_to s (<[kv_hash e := e]> m) s').
Proof. intros Hok Ha Hlast Hw. eapply runs_mono; [by apply insert_spec|]. by intros [] s' [? _]. Qed.

(** ** Batches of deletions *)

Lemma mark_one_spec s0 s m h : dk_ok s0 -> dk_inv s -> dk_snapshot s = dk_snapshot s0 -> frame s0 s ->
  dk_nvt s = dk_nvt s0 -> dk_pages s = dk_pages s0 ->
  (forall k, dk_write_buffer s !! k = None -> dk_write_buffer s0 !! k = None) -> dk_abs s m ->
  runs (mark_one (dk_snapshot s0) h) s (fun _ s' =>
    dk_inv s' /\ dk_snapshot s' = dk_snapshot s0 /\ frame s0 s' /\ dk_nvt s' = dk_nvt s0 /\ dk_pages s' = dk_pages s0 /\
    (forall k, dk_write_buffer s' !! k = None -> dk_write_buffer s0 !! k = None) /\
    dk_abs s' (map_update (or_flags KV_FLAG_DELETED) h m)).
Proof.
  intros Hok Hi Hss Hf Hn Hp Hmono Ha. unfold mark_one. run. apply (runs_lift _ (live (m !! h))).
  { rewrite <- Ha. unfold dk_view, view. destruct (dk_write_buffer s !! h) as [e|] eqn:E; [done|].
    destruct Hok as [Hi0 Hp0]. unfold published in Hp0.
    rewrite dk_get_raw by (try rewrite Hp0; apply Hi0). cbn [mbind res_bind]. unfold view. rewrite Hp0, (Hmono _ E).
    by rewrite (dk_hl_frame _ _ Hf), Hn, Hp. }
  destruct (live (m !! h)) as [e|] eqn:E.
  - rewrite (map_update_Some _ _ _ _ E).
    destruct (abs_wf s m h e (di_base _ Hi) Ha (live_Some _ _ E)) as [Hh Hw].
    destruct (or_flags_change _ KV_FLAG_DELETED e Hw) as [Hh' Hw'].
    unfold put_buffer, dec_entry_count. run. set (s1 := dk_set_entry_count _ _).
    change s1 with (buffered_state (<[h := or_flags KV_FLAG_DELETED e]> (dk_write_buffer s)) (saturating_sub (dk_entry_count s) 1) s).
    split_and!; try done.
    + apply buffered_inv; [done|]. apply buffer_ok_insert; [apply Hi|congruence|done].
    + eapply frame_trans; [exact Hf|apply buffered_frame].
    + intros k Hk. cbn in Hk. apply lookup_insert_None in Hk as [Hk _]. by apply Hmono.
    + by apply buffered_abs.
  - run. by rewrite map_update_None.
Qed.

Lemma mark_deleted_batch_refines s m hs : dk_ok s -> dk_abs s m ->
  runs (mark_deleted_batch hs) s (fun _ s' =>
    refines_to s (foldl (fun m h => map_update (or_flags KV_FLAG_DELETED) h m) m hs) s').
Proof.
  intros Hok Ha. unfold mark_deleted_batch. run.
  eapply runs_mono; [apply (runs_for_each (fun pre post s' =>
    dk_inv s' /\ dk_snapshot s' = dk_snapshot s /\ frame s s' /\ dk_nvt s' = dk_nvt s /\ dk_pages s' = dk_pages s /\
    (forall k, dk_write_buffer s' !! k = None -> dk_write_buffer s !! k = None) /\
    dk_abs s' (foldl (fun m h => map_update (or_flags KV_FLAG_DELETED) h m) m pre)))|].
  - intros pre h post s' _ (Hi & Hss & Hf & Hn & Hp & Hm & Ha'). rewrite foldl_snoc. by apply mark_one_spec.
  - split_and!; try done; [apply Hok|apply frame_refl].
  - intros [] s' (Hi & _ & Hf & _ & _ & _ & Ha'). cbv beta.
    eapply runs_mono; [by apply publish_ok|]. intros [] s2 (sn & -> & Hok2 & Hf2).
    split; [done|]. split; [by eapply frame_trans|]. done.
Qed.

(** ** Sequences of commands *)

Lemma flush_refines s m : dk_ok s -> dk_abs s m -> dk_stage s < last_stage ->
  runs flush s (fun _ s' => refines_to s m s').
Proof.
  intros Hok Ha Hlast. destruct (decide (dk_write_buffer s = ∅)) as [E|E].
  - unfold flush. cbn [flush_loop]. unfold flush_body. run. rewrite bool_decide_eq_true_2 by done. run.
    by apply refines_refl.
  - eapply runs_mono; [by apply flush_spec; [apply Hok|..]|]. intros [] s' [[Hok' Hf Hv _ _ _ _] _].
    split; [done|]. split; [done|]. intros h. rewrite Hv. apply Ha.
Qed.

(** A change of fields no part of the invariant mentions. *)
Lemma voids_refines s m voids : dk_ok s -> dk_abs s m -> refines_to s m (dk_set_voids voids s).
Proof.
  intros [[Hb Hsn] Hp] Ha. split; [split; [constructor|done]|split; [|done]].
  - by rebase Hb.
  - eapply snap_of_layout; [..|exact Hsn]; done.
  - constructor; try done. by intros i x.
Qed.

Lemma set_tail_refines s m offset : dk_ok s -> dk_abs s m -> dk_hot_tail_offset s < offset ->
  refines_to s m (dk_set_hot_tail_offset offset s).
Proof.
  intros [[Hb Hsn] Hp] Ha Ho. split; [split; [constructor|done]|split; [|done]].
  - destruct Hb as [[? ? ? ? ?] ? ? ? ? ? Ht]. constructor; [by constructor|done..|].
    intros E. specialize (Ht E). cbn. lia.
  - eapply snap_of_layout; [..|exact Hsn]; done.
  - constructor; try done; [cbn; lia|by intros i x].
Qed.

Lemma run_cmd_refines s m c : dk_ok s -> dk_abs s m -> dk_stage s < last_stage -> cmd_wf (dk_hl s) c ->
  runs (run_cmd c) s (fun _ s' => refines_to s (spec_cmd c m) s').
Proof.
  intros Hok Ha Hlast Hc. destruct c; cbn [run_cmd spec_cmd cmd_wf] in *.
  - by apply insert_refines.
  - by apply mark_deleted_refines.
  - by apply mark_deleted_batch_refines.
  - run. eapply runs_mono; [by apply update_flags_refines|]. intros b s' [_ Hr]. by run.
  - run. eapply runs_mono; [by apply update_offset_refines|]. intros b s' [_ Hr]. by run.
  - by apply flush_refines.
  - eapply runs_mono; [apply flush_hot_buffer_step, Hok|]. intros [] s' [Ht _]. by apply tail_step_refines.
  - unfold force_flush_hot_buffer. run. case_match eqn:E; [run; by apply refines_refl|].
    apply negb_false_iff in E. eapply runs_mono; [by apply persist_step; [apply Hok|]|].
    intros [] s' [Ht _]. by apply tail_step_refines.
  - unfold set_hot_tail_offset. run. case_match eqn:E; [|by apply refines_refl].
    apply set_tail_refines; [done|done|lia].
  - unfold set_pending_voids. run. exact (voids_refines s m _ Hok Ha).
  - unfold emergency_hot_tail_payload. run. by apply voids_refines.
Qed.

Lemma run_cmds_refine cs s m : dk_ok s -> dk_abs s m -> dk_stage s < last_stage -> Forall (cmd_wf (dk_hl s)) cs ->
  runs (for_each cs run_cmd) s (fun _ s' => refines_to s (spec_run cs m) s').
Proof.
  intros Hok Ha Hlast Hcs.
  apply (runs_for_each (fun pre post s' => refines_to s (spec_run pre m) s')); [|by apply refines_refl].
  intros pre c post s1 Heq (Hok1 & Hf1 & Ha1). unfold spec_run. rewrite foldl_snoc.
  fold (spec_run pre m). eapply runs_mono; [apply run_cmd_refines; [done|exact Ha1|..]|].
  - by rewrite (fr_stage _ _ Hf1).
  - rewrite (dk_hl_frame _ _ Hf1). subst cs. rewrite Forall_app, Forall_cons in Hcs. apply Hcs.
  - intros [] s2 Hr. eapply refines_trans; [|exact Hr]. by split.
Qed.

Lemma snapshot_get_view s h : dk_ok s -> snapshot_get (dk_snapshot s) h = Ok (live (dk_view s h)).
Proof.
  intros [Hi Hp]. unfold published in Hp. rewrite snapshot_get_ok.
  - by rewrite dk_snapshot_view, Hp.
  - apply dk_snapshot_ok; [done|]. rewrite Hp. apply Hi.
Qed.
End Refine.
