(* ===== verification/DiskKvLoad.v ===== *)
(** The disk index below its capacity: while no bucket holds more hashes than a page
    has slots, an insertion never asks for an expansion; and no operation but
    [set_hot_tail_offset] moves the hot tail. *)
From S2P Require Import Prelude Codec EntryFormat KvEntry KvPages FileIo HotTail FileHeader KvExpand Converters Nvt StateM KvSnapshot VoidRanges DiskKv DiskKvPages DiskKvSpec DiskKvRefine.

Local Open Scope Z_scope.

(** The hashes of the map that belong to a bucket fit its page. *)
Definition buckets_fit `{ToScalar} (nvt : NormalizedVectorTable) (m : gmap bytes KVEntry) : Prop :=
  forall b, Z.of_nat (size (filter (fun kv => bucket_for_value nvt kv.1 = b) m)) <= MAX_ENTRIES_PER_PAGE.

Section Load.
Context `{Crc32, ToScalar, HashOrder}.

Lemma buckets_fit_groups s m : dk_base s -> dk_abs s m -> buckets_fit (dk_nvt s) m ->
  groups_fit s (group_by_bucket s).
Proof.
  intros Hb Ha Hfit. pose proof (di_store _ Hb) as Hs.
  pose proof (groups_ok s Hs (di_buffer _ Hb)) as Hgo. rewrite Forall_forall in Hgo.
  apply Forall_forall. intros [b es] Hg page Hp. pose proof (Hgo _ Hg) as [_ Hbk _ Hr]. cbn [fst snd] in *.
  etransitivity; [|apply (Hfit b)]. apply Nat2Z.inj_le. rewrite <- !size_dom. apply subseteq_size.
  intros h Hh. apply elem_of_dom. apply elem_of_dom in Hh as [e He].
  cut (is_Some (m !! h) /\ bucket_for_value (dk_nvt s) h = b).
  { intros [[x Hx] E]. exists x. apply map_lookup_filter_Some. done. }
  rewrite <- Ha. unfold dk_view, view.
  apply lookup_union_Some_raw in He as [He|[_ He]].
  - apply page_map_elem_of in He as [Hin <-]. rewrite Forall_forall in Hbk. split; [|by apply Hbk].
    apply group_lookup in Hg as [_ ->]. apply list_elem_of_filter in Hin as [_ Hin].
    apply (buffer_values_elem (dk_hl s)) in Hin; [|apply Hb]. by rewrite Hin.
  - pose proof (sp_pages _ Hs _ _ Hp) as [_ _ _ Hpb]. rewrite Forall_forall in Hpb.
    pose proof (page_map_elem_of _ _ _ He) as [Hin <-]. pose proof (Hpb _ Hin) as Hbh. rewrite Z2Nat.id in Hbh by lia.
    split; [|done]. destruct (dk_write_buffer s !! kv_hash e); [done|]. unfold pages_lookup. by rewrite Hbh, Hp, He.
Qed.

(** ** The hot tail's offset *)

Lemma flush_buckets_tail l : preserves dk_hot_tail_offset (flush_buckets l).
Proof.
  induction l as [|[b es] l IH]; cbn [flush_buckets]; [preserves|]. unfold flush_bucket, write_page. preserves.
Qed.

Lemma flush_no_snapshot_tail : preserves dk_hot_tail_offset flush_no_snapshot.
Proof. unfold flush_no_snapshot. pose proof flush_buckets_tail. preserves. Qed.

Lemma bulk_insert_tail es : preserves dk_hot_tail_offset (bulk_insert es).
Proof.
  apply preserves_for_each. intros e. unfold bulk_insert_one. pose proof flush_no_snapshot_tail. preserves.
  apply preserves_modify. intros s. unfold count_new. by case_match.
Qed.

Lemma publish_full_tail : preserves dk_hot_tail_offset publish_full_snapshot.
Proof.
  intros s r s'. unfold publish_full_snapshot. cbv zeta. destruct (ReadSnapshot_new _ _ _ _ _ _); by intros [= _ <-].
Qed.

Lemma resize_tail : preserves dk_hot_tail_offset resize_to_next_stage.
Proof.
  unfold resize_to_next_stage, publish_full_snapshot_with_new_nvt.
  pose proof bulk_insert_tail. pose proof flush_no_snapshot_tail. pose proof publish_full_tail. cbv zeta.
  apply preserves_bind; [preserves|]. intros s. destruct (stage_params _ _). preserves.
Qed.

Lemma flush_tail : preserves dk_hot_tail_offset flush.
Proof.
  unfold flush. generalize 11%nat. induction n as [|n IH]; [by intros s r s'|]. cbn [flush_loop]. unfold flush_body, rebuffer.
  pose proof hot_tail_untouched as Hu. pose proof (flush_hot_preserves _ Hu). pose proof flush_buckets_tail.
  pose proof (fun w => persist_preserves _ w Hu). pose proof (fun mb => publish_incremental_preserves _ mb Hu).
  pose proof (publish_buffer_preserves _ Hu). pose proof resize_tail. preserves.
Qed.

Lemma insert_tail e : preserves dk_hot_tail_offset (dk_insert e).
Proof.
  unfold dk_insert. pose proof hot_tail_untouched as Hu. pose proof (flush_hot_preserves _ Hu). pose proof flush_tail.
  pose proof (publish_buffer_preserves _ Hu). preserves. apply preserves_modify. intros s. unfold count_new. by case_match.
Qed.

(** ** Insertion *)

Lemma insert_no_expansion s m e : dk_ok s -> dk_abs s m -> dk_stage s < last_stage -> KVEntry_wf (dk_hl s) e ->
  buckets_fit (dk_nvt s) (<[kv_hash e := e]> m) ->
  runs (dk_insert e) s (fun _ s' => refines_to s (<[kv_hash e := e]> m) s' /\ dk_nvt s' = dk_nvt s /\
    dk_hot_tail_offset s' = dk_hot_tail_offset s /\ dk_needs_expansion s' = dk_needs_expansion s).
Proof.
  intros Hok Ha Hlast Hw Hfit.
  eapply runs_mono; [apply (runs_preserves dk_hot_tail_offset), insert_spec; [apply insert_tail|done..]|].
  intros [] s' [[Hr He] Ht]. pose proof Hr as (Hok' & Hf & _).
  assert (Hn : forall s2, dk_base s2 -> frame s s2 -> dk_nvt s2 = dk_nvt s).
  { intros s2 Hb2 Hf2. by rewrite (di_nvt _ Hb2), (fr_count _ _ Hf2), (di_nvt _ (di_base _ (proj1 Hok))). }
  split; [done|]. split; [by apply Hn; [apply Hok'|]|]. split; [done|]. apply He.
  intros s2 Hb2 Hf2 Ha2. apply (buckets_fit_groups s2 _ Hb2 Ha2). by rewrite Hn.
Qed.
End Load.
