(* ===== verification/DiskKvOpen.v ===== *)
(** Creating and opening the disk index: a created store is empty; opening the
    file of a store whose hot tail was written recovers its view, with the entries
    over reclaimed space masked. *)
From S2P Require Import Prelude Codec EntryFormat KvEntry KvPages FileIo HotTail FileHeader KvExpand Converters Nvt StateM KvSnapshot VoidRanges DiskKv DiskKvPages DiskKvSpec DiskKvRefine.

Local Open Scope Z_scope.

(** ** Empty pages *)

Lemma zero_pages_spec file off hl n : 0 <= off -> 0 <= hl ->
  let f := zero_pages file off (Z.of_nat n) hl in
  (forall i, off <= i < off + bucket_page_offset (Z.of_nat n) hl -> at_ f i = Some Byte.x00) /\
  (forall i x, 0 <= i -> ~ (off <= i < off + bucket_page_offset (Z.of_nat n) hl) -> at_ file i = Some x -> at_ f i = Some x) /\
  zlen file <= zlen f /\ (0 < Z.of_nat n -> off + bucket_page_offset (Z.of_nat n) hl <= zlen f).
Proof.
  intros Ho Hhl. pose proof (page_size_pos hl Hhl) as Hp. cbv zeta. unfold bucket_page_offset.
  induction n as [|n IH].
  { change (zero_pages file off (Z.of_nat 0) hl) with file. split_and!; [lia|done|lia|lia]. }
  destruct IH as (Hz & Hk & Hl & Hl'). unfold zero_pages in *. rewrite seqZ_S, foldl_snoc, Nat2Z.inj_succ.
  set (f := foldl _ file (seqZ 0 (Z.of_nat n))) in *. rewrite Z.add_0_l.
  assert (Hzs : zlen (zeros (page_size hl)) = page_size hl) by (apply zlen_zeros; lia).
  unfold bucket_page_offset. set (at0 := off + Z.of_nat n * page_size hl) in *.
  assert (Hlen : zlen (file_write f at0 (zeros (page_size hl))) = Z.max (zlen f) (at0 + page_size hl))
    by (rewrite zlen_file_write; lia).
  split_and!.
  - intros i Hi. destruct (decide (at0 <= i)) as [Hge|Hlt].
    + rewrite at_file_write by lia. rewrite decide_False, decide_True by lia. apply at_zeros. lia.
    + apply at_file_write_out; [lia|lia|lia|]. apply Hz. lia.
  - intros i x Hi Hout Hx. apply at_file_write_out; [lia|done|lia|]. apply Hk; [done|lia|done].
  - lia.
  - lia.
Qed.

Section Open.
Context `{Crc32, ToScalar, HashOrder}.

Lemma empty_page_decodes hl : 0 <= hl -> deserialize_page (zeros (page_size hl)) hl = Ok [].
Proof.
  intros Hhl. pose proof (page_size_pos hl Hhl) as Hp.
  assert (Hge : 10 <= page_size hl) by (unfold page_size, PAGE_HEADER_SIZE, MAX_ENTRIES_PER_PAGE; lia).
  replace (page_size hl) with (10 + (page_size hl - 10)) by lia. rewrite zeros_split by lia.
  unfold deserialize_page, validated_entry_count, is_empty_page, PAGE_HEADER_SIZE.
  set (z := zeros (page_size hl - 10)). assert (Hz : zlen (zeros 10 ++ z) = page_size hl)
    by (rewrite zlen_app; unfold z; rewrite !zlen_zeros by lia; lia).
  assert (E : (zlen (zeros 10 ++ z) <? 4 + 4 + 2) = false) by (apply Z.ltb_ge; lia). rewrite !E.
  rewrite !le_at_ok by lia. done.
Qed.

Lemma empty_page_good nvt hl b : 0 <= hl -> page_good nvt hl b (zeros (page_size hl)).
Proof.
  intros Hhl. pose proof (empty_page_decodes hl Hhl) as Hd. pose proof (page_entries_of _ _ _ Hd) as He.
  constructor; rewrite He; [done|split; [constructor|done]|constructor|constructor].
Qed.

Lemma span_zero_pages file off hl n : 0 <= off -> 0 <= hl -> 0 < n ->
  span_pages (zero_pages file off n hl) off hl n = replicate (Z.to_nat n) (zeros (page_size hl)).
Proof.
  intros Ho Hhl Hn. destruct (zero_pages_spec file off hl (Z.to_nat n) Ho Hhl) as (Hz & _ & _ & Hl).
  rewrite Z2Nat.id in * by lia. specialize (Hl Hn). set (f := zero_pages file off n hl) in *.
  pose proof (page_size_pos hl Hhl). apply list_eq. intros b. destruct (decide (Z.of_nat b < n)) as [Hb|Hb].
  - pose proof (span_pages_at f off hl n (Z.of_nat b) ltac:(lia)) as E. rewrite Nat2Z.id in E. rewrite E.
    rewrite lookup_replicate_2 by lia. f_equal. pose proof (page_bounds (Z.of_nat b) n hl Hhl ltac:(lia)).
    pose proof (file_read_zeros f (off + bucket_page_offset (Z.of_nat b) hl) (page_size hl)) as Hr.
    unfold file_read in Hr. rewrite (proj2 (Z.ltb_ge _ _)) in Hr by lia.
    specialize (Hr ltac:(lia) ltac:(lia) ltac:(lia) ltac:(intros i Hi; apply Hz; lia)).
    unfold span_page. by injection Hr.
  - rewrite !lookup_ge_None_2; [done|rewrite length_replicate; lia|].
    pose proof (zlen_span_pages f off hl n). unfold zlen in *. lia.
Qed.

(** ** Creating *)

Lemma stage_params_pos algo stage : 0 <= stage < zlen KV_STAGE_SIZES ->
  let '(len, n) := stage_params stage (page_size (hash_length algo)) in 0 < n /\ 0 < len.
Proof.
  change (zlen KV_STAGE_SIZES) with 10. intros Hs.
  assert (stage = 0 \/ stage = 1 \/ stage = 2 \/ stage = 3 \/ stage = 4 \/ stage = 5 \/ stage = 6 \/ stage = 7 \/ stage = 8 \/ stage = 9)
    as Hc by lia.
  destruct algo; repeat (destruct Hc as [->|Hc]); try subst stage; vm_compute; done.
Qed.

Lemma nvt_new_count c n : 0 <= n -> nvt_bucket_count (NVT_new c n) = n.
Proof. intros. unfold nvt_bucket_count, NVT_new, zlen. cbn. rewrite length_replicate. lia. Qed.

Lemma build_counts_ok nvt hl pages : 0 <= hl -> pages_good nvt hl pages ->
  exists c, build_page_type_counts pages hl (replicate 16 0) = Ok c.
Proof.
  intros Hhl Hg. destruct (page_type_counts_nth nvt hl 0 pages Hhl ltac:(lia) Hg (replicate 16 0) eq_refl) as (c & E & _).
  by exists c.
Qed.

Lemma pages_good_empty nvt hl n : 0 <= hl -> pages_good nvt hl (replicate n (zeros (page_size hl))).
Proof. intros Hhl b page [-> _]%lookup_replicate. by apply empty_page_good. Qed.

Lemma create_spec file algo off tail stage len n : 0 <= off -> 0 <= stage < zlen KV_STAGE_SIZES ->
  stage_params stage (page_size (hash_length algo)) = (len, n) -> off + len <= tail ->
  exists s, DiskKVStore_create file algo off tail stage = Ok s /\ dk_ok s /\ dk_abs s ∅ /\
    dk_stage s = stage /\ dk_hash_algo s = algo /\ dk_hot_tail_offset s = tail /\ dk_hot_tail_enabled s = true /\
    dk_kv_block_offset s = off /\ dk_file s = zero_pages file off n (hash_length algo).
Proof.
  intros Ho Hs Hp Ht. pose proof (stage_params_pos algo stage Hs) as Hpos. rewrite Hp in Hpos. destruct Hpos as [Hn Hlen].
  pose proof (hash_length_nonneg algo) as Hhl. set (hl := hash_length algo) in *.
  unfold DiskKVStore_create. rewrite Z.min_l by lia. fold hl. rewrite Hp.
  set (f := zero_pages file off n hl). set (pages := replicate (Z.to_nat n) (zeros (page_size hl))).
  pose proof (span_zero_pages file off hl n Ho Hhl Hn) as Hsp. fold f in Hsp. fold pages in Hsp.
  set (nvt := NVT_new HashConverter n).
  pose proof (pages_good_empty nvt hl (Z.to_nat n) Hhl) as Hg. fold pages in Hg.
  destruct (build_counts_ok nvt hl pages Hhl Hg) as [c Hc].
  unfold ReadSnapshot_new. fold hl. rewrite Hc, !bind_ret. eexists. split; [done|].
  destruct (zero_pages_spec file off hl (Z.to_nat n) Ho Hhl) as (_ & _ & _ & Hl). rewrite Z2Nat.id in Hl by lia.
  assert (Hdp : forall s, dk_file s = f -> dk_kv_block_offset s = off -> dk_hash_algo s = algo ->
    dk_bucket_count s = n -> dk_pages s = pages).
  { intros s E1 E2 E3 E4. unfold dk_pages, dk_hl. by rewrite E1, E2, E3, E4. }
  split_and!; try done.
  - split; [|done]. constructor; [constructor; try done|rewrite Hdp by done; by constructor].
    + constructor; try done; [by apply Hl|by rewrite Hdp|apply nvt_new_count; cbn; lia].
  - intros h. unfold dk_view, view. rewrite Hdp by done. cbn [dk_write_buffer]. rewrite !lookup_empty.
    unfold pages_lookup. destruct (pages !! _) as [page|] eqn:E; [|done].
    apply lookup_replicate in E as [-> _]. unfold dk_hl. cbn [dk_hash_algo]. fold hl.
    by rewrite (page_entries_of _ _ _ (empty_page_decodes hl Hhl)).
Qed.

(** ** Opening *)

(** An index entry overlaps reclaimed space. *)
Definition voided (ranges : list range) (e : KVEntry) : bool :=
  entry_overlaps_void_ranges (kv_offset e) (saturating_add64 (kv_offset e) (kv_total_length e)) ranges.

Definition mask (ranges : list range) (e : KVEntry) : KVEntry :=
  if voided ranges e then or_flags KV_FLAG_DELETED e else e.

Definition mask_new (ranges : list range) (o : option KVEntry) : option KVEntry :=
  match o with Some e => if voided ranges e then Some (or_flags KV_FLAG_DELETED e) else None | None => None end.

Lemma mask_entries_lookup ranges es h : NoDup (kv_hash <$> es) -> forall wb n,
  (foldl (mask_entry ranges) (wb, n) es).1 !! h
    = match wb !! h with Some e => Some e | None => mask_new ranges (page_map es !! h) end.
Proof.
  induction es as [|e es IH]; intros Hnd wb n.
  - cbn [foldl fst]. by destruct (wb !! h).
  - apply NoDup_cons in Hnd as [Hni Hnd]. apply page_map_None in Hni. specialize (IH Hnd). cbn [foldl].
    change (page_map (e :: es)) with (<[kv_hash e := e]> (page_map es)).
    unfold mask_entry at 2. cbv zeta. fold (voided ranges e).
    destruct (decide (kv_hash e = h)) as [<-|Hne].
    + rewrite lookup_insert_eq. unfold mask_new at 1. destruct (wb !! kv_hash e) as [x|] eqn:E; [by rewrite IH, E|].
      destruct (voided ranges e); rewrite IH; [by rewrite lookup_insert_eq|]. by rewrite E, Hni.
    + rewrite lookup_insert_ne by done. destruct (wb !! kv_hash e) as [x|]; [apply IH|].
      destruct (voided ranges e); rewrite IH; [by rewrite lookup_insert_ne|done].
Qed.

Lemma mask_pages_ok nvt hl ranges pages : pages_good nvt hl pages -> forall st,
  mask_pages pages hl ranges st = Ok (foldl (mask_entry ranges) st (all_entries hl pages)).
Proof.
  intros Hg. assert (Hd : Forall (fun p => deserialize_page p hl = Ok (page_entries hl p)) pages).
  { apply Forall_lookup. intros i p Hp. apply (Hg _ _ Hp). }
  clear Hg. induction Hd as [|p pages Hp Hd IH]; intros st; [done|]. cbn [mask_pages]. rewrite Hp, IH.
  unfold all_entries. cbn [fmap list_fmap concat]. by rewrite foldl_app.
Qed.

Lemma page_map_all nvt hl pages h : pages_good nvt hl pages ->
  page_map (all_entries hl pages) !! h = pages_lookup nvt hl pages h.
Proof.
  intros Hg. pose proof (all_entries_nodup _ _ _ Hg) as Hnd. destruct (pages_lookup nvt hl pages h) as [e|] eqn:E.
  - destruct (pages_lookup_hash _ _ _ _ _ Hg E) as [<- _]. apply page_map_elem; [done|].
    by apply (all_entries_lookup nvt).
  - apply page_map_other. intros e He <-. apply (all_entries_lookup nvt) in He; [|done]. congruence.
Qed.

Lemma read_pages_checked_ok file off hl n nvt buckets : 0 <= off -> 0 <= hl ->
  off + bucket_page_offset n hl <= zlen file -> pages_good nvt hl (span_pages file off hl n) ->
  Forall (fun b => 0 <= b < n) buckets ->
  read_pages_checked file off hl buckets = Ok (span_page file off hl <$> buckets, false).
Proof.
  intros Ho Hhl Hf Hg. induction 1 as [|b buckets Hb Hbs IH]; [done|]. cbn [read_pages_checked].
  pose proof (page_bounds b n hl Hhl Hb). unfold file_read. rewrite (proj2 (Z.ltb_ge _ _)) by lia. rewrite bind_ret.
  fold (span_page file off hl b). pose proof (span_pages_at file off hl n b Hb) as Hp.
  destruct (Hg _ _ Hp) as [-> _ _ _]. rewrite bind_ret, IH. done.
Qed.

Lemma mask_buffer_ok nvt hl pages ranges wb n : pages_good nvt hl pages -> buffer_ok hl wb ->
  buffer_ok hl (foldl (mask_entry ranges) (wb, n) (all_entries hl pages)).1.
Proof.
  intros Hg Hb h e. rewrite mask_entries_lookup by (by eapply all_entries_nodup). destruct (wb !! h) as [x|] eqn:E.
  - intros [= <-]. by apply Hb.
  - rewrite (page_map_all nvt) by done. unfold mask_new. destruct (pages_lookup nvt hl pages h) as [x|] eqn:El; [|done].
    destruct (voided ranges x); [|done]. intros [= <-].
    destruct (pages_lookup_hash _ _ _ _ _ Hg El) as [Hh Hw].
    destruct (or_flags_change hl KV_FLAG_DELETED x Hw) as [Hh' Hw']. split; [congruence|done].
Qed.

Lemma insert_all_ok hl es : Forall (KVEntry_wf hl) es -> buffer_ok hl (insert_all ∅ es).
Proof.
  intros Hes h e He. destruct (insert_all_cases ∅ es h) as [(e' & He' & Hh & E)|[_ E]]; rewrite E in He.
  - injection He as <-. split; [done|]. rewrite Forall_forall in Hes. by apply Hes.
  - by rewrite lookup_empty in He.
Qed.

(** The masking of [DiskKVStore_open], also when there is nothing to mask. *)
Lemma open_mask nvt hl pages voids wb : pages_good nvt hl pages -> buffer_ok hl wb ->
  exists wb' n, (if bool_decide (voids = []) then Ok (wb, 0)
                 else mask_pages pages hl (build_merged_void_ranges voids) (wb, 0)) = Ok (wb', n) /\
    buffer_ok hl wb' /\
    forall h, wb' !! h = match wb !! h with Some e => Some e
      | None => mask_new (build_merged_void_ranges voids) (pages_lookup nvt hl pages h) end.
Proof.
  intros Hg Hb. case_bool_decide as Hv.
  - exists wb, 0. split; [done|]. split; [done|]. intros h. subst voids. destruct (wb !! h); [done|].
    unfold mask_new, voided. destruct (pages_lookup nvt hl pages h) as [e|]; [|done].
    unfold entry_overlaps_void_ranges. by rewrite orb_true_r.
  - rewrite (mask_pages_ok nvt) by done. destruct (foldl _ _ _) as [wb' n] eqn:E. exists wb', n. split; [done|].
    pose proof (mask_buffer_ok nvt hl pages (build_merged_void_ranges voids) wb 0 Hg Hb) as Hb'. rewrite E in Hb'.
    split; [done|]. intros h.
    pose proof (mask_entries_lookup (build_merged_void_ranges voids) (all_entries hl pages) h
      (all_entries_nodup _ _ _ Hg) wb 0) as Hl. rewrite E, (page_map_all nvt) in Hl by done. exact Hl.
Qed.

Lemma open_spec s es voids : dk_base s -> Forall (KVEntry_wf (dk_hl s)) es ->
  dk_kv_block_offset s + dk_kv_block_length s <= dk_hot_tail_offset s ->
  exists s', DiskKVStore_open (dk_file s) (dk_hash_algo s) (dk_kv_block_offset s) (dk_hot_tail_offset s)
      (dk_stage s) es voids CURRENT_KV_BLOCK_VERSION = Ok s' /\
    dk_ok s' /\ dk_needs_rebuild s' = false /\
    forall h, dk_view s' h = match insert_all ∅ es !! h with Some e => Some e
      | None => mask (build_merged_void_ranges voids) <$> pages_lookup (dk_nvt s) (dk_hl s) (dk_pages s) h end.
Proof.
  intros Hb Hes Ht. pose proof (dk_hl_nonneg s) as Hhl. destruct Hb as [[Ho Hf Hg Hn Hpos] Hsg Hpa Hnv _ _ _].
  unfold DiskKVStore_open. rewrite Z.eqb_refl. cbn [negb]. cbv zeta. rewrite Z.min_l by lia.
  fold (dk_hl s). rewrite Hpa.
  rewrite (read_pages_checked_ok _ _ _ (dk_bucket_count s) (dk_nvt s)); [|done|done|exact Hf|exact Hg|].
  2: { apply Forall_forall. intros b Hb%elem_of_seqZ. lia. }
  fold (span_pages (dk_file s) (dk_kv_block_offset s) (dk_hl s) (dk_bucket_count s)). fold (dk_pages s).
  rewrite bind_ret. fold (insert_all ∅ es).
  destruct (open_mask (dk_nvt s) (dk_hl s) (dk_pages s) voids _ Hg (insert_all_ok _ _ Hes)) as (wb & n & E & Hwb & Hl).
  rewrite E, bind_ret. destruct (build_counts_ok (dk_nvt s) (dk_hl s) (dk_pages s) Hhl Hg) as [c Hc].
  unfold ReadSnapshot_new. fold (dk_hl s). rewrite Hc, !bind_ret, <- Hnv. eexists. split; [done|].
  split; [|split; [done|]].
  - split; [|done]. constructor; [constructor; try done; by constructor|by constructor].
  - intros h. unfold dk_view, view. cbn [dk_write_buffer]. rewrite Hl. destruct (insert_all ∅ es !! h) as [e|]; [done|].
    change (dk_pages _) with (dk_pages s). cbn [dk_nvt].
    change (pages_lookup _ _ (dk_pages s) h) with (pages_lookup (dk_nvt s) (dk_hl s) (dk_pages s) h) at 2.
    destruct (pages_lookup (dk_nvt s) (dk_hl s) (dk_pages s) h) as [e|]; cbn [fmap option_fmap option_map mask_new]; [|done].
    unfold mask. by destruct (voided _ e).
Qed.

(** ** Recovery from the hot tail *)

(** The counts of a hot tail are 32-bit. *)
Record tail_fits (s : DiskKVStore) : Prop := {
  tf_writes : is_u32 (map_len (dk_write_buffer s));
  tf_voids : Forall VoidRecord_wf (dk_pending_voids s);
  tf_nvoids : is_u32 (zlen (dk_pending_voids s));
}.

Lemma sublist_Forall {A} (P : A -> Prop) (l k : list A) : l `sublist_of` k -> Forall P k -> Forall P l.
Proof. induction 1; rewrite ?Forall_cons; naive_solver. Qed.

Lemma tail_fits_sub s s' : dk_write_buffer s' ⊆ dk_write_buffer s ->
  dk_pending_voids s' `sublist_of` dk_pending_voids s -> tail_fits s -> tail_fits s'.
Proof.
  intros Hb Hv [Hw Hf Hn]. pose proof (map_subseteq_size _ _ Hb). pose proof (sublist_length _ _ Hv).
  unfold is_u32, map_len, zlen in *. constructor; [unfold is_u32, map_len; lia| |unfold is_u32, zlen; lia].
  by eapply sublist_Forall.
Qed.

Lemma zlen_buffered s : zlen (buffered_writes s) = map_len (dk_write_buffer s).
Proof.
  unfold zlen, map_len, buffered_writes. rewrite length_fmap, (hash_iter_perm (dk_write_buffer s)).
  by rewrite length_map_to_list.
Qed.

Lemma payload_wf s : dk_base s -> tail_fits s ->
  HotTailPayload_wf (dk_hl s) {| ht_writes := buffered_writes s; ht_voids := dk_pending_voids s |}.
Proof.
  intros Hb [Hw Hf Hn]. constructor; try done; [|cbn [ht_writes]; by rewrite zlen_buffered].
  apply Forall_forall. intros e He. unfold buffered_writes in He.
  apply (buffer_values_elem (dk_hl s)) in He; [|apply Hb]. by apply (di_buffer _ Hb _ _ He).
Qed.

Lemma insert_all_buffered s h : dk_base s -> insert_all ∅ (buffered_writes s) !! h = dk_write_buffer s !! h.
Proof.
  intros Hb. assert (He : forall e, e ∈ buffered_writes s <-> dk_write_buffer s !! kv_hash e = Some e)
    by (intros e; apply (buffer_values_elem (dk_hl s)), Hb).
  destruct (insert_all_cases ∅ (buffered_writes s) h) as [(e & Hin & <- & ->)|[Hni ->]].
  - symmetry. by apply He.
  - rewrite lookup_empty. destruct (dk_write_buffer s !! h) as [e|] eqn:E; [|done].
    destruct Hni. apply list_elem_of_fmap. exists e. destruct (di_buffer _ Hb _ _ E) as [<- _].
    split; [done|]. by apply He.
Qed.

(** What an opened store may show for a hash whose entry was [o]: the entry, or a
    tombstone when it lies in reclaimed space. *)
Definition recovered (voids : list VoidRecord) (o o' : option KVEntry) : Prop :=
  o' = o \/ exists e, o = Some e /\ voided (build_merged_void_ranges voids) e = true /\
    o' = Some (or_flags KV_FLAG_DELETED e).

Lemma reopen_current s : dk_base s -> dk_hot_tail_enabled s = true -> tail_current s -> tail_fits s ->
  exists p s2, read_hot_tail (dk_file s) (dk_hot_tail_offset s) (dk_hl s) = Ok (Some p) /\
    DiskKVStore_open (dk_file s) (dk_hash_algo s) (dk_kv_block_offset s) (dk_hot_tail_offset s)
      (dk_stage s) (ht_writes p) (ht_voids p) CURRENT_KV_BLOCK_VERSION = Ok s2 /\
    dk_ok s2 /\ dk_needs_rebuild s2 = false /\ forall h, recovered (ht_voids p) (dk_view s h) (dk_view s2 h).
Proof.
  intros Hb He Ht Hfit. pose proof (payload_wf s Hb Hfit) as Hwf. pose proof (di_tail _ Hb He) as Hto.
  pose proof (pages_end_block s Hb). pose proof (pages_end_ge s (di_store _ Hb)). pose proof (sp_offset _ (di_store _ Hb)).
  eexists. destruct (open_spec s (buffered_writes s) (dk_pending_voids s) Hb) as (s2 & Eo & Hok & Hnr & Hv);
    [apply Hwf|done|]. exists s2.
  split; [apply tail_holds_read; [lia|exact Hwf|exact Ht]|]. cbn [ht_writes ht_voids]. split; [done|]. split; [done|].
  split; [done|]. intros h. rewrite Hv, insert_all_buffered by done. unfold recovered, dk_view, view.
  destruct (dk_write_buffer s !! h) as [e|]; [by left|].
  destruct (pages_lookup _ _ _ h) as [e|]; [|by left]. cbn [fmap option_fmap option_map]. unfold mask.
  destruct (voided _ e) eqn:V; [|by left]. right. eauto.
Qed.

(** ** Theorems *)

(** C10. From any good state, any sequence of the index's operations runs without
    error below the last stage and leaves a store that stands for the map the
    same commands produce; the writer's [get] and the readers' snapshot both
    answer from that map, tombstones hidden. *)
Theorem disk_kv_refines_map cs s m : dk_ok s -> dk_abs s m -> dk_stage s < last_stage ->
  Forall (cmd_wf (dk_hl s)) cs ->
  runs (for_each cs run_cmd) s (fun _ s' => dk_ok s' /\ dk_abs s' (spec_run cs m) /\
    forall h, dk_get s' h = Ok (live (spec_run cs m !! h)) /\
              snapshot_get (dk_snapshot s') h = Ok (live (spec_run cs m !! h))).
Proof.
  intros Hok Ha Hl Hc. eapply runs_mono; [by apply run_cmds_refine|]. intros [] s' (Hok' & _ & Ha').
  split; [done|]. split; [done|]. intros h. rewrite <- Ha'. split; [apply dk_get_ok, Hok'|by apply snapshot_get_view].
Qed.

(** No sequence of operations changes a byte of the headers before the index or
    of the log between its pages and the hot tail. *)
Theorem disk_kv_log_untouched cs s m i x : dk_ok s -> dk_abs s m -> dk_stage s < last_stage ->
  Forall (cmd_wf (dk_hl s)) cs -> 0 <= i < dk_hot_tail_offset s ->
  ~ (dk_kv_block_offset s <= i < pages_end s) -> at_ (dk_file s) i = Some x ->
  runs (for_each cs run_cmd) s (fun _ s' =>
    dk_hot_tail_offset s <= dk_hot_tail_offset s' /\ at_ (dk_file s') i = Some x).
Proof.
  intros Hok Ha Hl Hc Hi Hout Hx. eapply runs_mono; [by eapply run_cmds_refine|]. intros [] s' (_ & Hf & _).
  split; [apply Hf|]. by apply (fr_log _ _ Hf).
Qed.

(** Creating a store gives the empty map, whatever the file held before. *)
Theorem disk_kv_create file algo off tail stage len n : 0 <= off -> 0 <= stage < zlen KV_STAGE_SIZES ->
  stage_params stage (page_size (hash_length algo)) = (len, n) -> off + len <= tail ->
  exists s, DiskKVStore_create file algo off tail stage = Ok s /\ dk_ok s /\ dk_abs s ∅.
Proof.
  intros Ho Hs Hp Ht. destruct (create_spec file algo off tail stage len n Ho Hs Hp Ht) as (s & E & Hok & Ha & _).
  by exists s.
Qed.

End Open.

(** ** Witnesses *)

(** A new store in a file that holds only its headers. *)
Definition new_store : res DiskKVStore := @DiskKVStore_create crc32_ieee map_order (zeros 512) Blake3_256 512 66048 0.

Lemma new_store_ok : exists s, new_store = Ok s /\ @dk_ok crc32_ieee hash_to_scalar s /\
  @dk_abs crc32_ieee hash_to_scalar s ∅ /\ dk_stage s = 0 /\ dk_hash_algo s = Blake3_256 /\ dk_hot_tail_offset s = 66048 /\
  dk_hot_tail_enabled s = true /\ dk_kv_block_offset s = 512 /\ dk_file s = zero_pages (zeros 512) 512 45 32.
Proof.
  exact (@create_spec crc32_ieee hash_to_scalar map_order (zeros 512) Blake3_256 512 66048 0 65536 45
    ltac:(lia) ltac:(done) eq_refl ltac:(lia)).
Qed.

Definition sample_cmds : list kv_cmd :=
  [CInsert (sample_kv Byte.x01 70000); CFlush; CInsert (sample_kv Byte.x02 71000);
   CMarkDeleted (replicate 32 Byte.x01); CUpdateOffset (replicate 32 Byte.x02) 72000; CForceFlushHot].

Lemma sample_cmds_wf : Forall (cmd_wf 32) sample_cmds.
Proof. repeat constructor; concrete. Qed.

Lemma disk_kv_create_witness : exists s, new_store = Ok s /\ @dk_ok crc32_ieee hash_to_scalar s /\
  @dk_abs crc32_ieee hash_to_scalar s ∅.
Proof.
  exact (@disk_kv_create crc32_ieee hash_to_scalar map_order (zeros 512) Blake3_256 512 66048 0 65536 45
    ltac:(lia) ltac:(done) eq_refl ltac:(lia)).
Defined.

Lemma disk_kv_refines_map_witness : exists s, new_store = Ok s /\
  runs (for_each sample_cmds (@run_cmd crc32_ieee hash_to_scalar map_order)) s (fun _ s' =>
    @dk_get crc32_ieee hash_to_scalar s' (replicate 32 Byte.x01) = Ok None /\
    @snapshot_get crc32_ieee hash_to_scalar (dk_snapshot s') (replicate 32 Byte.x02)
      = Ok (Some (at_offset 72000 (sample_kv Byte.x02 71000)))).
Proof.
  destruct new_store_ok as (s & E & Hok & Ha & Hst & Hal & _). exists s. split; [done|].
  assert (Hhl : dk_hl s = 32) by (unfold dk_hl; by rewrite Hal).
  eapply runs_mono; [apply (@disk_kv_refines_map crc32_ieee hash_to_scalar map_order sample_cmds s ∅ Hok Ha)|].
  - rewrite Hst. done.
  - rewrite Hhl. exact sample_cmds_wf.
  - intros [] s' (_ & _ & Hv). destruct (Hv (replicate 32 Byte.x01)) as [-> _].
    destruct (Hv (replicate 32 Byte.x02)) as [_ ->]. split; vm_compute; reflexivity.
Defined.

Lemma disk_kv_log_untouched_witness : exists s, new_store = Ok s /\
  runs (for_each sample_cmds (@run_cmd crc32_ieee hash_to_scalar map_order)) s (fun _ s' =>
    dk_hot_tail_offset s <= dk_hot_tail_offset s' /\ at_ (dk_file s') 100 = Some Byte.x00).
Proof.
  destruct new_store_ok as (s & E & Hok & Ha & Hst & Hal & Hto & _ & Hof & Hfi). exists s. split; [done|].
  assert (Hhl : dk_hl s = 32) by (unfold dk_hl; by rewrite Hal).
  apply (@disk_kv_log_untouched crc32_ieee hash_to_scalar map_order sample_cmds s ∅ 100 Byte.x00 Hok Ha).
  - rewrite Hst. done.
  - rewrite Hhl. exact sample_cmds_wf.
  - rewrite Hto. lia.
  - rewrite Hof. lia.
  - rewrite Hfi. vm_compute. reflexivity.
Defined.

(** A store with one buffered entry. *)
Definition one_entry : M DiskKVStore unit := @dk_insert crc32_ieee hash_to_scalar map_order (sample_kv Byte.x01 66048).

Definition buffered_store : option (res unit * DiskKVStore) :=
  match new_store with Ok s => one_entry s | _ => None end.

Lemma buffered_store_fields :
  (fun r => (dk_transaction_depth r.2, dk_write_buffer r.2 !! replicate 32 Byte.x01, map_len (dk_write_buffer r.2),
             dk_pending_voids r.2, dk_stage r.2, dk_hot_tail_enabled r.2)) <$> buffered_store
    = Some (0, Some (sample_kv Byte.x01 66048), 1, [], 0, true).
Proof. vm_compute. reflexivity. Qed.

Lemma one_entry_wf : KVEntry_wf 32 (sample_kv Byte.x01 66048).
Proof. constructor; concrete. Qed.

Lemma buffered_store_ok : exists s, buffered_store = Some (Ok tt, s) /\ @dk_ok crc32_ieee hash_to_scalar s.
Proof.
  destruct new_store_ok as (s & E & Hok & Ha & Hst & Hal & _).
  destruct (@insert_refines crc32_ieee hash_to_scalar map_order s ∅ (sample_kv Byte.x01 66048) Hok Ha) as ([] & s' & Er & Hr & _).
  - rewrite Hst. done.
  - unfold dk_hl. rewrite Hal. exact one_entry_wf.
  - exists s'. split; [|done]. unfold buffered_store. by rewrite E.
Qed.

