(* ===== verification/DiskKvExpand.v ===== *)
(** Expansion of the index block ([finalize_expansion] and [iter_all] of
    src/aeordb-lib/src/engine/disk_kv_store.rs): the live entries are collected,
    the larger block is zeroed, and they are inserted into the new buckets with
    the offsets of the relocated log. *)
From S2P Require Import Prelude Codec EntryFormat KvEntry KvPages FileIo HotTail FileHeader KvExpand Converters Nvt StateM KvSnapshot VoidRanges DiskKv DiskKvPages DiskKvSpec DiskKvRefine DiskKvOpen.

Local Open Scope Z_scope.

Section Expand.
Context `{Crc32, ToScalar, HashOrder}.

(** ** Collecting the live entries *)

Lemma collect_pages_ok s buckets : store_pages s -> Forall (fun b => 0 <= b < dk_bucket_count s) buckets -> forall all,
  collect_pages s buckets all
    = Ok (insert_all all (all_entries (dk_hl s) (span_page (dk_file s) (dk_kv_block_offset s) (dk_hl s) <$> buckets))).
Proof.
  intros Hs. induction 1 as [|b buckets Hb Hbs IH]; intros all; [done|]. cbn [collect_pages].
  destruct (read_page_ok s b (sp_offset _ Hs) (sp_file _ Hs) Hb) as (page & Hp & ->).
  destruct (sp_pages _ Hs _ _ Hp) as [-> _ _ _].
  unfold dk_pages in Hp. rewrite span_pages_at in Hp by done. injection Hp as <-. rewrite IH. f_equal.
  unfold all_entries, insert_all. cbn [fmap list_fmap concat]. by rewrite foldl_app.
Qed.

Lemma insert_pairs_values m l : Forall (fun he => kv_hash he.2 = he.1) l ->
  foldl (fun all he => <[he.1 := he.2]> all) m l = insert_all m l.*2.
Proof.
  intros Hl. revert m. induction Hl as [|[h e] l Hh Hl IH]; intros m; [done|]. simpl in Hh. subst h.
  unfold insert_all in *. cbn [foldl fmap list_fmap fst snd]. apply IH.
Qed.

Lemma hash_iter_hashes hl buffer : buffer_ok hl buffer -> Forall (fun he => kv_hash he.2 = he.1) (hash_iter buffer).
Proof.
  intros Hb. apply Forall_forall. intros [h e] He. rewrite (hash_iter_perm buffer) in He.
  apply elem_of_map_to_list in He. by destruct (Hb _ _ He).
Qed.

(** The map [iter_all] collects is the view. *)
Lemma collected_lookup s h : dk_base s ->
  insert_all (insert_all ∅ (all_entries (dk_hl s) (dk_pages s))) (buffered_writes s) !! h = dk_view s h.
Proof.
  intros Hb. pose proof (di_store _ Hb) as Hs. unfold dk_view, view.
  assert (He : forall e, e ∈ buffered_writes s <-> dk_write_buffer s !! kv_hash e = Some e)
    by (intros e; apply (buffer_values_elem (dk_hl s)), Hb).
  destruct (insert_all_cases (insert_all ∅ (all_entries (dk_hl s) (dk_pages s))) (buffered_writes s) h)
    as [(e & Hin & <- & ->)|[Hni ->]].
  - by rewrite (proj1 (He e) Hin).
  - destruct (dk_write_buffer s !! h) as [e|] eqn:E.
    { destruct Hni. apply list_elem_of_fmap. exists e. destruct (di_buffer _ Hb _ _ E) as [<- _]. split; [done|by apply He]. }
    destruct (insert_all_cases ∅ (all_entries (dk_hl s) (dk_pages s)) h) as [(e & Hin & <- & ->)|[Hn ->]].
    + symmetry. by apply all_entries_lookup; [apply Hs|].
    + rewrite lookup_empty. destruct (pages_lookup _ _ _ h) as [e|] eqn:El; [|done].
      destruct Hn. apply list_elem_of_fmap. exists e.
      destruct (pages_lookup_hash _ _ _ _ _ (sp_pages _ Hs) El) as [<- _].
      split; [done|]. by apply (all_entries_lookup (dk_nvt s)); [apply Hs|].
Qed.

Lemma iter_all_ok s : dk_base s -> exists l, dk_iter_all s = Ok l /\ NoDup (kv_hash <$> l) /\
  forall e, e ∈ l <-> live (dk_view s (kv_hash e)) = Some e.
Proof.
  intros Hb. unfold dk_iter_all. rewrite (collect_pages_ok s _ (di_store _ Hb)).
  2: { apply Forall_forall. intros b ?%elem_of_seqZ. lia. }
  fold (span_pages (dk_file s) (dk_kv_block_offset s) (dk_hl s) (dk_bucket_count s)). fold (dk_pages s).
  rewrite bind_ret. cbv zeta. rewrite insert_pairs_values by (eapply hash_iter_hashes, Hb).
  fold (buffered_writes s). set (all := insert_all _ (buffered_writes s)).
  assert (Hl : forall h, all !! h = dk_view s h) by (intros h; by apply collected_lookup).
  assert (Hok : buffer_ok (dk_hl s) all).
  { intros h e He. rewrite Hl in He. destruct (abs_wf s all h e Hb) as [Hh Hw]; [intros k; by rewrite Hl|by rewrite Hl|done]. }
  eexists. split; [done|]. split.
  - apply NoDup_hash_filter. rewrite (buffer_values_hashes _ _ Hok). apply hash_iter_nodup.
  - intros e. rewrite list_elem_of_filter, (buffer_values_elem _ _ _ Hok), Hl, negb_true_iff. unfold live.
    destruct (dk_view s (kv_hash e)) as [e'|]; [|naive_solver]. destruct (is_deleted e') eqn:D; [|intuition congruence].
    split; [|done]. intros [D' [= ->]]. congruence.
Qed.

(** ** Filling the new buckets *)

(** The store [s1] with the entries [pre] inserted, some in pages and some still
    buffered. *)
Record filling (s1 : DiskKVStore) (pre : list KVEntry) (s : DiskKVStore) : Prop := {
  fi_state : exists file wb c, s = dk_set_file file (buffered_state wb c s1);
  fi_store : store_pages s;
  fi_out : outside_kept s1 (dk_file s);
  fi_buffer : buffer_ok (dk_hl s1) (dk_write_buffer s);
  fi_disjoint : forall h e, dk_write_buffer s !! h = Some e -> pages_lookup (dk_nvt s) (dk_hl s) (dk_pages s) h = None;
  fi_content : forall e, dk_view s (kv_hash e) = Some e <-> e ∈ pre;
}.

(** No bucket gets more entries than a page holds. *)
Definition buckets_have_room (nvt : NormalizedVectorTable) (es : list KVEntry) : Prop :=
  forall b, zlen (filter (fun e => bucket_for_value nvt (kv_hash e) = b) es) <= MAX_ENTRIES_PER_PAGE.

Lemma filling_fits s1 pre s es : filling s1 pre s -> pre ⊆ es -> buckets_have_room (dk_nvt s1) es ->
  groups_fit s (group_by_bucket s).
Proof.
  intros [(file & wb & c & Es) Hs _ Hb Hd Hc] Hsub Hroom.
  assert (Hn : dk_nvt s = dk_nvt s1) by (by rewrite Es). assert (Hhl : dk_hl s = dk_hl s1) by (by rewrite Es).
  rewrite <- Hhl in Hb. pose proof (groups_ok s Hs Hb) as Hgo. rewrite Forall_forall in Hgo.
  apply Forall_forall. intros [b new] Hg page Hp. pose proof (go_range _ _ (Hgo _ Hg)) as Hr.
  apply group_lookup in Hg as [_ ->]. cbn [fst snd] in *.
  destruct (sp_pages _ Hs _ _ Hp) as [_ [Hnd _] _ Hpb].
  assert (Hpe : forall e, e ∈ page_entries (dk_hl s) page -> pages_lookup (dk_nvt s) (dk_hl s) (dk_pages s) (kv_hash e) = Some e).
  { intros e He. apply (all_entries_lookup (dk_nvt s)); [apply Hs|]. apply all_entries_elem. eauto. }
  assert (Hbe : forall e, e ∈ buffered_writes s <-> dk_write_buffer s !! kv_hash e = Some e)
    by (intros e; by apply (buffer_values_elem (dk_hl s))).
  rewrite <- page_map_app. etransitivity; [apply Nat2Z.inj_le, page_map_size_le|].
  rewrite length_app, Nat.add_comm, <- length_app.
  fold (zlen (page_entries (dk_hl s) page ++ filter (fun e => bucket_for_value (dk_nvt s) (kv_hash e) = b) (buffered_writes s))).
  etransitivity; [|apply (Hroom b)]. unfold zlen. apply Nat2Z.inj_le, submseteq_length, NoDup_submseteq.
  - apply (NoDup_fmap_1 kv_hash). rewrite fmap_app. apply NoDup_app. split; [done|]. split.
    + intros h (e & -> & He)%list_elem_of_fmap (e' & Heq & [_ He']%list_elem_of_filter)%list_elem_of_fmap.
      apply Hbe in He'. rewrite <- Heq in He'. apply Hd in He'. rewrite (Hpe _ He) in He'. done.
    + apply NoDup_hash_filter. by apply (buffered_nodup s (dk_hl s)).
  - intros e. rewrite elem_of_app, !list_elem_of_filter. intros [He|[Hbk He]].
    + split.
      * rewrite Forall_forall in Hpb. rewrite <- Hn, (Hpb _ He).
        lia.
      * apply Hsub, Hc. unfold dk_view, view. destruct (dk_write_buffer s !! kv_hash e) as [e'|] eqn:E; [|by apply Hpe].
        apply Hd in E. rewrite (Hpe _ He) in E. done.
    + split; [by rewrite <- Hn|]. apply Hsub, Hc. unfold dk_view, view. by rewrite (proj1 (Hbe e) He).
Qed.

Lemma outside_kept_trans s f1 f2 : outside_kept s f1 -> outside_kept (dk_set_file f1 s) f2 -> outside_kept s f2.
Proof.
  intros [Hz1 Ho1] [Hz2 Ho2]. split; [by rewrite Hz2|]. intros i x Hi Hout Hx. apply Ho2; [done|done|]. by apply Ho1.
Qed.

Lemma flush_no_snapshot_fills s1 pre s es : filling s1 pre s -> pre ⊆ es -> buckets_have_room (dk_nvt s1) es ->
  runs flush_no_snapshot s (fun _ s' => filling s1 pre s' /\ dk_write_buffer s' = ∅).
Proof.
  intros Hfi Hsub Hroom. pose proof (filling_fits s1 pre s es Hfi Hsub Hroom) as Hfit.
  unfold flush_no_snapshot. run. case_bool_decide as Hem; [run; done|].
  destruct Hfi as [(file & wb & c & ->) Hs Hout Hb Hd Hc]. set (s := dk_set_file file _) in *. run.
  eapply runs_mono; [by apply flush_buffer_spec|].
  intros overflow s' (f & -> & Hs' & Hout' & _ & _ & Hno & Hv). rewrite Hno in Hv by done. run.
  set (s2 := dk_set_write_buffer ∅ _). split; [|done]. constructor.
  - by exists f, ∅, c.
  - destruct Hs'. by constructor.
  - eapply outside_kept_trans; [exact Hout|exact Hout'].
  - intros h e. cbn. by rewrite lookup_empty.
  - intros h e. cbn. by rewrite lookup_empty.
  - intros e. rewrite <- Hc. unfold dk_view, view at 1. cbn [dk_write_buffer s2 dk_set_write_buffer]. rewrite lookup_empty.
    change (pages_lookup (dk_nvt s2) (dk_hl s2) (dk_pages s2) (kv_hash e))
      with (pages_lookup (dk_nvt s) (dk_hl s) (dk_pages (dk_set_file f s)) (kv_hash e)).
    specialize (Hv (kv_hash e)). unfold dk_view in *. rewrite <- Hv. by destruct (pages_lookup _ _ _ _).
Qed.

Lemma bulk_insert_one_fills s1 pre s e es : snapshot_ok (dk_snapshot s1) -> filling s1 pre s -> pre ++ [e] ⊆ es ->
  buckets_have_room (dk_nvt s1) es -> kv_hash e ∉ kv_hash <$> pre -> KVEntry_wf (dk_hl s1) e ->
  runs (bulk_insert_one e) s (fun _ s' => filling s1 (pre ++ [e]) s').
Proof.
  intros Hsn Hfi Hsub Hroom Hni Hw. pose proof Hfi as [(file & wb & c & Es) Hs Hout Hb Hd Hc].
  unfold bulk_insert_one. run. eapply runs_lift.
  { instantiate (1 := bool_decide (is_Some (dk_write_buffer s !! kv_hash e) \/
      is_Some (snapshot_view (dk_snapshot s1) (kv_hash e)))). unfold entry_exists_on_disk.
    replace (dk_snapshot s) with (dk_snapshot s1) by (by rewrite Es). rewrite get_raw_ok by done. cbn [mbind res_bind].
    case_bool_decide as H1'; f_equal; [symmetry; apply bool_decide_eq_true_2; by left|].
    apply bool_decide_ext. tauto. }
  run. set (known := bool_decide _).
  assert (Hnone : dk_view s (kv_hash e) = None).
  { destruct (dk_view s (kv_hash e)) as [e'|] eqn:E; [|done]. exfalso. apply Hni.
    assert (Hh : kv_hash e' = kv_hash e).
    { unfold dk_view, view in E. destruct (dk_write_buffer s !! kv_hash e) as [x|] eqn:Ex.
      - injection E as <-. by apply (Hb _ _ Ex).
      - by apply (pages_lookup_hash _ _ _ _ _ (sp_pages _ Hs) E). }
    apply list_elem_of_fmap. exists e'. split; [done|]. apply Hc. by rewrite Hh. }
  unfold dk_view, view in Hnone. destruct (dk_write_buffer s !! kv_hash e) as [x|] eqn:Ex; [done|].
  set (s2 := dk_set_write_buffer _ _).
  assert (Hfi2 : filling s1 (pre ++ [e]) s2).
  { constructor.
    - exists file, (<[kv_hash e := e]> wb), (if known then c else c + 1). unfold s2, count_new. rewrite Es. by destruct known.
    - unfold s2, count_new. destruct Hs. destruct known; by constructor.
    - unfold s2, count_new. by destruct known.
    - replace (dk_write_buffer s2) with (<[kv_hash e := e]> (dk_write_buffer s)) by (unfold s2, count_new; by destruct known).
      by apply buffer_ok_insert.
    - intros h e'. replace (dk_write_buffer s2) with (<[kv_hash e := e]> (dk_write_buffer s)) by (unfold s2, count_new; by destruct known).
      replace (pages_lookup (dk_nvt s2) (dk_hl s2) (dk_pages s2) h) with (pages_lookup (dk_nvt s) (dk_hl s) (dk_pages s) h)
        by (unfold s2, count_new; by destruct known).
      rewrite lookup_insert_Some. intros [[<- _]|[_ He']]; [done|by eapply Hd].
    - intros e'. replace (dk_view s2 (kv_hash e')) with
        (view (<[kv_hash e := e]> (dk_write_buffer s)) (dk_nvt s) (dk_hl s) (dk_pages s) (kv_hash e'))
        by (unfold s2, count_new; by destruct known).
      rewrite elem_of_app, list_elem_of_singleton, <- Hc. unfold dk_view, view.
      destruct (decide (kv_hash e = kv_hash e')) as [Heq|Hne].
      + rewrite <- Heq, lookup_insert_eq, Ex, Hnone. intuition congruence.
      + rewrite lookup_insert_ne by done. intuition congruence. }
  case_match; [|run; done]. apply runs_ignore_err.
  eapply runs_mono; [by eapply flush_no_snapshot_fills|]. intros [] s3 [Hr _]. done.
Qed.

Lemma bulk_insert_fills s1 es : snapshot_ok (dk_snapshot s1) -> filling s1 [] s1 -> NoDup (kv_hash <$> es) ->
  buckets_have_room (dk_nvt s1) es -> Forall (KVEntry_wf (dk_hl s1)) es ->
  runs (bulk_insert es) s1 (fun _ s' => filling s1 es s').
Proof.
  intros Hsn H0' Hnd Hroom Hwf. apply (runs_for_each (fun pre _ s' => filling s1 pre s')); [|done].
  intros pre e post s Heq Hfi. apply (bulk_insert_one_fills s1 pre s e es); [done|done| |done| |].
  - subst es. intros x. rewrite !elem_of_app, list_elem_of_singleton, elem_of_cons. tauto.
  - subst es. rewrite fmap_app, fmap_cons in Hnd. apply NoDup_app in Hnd as (_ & Hd & _). intros Hin.
    apply (Hd _ Hin). by left.
  - subst es. rewrite Forall_app, Forall_cons in Hwf. apply Hwf.
Qed.

(** ** The expansion *)

(** A file in which the bytes of [lo, hi) may differ. *)
Definition kept_outside (lo hi : Z) (f g : bytes) : Prop :=
  forall i x, 0 <= i -> ~ (lo <= i < hi) -> at_ f i = Some x -> at_ g i = Some x.

Lemma kept_outside_trans lo hi f g k : kept_outside lo hi f g -> kept_outside lo hi g k -> kept_outside lo hi f k.
Proof. intros Hfg Hgk i x Hi Ho Hx. apply Hgk; [done|done|]. by apply Hfg. Qed.

Lemma zero_block_spec file off hl n len : 0 <= off -> 0 <= hl -> 0 < n -> n * page_size hl <= len ->
  let f := zero_pages file off n hl in
  let g := if n * page_size hl <? len then file_write f (off + n * page_size hl) (zeros (len - n * page_size hl)) else f in
  span_pages g off hl n = replicate (Z.to_nat n) (zeros (page_size hl)) /\
  kept_outside off (off + len) file g /\ off + n * page_size hl <= zlen g.
Proof.
  intros Ho Hhl Hn Hlen. cbv zeta. destruct (zero_pages_spec file off hl (Z.to_nat n) Ho Hhl) as (_ & Hk & _ & Hl).
  rewrite Z2Nat.id in * by lia. specialize (Hl Hn). unfold bucket_page_offset in *.
  pose proof (span_zero_pages file off hl n Ho Hhl Hn) as Hsp. set (f := zero_pages file off n hl) in *.
  assert (Hkf : kept_outside off (off + len) file f) by (intros i x Hi Hout Hx; apply Hk; [done|lia|done]).
  case_match eqn:Hc; [|done]. apply Z.ltb_lt in Hc. set (pe := off + n * page_size hl) in *.
  assert (Hpe : 0 <= off <= pe) by (pose proof (page_size_pos hl Hhl); nia).
  assert (Hz : zlen (zeros (len - n * page_size hl)) = len - n * page_size hl) by (apply zlen_zeros; lia).
  split_and!.
  - rewrite <- Hsp. apply span_pages_ext; [done|done|exact Hl|]. intros i x Hi Hx. unfold bucket_page_offset in Hi.
    apply at_file_write_out; [lia|lia|lia|done].
  - eapply kept_outside_trans; [exact Hkf|]. intros i x Hi Hout Hx. apply at_file_write_out; [lia|lia|lia|done].
  - rewrite zlen_file_write by lia. lia.
Qed.

Lemma read_all_pages_ok s : store_pages s -> read_all_pages s = dk_pages s.
Proof.
  intros Hs. unfold read_all_pages, dk_pages, span_pages.
  assert (Hr : Forall (fun b => 0 <= b < dk_bucket_count s) (seqZ 0 (dk_bucket_count s)))
    by (apply Forall_forall; intros b ?%elem_of_seqZ; lia).
  induction Hr as [|b bs Hb Hbs IH]; [done|]. cbn [read_all_pages_from fmap list_fmap]. rewrite IH. f_equal.
  destruct (read_page_ok s b (sp_offset _ Hs) (sp_file _ Hs) Hb) as (page & Hp & ->).
  unfold dk_pages in Hp. rewrite span_pages_at in Hp by done. by injection Hp as <-.
Qed.

Lemma publish_full_spec s : store_pages s -> dk_shared_nvt s = dk_nvt s ->
  runs publish_full_snapshot s (fun _ s' => exists sn, s' = dk_set_snapshot sn s /\
    snap_of s (dk_write_buffer s) (dk_pages s) sn).
Proof.
  intros Hs Hsh. unfold runs, publish_full_snapshot. cbv zeta. rewrite read_all_pages_ok by done.
  destruct (build_counts_ok (dk_nvt s) (dk_hl s) (dk_pages s) (dk_hl_nonneg s) (sp_pages _ Hs)) as [c Hc].
  unfold ReadSnapshot_new. fold (dk_hl s). rewrite Hc, bind_ret. eexists tt, _. split; [done|]. eexists. split; [done|].
  by constructor.
Qed.

Lemma relocate_hash a b d e : kv_hash (relocate_entry a b d e) = kv_hash e.
Proof. unfold relocate_entry. by case_match. Qed.

Lemma relocate_wf hl a b d e : KVEntry_wf hl e -> KVEntry_wf hl (relocate_entry a b d e).
Proof. intros []. unfold relocate_entry. case_match; [|done]. constructor; try done. apply i64_bits_range. Qed.

Lemma relocated_hashes a b d (l : list KVEntry) : kv_hash <$> (relocate_entry a b d <$> l) = kv_hash <$> l.
Proof. rewrite <- list_fmap_compose. apply list_fmap_ext. intros i e _. apply relocate_hash. Qed.

Lemma room_relocated nvt a b d l : buckets_have_room nvt l -> buckets_have_room nvt (relocate_entry a b d <$> l).
Proof.
  intros Hr k. specialize (Hr k). rewrite filter_fmap. unfold zlen in *. rewrite length_fmap.
  erewrite filter_ext_in; [exact Hr|]. intros e _. cbn. by rewrite relocate_hash.
Qed.

(** The state before the entries are inserted again. *)
Definition emptied (s : DiskKVStore) (file : bytes) (len n stage tail : Z) (voids : list VoidRecord) : DiskKVStore :=
  dk_set_hot_buffer [] (dk_set_write_buffer ∅ (dk_set_voids voids (dk_set_entry_count 0
    (dk_set_hot_tail_offset tail (dk_set_nvt (NVT_new HashConverter n) (dk_set_bucket_count n
      (dk_set_stage stage (dk_set_kv_block_length len (dk_set_file file s))))))))).

Lemma emptied_filling s file len n stage tail voids : 0 <= dk_kv_block_offset s -> 0 < n ->
  span_pages file (dk_kv_block_offset s) (dk_hl s) n = replicate (Z.to_nat n) (zeros (page_size (dk_hl s))) ->
  dk_kv_block_offset s + n * page_size (dk_hl s) <= zlen file ->
  let s1 := emptied s file len n stage tail voids in filling s1 [] s1.
Proof.
  intros Ho Hn Hsp Hl s1. constructor.
  - by exists file, ∅, 0.
  - constructor; try done; [change (pages_good (NVT_new HashConverter n) (dk_hl s) (dk_pages s1))|apply nvt_new_count; cbn; lia].
    unfold dk_pages. change (span_pages _ _ _ _) with (span_pages file (dk_kv_block_offset s) (dk_hl s) n).
    rewrite Hsp. apply pages_good_empty, dk_hl_nonneg.
  - split; [done|]. by intros i x.
  - intros h e. cbn. by rewrite lookup_empty.
  - intros h e. cbn. by rewrite lookup_empty.
  - intros e. unfold dk_view, view. cbn [dk_write_buffer s1 emptied dk_set_hot_buffer dk_set_write_buffer]. rewrite lookup_empty.
    unfold pages_lookup, dk_pages. change (span_pages _ _ _ _) with (span_pages file (dk_kv_block_offset s) (dk_hl s) n).
    rewrite Hsp. change (dk_hl s1) with (dk_hl s). split; [|by intros ?%elem_of_nil].
    destruct (_ !! Z.to_nat _) as [page|] eqn:E; [|done]. apply lookup_replicate in E as [-> _].
    by rewrite (page_entries_of _ _ _ (empty_page_decodes (dk_hl s) (dk_hl_nonneg s))).
Qed.

Lemma store_pages_kept s g : store_pages s -> pages_end s <= zlen g ->
  (forall i x, dk_kv_block_offset s <= i < pages_end s -> at_ (dk_file s) i = Some x -> at_ g i = Some x) ->
  dk_pages (dk_set_file g s) = dk_pages s /\ store_pages (dk_set_file g s).
Proof.
  intros [Ho Hf Hp Hn Hpos] Hl Hk. assert (E : dk_pages (dk_set_file g s) = dk_pages s).
  { unfold dk_pages. apply span_pages_ext; [apply dk_hl_nonneg|done|exact Hf|exact Hk]. }
  split; [done|]. constructor; try done. by rewrite E.
Qed.

Lemma store_pages_count s c : store_pages s -> store_pages (dk_set_entry_count c s).
Proof. intros []. by constructor. Qed.

Lemma dk_view_count s c k : dk_view (dk_set_entry_count c s) k = dk_view s k.
Proof. done. Qed.

Lemma view_pages_hash s k e : store_pages s -> dk_write_buffer s = ∅ -> dk_view s k = Some e -> kv_hash e = k.
Proof.
  intros Hs Hb. unfold dk_view, view. rewrite Hb, lookup_empty. intros E.
  by apply (pages_lookup_hash _ _ _ _ _ (sp_pages _ Hs) E).
Qed.

(** Committing the new header touches only the header region. *)
Lemma write_expanded_header_spec s len stage tail h slot :
  read_active_header (dk_file s) = Ok (h, slot) -> FileHeader_wf h -> hash_length (fh_hash_algo h) = 32 ->
  fh_sequence h < u64_max -> is_u64 len -> is_u64 tail ->
  runs (write_expanded_header len stage tail) s (fun _ s' => exists g, s' = dk_set_file g s /\
    read_active_header g = Ok (with_sequence (expanded_layout h len stage tail) (fh_sequence h + 1), 1 - slot) /\
    zlen (dk_file s) <= zlen g /\ kept_outside 0 HEADER_REGION_SIZE (dk_file s) g).
Proof.
  intros Hr Hwf Ha Hseq Hlen Ht. unfold write_expanded_header. run. apply (runs_lift _ (h, slot)); [done|]. cbv zeta. run.
  set (new := expanded_layout h len stage tail).
  assert (Hn : FileHeader_wf new) by (destruct Hwf; by constructor).
  destruct (write_header_ok (dk_file s) h slot new) as (bs & Hz & Hd & E); [done..|].
  eapply runs_lift; [exact E|]. cbv beta iota. apply runs_modify. eexists. split; [done|].
  destruct (read_active_header_slot _ _ _ Hr) as [Hslot Hreg].
  assert (Hoff : 0 <= inactive_slot_offset slot /\ inactive_slot_offset slot + zlen bs <= HEADER_REGION_SIZE)
    by (rewrite Hz; destruct Hslot as [-> | ->]; by vm_compute).
  split_and!.
  - rewrite (read_active_header_overwrite _ _ _ _ Hr Hz), Hd.
    cbn [with_sequence fh_sequence]. rewrite (proj2 (Z.leb_gt _ _)), (proj2 (Z.ltb_ge _ _)) by lia.
    by destruct (slot =? 0).
  - rewrite zlen_file_write by lia. lia.
  - intros i x Hi Hout Hx. apply at_file_write_out; [lia|lia|lia|done].
Qed.

(** From the filled pages to the end: hot tail, header, snapshot. *)
Lemma finish_expansion s len n stage tail h slot : store_pages s -> dk_write_buffer s = ∅ ->
  dk_bucket_count s = n -> dk_stage s = stage -> dk_kv_block_length s = len -> dk_hot_tail_offset s = tail ->
  dk_nvt s = NVT_new HashConverter n -> 0 <= stage < zlen KV_STAGE_SIZES ->
  stage_params stage (page_size (dk_hl s)) = (len, n) -> HEADER_REGION_SIZE <= dk_kv_block_offset s ->
  pages_end s <= dk_kv_block_offset s + len -> dk_kv_block_offset s + len <= tail ->
  read_active_header (dk_file s) = Ok (h, slot) -> FileHeader_wf h -> hash_length (fh_hash_algo h) = 32 ->
  fh_sequence h < u64_max -> is_u64 len -> is_u64 tail ->
  runs (persist_hot_tail [] ;; write_expanded_header len stage tail ;;
        publish_full_snapshot_with_new_nvt ;; modify (dk_set_needs_expansion None)) s (fun _ s' =>
    dk_ok s' /\ dk_stage s' = stage /\ dk_needs_expansion s' = None /\ dk_write_buffer s' = ∅ /\
    (forall k, dk_view s' k = dk_view s k) /\
    read_active_header (dk_file s') = Ok (with_sequence (expanded_layout h len stage tail) (fh_sequence h + 1), 1 - slot) /\
    forall i x, HEADER_REGION_SIZE <= i < tail -> at_ (dk_file s) i = Some x -> at_ (dk_file s') i = Some x).
Proof.
  intros Hs Hwb Hbc Hst Hle Hto Hnv Hsg Hpa Hko Hpe Hfit Hr Hwf Ha Hseq Hlen Htail.
  pose proof (pages_end_ge s Hs) as Hge. destruct (read_active_header_slot _ _ _ Hr) as [_ Hreg].
  unfold HEADER_REGION_SIZE, FILE_HEADER_SIZE in Hko, Hreg. run.
  eapply runs_mono; [apply persist_hot_tail_spec; lia|]. intros [] s5 (f5 & -> & Hl5 & Hk5 & _). rewrite Hto in *.
  run. set (s5 := dk_set_file f5 _). eapply runs_mono.
  { apply (write_expanded_header_spec s5 len stage tail h slot); try done. change (dk_file s5) with f5. rewrite <- Hr.
    apply read_active_header_ext; unfold HEADER_REGION_SIZE, FILE_HEADER_SIZE; [|lia..]. intros i Hi.
    destruct (lookup_lt_is_Some_2 (dk_file s) (Z.to_nat i)) as [x Hx]; [unfold zlen in Hreg; lia|].
    fold (at_ (dk_file s) i) in Hx. rewrite Hx. apply Hk5; [lia|done]. }
  intros [] s6 (f6 & -> & Hr6 & Hl6 & Hk6). change (dk_file s5) with f5 in *.
  destruct (store_pages_kept s f6 Hs) as [Epg Hs6]; [lia| |].
  { intros i x Hi Hx. apply Hk6; [lia|unfold HEADER_REGION_SIZE, FILE_HEADER_SIZE; lia|]. apply Hk5; [lia|done]. }
  unfold publish_full_snapshot_with_new_nvt. run. set (s7 := dk_set_shared_nvt _ _).
  assert (Hs7 : store_pages s7) by (destruct Hs6; by constructor).
  eapply runs_mono; [by apply publish_full_spec|]. intros [] s8 (sn & -> & Hsn). run.
  assert (Hbase : dk_base s7).
  { constructor; try done; [by rewrite <- Hst in Hsg| | | |].
    - change (stage_params (dk_stage s) (page_size (dk_hl s)) = (dk_kv_block_length s, dk_bucket_count s)). congruence.
    - change (dk_nvt s = NVT_new HashConverter (dk_bucket_count s)). congruence.
    - change (buffer_ok (dk_hl s) (dk_write_buffer s)). rewrite Hwb. intros k e. by rewrite lookup_empty.
    - intros _. change (dk_kv_block_offset s + dk_kv_block_length s <= dk_hot_tail_offset s). lia. }
  split_and!; try done.
  - split; [constructor|apply Hsn]. { by rebase Hbase. }
    change (dk_snapshot _) with sn. rewrite (sf_buffer _ _ _ _ Hsn). eapply snap_of_layout; [..|exact Hsn]; done.
  - intros k. unfold dk_view. rewrite <- Epg. done.
  - intros i x Hi Hx. change (at_ f6 i = Some x). unfold HEADER_REGION_SIZE, FILE_HEADER_SIZE in *.
    apply Hk6; [lia|unfold HEADER_REGION_SIZE, FILE_HEADER_SIZE; lia|]. apply Hk5; [lia|done].
Qed.

(** The view from what the pages were filled with. *)
Lemma relocated_view s s' (l : list KVEntry) a b d k : dk_base s -> (forall e, dk_view s' k = Some e -> kv_hash e = k) ->
  (forall e, e ∈ l <-> live (dk_view s (kv_hash e)) = Some e) ->
  (forall e, dk_view s' (kv_hash e) = Some e <-> e ∈ relocate_entry a b d <$> l) ->
  dk_view s' k = relocate_entry a b d <$> live (dk_view s k).
Proof.
  intros Hb Hh' Hl Hc. destruct (live (dk_view s k)) as [e|] eqn:E.
  - assert (Hk : kv_hash e = k).
    { apply (abs_wf s (insert_all (insert_all ∅ (all_entries (dk_hl s) (dk_pages s))) (buffered_writes s)) k e Hb).
      - intros j. by rewrite collected_lookup.
      - rewrite collected_lookup by done. by apply live_Some. }
    cbn [fmap option_fmap option_map]. rewrite <- Hk, <- (relocate_hash a b d e). apply Hc.
    apply list_elem_of_fmap. exists e. split; [done|]. apply Hl. by rewrite Hk.
  - destruct (dk_view s' k) as [e'|] eqn:E'; [|done]. pose proof (Hh' _ eq_refl) as Hk. rewrite <- Hk in E'.
    apply Hc in E'. apply list_elem_of_fmap in E' as (e & -> & He%Hl). rewrite relocate_hash in Hk. rewrite Hk in He. congruence.
Qed.

(** ** Theorems *)

(** The writer's enumeration lists every readable entry once and nothing else. *)
Theorem disk_kv_iter_all s : dk_ok s -> exists l, dk_iter_all s = Ok l /\ NoDup (kv_hash <$> l) /\
  forall e, e ∈ l <-> dk_get s (kv_hash e) = Ok (Some e).
Proof.
  intros [Hi _]. destruct (iter_all_ok s (di_base _ Hi)) as (l & E & Hnd & Hl). exists l. split; [done|]. split; [done|].
  intros e. rewrite Hl, dk_get_ok by apply Hi. split; [by intros ->|]. by intros [=].
Qed.

Lemma stage_block_fits hl stage len n : 0 <= hl -> stage_params stage (page_size hl) = (len, n) -> n * page_size hl <= len.
Proof.
  intros Hhl Hpa. unfold stage_params, buckets_for_block in Hpa. cbv zeta in Hpa. injection Hpa as E1 E2. rewrite <- E2, E1, Z.mul_comm.
  apply Z.mul_div_le. by apply page_size_pos.
Qed.

(** A change behind the header region leaves the header. *)
Lemma header_kept file file' a b h slot : read_active_header file = Ok (h, slot) -> kept_outside a b file file' -> HEADER_REGION_SIZE <= a ->
  HEADER_REGION_SIZE <= zlen file' -> read_active_header file' = Ok (h, slot).
Proof.
  intros Hr Hkept Ha Hl. destruct (read_active_header_slot _ _ _ Hr) as [_ Hreg]. rewrite <- Hr.
  apply read_active_header_ext; unfold HEADER_REGION_SIZE, FILE_HEADER_SIZE in *; [|lia|lia].
  intros i Hi. destruct (lookup_lt_is_Some_2 file (Z.to_nat i)) as [x Hx]; [unfold zlen in Hreg; lia|].
  fold (at_ file i) in Hx. rewrite Hx. apply Hkept; [lia|lia|done].
Qed.

Lemma relocated_wf s l old_end reloc_end delta : dk_base s -> (forall e, e ∈ l <-> live (dk_view s (kv_hash e)) = Some e) ->
  Forall (KVEntry_wf (dk_hl s)) (relocate_entry old_end reloc_end delta <$> l).
Proof.
  intros Hb Hl. apply Forall_fmap, Forall_forall. intros e He%Hl. apply relocate_wf.
  eapply (abs_wf s (insert_all (insert_all ∅ (all_entries (dk_hl s) (dk_pages s))) (buffered_writes s)) (kv_hash e)); [done| |].
  - intros k. by rewrite collected_lookup.
  - rewrite collected_lookup by done. by apply live_Some.
Qed.

(** C12. Expanding the block keeps the index: after [finalize_expansion] every readable
    entry is found at its relocated offset and nothing else is, the buffer is
    empty, the larger layout is the active header, and the bytes between the new
    block and the new hot tail are as they were; provided no bucket of the new
    layout receives more entries than a page holds. *)
Theorem finalize_expansion_rehashes s stage old_end reloc_end delta tail voids len n h slot :
  dk_ok s -> 0 <= stage < zlen KV_STAGE_SIZES -> stage_params stage (page_size (dk_hl s)) = (len, n) ->
  HEADER_REGION_SIZE <= dk_kv_block_offset s -> dk_kv_block_offset s + len <= tail ->
  read_active_header (dk_file s) = Ok (h, slot) -> FileHeader_wf h -> hash_length (fh_hash_algo h) = 32 ->
  fh_sequence h < u64_max -> is_u64 len -> is_u64 tail ->
  (forall l, dk_iter_all s = Ok l -> buckets_have_room (NVT_new HashConverter n) l) ->
  runs (finalize_expansion stage old_end reloc_end delta tail voids) s (fun _ s' =>
    dk_ok s' /\ dk_stage s' = stage /\ dk_needs_expansion s' = None /\ dk_write_buffer s' = ∅ /\
    (forall k, dk_view s' k = relocate_entry old_end reloc_end delta <$> live (dk_view s k)) /\
    read_active_header (dk_file s') = Ok (with_sequence (expanded_layout h len stage tail) (fh_sequence h + 1), 1 - slot) /\
    forall i x, dk_kv_block_offset s + len <= i < tail -> at_ (dk_file s) i = Some x -> at_ (dk_file s') i = Some x).
Proof.
  intros Hok Hsg Hpa Hko Hfit Hr Hwf Ha Hseq Hlen Htail Hroom. destruct Hok as [Hi Hpub]. pose proof (di_base _ Hi) as Hb.
  pose proof (dk_hl_nonneg s) as Hhl. set (hl := dk_hl s) in *.
  destruct (iter_all_ok s Hb) as (l & El & Hnd & Hl). specialize (Hroom l El).
  pose proof (stage_params_pos (dk_hash_algo s) stage Hsg) as Hpos.
  change (hash_length (dk_hash_algo s)) with hl in Hpos. rewrite Hpa in Hpos. destruct Hpos as [Hn Hlp].
  pose proof (stage_block_fits hl stage len n Hhl Hpa) as Hle. pose proof (sp_offset _ (di_store _ Hb)) as Ho.
  destruct (zero_block_spec (dk_file s) (dk_kv_block_offset s) hl n len Ho Hhl Hn Hle) as (Hsp & Hkg & Hlg).
  set (g := if _ <? _ then _ else _) in *.
  unfold finalize_expansion. run. fold hl. rewrite Hpa. run. apply (runs_lift _ l); [done|]. run.
  apply (runs_mono _ _ (fun _ s' => s' = dk_set_file g s)).
  { unfold g. case_match; run; done. }
  intros [] s' ->. do 18 run_step. set (s1 := dk_set_hot_buffer _ _).
  change s1 with (emptied s g len n stage tail voids). clear s1. set (s1 := emptied s g len n stage tail voids).
  pose proof (emptied_filling s g len n stage tail voids Ho Hn Hsp Hlg) as Hfi1. cbv zeta in Hfi1. fold s1 in Hfi1.
  set (adj := relocate_entry old_end reloc_end delta <$> l).
  assert (Hsn : snapshot_ok (dk_snapshot s1)) by (apply (dk_snapshot_ok s Hi); unfold published in Hpub; rewrite Hpub; apply Hb).
  assert (Hroom1 : buckets_have_room (dk_nvt s1) adj) by (by apply room_relocated).
  run. eapply runs_mono; [apply bulk_insert_fills; [done|done| |done|]|].
  { unfold adj. by rewrite relocated_hashes. }
  { exact (relocated_wf s l old_end reloc_end delta Hb Hl). }
  intros [] s2 Hfi2. run. eapply runs_mono; [by eapply flush_no_snapshot_fills|].
  intros [] s3 [[(f3 & wb & c & ->) Hs3 [_ Hout3] _ _ Hc3] Hwb3]. cbn in Hwb3. subst wb. do 2 run_step.
  set (s4 := dk_set_entry_count _ _).
  assert (Hpe : pages_end s4 = dk_kv_block_offset s + n * page_size hl) by done.
  assert (Hkept : kept_outside (dk_kv_block_offset s) (dk_kv_block_offset s + len) (dk_file s) f3).
  { eapply kept_outside_trans; [exact Hkg|]. intros i x Hi' Hout Hx. apply Hout3; [done| |done].
    change (pages_end s1) with (dk_kv_block_offset s + n * page_size hl).
    change (dk_kv_block_offset s1) with (dk_kv_block_offset s). lia. }
  assert (Hs4 : store_pages s4) by (exact (store_pages_count _ _ Hs3)).
  assert (Hpe4 : pages_end s4 <= dk_kv_block_offset s4 + len)
    by (rewrite Hpe; change (dk_kv_block_offset s4) with (dk_kv_block_offset s); lia).
  assert (Hr4 : read_active_header (dk_file s4) = Ok (h, slot)).
  { pose proof (sp_file _ Hs4) as Hl4. rewrite Hpe in Hl4. eapply header_kept; [exact Hr|exact Hkept|exact Hko|].
    change (dk_file s4) with f3 in Hl4. pose proof (Z.mul_nonneg_nonneg n (page_size hl) ltac:(lia) ltac:(pose proof (page_size_pos hl Hhl); lia)). change (dk_file s4) with f3. lia. }
  eapply runs_mono; [exact (finish_expansion s4 len n stage tail h slot Hs4 eq_refl eq_refl eq_refl eq_refl eq_refl eq_refl
    Hsg Hpa Hko Hpe4 Hfit Hr4 Hwf Ha Hseq Hlen Htail)|].
  intros [] s' (Hok' & Hst' & Hne' & Hwb' & Hv' & Hr' & Hk').
  split; [done|]. split; [done|]. split; [done|]. split; [done|]. split; [|split; [exact Hr'|]].
  - intros k. rewrite Hv'. unfold s4. rewrite dk_view_count. set (s3 := dk_set_file f3 _) in *.
    eapply relocated_view; [exact Hb|intros e He; exact (view_pages_hash s3 k e Hs3 eq_refl He)|exact Hl|exact Hc3].
  - intros i x Hi' Hx. unfold HEADER_REGION_SIZE, FILE_HEADER_SIZE in *. apply Hk'; [unfold HEADER_REGION_SIZE, FILE_HEADER_SIZE; lia|]. apply Hkept; [lia|lia|done].
Qed.
End Expand.

(** ** Overflow in bulk *)

(** 33 entries of one bucket: their hashes differ in the last byte only. *)
Definition crowd : list KVEntry :=
  (fun i => {| kv_type_flags := Byte.x01; kv_hash := replicate 31 Byte.x00 ++ [z2b i]; kv_offset := 66048 + i;
               kv_total_length := 1 |}) <$> seqZ 0 33.

Definition crowded : option (res unit * DiskKVStore) :=
  match new_store with
  | Ok s => (@bulk_insert crc32_ieee hash_to_scalar map_order crowd ;;
             @flush_no_snapshot crc32_ieee hash_to_scalar map_order) s
  | _ => None
  end.

Definition readable (s : DiskKVStore) (e : KVEntry) : bool :=
  match @dk_get crc32_ieee hash_to_scalar s (kv_hash e) with Ok (Some e') => bool_decide (e' = e) | _ => false end.

(** [flush_no_snapshot] ignores what [upsert_in_page] refuses: of 33 entries of one
    bucket, inserted in bulk and flushed without an error, only 32 can be read,
    nothing is left in the buffer and no flag is raised. *)
Theorem bulk_insert_drops_overflow :
  (fun r => (r.1, zlen (filter (fun e => readable r.2 e = true) crowd),
             map_len (dk_write_buffer r.2), dk_needs_rebuild r.2, dk_needs_expansion r.2)) <$> crowded
    = Some (Ok tt, 32, 0, false, None).
Proof. vm_compute. reflexivity. Qed.

(** ** Witnesses *)

Definition header_store : option (res unit * DiskKVStore) :=
  match @DiskKVStore_create crc32_ieee map_order sample_db Blake3_256 512 66048 0 with
  | Ok s => @dk_insert crc32_ieee hash_to_scalar map_order (sample_kv Byte.x01 66048) s
  | _ => None
  end.

Lemma header_store_ok : exists s, header_store = Some (Ok tt, s) /\ @dk_ok crc32_ieee hash_to_scalar s.
Proof.
  destruct (@create_spec crc32_ieee hash_to_scalar map_order sample_db Blake3_256 512 66048 0 65536 45
    ltac:(lia) ltac:(done) eq_refl ltac:(lia)) as (s & E & Hok & Ha & Hst & Hal & _).
  destruct (@insert_refines crc32_ieee hash_to_scalar map_order s ∅ (sample_kv Byte.x01 66048) Hok Ha) as ([] & s' & Er & Hr & _).
  - rewrite Hst. done.
  - unfold dk_hl. rewrite Hal. exact one_entry_wf.
  - exists s'. split; [|done]. unfold header_store. by rewrite E.
Qed.

Lemma header_store_fields :
  (fun r => (dk_hash_algo r.2, dk_kv_block_offset r.2, @read_active_header crc32_ieee (dk_file r.2),
             @dk_iter_all crc32_ieee map_order r.2)) <$> header_store
    = Some (Blake3_256, 512, Ok (sample_active, 0), Ok [sample_kv Byte.x01 66048]).
Proof. vm_compute. reflexivity. Qed.

Lemma disk_kv_iter_all_witness : exists s, header_store = Some (Ok tt, s) /\
  exists l, @dk_iter_all crc32_ieee map_order s = Ok l /\ NoDup (kv_hash <$> l) /\
    forall e, e ∈ l <-> @dk_get crc32_ieee hash_to_scalar s (kv_hash e) = Ok (Some e).
Proof.
  destruct header_store_ok as (s & E & Hok). exists s. split; [exact E|].
  exact (@disk_kv_iter_all crc32_ieee hash_to_scalar map_order s Hok).
Defined.

Lemma finalize_expansion_rehashes_witness : exists s, header_store = Some (Ok tt, s) /\
  runs (@finalize_expansion crc32_ieee hash_to_scalar map_order 1 66048 67000 458752 524900 []) s (fun _ s' =>
    @dk_ok crc32_ieee hash_to_scalar s' /\ dk_stage s' = 1 /\
    forall k, @dk_view crc32_ieee hash_to_scalar s' k
      = relocate_entry 66048 67000 458752 <$> live (@dk_view crc32_ieee hash_to_scalar s k)).
Proof.
  destruct header_store_ok as (s & E & Hok). exists s. split; [exact E|].
  pose proof header_store_fields as Hf. rewrite E in Hf. cbn [fmap option_fmap option_map snd] in Hf. clear E.
  injection Hf as Ha Ho Hr Hl. assert (Hhl : dk_hl s = 32) by (unfold dk_hl; rewrite Ha; reflexivity).
  eapply runs_mono; [apply (@finalize_expansion_rehashes crc32_ieee hash_to_scalar map_order s 1 66048 67000 458752
    524900 [] 524288 361 sample_active 0 Hok)|].
  - split; [discriminate|reflexivity].
  - rewrite Hhl. vm_compute. reflexivity.
  - rewrite Ho. vm_compute. discriminate.
  - rewrite Ho. vm_compute. discriminate.
  - exact Hr.
  - exact sample_active_wf.
  - reflexivity.
  - vm_compute. reflexivity.
  - split; [discriminate|reflexivity].
  - split; [discriminate|reflexivity].
  - intros l Hl'. rewrite Hl in Hl'. injection Hl' as <-. intros b. rewrite filter_cons, filter_nil.
    case_decide; vm_compute; discriminate.
  - intros [] s' (Hok' & Hst & _ & _ & Hv & _). split; [exact Hok'|]. split; [exact Hst|exact Hv].
Defined.
