(* ===== verification/DiskKvEdge.v ===== *)
(** Edges of the disk index: the flush at the last stage, the flush inside a
    transaction, and the entry count after a hash is deleted and inserted again. *)
From S2P Require Import Prelude Codec EntryFormat KvEntry KvPages FileIo HotTail FileHeader KvExpand Converters Nvt StateM KvSnapshot VoidRanges DiskKv DiskKvPages DiskKvSpec DiskKvRefine DiskKvOpen.

Local Open Scope Z_scope.

Section Edge.
Context `{Crc32, ToScalar, HashOrder}.

(** At the last stage a flush that overflows returns an error after it emptied the
    buffer: the published snapshot has no buffered entries, so what did not fit
    its page is gone. *)
Theorem flush_last_stage_drops s overflow s1 : dk_inv s -> dk_stage s = last_stage -> dk_write_buffer s <> ∅ ->
  flush_buckets (group_by_bucket s) s = Some (Ok overflow, s1) -> overflow <> [] ->
  exists s', flush s = Some (Err IoError, s') /\ dk_write_buffer s' = ∅ /\ rs_buffer (dk_snapshot s') = ∅.
Proof.
  intros [Hb Hsn] Hst Hne E Ho. pose proof (groups_in_range s (di_store _ Hb) (di_buffer _ Hb)) as Hmb.
  destruct (flush_buffer_spec s (di_store _ Hb) (di_buffer _ Hb)) as (ov & s1' & E' & file & -> & Hs1 & _ & _ & Hag & _ & _).
  rewrite E in E'. injection E' as <- ->. set (s2 := dk_set_write_buffer ∅ (dk_set_file file s)).
  destruct (publish_flushed s2 (group_by_bucket s).*1 (dk_pages s)) as ([] & s3 & E3 & sn & -> & Hok).
  - by apply flushed_base.
  - done.
  - exact (zlen_dk_pages s (di_store _ Hb)).
  - exact (sp_pages _ (di_store _ Hb)).
  - eapply snap_of_layout; [..|exact Hsn]; done.
  - intros b Hni. symmetry. by apply Hag.
  - exists (dk_set_snapshot sn s2). split; [|split; [done|apply Hok]].
    unfold flush. cbn [flush_loop]. unfold flush_body, mbind, M_bind, gets, id. rewrite bool_decide_eq_false_2 by done.
    cbv zeta. rewrite E. unfold modify. fold s2. rewrite bool_decide_eq_false_2 by done. rewrite E3.
    unfold resize_to_next_stage, mbind, M_bind, gets, id. cbv zeta.
    change (dk_stage (dk_set_snapshot sn s2)) with (dk_stage s). rewrite Hst. done.
Qed.
End Edge.

(** ** Concrete runs *)

#[local] Existing Instance crc32_ieee.
#[local] Existing Instance hash_to_scalar.
#[local] Existing Instance map_order.

Definition on_new_store (m : M DiskKVStore unit) : option (res unit * DiskKVStore) :=
  match new_store with Ok s => m s | _ => None end.

(** Inside a transaction [flush] is documented not to clear the hot tail; it does
    when something was journalled since the tail was last written. *)
Theorem flush_in_transaction_clears_tail :
  let tail r := ht_writes <$> default None (match read_hot_tail (dk_file r.2) 66048 32 with Ok o => Some o | _ => None end) in
  let before := modify (dk_set_transaction_depth 1) ;; dk_insert (sample_kv Byte.x01 66048) ;; force_flush_hot_buffer in
  (fun r : res unit * DiskKVStore => tail r) <$> on_new_store before = Some (Some [sample_kv Byte.x01 66048]) /\
  (fun r : res unit * DiskKVStore => (dk_transaction_depth r.2, tail r)) <$> on_new_store (before ;; flush) = Some (1, Some []).
Proof. cbv zeta. split; vm_compute; reflexivity. Qed.

(** A hash deleted and inserted again is readable but no longer counted. *)
Theorem reinserted_hash_not_counted :
  (fun r => (@dk_get _ _ r.2 (replicate 32 Byte.x01), dk_entry_count r.2)) <$>
    on_new_store (dk_insert (sample_kv Byte.x01 66048) ;; mark_deleted (replicate 32 Byte.x01) ;;
                  dk_insert (sample_kv Byte.x01 66048))
  = Some (Ok (Some (sample_kv Byte.x01 66048)), 0).
Proof. vm_compute. reflexivity. Qed.
