(* ===== verification/Paths.v ===== *)
(** Path strings (engine/path_utils.rs): [normalize_path] resolves a user's path
    into a canonical absolute one; [parent_path], [file_name] and
    [path_segments] take canonical paths apart.  Strings are UTF-8 byte lists.
    The theorems: a normalised path is always canonical, so it can name nothing
    above the root, and the three readers are the inverse of composition. *)
From S2P Require Import Prelude.

Local Open Scope Z_scope.

(** ** The string functions of the standard library the source uses *)

Definition slash : byte := Byte.x2f.
Definition nul : byte := Byte.x00.

(** The UTF-8 encodings of the characters with the Unicode property
    [White_Space], which [str::trim] removes at both ends. *)
Definition white_space : list bytes :=
  map (map z2b)
    [[0x09]; [0x0A]; [0x0B]; [0x0C]; [0x0D]; [0x20]; [0xC2; 0x85]; [0xC2; 0xA0];
     [0xE1; 0x9A; 0x80];
     [0xE2; 0x80; 0x80]; [0xE2; 0x80; 0x81]; [0xE2; 0x80; 0x82]; [0xE2; 0x80; 0x83];
     [0xE2; 0x80; 0x84]; [0xE2; 0x80; 0x85]; [0xE2; 0x80; 0x86]; [0xE2; 0x80; 0x87];
     [0xE2; 0x80; 0x88]; [0xE2; 0x80; 0x89]; [0xE2; 0x80; 0x8A]; [0xE2; 0x80; 0xA8];
     [0xE2; 0x80; 0xA9]; [0xE2; 0x80; 0xAF]; [0xE2; 0x81; 0x9F]; [0xE3; 0x80; 0x80]].

Fixpoint strip_prefix (p l : bytes) : option bytes :=
  match p, l with
  | [], _ => Some l
  | a :: p, b :: l => if decide (a = b) then strip_prefix p l else None
  | _ :: _, [] => None
  end.

Definition starts_with (l p : bytes) : bool :=
  match strip_prefix p l with Some _ => true | None => false end.

Fixpoint strip_any (ps : list bytes) (l : bytes) : option bytes :=
  match ps with
  | [] => None
  | p :: ps => match strip_prefix p l with Some r => Some r | None => strip_any ps l end
  end.

(** Each round removes at least one byte, so the length is enough fuel. *)
Fixpoint trim_with (ps : list bytes) (fuel : nat) (l : bytes) : bytes :=
  match fuel with
  | O => l
  | S fuel => match strip_any ps l with Some r => trim_with ps fuel r | None => l end
  end.

Definition trim_start (l : bytes) : bytes := trim_with white_space (length l) l.
Definition trim_end (l : bytes) : bytes :=
  rev (trim_with (map (@rev byte) white_space) (length l) (rev l)).

Definition trim (l : bytes) : bytes := trim_end (trim_start l).

(** [s.trim_start_matches('/')] and [s.trim_end_matches('/')]. *)
Fixpoint trim_start_slashes (l : bytes) : bytes :=
  match l with
  | b :: r => if decide (b = slash) then trim_start_slashes r else l
  | [] => []
  end.

Definition trim_end_slashes (l : bytes) : bytes := rev (trim_start_slashes (rev l)).
Definition trim_matches_slash (l : bytes) : bytes := trim_end_slashes (trim_start_slashes l).

(** [s.split('/')]: always at least one piece. *)
Fixpoint split_slash (l : bytes) : list bytes :=
  match l with
  | [] => [[]]
  | b :: r =>
    if decide (b = slash) then [] :: split_slash r
    else match split_slash r with
         | s :: ss => (b :: s) :: ss
         | [] => [[b]]
         end
  end.

(** [v.join("/")]. *)
Fixpoint join_slash (ss : list bytes) : bytes :=
  match ss with
  | [] => []
  | [s] => s
  | s :: ss => s ++ slash :: join_slash ss
  end.

(** [s.rfind('/')]: the parts before and after the last separator. *)
Fixpoint rsplit_slash (l : bytes) : option (bytes * bytes) :=
  match l with
  | [] => None
  | b :: r =>
    match rsplit_slash r with
    | Some (x, y) => Some (b :: x, y)
    | None => if decide (b = slash) then Some ([], r) else None
    end
  end.

Definition ends_with_slash (l : bytes) : bool :=
  match last l with Some b => bool_decide (b = slash) | None => false end.

Definition starts_with_slash (l : bytes) : bool :=
  match l with b :: _ => bool_decide (b = slash) | [] => false end.

(** ** path_utils.rs *)

(** The loop over the segments: [.] is skipped, [..] pops, the rest is pushed. *)
Definition push_segment (segments : list bytes) (segment : bytes) : list bytes :=
  if decide (segment = []) then segments
  else if decide (segment = lit ".") then segments
  else if decide (segment = lit "..") then removelast segments
  else segments ++ [segment].

Definition normalize_path (path : bytes) : bytes :=
  let path := filter (fun b => b <> nul) path in
  let trimmed := trim path in
  if decide (trimmed = []) then lit "/"
  else
    let segments := fold_left push_segment (split_slash trimmed) [] in
    if decide (segments = []) then lit "/" else slash :: join_slash segments.

Definition parent_path (path : bytes) : option bytes :=
  let normalized := normalize_path path in
  if decide (normalized = lit "/") then None
  else match rsplit_slash normalized with
       | Some ([], _) => Some (lit "/")
       | Some (before, _) => Some before
       | None => None
       end.

Definition file_name (path : bytes) : option bytes :=
  let trimmed := trim_end_slashes (trim path) in
  if decide (trimmed = [] \/ trimmed = lit "/") then None
  else match rsplit_slash trimmed with
       | Some (_, name) => if decide (name = []) then None else Some name
       | None => Some trimmed
       end.

Definition path_segments (path : bytes) : list bytes :=
  fold_left push_segment (split_slash (trim path)) [].

(** ** Canonical paths *)

(** A segment a directory entry can have: not empty, not [.] or [..], and with
    neither a separator nor a NUL byte. *)
Definition good_segment (s : bytes) : Prop :=
  s <> [] /\ s <> lit "." /\ s <> lit ".." /\ slash ∉ s /\ nul ∉ s.

#[export] Instance good_segment_dec s : Decision (good_segment s).
Proof. unfold good_segment. apply _. Defined.

(** The canonical absolute path of a list of segments. *)
Definition path_of (segments : list bytes) : bytes :=
  if decide (segments = []) then lit "/" else slash :: join_slash segments.

(** ** Lemmas *)

Lemma split_slash_cons l : exists s ss, split_slash l = s :: ss.
Proof.
  induction l as [|b r (s & ss & E)]; simpl; [eauto|].
  case_decide; [eauto|]. rewrite E. eauto.
Qed.

Lemma split_slash_pieces l s : s ∈ split_slash l -> slash ∉ s /\ (forall b, b ∈ s -> b ∈ l).
Proof.
  revert s. induction l as [|b r IH]; simpl; intros s Hs.
  - apply list_elem_of_singleton in Hs as ->. split; [apply not_elem_of_nil|done].
  - case_decide as Hb.
    + apply elem_of_cons in Hs as [->|Hs]; [split; [apply not_elem_of_nil|]; intros ? []%elem_of_nil|].
      destruct (IH s Hs) as [H1 H2]. split; [done|]. intros; apply elem_of_cons; auto.
    + destruct (split_slash_cons r) as (s0 & ss & E). rewrite E in *.
      apply elem_of_cons in Hs as [->|Hs].
      * destruct (IH s0) as [H1 H2]; [apply elem_of_cons; auto|].
        split; [rewrite elem_of_cons; intuition congruence|].
        intros x [->|Hx]%elem_of_cons; apply elem_of_cons; auto.
      * destruct (IH s) as [H1 H2]; [apply elem_of_cons; auto|].
        split; [done|]. intros; apply elem_of_cons; auto.
Qed.

Lemma split_slash_noslash s : slash ∉ s -> split_slash s = [s].
Proof.
  induction s as [|b r IH]; simpl; intros H; [done|].
  apply not_elem_of_cons in H as [H1 H2]. rewrite decide_False by congruence.
  by rewrite IH.
Qed.

Lemma split_slash_app s l : slash ∉ s -> split_slash (s ++ slash :: l) = s :: split_slash l.
Proof.
  induction s as [|b r IH]; simpl; intros H; [done|].
  apply not_elem_of_cons in H as [H1 H2]. rewrite decide_False by congruence.
  by rewrite IH.
Qed.

Lemma split_join ss : ss <> [] -> Forall (fun s => slash ∉ s) ss -> split_slash (join_slash ss) = ss.
Proof.
  induction ss as [|s [|s2 ss] IH]; intros Hne Hf; [done| |].
  - inversion Hf; subst. by apply split_slash_noslash.
  - inversion Hf; subst. change (join_slash (s :: s2 :: ss)) with (s ++ slash :: join_slash (s2 :: ss)).
    rewrite split_slash_app by done. by rewrite IH.
Qed.

Lemma rsplit_noslash s : slash ∉ s -> rsplit_slash s = None.
Proof.
  induction s as [|b r IH]; simpl; intros H; [done|].
  apply not_elem_of_cons in H as [H1 H2]. rewrite IH by done.
  by rewrite decide_False by congruence.
Qed.

Lemma rsplit_app l s : slash ∉ s -> rsplit_slash (l ++ slash :: s) = Some (l, s).
Proof.
  intros H. induction l as [|b r IH]; simpl; [by rewrite rsplit_noslash|by rewrite IH].
Qed.

Lemma join_snoc ss s : ss <> [] -> join_slash (ss ++ [s]) = join_slash ss ++ slash :: s.
Proof.
  induction ss as [|a [|b ss] IH]; intros H; [done|done|].
  change (join_slash (a :: b :: ss)) with (a ++ slash :: join_slash (b :: ss)).
  rewrite <- app_assoc. cbn [app]. rewrite <- IH by done. done.
Qed.

Lemma path_of_snoc ss s : path_of (ss ++ [s]) = (if decide (ss = []) then [] else path_of ss) ++ slash :: s.
Proof.
  unfold path_of. rewrite decide_False by (by destruct ss).
  destruct (decide (ss = [])) as [->|H]; [done|]. by rewrite join_snoc.
Qed.

(** Pushing keeps every kept segment good. *)
Lemma fold_push_good l : forall acc,
  Forall good_segment acc -> Forall (fun s => slash ∉ s /\ nul ∉ s) l ->
  Forall good_segment (fold_left push_segment l acc).
Proof.
  induction l as [|s l IH]; simpl; intros acc Ha Hl; [done|].
  inversion Hl as [|?? [H1 H2] Hl']; subst. apply IH; [|done].
  unfold push_segment. repeat case_decide; try done.
  - destruct acc as [|x acc _] using rev_ind; [done|].
    rewrite removelast_last. by apply Forall_app in Ha as [? _].
  - apply Forall_app. split; [done|]. constructor; [|done]. by repeat split.
Qed.

Lemma fold_push_id l : forall acc,
  Forall good_segment l -> fold_left push_segment l acc = acc ++ l.
Proof.
  induction l as [|s l IH]; simpl; intros acc Hl; [by rewrite app_nil_r|].
  inversion Hl as [|?? (H1 & H2 & H3 & _) Hl']; subst. rewrite IH by done.
  unfold push_segment. rewrite !decide_False by done. by rewrite <- app_assoc.
Qed.

Lemma strip_prefix_app p l r : strip_prefix p l = Some r <-> l = p ++ r.
Proof.
  revert l. induction p as [|a p IH]; intros l; simpl; [naive_solver|].
  destruct l as [|b l]; [naive_solver|].
  case_decide as E; [subst; rewrite IH; naive_solver|]. naive_solver.
Qed.

Lemma strip_any_suffix ps l r : strip_any ps l = Some r -> exists p, p ∈ ps /\ l = p ++ r.
Proof.
  induction ps as [|p ps IH]; simpl; [done|].
  destruct (strip_prefix p l) eqn:E.
  - intros [= ->]. exists p. apply strip_prefix_app in E. split; [apply elem_of_cons; auto|done].
  - intros H. destruct (IH H) as (q & ? & ?). exists q. split; [apply elem_of_cons; auto|done].
Qed.

Lemma trim_with_suffix ps n : forall l, exists p, l = p ++ trim_with ps n l.
Proof.
  induction n as [|n IH]; simpl; intros l; [by exists []|].
  destruct (strip_any ps l) as [r|] eqn:E; [|by exists []].
  apply strip_any_suffix in E as (p & _ & ->). destruct (IH r) as (q & Hq).
  exists (p ++ q). by rewrite <- app_assoc, <- Hq.
Qed.

(** [trim] only removes bytes at the two ends. *)
Lemma trim_infix l : exists p q, l = p ++ trim l ++ q.
Proof.
  unfold trim, trim_end. set (m := trim_start l).
  destruct (trim_with_suffix white_space (length l) l) as (p & Hp).
  fold (trim_start l) in Hp. fold m in Hp.
  destruct (trim_with_suffix (map (@rev byte) white_space) (length m) (rev m)) as (q & Hq).
  exists p, (rev q). rewrite Hp at 1. f_equal.
  rewrite <- rev_app_distr, <- Hq. symmetry. apply rev_involutive.
Qed.

Lemma trim_elem l b : b ∈ trim l -> b ∈ l.
Proof. destruct (trim_infix l) as (p & q & E). intros H. rewrite E. set_solver. Qed.

Lemma normalize_form path :
  normalize_path path =
    path_of (fold_left push_segment (split_slash (trim (filter (fun b => b <> nul) path))) []).
Proof.
  unfold normalize_path, path_of. case_decide as E; [|done]. by rewrite E.
Qed.

Lemma normalize_segments_good path :
  Forall good_segment
    (fold_left push_segment (split_slash (trim (filter (fun b => b <> nul) path))) []).
Proof.
  apply fold_push_good; [constructor|]. apply Forall_forall. intros s Hs.
  apply split_slash_pieces in Hs as [H1 H2]. split; [done|].
  intros Hn. apply H2, trim_elem in Hn. apply list_elem_of_filter in Hn as [? _]. done.
Qed.

Lemma good_no_slash ss : Forall good_segment ss -> Forall (fun s => slash ∉ s) ss.
Proof. intros H. eapply Forall_impl; [exact H|]. intros s Hs. apply Hs. Qed.

Lemma split_path_of ss : ss <> [] -> Forall good_segment ss -> split_slash (path_of ss) = [] :: ss.
Proof.
  intros Hne Hg. unfold path_of. rewrite decide_False by done.
  change (slash :: join_slash ss) with ([] ++ slash :: join_slash ss).
  rewrite split_slash_app by apply not_elem_of_nil. rewrite split_join; [done|done|].
  by apply good_no_slash.
Qed.

Lemma fold_push_path_of ss :
  Forall good_segment ss -> fold_left push_segment (split_slash (path_of ss)) [] = ss.
Proof.
  intros Hg. destruct (decide (ss = [])) as [->|Hne]; [done|].
  rewrite split_path_of by done. cbn [fold_left]. unfold push_segment at 2.
  rewrite decide_True by done. by rewrite fold_push_id.
Qed.

Lemma join_elem ss b : b ∈ join_slash ss -> b = slash \/ exists s, s ∈ ss /\ b ∈ s.
Proof.
  induction ss as [|s [|s2 ss] IH]; [intros []%elem_of_nil| |].
  - intros H. right. exists s. split; [apply elem_of_cons; auto|done].
  - change (join_slash (s :: s2 :: ss)) with (s ++ slash :: join_slash (s2 :: ss)).
    intros [H|[H|H]%elem_of_cons]%elem_of_app; [right; exists s; split; [apply elem_of_cons; auto|done]|by left|].
    destruct (IH H) as [?|(x & ? & ?)]; [by left|]. right. exists x.
    split; [apply elem_of_cons; auto|done].
Qed.

Lemma path_of_no_nul ss : Forall good_segment ss -> nul ∉ path_of ss.
Proof.
  intros Hg. unfold path_of. case_decide.
  - change (lit "/") with [slash]. intros H1%list_elem_of_singleton. done.
  - intros [H1|H1]%elem_of_cons; [done|]. apply join_elem in H1 as [|(s & Hs & Hb)]; [done|].
    rewrite Forall_forall in Hg. destruct (Hg s Hs) as (_ & _ & _ & _ & Hn). done.
Qed.

Lemma normalize_path_of ss :
  Forall good_segment ss -> trim (path_of ss) = path_of ss -> normalize_path (path_of ss) = path_of ss.
Proof.
  intros Hg Ht. rewrite normalize_form.
  rewrite (filter_all (fun b => b <> nul)).
  - by rewrite Ht, fold_push_path_of.
  - intros x Hx ->. by apply (path_of_no_nul ss).
Qed.

Lemma trim_end_slashes_noslash l s : s <> [] -> slash ∉ s -> trim_end_slashes (l ++ s) = l ++ s.
Proof.
  intros Hne Hs. unfold trim_end_slashes. rewrite rev_app_distr.
  destruct (rev s) as [|b r] eqn:E.
  - apply (f_equal (@rev byte)) in E. by rewrite rev_involutive in E.
  - cbn [app trim_start_slashes]. rewrite decide_False.
    + change (b :: r ++ rev l) with ((b :: r) ++ rev l). rewrite <- E, <- rev_app_distr.
      apply rev_involutive.
    + intros ->. apply Hs. rewrite list_elem_of_In, in_rev, E. by left.
Qed.

(** ** Theorems *)

(** C37. Every normalised path is canonical: it is the absolute path of some list of
    segments none of which is empty, [.], [..] or contains a separator or NUL,
    and reading it back gives exactly those segments.  No input can name a
    path above the root. *)
Theorem normalize_path_canonical path :
  exists segments,
    normalize_path path = path_of segments /\
    Forall good_segment segments /\
    fold_left push_segment (split_slash (normalize_path path)) [] = segments.
Proof.
  eexists. rewrite normalize_form. split; [reflexivity|].
  pose proof (normalize_segments_good path) as Hg. split; [done|]. by apply fold_push_path_of.
Qed.

(** Taking a canonical path apart is the inverse of composing it: for good
    segments whose path has no blank at its ends, normalisation leaves the path
    alone, [parent_path] and [file_name] return the directory and the name, and
    [path_segments] returns all segments. *)
Theorem path_parts segments name :
  Forall good_segment (segments ++ [name]) ->
  trim (path_of (segments ++ [name])) = path_of (segments ++ [name]) ->
  normalize_path (path_of (segments ++ [name])) = path_of (segments ++ [name]) /\
  parent_path (path_of (segments ++ [name])) = Some (path_of segments) /\
  file_name (path_of (segments ++ [name])) = Some name /\
  path_segments (path_of (segments ++ [name])) = segments ++ [name].
Proof.
  intros Hg Ht. pose proof (normalize_path_of _ Hg Ht) as Hn.
  pose proof Hg as (Hs & Hname)%Forall_app. apply Forall_singleton in Hname as (H1 & H2 & H3 & H4 & H5).
  split; [done|]. split; [|split].
  - unfold parent_path. rewrite Hn. rewrite path_of_snoc.
    rewrite decide_False.
    + rewrite rsplit_app by done. destruct (decide (segments = [])) as [->|Hne]; [done|].
      unfold path_of. by rewrite decide_False.
    + intros E. change (lit "/") with [slash] in E. destruct (decide (segments = [])).
      * injection E. done.
      * unfold path_of in E. rewrite decide_False in E by done. injection E. intros E'.
        by destruct (join_slash segments).
  - unfold file_name. rewrite Ht, path_of_snoc.
    change (slash :: name) with ([slash] ++ name). rewrite app_assoc.
    rewrite trim_end_slashes_noslash by done.
    rewrite <- app_assoc. cbn [app]. rewrite decide_False.
    + by rewrite rsplit_app, decide_False.
    + intros [E|E]; [by destruct (if decide (segments = []) then _ else _)|].
      change (lit "/") with ([] ++ [slash]) in E. apply (f_equal rsplit_slash) in E.
      change ([] ++ [slash]) with ([] ++ slash :: []) in E.
      rewrite !rsplit_app in E by (done || apply not_elem_of_nil). congruence.
  - unfold path_segments. rewrite Ht. by apply fold_push_path_of.
Qed.

(** [normalize_path] is not idempotent: blanks are trimmed only at the ends of
    the input, so a segment with a trailing blank that becomes the last one
    loses it in a second call, and two spellings the engine stores under
    different keys collapse. *)
Theorem normalize_path_not_idempotent :
  normalize_path (lit "/a /") = lit "/a " /\
  normalize_path (normalize_path (lit "/a /")) = lit "/a".
Proof. split; vm_compute; reflexivity. Qed.

(** ** Witnesses *)

Lemma path_parts_witness :
  parent_path (lit "/docs/a.txt") = Some (lit "/docs") /\ file_name (lit "/docs/a.txt") = Some (lit "a.txt").
Proof.
  destruct (path_parts [lit "docs"] (lit "a.txt") ltac:(apply (bool_decide_unpack _); vm_compute; exact I)
    ltac:(vm_compute; reflexivity)) as (_ & H1 & H2 & _).
  split; [exact H1|exact H2].
Defined.
