(* ===== verification/SymlinkResolver.v ===== *)
(** Symlink resolution (engine/symlink_resolver.rs).  The resolver reads the
    directory layer through three calls, which are the interface class
    [DirectoryReads]; the loop keeps a visited set, a display chain and a hop
    counter.  The theorem gives the result of every run, and that there is
    one, whatever the stored links look like. *)
From S2P Require Import Prelude Codec EntryFormat Records Paths.

Local Open Scope Z_scope.

(** What the resolver asks of the directory layer: [get_symlink],
    [get_metadata] and [list_directory] at a path. *)
Class DirectoryReads := {
  get_symlink : bytes -> res (option SymlinkRecord);
  get_metadata : bytes -> res (option FileRecord);
  list_directory : bytes -> res (list ChildEntry)
}.

Definition MAX_SYMLINK_DEPTH : nat := 32.

Inductive ResolvedTarget :=
| File (record : FileRecord)
| Directory (path : bytes).

Section Resolver.
Context `{DirectoryReads}.

(** The end of a round whose path is not a symlink. *)
Definition resolve_target (current_path : bytes) : res ResolvedTarget :=
  match get_metadata current_path with
  | Ok (Some file_record) => Ok (File file_record)
  | Ok None =>
    match list_directory current_path with
    | Ok _ => Ok (Directory current_path)
    | Err (NotFound _) => Err (NotFound "Dangling symlink: target '{}' does not exist")
    | Err other => Err other
    | Panic => Panic
    end
  | Err e => Err e
  | Panic => Panic
  end.

(** The [loop]; [None] is running out of fuel. *)
Fixpoint resolve_loop (fuel : nat) (visited : gset bytes) (chain : list bytes)
    (current_path : bytes) (depth : nat) : option (res ResolvedTarget) :=
  match fuel with
  | O => None
  | S fuel =>
    if decide (current_path ∈ visited) then Some (Err (CyclicSymlink (chain ++ [current_path])))
    else if decide (MAX_SYMLINK_DEPTH <= depth)%nat
    then Some (Err (SymlinkDepthExceeded "Exceeded maximum symlink depth of {} following '{}'"))
    else
      match get_symlink current_path with
      | Ok (Some record) =>
        resolve_loop fuel ({[current_path]} ∪ visited) (chain ++ [current_path])
          (normalize_path (sl_target record)) (S depth)
      | Ok None => Some (resolve_target current_path)
      | Err e => Some (Err e)
      | Panic => Some Panic
      end
  end.

Definition resolve_symlink (path : bytes) : option (res ResolvedTarget) :=
  resolve_loop 33 ∅ [] (normalize_path path) 0.

(** ** The specification: following links *)

(** One hop, [n] hops, and the first [n] paths of the walk. *)
Definition hop (p : bytes) : option bytes :=
  match get_symlink p with
  | Ok (Some record) => Some (normalize_path (sl_target record))
  | _ => None
  end.

Fixpoint hops (n : nat) (p : bytes) : option bytes :=
  match n with
  | O => Some p
  | S n => match hop p with Some q => hops n q | None => None end
  end.

Fixpoint walk (n : nat) (p : bytes) : list bytes :=
  match n with
  | O => []
  | S n => p :: match hop p with Some q => walk n q | None => [] end
  end.

(** What the resolver answers at a path that is not a link. *)
Definition leaf_result (p : bytes) : res ResolvedTarget :=
  match get_symlink p with
  | Ok _ => resolve_target p
  | Err e => Err e
  | Panic => Panic
  end.

Lemma hops_snoc n : forall p, hops (S n) p = match hops n p with Some q => hop q | None => None end.
Proof.
  induction n as [|n IH]; intros p; [simpl; by destruct (hop p)|].
  change (hops (S (S n)) p) with (match hop p with Some q => hops (S n) q | None => None end).
  cbn [hops]. destruct (hop p) as [q|]; [|done]. by rewrite <- IH.
Qed.

Lemma walk_snoc n : forall p q, hops n p = Some q -> walk (S n) p = walk n p ++ [q].
Proof.
  induction n as [|n IH]; intros p q Hq; simpl in Hq.
  - injection Hq as ->. simpl. by destruct (hop q).
  - destruct (hop p) as [r|] eqn:E; [|done].
    change (walk (S (S n)) p) with (p :: match hop p with Some q => walk (S n) q | None => [] end).
    rewrite E, (IH r q Hq). simpl. by rewrite E.
Qed.

Lemma hops_add m : forall n p q, hops m p = Some q -> hops (m + n) p = hops n q.
Proof.
  induction m as [|m IH]; simpl; intros n p q Hq; [by injection Hq as ->|].
  destruct (hop p); [|done]. by apply IH.
Qed.

Lemma hops_prefix m n p : (m <= n)%nat -> is_Some (hops n p) -> is_Some (hops m p).
Proof.
  intros Hle Hs. destruct (hops m p) eqn:E; [eauto|].
  exfalso. clear -Hle Hs E. revert m p Hle E Hs. induction n as [|n IH]; intros m p Hle E Hs.
  - assert (m = 0%nat) as -> by lia. done.
  - destruct m as [|m]; [done|]. simpl in *. destruct (hop p) as [r|]; [|by destruct Hs].
    apply (IH m r); [lia|done|done].
Qed.

Lemma walk_elem n p q : q ∈ walk n p -> exists i, (i < n)%nat /\ hops i p = Some q.
Proof.
  revert p. induction n as [|n IH]; simpl; intros p; [by intros ?%elem_of_nil|].
  intros [->|Hq]%elem_of_cons; [exists 0%nat; split; [lia|done]|].
  destruct (hop p) as [r|] eqn:E; [|by apply elem_of_nil in Hq].
  destruct (IH r Hq) as (i & ? & ?). exists (S i). split; [lia|]. simpl. by rewrite E.
Qed.

(** A walk that ends at a path which is not a link visits no path twice. *)
Lemma walk_no_repeat n p d :
  hops n p = Some d -> hop d = None -> NoDup (walk (S n) p).
Proof.
  revert p. induction n as [|n IH]; intros p Hn Hd.
  - simpl in Hn. injection Hn as ->. simpl. rewrite Hd. apply NoDup_singleton.
  - pose proof Hn as Hn'. simpl in Hn. destruct (hop p) as [r|] eqn:E; [|done].
    change (walk (S (S n)) p) with (p :: match hop p with Some q => walk (S n) q | None => [] end).
    rewrite E. apply NoDup_cons. split; [|by apply IH].
    intros (i & Hi & Hri)%walk_elem.
    (* [p] recurs after [S i] hops, so the walk reaches [d] again before [S n]. *)
    assert (Hp : hops (S i) p = Some p) by (simpl; by rewrite E).
    assert (Hshort : hops (S n - S i) p = Some d).
    { rewrite <- Hn'. rewrite <- (hops_add (S i) (S n - S i) p p Hp). f_equal. lia. }
    pose proof (hops_add (S n - S i) (S i) p d Hshort) as Hx.
    replace (S n - S i + S i)%nat with (S n) in Hx by lia. rewrite Hn' in Hx.
    simpl in Hx. by rewrite Hd in Hx.
Qed.

Lemma walk_prefix m n p : (m <= n)%nat -> walk m p `prefix_of` walk n p.
Proof.
  revert n p. induction m as [|m IH]; intros n p Hle; [apply prefix_nil|].
  destruct n as [|n]; [lia|]. simpl. apply prefix_cons.
  destruct (hop p); [|done]. apply IH. lia.
Qed.

Lemma NoDup_walk_prefix m n p : (m <= n)%nat -> NoDup (walk n p) -> NoDup (walk m p).
Proof.
  intros Hle. destruct (walk_prefix m n p Hle) as (k & ->). by intros [? _]%NoDup_app.
Qed.

(** After [n] hops along paths not seen before, the loop is in round [n]. *)
Lemma resolve_loop_run n start q :
  (n <= 32)%nat -> hops n start = Some q -> NoDup (walk n start) ->
  resolve_loop 33 ∅ [] start 0 =
  resolve_loop (33 - n) (list_to_set (walk n start)) (walk n start) q n.
Proof.
  revert q. induction n as [|n IH]; intros q Hle Hq Hnd; [by injection Hq as ->|].
  destruct (hops_prefix n (S n) start) as [r Hr]; [lia|by rewrite Hq|].
  rewrite (IH r); [|lia|done|by eapply NoDup_walk_prefix; [|done]; lia].
  rewrite hops_snoc, Hr in Hq. replace (33 - n)%nat with (S (33 - S n)) by lia.
  rewrite (walk_snoc n start r Hr) in *. cbn [resolve_loop].
  apply NoDup_app in Hnd as (_ & Hnd & _).
  rewrite decide_False; [|rewrite elem_of_list_to_set; intros Hin; apply (Hnd _ Hin); apply list_elem_of_singleton; done].
  rewrite decide_False by (unfold MAX_SYMLINK_DEPTH; lia).
  unfold hop in Hq. destruct (get_symlink r) as [[rec|]| |]; try done. injection Hq as <-.
  f_equal. rewrite list_to_set_app_L. cbn [list_to_set]. rewrite union_empty_r_L. apply union_comm_L.
Qed.

Lemma resolve_loop_total fuel : forall visited chain p depth,
  (33 <= fuel + depth)%nat -> (depth <= 32)%nat ->
  exists r, resolve_loop fuel visited chain p depth = Some r.
Proof.
  induction fuel as [|fuel IH]; intros visited chain p depth Hf Hd; [lia|].
  cbn [resolve_loop]. case_decide; [eauto|]. unfold MAX_SYMLINK_DEPTH.
  case_decide; [eauto|]. destruct (get_symlink p) as [[rec|]| |]; eauto.
  apply IH; lia.
Qed.

(** C29. [resolve_symlink] terminates whatever links are stored, and its answer is
    the one following the links gives: a path that is not a link within 31
    hops is classified as file, directory or dangling; a walk that returns to
    a visited path within 32 hops is reported as a cycle, with the walk itself
    as its chain; 32 hops over distinct paths exceed the depth. *)
Theorem resolve_symlink_spec path :
  (exists r, resolve_symlink path = Some r) /\
  (forall n d, (n <= 31)%nat -> hops n (normalize_path path) = Some d -> hop d = None ->
     resolve_symlink path = Some (leaf_result d)) /\
  (forall n d, (n <= 32)%nat -> hops n (normalize_path path) = Some d ->
     NoDup (walk n (normalize_path path)) -> d ∈ walk n (normalize_path path) ->
     resolve_symlink path = Some (Err (CyclicSymlink (walk n (normalize_path path) ++ [d])))) /\
  (forall d, hops 32 (normalize_path path) = Some d -> NoDup (walk 33 (normalize_path path)) ->
     resolve_symlink path =
       Some (Err (SymlinkDepthExceeded "Exceeded maximum symlink depth of {} following '{}'"))).
Proof.
  unfold resolve_symlink. set (start := normalize_path path).
  split; [apply resolve_loop_total; lia|]. split; [|split].
  - intros n d Hle Hn Hd. pose proof (walk_no_repeat n start d Hn Hd) as Hnd.
    rewrite (walk_snoc n start d Hn) in Hnd. apply NoDup_app in Hnd as (Hnd1 & Hnd2 & _).
    rewrite (resolve_loop_run n start d) by (done || lia).
    replace (33 - n)%nat with (S (32 - n)) by lia. cbn [resolve_loop].
    rewrite decide_False; [|rewrite elem_of_list_to_set; intros Hin; apply (Hnd2 _ Hin); apply list_elem_of_singleton; done].
    rewrite decide_False by (unfold MAX_SYMLINK_DEPTH; lia).
    unfold leaf_result. unfold hop in Hd. by destruct (get_symlink d) as [[rec|]| |].
  - intros n d Hle Hn Hnd Hin. rewrite (resolve_loop_run n start d) by done.
    replace (33 - n)%nat with (S (32 - n)) by lia. cbn [resolve_loop].
    by rewrite decide_True by (by apply elem_of_list_to_set).
  - intros d Hd Hnd. rewrite (walk_snoc 32 start d Hd) in Hnd.
    apply NoDup_app in Hnd as (Hnd1 & Hnd2 & _).
    rewrite (resolve_loop_run 32 start d) by (done || lia).
    change (33 - 32)%nat with 1%nat. cbn [resolve_loop].
    rewrite decide_False; [|rewrite elem_of_list_to_set; intros Hin; apply (Hnd2 _ Hin); apply list_elem_of_singleton; done].
    by rewrite decide_True by (unfold MAX_SYMLINK_DEPTH; lia).
Qed.
End Resolver.

(** ** Witnesses *)

(** A store with the link [/l] to [/d], the directory [/d], and the two-link
    cycle between [/a] and [/b]. *)
Definition sample_dirs : DirectoryReads :=
  {| get_symlink := fun p =>
       Ok (if decide (p = lit "/l") then Some (SymlinkRecord_new 0 p (lit "/d"))
           else if decide (p = lit "/a") then Some (SymlinkRecord_new 0 p (lit "/b"))
           else if decide (p = lit "/b") then Some (SymlinkRecord_new 0 p (lit "/x/../a"))
           else None);
     get_metadata := fun _ => Ok None;
     list_directory := fun p => if decide (p = lit "/d") then Ok [] else Err (NotFound "directory") |}.

Lemma resolve_symlink_spec_witness :
  @resolve_symlink sample_dirs (lit "/l/") = Some (Ok (Directory (lit "/d"))) /\
  @resolve_symlink sample_dirs (lit "/a") =
    Some (Err (CyclicSymlink [lit "/a"; lit "/b"; lit "/a"])).
Proof.
  destruct (@resolve_symlink_spec sample_dirs (lit "/l/")) as (_ & H1 & _).
  destruct (@resolve_symlink_spec sample_dirs (lit "/a")) as (_ & _ & H2 & _).
  split.
  - rewrite (H1 1%nat (lit "/d") ltac:(lia) ltac:(vm_compute; reflexivity) ltac:(vm_compute; reflexivity)).
    vm_compute. reflexivity.
  - rewrite (H2 2%nat (lit "/a") ltac:(lia) ltac:(vm_compute; reflexivity)).
    + vm_compute. reflexivity.
    + apply (bool_decide_unpack _). vm_compute. exact I.
    + apply (bool_decide_unpack _). vm_compute. exact I.
Defined.
