(* ===== verification/Permissions.v ===== *)
(** Access control on paths (engine/permissions.rs, permission_resolver.rs and
    grants_index.rs): crudlify flag strings, the walk from the root to the
    target that lets each level allow or deny an operation, and the index of
    grants that keeps the ancestors of a grant navigable.

    The group cache, the permissions cache and the grants-index cache are read
    through the interface class [PermissionStore].  JSON decoding of a
    permissions file is a parameter of the grants-index loader. *)
From S2P Require Import Prelude Paths.

Local Open Scope Z_scope.

(** ** permissions.rs *)

(** [s.chars()]: a character starts at every byte that is not a continuation
    byte. *)
Fixpoint chars (l : bytes) : list bytes :=
  match l with
  | [] => []
  | b :: r =>
    match r with
    | [] => [[b]]
    | c :: _ =>
      if cont c
      then match chars r with s :: ss => (b :: s) :: ss | [] => [[b]] end
      else [b] :: chars r
    end
  end.

Definition CRUDLIFY_LETTERS : bytes := lit "crudlify".

Record PermissionLink := {
  group : bytes;
  allow : bytes;
  deny : bytes;
  others_allow : option bytes;
  others_deny : option bytes;
  path_pattern : option bytes;
}.

Record PathPermissions := { links : list PermissionLink }.

(** [[Option<bool>; 8]]. *)
Abbreviation Flags := (list (option bool)).

Definition no_flags : Flags := replicate 8 None.

Definition parse_crudlify_flags (flags : bytes) : Flags :=
  imap (fun index expected_letter =>
          if decide (chars flags !! index = Some [expected_letter]) then Some true else None)
       CRUDLIFY_LETTERS.

Definition merge_flags (target source : Flags) : Flags :=
  imap (fun index t => if decide (source !! index = Some (Some true)) then Some true else t) target.

(** ** permission_resolver.rs *)

Inductive CrudlifyOp := Create | Read | Update | Delete | List | Invoke | Configure | Deploy.

(** [operation as usize]. *)
Definition op_index (op : CrudlifyOp) : nat :=
  match op with
  | Create => 0 | Read => 1 | Update => 2 | Delete => 3
  | List => 4 | Invoke => 5 | Configure => 6 | Deploy => 7
  end.

(** The loop of [path_levels] over the directory segments. *)
Fixpoint levels_from (current : bytes) (segments : list bytes) : list bytes :=
  match segments with
  | [] => []
  | segment :: rest =>
    let current := current ++ slash :: segment in
    current :: levels_from current rest
  end.

Definition path_levels (path : bytes) : list bytes :=
  let trimmed := trim_matches_slash path in
  if decide (trimmed = []) then [lit "/"]
  else
    let segments := split_slash trimmed in
    let directory_segment_count :=
      if ends_with_slash path then length segments else (length segments - 1)%nat in
    lit "/" :: levels_from [] (take directory_segment_count segments).

Definition with_leading_slash (path : bytes) : bytes :=
  if starts_with_slash path then path else slash :: path.

(** The guard on a link's [path_pattern]. *)
Definition link_applies (level path : bytes) (link : PermissionLink) : bool :=
  match path_pattern link with
  | None => true
  | Some pattern =>
    let trimmed := trim_end_slashes path in
    let target_parent :=
      match rsplit_slash trimmed with
      | Some ([], _) => lit "/"
      | Some (before, _) => before
      | None => lit "/"
      end in
    let filename := match rsplit_slash trimmed with Some (_, name) => name | None => trimmed end in
    bool_decide (trim_end_slashes level = trim_end_slashes target_parent) &&
    bool_decide (filename = pattern)
  end.

(** One link's contribution to the level's allow and deny flags. *)
Definition merge_link (user_groups : list bytes) (level path : bytes)
    (acc : Flags * Flags) (link : PermissionLink) : Flags * Flags :=
  let '(level_allow, level_deny) := acc in
  if negb (link_applies level path link) then acc
  else if bool_decide (group link ∈ user_groups)
  then (merge_flags level_allow (parse_crudlify_flags (allow link)),
        merge_flags level_deny (parse_crudlify_flags (deny link)))
  else
    (match others_allow link with
     | Some fl => merge_flags level_allow (parse_crudlify_flags fl)
     | None => level_allow
     end,
     match others_deny link with
     | Some fl => merge_flags level_deny (parse_crudlify_flags fl)
     | None => level_deny
     end).

(** Allow adds, deny removes; deny is applied last. *)
Definition apply_level (level_flags : Flags * Flags) (state : list bool) : list bool :=
  let '(level_allow, level_deny) := level_flags in
  imap (fun index s =>
          let s := if decide (level_allow !! index = Some (Some true)) then true else s in
          if decide (level_deny !! index = Some (Some true)) then false else s) state.

Abbreviation Uuid := bytes.
Definition ROOT_USER_ID : Uuid := replicate 16 Byte.x00.
Definition is_root (user_id : Uuid) : bool := bool_decide (user_id = ROOT_USER_ID).

(** ** grants_index.rs *)

Record GrantRecord := {
  dir_path : bytes;
  gr_allow : bytes;
  gr_deny : bytes;
  gr_others_allow : option bytes;
  gr_others_deny : option bytes;
  gr_path_pattern : option bytes;
}.

Definition target_path (r : GrantRecord) : bytes :=
  match gr_path_pattern r with
  | Some name =>
    if decide (dir_path r = lit "/") then slash :: name else dir_path r ++ slash :: name
  | None => dir_path r
  end.

Abbreviation GrantsIndex := (gmap bytes (list GrantRecord)).

Definition normalize_for_compare (path : bytes) : bytes :=
  if 1 <? zlen path then trim_end_slashes path else path.

Definition path_is_ancestor_or_equal (ancestor target : bytes) : bool :=
  let ancestor := normalize_for_compare ancestor in
  let target := normalize_for_compare target in
  if decide (ancestor = target) then true
  else if decide (ancestor = lit "/") then starts_with_slash target
  else match strip_prefix ancestor target with
       | Some rest => starts_with_slash rest
       | None => false
       end.

Definition path_is_strict_ancestor (ancestor target : bytes) : bool :=
  let a := normalize_for_compare ancestor in
  let t := normalize_for_compare target in
  if decide (a = t) then false else path_is_ancestor_or_equal a t.

Definition user_has_descendant_grants (by_group : GrantsIndex) (user_groups : list bytes) (path : bytes) : bool :=
  existsb (fun g => match by_group !! g with
                    | Some records => existsb (fun r => path_is_strict_ancestor path (target_path r)) records
                    | None => false
                    end) user_groups.

Definition next_segment_below (parent_path target : bytes) : option bytes :=
  let parent_path := normalize_for_compare parent_path in
  let stripped :=
    if decide (parent_path = lit "/") then strip_prefix [slash] target
    else match strip_prefix parent_path target with
         | Some after => strip_prefix [slash] after
         | None => None
         end in
  match stripped with
  | Some [] => None
  | Some s => head (split_slash s)
  | None => None
  end.

(** The returned vector is the elements of a [HashSet], in no fixed order. *)
Definition accessible_child_names (by_group : GrantsIndex) (user_groups : list bytes) (parent_path : bytes) : gset bytes :=
  list_to_set
    (g ← user_groups;
     match by_group !! g with
     | Some records => omap (fun r => next_segment_below parent_path (target_path r)) records
     | None => []
     end).

Definition permissions_suffix : bytes := lit "/.aeordb-permissions".

(** The directory of a permissions file. *)
Definition dir_of_permissions_file (path : bytes) : option bytes :=
  match strip_prefix (rev permissions_suffix) (rev path) with
  | Some stripped => Some (if decide (stripped = []) then lit "/" else rev stripped)
  | None => None
  end.

Definition grant_of_link (dir : bytes) (link : PermissionLink) : GrantRecord :=
  {| dir_path := dir; gr_allow := allow link; gr_deny := deny link;
     gr_others_allow := others_allow link; gr_others_deny := others_deny link;
     gr_path_pattern := path_pattern link |}.

(** [by_group.entry(group).or_default().push(record)]. *)
Definition push_grant (dir : bytes) (by_group : GrantsIndex) (link : PermissionLink) : GrantsIndex :=
  <[group link := default [] (by_group !! group link) ++ [grant_of_link dir link]]> by_group.

Section Loader.
Variable read_file_buffered : bytes -> res bytes.
Variable PathPermissions_deserialize : bytes -> res PathPermissions.

Definition load_file (by_group : GrantsIndex) (path : bytes) : res GrantsIndex :=
  match read_file_buffered path with
  | Ok data =>
    match PathPermissions_deserialize data with
    | Ok perms =>
      match dir_of_permissions_file path with
      | Some dir => Ok (fold_left (push_grant dir) (links perms) by_group)
      | None => Ok by_group
      end
    | Err _ => Ok by_group
    | Panic => Panic
    end
  | Err _ => Ok by_group
  | Panic => Panic
  end.

Fixpoint load_files (by_group : GrantsIndex) (paths : list bytes) : res GrantsIndex :=
  match paths with
  | [] => Ok by_group
  | path :: rest => by_group ← load_file by_group path; load_files by_group rest
  end.

(** [GrantsIndexLoader::load] on the result of the recursive listing. *)
Definition GrantsIndex_load (perm_files : res (list bytes)) : res GrantsIndex :=
  match perm_files with
  | Ok paths => load_files ∅ paths
  | Err _ => Ok ∅
  | Panic => Panic
  end.
End Loader.

(** ** The resolver *)

(** The three caches the resolver reads. *)
Class PermissionStore := {
  group_cache_get : Uuid -> res (list bytes);
  permissions_cache_get : bytes -> res (option PathPermissions);
  grants_index_get : res GrantsIndex
}.

Section PermissionResolver.
Context `{PermissionStore}.

Fixpoint walk_levels (user_groups : list bytes) (path : bytes) (levels : list bytes)
    (state : list bool) : res (list bool) :=
  match levels with
  | [] => Ok state
  | level :: rest =>
    permissions ← permissions_cache_get level;
    match permissions with
    | None => walk_levels user_groups path rest state
    | Some permissions =>
      let flags := fold_left (merge_link user_groups level path) (links permissions) (no_flags, no_flags) in
      walk_levels user_groups path rest (apply_level flags state)
    end
  end.

Definition check_direct_permission (user_id : Uuid) (path : bytes) (operation : CrudlifyOp) : res bool :=
  if is_root user_id then Ok true
  else
    let path := with_leading_slash path in
    user_groups ← group_cache_get user_id;
    state ← walk_levels user_groups path (path_levels path) (replicate 8 false);
    Ok (nth (op_index operation) state false).

Definition has_descendant_grants (user_id : Uuid) (path : bytes) : res bool :=
  if is_root user_id then Ok true
  else
    let normalized := with_leading_slash path in
    user_groups ← group_cache_get user_id;
    if decide (user_groups = []) then Ok false
    else
      by_group ← grants_index_get;
      Ok (user_has_descendant_grants by_group user_groups normalized).

Definition check_permission (user_id : Uuid) (path : bytes) (operation : CrudlifyOp) : res bool :=
  if is_root user_id then Ok true
  else
    direct ← check_direct_permission user_id path operation;
    if (direct : bool) then Ok true
    else match operation with
         | Read | List =>
           descendant ← has_descendant_grants user_id path;
           if (descendant : bool) then Ok true else Ok false
         | _ => Ok false
         end.

Definition check_path_permission (user_id : Uuid) (path : bytes) (operation : CrudlifyOp) : res bool :=
  direct ← check_direct_permission user_id path operation;
  if (direct : bool) then Ok true
  else if ends_with_slash path then Ok false
  else check_direct_permission user_id (path ++ [slash]) operation.

Definition resolver_accessible_child_names (user_id : Uuid) (parent_path : bytes) : res (gset bytes) :=
  if is_root user_id then Ok ∅
  else
    let normalized := with_leading_slash parent_path in
    user_groups ← group_cache_get user_id;
    if decide (user_groups = []) then Ok ∅
    else
      by_group ← grants_index_get;
      Ok (accessible_child_names by_group user_groups normalized).
End PermissionResolver.

(** ** Specification of the walk *)

(** [flags] has the operation's letter at the operation's position. *)
Definition flag_set (op : CrudlifyOp) (flags : bytes) : Prop :=
  exists letter, CRUDLIFY_LETTERS !! op_index op = Some letter /\
                 chars flags !! op_index op = Some [letter].

(** The strings of a link that count for a user in [user_groups]. *)
Definition effective_allow (user_groups : list bytes) (link : PermissionLink) : option bytes :=
  if decide (group link ∈ user_groups) then Some (allow link) else others_allow link.

Definition effective_deny (user_groups : list bytes) (link : PermissionLink) : option bytes :=
  if decide (group link ∈ user_groups) then Some (deny link) else others_deny link.

Section Spec.
Context `{PermissionStore}.
Variables (user_groups : list bytes) (path : bytes) (op : CrudlifyOp).

(** Some link that applies at [level] gives the operation in the string [pick]
    selects. *)
Definition level_has (pick : PermissionLink -> option bytes) (level : bytes) : Prop :=
  exists permissions link flags,
    permissions_cache_get level = Ok (Some permissions) /\ link ∈ links permissions /\
    link_applies level path link = true /\ pick link = Some flags /\ flag_set op flags.

Definition level_allows : bytes -> Prop := level_has (effective_allow user_groups).
Definition level_denies : bytes -> Prop := level_has (effective_deny user_groups).

(** The operation is granted by the walk over [levels]: some level allows it,
    and neither that level nor a later one denies it. *)
Definition granted (levels : list bytes) : Prop :=
  exists before level after,
    levels = before ++ level :: after /\ level_allows level /\
    Forall (fun l => ~ level_denies l) (level :: after).

Lemma parse_flags_set flags :
  parse_crudlify_flags flags !! op_index op = Some (Some true) <-> flag_set op flags.
Proof.
  unfold parse_crudlify_flags, flag_set. rewrite list_lookup_imap.
  destruct (CRUDLIFY_LETTERS !! op_index op) as [c|] eqn:E; simpl.
  - case_decide; naive_solver.
  - naive_solver.
Qed.

Lemma length_merge_flags t s : length (merge_flags t s) = length t.
Proof. apply length_imap. Qed.

Lemma merge_flags_set t s : length t = 8%nat ->
  merge_flags t s !! op_index op = Some (Some true) <->
  t !! op_index op = Some (Some true) \/ s !! op_index op = Some (Some true).
Proof.
  intros Hl. unfold merge_flags. rewrite list_lookup_imap.
  destruct (lookup_lt_is_Some_2 t (op_index op)) as [x Hx]; [rewrite Hl; destruct op; simpl; lia|].
  rewrite Hx. simpl. case_decide; naive_solver.
Qed.

Definition link_has (pick : PermissionLink -> option bytes) (level : bytes) (link : PermissionLink) : Prop :=
  link_applies level path link = true /\ exists flags, pick link = Some flags /\ flag_set op flags.

Lemma merge_link_set level acc link : length acc.1 = 8%nat -> length acc.2 = 8%nat ->
  let acc' := merge_link user_groups level path acc link in
  length acc'.1 = 8%nat /\ length acc'.2 = 8%nat /\
  (acc'.1 !! op_index op = Some (Some true) <->
     acc.1 !! op_index op = Some (Some true) \/ link_has (effective_allow user_groups) level link) /\
  (acc'.2 !! op_index op = Some (Some true) <->
     acc.2 !! op_index op = Some (Some true) \/ link_has (effective_deny user_groups) level link).
Proof.
  destruct acc as [a d]. unfold merge_link, link_has, effective_allow, effective_deny. simpl. intros Ha Hd.
  destruct (link_applies level path link) eqn:El; simpl; [|naive_solver].
  case_bool_decide as Hg; simpl.
  - rewrite !(decide_True (P := group link ∈ user_groups)) by done.
    rewrite !length_merge_flags, !merge_flags_set, !parse_flags_set by done. naive_solver.
  - rewrite !(decide_False (P := group link ∈ user_groups)) by done.
    destruct (others_allow link), (others_deny link);
      rewrite ?length_merge_flags, ?merge_flags_set, ?parse_flags_set by done; naive_solver.
Qed.

Lemma fold_links_set level ls : forall acc, length acc.1 = 8%nat -> length acc.2 = 8%nat ->
  let acc' := fold_left (merge_link user_groups level path) ls acc in
  (acc'.1 !! op_index op = Some (Some true) <->
     acc.1 !! op_index op = Some (Some true) \/
     exists link, link ∈ ls /\ link_has (effective_allow user_groups) level link) /\
  (acc'.2 !! op_index op = Some (Some true) <->
     acc.2 !! op_index op = Some (Some true) \/
     exists link, link ∈ ls /\ link_has (effective_deny user_groups) level link).
Proof.
  induction ls as [|link ls IH]; intros acc Ha Hd; cbn [fold_left].
  - split; (split; [by left|]); intros [?|(? & []%elem_of_nil & _)]; done.
  - destruct (merge_link_set level acc link Ha Hd) as (Ha' & Hd' & Ea & Ed).
    destruct (IH _ Ha' Hd') as [IHa IHd]. rewrite IHa, IHd, Ea, Ed.
    setoid_rewrite elem_of_cons. split; naive_solver.
Qed.

Lemma level_has_Some pick level permissions :
  permissions_cache_get level = Ok (Some permissions) ->
  level_has pick level <-> exists link, link ∈ links permissions /\ link_has pick level link.
Proof. intros E. unfold level_has, link_has. rewrite E. naive_solver. Qed.

Lemma no_flags_unset : no_flags !! op_index op <> Some (Some true).
Proof. by destruct op. Qed.

(** One level's effect on the operation's bit. *)
Lemma apply_level_set level permissions state :
  permissions_cache_get level = Ok (Some permissions) -> length state = 8%nat ->
  let flags := fold_left (merge_link user_groups level path) (links permissions) (no_flags, no_flags) in
  length (apply_level flags state) = 8%nat /\
  (nth (op_index op) (apply_level flags state) false = true <->
     ~ level_denies level /\ (level_allows level \/ nth (op_index op) state false = true)).
Proof.
  intros E Hl flags. destruct (fold_links_set level (links permissions) (no_flags, no_flags)) as [Ea Ed]; [done|done|].
  fold flags in Ea, Ed. pose proof no_flags_unset as Hn. cbn [fst snd] in Ea, Ed.
  unfold level_denies, level_allows. rewrite !(level_has_Some _ _ _ E).
  assert (Ea' := Ea). assert (Ed' := Ed). clear Ea Ed.
  destruct flags as [fa fd]. cbn [fst snd] in Ea', Ed'.
  split; [unfold apply_level; by rewrite length_imap|].
  rewrite !nth_lookup. unfold apply_level. rewrite list_lookup_imap.
  destruct (lookup_lt_is_Some_2 state (op_index op)) as [x Hx]; [rewrite Hl; destruct op; simpl; lia|].
  rewrite Hx. simpl. destruct (decide (fd !! op_index op = _)) as [Hd|Hd].
  - split; [done|]. intros [Hd' _]. exfalso. apply Hd'. tauto.
  - destruct (decide (fa !! op_index op = _)) as [Ha|Ha]; intuition.
Qed.

Lemma level_has_None pick level : permissions_cache_get level = Ok None -> ~ level_has pick level.
Proof. intros E (? & ? & ? & E' & _). congruence. Qed.

Lemma granted_cons level levels :
  granted (level :: levels) <->
  granted levels \/ (level_allows level /\ ~ level_denies level /\ Forall (fun l => ~ level_denies l) levels).
Proof.
  unfold granted. split.
  - intros ([|b before] & l & after & E & Ha & Hf); simplify_eq/=.
    + inversion Hf; subst. right. done.
    + left. exists before, l, after. done.
  - intros [(before & l & after & -> & Ha & Hf)|(Ha & Hd & Hf)].
    + exists (level :: before), l, after. done.
    + exists [], level, levels. repeat split; [done|]. by constructor.
Qed.

Lemma walk_levels_spec levels : forall state,
  length state = 8%nat -> (forall l, l ∈ levels -> exists p, permissions_cache_get l = Ok p) ->
  exists state', walk_levels user_groups path levels state = Ok state' /\
    (nth (op_index op) state' false = true <->
       granted levels \/
       (nth (op_index op) state false = true /\ Forall (fun l => ~ level_denies l) levels)).
Proof.
  induction levels as [|level levels IH]; intros state Hl Hok.
  - exists state. split; [done|]. split; [intros; right; split; [done|constructor]|].
    intros [(b & l & a & E & _)|[? _]]; [by destruct b|done].
  - cbn [walk_levels]. destruct (Hok level) as [[permissions|] E]; [apply elem_of_cons; by left| |].
    + destruct (apply_level_set level permissions state E Hl) as [Hl' Hb].
      destruct (IH _ Hl') as (st' & Est & Hst); [intros; apply Hok; apply elem_of_cons; by right|].
      exists st'. rewrite E. cbn [mbind res_bind]. split; [done|].
      rewrite Hst, granted_cons, Forall_cons, Hb. tauto.
    + destruct (IH _ Hl) as (st' & Est & Hst); [intros; apply Hok; apply elem_of_cons; by right|].
      exists st'. rewrite E. cbn [mbind res_bind]. split; [done|].
      rewrite Hst, granted_cons, Forall_cons.
      pose proof (level_has_None (effective_allow user_groups) level E) as Ha.
      pose proof (level_has_None (effective_deny user_groups) level E) as Hd.
      unfold level_allows, level_denies. tauto.
Qed.
End Spec.

(** ** The levels of a path *)

Lemma levels_from_prefixes segs : forall done,
  levels_from (if decide (done = []) then [] else path_of done) segs =
  (fun i => path_of (done ++ take i segs)) <$> seq 1 (length segs).
Proof.
  induction segs as [|s segs IH]; intros done0; [done|].
  cbn [levels_from length seq fmap list_fmap].
  rewrite <- path_of_snoc. f_equal.
  specialize (IH (done0 ++ [s])). rewrite decide_False in IH by (by destruct done0).
  rewrite IH, <- (fmap_S_seq 1), <- list_fmap_compose. apply list_fmap_ext. intros i x _. simpl.
  by rewrite <- app_assoc.
Qed.

Lemma trim_start_slashes_good s l : s <> [] -> slash ∉ s -> trim_start_slashes (s ++ l) = s ++ l.
Proof.
  destruct s as [|b s]; [done|]. intros _ Hs. cbn. rewrite decide_False; [done|].
  intros ->. apply Hs. apply elem_of_cons. by left.
Qed.

Lemma join_cons_head s ss : exists l, join_slash (s :: ss) = s ++ l.
Proof. destruct ss; simpl; [exists []; by rewrite app_nil_r|eauto]. Qed.

Lemma trim_end_slashes_snoc l : trim_end_slashes (l ++ [slash]) = trim_end_slashes l.
Proof. unfold trim_end_slashes. rewrite rev_app_distr. done. Qed.

Lemma trim_end_join segs :
  segs <> [] -> Forall good_segment segs -> trim_end_slashes (join_slash segs) = join_slash segs.
Proof.
  intros Hne Hg. destruct segs as [|s ss _] using rev_ind; [done|].
  apply Forall_app in Hg as [_ (H1 & _ & _ & H4 & _)%Forall_singleton].
  destruct (decide (ss = [])) as [->|Hss].
  - apply (trim_end_slashes_noslash []); done.
  - rewrite join_snoc by done. change (slash :: s) with ([slash] ++ s). rewrite app_assoc.
    by apply trim_end_slashes_noslash.
Qed.

Lemma trim_matches_path_of segs :
  segs <> [] -> Forall good_segment segs ->
  trim_matches_slash (path_of segs) = join_slash segs /\
  trim_matches_slash (path_of segs ++ [slash]) = join_slash segs.
Proof.
  intros Hne Hg. unfold trim_matches_slash, path_of. rewrite decide_False by done.
  destruct segs as [|s ss]; [done|]. pose proof Hg as (Hs & _)%Forall_cons.
  destruct Hs as (H1 & _ & _ & H4 & _). destruct (join_cons_head s ss) as (l & El).
  cbn [app trim_start_slashes]. rewrite !decide_True by done. rewrite El.
  rewrite <- app_assoc.
  rewrite !trim_start_slashes_good by done. rewrite app_assoc, trim_end_slashes_snoc, <- El.
  by rewrite !trim_end_join.
Qed.

Lemma ends_with_slash_noslash l s : s <> [] -> slash ∉ s -> ends_with_slash (l ++ s) = false.
Proof.
  intros H1 H2. unfold ends_with_slash. destruct s as [|b s _] using rev_ind; [done|].
  rewrite app_assoc, last_snoc. apply bool_decide_eq_false. intros ->. apply H2. set_solver.
Qed.

Lemma join_ne segs : segs <> [] -> Forall good_segment segs -> join_slash segs <> [].
Proof.
  destruct segs as [|s ss]; [done|]. intros _ ((H & _) & _)%Forall_cons.
  destruct (join_cons_head s ss) as (l & ->). by destruct s.
Qed.

(** ** Ancestors in the grants index *)

Lemma path_of_no_trailing segs : segs <> [] -> Forall good_segment segs ->
  trim_end_slashes (path_of segs) = path_of segs.
Proof.
  intros Hne Hg. destruct segs as [|x xs _] using rev_ind; [done|].
  apply Forall_app in Hg as [_ (H1 & _ & _ & H4 & _)%Forall_singleton].
  rewrite path_of_snoc. change (slash :: x) with ([slash] ++ x). rewrite app_assoc.
  by apply trim_end_slashes_noslash.
Qed.

Lemma normalize_for_compare_path_of segs :
  Forall good_segment segs -> normalize_for_compare (path_of segs) = path_of segs.
Proof.
  intros Hg. unfold normalize_for_compare. destruct (decide (segs = [])) as [->|Hne]; [done|].
  case_match; [|done]. by apply path_of_no_trailing.
Qed.

Lemma path_of_inj s1 s2 : Forall good_segment s1 -> Forall good_segment s2 ->
  path_of s1 = path_of s2 -> s1 = s2.
Proof.
  intros H1 H2 E. rewrite <- (fold_push_path_of s1 H1), <- (fold_push_path_of s2 H2). by rewrite E.
Qed.

Lemma path_of_app a t : a <> [] -> t <> [] -> path_of (a ++ t) = path_of a ++ path_of t.
Proof.
  intros Ha Ht. induction t as [|x t IH] using rev_ind; [done|].
  rewrite app_assoc, path_of_snoc, decide_False by (by destruct a).
  rewrite path_of_snoc. destruct (decide (t = [])) as [->|Hne]; [by rewrite app_nil_r|].
  rewrite IH by done. by rewrite <- app_assoc.
Qed.

Lemma strict_ancestor_app a t :
  t <> [] -> Forall good_segment (a ++ t) -> path_is_strict_ancestor (path_of a) (path_of (a ++ t)) = true.
Proof.
  intros Hne Hg. pose proof Hg as [Hga Hgt]%Forall_app. unfold path_is_strict_ancestor, path_is_ancestor_or_equal.
  rewrite !normalize_for_compare_path_of by done.
  rewrite !(decide_False (P := path_of a = path_of (a ++ t))).
  2-3: intros E; apply path_of_inj in E; [|done|done]; apply (f_equal length) in E;
       rewrite length_app in E; destruct t; simpl in E; [done|lia].
  destruct (decide (a = [])) as [->|Ha].
  - rewrite decide_True by done. unfold path_of. rewrite decide_False by done. done.
  - rewrite decide_False.
    + rewrite path_of_app by done.
      rewrite (proj2 (strip_prefix_app (path_of a) _ (path_of t)) eq_refl).
      unfold path_of. by rewrite decide_False.
    + unfold path_of. rewrite decide_False by done. change (lit "/") with [slash].
      intros [= E]. by apply (join_ne a).
Qed.

(** Loading only adds records. *)
Definition has_grant (by_group : GrantsIndex) (g : bytes) (r : GrantRecord) : Prop :=
  exists records, by_group !! g = Some records /\ r ∈ records.

Lemma push_grant_keeps dir by_group link g r :
  has_grant by_group g r \/ (g = group link /\ r = grant_of_link dir link) ->
  has_grant (push_grant dir by_group link) g r.
Proof.
  unfold has_grant, push_grant. intros [(rs & E & Hr)|[-> ->]].
  - destruct (decide (group link = g)) as [<-|Hne].
    + rewrite lookup_insert_eq, E. simpl. eexists. split; [done|]. set_solver.
    + rewrite lookup_insert_ne by done. eauto.
  - rewrite lookup_insert_eq. eexists. split; [done|]. set_solver.
Qed.

Lemma push_grants_keeps dir ls : forall by_group g r,
  has_grant by_group g r \/ (exists link, link ∈ ls /\ g = group link /\ r = grant_of_link dir link) ->
  has_grant (fold_left (push_grant dir) ls by_group) g r.
Proof.
  induction ls as [|l ls IH]; cbn [fold_left]; intros by_group g r Hx.
  - destruct Hx as [?|(? & []%elem_of_nil & _)]. done.
  - apply IH. destruct Hx as [Hx|(link & [->|Hl]%elem_of_cons & E1 & E2)].
    + left. apply push_grant_keeps. by left.
    + left. apply push_grant_keeps. by right.
    + right. exists link. done.
Qed.

Lemma load_files_keeps rf ds paths : forall by_group index g r,
  load_files rf ds by_group paths = Ok index -> has_grant by_group g r -> has_grant index g r.
Proof.
  induction paths as [|p paths IH]; cbn [load_files]; intros by_group index g r E Hg.
  - apply Ok_inj in E. by subst.
  - apply bind_Ok in E as (b & E1 & E2). apply (IH b index); [done|]. unfold load_file in E1.
    repeat case_match; try done; apply Ok_inj in E1; subst; try done.
    apply push_grants_keeps. by left.
Qed.

Lemma load_files_has rf ds paths path data perms dir link : forall by_group index,
  load_files rf ds by_group paths = Ok index -> path ∈ paths ->
  rf path = Ok data -> ds data = Ok perms -> dir_of_permissions_file path = Some dir ->
  link ∈ links perms -> has_grant index (group link) (grant_of_link dir link).
Proof.
  induction paths as [|p paths IH]; intros by_group index E Hin H1 H2 H3 H4; [by apply elem_of_nil in Hin|].
  cbn [load_files] in E. apply bind_Ok in E as (b & E1 & E2).
  apply elem_of_cons in Hin as [->|Hin]; [|by eapply IH].
  eapply load_files_keeps; [done|]. unfold load_file in E1. rewrite H1, H2, H3 in E1.
  apply Ok_inj in E1. subst. apply push_grants_keeps. right. eauto.
Qed.

Lemma existsb_elem {A} (f : A -> bool) l x : x ∈ l -> f x = true -> existsb f l = true.
Proof. intros Hx Hf. apply existsb_exists. exists x. split; [by apply list_elem_of_In|done]. Qed.

(** ** Theorems *)

(** C28. For a user other than root whose groups and level files can be read,
    [check_direct_permission] answers true exactly when some level on the way
    from the root to the path allows the operation and neither that level nor
    any deeper one denies it: deny wins at its level, a deeper level
    overrides, silence inherits, and the default is refusal.  A read error of
    the group cache is returned as it is. *)
Theorem check_direct_permission_spec `{PermissionStore} user_id path op :
  is_root user_id = false ->
  (forall e, group_cache_get user_id = Err e -> check_direct_permission user_id path op = Err e) /\
  (forall user_groups,
     group_cache_get user_id = Ok user_groups ->
     (forall level, level ∈ path_levels (with_leading_slash path) ->
        exists p, permissions_cache_get level = Ok p) ->
     exists answer, check_direct_permission user_id path op = Ok answer /\
       (answer = true <->
          granted user_groups (with_leading_slash path) op (path_levels (with_leading_slash path)))).
Proof.
  intros Hr. unfold check_direct_permission. rewrite Hr. split; [by intros e ->|].
  intros gs -> Hok. cbn [mbind res_bind].
  destruct (walk_levels_spec gs (with_leading_slash path) op _ (replicate 8 false) eq_refl Hok)
    as (st & -> & Hst).
  eexists. split; [done|]. rewrite Hst. split; [|tauto]. intros [?|[E _]]; [done|].
  by destruct op.
Qed.

(** The levels of a canonical file path are exactly the directories above it,
    from the root down; with a trailing separator the path itself is a
    directory and is included. *)
Theorem path_levels_ancestors segments name :
  Forall good_segment (segments ++ [name]) ->
  path_levels (path_of (segments ++ [name])) =
    (fun i => path_of (take i segments)) <$> seq 0 (S (length segments)) /\
  path_levels (path_of (segments ++ [name]) ++ [slash]) =
    (fun i => path_of (take i (segments ++ [name]))) <$> seq 0 (S (S (length segments))).
Proof.
  intros Hg. assert (Hne : segments ++ [name] <> []) by (by destruct segments).
  pose proof Hg as [_ (H1 & _ & _ & H4 & _)%Forall_singleton]%Forall_app.
  destruct (trim_matches_path_of _ Hne Hg) as [E1 E2].
  pose proof (levels_from_prefixes) as Hlf. unfold path_levels. rewrite E1, E2.
  rewrite !decide_False by (by apply join_ne).
  rewrite split_join by (done || by apply good_no_slash).
  replace (ends_with_slash (path_of (segments ++ [name]))) with false.
  2: { symmetry. rewrite path_of_snoc. change (slash :: name) with ([slash] ++ name).
       rewrite app_assoc. by apply ends_with_slash_noslash. }
  replace (ends_with_slash (path_of (segments ++ [name]) ++ [slash])) with true.
  2: { unfold ends_with_slash. by rewrite last_snoc. }
  rewrite length_app. cbn [length]. replace (length segments + 1 - 1)%nat with (length segments) by lia.
  rewrite take_app_length, take_ge by (rewrite length_app; simpl; lia).
  split; [apply (f_equal (cons (lit "/"))); apply (Hlf segments [])|].
  replace (S (length segments)) with (length (segments ++ [name])) by (rewrite length_app; simpl; lia).
  apply (f_equal (cons (lit "/"))). apply (Hlf (segments ++ [name]) []).
Qed.

(** Ancestor navigation: when the grants index was loaded from permission files
    one of which has a link for one of the user's groups with a target strictly
    below a directory, the user can read and list that directory, provided the
    direct walk itself does not fail.  The link's flags are not looked at: a
    link that only denies opens the ancestors too. *)
Theorem ancestor_navigation `{PermissionStore}
    read_file_buffered PathPermissions_deserialize files index
    user_id user_groups ancestor below file data perms dir link op direct :
  is_root user_id = false ->
  group_cache_get user_id = Ok user_groups ->
  grants_index_get = Ok index ->
  GrantsIndex_load read_file_buffered PathPermissions_deserialize (Ok files) = Ok index ->
  file ∈ files -> read_file_buffered file = Ok data -> PathPermissions_deserialize data = Ok perms ->
  dir_of_permissions_file file = Some dir -> link ∈ links perms -> group link ∈ user_groups ->
  below <> [] -> Forall good_segment (ancestor ++ below) ->
  target_path (grant_of_link dir link) = path_of (ancestor ++ below) ->
  check_direct_permission user_id (path_of ancestor) op = Ok direct ->
  check_permission user_id (path_of ancestor) op =
    Ok (direct || match op with Read | List => true | _ => false end).
Proof.
  intros Hr Hgs Hidx Hload Hf Hrd Hds Hdir Hl Hg Hne Hgood Ht Hd.
  unfold check_permission. rewrite Hr, Hd. cbn [mbind res_bind].
  destruct direct; [done|]. simpl.
  assert (Hn : has_descendant_grants user_id (path_of ancestor) = Ok true); [|by rewrite Hn; destruct op].
  unfold has_descendant_grants. rewrite Hr, Hgs, Hidx. cbn [mbind res_bind].
  rewrite decide_False by (intros ->; by apply elem_of_nil in Hg). f_equal.
  replace (with_leading_slash (path_of ancestor)) with (path_of ancestor)
    by (unfold path_of; by case_decide).
  eapply existsb_elem; [exact Hg|].
  destruct (load_files_has _ _ _ _ _ _ _ _ _ _ Hload Hf Hrd Hds Hdir Hl) as (rs & -> & Hin).
  eapply existsb_elem; [exact Hin|]. rewrite Ht. by apply strict_ancestor_app.
Qed.

(** ** Witnesses *)

(** [staff] may read below [/docs]; one file there is denied to it. *)
Definition staff_link : PermissionLink :=
  {| group := lit "staff"; allow := lit ".r..l..."; deny := lit "........";
     others_allow := None; others_deny := None; path_pattern := None |}.

Definition sealed_link : PermissionLink :=
  {| group := lit "staff"; allow := lit "........"; deny := lit ".r......";
     others_allow := None; others_deny := None; path_pattern := Some (lit "sealed.txt") |}.

Definition docs_permissions : PathPermissions := {| links := [staff_link; sealed_link] |}.

Definition sample_index : GrantsIndex :=
  fold_left (push_grant (lit "/docs")) (links docs_permissions) ∅.

Definition sample_permissions : PermissionStore :=
  {| group_cache_get := fun _ => Ok [lit "staff"];
     permissions_cache_get := fun p => Ok (if decide (p = lit "/docs") then Some docs_permissions else None);
     grants_index_get := Ok sample_index |}.

Definition sample_user : Uuid := replicate 16 Byte.x01.

Lemma check_direct_permission_spec_witness :
  exists answer, @check_direct_permission sample_permissions sample_user (lit "docs/a.txt") Read = Ok answer /\
    (answer = true <->
       @granted sample_permissions [lit "staff"] (with_leading_slash (lit "docs/a.txt")) Read
         (path_levels (with_leading_slash (lit "docs/a.txt")))).
Proof.
  apply (proj2 (@check_direct_permission_spec sample_permissions sample_user (lit "docs/a.txt") Read eq_refl)).
  - reflexivity.
  - intros level _. eexists. reflexivity.
Defined.

Lemma path_levels_ancestors_witness :
  path_levels (lit "/docs/sub/a.txt") = [lit "/"; lit "/docs"; lit "/docs/sub"].
Proof.
  exact (proj1 (path_levels_ancestors [lit "docs"; lit "sub"] (lit "a.txt")
    ltac:(apply (bool_decide_unpack _); vm_compute; exact I))).
Defined.

Lemma docs_file_dir : dir_of_permissions_file (lit "/docs/.aeordb-permissions") = Some (lit "/docs").
Proof. vm_compute. reflexivity. Qed.

Lemma sample_index_loaded :
  GrantsIndex_load (fun _ => Ok []) (fun _ => Ok docs_permissions) (Ok [lit "/docs/.aeordb-permissions"])
    = Ok sample_index.
Proof. unfold GrantsIndex_load, load_files, load_file. rewrite docs_file_dir. reflexivity. Qed.

(** The root is readable because of a grant in [/docs]. *)
Lemma ancestor_navigation_witness :
  @check_permission sample_permissions sample_user (lit "/") Read = Ok (false || true).
Proof.
  apply (@ancestor_navigation sample_permissions (fun _ => Ok []) (fun _ => Ok docs_permissions)
    [lit "/docs/.aeordb-permissions"] sample_index sample_user [lit "staff"] [] [lit "docs"]
    (lit "/docs/.aeordb-permissions") [] docs_permissions (lit "/docs") staff_link Read false).
  - reflexivity.
  - reflexivity.
  - reflexivity.
  - exact sample_index_loaded.
  - by left.
  - reflexivity.
  - reflexivity.
  - exact docs_file_dir.
  - by left.
  - by left.
  - done.
  - apply (bool_decide_unpack _). vm_compute. exact I.
  - reflexivity.
  - vm_compute. reflexivity.
Defined.
