(* ===== verification/ApiKeyRules.v ===== *)
(** Scoped API keys (engine/api_key_rules.rs): an ordered list of glob rules with
    crudlify flag strings.  Glob matching is the [glob_match] crate, a
    parameter.  The theorems: what validation accepts and what a validated
    string permits; that a scoped key sees exactly the directories above its
    targets; and how its flag letters line up with the permission resolver. *)
From S2P Require Import Prelude Paths Permissions.

Local Open Scope Z_scope.

Record KeyRule := { glob : bytes; permitted : bytes }.

Definition FLAGS_LENGTH : Z := 8.
Definition FLAG_CHARS : bytes := lit "crudlify".
Definition dash : byte := Byte.x2d.

(** [serde_json::Value]; an object is its key/value pairs in iteration order. *)
Inductive JsonValue :=
| JNull
| JBool (b : bool)
| JNumber (text : bytes)
| JString (s : bytes)
| JArray (elements : list JsonValue)
| JObject (fields : list (bytes * JsonValue)).

(** [Result<A, String>]: the message is its format template. *)
Abbreviation result A := (string + A)%type.

(** The loop over [flags.chars().enumerate()]; [FLAG_CHARS[position]] is in
    range because eight bytes hold at most eight characters. *)
Fixpoint validate_chars (expected : bytes) (cs : list bytes) : result unit :=
  match cs, expected with
  | [], _ => inr ()
  | character :: cs, letter :: expected =>
    if decide (character <> [letter] /\ character <> [dash])
    then inl "Invalid character '{}' at position {}: expected '{}' or '-'"
    else validate_chars expected cs
  | _ :: _, [] => inl "index out of bounds"
  end.

Definition validate_flags (flags : bytes) : result unit :=
  if negb (zlen flags =? FLAGS_LENGTH) then inl "Flags string must be exactly {} characters, got {}"
  else validate_chars FLAG_CHARS (chars flags).

(** One element of the array in [parse_rules_from_json]. *)
Definition parse_rule (element : JsonValue) : result KeyRule :=
  match element with
  | JObject object =>
    match object with
    | [(glob, flags_value)] =>
      if decide (glob = []) then inl "Rule at index {} has an empty glob pattern"
      else match flags_value with
           | JString flags =>
             match validate_flags flags with
             | inr _ => inr {| glob := glob; permitted := flags |}
             | inl err => inl err
             end
           | _ => inl "Rule at index {}: flags value must be a string"
           end
    | _ => inl "Rule at index {} must have exactly one key (the glob pattern), found {}"
    end
  | _ => inl "Rule at index {} must be a JSON object"
  end.

Fixpoint parse_rules (elements : list JsonValue) : result (list KeyRule) :=
  match elements with
  | [] => inr []
  | element :: rest =>
    match parse_rule element with
    | inl err => inl err
    | inr rule => match parse_rules rest with inl err => inl err | inr rules => inr (rule :: rules) end
    end
  end.

Definition parse_rules_from_json (value : JsonValue) : result (list KeyRule) :=
  match value with
  | JArray array => parse_rules array
  | _ => inl "Rules must be a JSON array"
  end.

Definition MAX_GLOB_PATTERN_LENGTH : Z := 1024.

Fixpoint validate_rules (rules : list KeyRule) : result unit :=
  match rules with
  | [] => inr ()
  | rule :: rest =>
    if decide (glob rule = []) then inl "Rule glob pattern cannot be empty"
    else if MAX_GLOB_PATTERN_LENGTH <? zlen (glob rule) then inl "Glob pattern too long: {} chars (max {})"
    else match validate_flags (permitted rule) with
         | inl err => inl err
         | inr _ => validate_rules rest
         end
  end.

(** [s.trim_end_matches("**")]. *)
Fixpoint trim_start_stars (l : bytes) : bytes :=
  match l with
  | Byte.x2a :: Byte.x2a :: r => trim_start_stars r
  | _ => l
  end.
Definition trim_end_stars (l : bytes) : bytes := rev (trim_start_stars (rev l)).

Definition rule_target (g : bytes) : bytes := trim_end_slashes (trim_end_stars (trim_end_slashes g)).

(** [target.starts_with(p) && (target.len() == p.len() || target[p.len()] == '/')]. *)
Definition at_or_above (p target : bytes) : bool :=
  match strip_prefix p target with
  | Some [] => true
  | Some (b :: _) => bool_decide (b = slash)
  | None => false
  end.

Definition is_ancestor_of_any_rule (rules : list KeyRule) (path : bytes) : bool :=
  let normalized := trim_end_slashes path in
  existsb (fun rule => negb (bool_decide (glob rule = lit "**")) && at_or_above normalized (rule_target (glob rule))) rules.

Section Glob.
Variable glob_match : bytes -> bytes -> bool.

Fixpoint match_rules (rules : list KeyRule) (path : bytes) : option KeyRule :=
  match rules with
  | [] => None
  | rule :: rest => if glob_match (glob rule) path then Some rule else match_rules rest path
  end.

Definition is_item_on_shared_path (rules : list KeyRule) (item_path : bytes) : bool :=
  let normalized_item := trim_end_slashes item_path in
  existsb (fun rule =>
    negb (bool_decide (glob rule = lit "**")) &&
    (glob_match (glob rule) item_path || at_or_above normalized_item (rule_target (glob rule)))) rules.
End Glob.

Definition check_operation_permitted (permitted : bytes) (operation : byte) : bool :=
  let index :=
    match operation with
    | Byte.x63 => Some 0%nat  (* 'c' *)
    | Byte.x72 => Some 1%nat  (* 'r' *)
    | Byte.x75 => Some 2%nat  (* 'u' *)
    | Byte.x64 => Some 3%nat  (* 'd' *)
    | Byte.x6c => Some 4%nat  (* 'l' *)
    | Byte.x69 => Some 5%nat  (* 'i' *)
    | Byte.x66 => Some 6%nat  (* 'f' *)
    | Byte.x79 => Some 7%nat  (* 'y' *)
    | _ => None
    end in
  match index with
  | Some index => match chars permitted !! index with Some ch => negb (bool_decide (ch = [dash])) | None => false end
  | None => false
  end.

Definition operation_to_flag_char (op : CrudlifyOp) : byte :=
  match op with
  | Create => Byte.x63
  | Read => Byte.x72
  | Update => Byte.x75
  | Delete => Byte.x64
  | List => Byte.x6c
  | Invoke => Byte.x69
  | Configure => Byte.x79
  | Deploy => Byte.x66
  end.

(** ** Lemmas *)

Definition flag_ok (letter b : byte) : Prop := b = letter \/ b = dash.

Lemma validate_chars_ok expected : forall cs,
  validate_chars expected cs = inr () <->
  exists e1 e2, expected = e1 ++ e2 /\ Forall2 (fun letter c => c = [letter] \/ c = [dash]) e1 cs.
Proof.
  induction expected as [|x xs IH]; intros [|c cs]; simpl.
  - split; [|done]. intros _. exists [], []. done.
  - split; [done|]. intros ([|] & e2 & E & Hf); [inversion Hf|done].
  - split; [|done]. intros _. exists [], (x :: xs). split; [done|constructor].
  - case_decide as Hc.
    + split; [done|]. intros ([|y e1] & e2 & E & Hf); inversion Hf; simplify_eq/=. naive_solver.
    + rewrite IH. split.
      * intros (e1 & e2 & -> & Hf). exists (x :: e1), e2. split; [done|]. constructor; [|done].
        destruct (decide (c = [x])); [by left|]. destruct (decide (c = [dash])); [by right|naive_solver].
      * intros ([|y e1] & e2 & E & Hf); inversion Hf; simplify_eq/=. eauto.
Qed.

Lemma concat_chars l : concat (chars l) = l.
Proof.
  induction l as [|b r IH]; [done|]. destruct r as [|c r]; [done|].
  change (chars (b :: c :: r)) with
    (if cont c then match chars (c :: r) with s :: ss => (b :: s) :: ss | [] => [[b]] end
     else [b] :: chars (c :: r)).
  destruct (cont c); [|cbn [concat app]; by rewrite IH].
  destruct (chars (c :: r)) as [|s ss]; [done|]. cbn [concat app] in *. by rewrite IH.
Qed.

Lemma chars_ascii l : Forall (fun b => cont b = false) l -> chars l = (fun b => [b]) <$> l.
Proof.
  induction l as [|b r IH]; intros Hf; [done|]. inversion Hf as [|?? Hb Hr]; subst.
  destruct r as [|c r]; [done|]. inversion Hr as [|?? Hc _]; subst.
  change (chars (b :: c :: r)) with
    (if cont c then match chars (c :: r) with s :: ss => (b :: s) :: ss | [] => [[b]] end
     else [b] :: chars (c :: r)).
  rewrite Hc, IH by done. done.
Qed.

Lemma flags_ascii flags : Forall2 flag_ok FLAG_CHARS flags -> chars flags = (fun b => [b]) <$> flags.
Proof.
  intros Hf. apply chars_ascii.
  assert (Hl : Forall (fun b => cont b = false) FLAG_CHARS) by (repeat constructor).
  revert Hl. induction Hf as [|x y xs ys Hxy Hf IH]; intros Hl; [constructor|].
  inversion Hl; subst. constructor; [|by apply IH]. by destruct Hxy as [->| ->].
Qed.

Lemma validate_flags_ok flags :
  validate_flags flags = inr () <-> Forall2 flag_ok FLAG_CHARS flags.
Proof.
  unfold validate_flags. split.
  - case_match eqn:El; [done|]. apply negb_false_iff, Z.eqb_eq in El. unfold FLAGS_LENGTH in El.
    rewrite validate_chars_ok. intros (e1 & e2 & E & Hf).
    assert (Hc : chars flags = (fun b => [b]) <$> concat (chars flags)).
    { clear -Hf. induction Hf as [|x c xs cs [->| ->] Hf IH]; [done| |]; cbn [concat app fmap list_fmap];
        f_equal; done. }
    rewrite concat_chars in Hc. rewrite Hc in Hf. apply Forall2_fmap_r in Hf.
    assert (e2 = []) as ->.
    { apply Forall2_length in Hf. apply (f_equal length) in E. rewrite length_app in E.
      unfold zlen in El. cbn in E. apply length_zero_iff_nil. lia. }
    rewrite app_nil_r in E. subst e1. eapply Forall2_impl; [exact Hf|].
    intros x y [[= ->]|[= ->]]; [by left|by right].
  - intros Hf. rewrite (proj2 (Z.eqb_eq _ _)).
    2: { unfold zlen. rewrite <- (Forall2_length _ _ _ Hf). done. }
    cbn [negb]. apply validate_chars_ok. exists FLAG_CHARS, []. split; [done|].
    rewrite (flags_ascii flags Hf). apply Forall2_fmap_r. eapply Forall2_impl; [exact Hf|].
    intros x y [->| ->]; [by left|by right].
Qed.

(** What a validated string says about the operation at position [i]. *)
Lemma permitted_at flags i letter :
  Forall2 flag_ok FLAG_CHARS flags -> FLAG_CHARS !! i = Some letter ->
  match chars flags !! i with Some ch => negb (bool_decide (ch = [dash])) | None => false end = true <->
  chars flags !! i = Some [letter].
Proof.
  intros Hf Hi. rewrite (flags_ascii flags Hf), list_lookup_fmap.
  destruct (Forall2_lookup_l _ _ _ _ _ Hf Hi) as (b & -> & Hb). simpl.
  rewrite negb_true_iff, bool_decide_eq_false.
  assert (letter <> dash).
  { intros ->. apply list_elem_of_lookup_2 in Hi. revert Hi. vm_compute. set_solver. }
  destruct Hb as [->| ->]; naive_solver.
Qed.

Lemma strip_path_of_prefix segs ts :
  segs <> [] -> Forall good_segment segs -> Forall good_segment ts ->
  (exists r, (path_of ts = path_of segs ++ r) /\ (r = [] \/ head r = Some slash)) <-> segs `prefix_of` ts.
Proof.
  intros Hne Hg Hgt. split.
  - intros (r & E & Hr).
    assert (Hts : ts <> []).
    { intros ->. unfold path_of in E. rewrite (decide_False (P := segs = [])) in E by done.
      change (slash :: [] = slash :: (join_slash segs ++ r)) in E. injection E. intros E'.
      symmetry in E'. apply app_eq_nil in E' as [E' _]. by apply (join_ne segs). }
    destruct Hr as [->|Hr]; [rewrite app_nil_r in E; apply path_of_inj in E; by subst|].
    destruct r as [|b r]; [done|]. simplify_eq/=.
    apply (f_equal split_slash) in E. rewrite (split_path_of ts Hts Hgt) in E.
    assert (Hsp : split_slash (path_of segs ++ slash :: r) = [] :: segs ++ split_slash r).
    { unfold path_of. rewrite decide_False by done. cbn [app].
      change (slash :: join_slash segs ++ slash :: r) with ([] ++ slash :: (join_slash segs ++ slash :: r)).
      rewrite split_slash_app by apply not_elem_of_nil. f_equal.
      clear -Hg Hne. induction segs as [|s [|s2 ss] IH]; [done| |].
      - apply split_slash_app. by apply Forall_singleton in Hg as (_ & _ & _ & ? & _).
      - apply Forall_cons in Hg as [(_ & _ & _ & ? & _) Hg].
        change (join_slash (s :: s2 :: ss)) with (s ++ slash :: join_slash (s2 :: ss)).
        rewrite <- app_assoc. cbn [app]. rewrite split_slash_app by done. by rewrite IH. }
    rewrite Hsp in E. injection E as ->. by exists (split_slash r).
  - intros (t & ->). destruct (decide (t = [])) as [->|Ht].
    + exists []. rewrite !app_nil_r. split; [done|by left].
    + exists (path_of t). rewrite path_of_app by done. split; [done|]. right.
      unfold path_of. by rewrite decide_False.
Qed.

Lemma at_or_above_true p t :
  at_or_above p t = true <-> exists r, t = p ++ r /\ (r = [] \/ head r = Some slash).
Proof.
  unfold at_or_above. destruct (strip_prefix p t) as [r|] eqn:E.
  - apply strip_prefix_app in E. subst. destruct r as [|b r].
    + split; [|done]. intros _. exists []. split; [done|by left].
    + rewrite bool_decide_eq_true. split.
      * intros ->. eexists. split; [done|]. by right.
      * intros (r' & Er & Hr). apply app_inv_head in Er. subst. destruct Hr; [done|]. by simplify_eq/=.
  - split; [done|]. intros (r & -> & _).
    rewrite (proj2 (strip_prefix_app p _ r) eq_refl) in E. done.
Qed.

(** The operation the key check really asks about: [Configure] and [Deploy]
    are exchanged. *)
Definition key_op (op : CrudlifyOp) : CrudlifyOp :=
  match op with Configure => Deploy | Deploy => Configure | op => op end.

Lemma check_permitted_flag flags op :
  Forall2 flag_ok FLAG_CHARS flags ->
  check_operation_permitted flags (operation_to_flag_char op) = true <-> flag_set (key_op op) flags.
Proof.
  intros Hf. unfold flag_set.
  destruct (lookup_lt_is_Some_2 FLAG_CHARS (op_index (key_op op))) as [letter Hl];
    [destruct op; simpl; lia|].
  change CRUDLIFY_LETTERS with FLAG_CHARS. rewrite Hl.
  assert (E : check_operation_permitted flags (operation_to_flag_char op) =
    match chars flags !! op_index (key_op op) with Some ch => negb (bool_decide (ch = [dash])) | None => false end)
    by (by destruct op).
  rewrite E, (permitted_at flags _ letter Hf Hl). naive_solver.
Qed.

(** ** Theorems *)

(** [validate_rules] accepts exactly the rule lists whose globs are non-empty
    and at most 1024 bytes and whose flag strings have, at each of the eight
    positions, that position's letter or a dash. *)
Theorem validate_rules_spec rules :
  validate_rules rules = inr () <->
  Forall (fun rule => glob rule <> [] /\ zlen (glob rule) <= MAX_GLOB_PATTERN_LENGTH /\
                      Forall2 flag_ok FLAG_CHARS (permitted rule)) rules.
Proof.
  induction rules as [|rule rules IH]; [done|]. cbn [validate_rules].
  rewrite Forall_cons, <- IH, <- validate_flags_ok.
  case_decide; [naive_solver|]. case_match eqn:E; [apply Z.ltb_lt in E; naive_solver lia|].
  apply Z.ltb_ge in E. destruct (validate_flags (permitted rule)) as [|[]]; naive_solver.
Qed.

(** On validated flags the API-key check and the permission resolver read the
    same positions except for two operations: the key check takes [Configure]
    at [Deploy]'s position and [Deploy] at [Configure]'s.  So a key rule whose
    only flag is [f] lets [Deploy] through and refuses [Configure], while a
    permission link with that flag does the opposite. *)
Theorem api_key_flag_positions flags op :
  validate_flags flags = inr () ->
  (check_operation_permitted flags (operation_to_flag_char op) = true <->
   flag_set match op with Configure => Deploy | Deploy => Configure | other => other end flags) /\
  check_operation_permitted (lit "------f-") (operation_to_flag_char Configure) = false /\
  check_operation_permitted (lit "------f-") (operation_to_flag_char Deploy) = true /\
  flag_set Configure (lit "------f-") /\ ~ flag_set Deploy (lit "------f-").
Proof.
  intros Hv. apply validate_flags_ok in Hv. split; [by apply check_permitted_flag|].
  split; [done|]. split; [done|]. split; [by exists Byte.x66|].
  intros (c & E1 & E2). vm_compute in E1, E2. congruence.
Qed.

(** A scoped key can navigate exactly to the directories at or above one of its
    targets: for rules whose targets are canonical paths,
    [is_ancestor_of_any_rule] holds of a directory iff its segments are a
    prefix of some target's segments.  No sibling of a target's ancestor is
    exposed. *)
Theorem is_ancestor_of_any_rule_spec rules (target_of : KeyRule -> list bytes) segments :
  Forall good_segment segments ->
  (forall rule, rule ∈ rules -> glob rule <> lit "**" ->
     Forall good_segment (target_of rule) /\
     rule_target (glob rule) = trim_end_slashes (path_of (target_of rule))) ->
  is_ancestor_of_any_rule rules (path_of segments) = true <->
  exists rule, rule ∈ rules /\ glob rule <> lit "**" /\ segments `prefix_of` target_of rule.
Proof.
  intros Hg Ht. unfold is_ancestor_of_any_rule. rewrite existsb_exists.
  setoid_rewrite <- list_elem_of_In. setoid_rewrite andb_true_iff.
  setoid_rewrite negb_true_iff. setoid_rewrite bool_decide_eq_false. setoid_rewrite at_or_above_true.
  apply (exist_proper (A := KeyRule)). intros rule.
  assert (rule ∈ rules -> glob rule <> lit "**" ->
    (exists r, rule_target (glob rule) = trim_end_slashes (path_of segments) ++ r /\ (r = [] \/ head r = Some slash))
    <-> segments `prefix_of` target_of rule); [|tauto].
  intros Hin Hne. destruct (Ht rule Hin Hne) as [Hgt Et]. rewrite Et.
  destruct (decide (segments = [])) as [->|Hs].
  - split; [intros _; apply prefix_nil|]. intros _. cbn.
    destruct (decide (target_of rule = [])) as [E|E]; [rewrite E; exists []; split; [done|by left]|].
    rewrite path_of_no_trailing by done. eexists. split; [done|]. right.
    unfold path_of. by rewrite decide_False.
  - rewrite (path_of_no_trailing segments) by done.
    destruct (decide (target_of rule = [])) as [E|E].
    + rewrite E. split.
      * intros (r & Er & _). unfold path_of in Er. rewrite (decide_False (P := segments = [])) in Er by done. done.
      * intros Hp%prefix_nil_inv. done.
    + rewrite (path_of_no_trailing (target_of rule)) by done. by apply strip_path_of_prefix.
Qed.

(** ** Witnesses *)

Lemma api_key_flag_positions_witness :
  check_operation_permitted (lit "-r---i-y") (operation_to_flag_char Configure) = true <->
  flag_set Deploy (lit "-r---i-y").
Proof.
  exact (proj1 (api_key_flag_positions (lit "-r---i-y") Configure ltac:(vm_compute; reflexivity))).
Defined.

Definition scoped_rules : list KeyRule :=
  [ {| glob := lit "/projects/alpha/**"; permitted := lit "-r--l---" |};
    {| glob := lit "**"; permitted := lit "--------" |} ].

Lemma is_ancestor_of_any_rule_spec_witness :
  is_ancestor_of_any_rule scoped_rules (path_of [lit "projects"]) = true <->
  exists rule, rule ∈ scoped_rules /\ glob rule <> lit "**" /\
    [lit "projects"] `prefix_of` (fun _ : KeyRule => [lit "projects"; lit "alpha"]) rule.
Proof.
  apply (is_ancestor_of_any_rule_spec scoped_rules (fun _ => [lit "projects"; lit "alpha"]) [lit "projects"]).
  - apply (bool_decide_unpack _). vm_compute. exact I.
  - intros rule [->|[->|[]%elem_of_nil]%elem_of_cons]%elem_of_cons Hne; [|done].
    split; [apply (bool_decide_unpack _); vm_compute; exact I|vm_compute; reflexivity].
Defined.
