(* ===== verification/StorageEngine.v ===== *)
(** The storage engine (src/aeordb-lib/src/engine/storage_engine.rs): the log, the
    index in the same file, and the free-space manager, composed.

    The engine's locks make each operation atomic, so an operation is a function on
    the engine's state.  The writer and the index hold handles of one file: its bytes
    are the writer's [aw_file], an index operation runs on them and hands them back
    ([on_kv]).  The readers' snapshot is the one the index last published.  The clock
    is an argument [now]; tracing, metrics and the caches of decoded permissions, grants and
    indexes are left out; a sync changes no byte and cannot fail. *)
From S2P Require Import Prelude Sorted Codec EntryFormat Records KvEntry KvPages FileIo HotTail FileHeader VoidManager AppendWriter Converters Nvt StateM BTree KvSnapshot DiskKv.

Local Open Scope Z_scope.

Record StorageEngine := MkEngine {
  se_shutting_down : bool;
  se_durability_failure : option string;
  se_last_published_hot_tail_offset : Z;
  se_writer : AppendWriter;
  se_kv : DiskKVStore;
  se_void_manager : VoidManager;
  se_hash_algo : HashAlgorithm;
  se_gc_recheck : option (gset bytes);
  se_dir_content_cache : gmap bytes bytes;
  se_last_auto_snapshot_delete : Z;
  se_last_auto_snapshot_restore : Z;
}.

Definition set_writer (w : AppendWriter) (s : StorageEngine) : StorageEngine :=
  MkEngine (se_shutting_down s) (se_durability_failure s) (se_last_published_hot_tail_offset s) w
    (se_kv s) (se_void_manager s) (se_hash_algo s) (se_gc_recheck s)
    (se_dir_content_cache s) (se_last_auto_snapshot_delete s) (se_last_auto_snapshot_restore s).
Definition set_kv (kv : DiskKVStore) (s : StorageEngine) : StorageEngine :=
  MkEngine (se_shutting_down s) (se_durability_failure s) (se_last_published_hot_tail_offset s) (se_writer s)
    kv (se_void_manager s) (se_hash_algo s) (se_gc_recheck s)
    (se_dir_content_cache s) (se_last_auto_snapshot_delete s) (se_last_auto_snapshot_restore s).
Definition set_void_manager (vm : VoidManager) (s : StorageEngine) : StorageEngine :=
  MkEngine (se_shutting_down s) (se_durability_failure s) (se_last_published_hot_tail_offset s) (se_writer s)
    (se_kv s) vm (se_hash_algo s) (se_gc_recheck s)
    (se_dir_content_cache s) (se_last_auto_snapshot_delete s) (se_last_auto_snapshot_restore s).
Definition set_gc_recheck (g : option (gset bytes)) (s : StorageEngine) : StorageEngine :=
  MkEngine (se_shutting_down s) (se_durability_failure s) (se_last_published_hot_tail_offset s) (se_writer s)
    (se_kv s) (se_void_manager s) (se_hash_algo s) g
    (se_dir_content_cache s) (se_last_auto_snapshot_delete s) (se_last_auto_snapshot_restore s).
Definition set_last_published (offset : Z) (s : StorageEngine) : StorageEngine :=
  MkEngine (se_shutting_down s) (se_durability_failure s) offset (se_writer s)
    (se_kv s) (se_void_manager s) (se_hash_algo s) (se_gc_recheck s)
    (se_dir_content_cache s) (se_last_auto_snapshot_delete s) (se_last_auto_snapshot_restore s).
Definition set_durability_failure (f : option string) (s : StorageEngine) : StorageEngine :=
  MkEngine (se_shutting_down s) f (se_last_published_hot_tail_offset s) (se_writer s)
    (se_kv s) (se_void_manager s) (se_hash_algo s) (se_gc_recheck s)
    (se_dir_content_cache s) (se_last_auto_snapshot_delete s) (se_last_auto_snapshot_restore s).
Definition begin_shutdown (s : StorageEngine) : StorageEngine :=
  MkEngine true (se_durability_failure s) (se_last_published_hot_tail_offset s) (se_writer s)
    (se_kv s) (se_void_manager s) (se_hash_algo s) (se_gc_recheck s)
    (se_dir_content_cache s) (se_last_auto_snapshot_delete s) (se_last_auto_snapshot_restore s).

Definition set_dir_cache (cache : gmap bytes bytes) (s : StorageEngine) : StorageEngine :=
  MkEngine (se_shutting_down s) (se_durability_failure s) (se_last_published_hot_tail_offset s) (se_writer s)
    (se_kv s) (se_void_manager s) (se_hash_algo s) (se_gc_recheck s)
    cache (se_last_auto_snapshot_delete s) (se_last_auto_snapshot_restore s).
Definition set_last_auto_snapshot_delete (t : Z) (s : StorageEngine) : StorageEngine :=
  MkEngine (se_shutting_down s) (se_durability_failure s) (se_last_published_hot_tail_offset s) (se_writer s)
    (se_kv s) (se_void_manager s) (se_hash_algo s) (se_gc_recheck s)
    (se_dir_content_cache s) t (se_last_auto_snapshot_restore s).
Definition set_last_auto_snapshot_restore (t : Z) (s : StorageEngine) : StorageEngine :=
  MkEngine (se_shutting_down s) (se_durability_failure s) (se_last_published_hot_tail_offset s) (se_writer s)
    (se_kv s) (se_void_manager s) (se_hash_algo s) (se_gc_recheck s)
    (se_dir_content_cache s) (se_last_auto_snapshot_delete s) t.

(** The snapshot handle is the index's. *)
Definition se_snapshot (s : StorageEngine) : ReadSnapshot := dk_snapshot (se_kv s).

Abbreviation EntryData := (EntryHeader * bytes * bytes)%type.

Section Engine.
Context `{Crc32, Blake3, ToScalar, HashOrder}.

Abbreviation ME := (M StorageEngine).

(** ** The parts *)

(** A writer operation; an error leaves the writer as it was. *)
Definition on_writer {A} (f : AppendWriter -> res (A * AppendWriter)) : ME A := fun s =>
  match f (se_writer s) with
  | Ok (a, w) => Some (Ok a, set_writer w s)
  | Err e => Some (Err e, s)
  | Panic => Some (Panic, s)
  end.

(** The index with the bytes of the shared file. *)
Definition kv_on_file (s : StorageEngine) : DiskKVStore := dk_set_file (aw_file (se_writer s)) (se_kv s).

Definition on_kv {A} (m : M DiskKVStore A) : ME A := fun s =>
  match m (kv_on_file s) with
  | Some (r, kv) => Some (r, set_writer (with_file (se_writer s) (dk_file kv)) (set_kv kv s))
  | None => None
  end.

Definition with_unit (r : res AppendWriter) : res (unit * AppendWriter) := w ← r; Ok (tt, w).

(** [operation_guard] for an operation that is not nested in another one. *)
Definition operation_guard : ME unit :=
  s ← gets id; if se_shutting_down s then lift (Err ShuttingDown) else mret tt.

(** The same for an operation that only reads. *)
Definition guarded {A} (s : StorageEngine) (r : res A) : res A :=
  if se_shutting_down s then Err ShuttingDown else r.

Definition ensure_writable : ME unit :=
  s ← gets id;
  match se_durability_failure s with
  | Some _ => lift (Err (DurabilityFailure "database is read-only after serious durability failure: {}"))
  | None => mret tt
  end.

(** [record_durability_failure]: the first failure latches the database read-only; the
    emergency spill it attempts goes to other files. *)
Definition record_durability_failure {A} (context : string) : ME A :=
  modify (fun s => set_durability_failure
    (match se_durability_failure s with None => Some context | latched => latched end) s) ;;
  lift (Err (DurabilityFailure context)).

(** [m.map_err(|e| self.record_durability_failure(context, e))]. *)
Definition or_durability_failure {A} (context : string) (m : ME A) : ME A := fun s =>
  match m s with Some (Err _, s') => record_durability_failure context s' | r => r end.

(** The u64 addition is checked. *)
Definition valid_reusable_range (offset sz wal_start wal_end : Z) : bool :=
  if (sz =? 0) || (wal_end <? wal_start) || (offset <? wal_start) then false else
  if u64_max <? offset + sz then false else offset + sz <=? wal_end.

Definition writer_wal_bounds (w : AppendWriter) : Z * Z :=
  let header := aw_file_header w in
  (saturating_add64 (fh_kv_block_offset header) (fh_kv_block_length header), aw_current_offset w).

Definition is_current_reusable_range (s : StorageEngine) (offset sz : Z) : bool :=
  let '(wal_start, wal_end) := writer_wal_bounds (se_writer s) in valid_reusable_range offset sz wal_start wal_end.

Definition validate_kv_entry_offset (w : AppendWriter) (e : KVEntry) : res unit :=
  let '(wal_start, wal_end) := writer_wal_bounds w in
  if valid_reusable_range (kv_offset e) (kv_total_length e) wal_start wal_end then Ok tt
  else Err (CorruptEntry (kv_offset e) "KV entry points outside current WAL region {}..{} for hash {}").

Definition filter_voids_for_bounds (voids : list VoidRecord) (wal_start wal_end : Z) : list VoidRecord :=
  filter (fun void => valid_reusable_range (vr_offset void) (vr_size void) wal_start wal_end = true) voids.

(** One void of [adjust_voids_for_expansion]; the sums are i128. *)
Definition adjust_void (old_kv_end relocated_end offset_delta new_wal_start new_wal_end : Z) (void : VoidRecord)
    : option VoidRecord :=
  if u64_max <? vr_offset void + vr_size void then None else
  let stop := vr_offset void + vr_size void in
  let keep void := if valid_reusable_range (vr_offset void) (vr_size void) new_wal_start new_wal_end then Some void else None in
  if (old_kv_end <=? vr_offset void) && (stop <=? relocated_end) then
    let shifted := vr_offset void + offset_delta in
    if (shifted <? 0) || (u64_max <? shifted) then None
    else keep {| vr_offset := shifted; vr_size := vr_size void |}
  else if vr_offset void <? new_wal_start then None
  else keep void.

Definition adjust_voids_for_expansion (voids : list VoidRecord)
    (old_kv_end relocated_end offset_delta new_wal_start new_wal_end : Z) : list VoidRecord :=
  omap (adjust_void old_kv_end relocated_end offset_delta new_wal_start new_wal_end) voids.

Definition void_records (vm : VoidManager) : list VoidRecord :=
  (fun v => {| vr_offset := v.1; vr_size := v.2 |}) <$> VoidManager_iter vm.

(** ** Creation *)

Definition with_block (h : FileHeader) (kv_block_offset kv_block_length stage hot_tail : Z) : FileHeader :=
  {| fh_header_version := fh_header_version h; fh_hash_algo := fh_hash_algo h;
     fh_sequence := fh_sequence h; fh_created_at := fh_created_at h;
     fh_updated_at := fh_updated_at h; fh_kv_block_offset := kv_block_offset;
     fh_kv_block_length := kv_block_length; fh_kv_block_version := fh_kv_block_version h;
     fh_nvt_offset := fh_nvt_offset h; fh_nvt_length := fh_nvt_length h;
     fh_nvt_version := fh_nvt_version h; fh_head_hash := fh_head_hash h;
     fh_entry_count := fh_entry_count h; fh_resize_in_progress := fh_resize_in_progress h;
     fh_buffer_kvs_offset := fh_buffer_kvs_offset h; fh_buffer_nvt_offset := fh_buffer_nvt_offset h;
     fh_hot_tail_offset := hot_tail; fh_kv_block_stage := z2b stage;
     fh_resize_target_stage := fh_resize_target_stage h; fh_backup_type := fh_backup_type h;
     fh_base_hash := fh_base_hash h; fh_target_hash := fh_target_hash h |}.

Definition new_engine (writer : AppendWriter) (kv_store : DiskKVStore) (void_manager : VoidManager)
    (hot_tail_offset : Z) (hash_algo : HashAlgorithm) : StorageEngine :=
  {| se_shutting_down := false; se_durability_failure := None; se_last_published_hot_tail_offset := hot_tail_offset;
     se_writer := writer; se_kv := kv_store; se_void_manager := void_manager; se_hash_algo := hash_algo;
     se_gc_recheck := None; se_dir_content_cache := ∅; se_last_auto_snapshot_delete := 0;
     se_last_auto_snapshot_restore := 0 |}.

(** [create_with_hot_dir]; the lock file is another file. *)
Definition StorageEngine_create (now : Z) : res StorageEngine :=
  writer ← AppendWriter_create now;
  let hash_algo := fh_hash_algo (aw_file_header writer) in
  let kv_block_offset := HEADER_REGION_SIZE in
  let hash_length := hash_length hash_algo in
  let kv_block_length := initial_block_size in
  let hot_tail_offset := kv_block_offset + kv_block_length in
  kv_store ← DiskKVStore_create (aw_file writer) hash_algo kv_block_offset hot_tail_offset 0;
  let writer := set_offset (with_file writer (dk_file kv_store)) hot_tail_offset in
  let '(file, stop) := write_hot_tail (aw_file writer) hot_tail_offset {| ht_writes := []; ht_voids := [] |} hash_length in
  let writer := with_file writer (file_set_len file stop) in
  writer ← update_header writer (with_block (aw_file_header writer) kv_block_offset kv_block_length 0 hot_tail_offset);
  Ok (new_engine writer kv_store (VoidManager_new hash_algo) hot_tail_offset hash_algo).

(** ** Expansion of the index while the database is open *)

Definition header_layout (h : FileHeader) (in_progress : bool) (block_length stage target hot_tail : Z) : FileHeader :=
  {| fh_header_version := fh_header_version h; fh_hash_algo := fh_hash_algo h;
     fh_sequence := fh_sequence h; fh_created_at := fh_created_at h;
     fh_updated_at := fh_updated_at h; fh_kv_block_offset := fh_kv_block_offset h;
     fh_kv_block_length := block_length; fh_kv_block_version := fh_kv_block_version h;
     fh_nvt_offset := fh_nvt_offset h; fh_nvt_length := fh_nvt_length h;
     fh_nvt_version := fh_nvt_version h; fh_head_hash := fh_head_hash h;
     fh_entry_count := fh_entry_count h; fh_resize_in_progress := in_progress;
     fh_buffer_kvs_offset := fh_buffer_kvs_offset h; fh_buffer_nvt_offset := fh_buffer_nvt_offset h;
     fh_hot_tail_offset := hot_tail; fh_kv_block_stage := z2b stage;
     fh_resize_target_stage := z2b target; fh_backup_type := fh_backup_type h;
     fh_base_hash := fh_base_hash h; fh_target_hash := fh_target_hash h |}.

(** The scan for the first entry header at or after the new end of the block: at most
    [rounds] bytes, up to the hot tail. *)
Fixpoint find_boundary (rounds : nat) (file : bytes) (hot_tail_offset scan_pos : Z) : option Z :=
  match rounds with
  | O => None
  | S rounds =>
    if scan_pos <? hot_tail_offset then
      match file_read file scan_pos 4 with
      | Ok buf => if bool_decide (buf = u32_le ENTRY_MAGIC) then Some scan_pos
                  else find_boundary rounds file hot_tail_offset (scan_pos + 1)
      | _ => None
      end
    else None
  end.

(** [copy_region] with fuel for its rounds. *)
Definition copy_region_m (src dst sz : Z) : ME unit := fun s =>
  match copy_region (se_writer s) src dst sz with
  | Some r => on_writer (fun _ => with_unit r) s
  | None => None
  end.

(** The steps once the growth zone is known. *)
Definition expand_growth_zone (now target_stage new_block_size actual_copy_end : Z) : ME unit :=
  s ← gets id;
  let hl := hash_length (se_hash_algo s) in
  let header := aw_file_header (se_writer s) in
  let old_kv_end := fh_kv_block_offset header + fh_kv_block_length header in
  let new_kv_end := fh_kv_block_offset header + new_block_size in
  let hot_tail_offset := aw_current_offset (se_writer s) in
  let growth_zone_size := actual_copy_end - old_kv_end in
  on_writer (fun w => with_unit (update_file_header w
    (header_layout header true (fh_kv_block_length header) (b2z (fh_kv_block_stage header)) target_stage (fh_hot_tail_offset header)))) ;;
  s ← gets id;
  let hot_payload := match read_hot_tail_payload (se_writer s) hot_tail_offset hl with
    | Ok p => p | _ => {| ht_writes := []; ht_voids := [] |} end in
  let copy_dst := hot_tail_offset in
  let new_hot_tail := hot_tail_offset + growth_zone_size in
  let offset_delta := copy_dst - old_kv_end in
  let adjusted := adjust_voids_for_expansion (void_records (se_void_manager s)) old_kv_end actual_copy_end
    offset_delta new_kv_end new_hot_tail in
  modify (fun s => set_void_manager (replace_all (se_void_manager s)
    ((fun v => (vr_offset v, vr_size v)) <$> adjusted)) s) ;;
  copy_region_m old_kv_end copy_dst growth_zone_size ;;
  on_writer (fun w => Ok (tt, (write_hot_tail_at w new_hot_tail
    {| ht_writes := ht_writes hot_payload; ht_voids := adjusted |} hl).2)) ;;
  (if new_kv_end <? actual_copy_end then
     let tail_size := (actual_copy_end - new_kv_end) mod 2^32 in
     if FIXED_HEADER_SIZE + hl <=? tail_size
     then on_writer (fun w => with_unit (write_void_at now w new_kv_end tail_size))
     else mret tt
   else mret tt) ;;
  modify (fun s => set_writer (set_offset (se_writer s) new_hot_tail) s) ;;
  on_kv (finalize_expansion target_stage old_kv_end actual_copy_end offset_delta new_hot_tail adjusted) ;;
  s ← gets id;
  on_writer (fun w => with_unit (update_file_header w
    (header_layout (aw_file_header w) false new_block_size target_stage 0 new_hot_tail))) ;;
  modify (set_last_published new_hot_tail).

Definition expand_kv_block_online (now target_stage : Z) : ME unit :=
  ensure_writable ;;
  s ← gets id;
  let hl := hash_length (se_hash_algo s) in
  let '(new_block_size, _) := stage_params target_stage (page_size hl) in
  let new_kv_end := fh_kv_block_offset (aw_file_header (se_writer s)) + new_block_size in
  let hot_tail_offset := aw_current_offset (se_writer s) in
  let actual_copy_end :=
    default new_kv_end (find_boundary (Z.to_nat (1024 * 1024)) (aw_file (se_writer s)) hot_tail_offset new_kv_end) in
  expand_growth_zone now target_stage new_block_size actual_copy_end.

(** ** Writing entries *)

Definition can_reuse_void_for_entry (entry_type : EntryType) : bool :=
  match entry_type with Chunk => true | _ => false end.

(** The loop over [find_void]: a void outside the log is discarded, though a remainder
    that is still useful goes back.  Every round takes [needed] bytes at least out of
    the free space, which bounds the rounds. *)
Fixpoint find_reusable_void (fuel : nat) (vm : VoidManager) (needed wal_start wal_end : Z) (changed : bool)
    : option (res (option (Z * Z) * bool * VoidManager)) :=
  match fuel with
  | O => None
  | S fuel =>
    match find_void vm needed with
    | Ok (Some (void_offset, void_size), vm) =>
      if valid_reusable_range void_offset void_size wal_start wal_end
      then Some (Ok (Some (void_offset, void_size), true, vm))
      else find_reusable_void fuel vm needed wal_start wal_end true
    | Ok (None, vm) => Some (Ok (None, changed, vm))
    | Err e => Some (Err e)
    | Panic => Some Panic
    end
  end.

Definition take_void (needed wal_start wal_end : Z) : ME (option (Z * Z) * bool) := fun s =>
  let vm := se_void_manager s in
  match find_reusable_void (S (Z.to_nat (total_void_space vm / Z.max needed 1))) vm needed wal_start wal_end false with
  | Some (Ok (slot, changed, vm)) => Some (Ok (slot, changed), set_void_manager vm s)
  | Some (Err e) => Some (Err e, s)
  | Some Panic => Some (Panic, s)
  | None => None
  end.

Definition record_gc_recheck (hash : bytes) : ME unit :=
  modify (fun s => set_gc_recheck ((fun set => set ∪ {[hash]}) <$> se_gc_recheck s) s).

Definition begin_gc_recheck : ME unit := modify (set_gc_recheck (Some ∅)).

Definition take_gc_recheck : ME (gset bytes) :=
  s ← gets id;
  match se_gc_recheck s with
  | Some set => modify (set_gc_recheck (Some ∅)) ;; mret set
  | None => mret ∅
  end.

Definition gc_recheck_contains (s : StorageEngine) (hash : bytes) : bool :=
  match se_gc_recheck s with Some set => bool_decide (hash ∈ set) | None => false end.

Definition end_gc_recheck : ME unit := modify (set_gc_recheck None).

Definition set_tail_to_log_end : ME unit :=
  s ← gets id; on_kv (set_hot_tail_offset (aw_current_offset (se_writer s))).

(** [kv.needs_expansion.take()], the locks dropped, and the expansion: its error is
    logged and dropped. *)
Definition expand_if_pending (now : Z) : ME unit :=
  s ← gets id;
  let pending_expansion := dk_needs_expansion (se_kv s) in
  modify (fun s => set_kv (dk_set_needs_expansion None (se_kv s)) s) ;;
  match pending_expansion with
  | Some target_stage => ignore_err (expand_kv_block_online now target_stage)
  | None => mret tt
  end.

Definition new_kv_entry (kv_type : Z) (key : bytes) (offset total_length : Z) : KVEntry :=
  {| kv_type_flags := z2b kv_type; kv_hash := key; kv_offset := offset; kv_total_length := total_length |}.

(** The entry's bytes: over a void, or at the end of the log. *)
Definition place_entry (now : Z) (entry_type : EntryType) (key value : bytes) (flags : byte)
    (compression_algo : CompressionAlgorithm) (entry_version : byte) (void_slot : option (Z * Z)) : ME (Z * Z) :=
  match void_slot with
  | Some (void_offset, _) =>
    written ← on_writer (fun w =>
      write_entry_at_nosync_full_with_version now w void_offset entry_type key value flags compression_algo entry_version);
    mret (void_offset, written)
  | None => on_writer (fun w =>
      append_entry_with_compression_and_version now w entry_type key value flags compression_algo entry_version)
  end.

Definition store_entry_internal (now : Z) (entry_type : EntryType) (key value : bytes) (flags : byte)
    (compression_algo : CompressionAlgorithm) (entry_version : byte) : ME Z :=
  operation_guard ;;
  ensure_writable ;;
  s ← gets id;
  needed ← lift (compute_total_length (se_hash_algo s) (zlen key) (zlen value));
  let '(wal_start, wal_end) := writer_wal_bounds (se_writer s) in
  '(void_slot, voids_changed_via_consume) ←
    (if can_reuse_void_for_entry entry_type then take_void needed wal_start wal_end else mret (None, false));
  '(offset, total_length) ← place_entry now entry_type key value flags compression_algo entry_version void_slot;
  set_tail_to_log_end ;;
  on_kv (dk_insert (new_kv_entry (to_kv_type entry_type) key offset total_length)) ;;
  (if voids_changed_via_consume : bool then
     s ← gets id; on_kv (set_pending_voids (void_records (se_void_manager s)))
   else mret tt) ;;
  expand_if_pending now ;;
  record_gc_recheck key ;;
  mret offset.

Definition store_entry (now : Z) (entry_type : EntryType) (key value : bytes) : ME Z :=
  store_entry_internal now entry_type key value (z2b 0) NoCompression CURRENT_ENTRY_VERSION.
Definition store_entry_with_flags (now : Z) (entry_type : EntryType) (key value : bytes) (flags : byte) : ME Z :=
  store_entry_internal now entry_type key value flags NoCompression CURRENT_ENTRY_VERSION.
Definition store_entry_with_version (now : Z) (entry_type : EntryType) (key value : bytes) (entry_version : byte) : ME Z :=
  store_entry_internal now entry_type key value (z2b 0) NoCompression entry_version.
Definition store_entry_with_flags_and_version (now : Z) (entry_type : EntryType) (key value : bytes)
    (flags entry_version : byte) : ME Z :=
  store_entry_internal now entry_type key value flags NoCompression entry_version.
Definition store_entry_compressed (now : Z) (entry_type : EntryType) (key value : bytes)
    (compression_algo : CompressionAlgorithm) : ME Z :=
  store_entry_internal now entry_type key value (z2b 0) compression_algo CURRENT_ENTRY_VERSION.
Definition store_entry_compressed_with_flags (now : Z) (entry_type : EntryType) (key value : bytes) (flags : byte)
    (compression_algo : CompressionAlgorithm) : ME Z :=
  store_entry_internal now entry_type key value flags compression_algo CURRENT_ENTRY_VERSION.

Definition store_entry_typed (now : Z) (entry_type : EntryType) (key value : bytes) (kv_type : Z) : ME Z :=
  operation_guard ;;
  ensure_writable ;;
  '(offset, total_length) ← on_writer (fun w => append_entry now w entry_type key value (z2b 0));
  set_tail_to_log_end ;;
  on_kv (dk_insert (new_kv_entry kv_type key offset total_length)) ;;
  mret offset.

(** The first loop of [flush_batch]. *)
Fixpoint append_batch (now : Z) (entries : list BatchEntry) : ME (list (Z * Z)) :=
  match entries with
  | [] => mret []
  | entry :: entries =>
    placed ← on_writer (fun w => append_entry now w (be_entry_type entry) (be_key entry) (be_value entry) (z2b 0));
    set_tail_to_log_end ;;
    rest ← append_batch now entries;
    mret (placed :: rest)
  end.

(** The second one. *)
Definition insert_batch (entries : list BatchEntry) (placed : list (Z * Z)) : ME unit :=
  for_each (zip entries placed) (fun ep =>
    on_kv (dk_insert (new_kv_entry (be_kv_type ep.1) (be_key ep.1) ep.2.1 ep.2.2))).

Definition flush_batch (now : Z) (batch : WriteBatch) : ME (list Z) :=
  operation_guard ;;
  ensure_writable ;;
  if bool_decide (length batch = 0%nat) then mret [] else
  placed ← append_batch now batch;
  insert_batch batch placed ;;
  expand_if_pending now ;;
  mret placed.*1.

(** ** Head and transactions *)

Definition with_head (h : FileHeader) (head_hash : bytes) (hot_tail updated_at : Z) : FileHeader :=
  {| fh_header_version := fh_header_version h; fh_hash_algo := fh_hash_algo h;
     fh_sequence := fh_sequence h; fh_created_at := fh_created_at h;
     fh_updated_at := updated_at; fh_kv_block_offset := fh_kv_block_offset h;
     fh_kv_block_length := fh_kv_block_length h; fh_kv_block_version := fh_kv_block_version h;
     fh_nvt_offset := fh_nvt_offset h; fh_nvt_length := fh_nvt_length h;
     fh_nvt_version := fh_nvt_version h; fh_head_hash := head_hash;
     fh_entry_count := fh_entry_count h; fh_resize_in_progress := fh_resize_in_progress h;
     fh_buffer_kvs_offset := fh_buffer_kvs_offset h; fh_buffer_nvt_offset := fh_buffer_nvt_offset h;
     fh_hot_tail_offset := hot_tail; fh_kv_block_stage := fh_kv_block_stage h;
     fh_resize_target_stage := fh_resize_target_stage h; fh_backup_type := fh_backup_type h;
     fh_base_hash := fh_base_hash h; fh_target_hash := fh_target_hash h |}.

(** Inside a transaction the header stays in memory. *)
Definition publish_head (now : Z) (head_hash : bytes) : ME unit :=
  s ← gets id;
  let in_transaction := 0 <? dk_transaction_depth (se_kv s) in
  let header := with_head (aw_file_header (se_writer s)) head_hash (aw_current_offset (se_writer s)) now in
  if in_transaction then modify (fun s => set_writer (set_header_in_memory (se_writer s) header) s)
  else
    on_writer (fun w => with_unit (update_file_header w header)) ;;
    modify (set_last_published (fh_hot_tail_offset header)).

Definition update_head (now : Z) (head_hash : bytes) : ME unit :=
  operation_guard ;;
  ensure_writable ;;
  publish_head now head_hash.

Definition head_hash (s : StorageEngine) : res bytes := guarded s (Ok (fh_head_hash (aw_file_header (se_writer s)))).

Definition backup_info (s : StorageEngine) : res (byte * bytes * bytes) :=
  let fh := aw_file_header (se_writer s) in
  guarded s (Ok (fh_backup_type fh, fh_base_hash fh, fh_target_hash fh)).

Definition with_backup (h : FileHeader) (backup_type : byte) (base_hash target_hash : bytes) : FileHeader :=
  {| fh_header_version := fh_header_version h; fh_hash_algo := fh_hash_algo h;
     fh_sequence := fh_sequence h; fh_created_at := fh_created_at h;
     fh_updated_at := fh_updated_at h; fh_kv_block_offset := fh_kv_block_offset h;
     fh_kv_block_length := fh_kv_block_length h; fh_kv_block_version := fh_kv_block_version h;
     fh_nvt_offset := fh_nvt_offset h; fh_nvt_length := fh_nvt_length h;
     fh_nvt_version := fh_nvt_version h; fh_head_hash := fh_head_hash h;
     fh_entry_count := fh_entry_count h; fh_resize_in_progress := fh_resize_in_progress h;
     fh_buffer_kvs_offset := fh_buffer_kvs_offset h; fh_buffer_nvt_offset := fh_buffer_nvt_offset h;
     fh_hot_tail_offset := fh_hot_tail_offset h; fh_kv_block_stage := fh_kv_block_stage h;
     fh_resize_target_stage := fh_resize_target_stage h; fh_backup_type := backup_type;
     fh_base_hash := base_hash; fh_target_hash := target_hash |}.

Definition set_backup_info (backup_type : byte) (base_hash target_hash : bytes) : ME unit :=
  operation_guard ;;
  ensure_writable ;;
  on_writer (fun w => with_unit (update_file_header w
    (with_backup (aw_file_header w) backup_type base_hash target_hash))).

Definition flush_batch_and_update_head (now : Z) (batch : WriteBatch) (head_hash : bytes) : ME (list Z) :=
  operation_guard ;;
  ensure_writable ;;
  if bool_decide (length batch = 0%nat) then update_head now head_hash ;; mret [] else
  placed ← append_batch now batch;
  insert_batch batch placed ;;
  publish_head now head_hash ;;
  expand_if_pending now ;;
  mret placed.*1.

Definition begin_transaction : ME unit :=
  modify (fun s => set_kv (dk_set_transaction_depth (dk_transaction_depth (se_kv s) + 1) (se_kv s)) s).

(** The header with the hot tail and entry count the index reports. *)
Definition with_tail_and_count (h : FileHeader) (hot_tail entry_count : Z) : FileHeader :=
  with_entry_count (header_layout h (fh_resize_in_progress h) (fh_kv_block_length h) (b2z (fh_kv_block_stage h))
    (b2z (fh_resize_target_stage h)) hot_tail) entry_count.

Definition publish_tail (context : string) : ME unit :=
  s ← gets id;
  let hot_tail_offset := dk_hot_tail_offset (se_kv s) in
  or_durability_failure context (on_writer (fun w => with_unit (update_header w
    (with_tail_and_count (aw_file_header w) hot_tail_offset (dk_entry_count (se_kv s)))))) ;;
  modify (set_last_published hot_tail_offset).

Definition end_transaction : ME unit :=
  modify (fun s => set_kv (dk_set_transaction_depth (saturating_sub (dk_transaction_depth (se_kv s)) 1) (se_kv s)) s) ;;
  s ← gets id;
  if negb (dk_transaction_depth (se_kv s) =? 0) then mret tt else
  or_durability_failure "Failed to flush hot buffer after transaction: {}" (on_kv force_flush_hot_buffer) ;;
  publish_tail "Failed to update header after transaction hot-tail flush: {}".

(** The timer's flush, when no other thread holds a lock; its errors only latch. *)
Definition try_flush_hot_buffer : ME unit :=
  s ← gets id;
  if bool_decide (is_Some (se_durability_failure s)) then mret tt else
  if bool_decide (dk_hot_buffer (se_kv s) = []) then mret tt else
  ignore_err (
    or_durability_failure "Timer hot-tail flush failed: {}" (on_kv flush_hot_buffer) ;;
    s ← gets id;
    if dk_transaction_depth (se_kv s) =? 0 then publish_tail "Timer header update failed: {}" else mret tt).

(** ** Reading entries *)

(** [snapshot.get(hash)] filtered by [!entry.is_deleted()]. *)
Definition live_kv_entry (s : StorageEngine) (hash : bytes) : res (option KVEntry) :=
  o ← snapshot_get (se_snapshot s) hash;
  Ok (match o with Some e => if is_deleted e then None else Some e | None => None end).

(** Where an index entry points, after the range check. *)
Definition read_entry (s : StorageEngine) (e : KVEntry) (do_verify : bool) : res EntryData :=
  _ ← validate_kv_entry_offset (se_writer s) e;
  read_entry_at_shared_opt (aw_file (se_writer s)) (kv_offset e) do_verify.

Definition get_with (s : StorageEngine) (o : res (option KVEntry)) (do_verify : bool) : res (option EntryData) :=
  o ← o;
  match o with
  | None => Ok None
  | Some e => data ← read_entry s e do_verify; Ok (Some data)
  end.

Definition get_entry (s : StorageEngine) (hash : bytes) : res (option EntryData) :=
  guarded s (get_with s (live_kv_entry s hash) false).
Definition get_entry_including_deleted (s : StorageEngine) (hash : bytes) : res (option EntryData) :=
  guarded s (get_with s (get_raw (se_snapshot s) hash) false).
Definition get_entry_verified (s : StorageEngine) (hash : bytes) : res (option EntryData) :=
  guarded s (get_with s (live_kv_entry s hash) true).
Definition get_entry_verified_including_deleted (s : StorageEngine) (hash : bytes) : res (option EntryData) :=
  guarded s (get_with s (get_raw (se_snapshot s) hash) true).

Definition get_entry_header (s : StorageEngine) (hash : bytes) : res (option EntryHeader) :=
  guarded s (
    o ← live_kv_entry s hash;
    match o with
    | None => Ok None
    | Some e =>
      _ ← validate_kv_entry_offset (se_writer s) e;
      header ← read_entry_header_at_shared (aw_file (se_writer s)) (kv_offset e);
      Ok (Some header)
    end).

Definition has_entry (s : StorageEngine) (hash : bytes) : res bool :=
  guarded s (
    o ← snapshot_get (se_snapshot s) hash;
    Ok (match o with Some e => negb (is_deleted e) | None => false end)).

Definition is_entry_deleted (s : StorageEngine) (hash : bytes) : res bool :=
  guarded s (
    o ← get_raw (se_snapshot s) hash;
    Ok (match o with Some e => is_deleted e | None => false end)).

Definition iter_kv_entries (s : StorageEngine) : res (list KVEntry) := guarded s (snapshot_iter_all (se_snapshot s)).

Definition get_kv_entry (s : StorageEngine) (hash : bytes) : res (option KVEntry) := snapshot_get (se_snapshot s) hash.

(** Entries that cannot be read are skipped. *)
Fixpoint read_values (s : StorageEngine) (entries : list KVEntry) : res (list (bytes * bytes)) :=
  match entries with
  | [] => Ok []
  | e :: entries =>
    match read_entry s e false with
    | Ok (_, _, value) => rest ← read_values s entries; Ok ((kv_hash e, value) :: rest)
    | Err _ => read_values s entries
    | Panic => Panic
    end
  end.

Definition entries_by_type (s : StorageEngine) (target_type : Z) : res (list (bytes * bytes)) :=
  guarded s (entries ← iter_by_type (se_snapshot s) target_type; read_values s entries).

Definition read_entry_header_at (s : StorageEngine) (offset : Z) : res EntryHeader :=
  guarded s (
    let '(wal_start, wal_end) := writer_wal_bounds (se_writer s) in
    if (offset <? wal_start) || (wal_end <=? offset)
    then Err (CorruptEntry offset "entry header offset is outside current WAL region {}..{}") else
    header ← read_entry_header_at_shared (aw_file (se_writer s)) offset;
    if negb (valid_reusable_range offset (eh_total_length header) wal_start wal_end)
    then Err (CorruptEntry offset "entry range is outside current WAL region {}..{}") else
    Ok header).

(** ** Deleting and reclaiming *)

Definition mark_entry_deleted (hash : bytes) : ME unit :=
  operation_guard ;;
  ensure_writable ;;
  updated ← on_kv (dk_update_flags hash KV_FLAG_DELETED);
  if updated : bool then mret tt else lift (Err (NotFound "Entry not found for hash: {}")).

Definition remove_kv_entries_batch (hashes : list bytes) : ME unit :=
  operation_guard ;;
  ensure_writable ;;
  on_kv (mark_deleted_batch hashes).

Definition remove_kv_entry (hash : bytes) : ME unit :=
  operation_guard ;;
  ensure_writable ;;
  on_kv (mark_deleted hash).

(** [write_void_at] and [write_void_at_nosync] differ in a sync. *)
Definition se_write_void_at (now offset sz : Z) : ME unit :=
  operation_guard ;;
  ensure_writable ;;
  s ← gets id;
  let '(wal_start, wal_end) := writer_wal_bounds (se_writer s) in
  if negb (valid_reusable_range offset sz wal_start wal_end)
  then lift (Err (InvalidInput "void range {}..{} is outside current WAL region {}..{}")) else
  on_writer (fun w => with_unit (write_void_at now w offset sz)) ;;
  modify (fun s => set_void_manager (register_void (se_void_manager s) offset sz) s).

(** [format!("del:gc:{}:{}", path, deleted_at)]: the digits of the time are an
    argument. *)
Definition write_deletion_at (now offset : Z) (path digits : bytes) : ME Z :=
  operation_guard ;;
  ensure_writable ;;
  s ← gets id;
  let deletion := DeletionRecord_new now path (Some (lit "gc")) in
  let value := DeletionRecord_serialize deletion in
  key ← lift (compute_hash (se_hash_algo s) (lit "del:gc:" ++ path ++ lit ":" ++ digits));
  needed ← lift (compute_total_length (se_hash_algo s) (zlen key) (zlen value));
  let '(wal_start, wal_end) := writer_wal_bounds (se_writer s) in
  if negb (valid_reusable_range offset needed wal_start wal_end)
  then lift (Err (InvalidInput "deletion range {}..{} is outside current WAL region {}..{}")) else
  on_writer (fun w => write_entry_at now w offset DeletionRecordEntry key value).

Definition sync_voids_to_kv_writer : ME unit :=
  s ← gets id; on_kv (set_pending_voids (void_records (se_void_manager s))).

Definition force_hot_tail_flush : ME unit :=
  ensure_writable ;;
  or_durability_failure "Forced hot-tail flush failed: {}" (on_kv force_flush_hot_buffer) ;;
  s ← gets id;
  if 0 <? dk_transaction_depth (se_kv s) then mret tt
  else publish_tail "Forced hot-tail header update failed: {}".

(** The loop of [recover_voids_via_gap_scan] over the live spans in offset order. *)
Fixpoint gap_scan (cursor : Z) (ranges : list (Z * Z)) : list VoidRecord :=
  match ranges with
  | [] => []
  | (offset, total_length) :: ranges =>
    (if cursor <? offset then [{| vr_offset := cursor; vr_size := Z.min (offset - cursor) u32_max |}] else [])
    ++ gap_scan (Z.max (saturating_add64 offset total_length) cursor) ranges
  end.

Definition recover_voids_via_gap_scan : ME unit :=
  s ← gets id;
  let '(wal_start, wal_end) := writer_wal_bounds (se_writer s) in
  entries ← lift (snapshot_iter_all (se_snapshot s));
  let ranges := (fun e => (kv_offset e, kv_total_length e)) <$>
    filter (fun e => negb (is_deleted e) && valid_reusable_range (kv_offset e) (kv_total_length e) wal_start wal_end = true) entries in
  let ranges := sort_by (fun a b : Z * Z => a.1 <=? b.1) ranges in
  let recovered := gap_scan wal_start ranges in
  modify (fun s => set_void_manager (replace_all (se_void_manager s)
    ((fun v => (vr_offset v, vr_size v)) <$> recovered)) s).
End Engine.
