(* ===== verification/EngineContent.v ===== *)
(** The content of the storage engine: which bytes of the log the live index entries
    stand for.  A live entry's bytes lie in the log, apart from every other live
    entry's and from the free space; the lemmas say how a write, an insertion and a
    deletion act on this. *)
From S2P Require Import Prelude Codec EntryFormat KvEntry KvPages FileIo FileHeader VoidManager AppendWriter KvSnapshot DiskKv DiskKvPages DiskKvRefine.

Local Open Scope Z_scope.

(** What a caller stores under a hash: the type in the index, and everything of the
    entry but its time. *)
Record Stored := {
  st_kv_type : Z;
  st_type : EntryType;
  st_flags : byte;
  st_compression : CompressionAlgorithm;
  st_version : byte;
  st_value : bytes;
}.

(** What a reader gets back, seen the same way. *)
Definition summary (kv_type : Z) (d : EntryHeader * bytes * bytes) : Stored :=
  let '(h, _, value) := d in
  {| st_kv_type := kv_type; st_type := eh_entry_type h; st_flags := eh_flags h; st_compression := eh_compression_algo h;
     st_version := eh_entry_version h; st_value := value |}.

Definition entry_summary (kv_type : Z) (le : LogEntry) : Stored := summary kv_type (le_header le, le_key le, le_value le).

(** The file holds [x] from byte [off] on. *)
Definition bytes_at (file : bytes) (off : Z) (x : bytes) : Prop :=
  forall i b, 0 <= i -> at_ x i = Some b -> at_ file (off + i) = Some b.

Lemma bytes_at_suffix file off x : 0 <= off -> bytes_at file off x -> off + zlen x <= zlen file ->
  exists rest, suffix_at file off (x ++ rest).
Proof.
  intros Ho Hx Hl. exists (drop (Z.to_nat (off + zlen x)) file), (take (Z.to_nat off) file). pose proof (zlen_nonneg x).
  split; [|unfold zlen in *; rewrite length_take; lia].
  rewrite <- (take_drop (Z.to_nat off) file) at 1. f_equal.
  rewrite <- (take_drop (length x) (drop (Z.to_nat off) file)) at 1. rewrite drop_drop. f_equal.
  2: { f_equal. unfold zlen. lia. }
  apply list_eq. intros i. destruct (decide (i < length x)%nat) as [Hi|Hi].
  - rewrite lookup_take_lt, lookup_drop by done. destruct (lookup_lt_is_Some_2 x i Hi) as [b Hb].
    specialize (Hx (Z.of_nat i) b ltac:(lia)). unfold at_ in Hx. rewrite Nat2Z.id in Hx. specialize (Hx Hb).
    replace (Z.to_nat (off + Z.of_nat i)) with (Z.to_nat off + i)%nat in Hx by lia. congruence.
  - rewrite !lookup_ge_None_2; [done|lia|rewrite length_take; lia].
Qed.

Lemma bytes_at_len file off x : 0 <= off <= zlen file -> bytes_at file off x -> off + zlen x <= zlen file.
Proof.
  intros Ho Hx. destruct (decide (x = [])) as [->|Hne]; [rewrite zlen_nil; lia|].
  destruct (lookup_lt_is_Some_2 x (length x - 1)) as [b Hb]; [destruct x; [done|cbn; lia]|].
  specialize (Hx (zlen x - 1) b). unfold at_ in Hx at 1. unfold zlen in *.
  replace (Z.to_nat (Z.of_nat (length x) - 1)) with (length x - 1)%nat in Hx by lia.
  assert (0 < length x)%nat by (destruct x; [done|cbn; lia]).
  specialize (Hx ltac:(lia) Hb). apply at_Some_lt in Hx; [|lia]. unfold zlen in Hx. lia.
Qed.

Lemma bytes_at_write file off x : 0 <= off -> bytes_at (file_write file off x) off x.
Proof.
  intros Ho i b Hi Hb. pose proof (at_Some_lt _ _ _ Hi Hb). rewrite at_file_write by lia.
  rewrite decide_False by lia. rewrite decide_True by lia. by replace (off + i - off) with i by lia.
Qed.

Lemma bytes_at_ext file file' off x :
  (forall i b, off <= i < off + zlen x -> at_ file i = Some b -> at_ file' i = Some b) ->
  bytes_at file off x -> bytes_at file' off x.
Proof.
  intros Hk Hx i b Hi Hb. pose proof (at_Some_lt _ _ _ Hi Hb). apply Hk; [lia|]. by apply Hx.
Qed.

Section Content.
Context `{Crc32, Blake3}.

(** The bytes of an index entry. *)
Definition spans (e : KVEntry) (i : Z) : Prop := kv_offset e <= i < kv_offset e + kv_total_length e.

(** The index entry [e] of [h] points at an entry for [h] with summary [v]. *)
Record stored (file : bytes) (start stop : Z) (h : bytes) (e : KVEntry) (v : Stored) : Prop := {
  sd_entry : exists le, entry_ok le /\ le_key le = h /\ entry_summary (kv_entry_type e) le = v
    /\ kv_total_length e = zlen (entry_bytes le) /\ bytes_at file (kv_offset e) (entry_bytes le);
  sd_start : start <= kv_offset e;
  sd_stop : kv_offset e + kv_total_length e <= stop;
}.

(** Bytes [start] to [stop] of the file are the log, [voids] its free space; the
    live entries of the index [m] hold the content [c]. *)
Record content_ok (file : bytes) (start stop : Z) (voids : gmap Z Z) (m : gmap bytes KVEntry) (c : gmap bytes Stored) : Prop := {
  co_live : forall h e, live (m !! h) = Some e -> exists v, c !! h = Some v /\ stored file start stop h e v;
  co_dead : forall h, live (m !! h) = None -> c !! h = None;
  co_apart : forall h h' e e', live (m !! h) = Some e -> live (m !! h') = Some e' -> h <> h' ->
    forall i, spans e i -> ~ spans e' i;
  co_free : forall h e i, live (m !! h) = Some e -> spans e i -> ~ free voids i;
}.

(** A change of the file that keeps the live bytes, with a log that may have grown
    and free space that may have shrunk. *)
Lemma content_file file file' start stop stop' voids voids' m c :
  content_ok file start stop voids m c -> stop <= stop' -> (forall i, free voids' i -> free voids i) ->
  (forall h e i b, live (m !! h) = Some e -> spans e i -> start <= i < stop -> at_ file i = Some b -> at_ file' i = Some b) ->
  content_ok file' start stop' voids' m c.
Proof.
  intros [Hl Hd Ha Hf] Hst Hv Hk. split; try done.
  - intros h e He. destruct (Hl h e He) as (v & Hc & [(le & Hok & Hkey & Hs & Ht & Hb) H1 H2]). exists v. split; [done|].
    split; [|lia|lia]. exists le. split_and!; try done. eapply bytes_at_ext; [|exact Hb].
    intros i b Hi Hx. rewrite <- Ht in Hi. apply (Hk h e i b He); [unfold spans; lia|lia|done].
  - intros h e i He Hi Hfr. by apply (Hf h e i He Hi), Hv.
Qed.

(** The free space may grow where no live entry lies. *)
Lemma content_voids file start stop voids voids' m c : content_ok file start stop voids m c ->
  (forall i, free voids' i -> free voids i \/ forall h e, live (m !! h) = Some e -> ~ spans e i) ->
  content_ok file start stop voids' m c.
Proof.
  intros [Hl Hd Ha Hf] Hv. split; try done. intros h e i He Hi Hfr. destruct (Hv i Hfr) as [?|Hn]; [by apply (Hf h e i)|].
  by apply (Hn h e).
Qed.

Lemma live_entry e : is_deleted e = false -> live (Some e) = Some e.
Proof. unfold live. by intros ->. Qed.

(** A new entry whose bytes are apart from the other live entries and not free. *)
Lemma content_insert file start stop voids m c h e v : content_ok file start stop voids m c ->
  is_deleted e = false -> stored file start stop h e v ->
  (forall h' e' i, live (m !! h') = Some e' -> h' <> h -> spans e i -> ~ spans e' i) ->
  (forall i, spans e i -> ~ free voids i) ->
  content_ok file start stop voids (<[h := e]> m) (<[h := v]> c).
Proof.
  intros [Hl Hd Ha Hf] Hdel Hs Hap Hfr. pose proof (live_entry e Hdel) as He.
  assert (Hlook : forall k x, live (<[h := e]> m !! k) = Some x -> (k = h /\ x = e) \/ (k <> h /\ live (m !! k) = Some x)).
  { intros k x. destruct (decide (k = h)) as [->|Hne]; [rewrite lookup_insert_eq, He; intros [= <-]; by left|].
    rewrite lookup_insert_ne by done. by right. }
  split.
  - intros k x [[-> ->]|[Hne Hx]]%Hlook; [exists v; by rewrite lookup_insert_eq|]. rewrite lookup_insert_ne by done. by apply Hl.
  - intros k Hk. destruct (decide (k = h)) as [->|Hne]; [by rewrite lookup_insert_eq, He in Hk|].
    rewrite lookup_insert_ne in Hk by congruence. rewrite lookup_insert_ne by congruence. by apply Hd.
  - intros k k' x x' [[-> ->]|[Hk Hx]]%Hlook [[-> ->]|[Hk' Hx']]%Hlook Hne i Hi; [done| | |by apply (Ha k k' x x')].
    + by apply (Hap k').
    + intros Hi'. by apply (Hap k x i Hx Hk Hi').
  - intros k x i [[-> ->]|[Hk Hx]]%Hlook; [apply Hfr|]. by apply (Hf k).
Qed.

(** A hash whose entry is no longer live. *)
Lemma content_delete file start stop voids m m' c h : content_ok file start stop voids m c ->
  live (m' !! h) = None -> (forall k, k <> h -> m' !! k = m !! k) ->
  content_ok file start stop voids m' (delete h c).
Proof.
  intros [Hl Hd Ha Hf] Hdel Hk.
  assert (Hlook : forall k x, live (m' !! k) = Some x -> k <> h /\ live (m !! k) = Some x).
  { intros k x. destruct (decide (k = h)) as [->|Hne]; [congruence|]. by rewrite Hk. }
  split.
  - intros k x [Hne Hx]%Hlook. rewrite lookup_delete_ne by done. by apply Hl.
  - intros k Hx. destruct (decide (k = h)) as [->|Hne]; [by rewrite lookup_delete_eq|].
    rewrite Hk in Hx by done. rewrite lookup_delete_ne by done. by apply Hd.
  - intros k k' x x' [_ Hx]%Hlook [_ Hx']%Hlook. by apply (Ha k k').
  - intros k x i [_ Hx]%Hlook. by apply (Hf k).
Qed.

(** A change of the index that keeps every live entry. *)
Lemma content_same file start stop voids m m' c : content_ok file start stop voids m c ->
  (forall k, live (m' !! k) = live (m !! k)) -> content_ok file start stop voids m' c.
Proof.
  intros [Hl Hd Ha Hf] Hk. split.
  - intros h e. rewrite Hk. apply Hl.
  - intros h. rewrite Hk. apply Hd.
  - intros h h' e e'. rewrite !Hk. apply Ha.
  - intros h e i. rewrite Hk. apply Hf.
Qed.
End Content.
