(* ===== verification/EngineWrites.v ===== *)
(** The two ways the storage engine writes an entry: where the free-space loop finds
    room for it, and what the append log does to the file. *)
From S2P Require Import Prelude Codec EntryFormat KvEntry KvPages FileIo FileHeader VoidManager AppendWriter StorageEngine EngineContent.

Local Open Scope Z_scope.

Lemma valid_range_spec offset sz wal_start wal_end : 0 <= offset -> 0 <= wal_start ->
  valid_reusable_range offset sz wal_start wal_end = true <->
  0 <> sz /\ wal_start <= wal_end /\ wal_start <= offset /\ offset + sz <= u64_max /\ offset + sz <= wal_end.
Proof.
  intros Ho Hw. unfold valid_reusable_range. destruct (Z.eqb_spec sz 0), (Z.ltb_spec wal_end wal_start), (Z.ltb_spec offset wal_start);
    cbn [orb]; try (split; [done|lia]).
  destruct (Z.ltb_spec u64_max (offset + sz)); [split; [done|lia]|]. rewrite Z.leb_le. lia.
Qed.

(** What the loop over [find_void] comes to: the span it returns was free and lies in
    the log, none of its bytes is free any more, and nothing became free. *)
Record reused (vm : VoidManager) (n wal_start wal_end : Z) (slot : option (Z * Z)) (vm' : VoidManager) : Prop := {
  ru_ok : vm_ok vm';
  ru_spans : spans_ok (by_offset vm');
  ru_free : forall i, free (by_offset vm') i -> free (by_offset vm) i;
  ru_slot : forall o sz, slot = Some (o, sz) -> 0 <= o /\ n <= sz /\ valid_reusable_range o sz wal_start wal_end = true /\
    forall i, o <= i < o + n -> free (by_offset vm) i /\ ~ free (by_offset vm') i;
}.

(** Every round takes [n] bytes out of the free space. *)
Lemma find_reusable_spec n wal_start wal_end fuel : 0 < n -> forall vm changed,
  vm_ok vm -> spans_ok (by_offset vm) -> total_void_space vm < Z.of_nat fuel * n ->
  exists slot changed' vm', find_reusable_void fuel vm n wal_start wal_end changed = Some (Ok (slot, changed', vm'))
    /\ reused vm n wal_start wal_end slot vm'.
Proof.
  intros Hn. induction fuel as [|fuel IH]; intros vm changed Hok Hsp Hfuel.
  { pose proof (total_nonneg vm Hok). lia. }
  cbn [find_reusable_void]. destruct (find_void_spec vm n Hok) as ([[o s]|] & vm1 & E & Hok1 & Hr); rewrite E.
  - destruct (find_void_alloc vm n o s vm1 Hok Hsp ltac:(lia) E) as (Hsp1 & Hsl & Hfr).
    destruct (find_void_total vm n o s vm1 Hok Hsp ltac:(lia) E) as [Hns Ht].
    destruct Hr as [(Ho & _ & _) _]. destruct (spans_range _ Hsp o s Ho) as (? & ? & ?).
    case_match eqn:Ev.
    + eexists _, _, _. split; [done|]. constructor; [done..|]. intros ? ? [= <- <-]. done.
    + destruct (IH vm1 true Hok1 Hsp1) as (slot & ch & vm' & E' & [Q1 Q2 Q3 Q4]); [lia|].
      exists slot, ch, vm'. split; [done|]. constructor; [done..|eauto|].
      intros o' sz' Hs. destruct (Q4 o' sz' Hs) as (? & ? & ? & Hb). split_and!; try done.
      intros i Hi. destruct (Hb i Hi). split; [by apply Hfr|done].
  - destruct Hr as [-> _]. eexists _, _, _. split; [done|]. constructor; done.
Qed.

(** ** The log *)

(** The header fields the layout of the file rests on. *)
Record same_layout (w w' : AppendWriter) : Prop := {
  sl_algo : fh_hash_algo (aw_file_header w') = fh_hash_algo (aw_file_header w);
  sl_offset : fh_kv_block_offset (aw_file_header w') = fh_kv_block_offset (aw_file_header w);
  sl_length : fh_kv_block_length (aw_file_header w') = fh_kv_block_length (aw_file_header w);
}.

(** The writer between operations: implemented algorithm, clock in range, a header
    that can be written, to one of the two slots. *)
Record writer_ok (w : AppendWriter) : Prop := {
  wo_aw : aw_ok w;
  wo_hashes : header_hashes (aw_file_header w);
  wo_slot : aw_active_slot w = 0 \/ aw_active_slot w = 1;
}.

Section Writes.
Context `{Crc32, Blake3}.

(** The entry a write produces. *)
Definition entry_of (now : Z) (w : AppendWriter) (t : EntryType) (key value : bytes) (fl : byte)
    (comp : CompressionAlgorithm) (ver : byte) : LogEntry :=
  {| le_header := make_entry_header Blake3_256 t key value fl comp ver (next_entry_timestamp now w).1
       (FIXED_HEADER_SIZE + 32 + zlen key + zlen value) (blake3 (z2b (EntryType_to_u8 t) :: key ++ value));
     le_key := key; le_value := value |}.

Definition entry_size (key value : bytes) : Z := FIXED_HEADER_SIZE + 32 + zlen key + zlen value.

Definition small (key value : bytes) : Prop := zlen key <= MAX_KEY_OR_VALUE_BYTES /\ zlen value <= MAX_KEY_OR_VALUE_BYTES.

Lemma entry_size_ok key value : small key value ->
  compute_total_length Blake3_256 (zlen key) (zlen value) = Ok (entry_size key value) /\
  63 <= entry_size key value < 2^32.
Proof.
  intros [Hk Hv]. pose proof (zlen_nonneg key). pose proof (zlen_nonneg value).
  destruct (compute_total_length_ok Blake3_256 (zlen key) (zlen value)) as (E & Hu & _); [lia..|].
  split; [exact E|]. unfold entry_size, is_u32, FIXED_HEADER_SIZE in *. change (hash_length Blake3_256) with 32 in Hu. lia.
Qed.

Lemma entry_of_ok now w t key value fl comp ver : aw_ok w -> is_i64 now -> small key value ->
  entry_ok (entry_of now w t key value fl comp ver) /\
  zlen (entry_bytes (entry_of now w t key value fl comp ver)) = entry_size key value.
Proof.
  intros [Ha Hu _] Hn [Hk Hv].
  assert (Hok : entry_ok (entry_of now w t key value fl comp ver)).
  { apply make_entry_ok; [|done..]. unfold next_entry_timestamp. cbn [fst]. by apply next_timestamp_range. }
  split; [done|]. rewrite <- (ok_total _ Hok). reflexivity.
Qed.

(** Appending. *)
Lemma append_result now w t key value fl comp ver : writer_ok w -> is_i64 now -> small key value ->
  aw_current_offset w + entry_size key value < 2^64 ->
  let le := entry_of now w t key value fl comp ver in
  exists w', append_entry_with_compression_and_version now w t key value fl comp ver
      = Ok ((aw_current_offset w, entry_size key value), w')
    /\ aw_file w' = file_write (aw_file w) (aw_current_offset w) (entry_bytes le)
    /\ aw_current_offset w' = aw_current_offset w + entry_size key value
    /\ writer_ok w' /\ same_layout w w'.
Proof.
  intros [[Ha Hu Ho] Hh Hs] Hn Hkv Hroom. cbv zeta. destruct (entry_size_ok key value Hkv) as [Et Hsz].
  unfold append_entry_with_compression_and_version. rewrite Ha. cbv zeta. cbn [entry_hash compute_hash]. rewrite bind_ret.
  rewrite Et, bind_ret. unfold next_entry_timestamp. cbv zeta beta iota.
  assert (Hwrap : wrap64 (aw_current_offset w + entry_size key value) = aw_current_offset w + entry_size key value)
    by (unfold wrap64, is_u64 in *; apply Z.mod_small; lia).
  eexists. split; [reflexivity|]. cbn [aw_file aw_current_offset with_header]. split_and!.
  - rewrite write_entry_bytes_eq by apply Ho. done.
  - done.
  - constructor; [constructor|..]; cbn [aw_file_header aw_current_offset aw_active_slot with_header]; try done.
    + by apply next_timestamp_range.
    + rewrite Hwrap. unfold is_u64 in *. lia.
    + destruct Hh. by constructor.
  - by constructor.
Qed.

(** Writing over free space. *)
Lemma write_at_result now w off t key value fl comp ver : writer_ok w -> is_i64 now -> small key value -> 0 <= off ->
  let le := entry_of now w t key value fl comp ver in
  exists w', write_entry_at_nosync_full_with_version now w off t key value fl comp ver = Ok (entry_size key value, w')
    /\ aw_file w' = file_write (aw_file w) off (entry_bytes le)
    /\ aw_current_offset w' = aw_current_offset w
    /\ writer_ok w' /\ same_layout w w'.
Proof.
  intros [[Ha Hu Ho] Hh Hs] Hn Hkv Hoff. cbv zeta. destruct (entry_size_ok key value Hkv) as [Et Hsz].
  unfold write_entry_at_nosync_full_with_version. rewrite Ha. cbv zeta. cbn [entry_hash compute_hash]. rewrite bind_ret.
  rewrite Et, bind_ret. unfold next_entry_timestamp. cbv zeta beta iota.
  eexists. split; [reflexivity|]. cbn [aw_file aw_current_offset with_header with_file]. split_and!.
  - rewrite write_entry_bytes_eq by done. done.
  - done.
  - constructor; [constructor|..]; cbn [aw_file_header aw_current_offset aw_active_slot with_header with_file]; try done.
    + by apply next_timestamp_range.
    + destruct Hh. by constructor.
  - by constructor.
Qed.

(** Writing the header goes to the other slot. *)
Lemma header_result w h : writer_ok w -> header_hashes h -> fh_hash_algo h = Blake3_256 ->
  is_i64 (fh_updated_at h) ->
  exists bs w', update_header w h = Ok w' /\ update_file_header w h = Ok w'
    /\ aw_file w' = file_write (aw_file w) (inactive_slot_offset (aw_active_slot w)) bs
    /\ 0 <= inactive_slot_offset (aw_active_slot w) /\ inactive_slot_offset (aw_active_slot w) + zlen bs <= HEADER_REGION_SIZE
    /\ aw_current_offset w' = aw_current_offset w /\ writer_ok w'
    /\ fh_kv_block_offset (aw_file_header w') = fh_kv_block_offset h
    /\ fh_kv_block_length (aw_file_header w') = fh_kv_block_length h
    /\ fh_head_hash (aw_file_header w') = fh_head_hash h.
Proof.
  intros [[Ha Hu Ho] Hh Hs] Hhh Hal Hup. unfold update_header, update_file_header, write_header_to_inactive_slot. cbv zeta.
  set (new := with_sequence (with_updated_at _ _) _).
  destruct (FileHeader_serialize_total new) as (bs & E & Hz).
  { destruct Hhh. by constructor. }
  { change (fh_hash_algo new) with (fh_hash_algo h). by rewrite Hal. }
  rewrite E, !bind_ret. exists bs. eexists. split; [reflexivity|]. split; [reflexivity|].
  cbn [aw_file aw_current_offset aw_file_header]. rewrite Hz.
  split; [done|]. split; [|split]; [destruct Hs as [-> | ->]; vm_compute; congruence..|].
  split; [done|]. split; [|done]. constructor; [constructor|..]; cbn [aw_file_header aw_current_offset aw_active_slot]; try done.
  - change (is_i64 (Z.max (fh_updated_at h) (fh_updated_at (aw_file_header w)))). by apply is_i64_max.
  - destruct Hhh. by constructor.
  - destruct Hs as [-> | ->]; [by right|by left].
Qed.
End Writes.
