(* ===== verification/EngineSpec.v ===== *)
(** The invariant of the storage engine: the index holds the map [m], the log holds
    the content [c] the live entries of [m] point at, the free space is apart from
    them; and how the parts of an operation keep it. *)
From S2P Require Import Prelude Codec EntryFormat KvEntry KvPages FileIo HotTail FileHeader VoidManager AppendWriter Converters Nvt StateM KvSnapshot DiskKv DiskKvPages DiskKvSpec DiskKvRefine DiskKvLoad DiskKvExpand StorageEngine EngineContent EngineWrites.

Local Open Scope Z_scope.

(** ** Load *)

(** The hashes that belong to a bucket fit its page. *)
Definition keys_fit `{ToScalar} (nvt : NormalizedVectorTable) (keys : gset bytes) : Prop :=
  forall b, Z.of_nat (size (filter (fun h => bucket_for_value nvt h = b) keys)) <= MAX_ENTRIES_PER_PAGE.

Lemma keys_fit_mono `{ToScalar} nvt keys keys' : keys' ⊆ keys -> keys_fit nvt keys -> keys_fit nvt keys'.
Proof.
  intros Hs Hf b. etransitivity; [|apply (Hf b)]. apply Nat2Z.inj_le, subseteq_size. set_solver.
Qed.

Lemma keys_fit_buckets `{ToScalar} nvt m : keys_fit nvt (dom m) -> buckets_fit nvt m.
Proof.
  intros Hf b. etransitivity; [|apply (Hf b)]. apply Nat2Z.inj_le. rewrite <- size_dom. apply subseteq_size.
  intros h [e [He Hb]%map_lookup_filter_Some]%elem_of_dom. apply elem_of_filter. split; [done|]. by apply elem_of_dom.
Qed.

Lemma dk_set_file_id s : dk_set_file (dk_file s) s = s.
Proof. by destruct s. Qed.

Lemma dk_set_tail_id s : dk_set_hot_tail_offset (dk_hot_tail_offset s) s = s.
Proof. by destruct s. Qed.

Lemma with_file_id w : with_file w (aw_file w) = w.
Proof. by destruct w. Qed.

Section EngineSpec.
Context `{Crc32, Blake3, ToScalar, HashOrder}.

(** ** The invariant *)

Definition wal_start (kv : DiskKVStore) : Z := dk_kv_block_offset kv + dk_kv_block_length kv.

(** The parts: the index (on the file's bytes), the writer, the free space. *)
Record parts_ok (kv : DiskKVStore) (w : AppendWriter) (vm : VoidManager)
    (m : gmap bytes KVEntry) (c : gmap bytes Stored) : Prop := {
  eo_kv : dk_ok kv;
  eo_abs : dk_abs kv m;
  eo_stage : dk_stage kv < last_stage;
  eo_algo : dk_hash_algo kv = Blake3_256;
  eo_file : dk_file kv = aw_file w;
  eo_writer : writer_ok w;
  eo_block : fh_kv_block_offset (aw_file_header w) = dk_kv_block_offset kv;
  eo_length : fh_kv_block_length (aw_file_header w) = dk_kv_block_length kv;
  eo_base : HEADER_REGION_SIZE <= dk_kv_block_offset kv;
  eo_enabled : dk_hot_tail_enabled kv = true;
  eo_tail : dk_hot_tail_offset kv = aw_current_offset w;
  eo_expansion : dk_needs_expansion kv = None;
  eo_vm : vm_ok vm;
  eo_spans : spans_ok (by_offset vm);
  eo_below : forall i, free (by_offset vm) i -> i < aw_current_offset w;
  eo_content : content_ok (aw_file w) (wal_start kv) (aw_current_offset w) (by_offset vm) m c;
}.

Record engine_ok (s : StorageEngine) (m : gmap bytes KVEntry) (c : gmap bytes Stored) : Prop := {
  en_running : se_shutting_down s = false;
  en_durable : se_durability_failure s = None;
  en_algo : se_hash_algo s = Blake3_256;
  en_parts : parts_ok (kv_on_file s) (se_writer s) (se_void_manager s) m c;
}.

Lemma wal_start_ge kv w vm m c : parts_ok kv w vm m c ->
  pages_end kv <= wal_start kv <= aw_current_offset w /\ 0 <= dk_kv_block_offset kv <= pages_end kv.
Proof.
  intros P. pose proof (di_base _ (proj1 (eo_kv _ _ _ _ _ P))) as Hb.
  pose proof (pages_end_block _ Hb). pose proof (pages_end_ge _ (di_store _ Hb)).
  pose proof (di_tail _ Hb (eo_enabled _ _ _ _ _ P)). rewrite (eo_tail _ _ _ _ _ P) in *.
  pose proof (sp_offset _ (di_store _ Hb)). unfold wal_start. lia.
Qed.

Lemma writer_bounds kv w vm m c : parts_ok kv w vm m c -> writer_wal_bounds w = (wal_start kv, aw_current_offset w).
Proof.
  intros P. pose proof (wal_start_ge _ _ _ _ _ P). unfold writer_wal_bounds.
  rewrite (eo_block _ _ _ _ _ P), (eo_length _ _ _ _ _ P). f_equal. unfold saturating_add64, wal_start in *.
  pose proof (ok_offset _ (wo_aw _ (eo_writer _ _ _ _ _ P))). unfold is_u64, u64_max in *. lia.
Qed.

(** ** The index on a changed file *)

Lemma dk_on_file kv m g tail : dk_ok kv -> dk_abs kv m -> dk_hot_tail_offset kv <= tail -> pages_end kv <= zlen g ->
  (forall i x, dk_kv_block_offset kv <= i < pages_end kv -> at_ (dk_file kv) i = Some x -> at_ g i = Some x) ->
  dk_ok (dk_set_hot_tail_offset tail (dk_set_file g kv)) /\ dk_abs (dk_set_hot_tail_offset tail (dk_set_file g kv)) m.
Proof.
  intros [[Hb Hsn] Hp] Ha Ht Hl Hk. destruct (store_pages_kept kv g (di_store _ Hb)) as [Epg Hs]; [done..|].
  set (kv1 := dk_set_hot_tail_offset _ _). change (dk_pages (dk_set_file g kv)) with (dk_pages kv1) in Epg.
  split; [split; [constructor|exact Hp]|].
  - destruct Hb as [_ ? ? ? ? ? Hta]. constructor; try done; [destruct Hs; by constructor|].
    intros E. specialize (Hta E). cbn. lia.
  - rewrite Epg. eapply snap_of_layout; [..|exact Hsn]; done.
  - intros h. rewrite <- Ha. unfold dk_view. rewrite Epg. done.
Qed.

(** ** Writing to the file *)

(** A write to the headers or to bytes of the log no live entry has. *)
Lemma parts_write kv w vm m c w' off x :
  parts_ok kv w vm m c -> writer_ok w' -> same_layout w w' ->
  aw_file w' = file_write (aw_file w) off x -> 0 <= off ->
  off + zlen x <= HEADER_REGION_SIZE \/ wal_start kv <= off ->
  aw_current_offset w <= aw_current_offset w' ->
  (forall h e i, live (m !! h) = Some e -> spans e i -> ~ (off <= i < off + zlen x)) ->
  parts_ok (dk_set_hot_tail_offset (aw_current_offset w') (dk_set_file (aw_file w') kv)) w' vm m c.
Proof.
  intros P Hw [La Lo Ll] Hf Ho Hwhere Hcur Hlive. pose proof (wal_start_ge _ _ _ _ _ P) as [Hws Hpg].
  pose proof P as [Hkv Habs Hst Hal Hfi Hwr Hbl Hle Hba Hen Hta Hex Hvm Hsp Hbe Hco].
  destruct (dk_on_file kv m (aw_file w') (aw_current_offset w') Hkv Habs) as [Hkv' Habs'].
  - lia.
  - pose proof (sp_file _ (di_store _ (di_base _ (proj1 Hkv)))). rewrite Hf, zlen_file_write, <- Hfi by done. lia.
  - intros i b Hi Hb. rewrite Hf. rewrite Hfi in Hb. apply at_file_write_out; [lia|lia|lia|done].
  - constructor; try done; cbn; try congruence.
    { intros i Hi%Hbe. lia. }
    change (wal_start _) with (wal_start kv). rewrite Hf. eapply content_file; [exact Hco|done|done|].
    intros h e i b He Hi Hr Hb. apply at_file_write_out; [lia|lia| |done]. by apply (Hlive h e).
Qed.

(** The same without moving the end of the log. *)
Lemma parts_write_same kv w vm m c w' off x :
  parts_ok kv w vm m c -> writer_ok w' -> same_layout w w' ->
  aw_file w' = file_write (aw_file w) off x -> 0 <= off ->
  off + zlen x <= HEADER_REGION_SIZE \/ wal_start kv <= off ->
  aw_current_offset w' = aw_current_offset w ->
  (forall h e i, live (m !! h) = Some e -> spans e i -> ~ (off <= i < off + zlen x)) ->
  parts_ok (dk_set_file (aw_file w') kv) w' vm m c.
Proof.
  intros P Hw Hl Hf Ho Hwhere Hcur Hlive.
  pose proof (parts_write kv w vm m c w' off x P Hw Hl Hf Ho Hwhere ltac:(lia) Hlive) as P'.
  rewrite Hcur, <- (eo_tail _ _ _ _ _ P) in P'.
  change (dk_hot_tail_offset kv) with (dk_hot_tail_offset (dk_set_file (aw_file w') kv)) in P'.
  by rewrite dk_set_tail_id in P'.
Qed.

(** ** Index operations *)

Definition after_kv (s : StorageEngine) (kv : DiskKVStore) : StorageEngine :=
  set_writer (with_file (se_writer s) (dk_file kv)) (set_kv kv s).

Lemma kv_after s kv : kv_on_file (after_kv s kv) = kv.
Proof. unfold kv_on_file. cbn. apply dk_set_file_id. Qed.

Lemma runs_on_kv {A} (k : M DiskKVStore A) s Q : runs k (kv_on_file s) Q ->
  runs (on_kv k) s (fun a s' => exists kv, s' = after_kv s kv /\ Q a kv).
Proof.
  intros (a & kv & E & HQ). exists a, (after_kv s kv). split; [|eauto]. unfold on_kv. by rewrite E.
Qed.

(** An index operation that changes the map to [m'] keeps the log's bytes. *)
Lemma parts_kv kv w vm m c kv' m' c' : parts_ok kv w vm m c ->
  refines_to kv m' kv' -> dk_hot_tail_offset kv' = dk_hot_tail_offset kv -> dk_needs_expansion kv' = dk_needs_expansion kv ->
  (forall file, content_ok file (wal_start kv) (aw_current_offset w) (by_offset vm) m c ->
    (forall i b, wal_start kv <= i < aw_current_offset w -> at_ (aw_file w) i = Some b -> at_ file i = Some b) ->
    content_ok file (wal_start kv) (aw_current_offset w) (by_offset vm) m' c') ->
  parts_ok kv' (with_file w (dk_file kv')) vm m' c'.
Proof.
  intros P (Hok & Hfr & Ha) Ht He Hc. pose proof (wal_start_ge _ _ _ _ _ P) as [Hws Hpg].
  destruct P as [Hkv Habs Hst Hal Hfi Hwr Hbl Hle Hba Hen Hta Hex Hvm Hsp Hbe Hco].
  destruct Hfr as [Fo Fl Ft Fe Fs Fa Fc Flog].
  constructor; try done; cbn [aw_file aw_file_header aw_current_offset with_file]; try congruence.
  - destruct Hwr as [[] [] ?]. constructor; [by constructor|by constructor|done].
  - assert (Hlog : forall i b, wal_start kv <= i < aw_current_offset w -> at_ (aw_file w) i = Some b -> at_ (dk_file kv') i = Some b).
    { intros i b Hi Hb. apply Flog; [lia|lia|congruence]. }
    unfold wal_start. rewrite Fo, Fl. apply Hc; [|done]. eapply content_file; [exact Hco|done|done|].
    intros h e i b _ _. apply Hlog.
Qed.

(** What an index operation of the engine must come to. *)
Definition kv_step (s : StorageEngine) (m' : gmap bytes KVEntry) (kv : DiskKVStore) : Prop :=
  refines_to (kv_on_file s) m' kv /\ dk_hot_tail_offset kv = dk_hot_tail_offset (kv_on_file s)
  /\ dk_needs_expansion kv = dk_needs_expansion (kv_on_file s).

Lemma frame_nvt s m' kv : dk_ok s -> refines_to s m' kv -> dk_nvt kv = dk_nvt s.
Proof.
  intros Hok (Hok' & Hf & _). by rewrite (di_nvt _ (di_base _ (proj1 Hok'))), (fr_count _ _ Hf), (di_nvt _ (di_base _ (proj1 Hok))).
Qed.

Lemma engine_kv {A} (k : M DiskKVStore A) s m c m' c' (Q : A -> DiskKVStore -> Prop) : engine_ok s m c ->
  runs k (kv_on_file s) (fun a kv => kv_step s m' kv /\ Q a kv) ->
  (forall file, content_ok file (wal_start (se_kv s)) (aw_current_offset (se_writer s)) (by_offset (se_void_manager s)) m c ->
    (forall i b, wal_start (se_kv s) <= i < aw_current_offset (se_writer s) ->
       at_ (aw_file (se_writer s)) i = Some b -> at_ file i = Some b) ->
    content_ok file (wal_start (se_kv s)) (aw_current_offset (se_writer s)) (by_offset (se_void_manager s)) m' c') ->
  runs (on_kv k) s (fun a s' => exists kv, s' = after_kv s kv /\ engine_ok s' m' c' /\ dk_nvt kv = dk_nvt (se_kv s) /\ Q a kv).
Proof.
  intros [E1 E2 E3 E4] Hk Hc. eapply runs_mono; [by apply runs_on_kv|].
  intros a s' (kv & -> & (Hr & Ht & He) & HQ). exists kv. split; [done|]. split.
  - constructor; try done. rewrite kv_after. eapply parts_kv; [exact E4|done..|exact Hc].
  - split; [|done]. apply (frame_nvt _ _ _ (eo_kv _ _ _ _ _ E4) Hr).
Qed.

(** ** The guards *)

Lemma runs_guard s m c {A} (k : M StorageEngine A) Q : engine_ok s m c ->
  runs k s Q -> runs (operation_guard ;; ensure_writable ;; k) s Q.
Proof.
  intros [E1 E2 _ _] Hk. unfold operation_guard, ensure_writable. run. rewrite E1. run. rewrite E2. by run.
Qed.

(** ** Reading *)

(** A reader finds exactly the content. *)
Lemma live_kv_ok s m c h : engine_ok s m c -> live_kv_entry s h = Ok (live (m !! h)).
Proof.
  intros E. pose proof (en_parts _ _ _ E) as P. unfold live_kv_entry, se_snapshot.
  change (dk_snapshot (se_kv s)) with (dk_snapshot (kv_on_file s)).
  rewrite (snapshot_get_view _ h (eo_kv _ _ _ _ _ P)), bind_ret. rewrite (eo_abs _ _ _ _ _ P).
  unfold live. destruct (m !! h) as [e|]; [|done]. destruct (is_deleted e) eqn:Hd; [done|]. by rewrite Hd.
Qed.

(** A live entry's bytes are in the log, and so is all of its span. *)
Lemma live_suffix s m c h e : engine_ok s m c -> live (m !! h) = Some e -> exists le rest,
  entry_ok le /\ le_key le = h /\ c !! h = Some (entry_summary (kv_entry_type e) le)
  /\ suffix_at (aw_file (se_writer s)) (kv_offset e) (entry_bytes le ++ rest)
  /\ kv_total_length e = eh_total_length (le_header le) /\ 63 <= kv_total_length e
  /\ valid_reusable_range (kv_offset e) (kv_total_length e) (wal_start (kv_on_file s)) (aw_current_offset (se_writer s)) = true.
Proof.
  intros E He. pose proof (en_parts _ _ _ E) as P. pose proof (wal_start_ge _ _ _ _ _ P) as [Hws Hpg].
  destruct (co_live _ _ _ _ _ _ (eo_content _ _ _ _ _ P) h e He) as (st & Hc & [(le & Hok & Hk & Hs & Ht & Hb) Hst Hsp]).
  pose proof (entry_ok_total _ Hok) as Htot. rewrite (ok_total _ Hok) in Htot.
  pose proof (zlen_nonneg (le_key le)). pose proof (zlen_nonneg (le_value le)).
  assert (63 <= header_size (le_header le)) by (unfold header_size, FIXED_HEADER_SIZE; destruct (eh_hash_algo (le_header le)); cbn; lia).
  pose proof (ok_offset _ (wo_aw _ (eo_writer _ _ _ _ _ P))) as Hu. unfold is_u64 in Hu.
  destruct (bytes_at_suffix (aw_file (se_writer s)) (kv_offset e) (entry_bytes le)) as [rest Hr]; [lia|done| |].
  { destruct (decide (kv_offset e <= zlen (aw_file (se_writer s)))); [by apply bytes_at_len; [lia|]|].
    exfalso. destruct (lookup_lt_is_Some_2 (entry_bytes le) 0) as [x Hx]; [unfold zlen in *; lia|].
    pose proof (Hb 0 x ltac:(lia) Hx) as Hx'. apply at_Some_lt in Hx'; lia. }
  exists le, rest. rewrite (ok_total _ Hok), Hs. split_and!; try done; [lia|]. apply valid_range_spec; unfold u64_max; lia.
Qed.

Lemma read_entry_ok s m c h e : engine_ok s m c -> live (m !! h) = Some e ->
  exists d, c !! h = Some (summary (kv_entry_type e) d) /\ d.1.2 = h /\ forall b, read_entry s e b = Ok d.
Proof.
  intros E He. pose proof (en_parts _ _ _ E) as P. destruct (live_suffix s m c h e E He) as (le & rest & Hok & Hk & Hc & Hr & _ & _ & Hv).
  exists (le_header le, le_key le, le_value le). split; [done|]. split; [done|]. intros b.
  unfold read_entry, validate_kv_entry_offset. rewrite (writer_bounds _ _ _ _ _ P), Hv, bind_ret. by apply (read_entry_at_shared_ok _ _ _ rest).
Qed.
End EngineSpec.
