(* ===== verification/EngineStore.v ===== *)
(** Storing an entry: the engine's invariant across the free-space loop, the write,
    the index insertion and the notes for a running collection. *)
From S2P Require Import Prelude Codec EntryFormat KvEntry KvPages FileIo HotTail FileHeader VoidManager AppendWriter Converters Nvt StateM KvSnapshot DiskKv DiskKvPages DiskKvSpec DiskKvRefine DiskKvLoad StorageEngine EngineContent EngineWrites EngineSpec.

Local Open Scope Z_scope.

Lemma dk_set_needs_id s : dk_needs_expansion s = None -> dk_set_needs_expansion None s = s.
Proof. destruct s. cbn. by intros ->. Qed.

Section EngineStore.
Context `{Crc32, Blake3, ToScalar, HashOrder}.

(** What a sequence of operations may change of the layout: the log grows by at most
    [n] bytes, the buckets stay. *)
Record grows (n : Z) (s s' : StorageEngine) : Prop := {
  gr_nvt : dk_nvt (se_kv s') = dk_nvt (se_kv s);
  gr_log : aw_current_offset (se_writer s') <= aw_current_offset (se_writer s) + n;
}.

Lemma grows_refl s : grows 0 s s.
Proof. constructor; [done|lia]. Qed.

Lemma grows_trans n k s1 s2 s3 : grows n s1 s2 -> grows k s2 s3 -> grows (n + k) s1 s3.
Proof. intros [] []. constructor; [congruence|lia]. Qed.

(** ** Taking free space *)

(** A span the write may use: in the log, apart from every live entry and from the
    free space. *)
Definition slot_ok (s : StorageEngine) (m : gmap bytes KVEntry) (n : Z) (slot : option (Z * Z)) : Prop :=
  forall o sz, slot = Some (o, sz) -> wal_start (se_kv s) <= o /\ o + n <= aw_current_offset (se_writer s) /\
    (forall h e i, live (m !! h) = Some e -> spans e i -> ~ (o <= i < o + n)) /\
    (forall i, o <= i < o + n -> ~ free (by_offset (se_void_manager s)) i).

Lemma take_void_ok s m c n : engine_ok s m c -> 0 < n ->
  runs (take_void n (wal_start (se_kv s)) (aw_current_offset (se_writer s))) s (fun r s' =>
    exists vm, s' = set_void_manager vm s /\ engine_ok s' m c /\ slot_ok s' m n r.1).
Proof.
  intros [E1 E2 E3 P] Hn. pose proof (wal_start_ge _ _ _ _ _ P) as [Hws Hpg].
  pose proof P as [Hkv Habs Hst Hal Hfi Hwr Hbl Hle Hba Hen Hta Hex Hvm Hsp Hbe Hco].
  pose proof (total_nonneg _ Hvm). unfold take_void. rewrite Z.max_l by lia.
  destruct (find_reusable_spec n (wal_start (se_kv s)) (aw_current_offset (se_writer s))
    (S (Z.to_nat (total_void_space (se_void_manager s) / n))) Hn (se_void_manager s) false Hvm Hsp)
    as (slot & ch & vm & E & [Ro Rs Rf Rl]).
  { pose proof (Z.div_pos (total_void_space (se_void_manager s)) n). pose proof (Z.mul_succ_div_gt (total_void_space (se_void_manager s)) n Hn). lia. }
  exists (slot, ch), (set_void_manager vm s). rewrite E. split; [done|]. exists vm. split; [done|]. split.
  - constructor; try done. constructor; try done.
    + intros i Hi. by apply Hbe, Rf.
    + eapply content_file; [exact Hco|cbn; lia|exact Rf|]. by intros h e i b _ _ _.
  - intros o sz Hs. destruct (Rl o sz Hs) as (Ho & Hsz & Hv & Hb).
    change (wal_start (kv_on_file s)) with (wal_start (se_kv s)) in *.
    apply valid_range_spec in Hv; [|lia|lia]. cbn. split; [lia|]. split; [lia|]. split.
    + intros h e i He Hi Hr. destruct (Hb i Hr) as [Hf _]. by apply (co_free _ _ _ _ _ _ Hco h e i He Hi).
    + intros i Hr. by apply Hb.
Qed.

(** ** Writing the entry *)

Definition stored_as (kt : Z) (t : EntryType) (value : bytes) (fl : byte) (comp : CompressionAlgorithm) (ver : byte) : Stored :=
  {| st_kv_type := kt; st_type := t; st_flags := fl; st_compression := comp; st_version := ver; st_value := value |}.

(** The entry is in the log, apart from every other one and from the free space. *)
Record in_log (s : StorageEngine) (m : gmap bytes KVEntry) (key : bytes) (e : KVEntry) (v : Stored) : Prop := {
  il_live : is_deleted e = false;
  il_hash : kv_hash e = key;
  il_wf : zlen key = 32 -> KVEntry_wf 32 e;
  il_stored : stored (aw_file (se_writer s)) (wal_start (se_kv s)) (aw_current_offset (se_writer s)) key e v;
  il_apart : forall h' e' i, live (m !! h') = Some e' -> h' <> key -> spans e i -> ~ spans e' i;
  il_free : forall i, spans e i -> ~ free (by_offset (se_void_manager s)) i;
}.

(** A writer that took the entry's bytes at [off]: the tail of the index follows. *)
Lemma set_tail_after s m c w : engine_ok s m c ->
  parts_ok (dk_set_hot_tail_offset (aw_current_offset w) (dk_set_file (aw_file w) (kv_on_file s))) w (se_void_manager s) m c ->
  aw_current_offset (se_writer s) <= aw_current_offset w ->
  runs set_tail_to_log_end (set_writer w s) (fun _ s' =>
    exists kv, s' = set_writer w (set_kv kv s) /\ engine_ok s' m c /\ dk_nvt kv = dk_nvt (se_kv s) /\ wal_start kv = wal_start (se_kv s)).
Proof.
  intros [E1 E2 E3 P] P' Hc. unfold set_tail_to_log_end. run. cbn [aw_current_offset se_writer set_writer].
  eapply runs_mono; [apply (runs_on_kv _ _ (fun _ kv => (let k := dk_set_file (aw_file w) (kv_on_file s) in
    if dk_hot_tail_offset k <? aw_current_offset w then dk_set_hot_tail_offset (aw_current_offset w) k else k) = kv));
    unfold set_hot_tail_offset; run; reflexivity|].
  intros [] s' (kv & -> & E). cbv zeta in E.
  assert (Ekv : kv = dk_set_hot_tail_offset (aw_current_offset w) (dk_set_file (aw_file w) (kv_on_file s))).
  { rewrite <- E. case_match eqn:Ht; [done|]. apply Z.ltb_ge in Ht. pose proof (eo_tail _ _ _ _ _ P) as Hta. cbn in Ht, Hta.
    symmetry. change (dk_hot_tail_offset (se_kv s)) with (dk_hot_tail_offset (dk_set_file (aw_file w) (se_kv s))) in Hta.
    replace (aw_current_offset w) with (dk_hot_tail_offset (dk_set_file (aw_file w) (se_kv s))) by (cbn in *; lia).
    apply dk_set_tail_id. }
  exists kv. assert (Es : after_kv (set_writer w s) kv = set_writer w (set_kv kv s)).
  { unfold after_kv. rewrite Ekv. cbn [dk_file dk_set_hot_tail_offset dk_set_file].
    change (se_writer (set_writer w s)) with w. by rewrite with_file_id. }
  rewrite Es. split; [done|]. clear E Es. subst kv. split; [|done]. constructor; done.
Qed.

(** The types the index distinguishes. *)
Definition kv_type_ok (kt : Z) : Prop := 0 <= kt < 16.

Lemma new_entry_type kt key off total : kv_type_ok kt ->
  is_deleted (new_kv_entry kt key off total) = false /\ kv_entry_type (new_kv_entry kt key off total) = kt.
Proof.
  intros Hk. assert (Hb : b2z (z2b kt) = kt) by (rewrite b2z_z2b; apply Z.mod_small; unfold kv_type_ok in Hk; lia).
  unfold is_deleted, kv_entry_type, new_kv_entry. cbn [kv_type_flags]. rewrite Hb. unfold KV_FLAG_DELETED.
  assert (kt ∈ seqZ 0 16) as Hin by (apply elem_of_seqZ; unfold kv_type_ok in Hk; lia).
  clear -Hin. revert kt Hin. apply Forall_forall. repeat constructor.
Qed.

Lemma entry_kv_type t : kv_type_ok (to_kv_type t).
Proof. by destruct t. Qed.

(** The log of [s] is still there in [s']. *)
Record log_extended (s s' : StorageEngine) : Prop := {
  le_start : wal_start (se_kv s') = wal_start (se_kv s);
  le_stop : aw_current_offset (se_writer s) <= aw_current_offset (se_writer s');
  le_voids : se_void_manager s' = se_void_manager s;
  le_bytes : forall i b, wal_start (se_kv s) <= i < aw_current_offset (se_writer s) ->
    at_ (aw_file (se_writer s)) i = Some b -> at_ (aw_file (se_writer s')) i = Some b;
}.

Lemma in_log_extended s s' m key e v : log_extended s s' -> in_log s m key e v -> in_log s' m key e v.
Proof.
  intros [Lw Lc Lv Lb] [? ? ? [(le & ? & ? & ? & Ht & Hb) Hst Hsp] ? Hf]. constructor; try done; [|by rewrite Lv].
  rewrite Lw. split; [|done|lia]. exists le. split_and!; try done. eapply bytes_at_ext; [|exact Hb].
  intros i b Hi. apply Lb. lia.
Qed.

Lemma place_ok s m c now t kt key value fl comp ver slot : engine_ok s m c -> is_i64 now -> small key value ->
  kv_type_ok kt ->
  slot_ok s m (entry_size key value) slot -> aw_current_offset (se_writer s) + entry_size key value < 2^64 ->
  runs (p ← place_entry now t key value fl comp ver slot; set_tail_to_log_end ;; mret p) s
    (fun r s' => engine_ok s' m c /\ grows (entry_size key value) s s'
       /\ in_log s' m key (new_kv_entry kt key r.1 r.2) (stored_as kt t value fl comp ver)
       /\ (slot = None -> r = (aw_current_offset (se_writer s), entry_size key value) /\ log_extended s s'
             /\ aw_current_offset (se_writer s') = aw_current_offset (se_writer s) + entry_size key value)).
Proof.
  intros E Hn Hkv Hdel Hslot Hroom. pose proof E as [E1 E2 E3 P]. pose proof (wal_start_ge _ _ _ _ _ P) as [Hws Hpg].
  pose proof P as [Hkv' Habs Hst Hal Hfi Hwr Hbl Hle Hba Hen Hta Hex Hvm Hsp Hbe Hco].
  destruct (entry_of_ok now (se_writer s) t key value fl comp ver (wo_aw _ Hwr) Hn Hkv) as [Hok Hz].
  destruct (entry_size_ok key value Hkv) as [_ Hsz].
  pose proof (ok_offset _ (wo_aw _ Hwr)) as Hu. unfold is_u64 in Hu. change (wal_start (kv_on_file s)) with (wal_start (se_kv s)) in *.
  set (le := entry_of now (se_writer s) t key value fl comp ver) in *.
  assert (Hmain : exists off w, runs (place_entry now t key value fl comp ver slot) s
      (fun r s' => r = (off, entry_size key value) /\ s' = set_writer w s)
    /\ aw_file w = file_write (aw_file (se_writer s)) off (entry_bytes le) /\ writer_ok w /\ same_layout (se_writer s) w
    /\ aw_current_offset (se_writer s) <= aw_current_offset w <= aw_current_offset (se_writer s) + entry_size key value
    /\ wal_start (se_kv s) <= off /\ off + entry_size key value <= aw_current_offset w
    /\ (forall h e i, live (m !! h) = Some e -> spans e i -> ~ (off <= i < off + entry_size key value))
    /\ (forall i, off <= i < off + entry_size key value -> ~ free (by_offset (se_void_manager s)) i)
    /\ (slot = None -> off = aw_current_offset (se_writer s) /\ aw_current_offset w = aw_current_offset (se_writer s) + entry_size key value)).
  { destruct slot as [[o sz]|]; cbn [place_entry].
    - destruct (Hslot o sz eq_refl) as (Ho & Hoc & Hl & Hf).
      destruct (write_at_result now (se_writer s) o t key value fl comp ver Hwr Hn Hkv) as (w & Ew & Fw & Cw & Ww & Lw); [lia|].
      exists o, w. split; [|split_and!; try done; lia]. run. exists (entry_size key value), (set_writer w s).
      split; [unfold on_writer; by rewrite Ew|]. by run.
    - destruct (append_result now (se_writer s) t key value fl comp ver Hwr Hn Hkv Hroom) as (w & Ew & Fw & Cw & Ww & Lw).
      exists (aw_current_offset (se_writer s)), w. split; [|split_and!; try done; [lia..| | ]].
      + exists (aw_current_offset (se_writer s), entry_size key value), (set_writer w s).
        split; [unfold on_writer; by rewrite Ew|done].
      + intros h e i He Hi Hr. destruct (co_live _ _ _ _ _ _ Hco h e He) as (v & _ & [_ _ Hstop]). unfold spans in Hi. lia.
      + intros i Hi Hf. apply Hbe in Hf. lia. }
  destruct Hmain as (off & w & Hrun & Fw & Ww & Lw & Cw & Ho & Hoc & Hl & Hf & Hnone).
  run. eapply runs_mono; [exact Hrun|]. intros r s' [-> ->]. cbv beta iota. run.
  eapply runs_mono; [apply (set_tail_after s m c w E)|].
  - eapply parts_write; [exact P|done|done|exact Fw|lia|right; exact Ho|lia|]. by rewrite Hz.
  - lia.
  - intros [] s' (kv & -> & E' & Hnvt & Hwal). run. split; [done|]. split; [constructor; cbn; [done|lia]|]. cbn [fst snd].
    split; [|intros Hs; destruct (Hnone Hs) as [-> Hc]; split; [done|]; split; [|exact Hc]; constructor; cbn; try done; [lia|];
      intros i b Hi Hb; rewrite Fw; apply at_file_write_out; [lia|lia|lia|done]].
    constructor.
    + by apply new_entry_type.
    + done.
    + intros Hk. constructor; cbn; [done|..]; unfold is_u64, is_u32; pose proof (wo_aw _ Ww) as [_ _ Hu']; unfold is_u64 in Hu'; lia.
    + cbn. rewrite Hwal. split; [|cbn; lia..]. exists le. destruct (new_entry_type kt key off (entry_size key value) Hdel) as [_ Hkt]. split_and!; try done.
      * by rewrite Hkt.
      * rewrite Fw. cbn. apply bytes_at_write. lia.
    + intros h' e' i He' _ Hi Hi'. apply (Hl h' e' i He' Hi'). exact Hi.
    + intros i Hi. apply Hf. exact Hi.
Qed.

(** ** Indexing it *)

Lemma after_kv_extended s m c kv m' c' : engine_ok s m c -> refines_to (kv_on_file s) m' kv -> engine_ok (after_kv s kv) m' c' ->
  log_extended s (after_kv s kv).
Proof.
  intros E (_ & [Fo Fl Ft Fe Fs Fa Fc Flog] & _) E'. pose proof (en_parts _ _ _ E) as P. pose proof (wal_start_ge _ _ _ _ _ P) as [Hws Hpg].
  constructor; try done; cbn.
  - unfold wal_start. cbn in Fo, Fl. congruence.
  - intros i b Hi Hb. pose proof (eo_tail _ _ _ _ _ P) as Ht. change (wal_start (kv_on_file s)) with (wal_start (se_kv s)) in Hws.
    apply Flog; [lia|lia|done].
Qed.

Lemma index_insert_ok s m c key e v : engine_ok s m c -> in_log s m key e v -> zlen key = 32 ->
  keys_fit (dk_nvt (se_kv s)) (dom m ∪ {[key]}) ->
  runs (on_kv (dk_insert e)) s (fun _ s' => exists kv, s' = after_kv s kv /\ dk_nvt kv = dk_nvt (se_kv s)
    /\ engine_ok s' (<[key := e]> m) (<[key := v]> c) /\ log_extended s s').
Proof.
  intros E [Idel Ih Iw Is Ia If] Hk Hfit. pose proof (en_parts _ _ _ E) as P.
  eapply runs_mono; [eapply (engine_kv _ s m c (<[key := e]> m) (<[key := v]> c) (fun _ kv => refines_to (kv_on_file s) (<[key := e]> m) kv) E)|].
  - eapply runs_mono; [apply (insert_no_expansion _ m e); [apply P|apply P|apply P|..]|].
    + unfold dk_hl. rewrite (eo_algo _ _ _ _ _ P). by apply Iw.
    + apply keys_fit_buckets. rewrite dom_insert_L, Ih. eapply keys_fit_mono; [|exact Hfit]. set_solver.
    + intros [] kv (Hr & Hn & Ht & He). rewrite Ih in Hr. done.
  - intros file Hc Hlog. apply content_insert; [done|done| |done|done].
    destruct Is as [(le & Hok & Hle & Hs & Ht & Hb) H1' H2']. constructor; [|done..]. exists le. split_and!; try done.
    eapply bytes_at_ext; [|exact Hb]. intros i b Hi. apply Hlog. lia.
  - intros [] s' (kv & -> & E' & Hn & Hr). exists kv. split_and!; try done. by eapply after_kv_extended.
Qed.

Lemma pending_voids_ok s m c voids : engine_ok s m c ->
  runs (on_kv (set_pending_voids voids)) s (fun _ s' => engine_ok s' m c /\ grows 0 s s').
Proof.
  intros E. pose proof (en_parts _ _ _ E) as P.
  eapply runs_mono; [eapply (engine_kv _ s m c m c (fun _ _ => True) E)|].
  - unfold set_pending_voids. run. split; [|done]. split; [|done]. exact (voids_refines _ m _ (eo_kv _ _ _ _ _ P) (eo_abs _ _ _ _ _ P)).
  - done.
  - intros [] s' (kv & -> & E' & Hn & _). split; [done|]. constructor; [done|cbn; lia].
Qed.

Lemma no_expansion_pending s m c now : engine_ok s m c ->
  runs (expand_if_pending now) s (fun _ s' => engine_ok s' m c /\ grows 0 s s').
Proof.
  intros [E1 E2 E3 P]. unfold expand_if_pending. run. pose proof (eo_expansion _ _ _ _ _ P) as Hx. cbn in Hx. rewrite Hx. run.
  split; [|constructor; [done|cbn; lia]]. constructor; try done.
  change (kv_on_file _) with (dk_set_needs_expansion None (kv_on_file s)). by rewrite dk_set_needs_id.
Qed.

Lemma no_expansion_writer s m c now : engine_ok s m c -> runs (expand_if_pending now) s (fun _ s' => se_writer s' = se_writer s).
Proof. intros [E1 E2 E3 P]. unfold expand_if_pending. run. pose proof (eo_expansion _ _ _ _ _ P) as Hx. cbn in Hx. rewrite Hx. by run. Qed.

Lemma gc_recheck_ok s m c g : engine_ok s m c -> engine_ok (set_gc_recheck g s) m c.
Proof. intros []. by constructor. Qed.

(** ** The whole operation *)

Lemma store_ok s m c now t key value fl comp ver : engine_ok s m c ->
  is_i64 now -> small key value -> zlen key = 32 -> aw_current_offset (se_writer s) + entry_size key value < 2^64 ->
  keys_fit (dk_nvt (se_kv s)) (dom m ∪ {[key]}) ->
  runs (store_entry_internal now t key value fl comp ver) s (fun _ s' => exists e,
    engine_ok s' (<[key := e]> m) (<[key := stored_as (to_kv_type t) t value fl comp ver]> c) /\ grows (entry_size key value) s s').
Proof.
  intros E Hn Hkv Hk Hroom Hfit. unfold store_entry_internal. apply (runs_guard s m c); [done|]. run.
  destruct (entry_size_ok key value Hkv) as [Et Hsz]. rewrite (en_algo _ _ _ E). eapply runs_lift; [exact Et|].
  pose proof (en_parts _ _ _ E) as P. rewrite (writer_bounds _ _ _ _ _ P).
  change (wal_start (kv_on_file s)) with (wal_start (se_kv s)). cbv beta iota. run.
  eapply runs_mono.
  { instantiate (1 := fun r s1 => engine_ok s1 m c /\ grows 0 s s1 /\ aw_current_offset (se_writer s1) = aw_current_offset (se_writer s)
      /\ slot_ok s1 m (entry_size key value) r.1).
    case_match; [eapply runs_mono; [apply take_void_ok; [done|lia]|]|run; split; [done|]; split; [apply grows_refl|done]].
    intros [slot ch] s1 (vm & -> & E1 & Hs). split; [done|]. split; [constructor; [done|cbn; lia]|done]. }
  intros [slot ch] s1 (E1 & G1 & C1 & Hs). cbv beta iota. cbn [fst] in Hs.
  pose proof (place_ok s1 m c now t (to_kv_type t) key value fl comp ver slot E1 Hn Hkv (entry_kv_type t) Hs ltac:(lia)) as Hpl.
  run. eapply runs_mono; [exact (runs_bind_inv _ _ _ _ Hpl)|].
  intros [off total] s1' Hp. cbv beta iota. run. eapply runs_mono; [exact (runs_bind_inv _ _ _ _ Hp)|].
  intros [] s2 (E2 & G2 & Il & _)%runs_ret_inv. cbn [fst snd] in Il. run.
  eapply runs_mono; [eapply (index_insert_ok s2 m c key); [done|exact Il|done|]|].
  { rewrite (gr_nvt _ _ _ G2), (gr_nvt _ _ _ G1). done. }
  intros [] s3 (kv & -> & Hnv & E3 & _). cbv beta. set (s3 := after_kv s2 kv) in *.
  assert (G3 : grows (entry_size key value) s s3).
  { destruct G1 as [N1 L1], G2 as [N2 L2]. constructor; cbn in *; [congruence|lia]. }
  run. eapply runs_mono.
  { instantiate (1 := fun _ s4 => engine_ok s4 (<[key := new_kv_entry (to_kv_type t) key off total]> m) (<[key := stored_as (to_kv_type t) t value fl comp ver]> c)
      /\ grows 0 s3 s4).
    case_match; [run; by apply pending_voids_ok|run; split; [done|apply grows_refl]]. }
  intros [] s4 [E4 G4]. cbv beta. run. eapply runs_mono; [by apply no_expansion_pending|].
  intros [] s5 [E5 G5]. cbv beta. unfold record_gc_recheck. run. eexists. split; [apply gc_recheck_ok, E5|].
  destruct G3, G4, G5. constructor; cbn in *; [congruence|lia].
Qed.
End EngineStore.
