(* ===== verification/EngineOps.v ===== *)
(** The engine's other operations against its invariant: deletions, the head and
    transactions, flushes of the hot tail, reclaimed space. *)
From S2P Require Import Prelude Codec EntryFormat Records KvEntry KvPages FileIo HotTail FileHeader VoidManager AppendWriter Converters Nvt StateM KvSnapshot DiskKv DiskKvPages DiskKvSpec DiskKvRefine DiskKvLoad StorageEngine EngineContent EngineWrites EngineSpec EngineStore.

Local Open Scope Z_scope.

Section EngineOps.
Context `{Crc32, Blake3, ToScalar, HashOrder}.

(** ** Index operations that leave the hot tail and the expansion request alone *)

Definition tail_state (s : DiskKVStore) : Z * option Z := (dk_hot_tail_offset s, dk_needs_expansion s).

Lemma tail_state_untouched : untouched tail_state.
Proof. by split. Qed.

Lemma engine_index {A} (k : M DiskKVStore A) s m c m' c' (Q : A -> Prop) : engine_ok s m c -> preserves tail_state k ->
  runs k (kv_on_file s) (fun a kv => refines_to (kv_on_file s) m' kv /\ Q a) ->
  (forall file start stop voids, content_ok file start stop voids m c -> content_ok file start stop voids m' c') ->
  runs (on_kv k) s (fun a s' => engine_ok s' m' c' /\ grows 0 s s' /\ Q a).
Proof.
  intros E Hp Hk Hc. eapply runs_mono; [apply (engine_kv k s m c m' c' (fun a _ => Q a) E)|].
  - eapply runs_mono; [apply (runs_preserves tail_state); [exact Hp|exact Hk]|].
    intros a kv [[Hr HQ] [= Ht He]]. done.
  - intros file Hf _. by apply Hc.
  - intros a s' (kv & -> & E' & Hn & HQ). split; [done|]. split; [constructor; [done|cbn; lia]|done].
Qed.

(** ** Deletion *)

Lemma deleted_or_flags e : is_deleted (or_flags KV_FLAG_DELETED e) = true.
Proof. destruct e as [f ? ? ?]. by destruct f. Qed.

Lemma deleted_with_flags e : is_deleted (with_flags KV_FLAG_DELETED e) = true.
Proof. destruct e as [f ? ? ?]. by destruct f. Qed.

Lemma content_tombstone f file start stop voids m c h : (forall e, is_deleted (f e) = true) ->
  content_ok file start stop voids m c -> content_ok file start stop voids (map_update f h m) (delete h c).
Proof.
  intros Hf Hc. apply (content_delete _ _ _ _ m); [done|..]; unfold map_update; destruct (live (m !! h)) as [e|] eqn:El.
  - rewrite lookup_insert_eq. unfold live. by rewrite Hf.
  - done.
  - intros k Hk. by rewrite lookup_insert_ne.
  - done.
Qed.

Lemma content_tombstones f file start stop voids hs : (forall e, is_deleted (f e) = true) -> forall m c,
  content_ok file start stop voids m c ->
  content_ok file start stop voids (foldl (fun m h => map_update f h m) m hs) (foldl (fun c h => delete h c) c hs).
Proof.
  intros Hf. induction hs as [|h hs IH]; intros m c Hc; [done|]. cbn [foldl]. by apply IH, content_tombstone.
Qed.

Lemma dom_map_update f h m : dom (map_update f h m) = dom m.
Proof.
  unfold map_update. destruct (live (m !! h)) as [e|] eqn:E; [|done]. rewrite dom_insert_L.
  apply live_Some in E. assert (h ∈ dom m) by (by apply elem_of_dom). set_solver.
Qed.

Lemma dom_map_updates f hs m : dom (foldl (fun m h => map_update f h m) m hs) = dom m.
Proof. revert m. induction hs as [|h hs IH]; intros m; [done|]. cbn [foldl]. by rewrite IH, dom_map_update. Qed.

Lemma remove_entry_ok s m c h : engine_ok s m c ->
  runs (remove_kv_entry h) s (fun _ s' => engine_ok s' (map_update (or_flags KV_FLAG_DELETED) h m) (delete h c) /\ grows 0 s s').
Proof.
  intros E. unfold remove_kv_entry. apply (runs_guard s m c); [done|]. pose proof (en_parts _ _ _ E) as P.
  eapply runs_mono; [eapply (engine_index _ s m c _ _ (fun _ => True) E)|].
  - unfold mark_deleted, put_buffer, dec_entry_count. pose proof (publish_buffer_preserves _ tail_state_untouched). preserves.
  - eapply runs_mono; [apply mark_deleted_refines; apply P|]. intros [] kv Hr. split; [exact Hr|done].
  - intros *. apply content_tombstone, deleted_or_flags.
  - by intros [] s' (? & ? & _).
Qed.

Lemma remove_batch_ok s m c hs : engine_ok s m c ->
  runs (remove_kv_entries_batch hs) s (fun _ s' =>
    engine_ok s' (foldl (fun m h => map_update (or_flags KV_FLAG_DELETED) h m) m hs) (foldl (fun c h => delete h c) c hs) /\ grows 0 s s').
Proof.
  intros E. unfold remove_kv_entries_batch. apply (runs_guard s m c); [done|]. pose proof (en_parts _ _ _ E) as P.
  eapply runs_mono; [eapply (engine_index _ s m c _ _ (fun _ => True) E)|].
  - unfold mark_deleted_batch. pose proof (publish_buffer_preserves _ tail_state_untouched). preserves.
    apply preserves_for_each. intros h. unfold mark_one, put_buffer, dec_entry_count. preserves.
  - eapply runs_mono; [apply mark_deleted_batch_refines; apply P|]. intros [] kv Hr. split; [exact Hr|done].
  - intros *. apply content_tombstones, deleted_or_flags.
  - by intros [] s' (? & ? & _).
Qed.

(** Marking an entry fails exactly when there is none. *)
Lemma mark_ok s m c h : engine_ok s m c -> exists r s',
  mark_entry_deleted h s = Some (r, s') /\ engine_ok s' (map_update (with_flags KV_FLAG_DELETED) h m) (delete h c) /\ grows 0 s s'
  /\ r = match c !! h with Some _ => Ok tt | None => Err (NotFound "Entry not found for hash: {}") end.
Proof.
  intros E. pose proof (en_parts _ _ _ E) as P.
  assert (Hr : runs (on_kv (dk_update_flags h KV_FLAG_DELETED)) s (fun found s' =>
    engine_ok s' (map_update (with_flags KV_FLAG_DELETED) h m) (delete h c) /\ grows 0 s s' /\ found = bool_decide (is_Some (live (m !! h))))).
  { eapply (engine_index _ s m c _ _ _ E).
    - unfold dk_update_flags, put_buffer. pose proof (publish_buffer_preserves _ tail_state_untouched). preserves.
    - eapply runs_mono; [apply update_flags_refines; apply P|]. intros found kv [Hf Hk]. split; [exact Hk|exact Hf].
    - intros *. apply content_tombstone, deleted_with_flags. }
  destruct Hr as (found & s' & Ek & E' & G & Hf). exists (if found then Ok tt else Err (NotFound "Entry not found for hash: {}")), s'.
  split; [|split; [done|split; [done|]]].
  - unfold mark_entry_deleted, operation_guard, ensure_writable, gets, mbind, M_bind, id, mret, M_ret, lift.
    rewrite (en_running _ _ _ E), (en_durable _ _ _ E), Ek. by destruct found.
  - rewrite Hf. pose proof (eo_content _ _ _ _ _ P) as Hc. destruct (live (m !! h)) as [e|] eqn:El.
    + destruct (co_live _ _ _ _ _ _ Hc h e El) as (v & -> & _). done.
    + by rewrite (co_dead _ _ _ _ _ _ Hc h El).
Qed.

(** ** The header *)

Lemma parts_header kv w vm m c w' : parts_ok kv w vm m c -> writer_ok w' -> same_layout w w' ->
  aw_file w' = aw_file w -> aw_current_offset w' = aw_current_offset w -> parts_ok kv w' vm m c.
Proof.
  intros P Hw [La Lo Ll] Hf Hc. destruct P as [Hkv Habs Hst Hal Hfi Hwr Hbl Hle Hba Hen Hta Hex Hvm Hsp Hbe Hco].
  constructor; try done; try congruence; try (intros i Hi%Hbe; lia).
Qed.

(** A header that keeps the layout is written, to the slot that is not active. *)
Lemma header_write_ok s m c h : engine_ok s m c ->
  header_hashes h -> is_i64 (fh_updated_at h) -> fh_hash_algo h = Blake3_256 ->
  fh_kv_block_offset h = fh_kv_block_offset (aw_file_header (se_writer s)) ->
  fh_kv_block_length h = fh_kv_block_length (aw_file_header (se_writer s)) ->
  runs (on_writer (fun w => with_unit (update_header w h))) s (fun _ s' => engine_ok s' m c /\ grows 0 s s' /\
    fh_head_hash (aw_file_header (se_writer s')) = fh_head_hash h) /\
  on_writer (fun w => with_unit (update_file_header w h)) s = on_writer (fun w => with_unit (update_header w h)) s.
Proof.
  intros [E1 E2 E3 P] Hh Hu Ha Ho Hl. pose proof (wal_start_ge _ _ _ _ _ P) as [Hws Hpg].
  destruct (header_result (se_writer s) h (eo_writer _ _ _ _ _ P) Hh Ha Hu)
    as (bs & w & Eu & Ef & Fw & Hslot & Hend & Cw & Ww & Bo & Bl & Hhead).
  unfold on_writer, with_unit. rewrite Eu, Ef, bind_ret. split; [|done].
  exists tt, (set_writer w s). unfold on_writer. rewrite Eu, bind_ret. split; [done|].
  split; [|split; [constructor; [done|cbn; lia]|exact Hhead]]. constructor; [exact E1|exact E2|exact E3|].
  change (kv_on_file (set_writer w s)) with (dk_set_file (aw_file w) (kv_on_file s)).
  eapply parts_write_same; [exact P|done| |exact Fw|done|by left|done|].
  - change (se_writer (set_writer w s)) with w. constructor; [|congruence..]. rewrite (ok_algo _ (wo_aw _ Ww)). symmetry. apply (ok_algo _ (wo_aw _ (eo_writer _ _ _ _ _ P))).
  - intros k e i He Hi Hr. destruct (co_live _ _ _ _ _ _ (eo_content _ _ _ _ _ P) k e He) as (v & _ & [_ Hst _]).
    pose proof (eo_base _ _ _ _ _ P). unfold spans, wal_start in *. lia.
Qed.

Lemma publish_head_ok s m c now head : engine_ok s m c -> is_i64 now -> zlen head = 32 ->
  runs (publish_head now head) s (fun _ s' => engine_ok s' m c /\ grows 0 s s' /\ fh_head_hash (aw_file_header (se_writer s')) = head).
Proof.
  intros E Hn Hh. pose proof (en_parts _ _ _ E) as P. pose proof (eo_writer _ _ _ _ _ P) as [[Wa Wu Wo] [W1 W2 W3] Ws].
  rewrite Wa in *. unfold publish_head. run. set (hd := with_head _ _ _ _).
  assert (Hhh : header_hashes hd) by (constructor; cbn; by rewrite Wa).
  case_match.
  - run. split; [|split; [constructor; [done|cbn; lia]|done]]. destruct E as [E1 E2 E3 _]. constructor; [exact E1|exact E2|exact E3|].
    eapply parts_header; [exact P| |by constructor|done|done].
    constructor; [constructor; cbn; [done|by apply is_i64_max|done]|destruct Hhh; by constructor|done].
  - destruct (header_write_ok s m c hd E Hhh Hn Wa eq_refl eq_refl) as [Hr Heq]. run.
    apply (runs_eq _ _ _ _ Heq). eapply runs_mono; [exact Hr|]. intros [] s' (E' & G & Hhd). run.
    destruct E' as [? ? ? ?], G as [? ?]. split; [by constructor|]. split; [by constructor|exact Hhd].
Qed.

Lemma update_head_ok s m c now head : engine_ok s m c -> is_i64 now -> zlen head = 32 ->
  runs (update_head now head) s (fun _ s' => engine_ok s' m c /\ grows 0 s s' /\ head_hash s' = Ok head).
Proof.
  intros E Hn Hh. unfold update_head. apply (runs_guard s m c); [done|].
  eapply runs_mono; [by apply publish_head_ok|]. intros [] s' (E' & G & Hhd). split; [done|]. split; [done|].
  unfold head_hash, guarded. by rewrite (en_running _ _ _ E'), Hhd.
Qed.

Lemma runs_or_durability {A} context (k : M StorageEngine A) s Q : runs k s Q -> runs (or_durability_failure context k) s Q.
Proof. intros (a & s' & E & HQ). exists a, s'. unfold or_durability_failure. by rewrite E. Qed.

Lemma publish_tail_ok context s m c : engine_ok s m c ->
  runs (publish_tail context) s (fun _ s' => engine_ok s' m c /\ grows 0 s s').
Proof.
  intros E. pose proof (en_parts _ _ _ E) as P. pose proof (eo_writer _ _ _ _ _ P) as [[Wa Wu Wo] [W1 W2 W3] Ws].
  unfold publish_tail. run. apply runs_or_durability.
  set (hd := with_tail_and_count (aw_file_header (se_writer s)) (dk_hot_tail_offset (se_kv s)) (dk_entry_count (se_kv s))).
  destruct (header_write_ok s m c hd E) as [Hr _]; [by constructor|done|done|done|done|].
  assert (Heq : on_writer (fun w => with_unit (update_header w
      (with_tail_and_count (aw_file_header w) (dk_hot_tail_offset (se_kv s)) (dk_entry_count (se_kv s))))) s
    = on_writer (fun w => with_unit (update_header w hd)) s) by (unfold on_writer, hd; reflexivity).
  apply (runs_eq _ _ _ _ Heq). eapply runs_mono; [exact Hr|]. intros [] s' ([? ? ? ?] & [? ?] & _). run.
  split; by constructor.
Qed.

(** ** The hot tail *)

Lemma force_flush_ok s m c : engine_ok s m c ->
  runs (on_kv force_flush_hot_buffer) s (fun _ s' => engine_ok s' m c /\ grows 0 s s').
Proof.
  intros E. pose proof (en_parts _ _ _ E) as P.
  eapply runs_mono; [eapply (engine_index _ s m c m c (fun _ => True) E)|].
  - unfold force_flush_hot_buffer. pose proof (fun w => persist_preserves _ w tail_state_untouched). preserves.
  - eapply runs_mono; [apply (run_cmd_refines _ m CForceFlushHot); [apply P..|done]|]. intros [] kv Hr. split; [exact Hr|done].
  - done.
  - by intros [] s' (? & ? & _).
Qed.

Lemma flush_hot_ok s m c : engine_ok s m c ->
  runs (on_kv flush_hot_buffer) s (fun _ s' => engine_ok s' m c /\ grows 0 s s').
Proof.
  intros E. pose proof (en_parts _ _ _ E) as P.
  eapply runs_mono; [eapply (engine_index _ s m c m c (fun _ => True) E)|].
  - apply flush_hot_preserves, tail_state_untouched.
  - eapply runs_mono; [apply (run_cmd_refines _ m CFlushHot); [apply P..|done]|]. intros [] kv Hr. split; [exact Hr|done].
  - done.
  - by intros [] s' (? & ? & _).
Qed.

Lemma depth_ok s m c d : engine_ok s m c -> engine_ok (set_kv (dk_set_transaction_depth d (se_kv s)) s) m c.
Proof.
  intros [E1 E2 E3 [[[Hb Hsn] Hp] Habs Hst Hal Hfi Hwr Hbl Hle Hba Hen Hta Hex Hvm Hsp Hbe Hco]]. constructor; try done.
  constructor; try done. split; [constructor|done]; [by rebase Hb|].
  eapply snap_of_layout; [..|exact Hsn]; done.
Qed.

Lemma begin_transaction_ok s m c : engine_ok s m c -> runs begin_transaction s (fun _ s' => engine_ok s' m c /\ grows 0 s s').
Proof. intros E. unfold begin_transaction. run. split; [by apply depth_ok|]. constructor; [done|cbn; lia]. Qed.

Lemma grows_step s1 s2 s3 : grows 0 s1 s2 -> grows 0 s2 s3 -> grows 0 s1 s3.
Proof. apply (grows_trans 0 0). Qed.

Lemma end_ok s m c : engine_ok s m c -> runs end_transaction s (fun _ s' => engine_ok s' m c /\ grows 0 s s').
Proof.
  intros E. unfold end_transaction. run. set (s1 := set_kv _ s).
  assert (E1 : engine_ok s1 m c) by (by apply depth_ok). assert (G1 : grows 0 s s1) by (constructor; [done|cbn; lia]).
  case_match; [by run|]. run. apply runs_or_durability. eapply runs_mono; [by apply force_flush_ok|].
  intros [] s2 [E2 G2]. eapply runs_mono; [by apply publish_tail_ok|]. intros [] s3 [E3 G3]. split; [done|].
  eapply grows_step; [exact G1|]. by eapply grows_step.
Qed.

Lemma force_tail_ok s m c : engine_ok s m c -> runs force_hot_tail_flush s (fun _ s' => engine_ok s' m c /\ grows 0 s s').
Proof.
  intros E. unfold force_hot_tail_flush, ensure_writable. run. rewrite (en_durable _ _ _ E). run.
  apply runs_or_durability. eapply runs_mono; [by apply force_flush_ok|]. intros [] s1 [E1 G1]. run. case_match; [by run|].
  eapply runs_mono; [by apply publish_tail_ok|]. intros [] s2 [E2 G2]. split; [done|]. by eapply grows_step.
Qed.

Lemma timer_ok s m c : engine_ok s m c -> runs try_flush_hot_buffer s (fun _ s' => engine_ok s' m c /\ grows 0 s s').
Proof.
  intros E. unfold try_flush_hot_buffer. run. rewrite (en_durable _ _ _ E). cbn [bool_decide decide_rel]. 
  rewrite bool_decide_eq_false_2 by (by intros []). case_bool_decide; [run; split; [done|apply grows_refl]|].
  apply runs_ignore_err. run. apply runs_or_durability. eapply runs_mono; [by apply flush_hot_ok|].
  intros [] s1 [E1 G1]. run. case_match; [|by run].
  eapply runs_mono; [by apply publish_tail_ok|]. intros [] s2 [E2 G2]. split; [done|]. by eapply grows_step.
Qed.
End EngineOps.
