(* ===== verification/EngineBatch.v ===== *)
(** Batches and reclaimed space against the engine's invariant. *)
From S2P Require Import Prelude Codec EntryFormat Records KvEntry KvPages FileIo HotTail FileHeader VoidManager AppendWriter Converters Nvt StateM BTree KvSnapshot DiskKv DiskKvPages DiskKvSpec DiskKvRefine DiskKvLoad StorageEngine EngineContent EngineWrites EngineSpec EngineStore EngineOps.

Local Open Scope Z_scope.

Section EngineBatch.
Context `{Crc32, Blake3, ToScalar, HashOrder}.

(** ** Batches *)

(** An entry of a batch the engine accepts. *)
Record batch_entry_ok (be : BatchEntry) : Prop := {
  bo_small : small (be_key be) (be_value be);
  bo_key : zlen (be_key be) = 32;
  bo_type : kv_type_ok (be_kv_type be);
}.

Definition batch_stored (be : BatchEntry) : Stored := stored_as (be_kv_type be) (be_entry_type be) (be_value be) (z2b 0) NoCompression CURRENT_ENTRY_VERSION.
Definition batch_size (l : list BatchEntry) : Z := foldr (fun be n => entry_size (be_key be) (be_value be) + n) 0 l.
Definition batch_index (be : BatchEntry) (p : Z * Z) : KVEntry := new_kv_entry (be_kv_type be) (be_key be) p.1 p.2.

(** Entries written but not indexed: in the log, in order, from [lo] on. *)
Fixpoint written (s : StorageEngine) (m : gmap bytes KVEntry) (lo : Z) (l : list (BatchEntry * (Z * Z))) : Prop :=
  match l with
  | [] => True
  | (be, p) :: l => in_log s m (be_key be) (batch_index be p) (batch_stored be) /\ lo <= p.1 /\ written s m (p.1 + p.2) l
  end.

Lemma written_extended s s' m l : log_extended s s' -> forall lo, written s m lo l -> written s' m lo l.
Proof.
  intros Hl. induction l as [|[be p] l IH]; intros lo; cbn [written]; [done|]. intros (Hi & Hp & Hw).
  split; [by eapply in_log_extended|]. split; [done|by apply IH].
Qed.

Lemma written_after s m lo l be p : written s m lo l -> (be, p) ∈ l -> lo <= p.1.
Proof.
  revert lo. induction l as [|[be' p'] l IH]; intros lo; cbn [written]; [by intros _ ?%not_elem_of_nil|].
  intros (Hi & Hp & Hw) [[= -> ->]|Hin]%elem_of_cons; [done|]. specialize (IH _ Hw Hin).
  destruct Hi as [_ _ _ [(le & Hok & _ & _ & Ht & _) _ _] _ _]. cbn in Ht. pose proof (zlen_nonneg (entry_bytes le)). lia.
Qed.

Lemma log_extended_refl s : log_extended s s.
Proof. by constructor. Qed.

Lemma log_extended_trans s1 s2 s3 : log_extended s1 s2 -> log_extended s2 s3 -> log_extended s1 s3.
Proof.
  intros [A1 A2 A3 A4] [B1 B2 B3 B4]. constructor; [congruence|lia|congruence|]. intros i b Hi Hb. apply B4; [rewrite A1; lia|]. by apply A4.
Qed.

Lemma append_batch_ok now l : is_i64 now -> Forall batch_entry_ok l -> forall s m c, engine_ok s m c ->
  aw_current_offset (se_writer s) + batch_size l < 2^64 ->
  runs (append_batch now l) s (fun placed s' => engine_ok s' m c /\ grows (batch_size l) s s' /\ log_extended s s' /\
    length placed = length l /\ written s' m (aw_current_offset (se_writer s)) (zip l placed)).
Proof.
  intros Hn Hl. induction Hl as [|be l [Hs Hk Ht] Hl IH]; intros s m c E Hroom; cbn [append_batch].
  { run. split; [done|]. split; [apply grows_refl|]. split; [apply log_extended_refl|done]. }
  cbn [batch_size foldr] in *. fold (batch_size l) in *.
  assert (0 <= batch_size l).
  { clear -Hl. induction Hl as [|x l [Hx _ _] _ IH]; [done|]. cbn. destruct (entry_size_ok _ _ Hx) as [_ ?]. fold (batch_size l). lia. }
  destruct (entry_size_ok _ _ Hs) as [_ Hsz].
  pose proof (place_ok s m c now (be_entry_type be) (be_kv_type be) (be_key be) (be_value be) (z2b 0) NoCompression CURRENT_ENTRY_VERSION None
    E Hn Hs Ht ltac:(done) ltac:(lia)) as Hp.
  run. eapply runs_mono; [exact (runs_bind_inv _ _ _ _ Hp)|]. intros placed s0 Hp'. run.
  eapply runs_mono; [exact (runs_bind_inv _ _ _ _ Hp')|]. intros [] s1 (E1 & G1 & Il & Hx)%runs_ret_inv.
  destruct (Hx eq_refl) as (-> & X1 & C1). cbn [fst snd] in *. run. eapply runs_mono; [apply (IH s1 m c E1); lia|].
  intros placed s2 (E2 & G2 & X2 & Hlen & Hw). run. split; [done|]. split; [by eapply grows_trans|].
  split; [by eapply log_extended_trans|]. split; [cbn; lia|]. cbn [zip zip_with written fst snd].
  split; [by eapply in_log_extended|]. split; [lia|]. by rewrite <- C1.
Qed.
(** The entries still to be indexed stay apart from those that are. *)
Lemma in_log_insert s s' m be p e k v : log_extended s s' -> in_log s m (be_key be) (batch_index be p) v ->
  (forall i, spans (batch_index be p) i -> ~ spans e i) ->
  in_log s' (<[k := e]> m) (be_key be) (batch_index be p) v.
Proof.
  intros Hx Hi Hap. apply (in_log_extended s s') in Hi; [|done]. destruct Hi as [? ? ? ? Ha ?]. constructor; try done.
  intros h' e' i He' Hne Hs. destruct (decide (h' = k)) as [->|Hk].
  - rewrite lookup_insert_eq in He'. apply live_Some in He' as [= <-]. by apply Hap.
  - rewrite lookup_insert_ne in He' by done. by apply (Ha h').
Qed.

Lemma written_insert s s' m lo l be p : log_extended s s' -> written s m lo l ->
  p.1 + p.2 <= lo -> written s' (<[be_key be := batch_index be p]> m) lo l.
Proof.
  intros Hx. revert lo. induction l as [|[be' p'] l IH]; intros lo; cbn [written]; [done|]. intros (Hi & Hp & Hw) Hlo.
  split; [|split; [done|apply IH; [done|]]].
  - apply (in_log_insert s); [done|done|]. intros i. unfold spans. cbn. lia.
  - destruct Hi as [_ _ _ [(le & Hok & _ & _ & Ht & _) _ _] _ _]. cbn in Ht. pose proof (zlen_nonneg (entry_bytes le)). lia.
Qed.

Definition batch_content (l : list BatchEntry) (c : gmap bytes Stored) : gmap bytes Stored :=
  foldl (fun c be => <[be_key be := batch_stored be]> c) c l.
Definition batch_keys (l : list BatchEntry) : gset bytes := list_to_set (be_key <$> l).

Lemma insert_batch_ok l : Forall batch_entry_ok l -> forall placed s m c lo, length placed = length l -> engine_ok s m c ->
  written s m lo (zip l placed) -> keys_fit (dk_nvt (se_kv s)) (dom m ∪ batch_keys l) ->
  runs (insert_batch l placed) s (fun _ s' => exists m', engine_ok s' m' (batch_content l c) /\ dom m' = dom m ∪ batch_keys l /\ grows 0 s s').
Proof.
  intros Hl. unfold insert_batch. induction Hl as [|be l [Hs Hk Ht] Hl IH]; intros [|p placed] s m c lo Hlen E Hw Hfit; try done.
  { cbn. run. exists m. split; [done|]. split; [set_solver|apply grows_refl]. }
  cbn [zip zip_with for_each fst snd]. cbn [zip zip_with written] in Hw. destruct Hw as (Hi & Hp & Hw). run.
  assert (Hkeys : batch_keys (be :: l) = {[be_key be]} ∪ batch_keys l) by done.
  eapply runs_mono; [apply (index_insert_ok s m c (be_key be) (batch_index be p) (batch_stored be) E Hi Hk)|].
  { eapply keys_fit_mono; [|exact Hfit]. rewrite Hkeys. set_solver. }
  intros [] s1 (kv & -> & Hn & E1 & X1). run.
  eapply runs_mono; [apply (IH placed (after_kv s kv) _ _ (p.1 + p.2) ltac:(cbn in Hlen; lia) E1)|].
  - by apply (written_insert s).
  - rewrite dom_insert_L. change (dk_nvt (se_kv (after_kv s kv))) with (dk_nvt kv). rewrite Hn.
    eapply keys_fit_mono; [|exact Hfit]. rewrite Hkeys. set_solver.
  - intros [] s2 (m' & E2 & Hd & [G1 G2]). exists m'. split; [done|]. split; [rewrite Hd, Hkeys, dom_insert_L; set_solver|].
    constructor; cbn in *; [congruence|lia].
Qed.

Lemma flush_batch_ok s m c now l : engine_ok s m c -> is_i64 now -> Forall batch_entry_ok l ->
  aw_current_offset (se_writer s) + batch_size l < 2^64 -> keys_fit (dk_nvt (se_kv s)) (dom m ∪ batch_keys l) ->
  runs (flush_batch now l) s (fun _ s' => exists m', engine_ok s' m' (batch_content l c) /\ dom m' = dom m ∪ batch_keys l
    /\ grows (batch_size l) s s').
Proof.
  intros E Hn Hl Hroom Hfit. unfold flush_batch. apply (runs_guard s m c); [done|]. case_bool_decide as Hz.
  { apply nil_length_inv in Hz as ->. run. exists m. split; [done|]. split; [set_solver|apply grows_refl]. }
  run. eapply runs_mono; [by apply append_batch_ok|]. intros placed s1 (E1 & G1 & X1 & Hlen & Hw). run.
  eapply runs_mono; [eapply insert_batch_ok; [done|done|exact E1|exact Hw|]|].
  { by rewrite (gr_nvt _ _ _ G1). }
  intros [] s2 (m' & E2 & Hd & G2). run. eapply runs_mono; [by apply no_expansion_pending|].
  intros [] s3 [E3 G3]. run. exists m'. split; [done|]. split; [done|]. destruct G1, G2, G3. constructor; [congruence|lia].
Qed.

(** ** Reclaimed space *)

(** A span of the log that nothing uses. *)
Definition reclaimable (s : StorageEngine) (m : gmap bytes KVEntry) (off sz : Z) : Prop :=
  wal_start (se_kv s) <= off /\ off + sz <= aw_current_offset (se_writer s) /\
  (forall h e i, live (m !! h) = Some e -> spans e i -> ~ (off <= i < off + sz)) /\
  (forall i, off <= i < off + sz -> ~ free (by_offset (se_void_manager s)) i).

Lemma spans_put m off sz : spans_ok m -> 0 <= off -> 0 < sz -> off + sz < 2^64 ->
  (forall i, off <= i < off + sz -> ~ free m i) -> spans_ok (<[off := sz]> m).
Proof.
  intros Hsp Ho Hsz Hu Hfree. constructor.
  - intros o z [[<- <-]|[_ Hoz]]%lookup_insert_Some; [lia|]. by apply (spans_range _ Hsp o z).
  - intros o z o' z' L1 L2 Hlt. pose proof (spans_disjoint _ Hsp) as Hd.
    apply lookup_insert_Some in L1 as [[<- <-]|[N1 L1]], L2 as [[<- <-]|[N2 L2]]; [lia| | |by apply (Hd o z o' z')].
    + destruct (decide (off + sz <= o')); [done|]. destruct (Hfree o'); [lia|]. exists o', z'. split; [done|].
      pose proof (spans_range _ Hsp o' z' L2). lia.
    + destruct (decide (o + z <= off)); [done|]. destruct (Hfree off); [lia|]. exists o, z. split; [done|lia].
Qed.

Lemma free_put m off sz i : free (<[off := sz]> m) i -> free m i \/ off <= i < off + sz.
Proof. intros (o & z & [[<- <-]|[Hne Hz']]%lookup_insert_Some & Hi); [by right|left; by exists o, z]. Qed.

(** The free entry the writer puts over a span. *)
Lemma write_void_result now w off sz : writer_ok w -> is_i64 now -> 0 <= off -> 63 <= sz <= 63 + MAX_KEY_OR_VALUE_BYTES ->
  exists w' x, write_void_at now w off sz = Ok w' /\ zlen x = sz /\ aw_file w' = file_write (aw_file w) off x
    /\ aw_current_offset w' = aw_current_offset w /\ writer_ok w' /\ same_layout w w'.
Proof.
  intros Hw Hn Ho Hsz. assert (Hsm : small [] (zeros (sz - 63))) by (split; [done|rewrite zlen_zeros; lia]).
  destruct (write_at_result now w off Void [] (zeros (sz - 63)) (z2b 0) NoCompression CURRENT_ENTRY_VERSION Hw Hn Hsm Ho)
    as (w' & Ew & Fw & Cw & Ww & Lw).
  destruct (entry_of_ok now w Void [] (zeros (sz - 63)) (z2b 0) NoCompression CURRENT_ENTRY_VERSION (wo_aw _ Hw) Hn Hsm) as [_ Hz].
  exists w'. eexists. split; [|split; [|split; [exact Fw|done]]].
  2: { rewrite Hz. unfold entry_size, FIXED_HEADER_SIZE. rewrite zlen_nil, zlen_zeros; lia. }
  unfold write_void_at, write_void_at_nosync. rewrite (ok_algo _ (wo_aw _ Hw)).
  change (hash_length Blake3_256) with 32. rewrite (proj2 (Z.ltb_ge _ _)) by lia. cbv zeta.
  change (31 + 32) with 63. unfold write_entry_at_nosync, write_entry_at_nosync_full. by rewrite Ew.
Qed.

(** Free space grows by an unused span. *)
Lemma register_ok s m c off sz : engine_ok s m c -> reclaimable s m off sz -> 63 <= sz ->
  let s' := set_void_manager (register_void (se_void_manager s) off sz) s in
  engine_ok s' m c /\ by_offset (se_void_manager s') = <[off := sz]> (by_offset (se_void_manager s)).
Proof.
  intros [E1 E2 E3 P] (Hlo & Hhi & Hlive & Hfree) Hsz. pose proof (wal_start_ge _ _ _ _ _ P) as [Hws Hpg].
  change (wal_start (kv_on_file s)) with (wal_start (se_kv s)) in *.
  destruct P as [Hkv Habs Hst Hal Hfi Hwr Hbl Hle Hba Hen Hta Hex Hvm Hsp Hbe Hco].
  pose proof (ok_offset _ (wo_aw _ Hwr)) as Hu. unfold is_u64 in Hu.
  assert (Hreg : by_offset (register_void (se_void_manager s) off sz) = <[off := sz]> (by_offset (se_void_manager s))).
  { rewrite register_void_offsets. unfold MINIMUM_VOID_SIZE. rewrite (proj2 (Z.ltb_ge _ _)) by lia. done. }
  split; [|exact Hreg]. constructor; [exact E1|exact E2|exact E3|]. constructor; try done.
  - by apply register_void_ok.
  - cbn [se_void_manager set_void_manager]. rewrite Hreg. apply spans_put; [done|lia|lia|lia|done].
  - cbn [se_void_manager set_void_manager]. rewrite Hreg. intros i [Hi|Hi]%free_put; [by apply Hbe|]. cbn. lia.
  - cbn [se_void_manager set_void_manager]. rewrite Hreg. eapply content_voids; [exact Hco|].
    intros i [Hi|Hi]%free_put; [by left|]. right. intros h e He Hsp'. by apply (Hlive h e i).
Qed.

Lemma void_ok s m c now off sz : engine_ok s m c -> is_i64 now -> reclaimable s m off sz ->
  63 <= sz <= 63 + MAX_KEY_OR_VALUE_BYTES ->
  runs (se_write_void_at now off sz) s (fun _ s' => engine_ok s' m c /\ grows 0 s s' /\
    by_offset (se_void_manager s') = <[off := sz]> (by_offset (se_void_manager s))).
Proof.
  intros E Hn (Hlo & Hhi & Hlive & Hfree) Hsz. unfold se_write_void_at. apply (runs_guard s m c); [done|]. run.
  pose proof E as [E1 E2 E3 P]. pose proof (wal_start_ge _ _ _ _ _ P) as [Hws Hpg]. rewrite (writer_bounds _ _ _ _ _ P).
  change (wal_start (kv_on_file s)) with (wal_start (se_kv s)) in *. cbv beta iota.
  pose proof (eo_writer _ _ _ _ _ P) as Hwr. pose proof (ok_offset _ (wo_aw _ Hwr)) as Hu. unfold is_u64 in Hu.
  assert (Hv : valid_reusable_range off sz (wal_start (se_kv s)) (aw_current_offset (se_writer s)) = true)
    by (apply valid_range_spec; unfold u64_max; lia).
  rewrite Hv. cbn [negb]. run.
  destruct (write_void_result now (se_writer s) off sz Hwr Hn ltac:(lia) Hsz) as (w & x & Ew & Hz & Fw & Cw & Ww & Lw).
  exists tt, (set_writer w s). split; [unfold on_writer, with_unit; by rewrite Ew|].
  assert (Ew' : engine_ok (set_writer w s) m c).
  { constructor; [exact E1|exact E2|exact E3|]. change (parts_ok (dk_set_file (aw_file w) (kv_on_file s)) w (se_void_manager s) m c).
    eapply parts_write_same; [exact P|done|done|exact Fw|lia|right; exact Hlo|done|]. rewrite Hz. exact Hlive. }
  run. destruct (register_ok (set_writer w s) m c off sz Ew') as [Er Hreg]; [|lia|].
  - split; [done|]. split; [cbn; lia|]. done.
  - split; [exact Er|]. split; [constructor; [done|cbn; lia]|exact Hreg].
Qed.
End EngineBatch.
