(* ===== verification/EngineReads.v ===== *)
(** What the engine's readers return, in terms of its content: single entries,
    entries by type, and the typed store the versions use. *)
From S2P Require Import Prelude Codec EntryFormat Records KvEntry KvPages FileIo HotTail FileHeader VoidManager AppendWriter Converters Nvt StateM KvSnapshot DiskKv DiskKvPages DiskKvSpec DiskKvRefine StorageEngine EngineContent EngineWrites EngineSpec EngineStore EngineOps.

Local Open Scope Z_scope.

Section EngineReads.
Context `{Crc32, Blake3, ToScalar, HashOrder}.

(** The entry's version and value as the engine's clients use them. *)
Lemma get_entry_ok s m c h : engine_ok s m c ->
  match c !! h with
  | None => get_entry s h = Ok None /\ get_entry_verified s h = Ok None
  | Some st => exists hd, get_entry s h = Ok (Some (hd, h, st_value st)) /\ get_entry_verified s h = Ok (Some (hd, h, st_value st))
      /\ summary (st_kv_type st) (hd, h, st_value st) = st
  end.
Proof.
  intros E. unfold get_entry, get_entry_verified, guarded, get_with. rewrite (en_running _ _ _ E), (live_kv_ok s m c h E), !bind_ret.
  pose proof (eo_content _ _ _ _ _ (en_parts _ _ _ E)) as Hc. destruct (live (m !! h)) as [e|] eqn:El.
  - destruct (read_entry_ok s m c h e E El) as ([[hd k] v] & Hs & Hk & Hr). cbn in Hk. subst k.
    rewrite Hs, !Hr, !bind_ret. by exists hd.
  - rewrite (co_dead _ _ _ _ _ _ Hc h El). done.
Qed.

Lemma has_entry_ok s m c h : engine_ok s m c -> has_entry s h = Ok (bool_decide (is_Some (c !! h))).
Proof.
  intros E. unfold has_entry, guarded. rewrite (en_running _ _ _ E). pose proof (live_kv_ok s m c h E) as Hl.
  unfold live_kv_entry in Hl. destruct (snapshot_get _ _) as [o|e|] eqn:Eg; [|done..]. rewrite bind_ret in *. injection Hl as Hl.
  pose proof (eo_content _ _ _ _ _ (en_parts _ _ _ E)) as Hc. f_equal. destruct o as [e|].
  - destruct (is_deleted e) eqn:Hd; cbn.
    + rewrite (co_dead _ _ _ _ _ _ Hc h) by done. by rewrite bool_decide_eq_false_2 by (by intros []).
    + destruct (co_live _ _ _ _ _ _ Hc h e) as (st & -> & _); [done|]. by rewrite bool_decide_eq_true_2.
  - rewrite (co_dead _ _ _ _ _ _ Hc h) by done. by rewrite bool_decide_eq_false_2 by (by intros []).
Qed.

(** The published snapshot holds the map. *)
Lemma snapshot_map s m c : engine_ok s m c ->
  snapshot_ok (se_snapshot s) /\ forall h, snapshot_view (se_snapshot s) h = m !! h.
Proof.
  intros E. pose proof (en_parts _ _ _ E) as P. destruct (eo_kv _ _ _ _ _ P) as [Hi Hp]. unfold published in Hp.
  change (se_snapshot s) with (dk_snapshot (kv_on_file s)). split.
  - apply dk_snapshot_ok; [done|]. rewrite Hp. apply Hi.
  - intros h. rewrite dk_snapshot_view by done. rewrite Hp. apply (eo_abs _ _ _ _ _ P).
Qed.

(** The tombstones of the index. *)
Lemma is_entry_deleted_ok s m c h : engine_ok s m c ->
  is_entry_deleted s h = Ok (match m !! h with Some e => is_deleted e | None => false end).
Proof.
  intros E. destruct (snapshot_map s m c E) as [Hok Hv]. unfold is_entry_deleted, guarded.
  rewrite (en_running _ _ _ E), get_raw_ok by done. by rewrite Hv.
Qed.

Lemma live_not_deleted s m c h : engine_ok s m c -> is_Some (c !! h) -> is_entry_deleted s h = Ok false.
Proof.
  intros E [st Hst]. rewrite (is_entry_deleted_ok s m c h E).
  pose proof (eo_content _ _ _ _ _ (en_parts _ _ _ E)) as Hc. destruct (m !! h) as [e|] eqn:Em; [|done].
  destruct (is_deleted e) eqn:Hd; [|done]. rewrite (co_dead _ _ _ _ _ _ Hc h) in Hst; [done|]. by rewrite Em; cbn; rewrite Hd.
Qed.

(** ** Entries by type *)

Lemma summary_kv_type t d : st_kv_type (summary t d) = t.
Proof. by destruct d as [[hd k] v]. Qed.

Lemma live_hash s m c h e : engine_ok s m c -> live (m !! h) = Some e -> kv_hash e = h.
Proof.
  intros E El. pose proof (en_parts _ _ _ E) as P. destruct (m !! h) as [e'|] eqn:Em; [|done]. cbn in El.
  destruct (is_deleted e'); [done|]. injection El as ->.
  by destruct (abs_wf _ _ _ _ (di_base _ (proj1 (eo_kv _ _ _ _ _ P))) (eo_abs _ _ _ _ _ P) Em).
Qed.

Lemma read_values_ok s m c l : engine_ok s m c -> Forall (fun e => live (m !! kv_hash e) = Some e) l ->
  read_values s l = Ok (omap (fun e => (fun st => (kv_hash e, st_value st)) <$> c !! kv_hash e) l).
Proof.
  intros E. induction 1 as [|e l He Hl IH]; [done|]. cbn [read_values].
  destruct (read_entry_ok s m c (kv_hash e) e E He) as ([[hd k] v] & Hs & Hk & Hr). cbn in Hk. subst k.
  rewrite Hr, IH, bind_ret. cbn [omap list_omap]. by rewrite Hs.
Qed.

(** Exactly the content of that type, each hash once. *)
Lemma entries_by_type_ok s m c t : engine_ok s m c -> exists l, entries_by_type s t = Ok l /\ NoDup l.*1 /\
  forall h v, (h, v) ∈ l <-> exists st, c !! h = Some st /\ st_kv_type st = t /\ st_value st = v.
Proof.
  intros E. destruct (snapshot_map s m c E) as [Hok Hv]. destruct (iter_by_type_ok _ t Hok) as (es & Ees & Hnd & Hel).
  assert (Hlive : Forall (fun e => live (m !! kv_hash e) = Some e) es).
  { apply Forall_forall. intros e He. apply Hel in He as [He _]. by rewrite Hv in He. }
  eexists. unfold entries_by_type, guarded. rewrite (en_running _ _ _ E), Ees, bind_ret, (read_values_ok s m c es E Hlive).
  split; [done|]. pose proof (eo_content _ _ _ _ _ (en_parts _ _ _ E)) as Hc. split.
  - clear Hel Ees. induction es as [|e es IH]; [constructor|]. apply Forall_cons in Hlive as [He Hes]. cbn in Hnd.
    apply NoDup_cons in Hnd as [Hni Hnd]. cbn. destruct (co_live _ _ _ _ _ _ Hc _ _ He) as (st & -> & _). cbn. constructor; [|by apply IH].
    rewrite list_elem_of_fmap. intros ([h v] & Eh & Hin). cbn in Eh. apply Hni. apply list_elem_of_omap in Hin as (e' & He' & Hf).
    destruct (c !! kv_hash e'); [|done]. injection Hf as Hh _. rewrite Eh, <- Hh. by apply list_elem_of_fmap_2.
  - intros h v. rewrite list_elem_of_omap. split.
    + intros (e & He & Hf). destruct (c !! kv_hash e) as [st|] eqn:Ec; [|done]. injection Hf as <- <-.
      apply Hel in He as [He Ht]. rewrite Hv in He. exists st. split; [done|]. split; [|done].
      destruct (read_entry_ok s m c _ e E He) as (d & Hd & _). rewrite Ec in Hd. injection Hd as ->. by rewrite summary_kv_type.
    + intros (st & Hst & Ht & <-). destruct (live (m !! h)) as [e|] eqn:El; [|rewrite (co_dead _ _ _ _ _ _ Hc h El) in Hst; done].
      destruct (read_entry_ok s m c h e E El) as (d & Hd & Hk & _). rewrite Hst in Hd. injection Hd as ->.
      pose proof (live_hash s m c h e E El) as Hh. rewrite summary_kv_type in Ht.
      exists e. rewrite Hh. rewrite Hst. split; [|done]. apply Hel. rewrite Hh, Hv. done.
Qed.
(** ** The typed store *)

Lemma typed_ok s m c now t kt key value : engine_ok s m c ->
  is_i64 now -> small key value -> zlen key = 32 -> kv_type_ok kt ->
  aw_current_offset (se_writer s) + entry_size key value < 2^64 ->
  keys_fit (dk_nvt (se_kv s)) (dom m ∪ {[key]}) ->
  runs (store_entry_typed now t key value kt) s (fun _ s' => exists e,
    engine_ok s' (<[key := e]> m) (<[key := stored_as kt t value (z2b 0) NoCompression CURRENT_ENTRY_VERSION]> c)
    /\ grows (entry_size key value) s s').
Proof.
  intros E Hn Hkv Hk Hkt Hroom Hfit. unfold store_entry_typed. apply (runs_guard s m c); [done|].
  pose proof (place_ok s m c now t kt key value (z2b 0) NoCompression CURRENT_ENTRY_VERSION None E Hn Hkv Hkt) as Hpl.
  run. eapply runs_mono; [exact (runs_bind_inv _ _ _ _ (Hpl ltac:(done) Hroom))|].
  intros [off total] s1 Hp. cbv beta iota. run. eapply runs_mono; [exact (runs_bind_inv _ _ _ _ Hp)|].
  intros [] s2 (E2 & G2 & Il & _)%runs_ret_inv. cbn [fst snd] in Il. run.
  eapply runs_mono; [eapply (index_insert_ok s2 m c key); [done|exact Il|done|]|].
  { by rewrite (gr_nvt _ _ _ G2). }
  intros [] s3 (kv & -> & Hnv & E3 & _). run. eexists. split; [exact E3|].
  destruct G2. constructor; cbn in *; [congruence|lia].
Qed.
End EngineReads.
