(* ===== verification/EngineRefine.v ===== *)
(** The storage engine refines a map from hashes to stored entries: any sequence of
    its operations, on a database whose index has room, leaves readers with the content
    the map operations give. *)
From S2P Require Import Prelude Codec EntryFormat Records KvEntry KvPages FileIo HotTail FileHeader VoidManager AppendWriter Converters Nvt StateM BTree KvSnapshot DiskKv DiskKvPages DiskKvSpec DiskKvRefine DiskKvLoad DiskKvOpen StorageEngine EngineContent EngineWrites EngineSpec EngineStore EngineOps EngineBatch EngineReads.

Local Open Scope Z_scope.

Inductive engine_cmd :=
| EStore (now : Z) (t : EntryType) (key value : bytes) (flags : byte) (comp : CompressionAlgorithm) (ver : byte)
| EBatch (now : Z) (l : list BatchEntry)
| EBatchHead (now : Z) (l : list BatchEntry) (head : bytes)
| EMarkDeleted (h : bytes)
| ERemove (h : bytes)
| ERemoveBatch (hs : list bytes)
| EUpdateHead (now : Z) (head : bytes)
| EBegin
| EEnd
| EForceFlush
| ETimer
| ESyncVoids.

Section EngineRefine.
Context `{Crc32, Blake3, ToScalar, HashOrder}.

(** What a command does to the content. *)
Definition spec_engine (cmd : engine_cmd) (c : gmap bytes Stored) : gmap bytes Stored :=
  match cmd with
  | EStore _ t key value fl comp ver => <[key := stored_as (to_kv_type t) t value fl comp ver]> c
  | EBatch _ l | EBatchHead _ l _ => batch_content l c
  | EMarkDeleted h | ERemove h => delete h c
  | ERemoveBatch hs => foldl (fun c h => delete h c) c hs
  | _ => c
  end.

(** The operation; marking a missing entry is an error the caller drops. *)
Definition run_engine (cmd : engine_cmd) : M StorageEngine unit :=
  match cmd with
  | EStore now t key value fl comp ver => store_entry_internal now t key value fl comp ver ;; mret tt
  | EBatch now l => flush_batch now l ;; mret tt
  | EBatchHead now l head => flush_batch_and_update_head now l head ;; mret tt
  | EMarkDeleted h => ignore_err (mark_entry_deleted h)
  | ERemove h => remove_kv_entry h
  | ERemoveBatch hs => remove_kv_entries_batch hs
  | EUpdateHead now head => update_head now head
  | EBegin => begin_transaction
  | EEnd => end_transaction
  | EForceFlush => force_hot_tail_flush
  | ETimer => try_flush_hot_buffer
  | ESyncVoids => sync_voids_to_kv_writer
  end.

(** Sizes within the format's limits, 32-byte hashes, a clock in range. *)
Definition engine_cmd_wf (cmd : engine_cmd) : Prop :=
  match cmd with
  | EStore now _ key value _ _ _ => is_i64 now /\ small key value /\ zlen key = 32
  | EBatch now l => is_i64 now /\ Forall batch_entry_ok l
  | EBatchHead now l head => is_i64 now /\ Forall batch_entry_ok l /\ zlen head = 32
  | EUpdateHead now head => is_i64 now /\ zlen head = 32
  | _ => True
  end.

(** The bytes a command may append, and the hashes it stores. *)
Definition cmd_size (cmd : engine_cmd) : Z :=
  match cmd with
  | EStore _ _ key value _ _ _ => entry_size key value
  | EBatch _ l | EBatchHead _ l _ => batch_size l
  | _ => 0
  end.
Definition cmd_keys (cmd : engine_cmd) : gset bytes :=
  match cmd with
  | EStore _ _ key _ _ _ _ => {[key]}
  | EBatch _ l | EBatchHead _ l _ => batch_keys l
  | _ => ∅
  end.

Definition cmds_size (cs : list engine_cmd) : Z := foldr (fun cmd n => cmd_size cmd + n) 0 cs.
Definition cmds_keys (cs : list engine_cmd) : gset bytes := ⋃ (cmd_keys <$> cs).

(** What the operation of a command comes to. *)
Definition comes_to (cmd : engine_cmd) (s : StorageEngine) (m : gmap bytes KVEntry) (c : gmap bytes Stored) (s' : StorageEngine) : Prop :=
  exists m', engine_ok s' m' (spec_engine cmd c) /\ dom m' ⊆ dom m ∪ cmd_keys cmd /\ grows (cmd_size cmd) s s'.

Lemma batch_head_ok s m c now l head : engine_ok s m c -> is_i64 now -> Forall batch_entry_ok l -> zlen head = 32 ->
  aw_current_offset (se_writer s) + batch_size l < 2^64 -> keys_fit (dk_nvt (se_kv s)) (dom m ∪ batch_keys l) ->
  runs (flush_batch_and_update_head now l head) s (fun _ s' => exists m', engine_ok s' m' (batch_content l c)
    /\ dom m' = dom m ∪ batch_keys l /\ grows (batch_size l) s s' /\ head_hash s' = Ok head).
Proof.
  intros E Hn Hl Hh Hroom Hfit. unfold flush_batch_and_update_head. apply (runs_guard s m c); [done|]. case_bool_decide as Hz.
  { apply nil_length_inv in Hz as ->. run. eapply runs_mono; [by apply update_head_ok|]. intros [] s' (E' & G & Hd). run.
    exists m. split; [done|]. split; [set_solver|done]. }
  run. eapply runs_mono; [by apply append_batch_ok|]. intros placed s1 (E1 & G1 & X1 & Hlen & Hw). run.
  eapply runs_mono; [eapply insert_batch_ok; [done|done|exact E1|exact Hw|]|].
  { by rewrite (gr_nvt _ _ _ G1). }
  intros [] s2 (m' & E2 & Hd & G2). run. eapply runs_mono; [by apply publish_head_ok|]. intros [] s3 (E3 & G3 & Hhd).
  run. eapply runs_mono; [eapply runs_and; [by apply no_expansion_pending|by eapply no_expansion_writer]|].
  intros [] s4 [[E4 G4] Ew]. run. exists m'. split; [done|]. split; [done|]. split.
  - destruct G1, G2, G3, G4. constructor; [congruence|lia].
  - unfold head_hash, guarded. by rewrite (en_running _ _ _ E4), Ew, Hhd.
Qed.

(** The commands that leave content and index as they are. *)
Lemma comes_to_same cmd s m c s' : spec_engine cmd c = c -> cmd_size cmd = 0 -> engine_ok s' m c /\ grows 0 s s' -> comes_to cmd s m c s'.
Proof. intros Es Ez [E G]. exists m. rewrite Es, Ez. split; [done|]. split; [set_solver|done]. Qed.

Lemma run_engine_ok cmd s m c : engine_ok s m c -> engine_cmd_wf cmd ->
  aw_current_offset (se_writer s) + cmd_size cmd < 2^64 -> keys_fit (dk_nvt (se_kv s)) (dom m ∪ cmd_keys cmd) ->
  runs (run_engine cmd) s (fun _ s' => comes_to cmd s m c s').
Proof.
  intros E Hwf Hroom Hfit. destruct cmd; cbn [run_engine engine_cmd_wf cmd_size cmd_keys] in *.
  - destruct Hwf as (Hn & Hs & Hk). run. eapply runs_mono; [by apply store_ok|]. intros off s' (e & E' & G). run.
    exists (<[key := e]> m). split; [done|]. split; [cbn; rewrite dom_insert_L; set_solver|done].
  - destruct Hwf as (Hn & Hl). run. eapply runs_mono; [by apply flush_batch_ok|]. intros offs s' (m' & E' & Hd & G). run.
    exists m'. split; [done|]. split; [cbn; by rewrite Hd|done].
  - destruct Hwf as (Hn & Hl & Hh). run. eapply runs_mono; [by apply batch_head_ok|]. intros offs s' (m' & E' & Hd & G & _). run.
    exists m'. split; [done|]. split; [cbn; by rewrite Hd|done].
  - destruct (mark_ok s m c h E) as (r & s' & Er & E' & G & Hr). exists tt, s'. split.
    + unfold ignore_err. rewrite Er, Hr. by destruct (c !! h).
    + eexists. split; [exact E'|]. split; [rewrite dom_map_update; set_solver|done].
  - eapply runs_mono; [by apply remove_entry_ok|]. intros [] s' [E' G]. eexists. split; [exact E'|]. split; [rewrite dom_map_update; set_solver|done].
  - eapply runs_mono; [by apply remove_batch_ok|]. intros [] s' [E' G]. eexists. split; [exact E'|]. split; [rewrite dom_map_updates; set_solver|done].
  - destruct Hwf. eapply runs_mono; [by apply update_head_ok|]. intros [] s' (E' & G & _). by apply comes_to_same.
  - eapply runs_mono; [by apply begin_transaction_ok|]. intros [] s' Hr. by apply comes_to_same.
  - eapply runs_mono; [by apply end_ok|]. intros [] s' Hr. by apply comes_to_same.
  - eapply runs_mono; [by apply force_tail_ok|]. intros [] s' Hr. by apply comes_to_same.
  - eapply runs_mono; [by apply timer_ok|]. intros [] s' Hr. by apply comes_to_same.
  - unfold sync_voids_to_kv_writer. run. eapply runs_mono; [by apply pending_voids_ok|]. intros [] s' Hr. by apply comes_to_same.
Qed.

Lemma cmd_size_nonneg cmd : engine_cmd_wf cmd -> 0 <= cmd_size cmd.
Proof.
  assert (Hb : forall l, Forall batch_entry_ok l -> 0 <= batch_size l).
  { intros l. induction 1 as [|be l [Hs _ _] _ IH]; [done|]. cbn. fold (batch_size l). destruct (entry_size_ok _ _ Hs). lia. }
  destruct cmd; cbn; try lia.
  - intros (_ & Hs & _). destruct (entry_size_ok _ _ Hs). lia.
  - intros (_ & Hl). by apply Hb.
  - intros (_ & Hl & _). by apply Hb.
Qed.

Definition spec_engine_run (cs : list engine_cmd) (c : gmap bytes Stored) : gmap bytes Stored :=
  foldl (fun c cmd => spec_engine cmd c) c cs.

Lemma run_engines_ok cs : Forall engine_cmd_wf cs -> forall s m c, engine_ok s m c ->
  aw_current_offset (se_writer s) + cmds_size cs < 2^64 -> keys_fit (dk_nvt (se_kv s)) (dom m ∪ cmds_keys cs) ->
  runs (for_each cs run_engine) s (fun _ s' => exists m', engine_ok s' m' (spec_engine_run cs c)
    /\ dom m' ⊆ dom m ∪ cmds_keys cs /\ grows (cmds_size cs) s s').
Proof.
  induction 1 as [|cmd cs Hwf Hcs IH]; intros s m c E Hroom Hfit; cbn [for_each].
  { run. exists m. split; [done|]. split; [set_solver|apply grows_refl]. }
  cbn [cmds_size foldr] in Hroom. fold (cmds_size cs) in Hroom.
  assert (0 <= cmds_size cs).
  { clear -Hcs. induction Hcs as [|x l Hx _ IH]; [done|]. cbn. fold (cmds_size l). pose proof (cmd_size_nonneg x Hx). lia. }
  assert (Hk : cmds_keys (cmd :: cs) = cmd_keys cmd ∪ cmds_keys cs) by done. rewrite Hk in Hfit.
  run. eapply runs_mono; [apply (run_engine_ok cmd s m c E Hwf)|].
  - lia.
  - eapply keys_fit_mono; [|exact Hfit]. set_solver.
  - intros [] s1 (m1 & E1 & Hd & [Gn Gl]). eapply runs_mono; [apply (IH s1 m1 _ E1); [lia|]|].
    + rewrite Gn. eapply keys_fit_mono; [|exact Hfit]. set_solver.
    + intros [] s2 (m2 & E2 & Hd2 & [Gn2 Gl2]). exists m2. split; [done|]. split; [set_solver|]. constructor; cbn; [congruence|].
      fold (cmds_size cs). lia.
Qed.

(** ** Readers *)

(** The readers agree with the content: a stored hash is found, with its entry, by the
    plain and by the verifying reader; any other is not. *)
Definition serves (s : StorageEngine) (c : gmap bytes Stored) : Prop := forall h,
  match c !! h with
  | None => get_entry s h = Ok None /\ get_entry_verified s h = Ok None /\ has_entry s h = Ok false
  | Some v => exists header value, get_entry s h = Ok (Some (header, h, value))
      /\ get_entry_verified s h = Ok (Some (header, h, value)) /\ has_entry s h = Ok true /\ summary (st_kv_type v) (header, h, value) = v
  end.

Lemma engine_serves s m c : engine_ok s m c -> serves s c.
Proof.
  intros E h. rewrite (has_entry_ok s m c h E). pose proof (get_entry_ok s m c h E) as Hg. destruct (c !! h) as [st|].
  - destruct Hg as (hd & -> & -> & Hs). by exists hd, (st_value st).
  - destruct Hg as [-> ->]. done.
Qed.

(** ** A new database *)

(** What the first hot tail leaves of the file. *)
Lemma first_tail_file file off data : 0 <= off -> let g := file_set_len (file_write file off data) (off + zlen data) in
  zlen g = off + zlen data /\ forall i x, 0 <= i < off -> at_ file i = Some x -> at_ g i = Some x.
Proof.
  intros Ho. cbv zeta. pose proof (zlen_nonneg data). split; [apply zlen_file_set_len; lia|].
  intros i x Hi Hx. apply at_file_set_len; [lia|]. apply at_file_write_out; [lia|lia|lia|done].
Qed.

Lemma create_no_expansion file algo off tail stage s :
  DiskKVStore_create file algo off tail stage = Ok s -> dk_needs_expansion s = None.
Proof.
  unfold DiskKVStore_create. cbv zeta. destruct (stage_params _ _) as [len n]. intros (sn & _ & E)%bind_Ok. by injection E as <-.
Qed.

Lemma create_engine_ok now : is_i64 now -> exists s, StorageEngine_create now = Ok s /\ engine_ok s ∅ ∅
  /\ aw_current_offset (se_writer s) = HEADER_REGION_SIZE + initial_block_size /\ dk_bucket_count (se_kv s) = 45.
Proof.
  intros Hn. destruct (create_ok now Hn) as (aw & Ec & Hdu & Hh). unfold StorageEngine_create.
  assert (Hslot : aw_active_slot aw = 0).
  { unfold AppendWriter_create in Ec. apply bind_Ok in Ec as ([fh file] & _ & Ec). by injection Ec as <-. }
  rewrite Ec, bind_ret. clear Ec. assert (Ha : fh_hash_algo (aw_file_header aw) = Blake3_256) by (by rewrite Hh). rewrite Ha. cbv zeta.
  change (hash_length Blake3_256) with 32. set (tail := HEADER_REGION_SIZE + initial_block_size).
  assert (Hp0 : stage_params 0 (page_size (hash_length Blake3_256)) = (initial_block_size, 45)) by reflexivity.
  assert (Hoff0 : 0 <= HEADER_REGION_SIZE) by (unfold HEADER_REGION_SIZE, FILE_HEADER_SIZE; lia).
  assert (Hst0 : 0 <= 0 < zlen KV_STAGE_SIZES) by (split; [lia|vm_compute; reflexivity]).
  pose proof (create_spec (aw_file aw) Blake3_256 HEADER_REGION_SIZE tail 0 initial_block_size 45 Hoff0 Hst0 Hp0 (Z.le_refl _)) as Hcr.
  destruct Hcr as (kv & Ekv & Hok & Habs & Hst & Hal & Hta & Hen & Hoff & Hfile).
  pose proof (create_no_expansion _ _ _ _ _ _ Ekv) as Hne. rewrite Ekv, bind_ret. clear Ekv. unfold write_hot_tail. cbv zeta. cbn [aw_file with_file set_offset aw_file_header].
  set (data := serialize_hot_tail _ _).
  destruct (first_tail_file (dk_file kv) tail data) as [Hz Hkeep]; [unfold tail, HEADER_REGION_SIZE, FILE_HEADER_SIZE, initial_block_size; cbn; lia|].
  set (g := file_set_len _ _) in *. set (w0 := with_file _ g).
  assert (Hw0 : writer_ok w0).
  { constructor; [constructor|..]; cbn; rewrite ?Hh; try done. by left. }
  set (hd := with_block _ _ _ _ _).
  destruct (header_result w0 hd Hw0) as (bs & w & Eu & _ & Fw & Hs & Hend & Cw & Ww & Bo & Bl & _).
  { unfold hd. cbn. rewrite Hh. by constructor. } { unfold hd. cbn. by rewrite Hh. } { unfold hd. cbn. by rewrite Hh. }
  rewrite Eu, bind_ret. clear Eu. eexists. split; [reflexivity|].
  pose proof (di_base _ (proj1 Hok)) as Hb. pose proof (di_params _ Hb) as Hp. unfold dk_hl in Hp. rewrite Hst, Hal in Hp.
  rewrite Hp0 in Hp. injection Hp as Hlen Hcount.
  pose proof (pages_end_block _ Hb) as Hpe. rewrite Hoff, <- Hlen in Hpe.
  split; [|split; [exact Cw|done]]. constructor; try done. cbn [kv_on_file new_engine se_writer se_kv se_void_manager].
  destruct (dk_on_file kv ∅ (aw_file w) tail Hok Habs) as [Hok' Habs'].
  - rewrite Hta. done.
  - rewrite Fw, zlen_file_write by done. change (aw_file w0) with g. rewrite Hz. pose proof (zlen_nonneg data). unfold tail. lia.
  - intros i x Hi Hx. rewrite Hoff in Hi. rewrite Fw. apply at_file_write_out; [done|lia|lia|]. apply Hkeep; [unfold tail; lia|done].
  - rewrite <- Hta in Hok', Habs'. change (dk_hot_tail_offset kv) with (dk_hot_tail_offset (dk_set_file (aw_file w) kv)) in Hok', Habs'.
    rewrite dk_set_tail_id in Hok', Habs'. constructor; try done; cbn.
    + rewrite Hst. done.
    + rewrite Bo. cbn. by rewrite Hoff.
    + rewrite Bl. cbn. by rewrite <- Hlen.
    + rewrite Hoff. done.
    + rewrite Hta, Cw. done.
    + by intros i (o & z & Ho & _).
Qed.
(** ** The theorems *)

(** C1. The engine is a map.  In a new database, any sequence of stores, batches (with or
    without a new head), deletions, head updates, transactions and hot-tail flushes
    returns, and then a reader finds under every hash exactly the entry stored last and
    not deleted since, with its type, flags, compression, version and value, checked
    against its hash or not; while the offsets fit 64 bits and no index bucket gets more
    hashes than a page holds. *)
Theorem engine_refines_map now cs : is_i64 now -> Forall engine_cmd_wf cs ->
  HEADER_REGION_SIZE + initial_block_size + cmds_size cs < 2^64 ->
  keys_fit (NVT_new HashConverter 45) (cmds_keys cs) ->
  exists s, StorageEngine_create now = Ok s /\
    runs (for_each cs run_engine) s (fun _ s' => serves s' (spec_engine_run cs ∅)).
Proof.
  intros Hn Hcs Hroom Hfit. destruct (create_engine_ok now Hn) as (s & Ec & E & Hcur & Hcount).
  exists s. split; [exact Ec|]. clear Ec. pose proof (di_nvt _ (di_base _ (proj1 (eo_kv _ _ _ _ _ (en_parts _ _ _ E))))) as Hnvt. cbn in Hnvt.
  eapply runs_mono; [apply (run_engines_ok cs Hcs s ∅ ∅ E); [lia|]|].
  - rewrite Hnvt, Hcount. eapply keys_fit_mono; [|exact Hfit]. set_solver.
  - intros [] s' (m' & E' & _). by eapply engine_serves.
Qed.

(** C2. Reclaiming is safe.  Space that no live entry uses can be turned into a free entry
    and handed to later writes: whatever sequence of operations follows, every reader
    still finds the content the map operations give. *)
Theorem engine_reclaims s m c now off sz cs : engine_ok s m c -> is_i64 now -> reclaimable s m off sz ->
  63 <= sz <= 63 + MAX_KEY_OR_VALUE_BYTES -> Forall engine_cmd_wf cs ->
  aw_current_offset (se_writer s) + cmds_size cs < 2^64 -> keys_fit (dk_nvt (se_kv s)) (dom m ∪ cmds_keys cs) ->
  runs (se_write_void_at now off sz ;; for_each cs run_engine) s (fun _ s' => serves s' (spec_engine_run cs c)).
Proof.
  intros E Hn Hr Hsz Hcs Hroom Hfit. run. eapply runs_mono; [by apply (void_ok s m c)|].
  intros [] s1 (E1 & [Gn Gl] & _). eapply runs_mono; [apply (run_engines_ok cs Hcs s1 m c E1)|].
  - lia.
  - by rewrite Gn.
  - intros [] s' (m' & E' & _). by eapply engine_serves.
Qed.

(** The operations that write, as callers see them. *)
Definition writes (cmd : engine_cmd) : bool :=
  match cmd with EBegin | EEnd | EForceFlush | ETimer | ESyncVoids | EMarkDeleted _ => false | _ => true end.

End EngineRefine.

(** ** Witnesses *)

#[local] Existing Instance crc32_ieee.
#[local] Existing Instance blake3_pad.
#[local] Existing Instance hash_to_scalar.
#[local] Existing Instance map_order.

Definition key_of (b : byte) : bytes := replicate 32 b.

Definition sample_engine_cmds : list engine_cmd :=
  [EStore 1700000000001 Chunk (key_of Byte.x01) (lit "hello") Byte.x00 NoCompression Byte.x00;
   EBegin;
   EBatch 1700000000002 [{| be_entry_type := FileRecordEntry; be_key := key_of Byte.x02; be_value := lit "file"; be_kv_type := 1 |};
                         {| be_entry_type := DirectoryIndex; be_key := key_of Byte.x03; be_value := lit "dir"; be_kv_type := 2 |}];
   EUpdateHead 1700000000003 (key_of Byte.x03);
   EEnd;
   ERemove (key_of Byte.x02);
   EStore 1700000000004 Chunk (key_of Byte.x01) (lit "hello again") Byte.x00 NoCompression Byte.x00].

Lemma sample_engine_cmds_wf : Forall engine_cmd_wf sample_engine_cmds.
Proof. repeat constructor; concrete. Qed.

Lemma keys_fit_few `{ToScalar} nvt keys : (size keys <= 32)%nat -> keys_fit nvt keys.
Proof.
  intros Hs b. unfold MAX_ENTRIES_PER_PAGE. transitivity (Z.of_nat (size keys)); [|lia]. apply Nat2Z.inj_le, subseteq_size. set_solver.
Qed.

Lemma engine_refines_map_witness :
  exists s, StorageEngine_create 1700000000000 = Ok s /\
    runs (for_each sample_engine_cmds run_engine) s (fun _ s' => serves s' (spec_engine_run sample_engine_cmds ∅)).
Proof.
  apply (engine_refines_map 1700000000000 sample_engine_cmds).
  - concrete.
  - exact sample_engine_cmds_wf.
  - vm_compute. reflexivity.
  - apply keys_fit_few. vm_compute. lia.
Defined.

(** A database in which an entry was stored and removed: its bytes are garbage. *)
Definition garbage_cmds : list engine_cmd :=
  [EStore 1700000000001 Chunk (key_of Byte.x01) (lit "hello") Byte.x00 NoCompression Byte.x00; ERemove (key_of Byte.x01)].

Definition garbage_run : option (res unit * StorageEngine) :=
  match StorageEngine_create 1700000000000 with Ok s => for_each garbage_cmds run_engine s | _ => None end.

Lemma garbage_fields :
  match garbage_run with
  | Some (Ok tt, s) => Some (by_offset (se_void_manager s), wal_start (se_kv s), aw_current_offset (se_writer s), dk_bucket_count (se_kv s))
  | _ => None
  end = Some (∅, 66048, 66148, 45).
Proof. vm_compute. reflexivity. Qed.

Lemma garbage_ok : exists s m, garbage_run = Some (Ok tt, s) /\ engine_ok s m ∅ /\ dom m ⊆ {[key_of Byte.x01]}.
Proof.
  unfold garbage_run. destruct (create_engine_ok 1700000000000) as (s & Ec & E & Hcur & Hcount); [concrete|].
  destruct (run_engines_ok garbage_cmds ltac:(repeat constructor; concrete) s ∅ ∅ E) as ([] & s' & Er & m' & E' & Hd & _).
  - rewrite Hcur. vm_compute. reflexivity.
  - apply keys_fit_few. vm_compute. lia.
  - exists s', m'. rewrite Ec. split; [exact Er|]. clear Ec Er. split; [exact E'|].
    etransitivity; [exact Hd|]. rewrite dom_empty_L. change (cmds_keys garbage_cmds) with ({[key_of Byte.x01]} ∪ (∅ ∪ ∅) : gset bytes). set_solver.
Qed.

Lemma engine_reclaims_witness : exists s, garbage_run = Some (Ok tt, s) /\
  runs (se_write_void_at 1700000000005 66048 100 ;; for_each sample_engine_cmds run_engine) s (fun _ s' =>
    serves s' (spec_engine_run sample_engine_cmds ∅)).
Proof.
  destruct garbage_ok as (s & m & Er & E & Hd). exists s. split; [exact Er|]. pose proof garbage_fields as Hf.
  rewrite Er in Hf. injection Hf as Hv Hw Hc Hn. clear Er.
  assert (Hnone : forall h e, live (m !! h) = Some e -> False).
  { intros h e He. destruct (co_live _ _ _ _ _ _ (eo_content _ _ _ _ _ (en_parts _ _ _ E)) h e He) as (v & Hv' & _).
    by rewrite lookup_empty in Hv'. }
  apply (engine_reclaims s m ∅ 1700000000005 66048 100 sample_engine_cmds E).
  - concrete.
  - unfold reclaimable. rewrite Hw, Hc, Hv. split; [lia|]. split; [lia|]. split.
    + intros h e i He. by destruct (Hnone h e).
    + intros i _ (o & z & Ho & _). by rewrite lookup_empty in Ho.
  - vm_compute. split; congruence.
  - exact sample_engine_cmds_wf.
  - rewrite Hc. vm_compute. reflexivity.
  - apply keys_fit_few. transitivity (size ({[key_of Byte.x01]} ∪ cmds_keys sample_engine_cmds)).
    + apply subseteq_size. set_solver.
    + vm_compute. lia.
Defined.

