(* ===== verification/OpTracker.v ===== *)
(** The tracker of running engine operations (EngineOperationTracker and
    EngineOperationGuard in src/aeordb-lib/src/engine/storage_engine.rs, lines 174-305).

    Threads enter and leave operations concurrently; an operation nested in one the
    thread already runs on the same engine is not counted.  The steps of all threads
    interleave freely ([step]); each holds the tracker's mutex, so it is atomic.  When
    the count is zero no thread is inside an operation, and once shutdown has begun no
    thread outside gets in: the shutdown flush runs alone. *)
From S2P Require Import Prelude.

Local Open Scope Z_scope.

Record EngineOperationState := {
  os_shutting_down : bool;
  os_active_operations : Z;
  os_operations : gmap string Z;
}.

Record EngineOperationGuard := {
  og_operation : string;
  og_engine_id : Z;
  og_counted : bool;
}.

Definition EngineOperationState_default : EngineOperationState :=
  {| os_shutting_down := false; os_active_operations := 0; os_operations := ∅ |}.

(** [begin]: the thread's stack of engine ids ([ENGINE_OPERATION_STACK], innermost
    first) gains an id exactly when a guard is returned. *)
Definition tracker_begin (engine_id : Z) (operation : string) (stack : list Z) (state : EngineOperationState)
    : res EngineOperationGuard * list Z * EngineOperationState :=
  let nested := existsb (fun held => held =? engine_id) stack in
  if nested then
    (Ok {| og_operation := operation; og_engine_id := engine_id; og_counted := false |}, engine_id :: stack, state)
  else if os_shutting_down state then (Err ShuttingDown, stack, state)
  else
    (Ok {| og_operation := operation; og_engine_id := engine_id; og_counted := true |}, engine_id :: stack,
     {| os_shutting_down := os_shutting_down state;
        os_active_operations := os_active_operations state + 1;
        os_operations := <[operation := default 0 (os_operations state !! operation) + 1]> (os_operations state) |}).

Definition tracker_begin_shutdown (state : EngineOperationState) : EngineOperationState :=
  {| os_shutting_down := true; os_active_operations := os_active_operations state; os_operations := os_operations state |}.

(** [Drop::drop] of a guard. *)
Definition guard_drop (guard : EngineOperationGuard) (stack : list Z) (state : EngineOperationState)
    : list Z * EngineOperationState :=
  let stack := tail stack in
  if negb (og_counted guard) then (stack, state) else
  let operations := match os_operations state !! og_operation guard with
    | Some count =>
      let count := saturating_sub count 1 in
      if count =? 0 then delete (og_operation guard) (os_operations state)
      else <[og_operation guard := count]> (os_operations state)
    | None => os_operations state
    end in
  (stack, {| os_shutting_down := os_shutting_down state;
             os_active_operations := saturating_sub (os_active_operations state) 1;
             os_operations := operations |}).

(** ** Threads *)

(** The guards each thread holds, innermost first: they are local variables, so they
    are dropped in the reverse order of their creation. *)
Record Threads := { th_held : list (list EngineOperationGuard); th_state : EngineOperationState }.

Definition stack_of (held : list EngineOperationGuard) : list Z := og_engine_id <$> held.

Section Tracker.
(** The engine the tracker belongs to. *)
Variable eid : Z.

Inductive step : Threads -> Threads -> Prop :=
| step_begin t held op g stack state ths st :
    ths !! t = Some held -> tracker_begin eid op (stack_of held) st = (Ok g, stack, state) ->
    step {| th_held := ths; th_state := st |} {| th_held := <[t := g :: held]> ths; th_state := state |}
| step_refused t held op stack state ths st e :
    ths !! t = Some held -> tracker_begin eid op (stack_of held) st = (Err e, stack, state) ->
    step {| th_held := ths; th_state := st |} {| th_held := ths; th_state := state |}
| step_drop t g held stack state ths st :
    ths !! t = Some (g :: held) -> og_engine_id g = eid -> guard_drop g (stack_of (g :: held)) st = (stack, state) ->
    step {| th_held := ths; th_state := st |} {| th_held := <[t := held]> ths; th_state := state |}
(* a guard of another engine on the same thread *)
| step_other t held g ths st :
    ths !! t = Some held -> og_engine_id g <> eid ->
    step {| th_held := ths; th_state := st |} {| th_held := <[t := g :: held]> ths; th_state := st |}
| step_other_drop t g held ths st :
    ths !! t = Some (g :: held) -> og_engine_id g <> eid ->
    step {| th_held := ths; th_state := st |} {| th_held := <[t := held]> ths; th_state := st |}
| step_shutdown ths st :
    step {| th_held := ths; th_state := st |} {| th_held := ths; th_state := tracker_begin_shutdown st |}.

Definition initial (n : nat) : Threads := {| th_held := replicate n []; th_state := EngineOperationState_default |}.

(** ** Invariant *)

Definition ours (g : EngineOperationGuard) : bool := og_engine_id g =? eid.
Definition counts (g : EngineOperationGuard) : bool := ours g && og_counted g.

(** Of the guards on this engine a thread holds, exactly the outermost is counted. *)
Fixpoint well_nested (held : list EngineOperationGuard) : Prop :=
  match held with
  | [] => True
  | g :: held => well_nested held /\ (ours g = true -> og_counted g = negb (existsb ours held))
  end.

Definition n_counted (held : list EngineOperationGuard) : nat := length (filter (fun g => counts g = true) held).
Definition n_named (op : string) (held : list EngineOperationGuard) : nat :=
  length (filter (fun g => counts g = true /\ og_operation g = op) held).

Definition total (f : list EngineOperationGuard -> nat) (ths : list (list EngineOperationGuard)) : nat := sum_list_with f ths.

Record tracker_ok (s : Threads) : Prop := {
  to_nested : Forall well_nested (th_held s);
  to_active : os_active_operations (th_state s) = Z.of_nat (total n_counted (th_held s));
  to_named : forall op, default 0 (os_operations (th_state s) !! op) = Z.of_nat (total (n_named op) (th_held s))
    /\ os_operations (th_state s) !! op <> Some 0;
}.

Lemma total_update f t held held' ths : ths !! t = Some held ->
  (total f (<[t := held']> ths) + f held = total f ths + f held')%nat.
Proof.
  unfold total. revert t. induction ths as [|x ths IH]; intros [|t] Ht; cbn in *; simplify_eq; [lia|].
  specialize (IH t Ht). unfold insert in *. lia.
Qed.

Lemma existsb_stack held : existsb (fun id => id =? eid) (stack_of held) = existsb ours held.
Proof. induction held as [|g held IH]; [done|]. cbn [stack_of fmap list_fmap existsb]. by f_equal. Qed.

Lemma n_counted_cons g held : n_counted (g :: held) = ((if counts g then 1 else 0) + n_counted held)%nat.
Proof. unfold n_counted. rewrite filter_cons. by destruct (counts g). Qed.

Lemma n_named_cons op g held :
  n_named op (g :: held) = ((if counts g && bool_decide (og_operation g = op) then 1 else 0) + n_named op held)%nat.
Proof.
  unfold n_named. rewrite filter_cons. destruct (counts g); cbn [andb]; [|by rewrite decide_False by naive_solver].
  case_bool_decide; [rewrite decide_True by done|rewrite decide_False by naive_solver]; done.
Qed.

(** Inside an operation of this engine a thread holds one counted guard. *)
Lemma well_nested_counted held : well_nested held -> n_counted held = if existsb ours held then 1%nat else 0%nat.
Proof.
  induction held as [|g held IH]; [done|]. intros [Hn Hg]. rewrite n_counted_cons, (IH Hn). cbn [existsb]. unfold counts.
  destruct (ours g) eqn:Eg; cbn [andb orb]; [|done]. rewrite Hg by done. by destruct (existsb ours held).
Qed.

(** ** Preservation *)

Lemma begin_ours op stack st g stack' st' :
  tracker_begin eid op stack st = (Ok g, stack', st') ->
  ours g = true /\ og_operation g = op /\ og_counted g = negb (existsb (fun id => id =? eid) stack)
  /\ stack' = eid :: stack.
Proof.
  unfold tracker_begin, ours. destruct (existsb _ stack) eqn:En; [intros [= <- <- <-]|].
  - cbn. by rewrite Z.eqb_refl.
  - destruct (os_shutting_down st); intros [= <- <- <-]. cbn. by rewrite Z.eqb_refl.
Qed.

(** A guard of another engine changes nothing that is counted. *)
Lemma other_ok t held held' ths st :
  tracker_ok {| th_held := ths; th_state := st |} -> ths !! t = Some held ->
  (well_nested held -> well_nested held') ->
  n_counted held' = n_counted held -> (forall op, n_named op held' = n_named op held) ->
  tracker_ok {| th_held := <[t := held']> ths; th_state := st |}.
Proof.
  intros [Hn Ha Ho] Ht Hw Hc Hop. cbn [th_held th_state] in *. split; cbn [th_held th_state].
  - apply Forall_insert; [done|]. apply Hw. by apply (Forall_lookup_1 _ _ _ _ Hn Ht).
  - pose proof (total_update n_counted t held held' ths Ht). rewrite Ha. lia.
  - intros op. destruct (Ho op) as [Ho1 Ho2]. split; [|done].
    pose proof (total_update (n_named op) t held held' ths Ht). specialize (Hop op). rewrite Ho1. lia.
Qed.

Lemma begin_ok t held op g stack st' ths st :
  tracker_ok {| th_held := ths; th_state := st |} -> ths !! t = Some held ->
  tracker_begin eid op (stack_of held) st = (Ok g, stack, st') ->
  tracker_ok {| th_held := <[t := g :: held]> ths; th_state := st' |}.
Proof.
  intros [Hn Ha Ho] Ht Hb. destruct (begin_ours _ _ _ _ _ _ Hb) as (Hg & Hop & Hc & _).
  rewrite existsb_stack in Hc. cbn [th_held th_state] in *.
  pose proof (Forall_lookup_1 _ _ _ _ Hn Ht) as Hh.
  unfold tracker_begin in Hb. rewrite existsb_stack in Hb.
  destruct (existsb ours held) eqn:En; cbn [negb] in *.
  - injection Hb as <- <- <-. apply (other_ok t held); [by split|done|intros ?; split; [done|by rewrite En]|..].
    + rewrite n_counted_cons. unfold counts. by rewrite andb_false_r.
    + intros op'. rewrite n_named_cons. unfold counts. by rewrite andb_false_r.
  - destruct (os_shutting_down st); [done|]. injection Hb as _ <- <-.
    split; cbn [th_held th_state os_active_operations os_operations].
    + apply Forall_insert; [done|]. split; [done|]. by rewrite En, Hc.
    + pose proof (total_update n_counted t held (g :: held) ths Ht) as Ht'. rewrite n_counted_cons in Ht'.
      unfold counts in Ht' at 1. rewrite Hg, Hc in Ht'. cbn [andb] in Ht'. rewrite Ha. lia.
    + intros op'. pose proof (total_update (n_named op') t held (g :: held) ths Ht) as Ht'.
      rewrite n_named_cons in Ht'. unfold counts in Ht' at 1. rewrite Hg, Hc, Hop in Ht'.
      cbn [andb] in Ht'. destruct (Ho op') as [Ho1 Ho2]. destruct (decide (op = op')) as [->|Hne].
      * rewrite lookup_insert_eq. rewrite bool_decide_true in Ht' by done. cbn [default from_option id].
        split; [lia|]. intros [= Hz]. lia.
      * rewrite lookup_insert_ne by done. rewrite bool_decide_false in Ht' by done. split; [lia|done].
Qed.

Lemma drop_ok t held g stack st' ths st :
  tracker_ok {| th_held := ths; th_state := st |} -> ths !! t = Some (g :: held) -> og_engine_id g = eid ->
  guard_drop g (stack_of (g :: held)) st = (stack, st') ->
  tracker_ok {| th_held := <[t := held]> ths; th_state := st' |}.
Proof.
  intros Hok Ht Hg Hd. unfold guard_drop in Hd. assert (Hours : ours g = true) by (unfold ours; by rewrite Hg, Z.eqb_refl).
  destruct (og_counted g) eqn:Ec; cbn [negb] in Hd; injection Hd as <- <-.
  - destruct Hok as [Hn Ha Ho]. cbn [th_held th_state] in *. split; cbn [th_held th_state os_active_operations os_operations].
    + apply Forall_insert; [done|]. by apply (Forall_lookup_1 _ _ _ _ Hn Ht).
    + pose proof (total_update n_counted t (g :: held) held ths Ht) as Ht'. rewrite n_counted_cons in Ht'.
      unfold counts in Ht' at 1. rewrite Hours, Ec in Ht'. cbn [andb] in Ht'. rewrite Ha. unfold saturating_sub. lia.
    + intros op. pose proof (total_update (n_named op) t (g :: held) held ths Ht) as Ht'. rewrite n_named_cons in Ht'.
      unfold counts in Ht' at 1. rewrite Hours, Ec in Ht'. cbn [andb] in Ht'. destruct (Ho op) as [Ho1 Ho2].
      destruct (Ho (og_operation g)) as [Hg1 Hg2].
      destruct (os_operations st !! og_operation g) as [count|] eqn:Ecount; cbn [default from_option id] in Hg1.
      * destruct (decide (og_operation g = op)) as [<-|Hne].
        -- rewrite bool_decide_true in Ht' by done. unfold saturating_sub.
           destruct (Z.eqb_spec (Z.max 0 (count - 1)) 0);
             [rewrite lookup_delete_eq|rewrite lookup_insert_eq]; cbn [default from_option id]; (split; [lia|congruence]).
        -- rewrite bool_decide_false in Ht' by done.
           destruct (saturating_sub count 1 =? 0); [rewrite lookup_delete_ne by done|rewrite lookup_insert_ne by done];
             (split; [lia|done]).
      * destruct (decide (og_operation g = op)) as [<-|Hne].
        -- rewrite bool_decide_true in Ht' by done. lia.
        -- rewrite bool_decide_false in Ht' by done. split; [lia|done].
  - apply (other_ok t (g :: held)); [done..|by intros [? _]| |].
    + rewrite n_counted_cons. unfold counts. by rewrite Ec, andb_false_r.
    + intros op. rewrite n_named_cons. unfold counts. by rewrite Ec, andb_false_r.
Qed.

Lemma step_ok s s' : step s s' -> tracker_ok s -> tracker_ok s'.
Proof.
  intros Hst Hok. destruct Hst as [t held op g stack st' ths st Ht Hb|t held op stack st' ths st e Ht Hb
    |t g held stack st' ths st Ht Hg Hd|t held g ths st Ht Hg|t g held ths st Ht Hg|ths st].
  - by apply (begin_ok t held op g stack st' ths st).
  - unfold tracker_begin in Hb. repeat case_match; by simplify_eq.
  - by apply (drop_ok t held g stack st' ths st).
  - apply (other_ok t held); [done..| | |]; assert (Ho : ours g = false) by (by apply Z.eqb_neq).
    + intros Hh. split; [done|]. by rewrite Ho.
    + rewrite n_counted_cons. unfold counts. by rewrite Ho.
    + intros op. rewrite n_named_cons. unfold counts. by rewrite Ho.
  - apply (other_ok t (g :: held)); [done..|by intros [? _]| |]; assert (Ho : ours g = false) by (by apply Z.eqb_neq).
    + rewrite n_counted_cons. unfold counts. by rewrite Ho.
    + intros op. rewrite n_named_cons. unfold counts. by rewrite Ho.
  - destruct Hok as [Hn Ha Ho]. by split.
Qed.

Lemma reachable_ok n s : rtc step (initial n) s -> tracker_ok s.
Proof.
  intros Hr. cut (tracker_ok (initial n)).
  { revert Hr. induction 1 as [|? ? ? Hs _ IH]; [done|]. intros. apply IH. by eapply step_ok. }
  assert (Hz : forall f, f [] = 0%nat -> total f (replicate n []) = 0%nat).
  { clear Hr. intros f Hf. unfold total. induction n as [|n IH]; cbn; [done|]. by rewrite Hf, IH. }
  split; cbn.
  - apply Forall_replicate. done.
  - by rewrite Hz.
  - intros op. by rewrite lookup_empty, Hz.
Qed.

(** Inside an operation of this engine. *)
Definition busy (held : list EngineOperationGuard) : bool := existsb ours held.

(** The tracker's count is the number of threads inside an operation of the engine,
    whatever the interleaving, nesting and mixing with other engines: when it is zero,
    as shutdown waits for, no thread is inside one. *)
Theorem active_operations_count n s : rtc step (initial n) s ->
  os_active_operations (th_state s) = zlen (filter (fun held => busy held = true) (th_held s)).
Proof.
  intros [Hn Ha _]%reachable_ok. rewrite Ha. unfold zlen. f_equal. clear Ha.
  induction Hn as [|held ths Hh _ IH]; [done|]. cbn [total sum_list_with]. fold (total n_counted ths).
  rewrite IH, filter_cons, (well_nested_counted _ Hh). unfold busy.
  destruct (existsb ours held); [by rewrite decide_True|by rewrite decide_False].
Qed.

Lemma step_shutting_down s s' : step s s' -> os_shutting_down (th_state s) = true -> os_shutting_down (th_state s') = true.
Proof.
  destruct 1 as [t held op g stack st' ths st Ht Hb|t held op stack st' ths st e Ht Hb
    |t g held stack st' ths st Ht Hg Hd|t held g ths st Ht Hg|t g held ths st Ht Hg|ths st]; cbn; try done; intros Hsd.
  - unfold tracker_begin in Hb. repeat case_match; by simplify_eq/=.
  - unfold tracker_begin in Hb. repeat case_match; by simplify_eq/=.
  - unfold guard_drop in Hd. case_match; by simplify_eq/=.
Qed.

Lemma step_idle_stays s s' t held : step s s' -> os_shutting_down (th_state s) = true ->
  th_held s !! t = Some held -> busy held = false ->
  exists held', th_held s' !! t = Some held' /\ busy held' = false.
Proof.
  unfold busy. destruct 1 as [t' held0 op g stack st' ths st Ht Hb|t' held0 op stack st' ths st e Ht Hb
    |t' g held0 stack st' ths st Ht Hg Hd|t' held0 g ths st Ht Hg|t' g held0 ths st Ht Hg|ths st];
    cbn [th_held th_state]; intros Hsd Hl Hidle; [|by exists held|..|by exists held].
  all: destruct (decide (t = t')) as [<-|Hne]; [|exists held; by rewrite list_lookup_insert_ne].
  all: rewrite list_lookup_insert_eq by (by eapply lookup_lt_Some); eexists; (split; [done|]).
  all: rewrite Ht in Hl; injection Hl as <-.
  - exfalso. unfold tracker_begin in Hb. rewrite existsb_stack, Hidle, Hsd in Hb. done.
  - cbn [existsb] in Hidle. by apply orb_false_iff in Hidle as [_ ?].
  - cbn [existsb]. unfold ours at 1. by rewrite (proj2 (Z.eqb_neq _ _) Hg).
  - cbn [existsb] in Hidle. by apply orb_false_iff in Hidle as [_ ?].
Qed.


(** ** Draining *)

(** A thread returns from its innermost operation. *)
Inductive release : Threads -> Threads -> Prop :=
| release_one t g held s s' :
    th_held s !! t = Some (g :: held) -> th_held s' = <[t := held]> (th_held s) -> step s s' -> release s s'.

Lemma release_exists t g held ths st : ths !! t = Some (g :: held) ->
  exists s', release {| th_held := ths; th_state := st |} s'.
Proof.
  intros Ht. destruct (decide (og_engine_id g = eid)) as [E|E].
  - destruct (guard_drop g (stack_of (g :: held)) st) as [stack st'] eqn:Ed.
    eexists. by eapply release_one; [done| |by eapply step_drop].
  - eexists. by eapply release_one; [done| |by eapply step_other_drop].
Qed.

Lemma release_shrinks s s' : release s s' -> (total length (th_held s') < total length (th_held s))%nat.
Proof.
  intros [t g held s0 s1 Ht E _]. rewrite E. pose proof (total_update length t (g :: held) held _ Ht). cbn [length] in *. lia.
Qed.

(** C19. The tracker does not block shutdown: from every reachable state, when the running
    threads return, in whatever order, the count reaches zero, after at most as many
    returns as there are guards. *)
Theorem shutdown_drains n s : rtc step (initial n) s ->
  (forall k s', nsteps release k s s' -> (k <= total length (th_held s))%nat)
  /\ (forall s', rtc release s s' -> (forall s'', ~ release s' s'') -> os_active_operations (th_state s') = 0).
Proof.
  intros Hr. split.
  - intros k. revert s Hr. induction k as [|k IH]; intros s Hr s' Hs; [lia|]. inversion Hs as [|? ? s1 ? Hrel Hn]; subst.
    pose proof (release_shrinks _ _ Hrel). assert (Hst : step s s1) by (by destruct Hrel).
    specialize (IH s1 ltac:(by eapply rtc_r) s' Hn). lia.
  - intros [ths st] Hs Hmax. assert (Hr' : rtc step (initial n) {| th_held := ths; th_state := st |}).
    { etrans; [exact Hr|]. clear - Hs. induction Hs as [|? ? ? Hrel _ IH]; [done|]. eapply rtc_l; [by destruct Hrel|done]. }
    pose proof (to_active _ (reachable_ok _ _ Hr')) as Ha. cbn [th_held th_state] in *. rewrite Ha. f_equal.
    assert (Hall : Forall (fun held => held = []) ths).
    { apply Forall_lookup. intros t [|g held] Ht; [done|]. destruct (release_exists t g held ths st Ht) as [s' Hs'].
      by destruct (Hmax s'). }
    clear - Hall. induction Hall as [|held ths -> _ IH]; [done|]. exact IH.
Qed.
End Tracker.

(** ** Two threads *)

Definition guard_of (op : string) (counted : bool) : EngineOperationGuard :=
  {| og_operation := op; og_engine_id := 7; og_counted := counted |}.

(** The first thread stores an entry within a directory operation; the second reads. *)
Definition two_busy (shutting_down : bool) : Threads :=
  {| th_held := [[guard_of "store_entry" false; guard_of "directory" true]; [guard_of "get_entry" true]];
     th_state := {| os_shutting_down := shutting_down; os_active_operations := 2;
                    os_operations := <["get_entry" := 1]> (<["directory" := 1]> ∅) |} |}.

Lemma two_busy_reachable : rtc (step 7) (initial 2) (two_busy true).
Proof.
  eapply rtc_l; [eapply (step_begin 7 0 [] "directory"); reflexivity|].
  eapply rtc_l; [eapply (step_begin 7 1 [] "get_entry"); reflexivity|].
  eapply rtc_l; [eapply (step_begin 7 0 [guard_of "directory" true] "store_entry"); reflexivity|].
  eapply rtc_l; [apply step_shutdown|]. apply rtc_refl.
Qed.

Lemma active_operations_count_witness :
  os_active_operations (th_state (two_busy true)) = zlen (filter (fun held => busy 7 held = true) (th_held (two_busy true))).
Proof. exact (active_operations_count 7 2 (two_busy true) two_busy_reachable). Defined.

Lemma shutdown_drains_witness :
  (forall k s', nsteps (release 7) k (two_busy true) s' -> (k <= total length (th_held (two_busy true)))%nat)
  /\ (forall s', rtc (release 7) (two_busy true) s' -> (forall s'', ~ release 7 s' s'') -> os_active_operations (th_state s') = 0).
Proof. exact (shutdown_drains 7 2 (two_busy true) two_busy_reachable). Defined.

