(* ===== verification/EngineChunks.v ===== *)
(** Chunks as the storage engine reads them
    (src/aeordb-lib/src/engine/storage_engine.rs, lines 1843-2070, and [decompress] of
    compression.rs): one at a time, or several from one span of the log. *)
From S2P Require Import Prelude Sorted Codec EntryFormat Records KvEntry KvPages FileIo HotTail FileHeader VoidManager AppendWriter Converters Nvt StateM BTree KvSnapshot DiskKv StorageEngine.

Local Open Scope Z_scope.

(** [zstd::decode_all]. *)
Class ZstdDecode := zstd_decode_all : bytes -> res bytes.

Record ChunkEntryMetadata := {
  cm_offset : Z;
  cm_total_length : Z;
  cm_stored_value_length : Z;
  cm_raw_value_length : option Z;
  cm_compression_algo : CompressionAlgorithm;
}.

Record ChunkReadLocation := {
  cl_hash : bytes;
  cl_offset : Z;
  cl_total_length : Z;
}.

Section Chunks.
Context `{Crc32, Blake3, ToScalar, HashOrder, ZstdDecode}.

Definition decompress (data : bytes) (algorithm : CompressionAlgorithm) : res bytes :=
  match algorithm with NoCompression => Ok data | Zstd => zstd_decode_all data end.

Definition decode_chunk_entry (header : EntryHeader) (value : bytes) : res bytes :=
  if negb (bool_decide (eh_entry_type header = Chunk)) then Err (InvalidInput "Hash {} is not a chunk entry") else
  match eh_compression_algo header with
  | NoCompression => Ok value
  | algo => decompress value algo
  end.

Definition decode_found (o : res (option EntryData)) : res (option bytes) :=
  o ← o;
  match o with
  | Some (header, _, value) => data ← decode_chunk_entry header value; Ok (Some data)
  | None => Ok None
  end.

Definition read_chunk (s : StorageEngine) (hash : bytes) : res (option bytes) := decode_found (get_entry s hash).
Definition read_chunk_including_deleted (s : StorageEngine) (hash : bytes) : res (option bytes) :=
  decode_found (get_entry_including_deleted s hash).
Definition read_chunk_verified (s : StorageEngine) (hash : bytes) : res (option bytes) :=
  decode_found (get_entry_verified s hash).
Definition read_chunk_verified_including_deleted (s : StorageEngine) (hash : bytes) : res (option bytes) :=
  decode_found (get_entry_verified_including_deleted s hash).

(** The value's length from the index entry alone. *)
Definition get_chunk_metadata (s : StorageEngine) (hash : bytes) : res (option ChunkEntryMetadata) :=
  guarded s (
    o ← live_kv_entry s hash;
    match o with
    | None => Ok None
    | Some kv_entry =>
      if negb (kv_entry_type kv_entry =? KV_TYPE_CHUNK) then Err (InvalidInput "Hash {} is not a chunk entry") else
      let hash_length := hash_length (se_hash_algo s) in
      let overhead := FIXED_HEADER_SIZE + hash_length + hash_length in
      if kv_total_length kv_entry <? overhead
      then Err (CorruptEntry (kv_offset kv_entry) "chunk KV entry total_length {} is smaller than header+key overhead {}") else
      let stored_value_length := kv_total_length kv_entry - overhead in
      Ok (Some {| cm_offset := kv_offset kv_entry; cm_total_length := kv_total_length kv_entry;
                  cm_stored_value_length := stored_value_length; cm_raw_value_length := Some stored_value_length;
                  cm_compression_algo := NoCompression |})
    end).

(** ** Several chunks from one span *)

Definition decode_verified_chunk_entry_from_buffer (requested_hash : bytes) (entry_offset : Z) (entry_buffer : bytes)
    : res bytes :=
  if zlen entry_buffer <? FIXED_HEADER_SIZE then Err (CorruptEntry entry_offset "Entry buffer too short: {} bytes") else
  let hash_algo_raw := le_val (slice entry_buffer 7 9) in
  hash_algo ← ok_or (HashAlgorithm_from_u16 hash_algo_raw) (InvalidHashAlgorithm hash_algo_raw);
  let full_header_size := FIXED_HEADER_SIZE + hash_length hash_algo in
  if zlen entry_buffer <? full_header_size
  then Err (CorruptEntry entry_offset "Entry buffer too short for full header: {} bytes") else
  '(header, _) ← EntryHeader_deserialize (slice entry_buffer 0 full_header_size);
  if negb (eh_total_length header =? zlen entry_buffer)
  then Err (CorruptEntry entry_offset "Entry total_length {} does not match buffered length {}") else
  if negb (payload_fits header)
  then Err (CorruptEntry entry_offset "key_length ({}) + value_length ({}) exceeds total_length ({}) minus header ({})") else
  let key_start := full_header_size in
  let key_end := key_start + eh_key_length header in
  let value_end := key_end + eh_value_length header in
  if zlen entry_buffer <? value_end
  then Err (CorruptEntry entry_offset "Entry payload extends past buffered length {}") else
  key ← slice_chk entry_buffer key_start key_end;
  value ← slice_chk entry_buffer key_end value_end;
  if negb (bool_decide (key = requested_hash))
  then Err (CorruptEntry entry_offset "Chunk key mismatch: expected {}, found {}") else
  if negb (verify header key value)
  then Err (CorruptEntry entry_offset "Hash verification failed for entry at offset {}. Data may be corrupt.") else
  decode_chunk_entry header value.

(** The checks of one location against the index. *)
Definition check_location (s : StorageEngine) (location : ChunkReadLocation) : res unit :=
  o ← live_kv_entry s (cl_hash location);
  match o with
  | None => Err (NotFound "Chunk not found: {}")
  | Some kv_entry =>
    if negb (kv_entry_type kv_entry =? KV_TYPE_CHUNK) then Err (InvalidInput "Hash {} is not a chunk entry") else
    if negb ((kv_offset kv_entry =? cl_offset location) && (kv_total_length kv_entry =? cl_total_length location))
    then Err (CorruptEntry (cl_offset location)
      "Chunk KV entry moved while planning span: expected offset {} length {}, found offset {} length {}") else
    _ ← validate_kv_entry_offset (se_writer s) kv_entry;
    if u64_max <? cl_offset location + cl_total_length location
    then Err (InvalidInput "Chunk span offset overflowed") else Ok tt
  end.

(** The span that covers the locations. *)
Fixpoint plan_span (s : StorageEngine) (locations : list ChunkReadLocation) (span : Z * Z) : res (Z * Z) :=
  match locations with
  | [] => Ok span
  | location :: locations =>
    _ ← check_location s location;
    plan_span s locations (Z.min span.1 (cl_offset location), Z.max span.2 (cl_offset location + cl_total_length location))
  end.

Fixpoint decode_span (span : bytes) (span_start : Z) (locations : list ChunkReadLocation) : res (list bytes) :=
  match locations with
  | [] => Ok []
  | location :: locations =>
    if cl_offset location <? span_start then Err (InvalidInput "Chunk span relative offset underflowed") else
    let relative_start := cl_offset location - span_start in
    let relative_end := relative_start + cl_total_length location in
    if u64_max <? relative_end then Err (InvalidInput "Chunk span relative end overflowed") else
    if zlen span <? relative_end
    then Err (CorruptEntry (cl_offset location) "Chunk entry extends past buffered span: {} > {}") else
    chunk ← decode_verified_chunk_entry_from_buffer (cl_hash location) (cl_offset location)
      (slice span relative_start relative_end);
    rest ← decode_span span span_start locations;
    Ok (chunk :: rest)
  end.

Definition read_chunk_span_verified (s : StorageEngine) (locations : list ChunkReadLocation) : res (list bytes) :=
  guarded s (
    if bool_decide (locations = []) then Ok [] else
    '(span_start, span_end) ← plan_span s locations (u64_max, 0);
    if span_end <? span_start then Err (InvalidInput "Chunk span length underflowed") else
    span ← file_read (aw_file (se_writer s)) span_start (span_end - span_start);
    decode_span span span_start locations).

(** ** One read of a span equals a read per chunk *)

Lemma file_read_split file a n b : 0 <= a -> 0 <= n -> file_read file a n = Ok b ->
  zlen b = n /\ exists rest, suffix_at file a (b ++ rest).
Proof.
  intros Ha Hn. unfold file_read. intros [Hl%Z.ltb_ge [= <-]]%if_Err_Ok.
  split; [rewrite zlen_slice; lia|]. exists (drop (Z.to_nat (a + n)) file), (take (Z.to_nat a) file). split.
  - rewrite <- (take_drop (Z.to_nat a) file) at 1. f_equal. unfold slice.
    rewrite <- (take_drop (Z.to_nat n) (drop (Z.to_nat a) file)) at 1. rewrite drop_drop. f_equal; do 2 f_equal; lia.
  - unfold zlen in *. rewrite length_take. lia.
Qed.

Lemma file_read_sub file a n b r len : 0 <= a -> 0 <= r -> 0 <= len -> r + len <= n ->
  file_read file a n = Ok b -> file_read file (a + r) len = Ok (slice b r (r + len)).
Proof.
  intros Ha Hr Hl Hn. unfold file_read. intros [Hfit%Z.ltb_ge [= <-]]%if_Err_Ok.
  rewrite (proj2 (Z.ltb_ge _ _)) by lia. f_equal. unfold slice at 3. rewrite slice_take by lia.
  rewrite slice_drop by lia. f_equal; lia.
Qed.

(** A buffer that decodes to a chunk is read as an entry with the requested key. *)
Lemma buffer_entry file off hash b rest c :
  suffix_at file off (b ++ rest) -> decode_verified_chunk_entry_from_buffer hash off b = Ok c ->
  exists h v, read_entry_at_shared_opt file off true = Ok (h, hash, v) /\ decode_chunk_entry h v = Ok c.
Proof.
  intros Hs Hd. unfold decode_verified_chunk_entry_from_buffer in Hd.
  apply if_Err_Ok in Hd as [_ Hd]. cbv zeta in Hd.
  apply bind_Ok in Hd as (algo & Ea%ok_or_Ok & Hd). apply if_Err_Ok in Hd as [Hl%Z.ltb_ge Hd].
  apply bind_Ok in Hd as ([h r] & Ed & Hd). cbv beta iota in Hd.
  apply if_Err_Ok in Hd as [Ht%negb_false_iff%Z.eqb_eq Hd].
  apply if_Err_Ok in Hd as [Hp Hd]. apply if_Err_Ok in Hd as [_ Hd].
  apply bind_Ok in Hd as (k & Ek & Hd). apply bind_Ok in Hd as (v & Ev & Hd).
  apply if_Err_Ok in Hd as [->%negb_false_iff%bool_decide_eq_true Hd].
  apply if_Err_Ok in Hd as [Hv Hd].
  pose proof (hash_length_pos algo) as Hpos.
  set (fhs := FIXED_HEADER_SIZE + hash_length algo) in *.
  assert (Hhead : slice b 0 fhs ++ drop (Z.to_nat fhs) b = b).
  { unfold slice. rewrite drop_0, Z.sub_0_r. apply take_drop. }
  assert (Hsl : slice (slice b 0 fhs) 7 9 = slice b 7 9).
  { rewrite <- Hhead at 2. rewrite slice_app_l; [done|lia|].
    all: rewrite ?zlen_slice; unfold fhs, FIXED_HEADER_SIZE in *; lia. }
  rewrite <- Hsl in Ea.
  pose proof (deserialize_exact _ _ _ _ Ed Ea ltac:(rewrite zlen_slice; unfold fhs, FIXED_HEADER_SIZE in *; lia)) as ->.
  pose proof (EntryHeader_encode_decode _ _ _ Ed) as [Hser Hwf]. rewrite app_nil_r in Hser.
  assert (Hs' := Hs). rewrite <- Hhead, Hser, <- app_assoc in Hs'.
  destruct (shared_fixed _ _ _ _ Hs' Hwf) as (fixed & E1 & E2 & E3).
  rewrite Hser in Ea. rewrite <- (app_nil_r (EntryHeader_serialize h)) in Ea.
  rewrite (proj1 (serialized_fields h [] Hwf)), le_val_u16, HashAlgorithm_to_from in Ea by apply HashAlgorithm_u16.
  injection Ea as Ea.
  exists h, v. split; [|done]. unfold read_entry_at_shared_opt. rewrite E1, bind_ret. cbv zeta.
  rewrite E2. cbn [ok_or]. rewrite bind_ret, E3, Ht, (file_read_at _ _ _ _ _ Hs eq_refl), bind_ret, Ea. fold fhs.
  assert (Hchk : slice_chk b 0 fhs = Ok (slice b 0 fhs)).
  { unfold slice_chk. rewrite (proj2 (Z.leb_le 0 fhs)), (proj2 (Z.leb_le fhs _)) by (unfold fhs, FIXED_HEADER_SIZE in *; lia).
    done. }
  rewrite Hchk, bind_ret, Ed, bind_ret, Hp, Ek, bind_ret, Ev, bind_ret. by rewrite Hv.
Qed.

(** The types of a location's fields. *)
Definition location_typed (l : ChunkReadLocation) : Prop := is_u64 (cl_offset l) /\ is_u32 (cl_total_length l).

Lemma check_location_inv s l : check_location s l = Ok tt ->
  exists e, live_kv_entry s (cl_hash l) = Ok (Some e) /\ kv_offset e = cl_offset l
    /\ validate_kv_entry_offset (se_writer s) e = Ok tt.
Proof.
  unfold check_location. intros (o & Eo & Hc)%bind_Ok. destruct o as [e|]; [|done].
  apply if_Err_Ok in Hc as [_ Hc]. apply if_Err_Ok in Hc as [[Ho%Z.eqb_eq _]%negb_false_iff%andb_true_iff Hc].
  apply bind_Ok in Hc as ([] & Ev & _). by exists e.
Qed.

Lemma plan_span_inv s ls span span' : plan_span s ls span = Ok span' ->
  Forall (fun l => check_location s l = Ok tt) ls /\ span'.1 <= span.1 /\ span.2 <= span'.2
  /\ Forall (fun l => span'.1 <= cl_offset l) ls /\ (0 <= span.1 -> Forall location_typed ls -> 0 <= span'.1).
Proof.
  revert span. induction ls as [|l ls IH]; intros span; cbn [plan_span].
  - intros [= <-]. repeat split; auto; lia.
  - intros ([] & El & Hp)%bind_Ok. apply IH in Hp as (Hc & Hlo & Hhi & Hall & Hpos). cbn [fst snd] in *.
    repeat split; [by constructor|lia..|constructor; [lia|done]|].
    intros Hnn [[? _] Hl]%Forall_cons. apply Hpos; [|done]. unfold is_u64 in *. lia.
Qed.

Lemma decode_span_reads s file span span_start n ls chunks :
  aw_file (se_writer s) = file -> se_shutting_down s = false -> 0 <= span_start ->
  file_read file span_start n = Ok span -> zlen span = n ->
  Forall location_typed ls -> Forall (fun l => check_location s l = Ok tt) ls ->
  decode_span span span_start ls = Ok chunks ->
  Forall2 (fun l c => read_chunk_verified s (cl_hash l) = Ok (Some c)) ls chunks.
Proof.
  intros Hf Hsd Hst Hr Hn Hty Hck. revert chunks.
  induction ls as [|l ls IH]; intros chunks; cbn [decode_span]; [intros [= <-]; constructor|].
  apply Forall_cons in Hty as [[Ho Ht] Hty]. apply Forall_cons in Hck as [Hc Hck].
  intros [Hlo%Z.ltb_ge Hd]%if_Err_Ok. cbv zeta in Hd. apply if_Err_Ok in Hd as [_ Hd].
  apply if_Err_Ok in Hd as [Hhi%Z.ltb_ge Hd]. apply bind_Ok in Hd as (c & Ec & Hd).
  apply bind_Ok in Hd as (rest & Er & [= <-]). constructor; [|by apply IH].
  destruct (check_location_inv _ _ Hc) as (e & Ee & Eo & Ev).
  pose proof (file_read_sub file span_start n span (cl_offset l - span_start) (cl_total_length l)) as Hsub.
  unfold is_u64, is_u32 in *. specialize (Hsub Hst ltac:(lia) ltac:(lia) ltac:(lia) Hr).
  replace (span_start + (cl_offset l - span_start)) with (cl_offset l) in Hsub by lia.
  destruct (file_read_split file (cl_offset l) (cl_total_length l) _ ltac:(lia) ltac:(lia) Hsub) as (_ & tail & Hs).
  destruct (buffer_entry _ _ _ _ _ _ Hs Ec) as (h & v & Eh & Edec).
  unfold read_chunk_verified, get_entry_verified, guarded, get_with, read_entry. rewrite Hsd, Ee, bind_ret, Ev, bind_ret, Hf, Eo, Eh.
  unfold decode_found. rewrite !bind_ret. by rewrite Edec.
Qed.

(** C22. Whatever one read of a span returns, the verified read of each chunk returns too:
    coalescing reads never changes what is served.  The state is arbitrary, a damaged
    file or index included. *)
Theorem span_read_sound s ls chunks :
  Forall location_typed ls -> read_chunk_span_verified s ls = Ok chunks ->
  Forall2 (fun l c => read_chunk_verified s (cl_hash l) = Ok (Some c)) ls chunks.
Proof.
  intros Hty. unfold read_chunk_span_verified, guarded. destruct (se_shutting_down s) eqn:Hsd; [done|].
  case_bool_decide as Hnil; [subst; intros [= <-]; constructor|].
  intros ([a b] & Ep & Hr)%bind_Ok. cbv beta iota in Hr. apply if_Err_Ok in Hr as [Hab%Z.ltb_ge Hr].
  apply bind_Ok in Hr as (span & Es & Hd).
  destruct (plan_span_inv _ _ _ _ Ep) as (Hck & _ & _ & _ & Hpos). cbn [fst snd] in *.
  specialize (Hpos ltac:(lia) Hty).
  destruct (file_read_split _ a (b - a) _ Hpos ltac:(lia) Es) as [Hl _].
  by apply (decode_span_reads s (aw_file (se_writer s)) span a (b - a) ls).
Qed.
End Chunks.

(** ** Witnesses *)

#[local] Existing Instance crc32_ieee.
#[local] Existing Instance blake3_pad.
#[local] Existing Instance hash_to_scalar.
#[local] Existing Instance map_order.
#[local] Instance no_zstd : ZstdDecode := fun _ => Err (InvalidInput EmptyString).

Definition two_chunks : option (res Z * StorageEngine) :=
  match StorageEngine_create 1700000000000 with
  | Ok s => (store_entry 1700000000001 Chunk (replicate 32 Byte.x01) (lit "first") ;;
             store_entry 1700000000002 Chunk (replicate 32 Byte.x02) (lit "second")) s
  | _ => None
  end.

Definition two_locations : list ChunkReadLocation :=
  [{| cl_hash := replicate 32 Byte.x02; cl_offset := 66148; cl_total_length := 101 |};
   {| cl_hash := replicate 32 Byte.x01; cl_offset := 66048; cl_total_length := 100 |}].

Lemma two_chunks_span :
  match two_chunks with Some (Ok _, s) => Some (read_chunk_span_verified s two_locations) | _ => None end
  = Some (Ok [lit "second"; lit "first"]).
Proof. vm_compute. reflexivity. Qed.

Lemma span_read_sound_witness : exists off s, two_chunks = Some (Ok off, s) /\
  Forall2 (fun l c => read_chunk_verified s (cl_hash l) = Ok (Some c)) two_locations [lit "second"; lit "first"].
Proof.
  pose proof two_chunks_span as Hs. destruct two_chunks as [[[off|?|] s]|]; try discriminate Hs.
  exists off, s. split; [reflexivity|]. injection Hs as Hs.
  apply (span_read_sound s two_locations [lit "second"; lit "first"]); [|exact Hs].
  repeat constructor; concrete.
Defined.
