(* ===== verification/EngineApi.v ===== *)
(** What directories, files and versions use of the storage engine: the class [Engine]
    lists the operations, [EngineLaws] what they promise.  The storage engine keeps the
    promises (EngineImpl), and so does a plain map (EngineMem).  [Logged] adds to any
    engine the list of what was written, in which hash collisions are expressed. *)
From S2P Require Import Prelude Codec EntryFormat Records KvEntry AppendWriter StateM BTreeNode BTree BTreeSpec StorageEngine EngineContent EngineWrites EngineStore.

Local Open Scope Z_scope.

(** Deletions and restorations take snapshots at their own pace. *)
Inductive SnapshotLane := LaneDelete | LaneRestore.

(** The operations; [now] is the clock. *)
Class Engine (E : Type) := {
  e_hash_algo : E -> HashAlgorithm;
  e_get_entry : E -> bytes -> res (option EntryData);
  e_get_entry_verified : E -> bytes -> res (option EntryData);
  e_get_entry_including_deleted : E -> bytes -> res (option EntryData);
  e_get_entry_verified_including_deleted : E -> bytes -> res (option EntryData);
  e_has_entry : E -> bytes -> res bool;
  e_is_entry_deleted : E -> bytes -> res bool;
  e_entries_by_type : E -> Z -> res (list (bytes * bytes));
  e_head_hash : E -> res bytes;
  e_dir_cache : E -> gmap bytes bytes;
  e_cache_dir : bytes -> bytes -> M E unit;
  e_store : Z -> EntryType -> bytes -> bytes -> byte -> CompressionAlgorithm -> byte -> M E Z;
  e_store_typed : Z -> EntryType -> bytes -> bytes -> Z -> M E Z;
  e_flush_batch : Z -> WriteBatch -> M E (list Z);
  e_flush_batch_and_update_head : Z -> WriteBatch -> bytes -> M E (list Z);
  e_update_head : Z -> bytes -> M E unit;
  e_mark_entry_deleted : bytes -> M E unit;
  e_begin_transaction : M E unit;
  e_end_transaction : M E unit;
  e_last_auto_snapshot : SnapshotLane -> E -> Z;
  e_set_last_auto_snapshot : SnapshotLane -> Z -> M E unit;
}.

Section Api.
Context {E : Type} `{!Engine E}.

Definition e_store_entry (now : Z) (t : EntryType) (key value : bytes) : M E Z :=
  e_store now t key value (z2b 0) NoCompression CURRENT_ENTRY_VERSION.

(** A [TransactionGuard] for the rest of a function: its end runs whatever the result,
    and its error is dropped. *)
Definition in_transaction {A} (m : M E A) : M E A :=
  e_begin_transaction ;; finally m (ignore_err e_end_transaction).

(** The B-tree's view of the engine. *)
Definition version_value (d : EntryData) : Z * bytes := let '(header, _, value) := d in (b2z (eh_entry_version header), value).

Definition node_of (r : res (option EntryData)) : res (option (Z * bytes)) := o ← r; Ok (option_map version_value o).

Definition engine_nodes (now : Z) : NodeStore E := {|
  ns_get_entry s h := node_of (e_get_entry s h);
  ns_get_entry_including_deleted s h := node_of (e_get_entry_including_deleted s h);
  ns_store_entry t k v := e_store_entry now t k v;
  ns_flush_batch b := e_flush_batch now b;
|}.
End Api.

(** ** The promises *)

Definition stored_entry (t : EntryType) (value : bytes) : Stored :=
  stored_as (to_kv_type t) t value (z2b 0) NoCompression CURRENT_ENTRY_VERSION.

Definition batch_writes (b : WriteBatch) : list (bytes * Stored) :=
  (fun be => (be_key be, stored_as (be_kv_type be) (be_entry_type be) (be_value be) (z2b 0) NoCompression CURRENT_ENTRY_VERSION)) <$> b.

Definition batch_fits (be : BatchEntry) : Prop :=
  zlen (be_key be) = 32 /\ zlen (be_value be) <= MAX_KEY_OR_VALUE_BYTES /\ kv_type_ok (be_kv_type be).

(** The parts of the state a client sees: the content, the head, the cache of directory
    contents. *)
Record Visible := { v_content : gmap bytes Stored; v_head : bytes; v_cache : gmap bytes bytes }.

Definition v_write (ws : list (bytes * Stored)) (v : Visible) : Visible :=
  {| v_content := apply_writes (v_content v) ws; v_head := v_head v; v_cache := v_cache v |}.
Definition v_set_head (h : bytes) (v : Visible) : Visible :=
  {| v_content := v_content v; v_head := h; v_cache := v_cache v |}.
Definition v_set_cache (k x : bytes) (v : Visible) : Visible :=
  {| v_content := v_content v; v_head := v_head v; v_cache := <[k := x]> (v_cache v) |}.
Definition v_delete (k : bytes) (v : Visible) : Visible :=
  {| v_content := delete k (v_content v); v_head := v_head v; v_cache := v_cache v |}.

(** [e_room n s]: the engine is in order and the next [n] writes fit. *)
Class EngineLaws (E : Type) `{!Engine E} := {
  e_visible : E -> Visible;
  e_room : nat -> E -> Prop;
  e_room_le m n s : (m <= n)%nat -> e_room n s -> e_room m s;
  e_algo_spec n s : e_room n s -> e_hash_algo s = Blake3_256;
  e_get_spec n s h : e_room n s ->
    match v_content (e_visible s) !! h with
    | None => e_get_entry s h = Ok None /\ e_get_entry_verified s h = Ok None
    | Some st => exists hd, e_get_entry s h = Ok (Some (hd, h, st_value st))
        /\ e_get_entry_verified s h = Ok (Some (hd, h, st_value st))
        /\ e_get_entry_including_deleted s h = Ok (Some (hd, h, st_value st))
        /\ summary (st_kv_type st) (hd, h, st_value st) = st
    end;
  e_has_spec n s h : e_room n s -> e_has_entry s h = Ok (bool_decide (is_Some (v_content (e_visible s) !! h)));
  e_deleted_spec n s h : e_room n s -> is_Some (v_content (e_visible s) !! h) -> e_is_entry_deleted s h = Ok false;
  e_type_spec n s t : e_room n s -> exists l, e_entries_by_type s t = Ok l /\ NoDup l.*1 /\
    forall h x, (h, x) ∈ l <-> exists st, v_content (e_visible s) !! h = Some st /\ st_kv_type st = t /\ st_value st = x;
  e_head_spec n s : e_room n s -> e_head_hash s = Ok (v_head (e_visible s));
  e_cache_spec n s : e_room n s -> e_dir_cache s = v_cache (e_visible s);
  e_cache_dir_spec n s k x : e_room n s ->
    runs (e_cache_dir k x) s (fun _ s' => e_room n s' /\ e_visible s' = v_set_cache k x (e_visible s));
  e_store_spec n s now t key value fl comp ver : e_room (S n) s -> is_i64 now -> zlen key = 32 ->
    zlen value <= MAX_KEY_OR_VALUE_BYTES ->
    runs (e_store now t key value fl comp ver) s (fun _ s' => e_room n s' /\
      e_visible s' = v_write [(key, stored_as (to_kv_type t) t value fl comp ver)] (e_visible s));
  e_typed_spec n s now t key value kt : e_room (S n) s -> is_i64 now -> zlen key = 32 ->
    zlen value <= MAX_KEY_OR_VALUE_BYTES -> kv_type_ok kt ->
    runs (e_store_typed now t key value kt) s (fun _ s' => e_room n s' /\
      e_visible s' = v_write [(key, stored_as kt t value (z2b 0) NoCompression CURRENT_ENTRY_VERSION)] (e_visible s));
  e_flush_spec n s now b : e_room (length b + n) s -> is_i64 now -> Forall batch_fits b ->
    runs (e_flush_batch now b) s (fun _ s' => e_room n s' /\ e_visible s' = v_write (batch_writes b) (e_visible s));
  e_flush_head_spec n s now b h : e_room (length b + n) s -> is_i64 now -> Forall batch_fits b -> zlen h = 32 ->
    runs (e_flush_batch_and_update_head now b h) s (fun _ s' => e_room n s' /\
      e_visible s' = v_set_head h (v_write (batch_writes b) (e_visible s)));
  e_update_head_spec n s now h : e_room n s -> is_i64 now -> zlen h = 32 ->
    runs (e_update_head now h) s (fun _ s' => e_room n s' /\ e_visible s' = v_set_head h (e_visible s));
  e_mark_spec n s h : e_room n s -> exists r s', e_mark_entry_deleted h s = Some (r, s') /\ e_room n s'
    /\ e_visible s' = v_delete h (e_visible s)
    /\ r = match v_content (e_visible s) !! h with Some _ => Ok tt | None => Err (NotFound "Entry not found for hash: {}") end;
  e_begin_spec n s : e_room n s -> runs e_begin_transaction s (fun _ s' => e_room n s' /\ e_visible s' = e_visible s);
  e_end_spec n s : e_room n s -> runs e_end_transaction s (fun _ s' => e_room n s' /\ e_visible s' = e_visible s);
  e_lane_spec n s lane now : e_room n s ->
    runs (e_set_last_auto_snapshot lane now) s (fun _ s' => e_room n s' /\ e_visible s' = e_visible s);
}.

(** ** Writes on record *)

(** An engine with the list of what was stored through it. *)
Record Logged (E : Type) := MkLogged { lg_engine : E; lg_log : list (bytes * Stored) }.
Arguments MkLogged {E}.
Arguments lg_engine {E}.
Arguments lg_log {E}.

Section Logged.
Context {E : Type} `{!Engine E}.

(** The operation, and its writes on record if it succeeds. *)
Definition logged {A} (m : M E A) (ws : list (bytes * Stored)) : M (Logged E) A := fun g =>
  match m (lg_engine g) with
  | Some (Ok a, s) => Some (Ok a, MkLogged s (lg_log g ++ ws))
  | Some (r, s) => Some (r, MkLogged s (lg_log g))
  | None => None
  end.

#[export] Instance logged_engine : Engine (Logged E) := {|
  e_hash_algo g := e_hash_algo (lg_engine g);
  e_get_entry g := e_get_entry (lg_engine g);
  e_get_entry_verified g := e_get_entry_verified (lg_engine g);
  e_get_entry_including_deleted g := e_get_entry_including_deleted (lg_engine g);
  e_get_entry_verified_including_deleted g := e_get_entry_verified_including_deleted (lg_engine g);
  e_has_entry g := e_has_entry (lg_engine g);
  e_is_entry_deleted g := e_is_entry_deleted (lg_engine g);
  e_entries_by_type g := e_entries_by_type (lg_engine g);
  e_head_hash g := e_head_hash (lg_engine g);
  e_dir_cache g := e_dir_cache (lg_engine g);
  e_cache_dir k x := logged (e_cache_dir k x) [];
  e_store now t key value fl comp ver :=
    logged (e_store now t key value fl comp ver) [(key, stored_as (to_kv_type t) t value fl comp ver)];
  e_store_typed now t key value kt :=
    logged (e_store_typed now t key value kt) [(key, stored_as kt t value (z2b 0) NoCompression CURRENT_ENTRY_VERSION)];
  e_flush_batch now b := logged (e_flush_batch now b) (batch_writes b);
  e_flush_batch_and_update_head now b h := logged (e_flush_batch_and_update_head now b h) (batch_writes b);
  e_update_head now h := logged (e_update_head now h) [];
  e_mark_entry_deleted h := logged (e_mark_entry_deleted h) [];
  e_begin_transaction := logged e_begin_transaction [];
  e_end_transaction := logged e_end_transaction [];
  e_last_auto_snapshot lane g := e_last_auto_snapshot lane (lg_engine g);
  e_set_last_auto_snapshot lane now := logged (e_set_last_auto_snapshot lane now) [];
|}.

(** Everything there is, on record. *)
Definition watch `{!EngineLaws E} (s : E) : Logged E := MkLogged s (map_to_list (v_content (e_visible s))).

(** Leaving the record out gives back the engine's run. *)
Definition erases {A} (mg : M (Logged E) A) (m : M E A) : Prop := forall g,
  m (lg_engine g) = (fun rg : res A * Logged E => (rg.1, lg_engine rg.2)) <$> mg g.

Lemma erases_logged {A} (m : M E A) ws : erases (logged m ws) m.
Proof. intros g. unfold logged. by destruct (m (lg_engine g)) as [[[a|e|] s]|]. Qed.

Lemma erases_ret {A} (a : A) : erases (mret a) (mret a).
Proof. done. Qed.

Lemma erases_lift {A} (r : res A) : erases (lift r) (lift r).
Proof. done. Qed.

Lemma erases_gets {A} (f : Logged E -> A) (f' : E -> A) : (forall g, f g = f' (lg_engine g)) -> erases (gets f) (gets f').
Proof. intros Hf g. unfold gets. cbn. by rewrite Hf. Qed.

Lemma erases_bind {A B} (mg : M (Logged E) A) m (kg : A -> M (Logged E) B) k :
  erases mg m -> (forall a, erases (kg a) (k a)) -> erases (mg ≫= kg) (m ≫= k).
Proof.
  intros Hm Hk g. unfold mbind, M_bind. rewrite (Hm g). destruct (mg g) as [[[a|e|] g']|]; cbn; [apply Hk|done..].
Qed.

Lemma erases_if {A} (b : bool) (mg ng : M (Logged E) A) m n : erases mg m -> erases ng n ->
  erases (if b then mg else ng) (if b then m else n).
Proof. by destruct b. Qed.

Lemma erases_ignore_err mg m : erases mg m -> erases (ignore_err mg) (ignore_err m).
Proof. intros Hm g. unfold ignore_err. rewrite (Hm g). by destruct (mg g) as [[[[]|e|] g']|]. Qed.

Lemma erases_finally {A} (mg : M (Logged E) A) m fg f : erases mg m -> erases fg f -> erases (finally mg fg) (finally m f).
Proof.
  intros Hm Hf g. unfold finally. rewrite (Hm g). destruct (mg g) as [[r g1]|]; [|done]. cbn. rewrite (Hf g1).
  by destruct (fg g1) as [[[[]|e|] g2]|].
Qed.

Lemma erases_for_each {A} (l : list A) bg b : (forall x, erases (bg x) (b x)) -> erases (for_each l bg) (for_each l b).
Proof. intros Hb. induction l as [|x l IH]; cbn [for_each]; [apply erases_ret|]. apply erases_bind; [apply Hb|intros []; done]. Qed.

Lemma erases_runs {A} (mg : M (Logged E) A) m g (Q : A -> Logged E -> Prop) : erases mg m -> runs mg g Q ->
  runs m (lg_engine g) (fun a s' => exists g', lg_engine g' = s' /\ Q a g').
Proof. intros He (a & g' & Eg & HQ). exists a, (lg_engine g'). rewrite (He g), Eg. split; [done|]. by exists g'. Qed.

(** The promises carry over. *)
Lemma runs_logged {A} (m : M E A) ws g (Q : A -> E -> Prop) : runs m (lg_engine g) Q ->
  runs (logged m ws) g (fun a g' => Q a (lg_engine g') /\ lg_log g' = lg_log g ++ ws).
Proof. intros (a & s & Em & HQ). exists a, (MkLogged s (lg_log g ++ ws)). unfold logged. by rewrite Em. Qed.
End Logged.
