(* ===== verification/EngineMem.v ===== *)
(** A plain map keeps the promises of [EngineLaws] too, without limits: definitions over
    an engine can be run on it. *)
From S2P Require Import Prelude Codec EntryFormat Records KvEntry AppendWriter StateM BTreeNode BTree BTreeSpec StorageEngine EngineContent EngineWrites EngineStore EngineApi.

Local Open Scope Z_scope.

Definition mem_header (key : bytes) (st : Stored) : EntryHeader := {|
  eh_entry_version := st_version st; eh_entry_type := st_type st; eh_flags := st_flags st;
  eh_hash_algo := Blake3_256; eh_compression_algo := st_compression st; eh_encryption_algo := z2b 0;
  eh_key_length := zlen key; eh_value_length := zlen (st_value st); eh_timestamp := 0; eh_total_length := 0; eh_hash := [] |}.

Definition mem_get (v : Visible) (h : bytes) : res (option EntryData) :=
  Ok ((fun st => (mem_header h st, h, st_value st)) <$> v_content v !! h).

#[export] Instance mem_engine : Engine Visible := {|
  e_hash_algo _ := Blake3_256;
  e_get_entry := mem_get;
  e_get_entry_verified := mem_get;
  e_get_entry_including_deleted := mem_get;
  e_get_entry_verified_including_deleted := mem_get;
  e_has_entry v h := Ok (bool_decide (is_Some (v_content v !! h)));
  e_is_entry_deleted v h := Ok false;
  e_entries_by_type v t := Ok (prod_map id st_value <$> filter (fun p => st_kv_type p.2 = t) (map_to_list (v_content v)));
  e_head_hash v := Ok (v_head v);
  e_dir_cache := v_cache;
  e_cache_dir k x := modify (v_set_cache k x);
  e_store now t key value fl comp ver := modify (v_write [(key, stored_as (to_kv_type t) t value fl comp ver)]) ;; mret 0;
  e_store_typed now t key value kt :=
    modify (v_write [(key, stored_as kt t value (z2b 0) NoCompression CURRENT_ENTRY_VERSION)]) ;; mret 0;
  e_flush_batch now b := modify (v_write (batch_writes b)) ;; mret ((fun _ => 0) <$> b);
  e_flush_batch_and_update_head now b h :=
    modify (v_write (batch_writes b)) ;; modify (v_set_head h) ;; mret ((fun _ => 0) <$> b);
  e_update_head now h := modify (v_set_head h);
  e_mark_entry_deleted h :=
    v ← gets id;
    modify (v_delete h) ;;
    lift (match v_content v !! h with Some _ => Ok tt | None => Err (NotFound "Entry not found for hash: {}") end);
  e_begin_transaction := mret tt;
  e_end_transaction := mret tt;
  e_last_auto_snapshot _ _ := 0;
  e_set_last_auto_snapshot _ _ := mret tt;
|}.

#[export] Instance mem_laws : EngineLaws Visible.
Proof.
  refine {| e_visible := id; e_room _ _ := True |}; try (intros; cbn; done); try (intros; cbn -[v_write v_set_head v_set_cache]; by run).
  - intros n v h _. cbn. unfold mem_get. destruct (v_content v !! h) as [st|]; [|done]. eexists. split; [done|]. split; [done|].
    split; [done|]. by destruct st.
  - intros n v t _. cbn. eexists. split; [done|]. split.
    + rewrite <- list_fmap_compose. eapply sublist_NoDup; [apply (NoDup_fst_map_to_list (v_content v))|].
      apply fmap_sublist, sublist_filter.
    + intros h x. rewrite list_elem_of_fmap. split.
      * intros ([h' st] & [= -> ->] & [Ht Hin]%list_elem_of_filter). apply elem_of_map_to_list in Hin. by exists st.
      * intros (st & Hin & Ht & <-). exists (h, st). split; [done|]. apply list_elem_of_filter. by rewrite elem_of_map_to_list.
  - intros n v h _. cbn. eexists _, _. split; [reflexivity|]. split; [done|]. split; [done|]. reflexivity.
Defined.
