(* ===== verification/EngineImpl.v ===== *)
(** The storage engine keeps the promises of [EngineLaws], while its index has room in
    every bucket and its log below 2^64. *)
From S2P Require Import Prelude Codec EntryFormat Records KvEntry KvPages FileIo HotTail FileHeader VoidManager AppendWriter Converters Nvt StateM BTreeNode BTree BTreeSpec KvSnapshot DiskKv DiskKvPages DiskKvSpec DiskKvRefine StorageEngine EngineContent EngineWrites EngineSpec EngineStore EngineOps EngineBatch EngineReads EngineRefine EngineApi.

Local Open Scope Z_scope.

Section EngineImpl.
Context `{Crc32, Blake3, ToScalar, HashOrder}.

Definition cache_dir_content (content_key value : bytes) : M StorageEngine unit :=
  modify (fun s => set_dir_cache (<[content_key := value]> (se_dir_content_cache s)) s).
Definition get_cached_dir_content (s : StorageEngine) (content_key : bytes) : option bytes :=
  se_dir_content_cache s !! content_key.
Definition clear_dir_content_cache : M StorageEngine unit := modify (set_dir_cache ∅).

Definition last_auto_snapshot (lane : SnapshotLane) (s : StorageEngine) : Z :=
  match lane with LaneDelete => se_last_auto_snapshot_delete s | LaneRestore => se_last_auto_snapshot_restore s end.
Definition set_last_auto_snapshot (lane : SnapshotLane) (now : Z) : M StorageEngine unit :=
  modify (match lane with
    | LaneDelete => set_last_auto_snapshot_delete now
    | LaneRestore => set_last_auto_snapshot_restore now
    end).

#[export] Instance storage_engine : Engine StorageEngine := {|
  e_hash_algo := se_hash_algo;
  e_get_entry := get_entry;
  e_get_entry_verified := get_entry_verified;
  e_get_entry_including_deleted := get_entry_including_deleted;
  e_get_entry_verified_including_deleted := get_entry_verified_including_deleted;
  e_has_entry := has_entry;
  e_is_entry_deleted := is_entry_deleted;
  e_entries_by_type := entries_by_type;
  e_head_hash := head_hash;
  e_dir_cache := se_dir_content_cache;
  e_cache_dir := cache_dir_content;
  e_store := store_entry_internal;
  e_store_typed := store_entry_typed;
  e_flush_batch := flush_batch;
  e_flush_batch_and_update_head := flush_batch_and_update_head;
  e_update_head := update_head;
  e_mark_entry_deleted := mark_entry_deleted;
  e_begin_transaction := begin_transaction;
  e_end_transaction := end_transaction;
  e_last_auto_snapshot := last_auto_snapshot;
  e_set_last_auto_snapshot := set_last_auto_snapshot;
|}.

(** ** The content as a function of the state *)

Definition engine_content (s : StorageEngine) : gmap bytes Stored :=
  match snapshot_iter_all (se_snapshot s) with
  | Ok es => list_to_map (omap (fun e =>
      match read_entry s e false with Ok d => Some (kv_hash e, summary (kv_entry_type e) d) | _ => None end) es)
  | _ => ∅
  end.

Lemma engine_content_ok s m c : engine_ok s m c -> engine_content s = c.
Proof.
  intros E. destruct (snapshot_map s m c E) as [Hok Hv]. destruct (snapshot_iter_all_ok _ Hok) as (es & Ees & _ & Hel).
  unfold engine_content. rewrite Ees. set (l := omap _ es).
  assert (Hin : forall h st, (h, st) ∈ l -> c !! h = Some st).
  { intros h st (e & He & Hf)%list_elem_of_omap. apply Hel in He. rewrite Hv in He.
    destruct (read_entry_ok s m c _ e E He) as (d & Hd & _ & Hr). rewrite Hr in Hf. by injection Hf as <- <-. }
  apply map_eq. intros h. destruct (c !! h) as [st|] eqn:Ec.
  - apply elem_of_list_to_map_1'; [intros y Hy%Hin; congruence|].
    pose proof (eo_content _ _ _ _ _ (en_parts _ _ _ E)) as Hc.
    destruct (live (m !! h)) as [e|] eqn:El; [|rewrite (co_dead _ _ _ _ _ _ Hc h El) in Ec; done].
    destruct (read_entry_ok s m c h e E El) as (d & Hd & _ & Hr). pose proof (live_hash s m c h e E El) as Hh.
    apply list_elem_of_omap. exists e. rewrite Hr, Hh. split; [apply Hel; by rewrite Hh, Hv|congruence].
  - apply not_elem_of_list_to_map_1. rewrite list_elem_of_fmap. intros ([h' st] & -> & Hy%Hin). cbn in Ec. congruence.
Qed.

Definition engine_visible (s : StorageEngine) : Visible :=
  {| v_content := engine_content s; v_head := fh_head_hash (aw_file_header (se_writer s)); v_cache := se_dir_content_cache s |}.

(** Room for [n] entries of any key and size. *)
Definition engine_room (n : nat) (s : StorageEngine) : Prop := exists m c, engine_ok s m c
  /\ aw_current_offset (se_writer s) + Z.of_nat n * 2^32 < 2^64
  /\ forall K : gset bytes, (size K <= n)%nat -> keys_fit (dk_nvt (se_kv s)) (dom m ∪ K).

(** Head and cache through the operations that do not set them. *)
Definition head_and_cache (s : StorageEngine) : bytes * gmap bytes bytes :=
  (fh_head_hash (aw_file_header (se_writer s)), se_dir_content_cache s).

Lemma on_kv_preserves {A} (k : M DiskKVStore A) : preserves head_and_cache (on_kv k).
Proof. intros s r s' E. unfold on_kv in E. destruct (k (kv_on_file s)) as [[r' kv]|]; [|done]. by injection E as _ <-. Qed.

Lemma on_writer_preserves {A} (f : AppendWriter -> res (A * AppendWriter)) :
  (forall w a w', f w = Ok (a, w') -> fh_head_hash (aw_file_header w') = fh_head_hash (aw_file_header w)) ->
  preserves head_and_cache (on_writer f).
Proof.
  intros Hf s r s' E. unfold on_writer in E. destruct (f (se_writer s)) as [[a w]|e|] eqn:Ef; injection E as _ <-; [|done..].
  unfold head_and_cache. cbn. by rewrite (Hf _ _ _ Ef).
Qed.

Lemma update_header_head w h w' : update_header w h = Ok w' -> fh_head_hash (aw_file_header w') = fh_head_hash h.
Proof.
  unfold update_header. cbv zeta. intros ([h' file] & Ew & E)%bind_Ok. injection E as <-. cbn.
  unfold write_header_to_inactive_slot in Ew. destruct (bind_Ok _ _ _ Ew) as (bs & _ & E'). by injection E' as <- <-.
Qed.

Lemma update_file_header_head w h w' : update_file_header w h = Ok w' -> fh_head_hash (aw_file_header w') = fh_head_hash h.
Proof. apply update_header_head. Qed.

Lemma write_at_head now w off t key value fl comp ver a w' :
  write_entry_at_nosync_full_with_version now w off t key value fl comp ver = Ok (a, w') ->
  fh_head_hash (aw_file_header w') = fh_head_hash (aw_file_header w).
Proof. intros E. repeat (apply bind_Ok in E as (? & _ & E)). by injection E as _ <-. Qed.

Lemma append_head now w t key value fl comp ver a w' :
  append_entry_with_compression_and_version now w t key value fl comp ver = Ok (a, w') ->
  fh_head_hash (aw_file_header w') = fh_head_hash (aw_file_header w).
Proof. intros E. repeat (apply bind_Ok in E as (? & _ & E)). by injection E as _ <-. Qed.

Lemma with_unit_head (f : AppendWriter -> res AppendWriter) :
  (forall w w', f w = Ok w' -> fh_head_hash (aw_file_header w') = fh_head_hash (aw_file_header w)) ->
  preserves head_and_cache (on_writer (fun w => with_unit (f w))).
Proof.
  intros Hf. apply on_writer_preserves. intros w a w' (w1 & E & E')%bind_Ok. injection E' as _ <-. by apply Hf.
Qed.

Lemma or_durability_preserves {A} context (m : M StorageEngine A) : preserves head_and_cache m ->
  preserves head_and_cache (or_durability_failure context m).
Proof.
  intros Hm s r s' E. unfold or_durability_failure, record_durability_failure in E.
  destruct (m s) as [[[a|e|] s1]|] eqn:Em; [..|done]; injection E as _ <-; by apply Hm in Em.
Qed.

Lemma take_void_preserves n a b : preserves head_and_cache (take_void n a b).
Proof. intros s r s' E. unfold take_void in E. repeat case_match; by simplify_eq. Qed.

Lemma copy_preserves src dst n : preserves head_and_cache (copy_region_m src dst n).
Proof.
  intros s r s' E. unfold copy_region_m, copy_region in E. destruct (copy_region_loop _ _ _ _ _) as [[file|e|]|]; [..|done];
    injection E as _ <-; done.
Qed.

Lemma hot_tail_head w off payload hl : fh_head_hash (aw_file_header (write_hot_tail_at w off payload hl).2) = fh_head_hash (aw_file_header w).
Proof. unfold write_hot_tail_at. by destruct (write_hot_tail _ _ _ _). Qed.

#[local] Hint Resolve on_kv_preserves or_durability_preserves take_void_preserves copy_preserves : preserves.

Lemma hot_preserves off payload hl :
  preserves head_and_cache (on_writer (fun w => Ok (tt, (write_hot_tail_at w off payload hl).2))).
Proof. apply on_writer_preserves. intros w x w' [_ <-]%Ok_inj%pair_eq. apply hot_tail_head. Qed.

Lemma void_preserves now off n : preserves head_and_cache (on_writer (fun w => with_unit (write_void_at now w off n))).
Proof.
  apply with_unit_head. intros w w' Ew. unfold write_void_at, write_void_at_nosync in Ew.
  apply if_Err_Ok in Ew as [_ Ew]. cbv zeta in Ew. apply bind_Ok in Ew as ([x w1] & Ew & E1). injection E1 as <-.
  by apply write_at_head in Ew.
Qed.

Lemma layout_head h in_progress len stage target tail : fh_head_hash (header_layout h in_progress len stage target tail) = fh_head_hash h.
Proof. done. Qed.

Lemma layout_preserves in_progress len stage target tail : preserves head_and_cache (on_writer (fun w =>
  with_unit (update_file_header w (header_layout (aw_file_header w) in_progress len stage target tail)))).
Proof. apply with_unit_head. intros w w' Ew%update_file_header_head. rewrite Ew. apply layout_head. Qed.

Lemma layout_at s in_progress len stage target tail r s1 : on_writer (fun w =>
    with_unit (update_file_header w (header_layout (aw_file_header (se_writer s)) in_progress len stage target tail))) s = Some (r, s1) ->
  head_and_cache s1 = head_and_cache s.
Proof.
  unfold on_writer, with_unit. destruct (update_file_header (se_writer s) _) as [w|e|] eqn:Eu; intros [= _ <-]; [|done..].
  apply update_file_header_head in Eu. unfold head_and_cache. cbn [se_writer set_writer se_dir_content_cache]. by rewrite Eu, layout_head.
Qed.

#[local] Hint Resolve hot_preserves void_preserves layout_preserves : preserves.

Lemma growth_preserves now stage size stop : preserves head_and_cache (expand_growth_zone now stage size stop).
Proof.
  unfold expand_growth_zone. apply preserves_gets_bind. intros s r s' E.
  eapply bind_preserves_at; [exact E|clear E|].
  - intros r1 s1 E1. by apply layout_at in E1.
  - intros []. preserves.
Qed.

#[local] Hint Resolve growth_preserves : preserves.

Lemma expand_preserves now stage : preserves head_and_cache (expand_kv_block_online now stage).
Proof. unfold expand_kv_block_online, ensure_writable. preserves. Qed.

#[local] Hint Resolve expand_preserves : preserves.

Lemma expand_pending_preserves now : preserves head_and_cache (expand_if_pending now).
Proof. unfold expand_if_pending. preserves. Qed.

Lemma append_preserves now t key value fl comp ver : preserves head_and_cache
  (on_writer (fun w => append_entry_with_compression_and_version now w t key value fl comp ver)).
Proof. apply on_writer_preserves. intros w x w'. apply append_head. Qed.

Lemma append_entry_preserves now t key value fl : preserves head_and_cache (on_writer (fun w => append_entry now w t key value fl)).
Proof. apply on_writer_preserves. intros w x w'. apply append_head. Qed.

Lemma operation_guard_preserves : preserves head_and_cache operation_guard.
Proof. unfold operation_guard. preserves. Qed.

Lemma ensure_writable_preserves : preserves head_and_cache ensure_writable.
Proof. unfold ensure_writable. preserves. Qed.

#[local] Hint Resolve expand_pending_preserves append_preserves append_entry_preserves operation_guard_preserves ensure_writable_preserves : preserves.

Lemma store_preserves now t key value fl comp ver : preserves head_and_cache (store_entry_internal now t key value fl comp ver).
Proof.
  unfold store_entry_internal, place_entry, set_tail_to_log_end, record_gc_recheck. preserves.
  apply on_writer_preserves. intros w x w'. apply write_at_head.
Qed.

Lemma typed_preserves now t key value kt : preserves head_and_cache (store_entry_typed now t key value kt).
Proof. unfold store_entry_typed, set_tail_to_log_end. preserves. Qed.

Lemma append_batch_preserves now b : preserves head_and_cache (append_batch now b).
Proof. induction b as [|be b IH]; cbn [append_batch]; unfold set_tail_to_log_end; preserves. Qed.

Lemma insert_batch_preserves b placed : preserves head_and_cache (insert_batch b placed).
Proof. unfold insert_batch. apply preserves_for_each. intros ep. preserves. Qed.

#[local] Hint Resolve append_batch_preserves insert_batch_preserves : preserves.

Lemma flush_preserves now b : preserves head_and_cache (flush_batch now b).
Proof. unfold flush_batch. preserves. Qed.

Lemma tail_count_head h tail n : fh_head_hash (with_tail_and_count h tail n) = fh_head_hash h.
Proof. done. Qed.

Lemma tail_count_preserves tail n : preserves head_and_cache (on_writer (fun w =>
  with_unit (update_header w (with_tail_and_count (aw_file_header w) tail n)))).
Proof. apply with_unit_head. intros w w' Ew%update_header_head. rewrite Ew. apply tail_count_head. Qed.

Lemma publish_at_preserves context tail n published : preserves head_and_cache
  (or_durability_failure context (on_writer (fun w => with_unit (update_header w (with_tail_and_count (aw_file_header w) tail n)))) ;;
   modify (set_last_published published)).
Proof.
  apply preserves_bind; [apply or_durability_preserves, tail_count_preserves|]. intros _. by apply preserves_modify.
Qed.

Lemma publish_now_preserves context : preserves head_and_cache (s ← gets id;
  or_durability_failure context (on_writer (fun w => with_unit (update_header w
    (with_tail_and_count (aw_file_header w) (dk_hot_tail_offset (se_kv s)) (dk_entry_count (se_kv s)))))) ;;
  modify (set_last_published (dk_hot_tail_offset (se_kv s)))).
Proof. apply preserves_bind; [apply preserves_gets|]. intros s. apply publish_at_preserves. Qed.

Lemma publish_tail_preserves context : preserves head_and_cache (publish_tail context).
Proof. exact (publish_now_preserves context). Qed.

#[local] Hint Resolve publish_tail_preserves : preserves.

Lemma end_preserves : preserves head_and_cache end_transaction.
Proof. unfold end_transaction. preserves. Qed.

Lemma mark_preserves h : preserves head_and_cache (mark_entry_deleted h).
Proof. unfold mark_entry_deleted. preserves. Qed.

(** The cache through a new head. *)
Lemma on_writer_cache {A} (f : AppendWriter -> res (A * AppendWriter)) : preserves se_dir_content_cache (on_writer f).
Proof. intros s r s' E. unfold on_writer in E. destruct (f (se_writer s)) as [[a w]|e|]; by injection E as _ <-. Qed.

#[local] Hint Resolve on_writer_cache : preserves.

Lemma publish_head_cache now h : preserves se_dir_content_cache (publish_head now h).
Proof. unfold publish_head. preserves. Qed.

Lemma head_cache_of {A} (m : M StorageEngine A) : preserves head_and_cache m -> preserves se_dir_content_cache m.
Proof. intros Hm s r s' E. apply Hm in E. by injection E. Qed.

Lemma flush_head_cache now b h : preserves se_dir_content_cache (flush_batch_and_update_head now b h).
Proof.
  unfold flush_batch_and_update_head, update_head. pose proof (publish_head_cache now h).
  pose proof (head_cache_of _ operation_guard_preserves). pose proof (head_cache_of _ ensure_writable_preserves).
  pose proof (head_cache_of _ (append_batch_preserves now b)). pose proof (fun p => head_cache_of _ (insert_batch_preserves b p)).
  pose proof (head_cache_of _ (expand_pending_preserves now)). preserves.
Qed.

(** ** The promises *)

Lemma room_next (k n : nat) (s s' : StorageEngine) (m m' : gmap bytes KVEntry) (c' : gmap bytes Stored) (K : gset bytes) (g : Z) :
  aw_current_offset (se_writer s) + Z.of_nat (k + n) * 2^32 < 2^64 ->
  (forall K' : gset bytes, (size K' <= k + n)%nat -> keys_fit (dk_nvt (se_kv s)) (dom m ∪ K')) ->
  engine_ok s' m' c' -> dom m' ⊆ dom m ∪ K -> (size K <= k)%nat -> grows g s s' -> g <= Z.of_nat k * 2^32 -> engine_room n s'.
Proof.
  intros Hoff Hfit E Hd Hk [Gn Gl] Hg. exists m', c'. split; [done|]. split; [lia|]. intros K' HK'. rewrite Gn.
  eapply keys_fit_mono; [|apply (Hfit (K ∪ K'))]; [set_solver|]. pose proof (size_union_alt K K').
  assert (size (K' ∖ K) <= size K')%nat by (apply subseteq_size; set_solver). lia.
Qed.

Lemma room_same (n : nat) (s s' : StorageEngine) (m' : gmap bytes KVEntry -> gmap bytes KVEntry) (c' : gmap bytes Stored -> gmap bytes Stored) : engine_room n s ->
  (forall m c, engine_ok s m c -> engine_ok s' (m' m) (c' c) /\ dom (m' m) ⊆ dom m /\ grows 0 s s') -> engine_room n s'.
Proof.
  intros (m0 & c0 & E & Hoff & Hfit) Hs. destruct (Hs m0 c0 E) as (E' & Hd & G).
  eapply (room_next 0 n s s' m0 _ _ ∅ 0); [exact Hoff|exact Hfit|exact E'|set_solver|done|exact G|lia].
Qed.

Lemma visible_after s s' m m' c c' : engine_ok s m c -> engine_ok s' m' c' -> head_and_cache s' = head_and_cache s ->
  engine_visible s' = {| v_content := c'; v_head := v_head (engine_visible s); v_cache := v_cache (engine_visible s) |}.
Proof.
  intros E E' Hh. unfold engine_visible. rewrite (engine_content_ok s' m' c' E'). by injection Hh as -> ->.
Qed.

(** The first component of a precondition, by name. *)
Lemma room_ok n s : engine_room n s -> exists m, engine_ok s m (engine_content s).
Proof. intros (m & c & E & _). exists m. by rewrite (engine_content_ok s m c E). Qed.

Lemma get_deleted_live s m c h st : engine_ok s m c -> c !! h = Some st ->
  get_entry_including_deleted s h = get_entry s h.
Proof.
  intros E Hst. destruct (snapshot_map s m c E) as [Hok Hv]. pose proof (eo_content _ _ _ _ _ (en_parts _ _ _ E)) as Hc.
  unfold get_entry_including_deleted, get_entry, guarded. rewrite (en_running _ _ _ E), (live_kv_ok s m c h E), get_raw_ok, Hv by done.
  f_equal. f_equal. destruct (m !! h) as [e|] eqn:Em; [|done]. destruct (live (Some e)) as [e'|] eqn:El.
  - cbn in El. destruct (is_deleted e); [done|]. by injection El as ->.
  - rewrite <- Em in El. rewrite (co_dead _ _ _ _ _ _ Hc h El) in Hst. done.
Qed.

Lemma batch_bounds b : Forall batch_fits b ->
  Forall batch_entry_ok b /\ 0 <= batch_size b <= Z.of_nat (length b) * 2^32 /\ (size (batch_keys b) <= length b)%nat.
Proof.
  intros Hb. split; [|split].
  - eapply Forall_impl; [exact Hb|]. intros be (Hk & Hv & Ht). constructor; [|done|done]. split; [|done].
    rewrite Hk. by vm_compute.
  - induction Hb as [|be b (Hk & Hv & Ht) Hb IH]; [cbn; lia|]. cbn [batch_size foldr length]. fold (batch_size b).
    destruct (entry_size_ok (be_key be) (be_value be)); [split; [rewrite Hk; by vm_compute|done]|lia].
  - clear. induction b as [|be b IH]; [change (batch_keys []) with (∅ : gset bytes); rewrite size_empty; cbn; lia|]. change (batch_keys (be :: b)) with ({[be_key be]} ∪ batch_keys b).
    pose proof (size_union_alt {[be_key be]} (batch_keys b)) as Hu. rewrite size_singleton in Hu.
    assert (size (batch_keys b ∖ {[be_key be]}) <= size (batch_keys b))%nat by (apply subseteq_size; set_solver). cbn [length]. lia.
Qed.

Lemma batch_content_writes b : forall c, batch_content b c = apply_writes c (batch_writes b).
Proof. unfold batch_content. induction b as [|be b IH]; intros c; [done|]. cbn. apply IH. Qed.

Lemma small_of key value : zlen key = 32 -> zlen value <= MAX_KEY_OR_VALUE_BYTES -> small key value /\ entry_size key value <= 1 * 2^32.
Proof.
  intros Hk Hv. assert (Hs : small key value) by (split; [rewrite Hk; by vm_compute|done]).
  split; [done|]. destruct (entry_size_ok _ _ Hs). lia.
Qed.

(** An operation that writes [k] entries and leaves head and cache. *)
Lemma impl_step {A} (op : M StorageEngine A) (k n : nat) (s : StorageEngine) (K : gset bytes) (g : Z) (f : gmap bytes Stored -> gmap bytes Stored) :
  preserves head_and_cache op -> engine_room (k + n) s -> (size K <= k)%nat -> g <= Z.of_nat k * 2^32 ->
  (forall m c, engine_ok s m c -> aw_current_offset (se_writer s) + Z.of_nat (k + n) * 2^32 < 2^64 ->
    keys_fit (dk_nvt (se_kv s)) (dom m ∪ K) ->
    runs op s (fun _ s' => exists m', engine_ok s' m' (f c) /\ dom m' ⊆ dom m ∪ K /\ grows g s s')) ->
  runs op s (fun _ s' => engine_room n s' /\ engine_visible s' =
    {| v_content := f (v_content (engine_visible s)); v_head := v_head (engine_visible s); v_cache := v_cache (engine_visible s) |}).
Proof.
  intros Hp (m & c & E & Hoff & Hfit) HK Hg Hop.
  eapply runs_mono; [eapply runs_preserves; [exact Hp|apply (Hop m c E Hoff), Hfit; lia]|].
  intros a s' [(m' & E' & Hd & G) Hh]. split; [by eapply (room_next k n s s' m m')|].
  rewrite (visible_after s s' m m' c (f c) E E' Hh). cbn [v_content engine_visible]. by rewrite (engine_content_ok s m c E).
Qed.

Lemma impl_head {A} (op : M StorageEngine A) (k n : nat) (s : StorageEngine) (K : gset bytes) (g : Z) (h : bytes) (f : gmap bytes Stored -> gmap bytes Stored) :
  preserves se_dir_content_cache op -> engine_room (k + n) s -> (size K <= k)%nat -> g <= Z.of_nat k * 2^32 ->
  (forall m c, engine_ok s m c -> aw_current_offset (se_writer s) + Z.of_nat (k + n) * 2^32 < 2^64 ->
    keys_fit (dk_nvt (se_kv s)) (dom m ∪ K) ->
    runs op s (fun _ s' => (exists m', engine_ok s' m' (f c) /\ dom m' ⊆ dom m ∪ K /\ grows g s s') /\ head_hash s' = Ok h)) ->
  runs op s (fun _ s' => engine_room n s' /\ engine_visible s' =
    {| v_content := f (v_content (engine_visible s)); v_head := h; v_cache := v_cache (engine_visible s) |}).
Proof.
  intros Hp (m & c & E & Hoff & Hfit) HK Hg Hop.
  eapply runs_mono; [eapply runs_preserves; [exact Hp|apply (Hop m c E Hoff), Hfit; lia]|].
  intros a s' [[(m' & E' & Hd & G) Hh] Hca]. split; [by eapply (room_next k n s s' m m')|].
  unfold head_hash, guarded in Hh. rewrite (en_running _ _ _ E') in Hh. injection Hh as Hh.
  unfold engine_visible. cbn [v_content v_cache]. by rewrite (engine_content_ok s' m' _ E'), (engine_content_ok s m c E), Hh, Hca.
Qed.


Lemma impl_get n s h : engine_room n s ->
  match v_content (engine_visible s) !! h with
  | None => get_entry s h = Ok None /\ get_entry_verified s h = Ok None
  | Some st => exists hd, get_entry s h = Ok (Some (hd, h, st_value st))
      /\ get_entry_verified s h = Ok (Some (hd, h, st_value st))
      /\ get_entry_including_deleted s h = Ok (Some (hd, h, st_value st))
      /\ summary (st_kv_type st) (hd, h, st_value st) = st
  end.
Proof.
  intros Hr. destruct (room_ok n s Hr) as [m E]. cbn [v_content engine_visible]. pose proof (get_entry_ok s m _ h E) as Hg.
  destruct (engine_content s !! h) as [st|] eqn:Es; [|done]. destruct Hg as (hd & Eg & Ev & Hs). exists hd.
  by rewrite (get_deleted_live s m _ h st E Es).
Qed.

Lemma impl_mark n s h : engine_room n s -> exists r s', mark_entry_deleted h s = Some (r, s') /\ engine_room n s'
  /\ engine_visible s' = v_delete h (engine_visible s)
  /\ r = match v_content (engine_visible s) !! h with Some _ => Ok tt | None => Err (NotFound "Entry not found for hash: {}") end.
Proof.
  intros (m & c & E & Hoff & Hfit). destruct (mark_ok s m c h E) as (r & s' & Em & E' & G & Hr). exists r, s'.
  cbn [v_content engine_visible]. rewrite (engine_content_ok s m c E). split; [done|]. split; [|split; [|done]].
  - eapply (room_next 0 n s s' m _ _ ∅ 0); [exact Hoff|exact Hfit|exact E'|rewrite dom_map_update; set_solver|done|exact G|lia].
  - rewrite (visible_after s s' m _ c _ E E'); [|by apply mark_preserves in Em].
    unfold v_delete. cbn [v_content engine_visible]. by rewrite (engine_content_ok s m c E).
Qed.

Lemma impl_cache n s k x : engine_room n s ->
  runs (cache_dir_content k x) s (fun _ s' => engine_room n s' /\ engine_visible s' = v_set_cache k x (engine_visible s)).
Proof.
  intros (m & c & E & Hoff & Hfit). unfold cache_dir_content. run.
  assert (E' : engine_ok (set_dir_cache (<[k := x]> (se_dir_content_cache s)) s) m c) by (destruct E; by constructor).
  split; [by exists m, c|]. unfold engine_visible. by rewrite (engine_content_ok _ m c E'), (engine_content_ok _ m c E).
Qed.

Lemma impl_still {A} (op : M StorageEngine A) n s : preserves head_and_cache op -> engine_room n s ->
  (forall m c, engine_ok s m c -> runs op s (fun _ s' => engine_ok s' m c /\ grows 0 s s')) ->
  runs op s (fun _ s' => engine_room n s' /\ engine_visible s' = engine_visible s).
Proof.
  intros Hp Hr Hop. eapply runs_mono; [apply (impl_step op 0 n s ∅ 0 (fun c => c) Hp Hr); [by rewrite size_empty|lia|]|].
  - intros m c E _ _. eapply runs_mono; [by apply Hop|]. intros a s' [E' G]. exists m. split; [done|]. split; [set_solver|done].
  - intros a s' [Hr' Hv]. split; [done|]. rewrite Hv. by destruct (engine_visible s).
Qed.

Lemma impl_end n s : engine_room n s -> runs end_transaction s (fun _ s' => engine_room n s' /\ engine_visible s' = engine_visible s).
Proof. intros Hr. apply (impl_still end_transaction n s end_preserves Hr). intros m c. exact (end_ok s m c). Qed.

Lemma impl_lane n s lane now : engine_room n s ->
  runs (set_last_auto_snapshot lane now) s (fun _ s' => engine_room n s' /\ engine_visible s' = engine_visible s).
Proof.
  intros (m & c & E & Hoff & Hfit). unfold set_last_auto_snapshot. run. set (s' := match lane with LaneDelete => _ | LaneRestore => _ end s).
  assert (E' : engine_ok s' m c) by (destruct E, lane; by constructor).
  split; [exists m, c; by destruct lane|]. unfold engine_visible. rewrite (engine_content_ok _ m c E'), (engine_content_ok _ m c E). by destruct lane.
Qed.

#[export] Instance storage_laws : EngineLaws StorageEngine.
Proof.
  refine {| e_visible := engine_visible; e_room := engine_room |}.
  - intros m n s Hle (mm & c & E & Hoff & Hfit). exists mm, c. split; [done|]. split; [lia|]. intros K HK. apply Hfit. lia.
  - intros n s (m & c & E & _). apply (en_algo _ _ _ E).
  - apply impl_get.
  - intros n s h Hr. destruct (room_ok n s Hr) as [m E]. by apply (has_entry_ok s m).
  - intros n s h Hr. destruct (room_ok n s Hr) as [m E]. by apply (live_not_deleted s m).
  - intros n s t Hr. destruct (room_ok n s Hr) as [m E]. by apply (entries_by_type_ok s m).
  - intros n s (m & c & E & _). unfold e_head_hash, storage_engine, head_hash, guarded. by rewrite (en_running _ _ _ E).
  - done.
  - apply impl_cache.
  - intros n s now t key value fl comp ver Hr Hn Hk Hv. destruct (small_of key value Hk Hv) as [Hs Hsz].
    apply (impl_step _ 1 n s {[key]} (entry_size key value) (fun c => <[key := stored_as (to_kv_type t) t value fl comp ver]> c));
      [apply store_preserves|done|by rewrite size_singleton|exact Hsz|].
    intros m c E Hoff Hfit. eapply runs_mono; [apply (store_ok s m c); try done; lia|]. intros a s' (e & E' & G).
    exists (<[key := e]> m). split; [done|]. split; [rewrite dom_insert_L; set_solver|done].
  - intros n s now t key value kt Hr Hn Hk Hv Ht. destruct (small_of key value Hk Hv) as [Hs Hsz].
    apply (impl_step _ 1 n s {[key]} (entry_size key value) (fun c => <[key := stored_as kt t value (z2b 0) NoCompression CURRENT_ENTRY_VERSION]> c));
      [apply typed_preserves|done|by rewrite size_singleton|exact Hsz|].
    intros m c E Hoff Hfit. eapply runs_mono; [apply (typed_ok s m c); try done; lia|]. intros a s' (e & E' & G).
    exists (<[key := e]> m). split; [done|]. split; [rewrite dom_insert_L; set_solver|done].
  - intros n s now b Hr Hn Hb. destruct (batch_bounds b Hb) as (Hok & Hsz & Hks).
    eapply runs_mono; [apply (impl_step _ (length b) n s (batch_keys b) (batch_size b) (batch_content b));
      [apply flush_preserves|done|done|lia|]|].
    + intros m c E Hoff Hfit. eapply runs_mono; [apply (flush_batch_ok s m c); try done; lia|]. intros a s' (m' & E' & Hd & G).
      exists m'. split; [done|]. split; [by rewrite Hd|done].
    + intros a s' [Hr' Hv]. split; [done|]. by rewrite Hv, batch_content_writes.
  - intros n s now b h Hr Hn Hb Hh. destruct (batch_bounds b Hb) as (Hok & Hsz & Hks).
    eapply runs_mono; [apply (impl_head _ (length b) n s (batch_keys b) (batch_size b) h (batch_content b));
      [apply flush_head_cache|done|done|lia|]|].
    + intros m c E Hoff Hfit. eapply runs_mono; [apply (batch_head_ok s m c); try done; lia|]. intros a s' (m' & E' & Hd & G & Hhd).
      split; [|done]. exists m'. split; [done|]. split; [by rewrite Hd|done].
    + intros a s' [Hr' Hv]. split; [done|]. by rewrite Hv, batch_content_writes.
  - intros n s now h Hr Hn Hh. apply (impl_head _ 0 n s ∅ 0 h (fun c => c)); [|done|by rewrite size_empty|lia|].
    + unfold e_update_head, storage_engine, update_head. pose proof (head_cache_of _ operation_guard_preserves).
      pose proof (head_cache_of _ ensure_writable_preserves). pose proof (publish_head_cache now h). preserves.
    + intros m c E _ _. eapply runs_mono; [by apply update_head_ok|]. intros [] s' (E' & G & Hhd). split; [|done].
      exists m. split; [done|]. split; [set_solver|done].
  - apply impl_mark.
  - intros n s Hr. apply impl_still; [unfold e_begin_transaction, storage_engine, begin_transaction; preserves|done|].
    intros m c. apply begin_transaction_ok.
  - exact impl_end.
  - exact impl_lane.
Defined.
End EngineImpl.
