(* ===== verification/Files.v ===== *)
(** File records and file contents (src/aeordb-lib/src/engine/directory_ops.rs, lines
    23-428 and 634-918; content_type.rs; [compress] and [should_compress] of
    compression.rs): the keys under which a file is stored, reading it chunk by chunk,
    storing its chunks and its record.  The code reaches the engine through [Engine];
    counters, events and timers are left out, and [now] is the clock during a call. *)
From S2P Require Import Prelude Codec EntryFormat Records KvEntry AppendWriter StateM BTree StorageEngine EngineChunks EngineApi Paths.
From stdpp Require Import pretty.

Local Open Scope Z_scope.

(** [zstd::encode_all] at level 1, and [FileFormat::from_bytes(..).media_type()]. *)
Class ZstdEncode := zstd_encode_all : bytes -> res bytes.
Class MediaType := media_type : bytes -> bytes.

Definition DEFAULT_CHUNK_SIZE : Z := 262144.

(** ** Keys *)

Section Keys.
Context `{Blake3}.

Definition file_path_hash (path : bytes) (algo : HashAlgorithm) : res bytes := compute_hash algo (lit "file:" ++ path).
Definition directory_path_hash (path : bytes) (algo : HashAlgorithm) : res bytes := compute_hash algo (lit "dir:" ++ path).
Definition directory_content_hash (data : bytes) (algo : HashAlgorithm) : res bytes := compute_hash algo (lit "dirc:" ++ data).
Definition file_content_hash (data : bytes) (algo : HashAlgorithm) : res bytes := compute_hash algo (lit "filec:" ++ data).
Definition chunk_content_hash (data : bytes) (algo : HashAlgorithm) : res bytes := compute_hash algo (lit "chunk:" ++ data).
Definition system_chunk_hash (data : bytes) (algo : HashAlgorithm) : res bytes := compute_hash algo (lit "system::" ++ data).

(** Path, content type and chunks, each ended by a zero byte. *)
Definition identity_input (domain path : bytes) (content_type : option bytes) (chunk_hashes : list bytes) : bytes :=
  domain ++ path ++ [z2b 0] ++ unwrap_or_empty content_type ++ [z2b 0] ++ concat chunk_hashes.

Definition file_identity_hash (path : bytes) (content_type : option bytes) (chunk_hashes : list bytes) (algo : HashAlgorithm) : res bytes :=
  compute_hash algo (identity_input (lit "fileid:") path content_type chunk_hashes).
Definition system_file_identity_hash (path : bytes) (content_type : option bytes) (chunk_hashes : list bytes) (algo : HashAlgorithm) : res bytes :=
  compute_hash algo (identity_input (lit "sysfileid:") path content_type chunk_hashes).
Definition symlink_identity_hash (path target : bytes) (algo : HashAlgorithm) : res bytes :=
  compute_hash algo (lit "symlinkid:" ++ path ++ [z2b 0] ++ target).

(** [format!("del:{}:{}", path, timestamp)]. *)
Definition decimal (z : Z) : bytes := lit (pretty z).
Definition deletion_record_hash (path : bytes) (timestamp : Z) (algo : HashAlgorithm) : res bytes :=
  compute_hash algo (lit "del:" ++ path ++ lit ":" ++ decimal timestamp).

Definition whole_file_content_hash (data : bytes) (algo : HashAlgorithm) : res bytes := compute_hash algo data.
End Keys.

(** ** Paths with a role *)

Definition is_internal_path (path : bytes) : bool :=
  existsb (fun s => bool_decide (s = lit ".aeordb-logs") || bool_decide (s = lit ".aeordb-indexes") || bool_decide (s = lit ".aeordb-config"))
    (filter (fun s => s <> []) (split_slash (normalize_path path))).

Definition is_system_path (path : bytes) : bool :=
  let normalized := normalize_path path in
  bool_decide (normalized = lit "/.aeordb-system") || starts_with normalized (lit "/.aeordb-system/")
  || bool_decide (normalized = lit "/.aeordb-config") || starts_with normalized (lit "/.aeordb-config/").

(** ** Content types *)

(** Valid UTF-8 without control characters in the first 8 KiB. *)
Definition is_likely_text (data : bytes) : bool :=
  if bool_decide (data = []) then false else
  let sample := take 8192 data in
  if negb (utf8_valid sample) then false else
  negb (existsb (fun b => (b2z b <? 0x20) && negb (b2z b =? 10) && negb (b2z b =? 13) && negb (b2z b =? 9)) sample).

(** The magic bytes, for data without a specific type. *)
Definition sniff_content_type `{MediaType} (data : bytes) : bytes :=
  let format := media_type data in
  if bool_decide (format = lit "application/octet-stream") || bool_decide (format = lit "application/x-empty") then
    if is_likely_text data then lit "text/plain" else lit "application/octet-stream"
  else if bool_decide (format = lit "application/mp4") then lit "video/mp4" else format.

Definition detect_content_type `{MediaType} (data : bytes) (provided : option bytes) : bytes :=
  match provided with
  | Some ct =>
    if negb (bool_decide (ct = lit "application/octet-stream")) && negb (bool_decide (ct = [])) then ct
    else sniff_content_type data
  | None => sniff_content_type data
  end.

Definition compress `{ZstdEncode} (data : bytes) (algorithm : CompressionAlgorithm) : res bytes :=
  match algorithm with NoCompression => Ok data | Zstd => zstd_encode_all data end.

Section Files.
Context `{Blake3, ZstdDecode, ZstdEncode, MediaType} {E : Type} `{!Engine E}.

(** ** Reading a file *)

Record EngineFileStream := {
  fs_chunk_hashes : list bytes;
  fs_current_index : nat;
  fs_include_deleted : bool;
}.

Definition EngineFileStream_new (chunk_hashes : list bytes) (include_deleted : bool) : EngineFileStream :=
  {| fs_chunk_hashes := chunk_hashes; fs_current_index := 0; fs_include_deleted := include_deleted |}.

Definition chunk_count (st : EngineFileStream) : nat := length (fs_chunk_hashes st).

Definition fetch_chunk (s : E) (include_deleted : bool) (hash : bytes) : res bytes :=
  entry ← decode_found (if include_deleted then e_get_entry_verified_including_deleted s hash else e_get_entry_verified s hash);
  ok_or entry (NotFound "Chunk not found: {}").

(** [Iterator::next]. *)
Definition stream_next (s : E) (st : EngineFileStream) : option (res bytes) * EngineFileStream :=
  match fs_chunk_hashes st !! fs_current_index st with
  | None => (None, st)
  | Some hash =>
    (Some (fetch_chunk s (fs_include_deleted st) hash),
     {| fs_chunk_hashes := fs_chunk_hashes st; fs_current_index := S (fs_current_index st);
        fs_include_deleted := fs_include_deleted st |})
  end.

(** [for item in self { result.extend_from_slice(&item?) }]: a round per chunk left and
    one that finds the end. *)
Fixpoint collect_loop (fuel : nat) (s : E) (st : EngineFileStream) (result : bytes) : res bytes :=
  match fuel with
  | O => Panic
  | S fuel =>
    match stream_next s st with
    | (None, _) => Ok result
    | (Some item, st) => item ← item; collect_loop fuel s st (result ++ item)
    end
  end.

Definition collect_to_vec (s : E) (st : EngineFileStream) : res bytes :=
  collect_loop (S (length (fs_chunk_hashes st) - fs_current_index st)) s st [].

Definition read_file_streaming (s : E) (path : bytes) : res EngineFileStream :=
  let normalized := normalize_path path in
  let algo := e_hash_algo s in
  let hash_length := hash_length algo in
  file_key ← file_path_hash normalized algo;
  o ← e_get_entry_verified s file_key;
  '(header, _, value) ← ok_or o (NotFound "{}");
  file_record ← FileRecord_deserialize value hash_length (b2z (eh_entry_version header));
  Ok (EngineFileStream_new (fr_chunk_hashes file_record) false).

Definition read_file_buffered (s : E) (path : bytes) : res bytes :=
  st ← read_file_streaming s path; collect_to_vec s st.

(** [get_entry(key)?] decoded as a file record. *)
Definition read_record (s : E) (o : option EntryData) : res (option FileRecord) :=
  match o with
  | Some (header, _, value) =>
    record ← FileRecord_deserialize value (hash_length (e_hash_algo s)) (b2z (eh_entry_version header)); Ok (Some record)
  | None => Ok None
  end.

Definition get_metadata (s : E) (path : bytes) : res (option FileRecord) :=
  file_key ← file_path_hash (normalize_path path) (e_hash_algo s);
  o ← e_get_entry s file_key;
  read_record s o.

Definition exists_path (s : E) (path : bytes) : res bool :=
  let normalized := normalize_path path in
  file_key ← file_path_hash normalized (e_hash_algo s);
  found ← e_has_entry s file_key;
  if found : bool then Ok true else
  dir_key ← directory_path_hash normalized (e_hash_algo s);
  e_has_entry s dir_key.

(** ** Hashing a file's chunks *)

(** The incremental hasher is fed the chunks in order; its digest is the hash of their
    concatenation. *)
Fixpoint concat_chunks (s : E) (chunk_hashes : list bytes) : res bytes :=
  match chunk_hashes with
  | [] => Ok []
  | hash :: chunk_hashes =>
    o ← decode_found (e_get_entry s hash);
    chunk ← ok_or o (NotFound "Chunk not found while computing file content hash: {}");
    rest ← concat_chunks s chunk_hashes;
    Ok (chunk ++ rest)
  end.

Definition whole_file_content_hash_from_chunks (s : E) (chunk_hashes : list bytes) : res bytes :=
  _ ← compute_hash (e_hash_algo s) [];
  data ← concat_chunks s chunk_hashes;
  compute_hash (e_hash_algo s) data.

Definition set_content_hash (record : FileRecord) (content_hash : bytes) : FileRecord :=
  {| fr_path := fr_path record; fr_content_type := fr_content_type record; fr_total_size := fr_total_size record;
     fr_created_at := fr_created_at record; fr_updated_at := fr_updated_at record; fr_metadata := fr_metadata record;
     fr_content_hash := content_hash; fr_chunk_hashes := fr_chunk_hashes record |}.
Definition set_created_at (record : FileRecord) (created_at : Z) : FileRecord :=
  {| fr_path := fr_path record; fr_content_type := fr_content_type record; fr_total_size := fr_total_size record;
     fr_created_at := created_at; fr_updated_at := fr_updated_at record; fr_metadata := fr_metadata record;
     fr_content_hash := fr_content_hash record; fr_chunk_hashes := fr_chunk_hashes record |}.
Definition set_path (record : FileRecord) (path : bytes) : FileRecord :=
  {| fr_path := path; fr_content_type := fr_content_type record; fr_total_size := fr_total_size record;
     fr_created_at := fr_created_at record; fr_updated_at := fr_updated_at record; fr_metadata := fr_metadata record;
     fr_content_hash := fr_content_hash record; fr_chunk_hashes := fr_chunk_hashes record |}.

Definition ensure_file_record_content_hash (s : E) (record : FileRecord) : res FileRecord :=
  let hash_length := hash_length (e_hash_algo s) in
  if zlen (fr_content_hash record) =? hash_length then Ok record else
  if negb (bool_decide (fr_content_hash record = []))
  then Err (InvalidInput "FileRecord content hash length {} does not match expected hash length {}") else
  content_hash ← whole_file_content_hash_from_chunks s (fr_chunk_hashes record);
  Ok (set_content_hash record content_hash).

(** ** Storing a file record *)

Definition store_file_record_entry (now : Z) (key value : bytes) (flags : byte) : M E unit :=
  (if negb (bool_decide (flags = z2b 0))
   then e_store now FileRecordEntry key value flags NoCompression (z2b CURRENT_FILE_RECORD_VERSION)
   else e_store now FileRecordEntry key value (z2b 0) NoCompression (z2b CURRENT_FILE_RECORD_VERSION)) ;;
  mret tt.

(** The record under its content, identity and path keys; returns the record with its
    content hash and the identity key. *)
Definition materialize_file_record_entries (now : Z) (normalized_path : bytes) (record : FileRecord) (flags : byte)
    : M E (FileRecord * bytes) :=
  s ← gets id;
  let algo := e_hash_algo s in
  let hash_length := hash_length algo in
  record ← lift (ensure_file_record_content_hash s record);
  file_value ← lift (FileRecord_serialize record hash_length);
  content_key ← lift (file_content_hash file_value algo);
  identity_key ← lift (file_identity_hash normalized_path (fr_content_type record) (fr_chunk_hashes record) algo);
  file_key ← lift (file_path_hash normalized_path algo);
  store_file_record_entry now content_key file_value flags ;;
  store_file_record_entry now identity_key file_value flags ;;
  store_file_record_entry now file_key file_value flags ;;
  mret (record, identity_key).

Record FileRecordPublishInput := {
  pi_normalized_path : bytes;
  pi_content_type : option bytes;
  pi_total_size : Z;
  pi_chunk_hashes : list bytes;
  pi_content_hash : bytes;
  pi_flags : byte;
  pi_created_at_override : option Z;
  pi_prefer_existing_created_at : bool;
}.

(** The event the caller emits is left out. *)
Record FileRecordPublishResult := {
  pr_normalized_path : bytes;
  pr_file_record : FileRecord;
  pr_child_entry : ChildEntry;
  pr_existing_total_size : option Z;
}.

(** The time a record keeps from the one it replaces. *)
Definition published_created_at (input : FileRecordPublishInput) (existing : option FileRecord) (record : FileRecord) : FileRecord :=
  if pi_prefer_existing_created_at input then
    match fr_created_at <$> existing, pi_created_at_override input with
    | Some original, _ => set_created_at record original
    | None, Some override => set_created_at record override
    | None, None => record
    end
  else match pi_created_at_override input with Some override => set_created_at record override | None => record end.

Definition file_child (now : Z) (path : bytes) (record : FileRecord) (identity_key : bytes) (updated_at virtual_time : Z) : ChildEntry :=
  {| ce_entry_type := z2b (EntryType_to_u8 FileRecordEntry); ce_hash := identity_key; ce_total_size := fr_total_size record;
     ce_created_at := fr_created_at record; ce_updated_at := updated_at; ce_name := default [] (file_name path);
     ce_content_type := fr_content_type record; ce_virtual_time := virtual_time; ce_node_id := 0 |}.

(** [now as u64]. *)
Definition as_u64 (now : Z) : Z := now mod 2^64.

Definition publish_file_record_entries (now : Z) (input : FileRecordPublishInput) : M E FileRecordPublishResult :=
  s ← gets id;
  let normalized := normalize_path (pi_normalized_path input) in
  let algo := e_hash_algo s in
  file_key ← lift (file_path_hash normalized algo);
  o ← lift (e_get_entry s file_key);
  existing ← lift (read_record s o);
  let file_record := FileRecord_new now normalized (pi_content_type input) (pi_total_size input) (pi_chunk_hashes input) in
  let file_record := set_content_hash file_record (pi_content_hash input) in
  let file_record := published_created_at input existing file_record in
  '(file_record, identity_key) ← materialize_file_record_entries now normalized file_record (pi_flags input);
  mret {| pr_normalized_path := normalized; pr_file_record := file_record;
          pr_child_entry := file_child now normalized file_record identity_key (fr_updated_at file_record) (as_u64 now);
          pr_existing_total_size := fr_total_size <$> existing |}.

(** ** Storing chunks *)

Definition store_chunk (now : Z) (data : bytes) : M E bytes :=
  s ← gets id;
  chunk_key ← lift (chunk_content_hash data (e_hash_algo s));
  found ← lift (e_has_entry s chunk_key);
  (if found : bool then mret tt else e_store_entry now Chunk chunk_key data ;; mret tt) ;;
  mret chunk_key.

(** One round of the loop over the data: the chunk's key, and the chunk itself unless
    an entry has that key.  The calls without flags store the flags 0. *)
Definition store_data_chunk (now : Z) (chunk_data : bytes) (sys_flags : byte) (compression_algo : CompressionAlgorithm) : M E bytes :=
  s ← gets id;
  chunk_key ← lift (chunk_content_hash chunk_data (e_hash_algo s));
  found ← lift (e_has_entry s chunk_key);
  (if found : bool then mret tt else
   match compression_algo with
   | NoCompression => e_store now Chunk chunk_key chunk_data sys_flags NoCompression CURRENT_ENTRY_VERSION ;; mret tt
   | _ =>
     compressed_data ← lift (compress chunk_data compression_algo);
     e_store now Chunk chunk_key compressed_data sys_flags compression_algo CURRENT_ENTRY_VERSION ;; mret tt
   end) ;;
  mret chunk_key.

(** [while offset < data.len()]: a round per [DEFAULT_CHUNK_SIZE] bytes. *)
Fixpoint store_data_chunks (fuel : nat) (now : Z) (data : bytes) (offset : Z) (sys_flags : byte)
    (compression_algo : CompressionAlgorithm) (chunk_hashes : list bytes) : M E (list bytes) :=
  match fuel with
  | O => fun _ => None
  | S fuel =>
    if offset <? zlen data then
      let stop := Z.min (offset + DEFAULT_CHUNK_SIZE) (zlen data) in
      chunk_data ← lift (slice_chk data offset stop);
      chunk_key ← store_data_chunk now chunk_data sys_flags compression_algo;
      store_data_chunks fuel now data stop sys_flags compression_algo (chunk_hashes ++ [chunk_key])
    else mret chunk_hashes
  end.

Definition sys_flags_of (normalized : bytes) : byte := if is_system_path normalized then z2b FLAG_SYSTEM else z2b 0.
End Files.
