(* ===== verification/Directories.v ===== *)
(** Directories (src/aeordb-lib/src/engine/directory_ops.rs, lines 1074-1244 and
    1995-2510): a directory's children under the hash of its content, the path key that
    links to it, the walk from HEAD that is authoritative when a link is stale, and the
    propagation of a changed child up to the root.

    [fuel] bounds the height of the B-trees of large directories.  The directory content
    cache is the engine's; counters and tracing are left out. *)
From S2P Require Import Prelude Sorted Codec EntryFormat Records KvEntry AppendWriter StateM BTreeNode BTree StorageEngine EngineApi Paths EngineChunks Files.

Local Open Scope Z_scope.

Definition MAX_DIRECTORY_DEPTH : nat := 1000.

Definition is_directory (child : ChildEntry) : bool := bool_decide (ce_entry_type child = z2b (EntryType_to_u8 DirectoryIndex)).

(** The first child of that name, in the order of the listing. *)
Definition find_child (children : list ChildEntry) (name : bytes) : option ChildEntry :=
  head (filter (fun c => ce_name c = name) children).

(** [children.iter_mut().find(..)]: the first child of that name is replaced. *)
Fixpoint replace_child (children : list ChildEntry) (child : ChildEntry) : option (list ChildEntry) :=
  match children with
  | [] => None
  | c :: children =>
    if bool_decide (ce_name c = ce_name child) then Some (child :: children)
    else (cons c) <$> replace_child children child
  end.

Definition upsert_child (children : list ChildEntry) (child : ChildEntry) : list ChildEntry :=
  default (children ++ [child]) (replace_child children child).

(** [normalized.trim_matches('/').split('/').filter(|s| !s.is_empty())]. *)
Definition segments_of (normalized : bytes) : list bytes := filter (fun s => s <> []) (split_slash (trim_matches_slash normalized)).

Section Directories.
Context `{Blake3} {E : Type} `{!Engine E}.
Context (fuel : nat) (now : Z).

Abbreviation DirData := (EntryHeader * bytes)%type.
#[local] Instance nodes : NodeStore E := engine_nodes now.

Definition look_up (key : bytes) : M E (option EntryData) := s ← gets id; lift (e_get_entry s key).

(** ** Reading *)

(** The children in a directory's content; [None] for the empty one. *)
Definition content_children (content : bytes) (hash_length : Z) : M E (option (list ChildEntry)) :=
  if bool_decide (content = []) then mret None else
  if is_btree_format content
  then children ← btree_list_from_node hash_length fuel content false; mret (Some children)
  else children ← lift (deserialize_child_entries content hash_length 0); mret (Some children).

(** One step of the walk: the content hash of the sub-directory [segment]. *)
Definition walk_step (content_hash segment : bytes) (hash_length : Z) : M E (option bytes) :=
  o ← look_up content_hash;
  match o with
  | None => mret None
  | Some (_, _, content) =>
    o ← content_children content hash_length;
    match o with
    | None => mret None
    | Some children =>
      mret (match find_child children segment with
            | Some child => if is_directory child then Some (ce_hash child) else None
            | None => None
            end)
    end
  end.

(** From a content hash down the segments; [None] where the tree breaks off. *)
Fixpoint walk_segments (segments : list bytes) (content_hash : bytes) (hash_length : Z) : M E (option bytes) :=
  match segments with
  | [] => mret (Some content_hash)
  | segment :: segments =>
    o ← walk_step content_hash segment hash_length;
    match o with
    | None => mret None
    | Some child_hash => walk_segments segments child_hash hash_length
    end
  end.

Definition no_head (head_hash : bytes) : bool := forallb (fun b => bool_decide (b = z2b 0)) head_hash.

Definition recover_directory_data_if_stale (path dir_key : bytes) : M E (option DirData) :=
  s ← gets id;
  let hash_length := hash_length (e_hash_algo s) in
  o ← look_up dir_key;
  match o with
  | None => mret None
  | Some (_, _, value) =>
    if negb (zlen value =? hash_length) then mret None else
    head_hash ← lift (e_head_hash s);
    if no_head head_hash then mret None else
    o ← walk_segments (segments_of (normalize_path path)) head_hash hash_length;
    match o with
    | None => mret None
    | Some content_hash =>
      if bool_decide (value = content_hash) then mret None else
      recovered ← look_up content_hash;
      mret (match recovered with Some (header, _, v) => Some (header, v) | None => None end)
    end
  end.

Definition read_directory_data (dir_key : bytes) : M E (option DirData) :=
  s ← gets id;
  o ← look_up dir_key;
  match o with
  | None => mret None
  | Some (header, _, value) =>
    if zlen value =? hash_length (e_hash_algo s) then
      match e_dir_cache s !! value with
      | Some cached => mret (Some (header, cached))
      | None =>
        o ← look_up value;
        match o with
        | Some (_, _, content_value) => e_cache_dir value content_value ;; mret (Some (header, content_value))
        | None => mret None
        end
      end
    else mret (Some (header, value))
  end.

(** What both kinds of update read first. *)
Definition current_directory (path dir_key : bytes) : M E (option DirData) :=
  recovered ← recover_directory_data_if_stale path dir_key;
  match recovered with
  | Some data => mret (Some data)
  | None => read_directory_data dir_key
  end.

Definition canonical_directory_content_hash (path : bytes) : M E (option bytes) :=
  s ← gets id;
  let hash_length := hash_length (e_hash_algo s) in
  head_hash ← lift (e_head_hash s);
  if no_head head_hash then mret None else
  let normalized := normalize_path path in
  if bool_decide (normalized = lit "/") then mret (Some head_hash) else
  walk_segments (segments_of normalized) head_hash hash_length.

(** ** Repairing links *)

(** The paths from the root along [segments] that the tree reaches, with their content
    hashes; [prefix] are the segments passed. *)
Fixpoint heal_walk (prefix segments : list bytes) (content_hash : bytes) (hash_length : Z) : M E (list (bytes * bytes)) :=
  match segments with
  | [] => mret []
  | segment :: segments =>
    o ← walk_step content_hash segment hash_length;
    match o with
    | None => mret []
    | Some child_hash =>
      let prefix := prefix ++ [segment] in
      rest ← heal_walk prefix segments child_hash hash_length;
      mret ((slash :: join_slash prefix, child_hash) :: rest)
    end
  end.

Definition heal_one (anc_path canonical : bytes) : M E nat :=
  s ← gets id;
  anc_key ← lift (directory_path_hash anc_path (e_hash_algo s));
  o ← look_up anc_key;
  match o with
  | None => mret 0%nat
  | Some (_, _, stored) =>
    if (zlen stored =? hash_length (e_hash_algo s)) && negb (bool_decide (stored = canonical))
    then e_store_entry now DirectoryIndex anc_key canonical ;; mret 1%nat
    else mret 0%nat
  end.

Fixpoint heal_all (walk : list (bytes * bytes)) (repaired : nat) : M E nat :=
  match walk with
  | [] => mret repaired
  | (anc_path, canonical) :: walk => n ← heal_one anc_path canonical; heal_all walk (repaired + n)
  end.

Definition heal_stale_dir_keys_along_path (path : bytes) : M E nat :=
  s ← gets id;
  let hash_length := hash_length (e_hash_algo s) in
  let normalized := normalize_path path in
  head_hash ← lift (e_head_hash s);
  if no_head head_hash then mret 0%nat else
  walk ← heal_walk [] (segments_of normalized) head_hash hash_length;
  heal_all ((lit "/", head_hash) :: walk) 0.

Definition repair_stale_dir_key (path : bytes) : M E bool :=
  s ← gets id;
  dir_key ← lift (directory_path_hash path (e_hash_algo s));
  o ← look_up dir_key;
  match o with
  | None => mret false
  | Some (_, _, raw) =>
    if negb (zlen raw =? hash_length (e_hash_algo s)) then mret false else
    o ← canonical_directory_content_hash path;
    match o with
    | None => mret false
    | Some canonical =>
      if bool_decide (canonical = raw) then mret false else
      e_store_entry now DirectoryIndex dir_key canonical ;; mret true
    end
  end.

(** ** Listing *)

Definition child_path (parent name : bytes) : bytes :=
  if bool_decide (parent = lit "/") then slash :: name else parent ++ [slash] ++ name.

(** Whether the path key of a child is live. *)
Definition child_is_live (s : E) (parent : bytes) (child : ChildEntry) : res bool :=
  let algo := e_hash_algo s in
  let path := child_path parent (ce_name child) in
  match EntryType_from_u8 (b2z (ce_entry_type child)) with
  | Ok FileRecordEntry => key ← file_path_hash path algo; e_has_entry s key
  | Ok DirectoryIndex => key ← directory_path_hash path algo; e_has_entry s key
  | Ok Symlink => key ← symlink_path_hash path algo; e_has_entry s key
  | Ok _ => Ok true
  | Err _ => Ok false
  | Panic => Panic
  end.

Fixpoint filter_live_children (s : E) (parent : bytes) (children : list ChildEntry) : res (list ChildEntry) :=
  match children with
  | [] => Ok []
  | child :: children =>
    keep ← child_is_live s parent child;
    live ← filter_live_children s parent children;
    Ok (if keep : bool then child :: live else live)
  end.

Definition list_directory (path : bytes) : M E (list ChildEntry) :=
  let normalized := normalize_path path in
  s ← gets id;
  let hash_length := hash_length (e_hash_algo s) in
  dir_key ← lift (directory_path_hash normalized (e_hash_algo s));
  recovered ← recover_directory_data_if_stale normalized dir_key;
  read_result ←
    match recovered with
    | Some data => ignore_err (heal_stale_dir_keys_along_path normalized ;; mret tt) ;; mret (Some data)
    | None => read_directory_data dir_key
    end;
  match read_result with
  | None => lift (Err (NotFound "{}"))
  | Some (header, value) =>
    if bool_decide (value = []) then mret [] else
    children ← attempt (
      if is_btree_format value then btree_list_from_node hash_length fuel value false
      else lift (deserialize_child_entries value hash_length (b2z (eh_entry_version header))));
    match children with
    | Ok children => s ← gets id; lift (filter_live_children s normalized children)
    | _ => mret []
    end
  end.

(** ** Updating *)

(** A flat directory: its content joins the batch and the cache. *)
Definition flat_directory (algo : HashAlgorithm) (children : list ChildEntry) (batch : WriteBatch) : M E (bytes * bytes * WriteBatch) :=
  dir_value ← lift (serialize_child_entries children (hash_length algo));
  content_key ← lift (directory_content_hash dir_value algo);
  e_cache_dir content_key dir_value ;;
  mret (dir_value, content_key, WriteBatch_add batch DirectoryIndex content_key dir_value).

(** The root of a B-tree that was just stored, by its hash. *)
Definition stored_root (root_hash : bytes) (missing : string) : M E bytes :=
  o ← look_up root_hash;
  '(_, _, root_data) ← lift (ok_or o (NotFound missing));
  e_cache_dir root_hash root_data ;;
  mret root_data.

(** The directory with the child added or replaced: its content, the content's hash,
    and the batch. *)
Definition directory_with_child (algo : HashAlgorithm) (existing : option DirData) (child : ChildEntry) (batch : WriteBatch)
    : M E (bytes * bytes * WriteBatch) :=
  let hash_length := hash_length algo in
  match existing with
  | Some (header, value) =>
    if negb (bool_decide (value = [])) && is_btree_format value then
      '(new_root_hash, new_root_data) ← btree_insert_batched hash_length algo fuel value child;
      e_cache_dir new_root_hash new_root_data ;;
      mret (new_root_data, new_root_hash, batch)
    else
      children ← lift (if bool_decide (value = []) then Ok [] else deserialize_child_entries value hash_length (b2z (eh_entry_version header)));
      let children := upsert_child children child in
      if BTREE_CONVERSION_THRESHOLD <=? zlen children then
        root_hash ← btree_from_entries hash_length algo fuel children;
        root_data ← stored_root root_hash "B-tree root not found after conversion";
        mret (root_data, root_hash, batch)
      else flat_directory algo children batch
  | None => flat_directory algo [child] batch
  end.

(** The entry of a directory in its parent. *)
Definition dir_child (path content_key dir_value : bytes) : ChildEntry :=
  {| ce_entry_type := z2b (EntryType_to_u8 DirectoryIndex); ce_hash := content_key; ce_total_size := zlen dir_value;
     ce_created_at := now; ce_updated_at := now; ce_name := default [] (file_name path);
     ce_content_type := None; ce_virtual_time := as_u64 now; ce_node_id := 0 |}.

Definition flush_if_any (batch : WriteBatch) : M E unit :=
  if bool_decide (length batch = 0%nat) then mret tt else e_flush_batch now batch ;; mret tt.

(** [for _depth in 0..MAX_DIRECTORY_DEPTH]. *)
Fixpoint update_loop (rounds : nat) (current_child_path : bytes) (child : ChildEntry) (batch : WriteBatch) : M E unit :=
  match rounds with
  | O => lift (Err (InvalidInput "Directory depth exceeds maximum of {} levels"))
  | S rounds =>
    match parent_path current_child_path with
    | None => flush_if_any batch
    | Some parent =>
      if bool_decide (parent = lit "/") && is_system_path current_child_path then flush_if_any batch else
      s ← gets id;
      let algo := e_hash_algo s in
      dir_key ← lift (directory_path_hash parent algo);
      existing ← current_directory parent dir_key;
      '(dir_value, content_key, batch) ← directory_with_child algo existing child batch;
      let batch := WriteBatch_add batch DirectoryIndex dir_key content_key in
      if bool_decide (parent = lit "/") then e_flush_batch_and_update_head now batch content_key ;; mret tt else
      update_loop rounds parent (dir_child parent content_key dir_value) batch
    end
  end.

Definition update_parent_directories (path : bytes) (child : ChildEntry) : M E unit :=
  update_loop MAX_DIRECTORY_DEPTH path child [].

(** The directory without the name. *)
Definition directory_without_child (algo : HashAlgorithm) (existing : option DirData) (child_name : bytes) (batch : WriteBatch)
    : M E (bytes * bytes * WriteBatch) :=
  let hash_length := hash_length algo in
  match existing with
  | Some (header, value) =>
    if negb (bool_decide (value = [])) && is_btree_format value then
      root_node ← lift (BTreeNode_deserialize value hash_length (b2z (eh_entry_version header)));
      root_hash ← lift (content_hash root_node hash_length algo);
      o ← btree_delete hash_length algo fuel root_hash child_name;
      match o with
      | Some new_root_hash =>
        root_data ← stored_root new_root_hash "B-tree root not found after delete";
        mret (root_data, new_root_hash, batch)
      | None => flat_directory algo [] batch
      end
    else
      children ← lift (if bool_decide (value = []) then Ok [] else deserialize_child_entries value hash_length (b2z (eh_entry_version header)));
      flat_directory algo (filter (fun c => ce_name c <> child_name) children) batch
  | None => flat_directory algo [] batch
  end.

Definition remove_from_parent_directory (path : bytes) : M E unit :=
  match parent_path path with
  | None => mret tt
  | Some parent =>
    s ← gets id;
    let algo := e_hash_algo s in
    dir_key ← lift (directory_path_hash parent algo);
    let child_name := default [] (file_name path) in
    existing ← current_directory parent dir_key;
    '(dir_value, content_key, batch) ← directory_without_child algo existing child_name [];
    let batch := WriteBatch_add batch DirectoryIndex dir_key content_key in
    if bool_decide (parent = lit "/") then e_flush_batch_and_update_head now batch content_key ;; mret tt else
    e_flush_batch now batch ;;
    update_parent_directories parent (dir_child parent content_key dir_value)
  end.

(** ** Creating *)

Definition create_directory (path : bytes) : M E unit :=
  let normalized := normalize_path path in
  in_transaction (
    s ← gets id;
    let algo := e_hash_algo s in
    dir_key ← lift (directory_path_hash normalized algo);
    e_store_entry now DirectoryIndex dir_key [] ;;
    content_key ← lift (directory_content_hash [] algo);
    e_store_entry now DirectoryIndex content_key [] ;;
    if bool_decide (normalized = lit "/") then mret tt else
    update_parent_directories normalized (dir_child normalized content_key [])).

Definition ensure_root_directory : M E unit :=
  s ← gets id;
  let algo := e_hash_algo s in
  dir_key ← lift (directory_path_hash (lit "/") algo);
  found ← lift (e_has_entry s dir_key);
  if found : bool then attempt (list_directory (lit "/")) ;; mret tt else
  e_store_entry now DirectoryIndex dir_key [] ;;
  content_key ← lift (directory_content_hash [] algo);
  e_store_entry now DirectoryIndex content_key [] ;;
  e_update_head now content_key.
End Directories.
