(* ===== verification/Versions.v ===== *)
(** Snapshots and forks (src/aeordb-lib/src/engine/version_manager.rs) and the
    retention of snapshots (src/aeordb-lib/src/engine/lifecycle_config.rs).

    The JSON of a snapshot's metadata and of the configuration, and the hexadecimal
    form of an identifier, are parameters.  Counters, events and memory samples are left
    out; the namespace lock makes an operation a function on the engine. *)
From S2P Require Import Prelude Sorted Codec EntryFormat Records KvEntry AppendWriter StateM BTree StorageEngine EngineApi Paths EngineChunks Files.

Local Open Scope Z_scope.

(** [serde_json::to_vec] and [from_slice] on a map of strings. *)
Class MetadataJson := {
  metadata_to_vec : gmap bytes bytes -> option bytes;
  metadata_from_slice : bytes -> option (gmap bytes bytes);
}.

(** [hex::decode]. *)
Class HexDecode := hex_decode : bytes -> option bytes.

Record SnapshotInfo := {
  si_name : bytes;
  si_root_hash : bytes;
  si_created_at : Z;
  si_metadata : gmap bytes bytes;
}.

Record ForkInfo := {
  fi_name : bytes;
  fi_root_hash : bytes;
  fi_created_at : Z;
}.

(** ** Byte formats *)

(** The hash cut or filled with zeros to [hash_length]. *)
Definition pad_hash (root_hash : bytes) (hash_length : Z) : bytes :=
  if hash_length <=? zlen root_hash then slice root_hash 0 hash_length
  else root_hash ++ zeros (hash_length - zlen root_hash).

Section Formats.
Context `{MetadataJson}.

Definition SnapshotInfo_serialize (i : SnapshotInfo) (hash_length : Z) : res bytes :=
  let metadata_json := default [] (metadata_to_vec (si_metadata i)) in
  let name_bytes := si_name i in
  if u16_max <? zlen name_bytes
  then Err (InvalidInput "Snapshot name too long: {} bytes exceeds u16 max (65535)") else
  if u32_max <? zlen metadata_json
  then Err (InvalidInput "Snapshot metadata too large: {} bytes exceeds u32 max") else
  Ok (u16_le (zlen name_bytes) ++ name_bytes ++ pad_hash (si_root_hash i) hash_length
      ++ i64_le (si_created_at i) ++ u32_le (zlen metadata_json) ++ metadata_json).

Definition corrupt (reason : string) : EngineError := CorruptEntry 0 reason.

Definition SnapshotInfo_deserialize_v0 (data : bytes) (hash_length : Z) : res SnapshotInfo :=
  if zlen data <? 2 then Err (corrupt "SnapshotInfo data too short for name_length") else
  name_length ← le_at data 0 2;
  let cursor := 2 in
  if zlen data <? cursor + name_length then Err (corrupt "SnapshotInfo data too short for name") else
  name ← slice_chk data cursor (cursor + name_length);
  if negb (utf8_valid name) then Err (corrupt "Invalid UTF-8 in snapshot name") else
  let cursor := cursor + name_length in
  if zlen data <? cursor + hash_length + 8 + 4
  then Err (corrupt "SnapshotInfo data too short for hash + timestamp + metadata_length") else
  root_hash ← slice_chk data cursor (cursor + hash_length);
  let cursor := cursor + hash_length in
  created_at ← le_at data cursor 8;
  let cursor := cursor + 8 in
  metadata_json_length ← le_at data cursor 4;
  let cursor := cursor + 4 in
  if zlen data <? cursor + metadata_json_length
  then Err (corrupt "SnapshotInfo data too short for metadata_json") else
  metadata ← (if 0 <? metadata_json_length then
      json ← slice_chk data cursor (cursor + metadata_json_length);
      ok_or (metadata_from_slice json) (corrupt "Failed to deserialize snapshot metadata: {}")
    else Ok ∅);
  Ok {| si_name := name; si_root_hash := root_hash; si_created_at := i64_of_bits created_at; si_metadata := metadata |}.

Definition SnapshotInfo_deserialize (data : bytes) (hash_length version : Z) : res SnapshotInfo :=
  match version with
  | 0 => SnapshotInfo_deserialize_v0 data hash_length
  | _ => Err (InvalidEntryVersion version)
  end.
End Formats.

Definition ForkInfo_serialize (i : ForkInfo) (hash_length : Z) : res bytes :=
  let name_bytes := fi_name i in
  if u16_max <? zlen name_bytes
  then Err (InvalidInput "Fork name too long: {} bytes exceeds u16 max (65535)") else
  Ok (u16_le (zlen name_bytes) ++ name_bytes ++ pad_hash (fi_root_hash i) hash_length ++ i64_le (fi_created_at i)).

Definition ForkInfo_deserialize_v0 (data : bytes) (hash_length : Z) : res ForkInfo :=
  if zlen data <? 2 then Err (corrupt "ForkInfo data too short for name_length") else
  name_length ← le_at data 0 2;
  let cursor := 2 in
  if zlen data <? cursor + name_length then Err (corrupt "ForkInfo data too short for name") else
  name ← slice_chk data cursor (cursor + name_length);
  if negb (utf8_valid name) then Err (corrupt "Invalid UTF-8 in fork name") else
  let cursor := cursor + name_length in
  if zlen data <? cursor + hash_length + 8 then Err (corrupt "ForkInfo data too short for hash + timestamp") else
  root_hash ← slice_chk data cursor (cursor + hash_length);
  let cursor := cursor + hash_length in
  created_at ← le_at data cursor 8;
  Ok {| fi_name := name; fi_root_hash := root_hash; fi_created_at := i64_of_bits created_at |}.

Definition ForkInfo_deserialize (data : bytes) (hash_length version : Z) : res ForkInfo :=
  match version with
  | 0 => ForkInfo_deserialize_v0 data hash_length
  | _ => Err (InvalidEntryVersion version)
  end.

(** ** Lifecycle configuration *)

Record SnapshotRetention := { ret_auto_months : Z; ret_manual_months : Z }.

Record LifecycleConfig := {
  lc_snapshot_writes_enabled : bool;
  lc_snapshot_retention : SnapshotRetention;
}.

Definition LifecycleConfig_default : LifecycleConfig :=
  {| lc_snapshot_writes_enabled := true; lc_snapshot_retention := {| ret_auto_months := 0; ret_manual_months := 0 |} |}.

(** [serde_json::from_slice::<LifecycleConfig>]. *)
Class LifecycleJson := lifecycle_from_slice : bytes -> option LifecycleConfig.

Definition LIFECYCLE_CONFIG_PATH : bytes := lit "/.aeordb-config/lifecycle.json".
Definition SNAPSHOT_TYPE_KEY : bytes := lit "type".
Definition SNAPSHOT_TYPE_AUTO : bytes := lit "auto".
Definition SNAPSHOT_TYPE_MANUAL : bytes := lit "manual".

Definition snapshot_type (info : SnapshotInfo) : bytes :=
  match si_metadata info !! SNAPSHOT_TYPE_KEY with
  | Some t => if bool_decide (t = SNAPSHOT_TYPE_AUTO) then SNAPSHOT_TYPE_AUTO else SNAPSHOT_TYPE_MANUAL
  | None => SNAPSHOT_TYPE_MANUAL
  end.

Definition is_engine_internal (name : bytes) : bool := starts_with name (lit "_aeordb_").

Section Versions.
Context `{Blake3, ZstdDecode, MetadataJson, LifecycleJson, HexDecode} {E : Type} `{!Engine E}.

(** An error falls back to the defaults; a panic would pass. *)
Definition load_lifecycle_config (s : E) : res LifecycleConfig :=
  match read_file_buffered s LIFECYCLE_CONFIG_PATH with
  | Ok data => Ok (default LifecycleConfig_default (lifecycle_from_slice data))
  | Err _ => Ok LifecycleConfig_default
  | Panic => Panic
  end.

Definition snapshot_writes_enabled (s : E) : res bool :=
  config ← load_lifecycle_config s; Ok (lc_snapshot_writes_enabled config).

Definition ensure_snapshot_writes_enabled (s : E) : res unit :=
  enabled ← snapshot_writes_enabled s; if enabled : bool then Ok tt else Err SnapshotWritesDisabled.

(** ** Names *)

Definition snapshot_key_string (name : bytes) : bytes := lit "snap:" ++ name.
Definition fork_key_string (name : bytes) : bytes := lit "::aeordb:fork:" ++ name.
Definition snapshot_key (s : E) (name : bytes) : res bytes := compute_hash (e_hash_algo s) (snapshot_key_string name).
Definition fork_key (s : E) (name : bytes) : res bytes := compute_hash (e_hash_algo s) (fork_key_string name).

Definition persist_deletion (now : Z) (key_string : bytes) : M E unit :=
  s ← gets id;
  let deletion := DeletionRecord_new now key_string None in
  deletion_key ← lift (deletion_record_hash key_string (dr_deleted_at deletion) (e_hash_algo s));
  e_store_entry now DeletionRecordEntry deletion_key (DeletionRecord_serialize deletion) ;;
  mret tt.

(** ** Reading *)

Definition get_head_hash (s : E) : res bytes := e_head_hash s.

Definition get_fork_hash (s : E) (name : bytes) : res (option bytes) :=
  key ← fork_key s name;
  o ← e_get_entry s key;
  match o with
  | None => Ok None
  | Some (header, _, value) =>
    fork_info ← ForkInfo_deserialize value (hash_length (e_hash_algo s)) (b2z (eh_entry_version header));
    Ok (Some (fi_root_hash fork_info))
  end.

Definition get_snapshot_hash (s : E) (name : bytes) : res bytes :=
  key ← snapshot_key s name;
  o ← e_get_entry s key;
  match o with
  | None => Err (NotFound "Snapshot not found: {}")
  | Some (header, _, value) =>
    info ← SnapshotInfo_deserialize value (hash_length (e_hash_algo s)) (b2z (eh_entry_version header));
    Ok (si_root_hash info)
  end.

Definition resolve_root_hash (s : E) (version : option bytes) : res bytes :=
  match version with
  | None => get_head_hash s
  | Some name =>
    if bool_decide (name = lit "HEAD") then get_head_hash s else
    o ← get_fork_hash s name;
    match o with Some hash => Ok hash | None => get_snapshot_hash s name end
  end.

Fixpoint decode_snapshots (s : E) (entries : list (bytes * bytes)) : res (list SnapshotInfo) :=
  match entries with
  | [] => Ok []
  | (key, value) :: entries =>
    deleted ← e_is_entry_deleted s key;
    if deleted : bool then decode_snapshots s entries else
    snapshot ← SnapshotInfo_deserialize value (hash_length (e_hash_algo s)) 0;
    rest ← decode_snapshots s entries;
    Ok (snapshot :: rest)
  end.

Definition list_snapshots (s : E) : res (list SnapshotInfo) :=
  entries ← e_entries_by_type s KV_TYPE_SNAPSHOT;
  snapshots ← decode_snapshots s entries;
  Ok (sort_by (fun a b => si_created_at a <=? si_created_at b) snapshots).

Fixpoint decode_forks (s : E) (entries : list (bytes * bytes)) : res (list ForkInfo) :=
  match entries with
  | [] => Ok []
  | (key, value) :: entries =>
    deleted ← e_is_entry_deleted s key;
    if deleted : bool then decode_forks s entries else
    fork ← ForkInfo_deserialize value (hash_length (e_hash_algo s)) 0;
    rest ← decode_forks s entries;
    Ok (fork :: rest)
  end.

Definition list_forks (s : E) : res (list ForkInfo) :=
  entries ← e_entries_by_type s KV_TYPE_FORK;
  forks ← decode_forks s entries;
  Ok (sort_by (fun a b => fi_created_at a <=? fi_created_at b) forks).

Definition find_root (snapshots : list SnapshotInfo) (root_hash : bytes) : option SnapshotInfo :=
  head (filter (fun i => si_root_hash i = root_hash) snapshots).

Definition get_snapshot_by_id (s : E) (id : bytes) : res (option SnapshotInfo) :=
  target_hash ← ok_or (hex_decode id) (InvalidInput "Invalid snapshot ID: {}");
  snapshots ← list_snapshots s;
  Ok (find_root snapshots target_hash).

Definition is_hex_digit (b : byte) : bool :=
  in_range 0x30 0x39 b || in_range 0x41 0x46 b || in_range 0x61 0x66 b.

Definition resolve_snapshot (s : E) (identifier : bytes) : res SnapshotInfo :=
  found ← (if (zlen identifier =? 64) && forallb is_hex_digit identifier then get_snapshot_by_id s identifier else Ok None);
  match found with
  | Some snap => Ok snap
  | None =>
    key ← snapshot_key s identifier;
    o ← e_get_entry s key;
    match o with
    | Some (_, _, value) => SnapshotInfo_deserialize value (hash_length (e_hash_algo s)) 0
    | None => Err (NotFound "Snapshot not found: {}")
    end
  end.

(** [has_entry(&key)? && !is_entry_deleted(&key)?]. *)
Definition name_taken (s : E) (key : bytes) : res bool :=
  found ← e_has_entry s key;
  if found : bool then deleted ← e_is_entry_deleted s key; Ok (negb deleted) else Ok false.

(** ** Snapshots *)

Definition create_snapshot (now : Z) (name : bytes) (metadata : gmap bytes bytes) : M E SnapshotInfo :=
  s ← gets id;
  _ ← lift (ensure_snapshot_writes_enabled s);
  key ← lift (snapshot_key s name);
  taken ← lift (name_taken s key);
  if taken : bool then lift (Err (AlreadyExists "Snapshot already exists: {}")) else
  root_hash ← lift (get_head_hash s);
  existing_snapshots ← lift (list_snapshots s);
  match find_root existing_snapshots root_hash with
  | Some existing => mret existing
  | None =>
    let metadata := if bool_decide (is_Some (metadata !! SNAPSHOT_TYPE_KEY)) then metadata
                    else <[SNAPSHOT_TYPE_KEY := SNAPSHOT_TYPE_MANUAL]> metadata in
    let snapshot_info := {| si_name := name; si_root_hash := root_hash; si_created_at := now; si_metadata := metadata |} in
    value ← lift (SnapshotInfo_serialize snapshot_info (hash_length (e_hash_algo s)));
    e_store_typed now Snapshot key value KV_TYPE_SNAPSHOT ;;
    mret snapshot_info
  end.

Definition restore_snapshot (now : Z) (name : bytes) : M E unit :=
  s ← gets id;
  root_hash ← lift (get_snapshot_hash s name);
  e_update_head now root_hash.

Definition delete_snapshot (now : Z) (name : bytes) : M E unit :=
  s ← gets id;
  key ← lift (snapshot_key s name);
  taken ← lift (name_taken s key);
  if negb taken then lift (Err (NotFound "Snapshot not found: {}")) else
  e_mark_entry_deleted key ;;
  persist_deletion now (snapshot_key_string name).

Definition rename_snapshot (now : Z) (old_name new_name : bytes) : M E SnapshotInfo :=
  s ← gets id;
  _ ← lift (ensure_snapshot_writes_enabled s);
  old_key ← lift (snapshot_key s old_name);
  o ← lift (e_get_entry s old_key);
  match o with
  | None => lift (Err (NotFound "Snapshot not found: {}"))
  | Some (header, _, value) =>
    let hash_length := hash_length (e_hash_algo s) in
    old_snapshot ← lift (SnapshotInfo_deserialize value hash_length (b2z (eh_entry_version header)));
    new_key ← lift (snapshot_key s new_name);
    taken ← lift (name_taken s new_key);
    if taken : bool then lift (Err (AlreadyExists "Snapshot already exists: {}")) else
    let new_snapshot := {| si_name := new_name; si_root_hash := si_root_hash old_snapshot;
                           si_created_at := si_created_at old_snapshot;
                           si_metadata := <[SNAPSHOT_TYPE_KEY := SNAPSHOT_TYPE_MANUAL]> (si_metadata old_snapshot) |} in
    new_value ← lift (SnapshotInfo_serialize new_snapshot hash_length);
    e_store_typed now Snapshot new_key new_value KV_TYPE_SNAPSHOT ;;
    e_mark_entry_deleted old_key ;;
    mret new_snapshot
  end.

(** ** Forks *)

Definition create_fork (now : Z) (name : bytes) (base : option bytes) : M E ForkInfo :=
  s ← gets id;
  key ← lift (fork_key s name);
  taken ← lift (name_taken s key);
  if taken : bool then lift (Err (AlreadyExists "Fork already exists: {}")) else
  root_hash ← lift (match base with
    | None => get_head_hash s
    | Some snapshot_name => if bool_decide (snapshot_name = lit "HEAD") then get_head_hash s else get_snapshot_hash s snapshot_name
    end);
  let fork_info := {| fi_name := name; fi_root_hash := root_hash; fi_created_at := now |} in
  value ← lift (ForkInfo_serialize fork_info (hash_length (e_hash_algo s)));
  e_store_typed now Fork key value KV_TYPE_FORK ;;
  mret fork_info.

Definition abandon_fork (now : Z) (name : bytes) : M E unit :=
  s ← gets id;
  key ← lift (fork_key s name);
  taken ← lift (name_taken s key);
  if negb taken then lift (Err (NotFound "Fork not found: {}")) else
  e_mark_entry_deleted key ;;
  persist_deletion now (fork_key_string name).

Definition promote_fork (now : Z) (name : bytes) : M E unit :=
  s ← gets id;
  o ← lift (get_fork_hash s name);
  fork_hash ← lift (ok_or o (NotFound "Fork not found: {}"));
  e_update_head now fork_hash ;;
  abandon_fork now name.

Definition update_fork_hash (now : Z) (name new_root_hash : bytes) : M E unit :=
  s ← gets id;
  key ← lift (fork_key s name);
  taken ← lift (name_taken s key);
  if negb taken then lift (Err (NotFound "Fork not found: {}")) else
  o ← lift (e_get_entry s key);
  '(header, _, value) ← lift (ok_or o (NotFound "Fork not found: {}"));
  let hash_length := hash_length (e_hash_algo s) in
  existing ← lift (ForkInfo_deserialize value hash_length (b2z (eh_entry_version header)));
  let updated := {| fi_name := name; fi_root_hash := new_root_hash; fi_created_at := fi_created_at existing |} in
  value ← lift (ForkInfo_serialize updated hash_length);
  e_store_typed now Fork key value KV_TYPE_FORK ;;
  mret tt.

(** ** Retention *)

Definition i64_max : Z := 2^63 - 1.
Definition saturating_sub_i64 (a b : Z) : Z := Z.max (- 2^63) (Z.min i64_max (a - b)).

(** The product of a release build: it wraps around. *)
Definition wrap_i64 (z : Z) : Z := i64_of_bits (z mod 2^64).

(** Whether the retention policy prunes a snapshot at [now_ms]. *)
Definition expired (now_ms auto_months manual_months : Z) (snapshot : SnapshotInfo) : bool :=
  if is_engine_internal (si_name snapshot) then false else
  let months := if bool_decide (snapshot_type snapshot = SNAPSHOT_TYPE_AUTO) then auto_months else manual_months in
  if months =? 0 then false else
  let age_ms := saturating_sub_i64 now_ms (si_created_at snapshot) in
  let threshold_ms := wrap_i64 (months * 30 * 24 * 60 * 60 * 1000) in
  negb (age_ms <? threshold_ms).

Record PruneResult := { pn_pruned_names : list bytes; pn_skipped_engine_internal : nat }.

(** A deletion that fails is logged and skipped. *)
Fixpoint prune_loop (now_ms auto_months manual_months : Z) (snapshots : list SnapshotInfo) (result : PruneResult) : M E PruneResult :=
  match snapshots with
  | [] => mret result
  | snapshot :: snapshots =>
    if is_engine_internal (si_name snapshot)
    then prune_loop now_ms auto_months manual_months snapshots
      {| pn_pruned_names := pn_pruned_names result; pn_skipped_engine_internal := S (pn_skipped_engine_internal result) |}
    else if negb (expired now_ms auto_months manual_months snapshot)
    then prune_loop now_ms auto_months manual_months snapshots result
    else
      r ← attempt (delete_snapshot now_ms (si_name snapshot));
      prune_loop now_ms auto_months manual_months snapshots
        (match r with
         | Ok _ => {| pn_pruned_names := pn_pruned_names result ++ [si_name snapshot];
                      pn_skipped_engine_internal := pn_skipped_engine_internal result |}
         | _ => result
         end)
  end.

Definition prune_expired_snapshots (now_ms : Z) : M E PruneResult :=
  s ← gets id;
  config ← lift (load_lifecycle_config s);
  let auto_months := ret_auto_months (lc_snapshot_retention config) in
  let manual_months := ret_manual_months (lc_snapshot_retention config) in
  let none := {| pn_pruned_names := []; pn_skipped_engine_internal := 0 |} in
  if (auto_months =? 0) && (manual_months =? 0) then mret none else
  snapshots ← lift (list_snapshots s);
  prune_loop now_ms auto_months manual_months snapshots none.
End Versions.
