(* ===== verification/VersionsFormat.v ===== *)
(** The byte formats of snapshots and forks: what is written is read back. *)
From S2P Require Import Prelude Codec EntryFormat Records KvEntry AppendWriter StateM Files Versions.

Local Open Scope Z_scope.

(** What the code relies on of the JSON library: a map is read back from its text, which
    is not empty. *)
Class MetadataJsonLaws `{MetadataJson} := {
  metadata_read_back m json : metadata_to_vec m = Some json -> metadata_from_slice json = Some m;
  metadata_nonempty m json : metadata_to_vec m = Some json -> json <> [];
}.

(** A name is a Rust string. *)
Record SnapshotInfo_wf `{MetadataJson} (hl : Z) (i : SnapshotInfo) : Prop := {
  wf_si_name : str_ok (si_name i);
  wf_si_root : zlen (si_root_hash i) = hl;
  wf_si_created : is_i64 (si_created_at i);
  wf_si_metadata : is_Some (metadata_to_vec (si_metadata i));
}.

Record ForkInfo_wf (hl : Z) (i : ForkInfo) : Prop := {
  wf_fi_name : str_ok (fi_name i);
  wf_fi_root : zlen (fi_root_hash i) = hl;
  wf_fi_created : is_i64 (fi_created_at i);
}.

Lemma pad_hash_same h : pad_hash h (zlen h) = h.
Proof. unfold pad_hash. rewrite Z.leb_refl. apply slice_all. Qed.

(** A snapshot is read back from its bytes, whatever follows. *)
Lemma SnapshotInfo_read_back `{MetadataJsonLaws} i hl enc rest : SnapshotInfo_wf hl i -> SnapshotInfo_serialize i hl = Ok enc ->
  SnapshotInfo_deserialize (enc ++ rest) hl 0 = Ok i.
Proof.
  intros [Hname Hroot Hc [json Hj]] HS. unfold SnapshotInfo_serialize in HS. cbv zeta in HS. rewrite Hj in HS. cbn [default from_option id] in HS.
  apply if_Err_Ok in HS as [H1%Z.ltb_ge HS]. apply if_Err_Ok in HS as [H2%Z.ltb_ge HS]. apply Ok_inj in HS.
  replace (pad_hash _ hl) with (si_root_hash i) in HS by (by rewrite <- Hroot, pad_hash_same).
  change (SnapshotInfo_deserialize_v0 (enc ++ rest) hl = Ok i).
  set (data := enc ++ rest). pose proof (suffix_at_start data) as HA.
  unfold data in HA at 2. rewrite <- HS, <- !app_assoc in HA.
  pose proof (suffix_at_bounds _ _ _ HA) as [_ Hlen].
  pose proof (suffix_at_app _ _ _ _ 2 HA eq_refl) as HB. change (0 + 2) with 2 in HB.
  pose proof (suffix_at_app _ _ _ _ _ HB eq_refl) as HC.
  pose proof (suffix_at_app _ _ _ _ hl HC Hroot) as HD.
  pose proof (suffix_at_app _ _ _ _ 8 HD eq_refl) as HE.
  pose proof (suffix_at_app _ _ _ _ 4 HE eq_refl) as HF.
  unfold SnapshotInfo_deserialize_v0.
  rewrite (proj2 (Z.ltb_ge _ _)) by zlen_lia. cbv zeta.
  rewrite (le_at_at _ _ _ _ 2 HA eq_refl), le_val_u16 by range. rewrite bind_ret.
  rewrite (proj2 (Z.ltb_ge _ _)) by zlen_lia.
  rewrite (suffix_at_slice_chk _ _ _ _ _ HB eq_refl), bind_ret, Hname. simpl negb. cbv iota.
  rewrite (proj2 (Z.ltb_ge _ _)) by zlen_lia.
  rewrite (suffix_at_slice_chk _ _ _ _ _ HC) by lia. rewrite bind_ret.
  rewrite (le_at_at _ _ _ _ 8 HD eq_refl), bind_ret.
  rewrite (le_at_at _ _ _ _ 4 HE eq_refl), le_val_u32 by range. rewrite bind_ret.
  rewrite (proj2 (Z.ltb_ge _ _)) by zlen_lia.
  assert (Hpos : (0 <? zlen json) = true).
  { apply Z.ltb_lt. pose proof (metadata_nonempty _ _ Hj) as Hne. destruct json as [|b json]; [done|].
    rewrite zlen_cons. pose proof (zlen_nonneg json). lia. }
  rewrite Hpos.
  rewrite (suffix_at_slice_chk _ _ _ _ _ HF eq_refl), bind_ret, (metadata_read_back _ _ Hj). cbn.
  rewrite le_val_i64 by done. by destruct i.
Qed.

Lemma ForkInfo_read_back i hl enc rest : ForkInfo_wf hl i -> ForkInfo_serialize i hl = Ok enc ->
  ForkInfo_deserialize (enc ++ rest) hl 0 = Ok i.
Proof.
  intros [Hname Hroot Hc] HS. unfold ForkInfo_serialize in HS. cbv zeta in HS.
  apply if_Err_Ok in HS as [H1%Z.ltb_ge HS]. apply Ok_inj in HS.
  replace (pad_hash _ hl) with (fi_root_hash i) in HS by (by rewrite <- Hroot, pad_hash_same).
  change (ForkInfo_deserialize_v0 (enc ++ rest) hl = Ok i).
  set (data := enc ++ rest). pose proof (suffix_at_start data) as HA.
  unfold data in HA at 2. rewrite <- HS, <- !app_assoc in HA.
  pose proof (suffix_at_bounds _ _ _ HA) as [_ Hlen].
  pose proof (suffix_at_app _ _ _ _ 2 HA eq_refl) as HB. change (0 + 2) with 2 in HB.
  pose proof (suffix_at_app _ _ _ _ _ HB eq_refl) as HC.
  pose proof (suffix_at_app _ _ _ _ hl HC Hroot) as HD.
  unfold ForkInfo_deserialize_v0.
  rewrite (proj2 (Z.ltb_ge _ _)) by zlen_lia. cbv zeta.
  rewrite (le_at_at _ _ _ _ 2 HA eq_refl), le_val_u16 by range. rewrite bind_ret.
  rewrite (proj2 (Z.ltb_ge _ _)) by zlen_lia.
  rewrite (suffix_at_slice_chk _ _ _ _ _ HB eq_refl), bind_ret, Hname. simpl negb. cbv iota.
  rewrite (proj2 (Z.ltb_ge _ _)) by zlen_lia.
  rewrite (suffix_at_slice_chk _ _ _ _ _ HC) by lia. rewrite bind_ret.
  rewrite (le_at_at _ _ _ _ 8 HD eq_refl), bind_ret.
  rewrite le_val_i64 by done. by destruct i.
Qed.
