(* ===== verification/VersionTable.v ===== *)
(** Entries of one kind that the engine keeps under names: snapshots or forks.  A table
    is the part of the content that holds them; the names in play are finitely many,
    since two names may have the same key. *)
From S2P Require Import Prelude Sorted Codec EntryFormat Records KvEntry AppendWriter StateM StorageEngine EngineContent EngineStore EngineApi.

Local Open Scope Z_scope.

Lemma insert_by_perm {A} (le : A -> A -> bool) x l : insert_by le x l ≡ₚ x :: l.
Proof. induction l as [|y l IH]; cbn [insert_by]; [done|]. destruct (le x y); [done|]. rewrite IH. apply Permutation_swap. Qed.

Lemma sort_by_perm {A} (le : A -> A -> bool) l : sort_by le l ≡ₚ l.
Proof. induction l as [|x l IH]; cbn [sort_by foldr]; [done|]. rewrite insert_by_perm. by f_equiv. Qed.

Lemma insert_by_sorted {A} (f : A -> Z) x l : StronglySorted (fun a b => f a <= f b) l ->
  StronglySorted (fun a b => f a <= f b) (insert_by (fun a b => f a <=? f b) x l).
Proof.
  induction 1 as [|y l Hl IH Hy]; cbn [insert_by]; [by repeat constructor|]. destruct (Z.leb_spec (f x) (f y)).
  - constructor; [by constructor|]. constructor; [done|]. eapply Forall_impl; [exact Hy|]. cbn. lia.
  - constructor; [done|]. rewrite insert_by_perm. constructor; [lia|done].
Qed.

Lemma sort_by_sorted {A} (f : A -> Z) l : StronglySorted (fun a b => f a <= f b) (sort_by (fun a b => f a <=? f b) l).
Proof. induction l as [|x l IH]; cbn [sort_by foldr]; [constructor|]. by apply insert_by_sorted. Qed.

(** No two of these inputs have the same hash. *)
Definition collision_free `{Blake3} (inputs : list bytes) : Prop :=
  forall a b, a ∈ inputs -> b ∈ inputs -> blake3 a = blake3 b -> a = b.

Lemma collision_free_NoDup `{Blake3} inputs : NoDup (blake3 <$> inputs) -> collision_free inputs.
Proof.
  intros Hnd a b (i & Hi)%list_elem_of_lookup (j & Hj)%list_elem_of_lookup Hab.
  assert (i = j) as ->; [|congruence]. eapply NoDup_lookup; [exact Hnd|rewrite list_lookup_fmap, Hi; done|].
  rewrite list_lookup_fmap, Hj. cbn. by rewrite Hab.
Qed.

Section Table.
Context `{Blake3} {A : Type}.

Record Table := {
  tb_kv_type : Z;
  tb_entry_type : EntryType;
  tb_key_string : bytes -> bytes;
  tb_name : A -> bytes;
  tb_bytes : A -> bytes;
  tb_good : A -> Prop;
}.

Definition tb_key (tb : Table) (name : bytes) : bytes := blake3 (tb_key_string tb name).

Definition tb_stored (tb : Table) (a : A) : Stored :=
  stored_as (tb_kv_type tb) (tb_entry_type tb) (tb_bytes tb a) (z2b 0) NoCompression CURRENT_ENTRY_VERSION.

(** The content holds, under the names [names], exactly the table [m]. *)
Record table_ok (tb : Table) (names : list bytes) (c : gmap bytes Stored) (m : gmap bytes A) : Prop := {
  to_lookup name : name ∈ names -> c !! tb_key tb name = tb_stored tb <$> m !! name;
  to_type h st : c !! h = Some st -> st_kv_type st = tb_kv_type tb -> exists name, name ∈ dom m /\ h = tb_key tb name;
  to_entry name a : m !! name = Some a -> name ∈ names /\ tb_name tb a = name /\ tb_good tb a;
}.

Definition key_apart (tb : Table) (names : list bytes) (h : bytes) : Prop := forall name, name ∈ names -> h <> tb_key tb name.

Definition keys_inj (tb : Table) (names : list bytes) : Prop :=
  forall a b, a ∈ names -> b ∈ names -> tb_key tb a = tb_key tb b -> a = b.

Lemma table_empty tb names : table_ok tb names ∅ ∅.
Proof. split; intros; rewrite ?lookup_empty in *; done. Qed.

Context (tb : Table) (names : list bytes) (c : gmap bytes Stored) (m : gmap bytes A) (T : table_ok tb names c m).

Lemma table_insert name a : keys_inj tb names -> name ∈ names -> tb_name tb a = name -> tb_good tb a ->
  table_ok tb names (<[tb_key tb name := tb_stored tb a]> c) (<[name := a]> m).
Proof.
  intros Hinj Hn Ha Hg. destruct T as [Hl Ht He]. split.
  - intros name' Hn'. destruct (decide (name' = name)) as [->|Hne]; [by rewrite !lookup_insert_eq|].
    rewrite !lookup_insert_ne; [by apply Hl|done|intros Hk; by apply Hne, Hinj].
  - intros h st Hh Hty. destruct (decide (h = tb_key tb name)) as [->|Hne]; [exists name; split; [set_solver|done]|].
    rewrite lookup_insert_ne in Hh by done. destruct (Ht h st Hh Hty) as (name' & ? & ?). exists name'. split; [set_solver|done].
  - intros name' a' Ha'. apply lookup_insert_Some in Ha' as [[<- <-]|[_ Ha']]; [done|by apply He].
Qed.

Lemma table_delete name : keys_inj tb names -> name ∈ names ->
  table_ok tb names (delete (tb_key tb name) c) (delete name m).
Proof.
  intros Hinj Hn. destruct T as [Hl Ht He]. split.
  - intros name' Hn'. destruct (decide (name' = name)) as [->|Hne]; [by rewrite !lookup_delete_eq|].
    rewrite !lookup_delete_ne; [by apply Hl|done|intros Hk; by apply Hne, Hinj].
  - intros h st [Hne Hh]%lookup_delete_Some Hty. destruct (Ht h st Hh Hty) as (name' & Hd & ->). exists name'. split; [|done].
    rewrite dom_delete_L. assert (name' <> name) by (intros ->; done). set_solver.
  - intros name' a' [_ Ha']%lookup_delete_Some. by apply He.
Qed.

Lemma table_other h st : key_apart tb names h -> st_kv_type st <> tb_kv_type tb -> table_ok tb names (<[h := st]> c) m.
Proof.
  intros Hap Hty. destruct T as [Hl Ht He]. split; [|intros h' st' Hh Hty'|exact He].
  - intros name Hn. rewrite lookup_insert_ne; [by apply Hl|by apply Hap].
  - apply lookup_insert_Some in Hh as [[<- <-]|[_ Hh]]; [done|by eapply Ht].
Qed.

Lemma table_remove h : key_apart tb names h -> table_ok tb names (delete h c) m.
Proof.
  intros Hap. destruct T as [Hl Ht He]. split; [|intros h' st' [_ Hh]%lookup_delete_Some|exact He].
  - intros name Hn. rewrite lookup_delete_ne; [by apply Hl|by apply Hap].
  - intros Hty. by eapply Ht.
Qed.

(** ** Reading *)

Context {E : Type} `{!Engine E, !EngineLaws E} (n : nat) (s : E) (Hs : e_room n s) (Hc : v_content (e_visible s) = c).

Lemma table_get name : name ∈ names ->
  match m !! name with
  | Some a => exists hd, e_get_entry s (tb_key tb name) = Ok (Some (hd, tb_key tb name, tb_bytes tb a)) /\ b2z (eh_entry_version hd) = 0
  | None => e_get_entry s (tb_key tb name) = Ok None
  end.
Proof.
  intros Hn. pose proof (e_get_spec n s (tb_key tb name) Hs) as Hg. rewrite Hc, (to_lookup _ _ _ _ T name Hn) in Hg.
  destruct (m !! name) as [a|]; [|by destruct Hg]. destruct Hg as (hd & Hg & _ & _ & Hsum). exists hd. split; [exact Hg|].
  injection Hsum as _ _ _ Hv. by rewrite Hv.
Qed.

Lemma table_taken name : name ∈ names -> e_has_entry s (tb_key tb name) = Ok (bool_decide (is_Some (m !! name))) /\
  (is_Some (m !! name) -> e_is_entry_deleted s (tb_key tb name) = Ok false).
Proof.
  intros Hn. rewrite (e_has_spec n s _ Hs), Hc, (to_lookup _ _ _ _ T name Hn). split.
  - f_equal. apply bool_decide_ext. by rewrite fmap_is_Some.
  - intros Hm. apply (e_deleted_spec n); [exact Hs|]. rewrite Hc, (to_lookup _ _ _ _ T name Hn). by rewrite fmap_is_Some.
Qed.

(** The loop that both listings use. *)
Fixpoint decode_all (dec : bytes -> res A) (entries : list (bytes * bytes)) : res (list A) :=
  match entries with
  | [] => Ok []
  | (key, value) :: entries =>
    deleted ← e_is_entry_deleted s key;
    if deleted : bool then decode_all dec entries else
    a ← dec value;
    rest ← decode_all dec entries;
    Ok (a :: rest)
  end.

Lemma decode_all_ok dec entries : (forall a, tb_good tb a -> dec (tb_bytes tb a) = Ok a) -> NoDup entries.*1 ->
  (forall h x, (h, x) ∈ entries -> exists name a, m !! name = Some a /\ h = tb_key tb name /\ x = tb_bytes tb a) ->
  exists l, decode_all dec entries = Ok l /\ NoDup (tb_name tb <$> l)
    /\ forall a, a ∈ l <-> m !! tb_name tb a = Some a /\ (tb_key tb (tb_name tb a), tb_bytes tb a) ∈ entries.
Proof.
  intros Hdec. induction entries as [|[h x] entries IH]; intros Hnd Hent; cbn [decode_all].
  { exists []. split; [done|]. split; [constructor|]. set_solver. }
  destruct (Hent h x) as (name & a & Ha & -> & ->); [by left|]. destruct (to_entry _ _ _ _ T name a Ha) as (Hin & Hname & Hg).
  inversion_clear Hnd as [|? ? Hfresh Hnd']. destruct IH as (l & El & Hl & Hmem); [done|set_solver|].
  rewrite (proj2 (table_taken name Hin)) by eauto. cbn. rewrite (Hdec a Hg). cbn. rewrite El. cbn.
  assert (Hnot : forall a', a' ∈ l -> tb_name tb a' <> name).
  { intros a' [_ Hin']%Hmem Heq. apply Hfresh. apply list_elem_of_fmap. eexists. split; [|exact Hin']. cbn. by rewrite Heq. }
  exists (a :: l). split; [done|]. split.
  - cbn. constructor; [|done]. rewrite Hname. intros (a' & Heq & Ha')%list_elem_of_fmap. by apply (Hnot a' Ha').
  - intros a'. rewrite !elem_of_cons, Hmem. split.
    + intros [->|[Hm Hin']]; [rewrite Hname; by split; [|left]|]. split; [done|by right].
    + intros [Hm [Heq|Hin']]; [|by right]. left. injection Heq as Hk Hb.
      destruct (to_entry _ _ _ _ T _ a' Hm) as (_ & _ & Hg').
      pose proof (Hdec a' Hg') as H1. rewrite Hb, (Hdec a Hg) in H1. by injection H1.
Qed.

(** The listing is the table. *)
Lemma decode_table dec : (forall a, tb_good tb a -> dec (tb_bytes tb a) = Ok a) ->
  exists entries l, e_entries_by_type s (tb_kv_type tb) = Ok entries /\ decode_all dec entries = Ok l /\ l ≡ₚ (map_to_list m).*2.
Proof.
  intros Hdec. destruct (e_type_spec n s (tb_kv_type tb) Hs) as (entries & Ee & Hnd & Hmem). rewrite Hc in Hmem.
  destruct (decode_all_ok dec entries Hdec Hnd) as (l & El & Hl & Hin).
  - intros h x (st & Hst & Hty & Hx)%Hmem. destruct (to_type _ _ _ _ T h st Hst Hty) as (name & [a Ha]%elem_of_dom & ->).
    exists name, a. split; [done|]. split; [done|]. destruct (to_entry _ _ _ _ T name a Ha) as (Hn & _).
    rewrite (to_lookup _ _ _ _ T name Hn), Ha in Hst. injection Hst as <-. by rewrite <- Hx.
  - exists entries, l. split; [done|]. split; [done|]. apply NoDup_Permutation.
    + by apply (NoDup_fmap_1 (tb_name tb)).
    + apply (NoDup_fmap_1 (tb_name tb)). rewrite <- list_fmap_compose.
      replace ((tb_name tb ∘ snd) <$> map_to_list m) with ((map_to_list m).*1); [apply NoDup_fst_map_to_list|].
      apply list_fmap_ext. intros i [name a] Hi%list_elem_of_lookup_2. cbn. apply elem_of_map_to_list in Hi.
      by destruct (to_entry _ _ _ _ T name a Hi) as (_ & -> & _).
    + intros a. rewrite Hin. split.
      * intros [Ha _]. apply list_elem_of_fmap. exists (tb_name tb a, a). by rewrite elem_of_map_to_list.
      * intros ([name a'] & -> & Ha)%list_elem_of_fmap. cbn. apply elem_of_map_to_list in Ha.
        destruct (to_entry _ _ _ _ T name a' Ha) as (Hn & -> & _). split; [done|]. apply Hmem.
        exists (tb_stored tb a'). rewrite (to_lookup _ _ _ _ T name Hn), Ha. done.
Qed.
End Table.
Arguments Table : clear implicits.
