(* ===== verification/DirectoriesSpec.v ===== *)
(** The directory tree as a finite map from paths to children.  [dirs_ok] says that the
    engine's entries represent such a map: each directory has a link under its path and
    its children under the hash of their bytes, and every directory is reached from the
    head.  Adding a child rewrites exactly the directories above it.

    Directories here are flat, with fewer than 256 children; a larger one is a B-tree,
    whose operations are the subject of BTreeTop.  Hash inputs in play are listed in
    [known], and no two of them collide. *)
From S2P Require Import Prelude Sorted Codec EntryFormat Records KvEntry AppendWriter StateM BTreeNode BTree BTreeSpec BTreeRefine StorageEngine EngineContent EngineStore EngineApi Paths EngineChunks Files Directories VersionTable.

Local Open Scope Z_scope.

(** ** Writes by key *)

Lemma apply_writes_other {A} (c : gmap bytes A) ws k : k ∉ ws.*1 -> apply_writes c ws !! k = c !! k.
Proof.
  revert c. induction ws as [|[k' x] ws IH]; intros c Hk; cbn in *; [done|]. apply not_elem_of_cons in Hk as [Hne Hk].
  change (apply_writes (<[k' := x]> c) ws !! k = c !! k). rewrite IH by done. by apply lookup_insert_ne.
Qed.

(** A key that is written always the same is read back. *)
Lemma apply_writes_same {A} (c : gmap bytes A) ws k x : k ∈ ws.*1 -> (forall y, (k, y) ∈ ws -> y = x) -> apply_writes c ws !! k = Some x.
Proof.
  intros Hk Hall. induction ws as [|w ws IH] using rev_ind; [by apply elem_of_nil in Hk|].
  rewrite apply_writes_app. cbn. destruct w as [k' y]. cbn. destruct (decide (k' = k)) as [->|Hne].
  - rewrite lookup_insert_eq. f_equal. apply Hall. apply elem_of_app. right. by left.
  - rewrite lookup_insert_ne by done. apply IH.
    + rewrite fmap_app in Hk. apply elem_of_app in Hk as [Hk|Hk]; [done|]. apply list_elem_of_singleton in Hk. done.
    + intros z Hz. apply Hall. apply elem_of_app. by left.
Qed.

(** ** Children *)

(** The children a flat directory holds: what the decoder gives back. *)
Record listed_ok (e : ChildEntry) : Prop := {
  ck_wf : ChildEntry_wf 32 e;
  ck_fits : entry_fits e;
  ck_norm : ChildEntry_norm e = e;
  ck_type : exists t, ce_entry_type e = z2b (EntryType_to_u8 t) /\ t <> Chunk;
}.

Definition children_ok (cs : list ChildEntry) : Prop := Forall listed_ok cs /\ zlen cs < BTREE_CONVERSION_THRESHOLD.

Definition dir_bytes (cs : list ChildEntry) : bytes := match serialize_child_entries cs 32 with Ok b => b | _ => [] end.

Section Children.
Context (cs : list ChildEntry) (Hcs : children_ok cs).

Lemma dir_bytes_ok : serialize_child_entries cs 32 = Ok (dir_bytes cs) /\ zlen (dir_bytes cs) <= MAX_KEY_OR_VALUE_BYTES.
Proof.
  destruct Hcs as [Hok Hlen]. destruct (serialize_child_entries_ok 32 cs) as (b & Hb & Hz); [..|done|].
  - eapply Forall_impl; [exact Hok|]. by intros e [].
  - eapply Forall_impl; [exact Hok|]. by intros e [].
  - unfold dir_bytes. rewrite Hb. split; [done|]. change MAX_KEY_OR_VALUE_BYTES with (2^30).
    unfold BTREE_CONVERSION_THRESHOLD in Hlen. pose proof (zlen_nonneg cs). nia.
Qed.

Lemma dir_bytes_decode : deserialize_child_entries (dir_bytes cs) 32 0 = Ok cs.
Proof.
  destruct Hcs as [Hok _]. rewrite (child_entries_roundtrip 32 cs).
  - f_equal. rewrite <- (list_fmap_id cs) at 2. apply list_fmap_ext. intros i e He%list_elem_of_lookup_2.
    rewrite Forall_forall in Hok. by apply Hok.
  - eapply Forall_impl; [exact Hok|]. by intros e [].
  - apply dir_bytes_ok.
Qed.

Lemma dir_bytes_flat : is_btree_format (dir_bytes cs) = false.
Proof.
  destruct Hcs as [Hok _]. pose proof (proj1 dir_bytes_ok) as Hb. destruct cs as [|e es]; [done|].
  cbn in Hb. apply bind_Ok in Hb as (b1 & E1 & Hb). apply bind_Ok in Hb as (b2 & E2 & Hb). apply Ok_inj in Hb. rewrite <- Hb.
  unfold ChildEntry_serialize in E1. cbv zeta in E1. apply if_Err_Ok in E1 as [_ E1]. apply if_Err_Ok in E1 as [_ E1]. apply Ok_inj in E1.
  rewrite <- E1. cbn. apply Forall_cons in Hok as [[_ _ _ (t & Ht & Hne)] _]. rewrite Ht. by destruct t.
Qed.

Lemma dir_bytes_empty : dir_bytes cs = [] <-> cs = [].
Proof.
  split; [|by intros ->]. intros Hb. pose proof dir_bytes_decode as Hd. rewrite Hb in Hd. by injection Hd.
Qed.
End Children.

Lemma find_child_elem cs name e : find_child cs name = Some e -> e ∈ cs /\ ce_name e = name.
Proof.
  unfold find_child. destruct (filter _ cs) as [|e' rest] eqn:Ef; [done|]. intros [= ->].
  assert (Hin : e ∈ filter (fun c => ce_name c = name) cs) by (rewrite Ef; left). by apply list_elem_of_filter in Hin as [? ?].
Qed.

Lemma find_child_app cs cs' name : find_child (cs ++ cs') name = match find_child cs name with Some e => Some e | None => find_child cs' name end.
Proof. unfold find_child. rewrite filter_app. by destruct (filter _ cs). Qed.

Lemma find_child_cons e cs name : find_child (e :: cs) name = if decide (ce_name e = name) then Some e else find_child cs name.
Proof. unfold find_child. rewrite filter_cons. by destruct (decide _). Qed.

(** An upsert finds the child under its name and every other name as before. *)
Lemma replace_find cs child cs' name : replace_child cs child = Some cs' ->
  find_child cs' name = if decide (name = ce_name child) then Some child else find_child cs name.
Proof.
  revert cs'. induction cs as [|e cs IH]; intros cs'; cbn [replace_child]; [done|]. case_bool_decide as He.
  - intros [= <-]. rewrite !find_child_cons. destruct (decide (name = ce_name child)) as [->|Hne].
    + by rewrite decide_True.
    + rewrite !decide_False by congruence. done.
  - intros (cs1 & E1 & ->)%fmap_Some. rewrite !find_child_cons, (IH cs1 E1).
    destruct (decide (ce_name e = name)) as [<-|Hn]; [by rewrite (decide_False (P := ce_name e = ce_name child))|done].
Qed.

Lemma replace_none cs child : replace_child cs child = None -> find_child cs (ce_name child) = None.
Proof.
  induction cs as [|e cs IH]; cbn [replace_child]; [done|]. case_bool_decide as He; [done|].
  intros Hr%fmap_None. rewrite find_child_cons, decide_False by done. by apply IH.
Qed.

Lemma upsert_find cs child name : find_child (upsert_child cs child) name = if decide (name = ce_name child) then Some child else find_child cs name.
Proof.
  unfold upsert_child. destruct (replace_child cs child) as [cs'|] eqn:Er; cbn; [by apply replace_find|].
  rewrite find_child_app, find_child_cons. destruct (decide (name = ce_name child)) as [->|Hne].
  - by rewrite (replace_none _ _ Er), decide_True.
  - rewrite decide_False by congruence. unfold find_child at 2. cbn. by destruct (find_child cs name).
Qed.

Lemma replace_length cs child cs' : replace_child cs child = Some cs' -> length cs' = length cs.
Proof.
  revert cs'. induction cs as [|e cs IH]; intros cs'; cbn [replace_child]; [done|]. case_bool_decide; [by intros [= <-]|].
  intros (cs1 & E1 & ->)%fmap_Some. cbn. by rewrite (IH cs1).
Qed.

Lemma upsert_elem cs child e : e ∈ upsert_child cs child -> e = child \/ e ∈ cs.
Proof.
  unfold upsert_child. destruct (replace_child cs child) as [cs'|] eqn:Er; cbn.
  - revert cs' Er. induction cs as [|e' cs IH]; intros cs'; cbn [replace_child]; [done|]. case_bool_decide.
    + intros [= <-] [->|He]%elem_of_cons; [by left|right; by right].
    + intros (cs1 & E1 & ->)%fmap_Some [->|He]%elem_of_cons; [right; by left|]. destruct (IH cs1 E1 He); [by left|right; by right].
  - intros [He|He]%elem_of_app; [by right|]. left. by apply list_elem_of_singleton in He.
Qed.

Lemma upsert_ok cs child : children_ok cs -> listed_ok child -> zlen cs < BTREE_CONVERSION_THRESHOLD - 1 -> children_ok (upsert_child cs child).
Proof.
  intros [Hok _] Hc Hlen. split.
  - apply Forall_forall. intros e [->|He]%upsert_elem; [done|]. rewrite Forall_forall in Hok. by apply Hok.
  - unfold upsert_child. destruct (replace_child cs child) as [cs'|] eqn:Er; cbn.
    + unfold zlen in *. rewrite (replace_length _ _ _ Er). lia.
    + rewrite zlen_app. change (zlen [child]) with 1. lia.
Qed.

(** ** Paths as segments *)

(** Segments whose paths, at every depth, have no blank at an end. *)
Record path_ok (p : list bytes) : Prop := {
  pk_good : Forall good_segment p;
  pk_trim q : q `prefix_of` p -> trim (path_of q) = path_of q;
}.

Lemma path_ok_prefix q p : q `prefix_of` p -> path_ok p -> path_ok q.
Proof.
  intros Hq [Hg Ht]. split.
  - destruct Hq as [r ->]. by apply Forall_app in Hg as [? _].
  - intros q' Hq'. apply Ht. by etrans.
Qed.

Lemma path_ok_init p n : path_ok (p ++ [n]) -> path_ok p.
Proof. apply path_ok_prefix. by exists [n]. Qed.

Lemma path_ok_normal p : path_ok p -> normalize_path (path_of p) = path_of p.
Proof. intros [Hg Ht]. apply normalize_path_of; [done|]. by apply Ht. Qed.

Lemma path_ok_snoc p n : path_ok (p ++ [n]) -> parent_path (path_of (p ++ [n])) = Some (path_of p) /\ file_name (path_of (p ++ [n])) = Some n.
Proof. intros [Hg Ht]. destruct (path_parts p n Hg) as (_ & Hp & Hf & _); [by apply Ht|done]. Qed.

Lemma parent_of_root : parent_path (path_of []) = None.
Proof. by vm_compute. Qed.

Lemma segments_of_path p : path_ok p -> segments_of (path_of p) = p.
Proof.
  intros [Hg _]. unfold segments_of, path_of, trim_matches_slash. destruct (decide (p = [])) as [->|Hne]; [by vm_compute|].
  assert (Hstart : trim_start_slashes (slash :: join_slash p) = join_slash p).
  { cbn [trim_start_slashes]. rewrite decide_True by done. destruct p as [|s p]; [done|]. apply Forall_cons in Hg as [(Hs & _ & _ & Hsl & _) _].
    destruct s as [|b s]; [done|]. assert (b <> slash) by set_solver.
    destruct p; cbn [join_slash app trim_start_slashes]; by rewrite decide_False. }
  rewrite Hstart. assert (Hend : trim_end_slashes (join_slash p) = join_slash p).
  { destruct p as [|x p _] using rev_ind; [done|]. apply Forall_app in Hg as [_ Hx]. apply Forall_singleton in Hx as (Hx & _ & _ & Hsl & _).
    destruct (decide (p = [])) as [->|Hp]; [by apply (trim_end_slashes_noslash [] x)|]. rewrite join_snoc by done.
    change (slash :: x) with ([slash] ++ x). rewrite app_assoc. by apply trim_end_slashes_noslash. }
  rewrite Hend, split_join; [|done|by apply good_no_slash]. apply filter_all. intros x Hx.
  rewrite Forall_forall in Hg. by destruct (Hg x Hx).
Qed.

Lemma path_ok_inj p q : path_ok p -> path_ok q -> path_of p = path_of q -> p = q.
Proof. intros Hp Hq Heq. rewrite <- (segments_of_path p Hp), <- (segments_of_path q Hq). by rewrite Heq. Qed.

Lemma path_of_root p : path_ok p -> path_of p = lit "/" -> p = [].
Proof. intros Hp Heq. apply path_ok_inj; [done| |done]. split; [constructor|]. intros q [r Hr]. by destruct q. Qed.

(** ** The tree *)

Abbreviation Dirs := (gmap (list bytes) (list ChildEntry)).

Section Tree.
Context `{Blake3}.

Definition dir_input (p : list bytes) : bytes := lit "dir:" ++ path_of p.
Definition body_input (cs : list ChildEntry) : bytes := lit "dirc:" ++ dir_bytes cs.
Definition dkey (p : list bytes) : bytes := blake3 (dir_input p).
Definition dir_hash (cs : list ChildEntry) : bytes := blake3 (body_input cs).

(** An entry as the directory code writes them. *)
Definition dir_entry (value : bytes) : Stored := stored_entry DirectoryIndex value.

Record dirs_ok (known : list bytes) (v : Visible) (D : Dirs) : Prop := {
  do_paths p cs : D !! p = Some cs -> path_ok p /\ children_ok cs /\ dir_input p ∈ known /\ body_input cs ∈ known;
  do_link p cs : D !! p = Some cs -> exists st, v_content v !! dkey p = Some st /\ st_version st = z2b 0
    /\ (st_value st = dir_hash cs \/ (st_value st = [] /\ cs = []));
  do_body p cs : D !! p = Some cs -> exists st, v_content v !! dir_hash cs = Some st /\ st_value st = dir_bytes cs;
  do_root : exists cs, D !! [] = Some cs /\ v_head v = dir_hash cs;
  do_parent p n cs : D !! (p ++ [n]) = Some cs -> exists pcs child, D !! p = Some pcs /\ find_child pcs n = Some child
    /\ is_directory child = true /\ ce_hash child = dir_hash cs;
  do_missing p : path_ok p -> dir_input p ∈ known -> D !! p = None -> v_content v !! dkey p = None;
  do_cache h x : v_cache v !! h = Some x -> exists cs, children_ok cs /\ body_input cs ∈ known /\ h = dir_hash cs /\ x = dir_bytes cs;
}.

Lemma dir_hash_length cs : zlen (dir_hash cs) = 32.
Proof. unfold zlen, dir_hash. by rewrite blake3_length. Qed.

Section Known.
Context (known : list bytes) (Hfree : collision_free known).

Lemma dkey_inj p q : path_ok p -> path_ok q -> dir_input p ∈ known -> dir_input q ∈ known -> dkey p = dkey q -> p = q.
Proof. intros Hp Hq Kp Kq Hk%Hfree; [|done|done]. apply app_inv_head in Hk. by apply path_ok_inj. Qed.

Lemma dir_hash_inj cs cs' : children_ok cs -> children_ok cs' -> body_input cs ∈ known -> body_input cs' ∈ known ->
  dir_hash cs = dir_hash cs' -> cs = cs'.
Proof.
  intros Hc Hc' Kc Kc' Hk%Hfree; [|done|done]. apply app_inv_head in Hk.
  pose proof (dir_bytes_decode cs Hc) as H1. rewrite Hk, (dir_bytes_decode cs' Hc') in H1. by injection H1.
Qed.

Lemma dkey_body p cs : dir_input p ∈ known -> body_input cs ∈ known -> dkey p <> dir_hash cs.
Proof. intros Kp Kc Hk%Hfree; [|done|done]. unfold dir_input, body_input, path_of in Hk. by destruct (decide (p = [])). Qed.
End Known.
End Tree.

(** ** Reading the tree *)

Section Reads.
Context `{Blake3} {E : Type} `{!Engine E, !EngineLaws E} (fuel : nat) (now : Z).
Context (known : list bytes) (Hfree : collision_free known).

(** The tree is in the engine, and [n] writes fit. *)
Definition tree_in (n : nat) (s : E) (D : Dirs) : Prop := e_room n s /\ dirs_ok known (e_visible s) D.

(** Content and head are as they were. *)
Definition same_store (s s' : E) : Prop :=
  v_content (e_visible s') = v_content (e_visible s) /\ v_head (e_visible s') = v_head (e_visible s).

Lemma same_store_refl s : same_store s s.
Proof. done. Qed.

Lemma same_store_trans s1 s2 s3 : same_store s1 s2 -> same_store s2 s3 -> same_store s1 s3.
Proof. intros [? ?] [? ?]. split; congruence. Qed.

Lemma look_some n s k st (Q : option EntryData -> E -> Prop) : e_room n s -> v_content (e_visible s) !! k = Some st ->
  (forall hd, eh_entry_version hd = st_version st -> Q (Some (hd, k, st_value st)) s) -> runs (look_up k) s Q.
Proof.
  intros Hr Hk HQ. pose proof (e_get_spec n s k Hr) as Hg. rewrite Hk in Hg. destruct Hg as (hd & Hg & _ & _ & Hsum).
  unfold look_up. run. apply (runs_lift _ _ _ _ Hg). apply HQ. by rewrite <- Hsum.
Qed.

Lemma look_none n s k (Q : option EntryData -> E -> Prop) : e_room n s -> v_content (e_visible s) !! k = None ->
  Q None s -> runs (look_up k) s Q.
Proof.
  intros Hr Hk HQ. pose proof (e_get_spec n s k Hr) as Hg. rewrite Hk in Hg. destruct Hg as [Hg _].
  unfold look_up. run. by apply (runs_lift _ _ _ _ Hg).
Qed.

Context (n : nat) (s : E) (D : Dirs) (T : tree_in n s D).

Lemma dirs_prefix p q cs : D !! (p ++ q) = Some cs -> is_Some (D !! p).
Proof.
  revert cs. induction q as [|x q IH] using rev_ind; intros cs Hd; [rewrite app_nil_r in Hd; by eexists|].
  rewrite app_assoc in Hd. destruct (do_parent _ _ _ (proj2 T) _ _ _ Hd) as (pcs & child & Hp & _). by eapply IH.
Qed.

Lemma walk_step_ok p name pcs cs : D !! p = Some pcs -> D !! (p ++ [name]) = Some cs ->
  runs (walk_step fuel now (dir_hash pcs) name 32) s (fun o s' => s' = s /\ o = Some (dir_hash cs)).
Proof.
  intros Hp Hc. destruct T as [Hr Hok]. destruct (do_body _ _ _ Hok p pcs Hp) as (st & Hst & Hv).
  destruct (do_paths _ _ _ Hok p pcs Hp) as (_ & Hpcs & _).
  destruct (do_parent _ _ _ Hok p name cs Hc) as (pcs' & child & Hp' & Hf & Hdir & Hh). rewrite Hp in Hp'. injection Hp' as <-.
  unfold walk_step. apply runs_bind. eapply look_some; [exact Hr|exact Hst|]. intros hd Hver. cbv beta iota. rewrite Hv.
  assert (Hne : dir_bytes pcs <> []) by (intros Hb%(dir_bytes_empty pcs Hpcs); by subst).
  unfold content_children. rewrite bool_decide_eq_false_2 by done. rewrite (dir_bytes_flat pcs Hpcs). run.
  apply (runs_lift _ _ _ _ (dir_bytes_decode pcs Hpcs)). run. rewrite Hf, Hdir, Hh. done.
Qed.

Lemma walk_ok q p pcs cs : D !! p = Some pcs -> D !! (p ++ q) = Some cs ->
  runs (walk_segments fuel now q (dir_hash pcs) 32) s (fun o s' => s' = s /\ o = Some (dir_hash cs)).
Proof.
  revert p pcs. induction q as [|x q IH]; intros p pcs Hp Hc; cbn [walk_segments].
  { rewrite app_nil_r in Hc. run. split; [done|congruence]. }
  change (x :: q) with ([x] ++ q) in Hc. rewrite app_assoc in Hc. destruct (dirs_prefix _ _ _ Hc) as [xcs Hx].
  apply runs_bind. eapply runs_mono; [by apply (walk_step_ok p x pcs xcs)|]. intros o s' [-> ->]. by apply (IH (p ++ [x])).
Qed.

Lemma tree_algo : e_hash_algo s = Blake3_256.
Proof. eapply e_algo_spec. apply T. Qed.

Lemma dir_key_ok p : directory_path_hash (path_of p) (e_hash_algo s) = Ok (dkey p).
Proof. unfold directory_path_hash. by rewrite tree_algo. Qed.

(** A link to the directory's content is not stale. *)
Lemma recover_ok p cs : D !! p = Some cs ->
  runs (recover_directory_data_if_stale fuel now (path_of p) (dkey p)) s (fun o s' => s' = s /\ o = None).
Proof.
  intros Hp. destruct T as [Hr Hok]. destruct (do_link _ _ _ Hok p cs Hp) as (st & Hst & _ & Hv).
  destruct (do_paths _ _ _ Hok p cs Hp) as (Hpath & _). destruct (do_root _ _ _ Hok) as (rcs & Hroot & Hhead).
  unfold recover_directory_data_if_stale. run. rewrite tree_algo. change (hash_length Blake3_256) with 32.
  eapply look_some; [exact Hr|exact Hst|]. intros hd _. cbv beta iota.
  destruct Hv as [Hv|[Hv _]]; rewrite Hv; [|change (zlen ([] : bytes) =? 32) with false; cbn [negb]; by run]. rewrite dir_hash_length. cbn [Z.eqb Pos.eqb negb].
  apply runs_bind. eapply runs_lift; [apply (e_head_spec n s Hr)|]. destruct (no_head _); [by run|].
  rewrite Hhead, path_ok_normal, segments_of_path by done. apply runs_bind.
  eapply runs_mono; [by apply (walk_ok p [] rcs cs)|]. intros o s' [-> ->]. cbv beta iota. rewrite bool_decide_eq_true_2 by done. by run.
Qed.

Lemma recover_missing p : D !! p = None -> path_ok p -> dir_input p ∈ known ->
  runs (recover_directory_data_if_stale fuel now (path_of p) (dkey p)) s (fun o s' => s' = s /\ o = None)
  /\ runs (read_directory_data (dkey p)) s (fun o s' => s' = s /\ o = None).
Proof.
  intros Hp Hpath Hk. destruct T as [Hr Hok]. pose proof (do_missing _ _ _ Hok p Hpath Hk Hp) as Hnone. split.
  - unfold recover_directory_data_if_stale. run. eapply look_none; [exact Hr|exact Hnone|]. by run.
  - unfold read_directory_data. run. eapply look_none; [exact Hr|exact Hnone|]. by run.
Qed.

Lemma cache_ok s' cs : children_ok cs -> body_input cs ∈ known -> e_room n s' ->
  e_visible s' = v_set_cache (dir_hash cs) (dir_bytes cs) (e_visible s) -> tree_in n s' D /\ same_store s s'.
Proof.
  intros Hcs Hk Hr' Hv. split; [|by unfold same_store; rewrite Hv]. split; [done|]. rewrite Hv. destruct (proj2 T) as [? ? ? ? ? ? Hc].
  split; try done. cbn. intros h x [[<- <-]|[_ Hx]]%lookup_insert_Some; [by exists cs|by apply Hc].
Qed.

Lemma read_ok p cs : D !! p = Some cs ->
  runs (read_directory_data (dkey p)) s (fun o s' => tree_in n s' D /\ same_store s s'
    /\ exists hd, o = Some (hd, dir_bytes cs) /\ eh_entry_version hd = z2b 0).
Proof.
  intros Hp. pose proof T as [Hr Hok]. destruct (do_link _ _ _ Hok p cs Hp) as (st & Hst & Hver & Hv).
  destruct (do_paths _ _ _ Hok p cs Hp) as (_ & Hcs & _ & Hkb). destruct (do_body _ _ _ Hok p cs Hp) as (stb & Hstb & Hvb).
  unfold read_directory_data. run. eapply look_some; [exact Hr|exact Hst|]. intros hd Hhd. cbv beta iota. rewrite tree_algo.
  change (hash_length Blake3_256) with 32. rewrite Hver in Hhd. destruct Hv as [Hv|[Hv ->]]; rewrite Hv.
  2: { change (zlen [] =? 32) with false. cbv iota. run. split; [exact T|]. split; [apply same_store_refl|]. by exists hd. }
  rewrite dir_hash_length. cbn [Z.eqb Pos.eqb]. rewrite (e_cache_spec n s Hr).
  destruct (v_cache (e_visible s) !! dir_hash cs) as [x|] eqn:Ex.
  - run. split; [exact T|]. split; [apply same_store_refl|]. exists hd.
    destruct (do_cache _ _ _ Hok _ _ Ex) as (cs' & Hcs' & Hk' & Hh & ->). by rewrite (dir_hash_inj known Hfree cs cs' Hcs Hcs' Hkb Hk' Hh).
  - apply runs_bind. eapply look_some; [exact Hr|exact Hstb|]. intros hdb _. cbv beta iota. rewrite Hvb. apply runs_bind.
    eapply runs_mono; [apply (e_cache_dir_spec n s _ _ Hr)|]. intros [] s' [Hr' Hvis]. run.
    destruct (cache_ok s' cs Hcs Hkb Hr' Hvis) as [T' HS]. split; [exact T'|]. split; [exact HS|]. by exists hd.
Qed.

(** What an update reads first. *)
Lemma current_ok p cs : D !! p = Some cs ->
  runs (current_directory fuel now (path_of p) (dkey p)) s (fun o s' => tree_in n s' D /\ same_store s s'
    /\ exists hd, o = Some (hd, dir_bytes cs) /\ eh_entry_version hd = z2b 0).
Proof.
  intros Hp. unfold current_directory. apply runs_bind. eapply runs_mono; [by apply (recover_ok p cs)|]. intros o s' [-> ->]. by apply read_ok.
Qed.

Lemma current_missing p : D !! p = None -> path_ok p -> dir_input p ∈ known ->
  runs (current_directory fuel now (path_of p) (dkey p)) s (fun o s' => s' = s /\ o = None).
Proof.
  intros Hp Hpath Hk. destruct (recover_missing p Hp Hpath Hk) as [H1 H2]. unfold current_directory. apply runs_bind.
  eapply runs_mono; [exact H1|]. intros o s' [-> ->]. exact H2.
Qed.

(** A listing is the children whose own entries are live. *)
Lemma filter_live_ok s' parent cs : e_room n s' -> Forall listed_ok cs ->
  exists l, filter_live_children s' parent cs = Ok l /\ sublist l cs.
Proof.
  intros Hr'. assert (Ha : e_hash_algo s' = Blake3_256) by (by eapply e_algo_spec).
  induction 1 as [|e cs He _ IH]; cbn [filter_live_children]; [by exists []|].
  destruct IH as (l & El & Hl).
  assert (exists b, child_is_live s' parent e = Ok b) as [b ->].
  { unfold child_is_live, file_path_hash, directory_path_hash, symlink_path_hash. rewrite Ha. cbn [compute_hash].
    destruct (EntryType_from_u8 _) as [[]|err|] eqn:Et; rewrite ?bind_ret, ?(e_has_spec n s' _ Hr'); eauto.
    unfold EntryType_from_u8 in Et. by repeat case_match. }
  rewrite bind_ret, El, bind_ret. destruct b; eexists; (split; [done|]); [by apply sublist_skip|by apply sublist_cons].
Qed.

Lemma list_ok p cs : D !! p = Some cs ->
  runs (list_directory fuel now (path_of p)) s (fun l s' => tree_in n s' D /\ same_store s s'
    /\ filter_live_children s' (path_of p) cs = Ok l).
Proof.
  intros Hp. destruct (do_paths _ _ _ (proj2 T) p cs Hp) as (Hpath & Hcs & _). unfold list_directory. rewrite path_ok_normal by done.
  run. apply (runs_lift _ _ _ _ (dir_key_ok p)). run. eapply runs_mono; [by apply (recover_ok p cs)|]. intros o s' [-> ->]. cbv beta iota.
  run. eapply runs_mono; [by apply (read_ok p cs)|]. intros o s' (T' & HS & hd & -> & Hver). cbv beta iota.
  case_bool_decide as Hb.
  { apply (dir_bytes_empty cs Hcs) in Hb as ->. run. by split. }
  apply runs_bind, runs_attempt. rewrite (dir_bytes_flat cs Hcs), Hver, tree_algo. change (hash_length Blake3_256) with 32.
  apply (runs_lift _ _ _ _ (dir_bytes_decode cs Hcs)). cbv beta iota. run.
  destruct (filter_live_ok s' (path_of p) cs (proj1 T') (proj1 Hcs)) as (l & El & _). apply (runs_lift _ _ _ _ El). by split.
Qed.
End Reads.

(** ** Adding a child *)

Section Update.
Context `{Blake3} {E : Type} `{!Engine E, !EngineLaws E} (fuel : nat) (now : Z).
Context (known : list bytes) (Hfree : collision_free known).

(** The entry of a directory in its parent. *)
Definition dir_as_child (name : bytes) (cs : list ChildEntry) : ChildEntry :=
  {| ce_entry_type := z2b (EntryType_to_u8 DirectoryIndex); ce_hash := dir_hash cs; ce_total_size := zlen (dir_bytes cs);
     ce_created_at := now; ce_updated_at := now; ce_name := name;
     ce_content_type := None; ce_virtual_time := as_u64 now; ce_node_id := 0 |}.

(** The directories that change, from the child's up to the root; the path is given by
    its segments from the last. *)
Fixpoint changed_dirs (D : Dirs) (rp : list bytes) (child : ChildEntry) : list (list bytes * list ChildEntry) :=
  let cs := upsert_child (default [] (D !! rev rp)) child in
  (rev rp, cs) :: match rp with [] => [] | name :: rp => changed_dirs D rp (dir_as_child name cs) end.

(** The tree with the child in the directory [p]. *)
Definition add_child (D : Dirs) (p : list bytes) (child : ChildEntry) : Dirs :=
  list_to_map (changed_dirs D (rev p) child) ∪ D.

Definition dir_batch_entry (key value : bytes) : BatchEntry :=
  {| be_entry_type := DirectoryIndex; be_key := key; be_value := value; be_kv_type := to_kv_type DirectoryIndex |}.

Definition dir_batch (l : list (list bytes * list ChildEntry)) : WriteBatch :=
  '(p, cs) ← l; [dir_batch_entry (dir_hash cs) (dir_bytes cs); dir_batch_entry (dkey p) (dir_hash cs)].

Definition change_ok (pc : list bytes * list ChildEntry) : Prop :=
  path_ok pc.1 /\ children_ok pc.2 /\ dir_input pc.1 ∈ known /\ body_input pc.2 ∈ known.

Abbreviation tree := (tree_in known).

Lemma flat_ok n s D cs b : tree n s D -> children_ok cs -> body_input cs ∈ known ->
  runs (flat_directory Blake3_256 cs b) s (fun r s' =>
    r = (dir_bytes cs, dir_hash cs, b ++ [dir_batch_entry (dir_hash cs) (dir_bytes cs)]) /\ tree n s' D /\ same_store s s').
Proof.
  intros T Hcs Hk. unfold flat_directory. apply runs_bind. change (hash_length Blake3_256) with 32.
  apply (runs_lift _ _ _ _ (proj1 (dir_bytes_ok cs Hcs))). apply runs_bind. apply (runs_lift _ (dir_hash cs)); [done|].
  apply runs_bind. eapply runs_mono; [apply (e_cache_dir_spec n s _ _ (proj1 T))|]. intros [] s' [Hr Hv]. run. split; [done|].
  by eapply cache_ok.
Qed.

Lemma with_child_ok n s D p child b hd : tree n s D -> change_ok (p, upsert_child (default [] (D !! p)) child) ->
  eh_entry_version hd = z2b 0 -> (forall cs, D !! p = Some cs -> children_ok cs) ->
  let cs := upsert_child (default [] (D !! p)) child in
  runs (directory_with_child fuel now Blake3_256 ((fun cs => (hd, dir_bytes cs)) <$> D !! p) child b) s (fun r s' =>
    r = (dir_bytes cs, dir_hash cs, b ++ [dir_batch_entry (dir_hash cs) (dir_bytes cs)]) /\ tree n s' D /\ same_store s s').
Proof.
  intros T (_ & Hcs & _ & Hk) Hver Hold. cbn in Hcs, Hk. cbv zeta. destruct (D !! p) as [old|] eqn:Ep; cbn; [|by apply flat_ok].
  pose proof (Hold old eq_refl) as Hok. unfold directory_with_child. change (hash_length Blake3_256) with 32.
  rewrite (dir_bytes_flat old Hok), andb_false_r. apply runs_bind. apply (runs_lift _ old).
  - case_bool_decide as Hb; [by apply (dir_bytes_empty old Hok) in Hb as ->|]. rewrite Hver. by apply dir_bytes_decode.
  - destruct Hcs as [Hl Hlen]. rewrite (proj2 (Z.leb_gt _ _)) by done. by apply flat_ok.
Qed.

Lemma dir_child_eq p name cs : path_ok (p ++ [name]) -> dir_child now (path_of (p ++ [name])) (dir_hash cs) (dir_bytes cs) = dir_as_child name cs.
Proof. intros Hp. unfold dir_child. by rewrite (proj2 (path_ok_snoc p name Hp)). Qed.

(** The last of the changed directories is the root. *)
Definition root_of (l : list (list bytes * list ChildEntry)) : list ChildEntry := default [] (snd <$> last l).

Lemma root_of_cons x l : l <> [] -> root_of (x :: l) = root_of l.
Proof. intros Hl. unfold root_of. by destruct l. Qed.

Lemma changed_dirs_ne D rp child : changed_dirs D rp child <> [].
Proof. by destruct rp. Qed.

Lemma level_ok n s D p child b : tree n s D -> change_ok (p, upsert_child (default [] (D !! p)) child) ->
  let cs := upsert_child (default [] (D !! p)) child in
  runs (existing ← current_directory fuel now (path_of p) (dkey p); directory_with_child fuel now Blake3_256 existing child b) s (fun r s' =>
    r = (dir_bytes cs, dir_hash cs, b ++ [dir_batch_entry (dir_hash cs) (dir_bytes cs)]) /\ tree n s' D /\ same_store s s').
Proof.
  intros T Hch. pose proof Hch as (Hpath & _ & Hk & _). cbn in Hpath, Hk. cbv zeta. apply runs_bind.
  assert (Hold : forall cs, D !! p = Some cs -> children_ok cs) by (intros cs Hp; by apply (do_paths _ _ _ (proj2 T) p)).
  destruct (D !! p) as [old|] eqn:Ep.
  - eapply runs_mono; [by apply (current_ok fuel now known Hfree n s D T p old)|]. intros o s' (T' & HS & hd & -> & Hver).
    eapply runs_mono; [pose proof (with_child_ok n s' D p child b hd T') as Hw; rewrite Ep in Hw; by apply Hw|].
    cbn. intros r s2 (-> & T2 & HS2). split; [done|]. split; [done|]. by eapply same_store_trans.
  - eapply runs_mono; [by apply (current_missing fuel now known n s D T p)|]. intros o s' [-> ->].
    by apply flat_ok; [|apply Hch..].
Qed.

Lemma change_fits pc : change_ok pc -> Forall batch_fits (dir_batch [pc]).
Proof.
  destruct pc as [p cs]. intros (_ & Hcs & _). assert (Hl : forall i, zlen (blake3 i) = 32) by (intros i; unfold zlen; by rewrite blake3_length).
  assert (Hkv : kv_type_ok (to_kv_type DirectoryIndex)) by (vm_compute; split; congruence).
  assert (Hd : zlen (dir_hash cs) <= MAX_KEY_OR_VALUE_BYTES) by (rewrite dir_hash_length; vm_compute; congruence).
  constructor; [|constructor; [|constructor]]; (split; [apply Hl|split; [|exact Hkv]]); [by apply dir_bytes_ok|exact Hd].
Qed.

Lemma is_root_path p : path_ok p -> bool_decide (path_of p = lit "/") = bool_decide (p = []).
Proof. intros Hp. apply bool_decide_ext. split; [by apply path_of_root|by intros ->]. Qed.

Lemma update_loop_ok rp : forall rounds name child b n s D,
  (length rp < rounds)%nat -> path_ok (rev rp ++ [name]) ->
  (forall x, head (rev rp ++ [name]) = Some x -> is_system_path (path_of [x]) = false) ->
  Forall change_ok (changed_dirs D rp child) -> is_i64 now -> Forall batch_fits b ->
  tree (length (b ++ dir_batch (changed_dirs D rp child)) + n) s D ->
  runs (update_loop fuel now rounds (path_of (rev rp ++ [name])) child b) s (fun _ s' =>
    e_room n s' /\ exists s1, tree (length (b ++ dir_batch (changed_dirs D rp child)) + n) s1 D /\ same_store s s1 /\
    e_visible s' = v_set_head (dir_hash (root_of (changed_dirs D rp child)))
      (v_write (batch_writes (b ++ dir_batch (changed_dirs D rp child))) (e_visible s1))).
Proof.
  induction rp as [|x rp IH]; intros rounds name child b n s D Hrounds Hpath Hsys Hch Hnow Hb T;
    (destruct rounds as [|rounds]; [cbn in Hrounds; lia|]); cbn [update_loop];
    rewrite (proj1 (path_ok_snoc _ name Hpath)), (is_root_path _ (path_ok_init _ _ Hpath));
    cbn [changed_dirs] in Hch; apply Forall_cons in Hch as [Hc Hch]; pose proof (change_fits _ Hc) as Hfits.
  - change (rev [] ++ [name]) with [name]. rewrite (Hsys name eq_refl), andb_false_r. run. rewrite (tree_algo known _ s D T).
    apply (runs_lift _ (dkey [])); [done|]. cbv zeta. apply runs_bind.
    pose proof (level_ok _ s D [] child b T Hc) as Hlev. apply runs_bind_inv in Hlev. eapply runs_mono; [exact Hlev|].
    intros existing s0 Hlev'. apply runs_bind. eapply runs_mono; [exact Hlev'|]. intros r s1 (-> & T1 & HS). cbv beta iota.
    rewrite bool_decide_eq_true_2 by done. unfold WriteBatch_add. rewrite <- app_assoc. cbn [app]. apply runs_bind.
    change (b ++ [dir_batch_entry ?k ?v; ?y]) with (b ++ dir_batch (changed_dirs D [] child)).
    eapply runs_mono; [apply (e_flush_head_spec n s1); [apply T1|done|by apply Forall_app|by apply dir_hash_length]|].
    intros a s2 [Hr2 Hv2]. run. split; [done|]. exists s1. done.
  - rewrite bool_decide_eq_false_2 by (cbn; by destruct (rev rp)). cbn [andb]. run. rewrite (tree_algo known _ s D T).
    apply (runs_lift _ (dkey (rev (x :: rp)))); [done|]. cbv zeta. apply runs_bind.
    pose proof (level_ok _ s D (rev (x :: rp)) child b T Hc) as Hlev. apply runs_bind_inv in Hlev. eapply runs_mono; [exact Hlev|].
    intros existing s0 Hlev'. apply runs_bind. eapply runs_mono; [exact Hlev'|]. intros r s1 (-> & T1 & HS). cbv beta iota.
    unfold WriteBatch_add. rewrite <- app_assoc. cbn [app].
    set (cs := upsert_child (default [] (D !! rev (x :: rp))) child) in *.
    cbn [rev] in Hpath |- *. rewrite dir_child_eq by (by eapply path_ok_init).
    specialize (IH rounds x (dir_as_child x cs) (b ++ dir_batch [(rev (x :: rp), cs)]) n s1 D).
    eapply runs_mono; [apply IH; try done|].
    + cbn in Hrounds. lia.
    + by eapply path_ok_init.
    + intros y Hy. apply Hsys. cbn [rev]. rewrite <- app_assoc. destruct (rev rp); done.
    + by apply Forall_app.
    + by rewrite <- app_assoc.
    + rewrite <- app_assoc. intros [] s2 (Hr2 & s3 & T3 & HS3 & Hv3). split; [done|]. exists s3. split; [exact T3|].
      split; [by eapply same_store_trans|]. rewrite Hv3. cbn [changed_dirs]. rewrite root_of_cons by apply changed_dirs_ne. done.
Qed.

(** *** The changed directories *)

Section Changed.
Context (D : Dirs).

Lemma changed_paths rp child q cs : (q, cs) ∈ changed_dirs D rp child -> q `prefix_of` rev rp.
Proof.
  revert child. induction rp as [|x rp IH]; intros child; cbn [changed_dirs]; intros [[= -> ->]|Hin]%elem_of_cons; try done.
  - by apply elem_of_nil in Hin.
  - apply IH in Hin. cbn. by apply prefix_app_r.
Qed.

Lemma changed_NoDup rp child : NoDup (changed_dirs D rp child).*1.
Proof.
  revert child. induction rp as [|x rp IH]; intros child; cbn [changed_dirs]; csimpl; [constructor; [apply not_elem_of_nil|constructor]|].
  constructor; [|apply IH]. intros ([q cs] & Hq & Hin%changed_paths)%list_elem_of_fmap. cbn in Hq. subst q.
  apply prefix_length in Hin. cbn in Hin. rewrite length_app in Hin. cbn in Hin. lia.
Qed.

Lemma changed_root rp child : ([], root_of (changed_dirs D rp child)) ∈ changed_dirs D rp child.
Proof.
  revert child. induction rp as [|x rp IH]; intros child; [by left|]. cbn [changed_dirs]. rewrite root_of_cons by apply changed_dirs_ne.
  right. apply IH.
Qed.

Lemma changed_bottom rp child : (rev rp, upsert_child (default [] (D !! rev rp)) child) ∈ changed_dirs D rp child.
Proof. destruct rp; by left. Qed.

(** A changed directory is listed in its parent, which has changed too. *)
Lemma changed_parent rp child p name cs : (p ++ [name], cs) ∈ changed_dirs D rp child ->
  exists pcs, (p, pcs) ∈ changed_dirs D rp child /\ find_child pcs name = Some (dir_as_child name cs).
Proof.
  revert child. induction rp as [|x rp IH]; intros child; cbn [changed_dirs].
  { intros [[= Hp _]|Hin]%elem_of_cons; [by destruct p|by apply elem_of_nil in Hin]. }
  intros [[= Hp ->]|Hin]%elem_of_cons.
  - cbn in Hp. apply app_inj_tail in Hp as [-> ->]. eexists. split; [right; apply changed_bottom|].
    rewrite upsert_find. by rewrite decide_True.
  - destruct (IH _ Hin) as (pcs & Hpcs & Hf). exists pcs. split; [by right|done].
Qed.

(** Other names are as they were. *)
Lemma changed_find rp child p pcs name : (p, pcs) ∈ changed_dirs D rp child ->
  find_child pcs name = find_child (default [] (D !! p)) name
  \/ p ++ [name] ∈ (changed_dirs D rp child).*1
  \/ (p = rev rp /\ name = ce_name child /\ find_child pcs name = Some child).
Proof.
  assert (Hup : forall cs c, find_child (upsert_child cs c) name = find_child cs name
    \/ (name = ce_name c /\ find_child (upsert_child cs c) name = Some c)).
  { intros cs c. rewrite upsert_find. destruct (decide (name = ce_name c)); [by right|by left]. }
  revert child. induction rp as [|x rp IH]; intros child; cbn [changed_dirs]; intros [[= -> ->]|Hin]%elem_of_cons.
  - destruct (Hup (default [] (D !! rev [])) child) as [Hf|[Hn Hf]]; [by left|right; right; done].
  - by apply elem_of_nil in Hin.
  - destruct (Hup (default [] (D !! rev (x :: rp))) child) as [Hf|[Hn Hf]]; [by left|right; right; done].
  - destruct (IH _ Hin) as [Hf|[Hc|(-> & -> & Hf)]]; [by left|right; left; csimpl; by right|].
    right. left. csimpl. by left.
Qed.
End Changed.

(** *** Their entries *)

Section Entries.
Context (L : list (list bytes * list ChildEntry)) (HL : Forall change_ok L) (Hnd : NoDup L.*1) (c : gmap bytes Stored).

Let ws := batch_writes (dir_batch L).

Lemma batch_elem k st : (k, st) ∈ ws <-> exists p cs, (p, cs) ∈ L /\
  ((k = dir_hash cs /\ st = dir_entry (dir_bytes cs)) \/ (k = dkey p /\ st = dir_entry (dir_hash cs))).
Proof.
  unfold ws, batch_writes, dir_batch. rewrite list_elem_of_fmap. setoid_rewrite list_elem_of_bind. split.
  - intros (be & Heq & [p cs] & Hbe & Hin). exists p, cs. split; [done|].
    apply elem_of_cons in Hbe as [->|Hbe]; [left; by injection Heq as -> ->|].
    apply list_elem_of_singleton in Hbe as ->. right. by injection Heq as -> ->.
  - intros (p & cs & Hin & [[-> ->]|[-> ->]]).
    + exists (dir_batch_entry (dir_hash cs) (dir_bytes cs)). split; [done|]. exists (p, cs). split; [by left|done].
    + exists (dir_batch_entry (dkey p) (dir_hash cs)). split; [done|]. exists (p, cs). split; [right; by left|done].
Qed.

Lemma batch_key k : k ∈ ws.*1 <-> exists p cs, (p, cs) ∈ L /\ (k = dir_hash cs \/ k = dkey p).
Proof.
  rewrite list_elem_of_fmap. split.
  - intros ([k' st] & -> & (p & cs & Hin & Hk)%batch_elem). exists p, cs. cbn. naive_solver.
  - intros (p & cs & Hin & [->| ->]).
    + exists (dir_hash cs, dir_entry (dir_bytes cs)). split; [done|]. apply batch_elem. exists p, cs. auto.
    + exists (dkey p, dir_entry (dir_hash cs)). split; [done|]. apply batch_elem. exists p, cs. auto.
Qed.

Lemma change_of p cs : (p, cs) ∈ L -> path_ok p /\ children_ok cs /\ dir_input p ∈ known /\ body_input cs ∈ known.
Proof. rewrite Forall_forall in HL. apply (HL (p, cs)). Qed.

Lemma change_lookup p cs : (p, cs) ∈ L -> (list_to_map L : Dirs) !! p = Some cs.
Proof. by apply elem_of_list_to_map_1. Qed.

Lemma entry_link p cs : (p, cs) ∈ L -> apply_writes c ws !! dkey p = Some (dir_entry (dir_hash cs)).
Proof.
  intros Hin. destruct (change_of p cs Hin) as (Hp & Hcs & Kp & Kb). apply apply_writes_same.
  - apply batch_key. exists p, cs. auto.
  - intros y (p' & cs' & Hin' & [[Hk _]|[Hk ->]])%batch_elem; destruct (change_of p' cs' Hin') as (Hp' & Hcs' & Kp' & Kb').
    + by destruct (dkey_body known Hfree p cs' Kp Kb').
    + apply (dkey_inj known Hfree) in Hk; [|done..]. subst p'. apply change_lookup in Hin, Hin'. congruence.
Qed.

Lemma entry_body p cs : (p, cs) ∈ L -> apply_writes c ws !! dir_hash cs = Some (dir_entry (dir_bytes cs)).
Proof.
  intros Hin. destruct (change_of p cs Hin) as (Hp & Hcs & Kp & Kb). apply apply_writes_same.
  - apply batch_key. exists p, cs. auto.
  - intros y (p' & cs' & Hin' & [[Hk ->]|[Hk _]])%batch_elem; destruct (change_of p' cs' Hin') as (Hp' & Hcs' & Kp' & Kb').
    + by rewrite (dir_hash_inj known Hfree cs cs' Hcs Hcs' Kb Kb' Hk).
    + by destruct (dkey_body known Hfree p' cs Kp' Kb).
Qed.

(** A path outside keeps its link, a body its bytes. *)
Lemma entry_other_link p : path_ok p -> dir_input p ∈ known -> p ∉ L.*1 -> apply_writes c ws !! dkey p = c !! dkey p.
Proof.
  intros Hp Kp Hout. apply apply_writes_other. intros (p' & cs' & Hin' & Hk)%batch_key.
  destruct (change_of p' cs' Hin') as (Hp' & Hcs' & Kp' & Kb'). destruct Hk as [Hk|Hk].
  - by destruct (dkey_body known Hfree p cs' Kp Kb').
  - apply (dkey_inj known Hfree) in Hk; [|done..]. subst p'. apply Hout. apply list_elem_of_fmap. by exists (p, cs').
Qed.

Lemma entry_other_body cs : children_ok cs -> body_input cs ∈ known -> (exists st, c !! dir_hash cs = Some st /\ st_value st = dir_bytes cs) ->
  exists st, apply_writes c ws !! dir_hash cs = Some st /\ st_value st = dir_bytes cs.
Proof.
  intros Hcs Kb Hst. destruct (decide (dir_hash cs ∈ ws.*1)) as [Hin|Hout]; [|by rewrite apply_writes_other].
  apply batch_key in Hin as (p' & cs' & Hin' & Hk). destruct (change_of p' cs' Hin') as (Hp' & Hcs' & Kp' & Kb'). destruct Hk as [Hk|Hk].
  - rewrite (dir_hash_inj known Hfree cs cs' Hcs Hcs' Kb Kb' Hk), (entry_body p' cs' Hin'). by eexists.
  - by destruct (dkey_body known Hfree p' cs Kp' Kb).
Qed.
End Entries.

(** Adding a child to the directory [p]: the batch and the new head make the tree with
    that child. *)
Lemma add_child_ok v D p child : dirs_ok known v D -> Forall change_ok (changed_dirs D (rev p) child) ->
  (forall cs, D !! (p ++ [ce_name child]) = Some cs -> is_directory child = true /\ ce_hash child = dir_hash cs) ->
  dirs_ok known (v_set_head (dir_hash (root_of (changed_dirs D (rev p) child))) (v_write (batch_writes (dir_batch (changed_dirs D (rev p) child))) v))
    (add_child D p child).
Proof.
  intros Hok HL Hchild. set (L := changed_dirs D (rev p) child) in *. pose proof (changed_NoDup D (rev p) child) as Hnd. fold L in Hnd.
  assert (Hcase : forall q cs, add_child D p child !! q = Some cs <-> (q, cs) ∈ L \/ (q ∉ L.*1 /\ D !! q = Some cs)).
  { intros q cs. unfold add_child. fold L. rewrite lookup_union_Some_raw. split.
    - intros [Hl|[Hl Hd]]; [left; by apply elem_of_list_to_map_2|right]. split; [by apply not_elem_of_list_to_map_2|done].
    - intros [Hl|[Hl Hd]]; [left; by apply elem_of_list_to_map_1|right]. split; [by apply not_elem_of_list_to_map_1|done]. }
  destruct Hok as [Hpaths Hlink Hbody Hroot Hparent Hmiss Hcache]. split; cbn [v_set_head v_write v_content v_head v_cache].
  - intros q cs [Hin|[_ Hd]]%Hcase; [by apply (change_of L HL)|by apply Hpaths].
  - intros q cs [Hin|[Hout Hd]]%Hcase; [eexists; split; [by apply (entry_link L HL Hnd _ q)|]; split; [done|by left]|].
    destruct (Hpaths q cs Hd) as (Hq & _ & Kq & _). rewrite (entry_other_link L HL _ q) by done. by apply Hlink.
  - intros q cs [Hin|[_ Hd]]%Hcase; [eexists; split; [by apply (entry_body L HL _ q)|done]|].
    destruct (Hpaths q cs Hd) as (_ & Hcs & _ & Kb). apply (entry_other_body L HL); [done..|]. by apply (Hbody q).
  - exists (root_of L). split; [|done]. apply Hcase. left. apply changed_root.
  - intros q name cs [Hin|[Hout Hd]]%Hcase.
    + destruct (changed_parent D (rev p) child q name cs Hin) as (pcs & Hp & Hf). exists pcs, (dir_as_child name cs).
      split; [apply Hcase; by left|]. split; [exact Hf|]. by split.
    + destruct (Hparent q name cs Hd) as (pcs & ch & Hp & Hf & Hdir & Hh).
      destruct (decide (q ∈ L.*1)) as [Hq|Hq].
      2: { exists pcs, ch. split; [apply Hcase; by right|done]. }
      apply list_elem_of_fmap in Hq as ([q' pcs'] & -> & Hin). cbn in *.
      destruct (changed_find D (rev p) child q' pcs' name Hin) as [Hf'|[Hc|(-> & -> & Hf')]].
      * exists pcs', ch. split; [apply Hcase; by left|]. rewrite Hf', Hp. cbn. by split.
      * by destruct Hout.
      * rewrite rev_involutive in Hd. destruct (Hchild cs Hd) as [Hdir' Hh'].
        exists pcs', child. split; [apply Hcase; by left|]. by split.
  - intros q Hq Kq Hnone. assert (Hout : q ∉ L.*1).
    { intros ([q' cs'] & -> & Hin)%list_elem_of_fmap. cbn in *. assert (add_child D p child !! q' = Some cs') by (apply Hcase; by left). congruence. }
    rewrite (entry_other_link L HL _ q) by done. apply Hmiss; [done|done|]. destruct (D !! q) eqn:Eq; [|done].
    assert (add_child D p child !! q = Some l) by (apply Hcase; by right). congruence.
  - exact Hcache.
Qed.
End Update.
