(* ===== verification/FilesSpec.v ===== *)
(** Files read back: the chunks a file is split into, stored once per content and
    compressed or not, and the record under the path give exactly its bytes. *)
From S2P Require Import Prelude Sorted Codec EntryFormat Records KvEntry AppendWriter StateM BTreeNode BTree BTreeSpec BTreeRefine StorageEngine EngineContent EngineStore EngineApi Paths EngineChunks Files VersionTable Directories DirectoriesSpec.

Local Open Scope Z_scope.

(** What the code relies on of zstd: decoding inverts encoding, and a chunk can be
    encoded without passing the size limit of an entry. *)
Class ZstdLaws `{ZstdEncode, ZstdDecode} := {
  zstd_decodes data compressed : zstd_encode_all data = Ok compressed -> zstd_decode_all compressed = Ok data;
  zstd_encodes data : zlen data <= DEFAULT_CHUNK_SIZE ->
    exists compressed, zstd_encode_all data = Ok compressed /\ zlen compressed <= MAX_KEY_OR_VALUE_BYTES;
}.

(** ** Splitting *)

Lemma chunks_loop_enough {A} (n : nat) : (0 < n)%nat -> forall r1 r2 (l : list A), (length l <= r1)%nat -> (length l <= r2)%nat ->
  chunks_loop r1 n l = chunks_loop r2 n l.
Proof.
  intros Hn r1. induction r1 as [|r1 IH]; intros r2 [|x l] H1 H2; cbn in H1, H2; try lia; [by destruct r2|by destruct r2|].
  destruct r2 as [|r2]; [lia|]. cbn [chunks_loop]. f_equal. apply IH; rewrite length_drop; cbn; lia.
Qed.

Lemma chunks_of_cons {A} (n : nat) (l : list A) : (0 < n)%nat -> l <> [] -> chunks_of n l = take n l :: chunks_of n (drop n l).
Proof.
  intros Hn Hl. unfold chunks_of. destruct l as [|x l]; [done|]. cbn [length chunks_loop]. f_equal.
  apply chunks_loop_enough; [done|..]; rewrite length_drop; cbn; lia.
Qed.

Definition chunk_size : nat := Z.to_nat DEFAULT_CHUNK_SIZE.
Definition file_chunks (data : bytes) : list bytes := chunks_of chunk_size data.

Lemma chunk_size_Z : Z.of_nat chunk_size = DEFAULT_CHUNK_SIZE.
Proof. apply Z2Nat.id. vm_compute. congruence. Qed.

#[global] Opaque chunk_size.

Lemma chunk_size_pos : (0 < chunk_size)%nat.
Proof. pose proof chunk_size_Z as Hc. unfold DEFAULT_CHUNK_SIZE in Hc. lia. Qed.

Lemma file_chunks_concat data : concat (file_chunks data) = data.
Proof. apply (chunks_of_spec chunk_size data chunk_size_pos). Qed.

Lemma file_chunk_length data d : d ∈ file_chunks data -> zlen d <= DEFAULT_CHUNK_SIZE.
Proof.
  intros Hd. destruct (chunks_of_spec chunk_size data chunk_size_pos) as [_ Hall]. rewrite Forall_forall in Hall.
  destruct (Hall d Hd) as [_ Hl]. rewrite <- chunk_size_Z. unfold zlen. lia.
Qed.

Section Files.
Context `{Blake3, ZstdDecode, ZstdEncode, !ZstdLaws, MediaType} {E : Type} `{!Engine E, !EngineLaws E}.

(** ** Chunks *)

Definition chunk_input (d : bytes) : bytes := lit "chunk:" ++ d.
Definition ckey (d : bytes) : bytes := blake3 (chunk_input d).

(** The entry decodes to the chunk. *)
Definition holds_chunk (st : Stored) (d : bytes) : Prop :=
  st_type st = Chunk /\ decompress (st_value st) (st_compression st) = Ok d.

Definition chunks_in (c : gmap bytes Stored) (ds : list bytes) : Prop :=
  forall d, d ∈ ds -> exists st, c !! ckey d = Some st /\ holds_chunk st d.

(** Entries found under a chunk's key are that chunk. *)
Definition chunks_sound (c : gmap bytes Stored) (ds : list bytes) : Prop :=
  forall d st, d ∈ ds -> c !! ckey d = Some st -> holds_chunk st d.

Lemma decode_chunk hd k st d : holds_chunk st d -> summary (st_kv_type st) (hd, k, st_value st) = st ->
  decode_chunk_entry hd (st_value st) = Ok d.
Proof.
  intros [Ht Hd] Hsum. unfold decode_chunk_entry. assert (Ht' : eh_entry_type hd = Chunk) by (by rewrite <- Ht, <- Hsum).
  assert (Hc : eh_compression_algo hd = st_compression st) by (by rewrite <- Hsum).
  rewrite Ht', bool_decide_eq_true_2 by done. cbn [negb]. rewrite Hc. by destruct (st_compression st).
Qed.

Lemma fetch_ok n s k st d : e_room n s -> v_content (e_visible s) !! k = Some st -> holds_chunk st d -> fetch_chunk s false k = Ok d.
Proof.
  intros Hr Hk Hd. pose proof (e_get_spec n s k Hr) as Hg. rewrite Hk in Hg. destruct Hg as (hd & _ & Hg & _ & Hsum).
  unfold fetch_chunk. rewrite Hg. unfold decode_found. rewrite bind_ret, (decode_chunk hd k st d Hd Hsum). done.
Qed.

(** ** Reading a stream *)

Lemma collect_ok n s hs ds : e_room n s -> Forall2 (fun h d => exists st, v_content (e_visible s) !! h = Some st /\ holds_chunk st d) hs ds ->
  forall fuel i acc, (i <= length hs)%nat -> (length hs - i < fuel)%nat ->
  collect_loop fuel s {| fs_chunk_hashes := hs; fs_current_index := i; fs_include_deleted := false |} acc = Ok (acc ++ concat (drop i ds)).
Proof.
  intros Hr Hall fuel. pose proof (Forall2_length _ _ _ Hall) as Hlen.
  induction fuel as [|fuel IH]; intros i acc Hi Hf; [lia|]. cbn [collect_loop]. unfold stream_next. cbn [fs_chunk_hashes fs_current_index fs_include_deleted].
  destruct (hs !! i) as [h|] eqn:Eh.
  - destruct (Forall2_lookup_l _ _ _ _ _ Hall Eh) as (d & Ed & st & Hst & Hd). rewrite (fetch_ok n s h st d Hr Hst Hd), bind_ret.
    apply lookup_lt_Some in Eh as Hlt. rewrite IH by lia. rewrite <- app_assoc. f_equal. f_equal.
    by rewrite (drop_S ds d i Ed).
  - apply lookup_ge_None in Eh. rewrite drop_ge by lia. cbn. by rewrite app_nil_r.
Qed.

Lemma collect_file n s ds : e_room n s -> chunks_in (v_content (e_visible s)) ds ->
  collect_to_vec s (EngineFileStream_new (ckey <$> ds) false) = Ok (concat ds).
Proof.
  intros Hr Hin. unfold collect_to_vec. cbn [EngineFileStream_new fs_chunk_hashes fs_current_index].
  unfold EngineFileStream_new. rewrite (collect_ok n s (ckey <$> ds) ds); [done|done| |lia|rewrite length_fmap; lia].
  apply Forall2_fmap_l, Forall2_same_length_lookup. split; [done|]. intros i d d' Hd Hd'.
  assert (d = d') as <- by congruence. apply Hin. by eapply list_elem_of_lookup_2.
Qed.

(** ** Storing chunks *)

Context (known : list bytes) (Hfree : collision_free known) (now : Z) (Hnow : is_i64 now).

Lemma ckey_inj d d' : chunk_input d ∈ known -> chunk_input d' ∈ known -> ckey d = ckey d' -> d = d'.
Proof. intros Hd Hd' Hk%Hfree; [by apply app_inv_head in Hk|done|done]. Qed.

Lemma compress_ok d comp : zlen d <= DEFAULT_CHUNK_SIZE -> exists x, compress d comp = Ok x /\ zlen x <= MAX_KEY_OR_VALUE_BYTES /\ decompress x comp = Ok d.
Proof.
  intros Hl. destruct comp; cbn.
  - exists d. split; [done|]. split; [|done]. change MAX_KEY_OR_VALUE_BYTES with (2^30). unfold DEFAULT_CHUNK_SIZE in Hl. lia.
  - destruct (zstd_encodes d Hl) as (x & Hx & Hz). exists x. split; [done|]. split; [done|]. by apply zstd_decodes.
Qed.

(** The chunk is there afterwards; at most its own entry was written. *)
Lemma store_data_chunk_ok n s d fl comp : e_room (S n) s -> zlen d <= DEFAULT_CHUNK_SIZE -> chunks_sound (v_content (e_visible s)) [d] ->
  runs (store_data_chunk now d fl comp) s (fun k s' => k = ckey d /\ e_room n s' /\ exists ws,
    e_visible s' = v_write ws (e_visible s) /\ (forall w, w ∈ ws -> w.1 = ckey d /\ holds_chunk w.2 d)
    /\ chunks_in (v_content (e_visible s')) [d]).
Proof.
  intros Hr Hl Hs. unfold store_data_chunk. run. unfold chunk_content_hash. rewrite (e_algo_spec _ s Hr).
  apply (runs_lift _ (ckey d)); [done|]. run. eapply runs_lift; [apply (e_has_spec _ s _ Hr)|]. case_bool_decide as Hhas.
  { run. split; [done|]. split; [by eapply e_room_le; [|exact Hr]; lia|]. destruct Hhas as [st Hst]. exists [].
    assert (Hv : v_write [] (e_visible s) = e_visible s) by (by destruct (e_visible s)). rewrite Hv. split; [done|].
    split; [by intros w Hw%elem_of_nil|]. intros d' ->%list_elem_of_singleton. exists st. split; [done|]. apply (Hs d st); [by left|done]. }
  destruct (compress_ok d comp Hl) as (x & Hx & Hz & Hdec).
  assert (Hstore : runs (e_store now Chunk (ckey d) x fl comp CURRENT_ENTRY_VERSION) s (fun _ s' => e_room n s' /\ exists ws,
    e_visible s' = v_write ws (e_visible s) /\ (forall w, w ∈ ws -> w.1 = ckey d /\ holds_chunk w.2 d)
    /\ chunks_in (v_content (e_visible s')) [d])).
  { eapply runs_mono; [apply (e_store_spec n s now); [done|done|unfold zlen, ckey; by rewrite blake3_length|done]|].
    intros a s' [Hr' Hv]. split; [done|]. eexists. split; [exact Hv|]. split.
    - intros w ->%list_elem_of_singleton. by split.
    - intros d' ->%list_elem_of_singleton. rewrite Hv. cbn. rewrite lookup_insert_eq. by eexists. }
  destruct comp; cbn in Hx.
  - injection Hx as <-. run. eapply runs_mono; [exact Hstore|]. intros a s' [Hr' Hws]. run. by split.
  - run. apply (runs_lift _ _ _ _ Hx). run. eapply runs_mono; [exact Hstore|]. intros a s' [Hr' Hws]. run. by split.
Qed.

Lemma apply_holds c ws ds : Forall (fun d => chunk_input d ∈ known) ds -> chunks_sound c ds ->
  (forall w, w ∈ ws -> exists d, d ∈ ds /\ w.1 = ckey d /\ holds_chunk w.2 d) -> chunks_sound (apply_writes c ws) ds.
Proof.
  intros Hk Hs Hws d st Hd Hst. apply apply_writes_lookup in Hst as [Hw|[Hst _]]; [|by eapply Hs].
  destruct (Hws _ Hw) as (d' & Hd' & Hkey & Hh). cbn in Hkey, Hh. rewrite Forall_forall in Hk.
  by rewrite (ckey_inj d d' (Hk d Hd) (Hk d' Hd') Hkey).
Qed.

Definition chunk_writes (ds : list bytes) (ws : list (bytes * Stored)) : Prop :=
  forall w, w ∈ ws -> exists d, d ∈ ds /\ w.1 = ckey d /\ holds_chunk w.2 d.

Lemma keep_chunk c ws ds d : chunk_input d ∈ known -> Forall (fun d => chunk_input d ∈ known) ds -> chunk_writes ds ws ->
  chunks_in c [d] -> chunks_in (apply_writes c ws) [d].
Proof.
  intros Kd Hk Hws Hin d' ->%list_elem_of_singleton. destruct (Hin d) as (st & Hst & Hh); [by left|].
  destruct (apply_writes_is_Some c ws (ckey d)) as [st' Hst']; [left; by eexists|]. exists st'. split; [done|].
  apply apply_writes_lookup in Hst' as [Hw|[Hc _]]; [|congruence]. destruct (Hws _ Hw) as (d' & Hd' & Hkey & Hh'). cbn in Hkey, Hh'.
  rewrite Forall_forall in Hk. by rewrite (ckey_inj d d' Kd (Hk d' Hd') Hkey).
Qed.

Lemma store_chunks_ok fl comp data fuel : forall n s off acc (ds := file_chunks (drop (Z.to_nat off) data)),
  e_room (length ds + n) s -> 0 <= off <= zlen data -> zlen data - off < Z.of_nat fuel ->
  Forall (fun d => chunk_input d ∈ known) ds -> chunks_sound (v_content (e_visible s)) ds ->
  runs (store_data_chunks fuel now data off fl comp acc) s (fun hs s' => hs = acc ++ (ckey <$> ds) /\ e_room n s' /\ exists ws,
    e_visible s' = v_write ws (e_visible s) /\ chunk_writes ds ws /\ chunks_in (v_content (e_visible s')) ds).
Proof.
  induction fuel as [|fuel IH]; intros n s off acc ds Hr Hoff Hf Hk Hs; [lia|]. cbn [store_data_chunks].
  destruct (Z.ltb_spec off (zlen data)) as [Hlt|Hge].
  2: { assert (Hds : ds = []) by (unfold ds; rewrite drop_ge by (unfold zlen in *; lia); done). rewrite Hds in *. run.
       split; [by rewrite app_nil_r|]. split; [done|]. exists []. split; [by destruct (e_visible s)|]. split; by intros ? ?%elem_of_nil. }
  set (stop := Z.min (off + DEFAULT_CHUNK_SIZE) (zlen data)). set (rest := drop (Z.to_nat off) data) in *.
  pose proof chunk_size_Z as Hcs. pose proof chunk_size_pos as Hpos.
  assert (Hrest : rest <> []) by (unfold rest; intros Hr'%(f_equal length); rewrite length_drop in Hr'; unfold zlen in *; cbn in Hr'; lia).
  set (d := take chunk_size rest). assert (Hds : ds = d :: file_chunks (drop chunk_size rest)) by (by apply chunks_of_cons).
  assert (Hslice : slice_chk data off stop = Ok d).
  { rewrite slice_chk_ok by (unfold stop; lia). f_equal. unfold slice, d, rest, stop.
    destruct (Z.le_ge_cases (off + DEFAULT_CHUNK_SIZE) (zlen data)).
    - rewrite Z.min_l by lia. f_equal. lia.
    - rewrite Z.min_r by lia. unfold zlen in *. rewrite !take_ge; [done|rewrite length_drop; lia..]. }
  assert (Hnext : drop chunk_size rest = drop (Z.to_nat stop) data).
  { unfold rest, stop. rewrite drop_drop. destruct (Z.le_ge_cases (off + DEFAULT_CHUNK_SIZE) (zlen data)).
    - rewrite Z.min_l by lia. f_equal. lia.
    - rewrite Z.min_r by lia. unfold zlen in *. rewrite !drop_ge by lia. done. }
  rewrite Hnext in Hds. set (ds' := file_chunks (drop (Z.to_nat stop) data)) in *. rewrite Hds in Hr, Hk, Hs |- *. cbn [length] in Hr.
  apply Forall_cons in Hk as [Kd Hk]. assert (Hd : zlen d <= DEFAULT_CHUNK_SIZE).
  { unfold d, zlen. rewrite length_take. lia. }
  run. apply (runs_lift _ _ _ _ Hslice). apply runs_bind. eapply runs_mono; [apply (store_data_chunk_ok (length ds' + n) s d fl comp Hr Hd)|].
  { intros d' st ->%list_elem_of_singleton. apply Hs. by left. }
  intros k s1 (-> & Hr1 & ws1 & Hv1 & Hw1 & Hin1).
  assert (Hsound1 : chunks_sound (v_content (e_visible s1)) ds').
  { intros d' st Hd' Hst. assert (Hall : chunks_sound (apply_writes (v_content (e_visible s)) ws1) (d :: ds')).
    - apply apply_holds; [by constructor|done|]. intros w Hw. exists d. split; [by left|by apply Hw1].
    - apply (Hall d' st); [by right|]. by rewrite Hv1 in Hst. }
  eapply runs_mono; [apply (IH n s1 stop (acc ++ [ckey d])); [exact Hr1|unfold stop, DEFAULT_CHUNK_SIZE; lia|unfold stop, DEFAULT_CHUNK_SIZE in *; lia|exact Hk|exact Hsound1]|].
  intros hs s2 (-> & Hr2 & ws2 & Hv2 & Hw2 & Hin2). split; [by rewrite <- app_assoc|]. split; [done|]. exists (ws1 ++ ws2). split; [|split].
  - rewrite Hv2, Hv1. unfold v_write. cbn. by rewrite apply_writes_app.
  - intros w [Hw|Hw]%elem_of_app; [exists d; split; [by left|by apply Hw1]|]. destruct (Hw2 w Hw) as (d' & Hd' & ?). exists d'. split; [by right|done].
  - intros d' [->|Hd']%elem_of_cons; [|by apply Hin2]. rewrite Hv2. apply (keep_chunk _ ws2 ds' d Kd Hk Hw2 Hin1). by left.
Qed.

(** ** Records *)

Definition fpath_input (path : bytes) : bytes := lit "file:" ++ path.
Definition fkey (path : bytes) : bytes := blake3 (fpath_input path).

Definition record_bytes (r : FileRecord) : bytes := match FileRecord_serialize r 32 with Ok b => b | _ => [] end.
Definition fbody_input (r : FileRecord) : bytes := lit "filec:" ++ record_bytes r.
Definition fid_input (path : bytes) (r : FileRecord) : bytes := identity_input (lit "fileid:") path (fr_content_type r) (fr_chunk_hashes r).

(** A record the format can hold. *)
Record record_good (r : FileRecord) : Prop := {
  rg_wf : FileRecord_wf 32 r;
  rg_hash : zlen (fr_content_hash r) = 32;
  rg_bytes : FileRecord_serialize r 32 = Ok (record_bytes r);
  rg_size : zlen (record_bytes r) <= MAX_KEY_OR_VALUE_BYTES;
}.

Definition record_entry (r : FileRecord) (flags : byte) : Stored :=
  stored_as KV_TYPE_FILE_RECORD FileRecordEntry (record_bytes r) flags NoCompression (z2b CURRENT_FILE_RECORD_VERSION).

(** The record that is stored for the path, or none. *)
Definition record_at (c : gmap bytes Stored) (path : bytes) (r : option FileRecord) : Prop :=
  match r with
  | Some r => exists flags, c !! fkey path = Some (record_entry r flags) /\ record_good r
  | None => c !! fkey path = None
  end.

Lemma record_decode r : record_good r -> FileRecord_deserialize (record_bytes r) 32 (b2z (z2b CURRENT_FILE_RECORD_VERSION)) = Ok r.
Proof. intros [Hwf _ Hb _]. exact (FileRecord_decode_encode 32 _ r Hb Hwf). Qed.

Lemma read_record_ok n s path r : e_room n s -> record_at (v_content (e_visible s)) path r ->
  exists o, e_get_entry s (fkey path) = Ok o /\ read_record s o = Ok r.
Proof.
  intros Hr Hat. pose proof (e_get_spec n s (fkey path) Hr) as Hg. destruct r as [r|]; cbn in Hat.
  - destruct Hat as (fl & Hst & Hgood). rewrite Hst in Hg. destruct Hg as (hd & Hg & _ & _ & Hsum). eexists. split; [exact Hg|].
    unfold read_record. rewrite (e_algo_spec n s Hr). change (hash_length Blake3_256) with 32.
    assert (Hv : eh_entry_version hd = z2b CURRENT_FILE_RECORD_VERSION) by (by injection Hsum).
    rewrite Hv. cbn [st_value record_entry stored_as]. by rewrite record_decode.
  - rewrite Hat in Hg. destruct Hg as [Hg _]. by exists None.
Qed.

(** ** A file: its record and its chunks *)

Definition holds_file (c : gmap bytes Stored) (path data : bytes) : Prop :=
  exists r ds, record_at c path (Some r) /\ fr_chunk_hashes r = ckey <$> ds /\ concat ds = data /\ chunks_in c ds
    /\ Forall (fun d => chunk_input d ∈ known) ds.

Lemma file_reads n s path data : e_room n s -> normalize_path path = path -> holds_file (v_content (e_visible s)) path data ->
  read_file_buffered s path = Ok data.
Proof.
  intros Hr Hn (r & ds & (fl & Hst & Hgood) & Hch & <- & Hin & _). pose proof (e_get_spec n s (fkey path) Hr) as Hg.
  rewrite Hst in Hg. destruct Hg as (hd & _ & Hg & _ & Hsum). unfold read_file_buffered, read_file_streaming. rewrite Hn.
  unfold file_path_hash. rewrite (e_algo_spec n s Hr). cbn [compute_hash]. rewrite bind_ret.
  change (blake3 (lit "file:" ++ path)) with (fkey path). rewrite Hg, bind_ret. cbn [ok_or]. rewrite bind_ret.
  assert (Hv : eh_entry_version hd = z2b CURRENT_FILE_RECORD_VERSION) by (by injection Hsum).
  rewrite Hv. cbn [st_value record_entry stored_as]. change (hash_length Blake3_256) with 32. rewrite (record_decode r Hgood), bind_ret, bind_ret, Hch.
  by apply (collect_file n).
Qed.

(** The record a publication stores. *)
Definition published_record (input : FileRecordPublishInput) (path : bytes) (existing : option FileRecord) : FileRecord :=
  published_created_at input existing
    (set_content_hash (FileRecord_new now path (pi_content_type input) (pi_total_size input) (pi_chunk_hashes input)) (pi_content_hash input)).

Definition record_writes (path : bytes) (r : FileRecord) (flags : byte) : list (bytes * Stored) :=
  [(blake3 (fbody_input r), record_entry r flags); (blake3 (fid_input path r), record_entry r flags); (fkey path, record_entry r flags)].

Lemma store_record_ok n s key r flags : e_room (S n) s -> zlen key = 32 -> zlen (record_bytes r) <= MAX_KEY_OR_VALUE_BYTES ->
  runs (store_file_record_entry now key (record_bytes r) flags) s (fun _ s' =>
    e_room n s' /\ e_visible s' = v_write [(key, record_entry r flags)] (e_visible s)).
Proof.
  intros Hr Hk Hz. unfold store_file_record_entry. apply runs_bind.
  assert (Hs : runs (e_store now FileRecordEntry key (record_bytes r) flags NoCompression (z2b CURRENT_FILE_RECORD_VERSION)) s
    (fun _ s' => e_room n s' /\ e_visible s' = v_write [(key, record_entry r flags)] (e_visible s))) by (by apply e_store_spec).
  case_bool_decide as Hf; cbn [negb]; [rewrite <- Hf|]; (eapply runs_mono; [exact Hs|]; intros a s' Hs'; by run).
Qed.

Lemma published_fields input path existing (r := published_record input path existing) :
  fr_content_hash r = pi_content_hash input /\ fr_chunk_hashes r = pi_chunk_hashes input.
Proof.
  unfold r, published_record, published_created_at. destruct (pi_prefer_existing_created_at input), existing, (pi_created_at_override input); done.
Qed.

Lemma publish_file_ok n s input existing (path := normalize_path (pi_normalized_path input)) (r := published_record input path existing) :
  e_room (S (S (S n))) s -> record_at (v_content (e_visible s)) path existing -> record_good r ->
  runs (publish_file_record_entries now input) s (fun res s' =>
    res = {| pr_normalized_path := path; pr_file_record := r;
             pr_child_entry := file_child now path r (blake3 (fid_input path r)) (fr_updated_at r) (as_u64 now);
             pr_existing_total_size := fr_total_size <$> existing |}
    /\ e_room n s' /\ e_visible s' = v_write (record_writes path r (pi_flags input)) (e_visible s)).
Proof.
  intros Hr Hat Hgood. unfold publish_file_record_entries. run. unfold file_path_hash. rewrite (e_algo_spec _ s Hr).
  apply (runs_lift _ (fkey path)); [done|]. destruct (read_record_ok _ s path existing Hr Hat) as (o & Ho & Hread).
  run. apply (runs_lift _ _ _ _ Ho). run. apply (runs_lift _ _ _ _ Hread). cbv zeta. fold path.
  fold (published_record input path existing). fold r. unfold materialize_file_record_entries. run.
  rewrite (e_algo_spec _ s Hr). apply (runs_lift _ r).
  { unfold ensure_file_record_content_hash. rewrite (e_algo_spec _ s Hr), (rg_hash r Hgood). done. }
  change (hash_length Blake3_256) with 32. run. apply (runs_lift _ _ _ _ (rg_bytes r Hgood)). run.
  apply (runs_lift _ (blake3 (fbody_input r))); [done|]. run. apply (runs_lift _ (blake3 (fid_input path r))); [done|]. run.
  apply (runs_lift _ (fkey path)); [done|]. pose proof (rg_size r Hgood) as Hz.
  assert (Hl : forall i, zlen (blake3 i) = 32) by (intros i; unfold zlen; by rewrite blake3_length).
  run. eapply runs_mono; [apply (store_record_ok (S (S n))); [done|apply Hl|done]|]. intros _ s1 [Hr1 Hv1].
  run. eapply runs_mono; [apply (store_record_ok (S n)); [done|apply Hl|done]|]. intros _ s2 [Hr2 Hv2].
  run. eapply runs_mono; [apply (store_record_ok n); [done|apply Hl|done]|]. intros _ s3 [Hr3 Hv3]. run.
  split; [done|]. split; [done|]. rewrite Hv3, Hv2, Hv1. done.
Qed.

(** ** What the writes leave alone *)

Lemma known_ne a b : a ∈ known -> b ∈ known -> a <> b -> blake3 a <> blake3 b.
Proof. intros Ha Hb Hne Hk. by apply Hne, Hfree. Qed.

Lemma dirs_frame v D ws : dirs_ok known v D ->
  (forall k, k ∈ ws.*1 -> exists i, i ∈ known /\ k = blake3 i /\ (forall p, i <> dir_input p) /\ (forall cs, i <> body_input cs)) ->
  dirs_ok known (v_write ws v) D.
Proof.
  intros Hok Hws. pose proof Hok as [Hpaths Hlink Hbody Hroot Hparent Hmiss Hcache].
  assert (Hd : forall p, dir_input p ∈ known -> apply_writes (v_content v) ws !! dkey p = v_content v !! dkey p).
  { intros p Kp. apply apply_writes_other. intros (i & Ki & Hk & Hne & _)%Hws. by apply (known_ne _ _ Kp Ki) in Hk; [|intros Heq; by apply (Hne p)]. }
  assert (Hb : forall cs, body_input cs ∈ known -> apply_writes (v_content v) ws !! dir_hash cs = v_content v !! dir_hash cs).
  { intros cs Kc. apply apply_writes_other. intros (i & Ki & Hk & _ & Hne)%Hws. by apply (known_ne _ _ Kc Ki) in Hk; [|intros Heq; by apply (Hne cs)]. }
  split; cbn [v_write v_content v_head v_cache]; try done.
  - intros p cs Hp. destruct (Hpaths p cs Hp) as (_ & _ & Kp & _). rewrite Hd by done. by apply Hlink.
  - intros p cs Hp. destruct (Hpaths p cs Hp) as (_ & _ & _ & Kb). rewrite Hb by done. by apply (Hbody p).
  - intros p Hp Kp Hnone. rewrite Hd by done. by apply Hmiss.
Qed.
End Files.
