(* ===== verification/VersionsSpec.v ===== *)
(** Snapshots and forks as a store of versions: a head, named snapshots and named forks.
    Every operation of the version manager carries out its step on that store, on any
    engine that keeps its promises. *)
From S2P Require Import Prelude Sorted Codec EntryFormat Records KvEntry AppendWriter StateM BTreeSpec StorageEngine EngineContent EngineStore EngineApi Paths EngineChunks Files Versions VersionsFormat VersionTable.
From S2P Require Import KvPages FileHeader HotTail Converters Nvt KvSnapshot DiskKv DiskKvSpec DiskKvRefine EngineWrites EngineSpec EngineRefine EngineImpl.

Local Open Scope Z_scope.

(** ** The abstract store *)

Record VersionStore := {
  vs_head : bytes;
  vs_snapshots : gmap bytes SnapshotInfo;
  vs_forks : gmap bytes ForkInfo;
}.

Definition with_head (h : bytes) (v : VersionStore) : VersionStore :=
  {| vs_head := h; vs_snapshots := vs_snapshots v; vs_forks := vs_forks v |}.
Definition with_snapshots (m : gmap bytes SnapshotInfo) (v : VersionStore) : VersionStore :=
  {| vs_head := vs_head v; vs_snapshots := m; vs_forks := vs_forks v |}.
Definition with_forks (m : gmap bytes ForkInfo) (v : VersionStore) : VersionStore :=
  {| vs_head := vs_head v; vs_snapshots := vs_snapshots v; vs_forks := m |}.

Inductive version_cmd :=
  | VCreateSnapshot (name : bytes) (metadata : gmap bytes bytes)
  | VRestoreSnapshot (name : bytes)
  | VDeleteSnapshot (name : bytes)
  | VRenameSnapshot (old_name new_name : bytes)
  | VCreateFork (name : bytes) (base : option bytes)
  | VPromoteFork (name : bytes)
  | VAbandonFork (name : bytes)
  | VUpdateFork (name root_hash : bytes)
  | VUpdateHead (root_hash : bytes).

Inductive version_out := OSnapshot (i : SnapshotInfo) | OFork (i : ForkInfo) | ODone.

Definition manual (metadata : gmap bytes bytes) : gmap bytes bytes := <[SNAPSHOT_TYPE_KEY := SNAPSHOT_TYPE_MANUAL]> metadata.

Definition typed_metadata (metadata : gmap bytes bytes) : gmap bytes bytes :=
  if bool_decide (is_Some (metadata !! SNAPSHOT_TYPE_KEY)) then metadata else manual metadata.

Definition renamed (new_name : bytes) (i : SnapshotInfo) : SnapshotInfo :=
  {| si_name := new_name; si_root_hash := si_root_hash i; si_created_at := si_created_at i; si_metadata := manual (si_metadata i) |}.

Definition snapshot_missing : EngineError := NotFound "Snapshot not found: {}".
Definition snapshot_exists : EngineError := AlreadyExists "Snapshot already exists: {}".
Definition fork_missing : EngineError := NotFound "Fork not found: {}".
Definition fork_exists : EngineError := AlreadyExists "Fork already exists: {}".

(** The root a version name stands for. *)
Definition spec_snapshot_root (v : VersionStore) (name : bytes) : res bytes :=
  match vs_snapshots v !! name with Some i => Ok (si_root_hash i) | None => Err snapshot_missing end.

Definition spec_resolve (v : VersionStore) (version : option bytes) : res bytes :=
  match version with
  | None => Ok (vs_head v)
  | Some name =>
    if bool_decide (name = lit "HEAD") then Ok (vs_head v) else
    match vs_forks v !! name with Some i => Ok (fi_root_hash i) | None => spec_snapshot_root v name end
  end.

Definition spec_base (v : VersionStore) (base : option bytes) : res bytes :=
  match base with
  | None => Ok (vs_head v)
  | Some name => if bool_decide (name = lit "HEAD") then Ok (vs_head v) else spec_snapshot_root v name
  end.

Definition spec_version (now : Z) (cmd : version_cmd) (v : VersionStore) : res version_out * VersionStore :=
  match cmd with
  | VCreateSnapshot name metadata =>
    match vs_snapshots v !! name, find_root (map_to_list (vs_snapshots v)).*2 (vs_head v) with
    | Some _, _ => (Err snapshot_exists, v)
    | None, Some existing => (Ok (OSnapshot existing), v)
    | None, None =>
      let i := {| si_name := name; si_root_hash := vs_head v; si_created_at := now; si_metadata := typed_metadata metadata |} in
      (Ok (OSnapshot i), with_snapshots (<[name := i]> (vs_snapshots v)) v)
    end
  | VRestoreSnapshot name =>
    match vs_snapshots v !! name with
    | None => (Err snapshot_missing, v)
    | Some i => (Ok ODone, with_head (si_root_hash i) v)
    end
  | VDeleteSnapshot name =>
    match vs_snapshots v !! name with
    | None => (Err snapshot_missing, v)
    | Some _ => (Ok ODone, with_snapshots (delete name (vs_snapshots v)) v)
    end
  | VRenameSnapshot old_name new_name =>
    match vs_snapshots v !! old_name, vs_snapshots v !! new_name with
    | None, _ => (Err snapshot_missing, v)
    | Some _, Some _ => (Err snapshot_exists, v)
    | Some i, None => (Ok (OSnapshot (renamed new_name i)),
                       with_snapshots (delete old_name (<[new_name := renamed new_name i]> (vs_snapshots v))) v)
    end
  | VCreateFork name base =>
    match vs_forks v !! name, spec_base v base with
    | Some _, _ => (Err fork_exists, v)
    | None, Ok root_hash =>
      let i := {| fi_name := name; fi_root_hash := root_hash; fi_created_at := now |} in
      (Ok (OFork i), with_forks (<[name := i]> (vs_forks v)) v)
    | None, Err e => (Err e, v)
    | None, Panic => (Panic, v)
    end
  | VPromoteFork name =>
    match vs_forks v !! name with
    | None => (Err fork_missing, v)
    | Some i => (Ok ODone, with_forks (delete name (vs_forks v)) (with_head (fi_root_hash i) v))
    end
  | VAbandonFork name =>
    match vs_forks v !! name with
    | None => (Err fork_missing, v)
    | Some _ => (Ok ODone, with_forks (delete name (vs_forks v)) v)
    end
  | VUpdateFork name root_hash =>
    match vs_forks v !! name with
    | None => (Err fork_missing, v)
    | Some i => (Ok ODone, with_forks (<[name := {| fi_name := name; fi_root_hash := root_hash; fi_created_at := fi_created_at i |}]> (vs_forks v)) v)
    end
  | VUpdateHead root_hash => (Ok ODone, with_head root_hash v)
  end.

Fixpoint spec_versions (cmds : list (Z * version_cmd)) (v : VersionStore) : list (res version_out) * VersionStore :=
  match cmds with
  | [] => ([], v)
  | (now, cmd) :: cmds =>
    let '(r, v1) := spec_version now cmd v in
    let '(rs, v2) := spec_versions cmds v1 in (r :: rs, v2)
  end.

Section VersionsSpec.
Context `{Blake3, ZstdDecode, MetadataJson, LifecycleJson, HexDecode, !MetadataJsonLaws} {E : Type} `{!Engine E, !EngineLaws E}.

(** ** The commands on the engine *)

Definition done_out (m : M E unit) : M E version_out := _ ← m; mret ODone.

Definition run_version (now : Z) (cmd : version_cmd) : M E version_out :=
  match cmd with
  | VCreateSnapshot name metadata => i ← create_snapshot now name metadata; mret (OSnapshot i)
  | VRestoreSnapshot name => done_out (restore_snapshot now name)
  | VDeleteSnapshot name => done_out (delete_snapshot now name)
  | VRenameSnapshot old_name new_name => i ← rename_snapshot now old_name new_name; mret (OSnapshot i)
  | VCreateFork name base => i ← create_fork now name base; mret (OFork i)
  | VPromoteFork name => done_out (promote_fork now name)
  | VAbandonFork name => done_out (abandon_fork now name)
  | VUpdateFork name root_hash => done_out (update_fork_hash now name root_hash)
  | VUpdateHead root_hash => done_out (e_update_head now root_hash)
  end.

(** An operation that fails leaves the next one the state it ended in. *)
Fixpoint run_versions (cmds : list (Z * version_cmd)) (s : E) : option (list (res version_out) * E) :=
  match cmds with
  | [] => Some ([], s)
  | (now, cmd) :: cmds =>
    match run_version now cmd s with
    | Some (r, s1) => match run_versions cmds s1 with Some (rs, s2) => Some (r :: rs, s2) | None => None end
    | None => None
    end
  end.

(** ** What the engine holds *)

Definition metadata_fits (m : gmap bytes bytes) : Prop :=
  exists json, metadata_to_vec m = Some json /\ zlen json <= 2^28.

Record snapshot_good (i : SnapshotInfo) : Prop := {
  sg_name : str_ok (si_name i) /\ zlen (si_name i) <= u16_max;
  sg_root : zlen (si_root_hash i) = 32;
  sg_created : is_i64 (si_created_at i);
  sg_metadata : metadata_fits (si_metadata i);
  sg_manual : metadata_fits (manual (si_metadata i));
}.

Record fork_good (i : ForkInfo) : Prop := {
  fg_name : str_ok (fi_name i) /\ zlen (fi_name i) <= u16_max;
  fg_root : zlen (fi_root_hash i) = 32;
  fg_created : is_i64 (fi_created_at i);
}.

Definition snapshot_bytes (i : SnapshotInfo) : bytes := match SnapshotInfo_serialize i 32 with Ok b => b | _ => [] end.
Definition fork_bytes (i : ForkInfo) : bytes := match ForkInfo_serialize i 32 with Ok b => b | _ => [] end.

Definition snapshots : Table SnapshotInfo := {|
  tb_kv_type := KV_TYPE_SNAPSHOT; tb_entry_type := Snapshot; tb_key_string := snapshot_key_string;
  tb_name := si_name; tb_bytes := snapshot_bytes; tb_good := snapshot_good |}.

Definition forks : Table ForkInfo := {|
  tb_kv_type := KV_TYPE_FORK; tb_entry_type := Fork; tb_key_string := fork_key_string;
  tb_name := fi_name; tb_bytes := fork_bytes; tb_good := fork_good |}.

(** The inputs that are hashed, over the names and times in play. *)
Definition config_input : bytes := lit "file:" ++ normalize_path LIFECYCLE_CONFIG_PATH.
Definition deletion_input (key_string : bytes) (now : Z) : bytes := lit "del:" ++ key_string ++ lit ":" ++ decimal now.

Definition version_inputs (names : list bytes) (times : list Z) : list bytes :=
  let keys := (snapshot_key_string <$> names) ++ (fork_key_string <$> names) in
  config_input :: keys ++ (k ← keys; deletion_input k <$> times).

(** The entry of the lifecycle configuration file, if there is one. *)
Context (config : option Stored).

Record versions_ok (names : list bytes) (n : nat) (s : E) (v : VersionStore) : Prop := {
  vo_room : e_room n s;
  vo_head : v_head (e_visible s) = vs_head v;
  vo_head_length : zlen (vs_head v) = 32;
  vo_snapshots : table_ok snapshots names (v_content (e_visible s)) (vs_snapshots v);
  vo_forks : table_ok forks names (v_content (e_visible s)) (vs_forks v);
  vo_config : v_content (e_visible s) !! blake3 config_input = config;
}.

Lemma snapshot_good_wf i : snapshot_good i -> SnapshotInfo_wf 32 i.
Proof. intros [[Hn _] Hr Hc (json & Hj & _) _]. split; [done..|]. by rewrite Hj. Qed.

Lemma snapshot_serialize_good i : snapshot_good i -> SnapshotInfo_serialize i 32 = Ok (snapshot_bytes i)
  /\ zlen (snapshot_bytes i) <= MAX_KEY_OR_VALUE_BYTES.
Proof.
  intros [[_ Hn] Hr _ (json & Hj & Hlen) _]. unfold snapshot_bytes, SnapshotInfo_serialize. rewrite Hj.
  cbn [default from_option id]. rewrite (proj2 (Z.ltb_ge _ _)) by done.
  rewrite (proj2 (Z.ltb_ge _ _)) by (unfold u32_max; lia). split; [done|].
  replace (pad_hash _ 32) with (si_root_hash i) by (by rewrite <- Hr, pad_hash_same).
  change MAX_KEY_OR_VALUE_BYTES with (2^30). unfold u16_max in *. zlen_lia.
Qed.

Lemma snapshot_decode i : snapshot_good i -> SnapshotInfo_deserialize (snapshot_bytes i) 32 0 = Ok i.
Proof.
  intros Hg. rewrite <- (app_nil_r (snapshot_bytes i)).
  by apply SnapshotInfo_read_back; [apply snapshot_good_wf|apply snapshot_serialize_good].
Qed.

Lemma fork_serialize_good i : fork_good i -> ForkInfo_serialize i 32 = Ok (fork_bytes i)
  /\ zlen (fork_bytes i) <= MAX_KEY_OR_VALUE_BYTES.
Proof.
  intros [[_ Hn] Hr _]. unfold fork_bytes, ForkInfo_serialize. rewrite (proj2 (Z.ltb_ge _ _)) by done. split; [done|].
  replace (pad_hash _ 32) with (fi_root_hash i) by (by rewrite <- Hr, pad_hash_same).
  change MAX_KEY_OR_VALUE_BYTES with (2^30). unfold u16_max in *. zlen_lia.
Qed.

Lemma fork_decode i : fork_good i -> ForkInfo_deserialize (fork_bytes i) 32 0 = Ok i.
Proof.
  intros Hg. rewrite <- (app_nil_r (fork_bytes i)). apply ForkInfo_read_back; [|by apply fork_serialize_good].
  by destruct Hg as [[? _] ? ?].
Qed.

(** ** Keys do not meet *)

Section Keys.
Context (names : list bytes) (times : list Z) (Hfree : collision_free (version_inputs names times)).

Lemma snapshot_input name : name ∈ names -> snapshot_key_string name ∈ version_inputs names times.
Proof. intros Hn. right. apply elem_of_app. left. apply elem_of_app. left. by apply list_elem_of_fmap_2. Qed.

Lemma fork_input name : name ∈ names -> fork_key_string name ∈ version_inputs names times.
Proof. intros Hn. right. apply elem_of_app. left. apply elem_of_app. right. by apply list_elem_of_fmap_2. Qed.

Lemma deletion_in name now : name ∈ names -> now ∈ times ->
  deletion_input (snapshot_key_string name) now ∈ version_inputs names times
  /\ deletion_input (fork_key_string name) now ∈ version_inputs names times.
Proof.
  intros Hn Ht. split; right; apply elem_of_app; right; apply list_elem_of_bind; eexists; (split; [by apply list_elem_of_fmap_2|]);
    apply elem_of_app; [left|right]; by apply list_elem_of_fmap_2.
Qed.

Lemma snapshot_keys_inj : keys_inj snapshots names.
Proof. intros a b Ha Hb Hk%Hfree; [by apply app_inv_head in Hk|by apply snapshot_input..]. Qed.

Lemma fork_keys_inj : keys_inj forks names.
Proof. intros a b Ha Hb Hk%Hfree; [by apply app_inv_head in Hk|by apply fork_input..]. Qed.

Lemma apart input : input ∈ version_inputs names times ->
  (forall name, input <> snapshot_key_string name) -> key_apart snapshots names (blake3 input).
Proof. intros Hi Hne name Hn Hk%Hfree; [by apply (Hne name)|done|by apply snapshot_input]. Qed.

Lemma apart_fork input : input ∈ version_inputs names times ->
  (forall name, input <> fork_key_string name) -> key_apart forks names (blake3 input).
Proof. intros Hi Hne name Hn Hk%Hfree; [by apply (Hne name)|done|by apply fork_input]. Qed.

Lemma config_apart input : input ∈ version_inputs names times -> input <> config_input -> blake3 input <> blake3 config_input.
Proof. intros Hi Hne Hk%Hfree; [done|done|by left]. Qed.
End Keys.

(** ** Reading *)

Section Reads.
Context (names : list bytes) (n : nat) (s : E) (v : VersionStore) (V : versions_ok names n s v).

Let Hroom := vo_room _ _ _ _ V.

Lemma versions_algo : e_hash_algo s = Blake3_256.
Proof. exact (e_algo_spec n s Hroom). Qed.

Lemma snapshot_key_ok name : snapshot_key s name = Ok (tb_key snapshots name).
Proof. unfold snapshot_key. by rewrite versions_algo. Qed.

Lemma fork_key_ok name : fork_key s name = Ok (tb_key forks name).
Proof. unfold fork_key. by rewrite versions_algo. Qed.

Lemma writes_enabled : config = None -> ensure_snapshot_writes_enabled s = Ok tt.
Proof.
  intros Hnone. unfold ensure_snapshot_writes_enabled, snapshot_writes_enabled, load_lifecycle_config, read_file_buffered, read_file_streaming.
  rewrite versions_algo. cbn [file_path_hash compute_hash]. unfold file_path_hash. cbn [compute_hash]. rewrite bind_ret.
  pose proof (e_get_spec n s (blake3 config_input) Hroom) as Hg. rewrite (vo_config _ _ _ _ V), Hnone in Hg. destruct Hg as [_ Hg].
  unfold config_input in Hg. rewrite Hg. done.
Qed.

Lemma head_ok : get_head_hash s = Ok (vs_head v).
Proof. unfold get_head_hash. by rewrite (e_head_spec n s Hroom), (vo_head _ _ _ _ V). Qed.

Lemma snapshot_taken name : name ∈ names -> name_taken s (tb_key snapshots name) = Ok (bool_decide (is_Some (vs_snapshots v !! name))).
Proof.
  intros Hn. unfold name_taken. destruct (table_taken _ _ _ _ (vo_snapshots _ _ _ _ V) n s Hroom eq_refl name Hn) as [-> Hd].
  cbn. case_bool_decide as Hb; [|done]. by rewrite (Hd Hb).
Qed.

Lemma fork_taken name : name ∈ names -> name_taken s (tb_key forks name) = Ok (bool_decide (is_Some (vs_forks v !! name))).
Proof.
  intros Hn. unfold name_taken. destruct (table_taken _ _ _ _ (vo_forks _ _ _ _ V) n s Hroom eq_refl name Hn) as [-> Hd].
  cbn. case_bool_decide as Hb; [|done]. by rewrite (Hd Hb).
Qed.

Lemma get_snapshot_hash_ok name : name ∈ names -> get_snapshot_hash s name = spec_snapshot_root v name.
Proof.
  intros Hn. unfold get_snapshot_hash, spec_snapshot_root. rewrite snapshot_key_ok, bind_ret.
  pose proof (table_get _ _ _ _ (vo_snapshots _ _ _ _ V) n s Hroom eq_refl name Hn) as Hg.
  destruct (vs_snapshots v !! name) as [i|] eqn:Ei; [|by rewrite Hg]. destruct Hg as (hd & -> & Hv). rewrite bind_ret, versions_algo, Hv.
  destruct (to_entry _ _ _ _ (vo_snapshots _ _ _ _ V) name i Ei) as (_ & _ & Hgood).
  change (hash_length Blake3_256) with 32. cbn [tb_bytes snapshots]. by rewrite (snapshot_decode i Hgood).
Qed.

Lemma get_fork_hash_ok name : name ∈ names -> get_fork_hash s name = Ok (fi_root_hash <$> vs_forks v !! name).
Proof.
  intros Hn. unfold get_fork_hash. rewrite fork_key_ok, bind_ret.
  pose proof (table_get _ _ _ _ (vo_forks _ _ _ _ V) n s Hroom eq_refl name Hn) as Hg.
  destruct (vs_forks v !! name) as [i|] eqn:Ei; [|by rewrite Hg]. destruct Hg as (hd & -> & Hv). rewrite bind_ret, versions_algo, Hv.
  destruct (to_entry _ _ _ _ (vo_forks _ _ _ _ V) name i Ei) as (_ & _ & Hgood).
  change (hash_length Blake3_256) with 32. cbn [tb_bytes forks]. by rewrite (fork_decode i Hgood).
Qed.

Definition version_in (version : option bytes) : Prop :=
  match version with Some name => name = lit "HEAD" \/ name ∈ names | None => True end.

Lemma resolve_ok version : version_in version -> resolve_root_hash s version = spec_resolve v version.
Proof.
  intros Hin. unfold resolve_root_hash, spec_resolve. destruct version as [name|]; [|apply head_ok].
  case_bool_decide as Hh; [apply head_ok|]. destruct Hin as [?|Hn]; [done|]. rewrite (get_fork_hash_ok name Hn), bind_ret.
  destruct (vs_forks v !! name); [done|]. by apply get_snapshot_hash_ok.
Qed.

Lemma decode_snapshots_all entries : decode_snapshots s entries = decode_all s (fun x => SnapshotInfo_deserialize x 32 0) entries.
Proof.
  induction entries as [|[k x] entries IH]; cbn [decode_snapshots decode_all]; [done|]. rewrite versions_algo.
  change (hash_length Blake3_256) with 32. by rewrite IH.
Qed.

Lemma decode_forks_all entries : decode_forks s entries = decode_all s (fun x => ForkInfo_deserialize x 32 0) entries.
Proof.
  induction entries as [|[k x] entries IH]; cbn [decode_forks decode_all]; [done|]. rewrite versions_algo.
  change (hash_length Blake3_256) with 32. by rewrite IH.
Qed.

(** A listing: every entry once, the oldest first. *)
Lemma list_snapshots_ok : exists l, list_snapshots s = Ok l /\ l ≡ₚ (map_to_list (vs_snapshots v)).*2
  /\ StronglySorted (fun a b => si_created_at a <= si_created_at b) l.
Proof.
  destruct (decode_table _ _ _ _ (vo_snapshots _ _ _ _ V) n s Hroom eq_refl (fun x => SnapshotInfo_deserialize x 32 0) snapshot_decode) as (es & l & Ee & El & Hp).
  unfold list_snapshots. change KV_TYPE_SNAPSHOT with (tb_kv_type snapshots). rewrite Ee, bind_ret, decode_snapshots_all, El, bind_ret.
  eexists. split; [done|]. split; [by rewrite sort_by_perm|]. apply (sort_by_sorted si_created_at).
Qed.

Lemma list_forks_ok : exists l, list_forks s = Ok l /\ l ≡ₚ (map_to_list (vs_forks v)).*2
  /\ StronglySorted (fun a b => fi_created_at a <= fi_created_at b) l.
Proof.
  destruct (decode_table _ _ _ _ (vo_forks _ _ _ _ V) n s Hroom eq_refl (fun x => ForkInfo_deserialize x 32 0) fork_decode) as (es & l & Ee & El & Hp).
  unfold list_forks. change KV_TYPE_FORK with (tb_kv_type forks). rewrite Ee, bind_ret, decode_forks_all, El, bind_ret.
  eexists. split; [done|]. split; [by rewrite sort_by_perm|]. apply (sort_by_sorted fi_created_at).
Qed.
End Reads.

(** ** One snapshot per root *)

Definition roots_distinct (v : VersionStore) : Prop :=
  forall a b i j, vs_snapshots v !! a = Some i -> vs_snapshots v !! b = Some j -> si_root_hash i = si_root_hash j -> a = b.

Lemma find_root_unique (l l' : list SnapshotInfo) root : l ≡ₚ l' ->
  (forall i j, i ∈ l' -> j ∈ l' -> si_root_hash i = root -> si_root_hash j = root -> i = j) -> find_root l root = find_root l' root.
Proof.
  intros Hp Hu. unfold find_root. set (P := fun i => si_root_hash i = root).
  assert (Hf : filter P l ≡ₚ filter P l') by (by rewrite Hp).
  destruct (filter P l') as [|i [|j rest]] eqn:El'.
  - symmetry in Hf. apply Permutation_nil in Hf. by rewrite Hf.
  - symmetry in Hf. apply Permutation_singleton_l in Hf || apply Permutation_length_1_inv in Hf. by rewrite Hf.
  - destruct (filter P l) as [|k rest'] eqn:El; [by apply Permutation_nil in Hf|]. cbn. f_equal. apply Hu.
    + assert (k ∈ filter P l') as Hk by (rewrite El', <- Hf; left). by apply list_elem_of_filter in Hk as [_ ?].
    + assert (i ∈ filter P l') as Hi by (rewrite El'; left). by apply list_elem_of_filter in Hi as [_ ?].
    + assert (k ∈ filter P l) as Hk by (rewrite El; left). by apply list_elem_of_filter in Hk as [? _].
    + assert (i ∈ filter P l') as Hi by (rewrite El'; left). by apply list_elem_of_filter in Hi as [? _].
Qed.

Lemma find_root_map names n s v root l : versions_ok names n s v -> roots_distinct v -> l ≡ₚ (map_to_list (vs_snapshots v)).*2 ->
  find_root l root = find_root (map_to_list (vs_snapshots v)).*2 root.
Proof.
  intros V Hd Hp. apply find_root_unique; [done|].
  intros i j ([a i'] & -> & Ha%elem_of_map_to_list)%list_elem_of_fmap ([b j'] & -> & Hb%elem_of_map_to_list)%list_elem_of_fmap Hi Hj.
  cbn in *. assert (a = b) as -> by (eapply Hd; [exact Ha|exact Hb|congruence]). congruence.
Qed.

(** ** Writing *)

Section Writes.
Context (names : list bytes) (times : list Z) (Hfree : collision_free (version_inputs names times)).
Context (Hnames : Forall (fun name => str_ok name /\ zlen name <= u16_max) names).

Abbreviation holds := (versions_ok names).

Lemma key_length input : zlen (blake3 input) = 32.
Proof. unfold zlen. by rewrite blake3_length. Qed.

Lemma put_snapshot n s v now name i : holds (S n) s v -> is_i64 now -> name ∈ names -> si_name i = name -> snapshot_good i ->
  runs (e_store_typed now Snapshot (tb_key snapshots name) (snapshot_bytes i) KV_TYPE_SNAPSHOT) s (fun _ s' =>
    holds n s' (with_snapshots (<[name := i]> (vs_snapshots v)) v)).
Proof.
  intros [Hr Hh Hl Hs Hf Hc] Hnow Hn Hi Hg. eapply runs_mono.
  - apply (e_typed_spec n s now); [done|done|apply key_length|by apply snapshot_serialize_good|done].
  - intros a s' [Hr' Hv]. split; rewrite ?Hv; cbn [v_write v_content v_head apply_writes foldl fst snd]; try done.
    + apply (table_insert _ _ _ _ Hs); [by eapply snapshot_keys_inj|done..].
    + apply (table_other _ _ _ _ Hf); [|done]. eapply apart_fork; [done|by apply snapshot_input|by intros].
    + rewrite lookup_insert_ne; [done|]. eapply config_apart; [done|by apply snapshot_input|by intros].
Qed.

Lemma put_fork n s v now name i : holds (S n) s v -> is_i64 now -> name ∈ names -> fi_name i = name -> fork_good i ->
  runs (e_store_typed now Fork (tb_key forks name) (fork_bytes i) KV_TYPE_FORK) s (fun _ s' =>
    holds n s' (with_forks (<[name := i]> (vs_forks v)) v)).
Proof.
  intros [Hr Hh Hl Hs Hf Hc] Hnow Hn Hi Hg. eapply runs_mono.
  - apply (e_typed_spec n s now); [done|done|apply key_length|by apply fork_serialize_good|done].
  - intros a s' [Hr' Hv]. split; rewrite ?Hv; cbn [v_write v_content v_head apply_writes foldl fst snd]; try done.
    + apply (table_other _ _ _ _ Hs); [|done]. eapply apart; [done|by apply fork_input|by intros].
    + apply (table_insert _ _ _ _ Hf); [by eapply fork_keys_inj|done..].
    + rewrite lookup_insert_ne; [done|]. eapply config_apart; [done|by apply fork_input|by intros].
Qed.

Lemma mark_row_ok n s key st : e_room n s -> v_content (e_visible s) !! key = Some st ->
  runs (e_mark_entry_deleted key) s (fun _ s' => e_room n s' /\ e_visible s' = v_delete key (e_visible s)).
Proof. intros Hr Hk. destruct (e_mark_spec n s key Hr) as (r & s' & Em & Hr' & Hv & ->). rewrite Hk in Em. by exists tt, s'. Qed.

Lemma mark_snapshot n s v name : holds n s v -> name ∈ names -> is_Some (vs_snapshots v !! name) ->
  runs (e_mark_entry_deleted (tb_key snapshots name)) s (fun _ s' => holds n s' (with_snapshots (delete name (vs_snapshots v)) v)).
Proof.
  intros [Hr Hh Hl Hs Hf Hc] Hn [i Hi]. eapply runs_mono; [eapply mark_row_ok; [done|by rewrite (to_lookup _ _ _ _ Hs name Hn), Hi]|].
  intros [] s' [Hr' Hv]. split; rewrite ?Hv; cbn [v_delete v_content v_head]; try done.
  - apply (table_delete _ _ _ _ Hs); [by eapply snapshot_keys_inj|done].
  - apply (table_remove _ _ _ _ Hf). eapply apart_fork; [done|by apply snapshot_input|by intros].
  - rewrite lookup_delete_ne; [done|]. eapply config_apart; [done|by apply snapshot_input|by intros].
Qed.

Lemma mark_fork n s v name : holds n s v -> name ∈ names -> is_Some (vs_forks v !! name) ->
  runs (e_mark_entry_deleted (tb_key forks name)) s (fun _ s' => holds n s' (with_forks (delete name (vs_forks v)) v)).
Proof.
  intros [Hr Hh Hl Hs Hf Hc] Hn [i Hi]. eapply runs_mono; [eapply mark_row_ok; [done|by rewrite (to_lookup _ _ _ _ Hf name Hn), Hi]|].
  intros [] s' [Hr' Hv]. split; rewrite ?Hv; cbn [v_delete v_content v_head]; try done.
  - apply (table_remove _ _ _ _ Hs). eapply apart; [done|by apply fork_input|by intros].
  - apply (table_delete _ _ _ _ Hf); [by eapply fork_keys_inj|done].
  - rewrite lookup_delete_ne; [done|]. eapply config_apart; [done|by apply fork_input|by intros].
Qed.

Lemma persist_ok n s v now key_string : holds (S n) s v -> is_i64 now -> zlen key_string <= 2^17 ->
  deletion_input key_string now ∈ version_inputs names times ->
  runs (persist_deletion now key_string) s (fun _ s' => holds n s' v).
Proof.
  intros V Hnow Hlen Hin. pose proof (versions_algo _ _ _ _ V) as Ha. destruct V as [Hr Hh Hl Hs Hf Hc]. unfold persist_deletion. run.
  apply (runs_lift _ (blake3 (deletion_input key_string now))); [unfold deletion_record_hash; by rewrite Ha|].
  eapply runs_bind, runs_mono.
  - apply (e_store_spec n s now); [done|done|apply key_length|].
    change MAX_KEY_OR_VALUE_BYTES with (2^30). unfold DeletionRecord_serialize. cbn [DeletionRecord_new dr_path dr_reason dr_deleted_at unwrap_or_empty]. zlen_lia.
  - intros a s' [Hr' Hv]. run. split; rewrite ?Hv; cbn [v_write v_content v_head apply_writes foldl fst snd]; try done.
    + apply (table_other _ _ _ _ Hs); [|done]. by eapply apart.
    + apply (table_other _ _ _ _ Hf); [|done]. by eapply apart_fork.
    + rewrite lookup_insert_ne; [done|]. by eapply config_apart.
Qed.

Lemma set_head_ok n s v now h : holds n s v -> is_i64 now -> zlen h = 32 ->
  runs (e_update_head now h) s (fun _ s' => holds n s' (with_head h v)).
Proof.
  intros [Hr Hh Hl Hs Hf Hc] Hnow Hz. eapply runs_mono; [by apply e_update_head_spec|]. intros [] s' [Hr' Hv].
  split; rewrite ?Hv; done.
Qed.

(** ** The operations *)

(** [m] ends with the result [r] in a state that stands for [v]. *)
Definition does {A} (m : M E A) (s : E) (n : nat) (r : res A) (v : VersionStore) : Prop :=
  exists s', m s = Some (r, s') /\ holds n s' v.

Lemma does_ret {A} (a : A) s n v : holds n s v -> does (mret a) s n (Ok a) v.
Proof. intros V. by exists s. Qed.

Lemma does_fail {A} s n (e : EngineError) v : holds n s v -> does (A := A) (lift (Err e)) s n (Err e) v.
Proof. intros V. by exists s. Qed.

Lemma does_gets {A} (k : E -> M E A) s n r v : does (k s) s n r v -> does (gets id ≫= k) s n r v.
Proof. done. Qed.

Lemma does_read {A B} (x : res A) (a : A) (k : A -> M E B) s n r v : x = Ok a -> does (k a) s n r v -> does (lift x ≫= k) s n r v.
Proof. by intros ->. Qed.

Lemma does_read_fail {A B} (x : res A) e (k : A -> M E B) s n v : x = Err e -> holds n s v -> does (lift x ≫= k) s n (Err e) v.
Proof. intros -> V. by exists s. Qed.

Lemma does_runs {A B} (m : M E A) (k : A -> M E B) s n1 v1 n r v : runs m s (fun _ s' => holds n1 s' v1) ->
  (forall a s', holds n1 s' v1 -> does (k a) s' n r v) -> does (m ≫= k) s n r v.
Proof.
  intros (a & s1 & Em & V1) Hk. destruct (Hk a s1 V1) as (s' & Ek & V'). exists s'. split; [|done].
  unfold mbind, M_bind. by rewrite Em.
Qed.

Lemma does_bind {A B} (m : M E A) (k : A -> M E B) s n1 v1 n (x : res A) r v : does m s n1 x v1 ->
  match x with
  | Ok a => forall s', holds n1 s' v1 -> does (k a) s' n r v
  | Err e => r = Err e /\ n = n1 /\ v = v1
  | Panic => r = Panic /\ n = n1 /\ v = v1
  end -> does (m ≫= k) s n r v.
Proof.
  intros (s1 & Em & V1) Hk. unfold does, mbind, M_bind. rewrite Em. destruct x as [a|e|].
  - exact (Hk s1 V1).
  - destruct Hk as (-> & -> & ->). eauto.
  - destruct Hk as (-> & -> & ->). eauto.
Qed.

Lemma holds_le m n s v : (m <= n)%nat -> holds n s v -> holds m s v.
Proof. intros Hle []. split; try done. by eapply e_room_le. Qed.

Lemma holds_S n s v : holds (S n) s v -> holds n s v.
Proof. apply holds_le. lia. Qed.

Lemma does_done m s n x v : does m s n x v ->
  does (done_out m) s n (match x with Ok _ => Ok ODone | Err e => Err e | Panic => Panic end) v.
Proof. intros Hm. eapply does_bind; [exact Hm|]. destruct x; [intros s' V'; by apply does_ret|done..]. Qed.

Lemma snapshot_key_short name : name ∈ names -> zlen (snapshot_key_string name) <= 2^17.
Proof. intros Hn. rewrite Forall_forall in Hnames. destruct (Hnames name Hn) as [_ Hl]. unfold snapshot_key_string, u16_max in *. rewrite zlen_app. change (zlen (lit "snap:")) with 5. lia. Qed.

Lemma fork_key_short name : name ∈ names -> zlen (fork_key_string name) <= 2^17.
Proof. intros Hn. rewrite Forall_forall in Hnames. destruct (Hnames name Hn) as [_ Hl]. unfold fork_key_string, u16_max in *. rewrite zlen_app. change (zlen (lit "::aeordb:fork:")) with 14. lia. Qed.

Section Ops.
Context (n : nat) (s : E) (v : VersionStore) (now : Z) (V : holds (S n) s v) (Hnow : is_i64 now) (Hin : now ∈ times).

Let V' : holds n s v := holds_S n s v V.

Lemma snapshot_of_table name i : vs_snapshots v !! name = Some i -> name ∈ names /\ si_name i = name /\ snapshot_good i.
Proof. apply (to_entry _ _ _ _ (vo_snapshots _ _ _ _ V)). Qed.

Lemma fork_of_table name i : vs_forks v !! name = Some i -> name ∈ names /\ fi_name i = name /\ fork_good i.
Proof. apply (to_entry _ _ _ _ (vo_forks _ _ _ _ V)). Qed.

Lemma does_unit (m : M E unit) t k w : runs m t (fun _ s' => holds k s' w) -> does m t k (Ok tt) w.
Proof. intros ([] & s' & Em & W). by exists s'. Qed.

Lemma does_ended (m : M E unit) t k w : does m t k (Ok tt) w -> does (done_out m) t k (Ok ODone) w.
Proof. apply (does_done m t k (Ok tt)). Qed.

Lemma does_refused (m : M E unit) t k e w : does m t k (Err e) w -> does (done_out m) t k (Err e) w.
Proof. apply (does_done m t k (Err e)). Qed.

Definition carries_out (cmd : version_cmd) : Prop :=
  does (run_version now cmd) s n (spec_version now cmd v).1 (spec_version now cmd v).2.

Lemma head_carries root_hash : zlen root_hash = 32 -> carries_out (VUpdateHead root_hash).
Proof. intros Hz. apply does_ended, does_unit. by apply set_head_ok. Qed.

Lemma restore_carries name : name ∈ names -> carries_out (VRestoreSnapshot name).
Proof.
  intros Hn. pose proof (get_snapshot_hash_ok _ _ _ _ V name Hn) as Hg. unfold spec_snapshot_root in Hg.
  unfold carries_out. cbn [spec_version run_version]. destruct (vs_snapshots v !! name) as [i|] eqn:Ei; cbn [fst snd].
  - apply does_ended. unfold restore_snapshot. apply does_gets. eapply does_read; [exact Hg|]. apply does_unit.
    apply set_head_ok; [done|done|]. by destruct (snapshot_of_table name i Ei) as (_ & _ & []).
  - apply does_refused. unfold restore_snapshot. apply does_gets. by eapply does_read_fail.
Qed.

Lemma delete_carries name : name ∈ names -> carries_out (VDeleteSnapshot name).
Proof.
  intros Hn. unfold carries_out. cbn [spec_version run_version]. pose proof (snapshot_taken _ _ _ _ V name Hn) as Ht.
  destruct (vs_snapshots v !! name) as [i|] eqn:Ei; cbn [fst snd]; [apply does_ended|apply does_refused];
    unfold delete_snapshot; apply does_gets; (eapply does_read; [by eapply snapshot_key_ok|]); (eapply does_read; [exact Ht|]).
  - rewrite bool_decide_eq_true_2 by eauto. cbn [negb]. eapply does_runs; [by apply (mark_snapshot (S n))|].
    intros _ s1 V1. apply does_unit. apply persist_ok; [done|done|by apply snapshot_key_short|by apply deletion_in].
  - rewrite bool_decide_eq_false_2 by (intros []; done). by apply does_fail.
Qed.

Lemma abandon_does t k w name : holds (S k) t w -> name ∈ names ->
  does (abandon_fork now name) t k (if is_Some_dec (vs_forks w !! name) then Ok tt else Err fork_missing)
    (with_forks (delete name (vs_forks w)) w).
Proof.
  intros W Hn. pose proof (fork_taken _ _ _ _ W name Hn) as Ht.
  unfold abandon_fork; apply does_gets; (eapply does_read; [by eapply fork_key_ok|]); (eapply does_read; [exact Ht|]).
  destruct (is_Some_dec (vs_forks w !! name)) as [Hs|Hs].
  - rewrite bool_decide_eq_true_2 by done. cbn [negb]. eapply does_runs; [by apply (mark_fork (S k))|].
    intros _ s1 V1. apply does_unit. apply persist_ok; [done|done|by apply fork_key_short|by apply deletion_in].
  - rewrite bool_decide_eq_false_2 by done. cbn [negb]. apply does_fail.
    replace (with_forks _ w) with w; [by apply holds_S|]. rewrite delete_id; [by destruct w|].
    destruct (vs_forks w !! name) eqn:Ew; [|done]. by destruct Hs.
Qed.

Lemma abandon_carries name : name ∈ names -> carries_out (VAbandonFork name).
Proof.
  intros Hn. unfold carries_out. cbn [spec_version run_version]. pose proof (abandon_does s n v name V Hn) as Ha.
  destruct (vs_forks v !! name) as [i|] eqn:Ei; cbn [fst snd is_Some_dec] in *; [by apply does_ended|apply does_refused].
  rewrite delete_id in Ha by done. by destruct v.
Qed.

Lemma promote_carries name : name ∈ names -> carries_out (VPromoteFork name).
Proof.
  intros Hn. unfold carries_out. cbn [spec_version run_version]. pose proof (get_fork_hash_ok _ _ _ _ V name Hn) as Hg.
  destruct (vs_forks v !! name) as [i|] eqn:Ei; cbn [fst snd fmap option_fmap option_map] in *; [apply does_ended|apply does_refused];
    unfold promote_fork; apply does_gets; (eapply does_read; [exact Hg|]); [|by eapply does_read_fail].
  eapply does_read; [done|]. eapply does_runs; [apply (set_head_ok (S n)); [done|done|by destruct (fork_of_table name i Ei) as (_ & _ & [])]|].
  intros _ s1 V1. pose proof (abandon_does s1 n _ name V1 Hn) as Ha. cbn [vs_forks with_head] in Ha. by rewrite Ei in Ha.
Qed.

Lemma name_good name : name ∈ names -> str_ok name /\ zlen name <= u16_max.
Proof. rewrite Forall_forall in Hnames. apply Hnames. Qed.

Lemma typed_metadata_fits metadata : metadata_fits metadata -> metadata_fits (manual metadata) ->
  metadata_fits (typed_metadata metadata) /\ metadata_fits (manual (typed_metadata metadata)).
Proof.
  intros Hm Hman. unfold typed_metadata. case_bool_decide; [done|]. split; [done|]. unfold manual in *. by rewrite insert_insert_eq.
Qed.

Lemma create_carries name metadata : config = None -> roots_distinct v -> name ∈ names -> metadata_fits metadata -> metadata_fits (manual metadata) ->
  carries_out (VCreateSnapshot name metadata).
Proof.
  intros Hnone Hd Hn Hm Hman. unfold carries_out. cbn [spec_version run_version]. pose proof (snapshot_taken _ _ _ _ V name Hn) as Ht.
  destruct (list_snapshots_ok _ _ _ _ V) as (l & El & Hp & _).
  pose proof (find_root_map _ _ _ _ (vs_head v) l V Hd Hp) as Hf.
  destruct (vs_snapshots v !! name) as [i|] eqn:Ei; cbn [fst snd].
  - eapply (does_bind _ _ _ n v _ (Err snapshot_exists)); [|done]. unfold create_snapshot. apply does_gets.
    eapply does_read; [by eapply writes_enabled|]. eapply does_read; [by eapply snapshot_key_ok|]. eapply does_read; [exact Ht|].
    rewrite bool_decide_eq_true_2 by eauto. by apply does_fail.
  - set (r := find_root (map_to_list (vs_snapshots v)).*2 (vs_head v)) in *.
    set (i := {| si_name := name; si_root_hash := vs_head v; si_created_at := now; si_metadata := typed_metadata metadata |}).
    assert (Hc : does (create_snapshot now name metadata) s n
      (Ok (match r with Some existing => existing | None => i end))
      (match r with Some _ => v | None => with_snapshots (<[name := i]> (vs_snapshots v)) v end)).
    { unfold create_snapshot. apply does_gets. eapply does_read; [by eapply writes_enabled|].
      eapply does_read; [by eapply snapshot_key_ok|]. eapply does_read; [exact Ht|]. rewrite bool_decide_eq_false_2 by (intros []; done).
      eapply does_read; [by eapply head_ok|]. eapply does_read; [exact El|]. rewrite Hf. destruct r as [existing|]; [by apply does_ret|].
      rewrite (versions_algo _ _ _ _ V). change (hash_length Blake3_256) with 32. fold (manual metadata). fold (typed_metadata metadata). fold i.
      assert (Hg : snapshot_good i).
      { destruct (typed_metadata_fits metadata Hm Hman). split; cbn; [by apply name_good|apply (vo_head_length _ _ _ _ V)|done..]. }
      eapply does_read; [by apply snapshot_serialize_good|]. eapply does_runs; [by apply (put_snapshot n)|].
      intros _ s1 V1. by apply does_ret. }
    destruct r as [existing|]; (eapply does_bind; [exact Hc|intros s1 V1; by apply does_ret]).
Qed.

Lemma get_snapshot_entry name i : vs_snapshots v !! name = Some i -> exists hd,
  e_get_entry s (tb_key snapshots name) = Ok (Some (hd, tb_key snapshots name, snapshot_bytes i)) /\ b2z (eh_entry_version hd) = 0.
Proof.
  intros Ei. destruct (snapshot_of_table name i Ei) as (Hn & _).
  pose proof (table_get _ _ _ _ (vo_snapshots _ _ _ _ V) (S n) s (vo_room _ _ _ _ V) eq_refl name Hn) as Hg. by rewrite Ei in Hg.
Qed.

Lemma rename_carries old_name new_name : config = None -> old_name ∈ names -> new_name ∈ names -> carries_out (VRenameSnapshot old_name new_name).
Proof.
  intros Hnone Ho Hn. unfold carries_out. cbn [spec_version run_version]. pose proof (snapshot_taken _ _ _ _ V new_name Hn) as Ht.
  pose proof (writes_enabled _ _ _ _ V Hnone) as He. pose proof (snapshot_key_ok _ _ _ _ V) as Hk. pose proof (versions_algo _ _ _ _ V) as Ha.
  destruct (vs_snapshots v !! old_name) as [i|] eqn:Ei.
  2: { eapply (does_bind _ _ _ n v _ (Err snapshot_missing)); [|done]. unfold rename_snapshot. apply does_gets.
       eapply does_read; [exact He|]. eapply does_read; [apply Hk|].
       pose proof (table_get _ _ _ _ (vo_snapshots _ _ _ _ V) (S n) s (vo_room _ _ _ _ V) eq_refl old_name Ho) as Hg.
       rewrite Ei in Hg. eapply does_read; [exact Hg|]. by apply does_fail. }
  destruct (snapshot_of_table old_name i Ei) as (_ & _ & Hgood). destruct (get_snapshot_entry old_name i Ei) as (hd & Eg & Hv).
  assert (Hr : does (rename_snapshot now old_name new_name) s n
    (match vs_snapshots v !! new_name with Some _ => Err snapshot_exists | None => Ok (renamed new_name i) end)
    (match vs_snapshots v !! new_name with Some _ => v
     | None => with_snapshots (delete old_name (<[new_name := renamed new_name i]> (vs_snapshots v))) v end)).
  { unfold rename_snapshot. apply does_gets. eapply does_read; [exact He|]. eapply does_read; [apply Hk|]. eapply does_read; [exact Eg|].
    cbv beta iota zeta. rewrite Ha, Hv. change (hash_length Blake3_256) with 32. eapply does_read; [by apply snapshot_decode|].
    eapply does_read; [apply Hk|]. eapply does_read; [exact Ht|]. destruct (vs_snapshots v !! new_name) as [j|] eqn:Ej.
    { rewrite bool_decide_eq_true_2 by eauto. by apply does_fail. }
    rewrite bool_decide_eq_false_2 by (intros []; done). fold (manual (si_metadata i)). fold (renamed new_name i).
    assert (Hg : snapshot_good (renamed new_name i)).
    { destruct Hgood. split; cbn; [by apply name_good|done..|]. unfold manual in *. by rewrite insert_insert_eq. }
    eapply does_read; [by apply snapshot_serialize_good|]. eapply does_runs; [by apply (put_snapshot n)|].
    intros _ s1 V1. eapply does_runs; [apply (mark_snapshot n s1 _ old_name V1 Ho)|intros _ s2 V2; by apply does_ret].
    cbn. destruct (decide (new_name = old_name)) as [->|Hne]; [by rewrite lookup_insert_eq|]. rewrite lookup_insert_ne by done. by eexists. }
  destruct (vs_snapshots v !! new_name); (eapply does_bind; [exact Hr|]); [done|intros s1 V1; by apply does_ret].
Qed.

Lemma spec_base_root base root_hash : spec_base v base = Ok root_hash -> zlen root_hash = 32.
Proof.
  assert (Hsr : forall name, spec_snapshot_root v name = Ok root_hash -> zlen root_hash = 32).
  { intros name. unfold spec_snapshot_root. destruct (vs_snapshots v !! name) as [i|] eqn:Ei; [|done]. intros [= <-].
    by destruct (snapshot_of_table name i Ei) as (_ & _ & []). }
  unfold spec_base. pose proof (vo_head_length _ _ _ _ V). destruct base as [name|]; [|by intros [= <-]]. case_bool_decide; [by intros [= <-]|apply Hsr].
Qed.

Lemma create_fork_carries name base : name ∈ names -> version_in names base -> carries_out (VCreateFork name base).
Proof.
  intros Hn Hb. unfold carries_out. cbn [spec_version run_version]. pose proof (fork_taken _ _ _ _ V name Hn) as Ht.
  pose proof (versions_algo _ _ _ _ V) as Ha. pose proof (fork_key_ok _ _ _ _ V name) as Hk.
  assert (Hbase : match base with
    | None => get_head_hash s
    | Some snapshot_name => if bool_decide (snapshot_name = lit "HEAD") then get_head_hash s else get_snapshot_hash s snapshot_name
    end = spec_base v base).
  { clear Ht. unfold spec_base. destruct base as [b|]; [|by eapply head_ok]. case_bool_decide; [by eapply head_ok|].
    destruct Hb as [?|Hb]; [done|]. by eapply get_snapshot_hash_ok. }
  destruct (vs_forks v !! name) as [i|] eqn:Ei; cbn [fst snd].
  { eapply (does_bind _ _ _ n v _ (Err fork_exists)); [|done]. unfold create_fork. apply does_gets. eapply does_read; [exact Hk|].
    eapply does_read; [exact Ht|]. rewrite bool_decide_eq_true_2 by eauto. by apply does_fail. }
  rewrite bool_decide_eq_false_2 in Ht by (intros []; done).
  destruct (spec_base v base) as [root_hash|e|] eqn:Eb; cbn [fst snd].
  - eapply does_bind with (x := Ok _); [|intros s1 V1; by apply does_ret].
    unfold create_fork. apply does_gets. eapply does_read; [exact Hk|]. eapply does_read; [exact Ht|]. cbv iota.
    eapply does_read; [exact Hbase|]. rewrite Ha. change (hash_length Blake3_256) with 32. cbv zeta.
    set (i := {| fi_name := name; fi_root_hash := root_hash; fi_created_at := now |}).
    assert (Hg : fork_good i) by (split; cbn; [by apply name_good|by eapply spec_base_root|done]).
    eapply does_read; [by apply fork_serialize_good|]. eapply does_runs; [by apply (put_fork n)|intros _ s1 V1; by apply does_ret].
  - eapply (does_bind _ _ _ n v _ (Err e)); [|done]. unfold create_fork. apply does_gets. eapply does_read; [exact Hk|].
    eapply does_read; [exact Ht|]. cbv iota. by eapply does_read_fail.
  - unfold spec_base, spec_snapshot_root in Eb. destruct base as [b|]; [|done]. case_bool_decide; [done|]. by destruct (vs_snapshots v !! b).
Qed.

Lemma update_fork_carries name root_hash : name ∈ names -> zlen root_hash = 32 -> carries_out (VUpdateFork name root_hash).
Proof.
  intros Hn Hz. unfold carries_out. cbn [spec_version run_version]. pose proof (fork_taken _ _ _ _ V name Hn) as Ht.
  pose proof (table_get _ _ _ _ (vo_forks _ _ _ _ V) (S n) s (vo_room _ _ _ _ V) eq_refl name Hn) as Hget.
  destruct (vs_forks v !! name) as [i|] eqn:Ei; cbn [fst snd]; [apply does_ended|apply does_refused];
    unfold update_fork_hash; apply does_gets; (eapply does_read; [by eapply fork_key_ok|]); (eapply does_read; [exact Ht|]).
  - rewrite bool_decide_eq_true_2 by eauto. cbn [negb]. destruct Hget as (hd & Eg & Hv). eapply does_read; [exact Eg|].
    eapply does_read; [done|]. cbv beta iota zeta. rewrite (versions_algo _ _ _ _ V), Hv. change (hash_length Blake3_256) with 32.
    destruct (fork_of_table name i Ei) as (_ & Hname & Hg). eapply does_read; [by apply fork_decode|].
    set (j := {| fi_name := name; fi_root_hash := root_hash; fi_created_at := fi_created_at i |}).
    assert (Hj : fork_good j) by (split; cbn; [by apply name_good|done|apply Hg]).
    eapply does_read; [by apply fork_serialize_good|]. eapply does_runs; [by apply (put_fork n)|intros _ s1 V1; by apply does_ret].
  - rewrite bool_decide_eq_false_2 by (intros []; done). by apply does_fail.
Qed.
End Ops.

(** ** Sequences of operations *)

Definition cmd_ok (cmd : version_cmd) : Prop :=
  match cmd with
  | VCreateSnapshot name metadata => name ∈ names /\ metadata_fits metadata /\ metadata_fits (manual metadata)
  | VRestoreSnapshot name | VDeleteSnapshot name | VPromoteFork name | VAbandonFork name => name ∈ names
  | VRenameSnapshot old_name new_name => old_name ∈ names /\ new_name ∈ names
  | VCreateFork name base => name ∈ names /\ version_in names base
  | VUpdateFork name root_hash => name ∈ names /\ zlen root_hash = 32
  | VUpdateHead root_hash => zlen root_hash = 32
  end.

Lemma version_step n s v now cmd : config = None -> holds (S n) s v -> roots_distinct v -> is_i64 now -> now ∈ times -> cmd_ok cmd ->
  carries_out n s v now cmd.
Proof.
  intros Hnone V Hd Hnow Hin Hc. destruct cmd; cbn in Hc; destruct_and?.
  - by apply create_carries.
  - by apply restore_carries.
  - by apply delete_carries.
  - by apply rename_carries.
  - by apply create_fork_carries.
  - by apply promote_carries.
  - by apply abandon_carries.
  - by apply update_fork_carries.
  - by apply head_carries.
Qed.

Lemma insert_distinct v name i : roots_distinct v ->
  (forall a j, vs_snapshots v !! a = Some j -> si_root_hash j = si_root_hash i -> a = name) ->
  roots_distinct (with_snapshots (<[name := i]> (vs_snapshots v)) v).
Proof.
  intros Hd Hi a b x y. cbn. rewrite !lookup_insert_Some. intros [[<- <-]|[Ha Hx]] [[<- <-]|[Hb Hy]] Hr; [done| | |by eapply Hd].
  - symmetry. eapply Hi; [exact Hy|done].
  - eapply Hi; [exact Hx|done].
Qed.

Lemma delete_distinct v name : roots_distinct v -> roots_distinct (with_snapshots (delete name (vs_snapshots v)) v).
Proof. intros Hd a b x y. cbn. rewrite !lookup_delete_Some. intros [_ Hx] [_ Hy]. by apply Hd. Qed.

(** A snapshot is created only for a root that has none. *)
Lemma spec_distinct now cmd v : roots_distinct v -> roots_distinct (spec_version now cmd v).2.
Proof.
  intros Hd. destruct cmd as [name metadata|name|name|old_name new_name|name base|name|name|name root_hash|root_hash]; cbn.
  - destruct (vs_snapshots v !! name); [done|]. destruct (find_root _ _) eqn:Ef; [done|]. cbn. apply insert_distinct; [done|].
    intros a j Hj Hr. cbn in Hr. unfold find_root in Ef. set (P := fun i => si_root_hash i = vs_head v) in Ef.
    destruct (filter P (map_to_list (vs_snapshots v)).*2) eqn:El; [|done].
    assert (j ∈ filter P (map_to_list (vs_snapshots v)).*2) as Hin; [|rewrite El in Hin; by apply elem_of_nil in Hin].
    apply list_elem_of_filter. split; [done|]. apply list_elem_of_fmap. exists (a, j). by rewrite elem_of_map_to_list.
  - by destruct (vs_snapshots v !! name).
  - destruct (vs_snapshots v !! name); [by apply delete_distinct|done].
  - destruct (vs_snapshots v !! old_name) as [i|] eqn:Ei; [|done]. destruct (vs_snapshots v !! new_name) eqn:En; [done|]. cbn.
    rewrite delete_insert_ne by congruence. intros a b x y. cbn. rewrite !lookup_insert_Some, !lookup_delete_Some.
    intros [[<- <-]|(Ha & Hx & Hx')] [[<- <-]|(Hb & Hy & Hy')] Hr; [done| | |by eapply Hd].
    + exfalso. apply Hy. by eapply (Hd old_name b i y).
    + exfalso. apply Hx. symmetry. by eapply (Hd a old_name x i).
  - destruct (vs_forks v !! name); [done|]. by destruct (spec_base v base).
  - by destruct (vs_forks v !! name).
  - by destruct (vs_forks v !! name).
  - by destruct (vs_forks v !! name).
  - done.
Qed.

Lemma version_steps cmds n s v : config = None -> holds (length cmds + n) s v -> roots_distinct v ->
  Forall (fun c => is_i64 c.1 /\ c.1 ∈ times /\ cmd_ok c.2) cmds ->
  exists s', run_versions cmds s = Some ((spec_versions cmds v).1, s') /\ holds n s' (spec_versions cmds v).2
    /\ roots_distinct (spec_versions cmds v).2.
Proof.
  intros Hnone V Hd Hc. revert s v V Hd. induction Hc as [|[now cmd] cmds (Hnow & Hin & Hok) _ IH]; intros s v V Hd; [by exists s|].
  destruct (version_step (length cmds + n) s v now cmd Hnone V Hd Hnow Hin Hok) as (s1 & E1 & V1).
  cbn [run_versions spec_versions]. rewrite E1. pose proof (spec_distinct now cmd v Hd) as Hd1.
  destruct (spec_version now cmd v) as [r v1]. cbn in V1, Hd1. destruct (IH s1 v1 V1 Hd1) as (s2 & E2 & V2 & Hd2). rewrite E2.
  destruct (spec_versions cmds v1) as [rs v2]. by exists s2.
Qed.
End Writes.

Definition times_of (cmds : list (Z * version_cmd)) : list Z := cmds.*1.

End VersionsSpec.

(** ** A run on a new database *)

#[local] Existing Instance crc32_ieee.
#[local] Existing Instance blake3_pad.
#[local] Existing Instance hash_to_scalar.
#[local] Existing Instance map_order.
#[local] Instance no_zstd_here : ZstdDecode := fun _ => Err (InvalidInput EmptyString).
#[local] Instance no_config : LifecycleJson := fun _ => None.
#[local] Instance no_hex : HexDecode := fun _ => None.

(** Two of the maps that JSON can write. *)
#[local] Instance two_maps : MetadataJson := {|
  metadata_to_vec m := if bool_decide (m = ∅) then Some (lit "{}") else
                       if bool_decide (m = manual ∅) then Some (lit "{type:manual}") else None;
  metadata_from_slice json := if bool_decide (json = lit "{}") then Some ∅ else
                              if bool_decide (json = lit "{type:manual}") then Some (manual ∅) else None;
|}.

#[local] Instance two_maps_laws : MetadataJsonLaws.
Proof.
  split; intros m json; cbn; (case_bool_decide as H1; [by intros [= <-]; subst|]); (case_bool_decide as H2; [|done]); by intros [= <-]; subst.
Qed.

Abbreviation new_database := (StorageEngine_create 1700000000000).

Definition zero_head : bytes := zeros 32.

Lemma new_database_head : match new_database with Ok s => Some (fh_head_hash (aw_file_header (se_writer s))) | _ => None end = Some zero_head.
Proof. vm_compute. reflexivity. Qed.

Lemma new_database_room : exists s, new_database = Ok s /\ engine_room 30 s /\ v_content (engine_visible s) = ∅ /\ v_head (engine_visible s) = zero_head.
Proof.
  destruct (create_engine_ok 1700000000000) as (s & Ec & E & Hcur & _); [concrete|].
  pose proof new_database_head as Hh. rewrite Ec in Hh. injection Hh as Hh.
  exists s. split; [exact Ec|]. clear Ec. split; [|split; [exact (engine_content_ok s ∅ ∅ E)|exact Hh]].
  exists ∅, ∅. split; [exact E|]. split; [rewrite Hcur; vm_compute; reflexivity|]. intros K HK. apply keys_fit_few.
  rewrite dom_empty_L, union_empty_l_L. lia.
Qed.

Definition sample_names : list bytes := [lit "v1"; lit "v2"; lit "f"].

Definition sample_version_cmds : list (Z * version_cmd) :=
  [(1, VCreateSnapshot (lit "v1") ∅); (2, VRenameSnapshot (lit "v1") (lit "v2")); (3, VUpdateHead (replicate 32 Byte.x07));
   (4, VCreateFork (lit "f") (Some (lit "v2"))); (5, VPromoteFork (lit "f")); (6, VDeleteSnapshot (lit "v1"))].

Lemma sample_version_cmds_ok : Forall (fun c => is_i64 c.1 /\ cmd_ok sample_names c.2) sample_version_cmds.
Proof.
  assert (H0 : metadata_fits ∅) by (exists (lit "{}"); vm_compute; split; [done|congruence]).
  assert (H1 : metadata_fits (manual ∅)) by (exists (lit "{type:manual}"); vm_compute; split; [done|congruence]).
  assert (Hin : forall x, bool_decide (x ∈ sample_names) = true -> x ∈ sample_names) by (intros x; apply bool_decide_eq_true_1).
  repeat apply Forall_cons_2; try apply Forall_nil_2; split; cbn [fst snd cmd_ok version_in]; try (split; [|split || idtac]); try exact H0; try exact H1;
    try (apply Hin; vm_compute; reflexivity); try (right; apply Hin; vm_compute; reflexivity); vm_compute; split || idtac; congruence.
Qed.

