(* ===== verification/VersionsPrune.v ===== *)
(** Retention of snapshots: which are pruned, and what happens when the configured
    number of months is so large that the threshold overflows. *)
From S2P Require Import Prelude Sorted Codec EntryFormat Records KvEntry AppendWriter StateM StorageEngine EngineContent EngineStore EngineApi EngineChunks EngineMem Files Versions VersionsFormat VersionTable VersionsSpec.

Local Open Scope Z_scope.

Definition month_ms : Z := 2592000000.

(** Older than the retention of its type; 0 months keep a snapshot for ever. *)
Definition past_retention (now auto_months manual_months : Z) (i : SnapshotInfo) : Prop :=
  let months := if bool_decide (snapshot_type i = SNAPSHOT_TYPE_AUTO) then auto_months else manual_months in
  is_engine_internal (si_name i) = false /\ months <> 0 /\ months * month_ms <= now - si_created_at i.

#[export] Instance past_retention_dec now a m i : Decision (past_retention now a m i).
Proof. unfold past_retention. apply _. Defined.

(** The months whose threshold in milliseconds is an [i64]. *)
Definition months_fit (months : Z) : Prop := 0 <= months /\ months * month_ms < 2^63.

Lemma expired_exact now a m i : is_i64 now -> is_i64 (si_created_at i) -> months_fit a -> months_fit m ->
  expired now a m i = true <-> past_retention now a m i.
Proof.
  unfold is_i64, months_fit, past_retention, expired. intros Hn Hc Ha Hm.
  set (months := if bool_decide (snapshot_type i = SNAPSHOT_TYPE_AUTO) then a else m).
  assert (Hf : 0 <= months /\ months * month_ms < 2^63) by (unfold months; by case_bool_decide).
  destruct (is_engine_internal (si_name i)); [naive_solver|].
  destruct (Z.eqb_spec months 0) as [->|Hne]; [naive_solver|]. unfold month_ms in *.
  replace (wrap_i64 (months * 30 * 24 * 60 * 60 * 1000)) with (months * 2592000000).
  2: { unfold wrap_i64. rewrite Z.mod_small by lia. unfold i64_of_bits. destruct (Z.ltb_spec (months * 30 * 24 * 60 * 60 * 1000) (2^63)); lia. }
  unfold saturating_sub_i64, i64_max.
  destruct (Z.ltb_spec (Z.max (- 2 ^ 63) (Z.min (2 ^ 63 - 1) (now - si_created_at i))) (months * 2592000000)); cbn [negb]; split.
  - done.
  - intros (_ & _ & ?). lia.
  - intros _. split; [done|]. split; [done|]. lia.
  - done.
Qed.

Section Prune.
Context `{Blake3, ZstdDecode, MetadataJson, LifecycleJson, HexDecode, !MetadataJsonLaws} {E : Type} `{!Engine E, !EngineLaws E}.
Context (config : option Stored) (names : list bytes) (now : Z).
Context (Hfree : collision_free (version_inputs names [now])).
Context (Hnames : Forall (fun name => str_ok name /\ zlen name <= u16_max) names) (Hnow : is_i64 now).

Abbreviation holds := (versions_ok config names).

(** Deleting a snapshot of the store succeeds. *)
Lemma delete_snapshot_ok n s v name : holds (S n) s v -> is_Some (vs_snapshots v !! name) ->
  runs (delete_snapshot now name) s (fun _ s' => holds n s' (with_snapshots (delete name (vs_snapshots v)) v)).
Proof.
  intros V [i Ei]. destruct (to_entry _ _ _ _ (vo_snapshots _ _ _ _ _ V) name i Ei) as (Hn & _).
  pose proof (snapshot_taken _ _ _ _ _ V name Hn) as Ht. rewrite bool_decide_eq_true_2 in Ht by (rewrite Ei; eauto).
  unfold delete_snapshot. run. apply (runs_lift _ _ _ _ (snapshot_key_ok _ _ _ _ _ V name)). apply runs_bind.
  apply (runs_lift _ _ _ _ Ht). cbn [negb]. eapply runs_bind, runs_mono.
  - eapply (mark_snapshot config names [now]); [done|exact V|done|by rewrite Ei; eauto].
  - intros u s1 V1. eapply (persist_ok config names [now]); [done|exact V1|done|by eapply snapshot_key_short|].
    apply deletion_in; [done|by left].
Qed.

Definition remove_names (m : gmap bytes SnapshotInfo) (l : list bytes) : gmap bytes SnapshotInfo := foldl (fun m name => delete name m) m l.

Context (a m : Z).

Lemma prune_loop_ok l n s v r : holds (length l + n) s v -> NoDup (si_name <$> l) ->
  (forall i, i ∈ l -> vs_snapshots v !! si_name i = Some i) ->
  runs (prune_loop now a m l r) s (fun r' s' =>
    let pruned := si_name <$> filter (fun i => expired now a m i = true) l in
    pn_pruned_names r' = pn_pruned_names r ++ pruned
    /\ holds n s' (with_snapshots (remove_names (vs_snapshots v) pruned) v)).
Proof.
  revert n s v r. induction l as [|i l IH]; intros n s v r V Hnd Hin; cbn [prune_loop].
  { apply runs_ret. cbn. rewrite app_nil_r. split; [done|]. by destruct v. }
  apply NoDup_cons in Hnd as [Hi Hnd].
  assert (Hexp : is_engine_internal (si_name i) = true -> expired now a m i = false) by (intros Hx; unfold expired; by rewrite Hx).
  assert (Hskip : forall r, expired now a m i = false -> runs (prune_loop now a m l r) s (fun r' s' =>
    let pruned := si_name <$> filter (fun i => expired now a m i = true) (i :: l) in
    pn_pruned_names r' = pn_pruned_names r ++ pruned
    /\ holds n s' (with_snapshots (remove_names (vs_snapshots v) pruned) v))).
  { intros r' Hx. rewrite filter_cons_False by congruence. apply IH; [|done|set_solver]. eapply holds_le; [|exact V]. cbn. lia. }
  destruct (is_engine_internal (si_name i)) eqn:Eint.
  { eapply runs_mono; [apply Hskip; by apply Hexp|]. done. }
  destruct (expired now a m i) eqn:Ex; cbn [negb]; [|by apply Hskip].
  apply runs_bind, runs_attempt. eapply runs_mono; [apply (delete_snapshot_ok (length l + n) s v); [exact V|rewrite (Hin i) by left; eauto]|].
  intros [] s1 V1. eapply runs_mono; [apply IH; [exact V1|done|]|].
  - intros j Hj. cbn. rewrite lookup_delete_ne; [apply Hin; by right|]. intros Heq. apply Hi. rewrite Heq. by apply list_elem_of_fmap_2.
  - intros r' s' [Hr' V']. rewrite filter_cons_True by done. cbn in *. rewrite <- app_assoc in Hr'. done.
Qed.

Lemma remove_names_lookup snaps l name : remove_names snaps l !! name = if decide (name ∈ l) then None else snaps !! name.
Proof.
  revert snaps. induction l as [|x l IH]; intros snaps; cbn.
  { rewrite decide_False by set_solver. done. }
  rewrite IH. destruct (decide (name = x)) as [->|Hne].
  - rewrite lookup_delete_eq. rewrite (decide_True (P := x ∈ x :: l)) by set_solver. by destruct (decide (x ∈ l)).
  - rewrite lookup_delete_ne by done. destruct (decide (name ∈ l)); [rewrite decide_True by set_solver|rewrite decide_False by set_solver]; done.
Qed.

Section Listing.
Context (n : nat) (s : E) (v : VersionStore) (V : holds n s v) (l : list SnapshotInfo) (Hl : l ≡ₚ (map_to_list (vs_snapshots v)).*2).

Lemma table_snapshot x i : vs_snapshots v !! x = Some i -> si_name i = x /\ is_i64 (si_created_at i).
Proof. intros Hx. destruct (to_entry _ _ _ _ (vo_snapshots _ _ _ _ _ V) x i Hx) as (_ & Hname & Hg). split; [exact Hname|apply Hg]. Qed.

Lemma listing_elem i : i ∈ l <-> vs_snapshots v !! si_name i = Some i.
Proof using All.
  rewrite Hl, list_elem_of_fmap. split.
  - intros ([x j] & -> & Hx%elem_of_map_to_list). cbn. by rewrite (proj1 (table_snapshot x j Hx)).
  - intros Hi. exists (si_name i, i). by rewrite elem_of_map_to_list.
Qed.

Lemma listing_NoDup : NoDup (si_name <$> l).
Proof using All.
  rewrite Hl, <- list_fmap_compose. replace ((si_name ∘ snd) <$> map_to_list (vs_snapshots v)) with ((map_to_list (vs_snapshots v)).*1).
  - apply NoDup_fst_map_to_list.
  - apply list_fmap_ext. intros k [x i] Hk%list_elem_of_lookup_2%elem_of_map_to_list. cbn. by rewrite (proj1 (table_snapshot x i Hk)).
Qed.

Lemma listing_length : length l = size (vs_snapshots v).
Proof using All. rewrite Hl, length_fmap. apply length_map_to_list. Qed.

Lemma listing_expired x i : months_fit a -> months_fit m -> vs_snapshots v !! x = Some i -> expired now a m i = true <-> past_retention now a m i.
Proof using All. intros Ha Hm Hx. apply expired_exact; [done|by apply (table_snapshot x)|done|done]. Qed.
End Listing.

(** What is left of the snapshots. *)
Definition retained (snaps : gmap bytes SnapshotInfo) : gmap bytes SnapshotInfo :=
  omap (fun i => if decide (past_retention now a m i) then None else Some i) snaps.

Lemma remove_expired n s v l : holds n s v -> months_fit a -> months_fit m -> l ≡ₚ (map_to_list (vs_snapshots v)).*2 ->
  remove_names (vs_snapshots v) (si_name <$> filter (fun i => expired now a m i = true) l) = retained (vs_snapshots v).
Proof.
  intros V Ha Hm Hl. apply map_eq. intros name. rewrite remove_names_lookup. unfold retained. rewrite lookup_omap.
  pose proof (listing_elem n s v V l Hl) as Hmem. pose proof (fun i => listing_expired n s v V l Hl name i Ha Hm) as Hex.
  destruct (decide (name ∈ si_name <$> filter _ l)) as [Hin|Hout].
  - apply list_elem_of_fmap in Hin as (i & -> & [Hx Hi%Hmem]%list_elem_of_filter). apply (Hex i Hi) in Hx. rewrite Hi. cbn. by rewrite decide_True.
  - destruct (vs_snapshots v !! name) as [i|] eqn:Ei; [|done]. cbn.
    rewrite decide_False; [done|]. intros Hp%(Hex i); [|done]. apply Hout. destruct (table_snapshot n s v V name i Ei) as [Hname _]. apply list_elem_of_fmap. exists i. split; [done|].
    apply list_elem_of_filter. split; [done|]. apply Hmem. by rewrite Hname.
Qed.

(** C7. Pruning deletes exactly the snapshots past the retention of their type and reports
    their names; head, forks and every other snapshot stay. *)
Theorem prune_exact n s v cfg : load_lifecycle_config s = Ok cfg ->
  a = ret_auto_months (lc_snapshot_retention cfg) -> m = ret_manual_months (lc_snapshot_retention cfg) ->
  months_fit a -> months_fit m -> holds (size (vs_snapshots v) + n) s v ->
  runs (prune_expired_snapshots now) s (fun r s' =>
    NoDup (pn_pruned_names r)
    /\ (forall name, name ∈ pn_pruned_names r <-> exists i, vs_snapshots v !! name = Some i /\ past_retention now a m i)
    /\ holds n s' (with_snapshots (retained (vs_snapshots v)) v)).
Proof.
  intros Hcfg Ea Em Ha Hm V. unfold prune_expired_snapshots. run. apply (runs_lift _ _ _ _ Hcfg). rewrite <- Ea, <- Em. cbv zeta.
  destruct (list_snapshots_ok _ _ _ _ _ V) as (l & El & Hl & _).
  pose proof (listing_elem _ s v V l Hl) as Hall. pose proof (fun x i => listing_expired _ s v V l Hl x i Ha Hm) as Hex.
  destruct ((a =? 0) && (m =? 0)) eqn:E0.
  { apply andb_true_iff in E0 as [E1%Z.eqb_eq E2%Z.eqb_eq].
    assert (Hno : forall i, ~ past_retention now a m i) by (intros i (_ & Hne & _); destruct (bool_decide _); lia).
    run. cbn. split; [constructor|]. split; [intros name; split; [by intros ?%elem_of_nil|intros (i & _ & Hp); by destruct (Hno i)]|].
    replace (retained (vs_snapshots v)) with (vs_snapshots v); [eapply holds_le; [|by destruct v]; lia|].
    apply map_eq. intros name. unfold retained. rewrite lookup_omap. destruct (vs_snapshots v !! name); [|done]. cbn. by rewrite decide_False. }
  run. apply (runs_lift _ _ _ _ El).
  eapply runs_mono; [apply (prune_loop_ok l n s v); [by rewrite (listing_length _ s v V l Hl)|exact (listing_NoDup _ s v V l Hl)|intros i; apply Hall]|].
  intros r s' [Hr V']. cbn in Hr. rewrite (remove_expired _ s v l V Ha Hm Hl) in V'. rewrite Hr. split; [|split; [|exact V']].
  - eapply sublist_NoDup; [exact (listing_NoDup _ s v V l Hl)|]. apply fmap_sublist, sublist_filter.
  - intros name. rewrite list_elem_of_fmap. split.
    + intros (i & -> & [Hx Hi%Hall]%list_elem_of_filter). exists i. split; [done|]. by apply (Hex _ i Hi).
    + intros (i & Hi & Hp). destruct (table_snapshot _ s v V name i Hi) as [Hname _]. exists i. split; [done|].
      apply list_elem_of_filter. split; [by apply (Hex _ i Hi)|apply Hall; congruence].
Qed.
End Prune.

(** ** A database with two snapshots, where automatic ones are kept for a month *)

#[local] Existing Instance blake3_pad.
#[local] Instance no_zstd_now : ZstdDecode := fun _ => Err (InvalidInput EmptyString).
#[local] Instance hex_unused : HexDecode := fun _ => None.
#[local] Instance one_config : LifecycleJson := fun json =>
  if bool_decide (json = lit "auto:1")
  then Some {| lc_snapshot_writes_enabled := true; lc_snapshot_retention := {| ret_auto_months := 1; ret_manual_months := 0 |} |}
  else None.

Definition auto_metadata : gmap bytes bytes := <[SNAPSHOT_TYPE_KEY := SNAPSHOT_TYPE_AUTO]> ∅.

#[local] Instance type_maps : MetadataJson := {|
  metadata_to_vec m := if bool_decide (m = auto_metadata) then Some (lit "auto") else
                       if bool_decide (m = manual ∅) then Some (lit "manual") else None;
  metadata_from_slice json := if bool_decide (json = lit "auto") then Some auto_metadata else
                              if bool_decide (json = lit "manual") then Some (manual ∅) else None;
|}.

#[local] Instance type_maps_laws : MetadataJsonLaws.
Proof.
  split; intros m json; cbn; (case_bool_decide as H1; [by intros [= <-]; subst|]); (case_bool_decide as H2; [|done]); by intros [= <-]; subst.
Qed.

Definition aged (name : bytes) (metadata : gmap bytes bytes) : SnapshotInfo :=
  {| si_name := name; si_root_hash := replicate 32 Byte.x07; si_created_at := 0; si_metadata := metadata |}.

Definition config_chunk : bytes := replicate 32 Byte.x09.
Definition config_record : bytes :=
  match FileRecord_serialize (set_content_hash (FileRecord_new 0 LIFECYCLE_CONFIG_PATH None 6 [config_chunk]) (zeros 32)) 32 with Ok b => b | _ => [] end.
Definition config_stored : Stored :=
  stored_as KV_TYPE_FILE_RECORD FileRecordEntry config_record (z2b 0) NoCompression (z2b CURRENT_FILE_RECORD_VERSION).

Definition aged_content : gmap bytes Stored :=
  <[tb_key snapshots (lit "a") := tb_stored snapshots (aged (lit "a") auto_metadata)]>
  (<[tb_key snapshots (lit "b") := tb_stored snapshots (aged (lit "b") (manual ∅))]>
  (<[config_chunk := stored_as KV_TYPE_CHUNK Chunk (lit "auto:1") (z2b 0) NoCompression CURRENT_ENTRY_VERSION]>
  {[ blake3 config_input := config_stored ]})).

Definition aged_database : Visible := {| v_content := aged_content; v_head := zeros 32; v_cache := ∅ |}.

Definition aged_versions : VersionStore := {|
  vs_head := zeros 32; vs_forks := ∅;
  vs_snapshots := <[lit "a" := aged (lit "a") auto_metadata]> (<[lit "b" := aged (lit "b") (manual ∅)]> ∅) |}.

Definition aged_names : list bytes := [lit "a"; lit "b"].

Lemma aged_inputs : collision_free (version_inputs aged_names [month_ms]).
Proof. apply collision_free_NoDup. apply (bool_decide_unpack _). vm_compute. exact I. Qed.

Lemma aged_apart {A} (tb : Table A) h : forallb (fun name => negb (bool_decide (h = tb_key tb name))) aged_names = true ->
  key_apart tb aged_names h.
Proof.
  intros Hb name Hn ->. rewrite forallb_forall in Hb. specialize (Hb name). rewrite bool_decide_eq_true_2 in Hb by done.
  apply list_elem_of_In in Hn. by specialize (Hb Hn).
Qed.

Lemma aged_good name metadata : name ∈ aged_names -> metadata = auto_metadata \/ metadata = manual ∅ -> snapshot_good (aged name metadata).
Proof.
  intros Hn Hm.
  assert (Hfit : forall m, m = auto_metadata \/ m = manual ∅ -> metadata_fits m).
  { intros m' [->| ->]; [exists (lit "auto")|exists (lit "manual")]; vm_compute; split; [done|congruence|done|congruence]. }
  split; cbn.
  - repeat (apply elem_of_cons in Hn as [->|Hn]; [vm_compute; split; [done|congruence]|]). by apply elem_of_nil in Hn.
  - reflexivity.
  - vm_compute. split; congruence.
  - by apply Hfit.
  - apply Hfit. right. destruct Hm as [->| ->]; unfold manual, auto_metadata; by rewrite insert_insert_eq.
Qed.

Lemma aged_ok : versions_ok (Some config_stored) aged_names 4 aged_database aged_versions.
Proof.
  pose proof (snapshot_keys_inj _ _ aged_inputs) as Hinj.
  assert (Ha : lit "a" ∈ aged_names) by (apply (bool_decide_unpack _); vm_compute; exact I).
  assert (Hb : lit "b" ∈ aged_names) by (apply (bool_decide_unpack _); vm_compute; exact I).
  split; cbn [vs_head vs_snapshots vs_forks aged_versions]; [done|done|by vm_compute| | |].
  - apply table_insert; [apply table_insert; [apply table_other; [apply table_other; [apply table_empty| |done]| |done]|..]|..];
      try exact Hinj; try (apply aged_apart; vm_compute; reflexivity); try done; apply aged_good; auto.
  - repeat (apply table_other; [|apply aged_apart; vm_compute; reflexivity|done]). apply table_empty.
  - vm_compute. reflexivity.
Qed.

Lemma prune_exact_witness : runs (prune_expired_snapshots month_ms) aged_database (fun r s' =>
  lit "a" ∈ pn_pruned_names r /\ lit "b" ∉ pn_pruned_names r).
Proof.
  eapply runs_mono; [apply (prune_exact (Some config_stored) aged_names month_ms aged_inputs
    ltac:(repeat constructor; vm_compute; congruence) ltac:(vm_compute; split; congruence) 1 0 2 aged_database aged_versions
    {| lc_snapshot_writes_enabled := true; lc_snapshot_retention := {| ret_auto_months := 1; ret_manual_months := 0 |} |})|].
  - vm_compute. reflexivity.
  - reflexivity.
  - reflexivity.
  - vm_compute. split; congruence.
  - vm_compute. split; congruence.
  - exact aged_ok.
  - intros r s' (_ & Hp & _). rewrite !Hp. split.
    + exists (aged (lit "a") auto_metadata). split; [reflexivity|]. apply (bool_decide_unpack _). vm_compute. exact I.
    + intros (i & Hi & _ & Hne & _). assert (Ei : vs_snapshots aged_versions !! lit "b" = Some (aged (lit "b") (manual ∅))) by reflexivity.
      rewrite Ei in Hi. apply (inj Some) in Hi as <-. by vm_compute in Hne.
Defined.

(** With the largest number of months the threshold wraps around, and a snapshot that was
    just made is past its retention. *)
Lemma retention_overflow now i : is_i64 now -> si_created_at i = now -> is_engine_internal (si_name i) = false ->
  expired now u32_max u32_max i = true.
Proof.
  intros Hn Hc Hi. unfold expired. rewrite Hi, Hc. case_bool_decide; unfold saturating_sub_i64; rewrite Z.sub_diag; by vm_compute.
Qed.
