(* ===== verification/Rebuild.v ===== *)
(** Opening a database and rebuilding its index from the log
    (src/aeordb-lib/src/engine/storage_engine.rs): the records a scan returns are
    resolved to one per hash, the newest, and deletion records are replayed on them.
    Progress reports are left out. *)
From S2P Require Import Prelude Sorted Codec EntryFormat Records KvEntry KvPages FileIo HotTail FileHeader VoidManager AppendWriter EntryScanner KvExpand Converters Nvt StateM BTree KvSnapshot DiskKv Paths StorageEngine Files.

Local Open Scope Z_scope.

Record RebuildOrder := { ro_timestamp : Z; ro_offset : Z }.

(** The comparison of the pairs [(timestamp, offset)]. *)
Definition is_after (self other : RebuildOrder) : bool :=
  (ro_timestamp other <? ro_timestamp self)
  || ((ro_timestamp self =? ro_timestamp other) && (ro_offset other <? ro_offset self)).

Record RebuildKvRecord := {
  rr_type_flags : byte;
  rr_hash : bytes;
  rr_offset : Z;
  rr_value_length : Z;
  rr_total_length : Z;
  rr_order : RebuildOrder;
}.

Definition to_kv_entry (r : RebuildKvRecord) : KVEntry :=
  {| kv_type_flags := rr_type_flags r; kv_hash := rr_hash r; kv_offset := rr_offset r;
     kv_total_length := rr_total_length r |}.

Definition rr_type (r : RebuildKvRecord) : Z := Z.land (b2z (rr_type_flags r)) 0x0F.

Definition should_replace_rebuild_record (existing candidate : RebuildKvRecord) : bool :=
  let by_order := is_after (rr_order candidate) (rr_order existing) in
  if (rr_type existing =? KV_TYPE_DIRECTORY) && (rr_type candidate =? KV_TYPE_DIRECTORY) then
    if (rr_value_length candidate =? 0) && (0 <? rr_value_length existing) then false
    else if (0 <? rr_value_length candidate) && (rr_value_length existing =? 0) then true
    else by_order
  else by_order.

Definition with_type_flags (r : RebuildKvRecord) (flags : byte) : RebuildKvRecord :=
  {| rr_type_flags := flags; rr_hash := rr_hash r; rr_offset := rr_offset r;
     rr_value_length := rr_value_length r; rr_total_length := rr_total_length r; rr_order := rr_order r |}.

Definition mark_rebuild_record_deleted_if_older (key : bytes) (deletion_order : RebuildOrder)
    (records : gmap bytes RebuildKvRecord) : gmap bytes RebuildKvRecord :=
  alter (fun entry =>
    if is_after deletion_order (rr_order entry)
    then with_type_flags entry (z2b (Z.lor (rr_type entry) KV_FLAG_DELETED))
    else entry) key records.

(** One round of the first loop of [resolve_rebuild_records]. *)
Definition insert_rebuild_record (resolved : gmap bytes RebuildKvRecord) (record : RebuildKvRecord)
    : gmap bytes RebuildKvRecord :=
  let replace := match resolved !! rr_hash record with
    | Some existing => should_replace_rebuild_record existing record
    | None => true
    end in
  if replace then <[rr_hash record := record]> resolved else resolved.

(** Sequencing of fallible code with fuel, and the state a run ends in. *)
Definition and_then {A B} (m : option (res A)) (f : A -> option (res B)) : option (res B) :=
  match m with
  | Some (Ok a) => f a
  | Some (Err e) => Some (Err e)
  | Some Panic => Some Panic
  | None => None
  end.
Definition final {S A} (m : M S A) (s : S) : option (res S) :=
  match m s with
  | Some (Ok _, s) => Some (Ok s)
  | Some (Err e, _) => Some (Err e)
  | Some (Panic, _) => Some Panic
  | None => None
  end.

Section Rebuild.
Context `{Crc32, Blake3, ToScalar, HashOrder, KeyOrder}.

Abbreviation ME := (M StorageEngine).

Fixpoint replay_deletion_records_on_rebuild_records (records : gmap bytes RebuildKvRecord) (hash_algo : HashAlgorithm)
    (deletion_records : list (bytes * RebuildOrder)) : res (gmap bytes RebuildKvRecord) :=
  match deletion_records with
  | [] => Ok records
  | (path, deletion_order) :: deletion_records =>
    let normalized := normalize_path path in
    file_key ← file_path_hash normalized hash_algo;
    let records := mark_rebuild_record_deleted_if_older file_key deletion_order records in
    dir_key ← directory_path_hash normalized hash_algo;
    let records := mark_rebuild_record_deleted_if_older dir_key deletion_order records in
    symlink_key ← symlink_path_hash normalized hash_algo;
    let records := mark_rebuild_record_deleted_if_older symlink_key deletion_order records in
    raw_key ← compute_hash hash_algo path;
    let records := mark_rebuild_record_deleted_if_older raw_key deletion_order records in
    replay_deletion_records_on_rebuild_records records hash_algo deletion_records
  end.

(** [into_values] in the order of the map's keys. *)
Definition resolve_rebuild_records (records : list RebuildKvRecord) (hash_algo : HashAlgorithm)
    (deletion_records : list (bytes * RebuildOrder)) : res (list KVEntry) :=
  let resolved := foldl insert_rebuild_record ∅ records in
  resolved ← replay_deletion_records_on_rebuild_records resolved hash_algo deletion_records;
  Ok (to_kv_entry <$> omap (fun k => resolved !! k) (keys_iter resolved)).

(** ** Scanning *)

Definition scan_order (header : EntryHeader) (offset : Z) : RebuildOrder :=
  {| ro_timestamp := eh_timestamp header; ro_offset := offset |}.

Definition scan_record (header : EntryHeader) (key : bytes) (offset : Z) : RebuildKvRecord :=
  {| rr_type_flags := z2b (to_kv_type (eh_entry_type header)); rr_hash := key; rr_offset := offset;
     rr_value_length := eh_value_length header; rr_total_length := eh_total_length header;
     rr_order := scan_order header offset |}.

(** The path of a deletion record that decodes. *)
Definition scan_deletion (header : EntryHeader) (value : option bytes) (offset : Z) : list (bytes * RebuildOrder) :=
  if bool_decide (eh_entry_type header = DeletionRecordEntry) then
    match value with
    | Some value =>
      match DeletionRecord_deserialize value (b2z (eh_entry_version header)) with
      | Ok record => [(dr_path record, scan_order header offset)]
      | _ => []
      end
    | None => []
    end
  else [].

(** What the loops collect; an item that is an error is skipped. *)
Definition rebuild_records (items : list (res ScannedRebuildEntry)) : list RebuildKvRecord :=
  omap (fun item => match item with
    | Ok scanned => Some (scan_record (sr_header scanned) (sr_key scanned) (sr_offset scanned))
    | _ => None end) items.
Definition rebuild_deletions (items : list (res ScannedRebuildEntry)) : list (bytes * RebuildOrder) :=
  concat ((fun item => match item with
    | Ok scanned => scan_deletion (sr_header scanned) (sr_value scanned) (sr_offset scanned)
    | _ => [] end) <$> items).

(** Fuel: a round of the scan advances by a byte or more. *)
Definition scan_for_rebuild (file : bytes) : option (res (list (res ScannedRebuildEntry))) :=
  and_then (Some (EntryScanner_new_dirty_recovery file)) (fun scanner =>
    let fuel := S (Z.to_nat (sc_file_length scanner - sc_current_offset scanner)) in
    Ok <$> collect (next_rebuild_entry fuel) fuel scanner).

Definition scan_m : ME (list (res ScannedRebuildEntry)) := fun s =>
  match scan_for_rebuild (aw_file (se_writer s)) with Some r => Some (r, s) | None => None end.

(** An operation on the new store before it is installed: its bytes are the file's, and
    when it fails the store is dropped. *)
Definition on_new_kv (new_kv : DiskKVStore) (m : M DiskKVStore unit) : ME DiskKVStore := fun s =>
  let file_of kv := set_writer (with_file (se_writer s) (dk_file kv)) s in
  match m new_kv with
  | Some (Ok _, kv) => Some (Ok kv, file_of kv)
  | Some (Err e, kv) => match dk_drop kv with Some (_, kv) => Some (Err e, file_of kv) | None => None end
  | Some (Panic, kv) => Some (Panic, file_of kv)
  | None => None
  end.

Definition dirty_max_end (records : list RebuildKvRecord) : Z :=
  foldr Z.max 0 ((fun record => rr_offset record + rr_total_length record) <$> records).

(** Where the rebuilt index goes: offset, hot tail and stage.  A legacy file has no
    block: it is placed at the end of the log. *)
Definition rebuild_layout (w : AppendWriter) (hl wal_end : Z) (scanned_count : Z) : Z * Z * Z :=
  let header := aw_file_header w in
  if 0 <? fh_kv_block_offset header then (fh_kv_block_offset header, wal_end, b2z (fh_kv_block_stage header))
  else
    let wal_end := aw_current_offset w in
    let target_stage := stage_for_count scanned_count hl in
    let '(bs, _) := stage_params target_stage (page_size hl) in
    (wal_end, wal_end + bs, target_stage).

Definition rebuild_kv : ME unit :=
  ensure_writable ;;
  items ← scan_m;
  let scanned_records := rebuild_records items in
  let deletion_records := rebuild_deletions items in
  let scanned_count := zlen scanned_records in
  s ← gets id;
  let hash_algo := se_hash_algo s in
  let hl := hash_length hash_algo in
  let wal_end := Z.max (aw_current_offset (se_writer s)) (dirty_max_end scanned_records) in
  let '(kv_offset, hot_offset, rebuild_stage) := rebuild_layout (se_writer s) hl wal_end scanned_count in
  new_kv ← lift (DiskKVStore_create (aw_file (se_writer s)) hash_algo kv_offset hot_offset rebuild_stage);
  modify (fun s => set_writer (with_file (se_writer s) (dk_file new_kv)) s) ;;
  resolved_entries ← lift (resolve_rebuild_records scanned_records hash_algo deletion_records);
  new_kv ← on_new_kv new_kv
    (for_each resolved_entries buffer_only ;; flush ;; adopt_snapshot_handle (se_snapshot s));
  modify (set_kv new_kv) ;;
  let '(final_block_size, _) := stage_params (dk_stage new_kv) (page_size hl) in
  modify (fun s => set_writer (set_offset (se_writer s) wal_end) s) ;;
  on_writer (fun w => with_unit (update_header w (with_entry_count
    (with_block (aw_file_header w) kv_offset final_block_size (dk_stage new_kv) wal_end) scanned_count))) ;;
  modify (set_last_published wal_end).

Definition recover_after_emergency_spill_replay : ME unit :=
  rebuild_kv ;;
  recover_voids_via_gap_scan ;;
  sync_voids_to_kv_writer ;;
  force_hot_tail_flush.

(** ** Opening *)

(** New entries go before the hot tail. *)
Definition open_writer (file : bytes) : res AppendWriter :=
  writer ← AppendWriter_open file;
  let hot_tail_offset := fh_hot_tail_offset (aw_file_header writer) in
  Ok (if 0 <? hot_tail_offset then set_offset writer hot_tail_offset else writer).

(** A resize that was not finished is done offline first; its errors come before its
    first write and are dropped. *)
Definition expand_pending (writer : AppendWriter) (hl : Z) : option (res (AppendWriter * bool)) :=
  let header := aw_file_header writer in
  let resize_target := b2z (fh_resize_target_stage header) in
  let current_stage := b2z (fh_kv_block_stage header) in
  let reopen file needs_kv_rebuild := writer ← open_writer file; Ok (writer, needs_kv_rebuild) in
  if current_stage <? resize_target then
    match expand_kv_block (aw_file writer) resize_target hl with
    | Some (Ok (_, file)) => Some (reopen file true)
    | Some (Err _) => Some (reopen (aw_file writer) false)
    | Some Panic => Some Panic
    | None => None
    end
  else Some (Ok (writer, false)).

Definition no_payload : HotTailPayload := {| ht_writes := []; ht_voids := [] |}.

(** The hot tail, and whether it could not be read. *)
Definition open_hot_tail (writer : AppendWriter) (hl : Z) : res (HotTailPayload * bool) :=
  let hot_tail_offset := fh_hot_tail_offset (aw_file_header writer) in
  if 0 <? hot_tail_offset then
    o ← read_hot_tail (aw_file writer) hot_tail_offset hl;
    Ok (match o with Some payload => (payload, false) | None => (no_payload, true) end)
  else Ok (no_payload, false).

(** The items of the plain scan, as records and deletions. *)
Definition scanned_item (item : res ScannedEntry) : res ScannedRebuildEntry :=
  scanned ← item;
  Ok {| sr_offset := se_offset scanned; sr_header := se_header scanned; sr_key := se_key scanned;
        sr_value := Some (se_value scanned) |}.

Definition scan_all (file : bytes) : option (res (list (res ScannedRebuildEntry))) :=
  and_then (Some (EntryScanner_new file)) (fun scanner =>
    let fuel := S (Z.to_nat (sc_file_length scanner - sc_current_offset scanner)) in
    match collect (EntryScanner_next fuel) fuel scanner with
    | Some items => Some (Ok (scanned_item <$> items))
    | None => None
    end).

(** Without a valid block: an index from a full scan. *)
Definition open_without_block (writer : AppendWriter) (hash_algo : HashAlgorithm) : option (res DiskKVStore) :=
  let kv_block_offset := HEADER_REGION_SIZE in
  let hot_tail_offset := kv_block_offset + initial_block_size in
  and_then (Some (DiskKVStore_create (aw_file writer) hash_algo kv_block_offset hot_tail_offset 0)) (fun kv =>
  and_then (scan_all (dk_file kv)) (fun items =>
  and_then (Some (resolve_rebuild_records (rebuild_records items) hash_algo (rebuild_deletions items))) (fun resolved =>
  final (bulk_insert resolved ;; flush) kv))).

Definition open_kv (writer : AppendWriter) (hash_algo : HashAlgorithm) (hot_entries : list KVEntry)
    (hot_voids : list VoidRecord) : option (res DiskKVStore) :=
  let header := aw_file_header writer in
  if (0 <? fh_kv_block_offset header) && (fh_kv_block_offset header <? fh_hot_tail_offset header)
  then Some (DiskKVStore_open (aw_file writer) hash_algo (fh_kv_block_offset header) (fh_hot_tail_offset header)
    (b2z (fh_kv_block_stage header)) hot_entries hot_voids (b2z (fh_kv_block_version header)))
  else open_without_block writer hash_algo.

(** The engine once its parts are read, before the recovery steps. *)
Definition open_parts (writer : AppendWriter) (hash_algo : HashAlgorithm) : option (res (StorageEngine * bool)) :=
  let header := aw_file_header writer in
  and_then (Some (open_hot_tail writer (hash_length hash_algo))) (fun '(hot_payload, needs_dirty_startup) =>
  let wal_start := saturating_add64 (fh_kv_block_offset header) (fh_kv_block_length header) in
  let hot_voids := filter_voids_for_bounds (ht_voids hot_payload) wal_start (fh_hot_tail_offset header) in
  let void_manager := foldl (fun vm v => register_void vm (vr_offset v) (vr_size v)) (VoidManager_new hash_algo) hot_voids in
  and_then (open_kv writer hash_algo (ht_writes hot_payload) hot_voids) (fun kv =>
  Some (Ok (new_engine (with_file writer (dk_file kv)) kv void_manager (fh_hot_tail_offset header) hash_algo,
            needs_dirty_startup || dk_needs_rebuild kv)))).

Definition open_internal (file : bytes) : option (res StorageEngine) :=
  and_then (Some (open_writer file)) (fun writer =>
  let hash_algo := fh_hash_algo (aw_file_header writer) in
  and_then (expand_pending writer (hash_length hash_algo)) (fun '(writer, needs_kv_rebuild) =>
  and_then (open_parts writer hash_algo) (fun '(engine, dirty) =>
  final ((if needs_kv_rebuild || dirty : bool then rebuild_kv ;; recover_voids_via_gap_scan else mret tt) ;;
         sync_voids_to_kv_writer) engine))).

Definition open_for_import (file : bytes) : option (res StorageEngine) := open_internal file.

(** Patch databases are refused. *)
Definition StorageEngine_open (file : bytes) : option (res StorageEngine) :=
  (fun r => engine ← r;
    if 1 <? b2z (fh_backup_type (aw_file_header (se_writer engine)))
    then Err (PatchDatabase "This is a patch export and cannot be used as a standalone database.")
    else Ok engine) <$> open_internal file.
End Rebuild.
