(* ===== verification/RebuildSpec.v ===== *)
(** What an index rebuild keeps (src/aeordb-lib/src/engine/storage_engine.rs, lines
    2573-2645): for every hash its newest record, marked deleted exactly when a
    deletion record for one of the hash's paths is newer still. *)
From S2P Require Import Prelude Codec EntryFormat Records KvEntry Paths Rebuild.

Local Open Scope Z_scope.

(** ** The reference *)

(** A directory record with children outranks one without. *)
Definition has_children (r : RebuildKvRecord) : Z :=
  if (rr_type r =? KV_TYPE_DIRECTORY) && (0 <? rr_value_length r) then 1 else 0.

(** [b] is newer than [a]: by children, then by time, then by offset. *)
Definition newer (a b : RebuildKvRecord) : Prop :=
  has_children a < has_children b \/
  (has_children a = has_children b /\
   (ro_timestamp (rr_order a) < ro_timestamp (rr_order b) \/
    (ro_timestamp (rr_order a) = ro_timestamp (rr_order b) /\ ro_offset (rr_order a) < ro_offset (rr_order b)))).

Definition newest (records : list RebuildKvRecord) (r : RebuildKvRecord) : Prop :=
  r ∈ records /\ forall r', r' ∈ records -> rr_hash r' = rr_hash r -> r' = r \/ newer r' r.

(** The hashes a deletion of a path applies to. *)
Definition deletion_keys `{Blake3} (path : bytes) : list bytes :=
  let normalized := normalize_path path in
  [blake3 (lit "file:" ++ normalized); blake3 (lit "dir:" ++ normalized);
   blake3 (lit "symlink:" ++ normalized); blake3 path].

Definition deleted_by `{Blake3} (deletions : list (bytes * RebuildOrder)) (r : RebuildKvRecord) : bool :=
  existsb (fun d => bool_decide (rr_hash r ∈ deletion_keys d.1) && is_after d.2 (rr_order r)) deletions.

Definition tombstone (r : RebuildKvRecord) : RebuildKvRecord :=
  with_type_flags r (z2b (Z.lor (rr_type r) KV_FLAG_DELETED)).

(** What a scan guarantees: fields in range, one type per hash, distinct offsets. *)
Record scan_ok (records : list RebuildKvRecord) : Prop := {
  so_value : Forall (fun r => 0 <= rr_value_length r) records;
  so_type : forall r r', r ∈ records -> r' ∈ records -> rr_hash r = rr_hash r' -> rr_type r = rr_type r';
  so_order : Forall (fun r => ro_offset (rr_order r) = rr_offset r) records;
  so_offsets : NoDup (rr_offset <$> records);
}.

(** ** Resolution *)

Lemma should_replace_newer a b : rr_type a = rr_type b -> 0 <= rr_value_length a -> 0 <= rr_value_length b ->
  should_replace_rebuild_record a b = true <-> newer a b.
Proof.
  intros Ht Ha Hb. unfold should_replace_rebuild_record, newer, has_children, is_after. rewrite Ht, andb_diag.
  destruct (Z.eqb_spec (rr_type b) KV_TYPE_DIRECTORY); cbn [andb];
    destruct (Z.ltb_spec 0 (rr_value_length a)), (Z.ltb_spec 0 (rr_value_length b)),
      (Z.eqb_spec (rr_value_length a) 0), (Z.eqb_spec (rr_value_length b) 0); cbn [andb]; try lia;
    rewrite orb_true_iff, andb_true_iff, !Z.ltb_lt, Z.eqb_eq; lia.
Qed.

Lemma newer_total records a b : scan_ok records -> a ∈ records -> b ∈ records -> a = b \/ newer a b \/ newer b a.
Proof.
  intros [_ _ Ho Hn] Ha Hb. rewrite Forall_forall in Ho.
  destruct (decide (rr_offset a = rr_offset b)) as [E|Hne].
  - left. apply list_elem_of_lookup in Ha as [i Hi], Hb as [j Hj].
    assert (i = j) as ->; [|congruence].
    apply (NoDup_lookup _ i j (rr_offset a) Hn); rewrite list_lookup_fmap; [by rewrite Hi|by rewrite Hj, E].
  - right. rewrite <- (Ho a Ha), <- (Ho b Hb) in Hne. unfold newer. lia.
Qed.

Lemma newer_trans a b c : newer a b -> newer b c -> newer a c.
Proof. unfold newer. lia. Qed.

Lemma scan_ok_app l l' : scan_ok (l ++ l') -> scan_ok l.
Proof.
  intros [Hv Ht Ho Hn]. rewrite fmap_app in Hn. apply Forall_app in Hv, Ho. apply NoDup_app in Hn.
  split; [apply Hv| |apply Ho|apply Hn].
  intros r r' Hr Hr'. apply Ht; apply elem_of_app; by left.
Qed.

Lemma newer_irrefl a : ~ newer a a.
Proof. unfold newer. lia. Qed.

Lemma scan_ok_fresh records x : scan_ok (records ++ [x]) -> x ∉ records.
Proof.
  intros [_ _ _ Hn] Hx. rewrite fmap_app in Hn. apply NoDup_app in Hn as (_ & Hd & _).
  apply (Hd (rr_offset x)); [by apply list_elem_of_fmap_2|cbn; set_solver].
Qed.

Lemma insert_records_some records h : (exists r, r ∈ records /\ rr_hash r = h) ->
  is_Some (foldl insert_rebuild_record ∅ records !! h).
Proof.
  induction records as [|x records IH] using rev_ind; intros (r & Hr & <-); [by apply not_elem_of_nil in Hr|].
  rewrite foldl_snoc. unfold insert_rebuild_record at 1.
  set (m := foldl insert_rebuild_record ∅ records) in *.
  destruct (decide (rr_hash r = rr_hash x)) as [E|Hne].
  - rewrite E. destruct (m !! rr_hash x) as [e|] eqn:Em; [|by rewrite lookup_insert_eq].
    case_match; [by rewrite lookup_insert_eq|by rewrite Em].
  - assert (is_Some (m !! rr_hash r)) as Hs. { apply IH. exists r. set_solver. }
    case_match; [|done]. by rewrite lookup_insert_ne.
Qed.

(** The newest record of a hash, with one more record at the end. *)
Lemma newest_snoc_same records x e r : scan_ok (records ++ [x]) -> newest records e -> rr_hash e = rr_hash x ->
  rr_hash r = rr_hash x ->
  newest (records ++ [x]) r <-> (newer e x /\ r = x) \/ (newer x e /\ r = e).
Proof.
  intros Hok [He Hnew] Ehx Hrx. pose proof (scan_ok_fresh _ _ Hok) as Hfresh.
  assert (Hux : forall y, y ∈ records -> rr_hash y = rr_hash x -> y = e \/ newer y e).
  { intros y Hy Hyx. apply Hnew; [done|congruence]. }
  pose proof (newer_total _ e x Hok ltac:(set_solver) ltac:(set_solver)) as Htot.
  split.
  - intros [Hr Hall]. assert (Hxr : x = r \/ newer x r) by (apply Hall; [set_solver|done]).
    assert (Her : e = r \/ newer e r) by (apply Hall; [set_solver|congruence]).
    destruct Hxr as [<-|Hxr]; [left; destruct Her as [->|]; done|].
    destruct Her as [->|Her]; [by right|]. exfalso.
    apply elem_of_app in Hr as [Hr|Hr]; [|assert (r = x) as -> by set_solver; by apply newer_irrefl in Hxr].
    destruct (Hux r Hr Hrx) as [->|Hre]; [by apply newer_irrefl in Her|].
    by apply (newer_irrefl r), (newer_trans _ e).
  - intros [[Hlt ->]|[Hlt ->]]; (split; [set_solver|]); intros y [Hy|Hy]%elem_of_app Hyh.
    + right. destruct (Hux y Hy Hyh) as [->|]; [done|by apply (newer_trans _ e)].
    + left. set_solver.
    + by apply Hux; [|congruence].
    + right. assert (y = x) as -> by set_solver. done.
Qed.

(** The first loop keeps the newest record of each hash. *)
Lemma insert_records_spec records : scan_ok records ->
  forall h r, foldl insert_rebuild_record ∅ records !! h = Some r <-> newest records r /\ rr_hash r = h.
Proof.
  induction records as [|x records IH] using rev_ind; intros Hok h r.
  { cbn. rewrite lookup_empty. split; [done|]. intros [[[]%not_elem_of_nil _] _]. }
  pose proof (IH (scan_ok_app _ _ Hok)) as Hrec. clear IH. rewrite foldl_snoc. unfold insert_rebuild_record at 1.
  pose proof (insert_records_some records) as Hsome.
  set (m := foldl insert_rebuild_record ∅ records) in *.
  destruct (decide (h = rr_hash x)) as [->|Hne].
  - destruct (m !! rr_hash x) as [e|] eqn:Em.
    + apply Hrec in Em as [He Ehx]. pose proof (so_type _ Hok e x) as Ht. destruct He as [Hin Hnew].
      pose proof (proj1 (Forall_forall _ _) (so_value _ Hok)) as Hv.
      pose proof (should_replace_newer e x (Ht ltac:(set_solver) ltac:(set_solver) Ehx)
        (Hv e ltac:(set_solver)) (Hv x ltac:(set_solver))) as Hrep.
      pose proof (newer_total _ e x Hok ltac:(set_solver) ltac:(set_solver)) as Htot.
      assert (Hex : e <> x) by (intros ->; by apply (scan_ok_fresh _ _ Hok)).
      destruct (should_replace_rebuild_record e x) eqn:Es.
      * rewrite lookup_insert_eq. split.
        -- intros [= <-]. split; [|done]. apply (newest_snoc_same records x e); [done..|]. left. tauto.
        -- intros [Hr Hrx]. apply (newest_snoc_same records x e) in Hr as [[_ ->]|[Hxe _]]; try done.
           exfalso. apply (newer_irrefl e), (newer_trans _ x); tauto.
      * assert (Hxe : newer x e) by (destruct Htot as [|[?%Hrep|]]; done).
        rewrite (proj2 (Hrec _ e)) by done. split.
        -- intros [= <-]. split; [|done]. apply (newest_snoc_same records x e); [done..|]. by right.
        -- intros [Hr Hrx]. apply (newest_snoc_same records x e) in Hr as [[?%Hrep _]|[_ ->]]; done.
    + assert (Hnone : forall y, y ∈ records -> rr_hash y <> rr_hash x).
      { intros y Hy E. destruct (Hsome (rr_hash x)) as [? ?]; [by exists y|congruence]. }
      rewrite lookup_insert_eq. split.
      * intros [= <-]. split; [|done]. split; [set_solver|]. intros y [Hy|Hy]%elem_of_app E; [by apply Hnone in E|].
        left. set_solver.
      * intros [[[Hr|Hr]%elem_of_app _] E]; [by apply Hnone in E|]. f_equal. set_solver.
  - assert (Hlook : forall b : bool, (if b then <[rr_hash x := x]> m else m) !! h = m !! h)
      by (intros []; [by rewrite lookup_insert_ne|done]).
    rewrite Hlook, Hrec. split; intros [[Hr Hall] <-]; (split; [|done]).
    + split; [set_solver|]. intros y [Hy|Hy]%elem_of_app E; [by apply Hall|]. set_solver.
    + split; [set_solver|]. intros y Hy E. apply Hall; [set_solver|done].
Qed.

(** ** Replay of deletions *)

Lemma tombstone_type r : rr_type (tombstone r) = rr_type r.
Proof.
  unfold rr_type, tombstone. cbn [rr_type_flags with_type_flags]. unfold rr_type.
  pose proof (b2z_range (rr_type_flags r)) as Hb. rewrite b2z_z2b.
  destruct (rr_type_flags r); vm_compute; reflexivity.
Qed.

Lemma tombstone_idemp r : tombstone (tombstone r) = tombstone r.
Proof. unfold tombstone at 1 3. rewrite tombstone_type. reflexivity. Qed.

(** The effect of one deletion, and of all, on the record of a hash. *)
Definition mark (deletion_order : RebuildOrder) (r : RebuildKvRecord) : RebuildKvRecord :=
  if is_after deletion_order (rr_order r) then tombstone r else r.

Lemma mark_lookup key order records h :
  mark_rebuild_record_deleted_if_older key order records !! h
  = if decide (h = key) then mark order <$> records !! h else records !! h.
Proof.
  unfold mark_rebuild_record_deleted_if_older. destruct (decide (h = key)) as [->|Hne].
  - by rewrite lookup_alter_eq.
  - by rewrite lookup_alter_ne.
Qed.

Section Replay.
Context `{Blake3, KeyOrder}.

Lemma mark_keys_lookup keys order records h :
  foldl (fun m key => mark_rebuild_record_deleted_if_older key order m) records keys !! h
  = if decide (h ∈ keys) then mark order <$> records !! h else records !! h.
Proof.
  assert (Hidem : forall r, mark order (mark order r) = mark order r).
  { intros r. unfold mark. destruct (is_after order (rr_order r)) eqn:E; cbn; rewrite E; [apply tombstone_idemp|done]. }
  revert records. induction keys as [|key keys IH]; intros records; cbn [foldl]; [by rewrite decide_False by set_solver|].
  rewrite IH, mark_lookup. destruct (decide (h = key)) as [->|Hne].
  - rewrite (decide_True (P := key ∈ key :: keys)) by set_solver. case_decide; [|done].
    destruct (records !! key); cbn; [by rewrite Hidem|done].
  - destruct (decide (h ∈ keys)); [rewrite decide_True by set_solver|rewrite decide_False by set_solver]; done.
Qed.

Lemma replay_spec deletions : forall records,
  (forall h r, records !! h = Some r -> rr_hash r = h) ->
  exists records', replay_deletion_records_on_rebuild_records records Blake3_256 deletions = Ok records'
    /\ forall h, records' !! h = (fun r => if deleted_by deletions r then tombstone r else r) <$> records !! h.
Proof.
  induction deletions as [|[path order] deletions IH]; intros records Hkey.
  { exists records. split; [done|]. intros h. unfold deleted_by. cbn [existsb]. by destruct (records !! h). }
  set (records1 := foldl (fun m key => mark_rebuild_record_deleted_if_older key order m) records (deletion_keys path)).
  assert (Hkey1 : forall h r, records1 !! h = Some r -> rr_hash r = h).
  { intros h r. unfold records1. rewrite mark_keys_lookup. case_decide; [|apply Hkey].
    intros (r0 & Hr0%Hkey & ->)%fmap_Some. unfold mark. by case_match. }
  destruct (IH records1 Hkey1) as (records' & E & Hlook). exists records'. split; [exact E|].
  intros h. rewrite Hlook. unfold records1. rewrite mark_keys_lookup.
  destruct (records !! h) as [r|] eqn:Er; [|by case_decide]. apply Hkey in Er as <-. cbn [fmap option_fmap option_map].
  unfold deleted_by at 2. cbn [existsb fst snd]. fold (deleted_by deletions r).
  destruct (decide (rr_hash r ∈ deletion_keys path)) as [Hin|Hout].
  - rewrite bool_decide_true by done. cbn [andb fmap option_fmap option_map]. f_equal. unfold mark.
    destruct (is_after order (rr_order r)); cbn [orb]; [|done].
    destruct (deleted_by deletions (tombstone r)); [apply tombstone_idemp|done].
  - rewrite bool_decide_false by done. done.
Qed.

(** C17. Rebuilding the index keeps, for every hash the scan found, exactly its newest
    record: by children for directories, then by timestamp, then by offset.  The record
    is a tombstone if and only if a deletion record of one of its paths is newer.  The
    result does not depend on the order of the scan. *)
Theorem rebuild_keeps_newest records deletions : scan_ok records ->
  exists entries, resolve_rebuild_records records Blake3_256 deletions = Ok entries
    /\ NoDup (kv_hash <$> entries)
    /\ forall e, e ∈ entries <-> exists r, newest records r
         /\ e = to_kv_entry (if deleted_by deletions r then tombstone r else r).
Proof.
  intros Hok. pose proof (insert_records_spec records Hok) as Hspec.
  destruct (replay_spec deletions (foldl insert_rebuild_record ∅ records)) as (m & E & Hlook).
  { intros h r Hr. by apply Hspec in Hr as [_ ?]. }
  unfold resolve_rebuild_records. rewrite E, bind_ret. eexists. split; [done|].
  assert (Hhash : forall h r, m !! h = Some r -> rr_hash r = h).
  { intros h r. rewrite Hlook. intros (r0 & [_ <-]%Hspec & ->)%fmap_Some. by case_match. }
  pose proof (keys_iter_perm m) as Hperm. split.
  - rewrite <- list_fmap_compose. set (keys := keys_iter m) in *.
    assert (Hkeys : (kv_hash ∘ to_kv_entry) <$> omap (fun k => m !! k) keys = keys).
    { assert (Hall : Forall (fun k => is_Some (m !! k)) keys).
      { rewrite Hperm. apply Forall_forall. intros k ([k' r] & -> & Hk)%list_elem_of_fmap.
        apply elem_of_map_to_list in Hk. cbn. by rewrite Hk. }
      clear Hperm. induction Hall as [|k keys [r Hr] _ IH]; [done|]. cbn. rewrite Hr. cbn. f_equal; [|exact IH].
      by apply Hhash. }
    rewrite Hkeys, Hperm. apply NoDup_fst_map_to_list.
  - intros e. rewrite list_elem_of_fmap. split.
    + intros (r & -> & (k & Hk & Hr)%list_elem_of_omap). rewrite Hlook in Hr.
      apply fmap_Some in Hr as (r0 & Hr0 & ->). apply Hspec in Hr0 as [Hr0 _]. by exists r0.
    + intros (r & Hr & ->). eexists. split; [done|]. apply list_elem_of_omap. exists (rr_hash r).
      assert (Hm : m !! rr_hash r = Some (if deleted_by deletions r then tombstone r else r)).
      { rewrite Hlook, (proj2 (Hspec (rr_hash r) r)) by done. done. }
      split; [|done]. rewrite Hperm. apply list_elem_of_fmap. eexists (_, _). split; [|by apply elem_of_map_to_list]. done.
Qed.
End Replay.

(** ** A concrete rebuild *)

Definition sample_record (hash : byte) (offset timestamp value_length : Z) : RebuildKvRecord :=
  {| rr_type_flags := z2b KV_TYPE_DIRECTORY; rr_hash := replicate 32 hash; rr_offset := offset;
     rr_value_length := value_length; rr_total_length := 100; rr_order := {| ro_timestamp := timestamp; ro_offset := offset |} |}.

(** A newer record written over reclaimed space, before the older one in the file, and
    an empty directory record that does not replace the one with children. *)
Definition sample_records : list RebuildKvRecord :=
  [sample_record Byte.x01 600 20 8; sample_record Byte.x01 700 10 8; sample_record Byte.x01 800 30 0].

Lemma sample_records_ok : scan_ok sample_records.
Proof.
  split.
  - repeat constructor; done.
  - intros r r' Hr Hr' _. unfold sample_records in *. set_unfold.
    destruct_or!; by subst.
  - repeat constructor.
  - vm_compute. repeat (constructor; [set_solver|]). constructor.
Qed.

Lemma rebuild_keeps_newest_witness :
  exists entries, @resolve_rebuild_records blake3_pad map_keys sample_records Blake3_256 [] = Ok entries
    /\ NoDup (kv_hash <$> entries)
    /\ forall e, e ∈ entries <-> exists r, newest sample_records r
         /\ e = to_kv_entry (if @deleted_by blake3_pad [] r then tombstone r else r).
Proof. exact (@rebuild_keeps_newest blake3_pad map_keys sample_records [] sample_records_ok). Defined.

Example sample_rebuild :
  @resolve_rebuild_records blake3_pad map_keys sample_records Blake3_256 []
  = Ok [to_kv_entry (sample_record Byte.x01 600 20 8)].
Proof. vm_compute. reflexivity. Qed.
