(* ===== verification/TreeDiff.v ===== *)
(** The tree of a version and the difference of two trees
    (src/aeordb-lib/src/engine/tree_walker.rs, lines 11-34 and 201-318).  The maps
    are keyed by path; the order in which a [HashMap]'s keys are visited is not
    specified and is the class [KeyOrder]. *)
From S2P Require Import Prelude EntryFormat Records.

Record VersionTree := {
  vt_files : gmap bytes (bytes * FileRecord);
  vt_directories : gmap bytes (bytes * bytes);
  vt_chunks : gset bytes;
  vt_symlinks : gmap bytes (bytes * SymlinkRecord);
}.

Definition VersionTree_new : VersionTree :=
  {| vt_files := ∅; vt_directories := ∅; vt_chunks := ∅; vt_symlinks := ∅ |}.

Record TreeDiff := {
  td_added : gmap bytes (bytes * FileRecord);
  td_modified : gmap bytes (bytes * FileRecord);
  td_deleted : list bytes;
  td_new_chunks : gset bytes;
  td_changed_directories : gmap bytes (bytes * bytes);
  td_symlinks_added : gmap bytes (bytes * SymlinkRecord);
  td_symlinks_modified : gmap bytes (bytes * SymlinkRecord);
  td_symlinks_deleted : list bytes;
}.

Definition TreeDiff_is_empty (d : TreeDiff) : bool :=
  bool_decide (td_added d = ∅) && bool_decide (td_modified d = ∅) && bool_decide (td_deleted d = [])
  && bool_decide (td_symlinks_added d = ∅) && bool_decide (td_symlinks_modified d = ∅)
  && bool_decide (td_symlinks_deleted d = []).

Section Diff.
Context `{KeyOrder}.

(** Entries of [target] without, or with a changed, counterpart in [base]; keys of
    [base] that [target] lacks. *)
Definition diff_added {V} (base target : gmap bytes V) : gmap bytes V :=
  filter (fun kv => base !! kv.1 = None) target.
Definition diff_modified {V} (changed : V -> V -> bool) (base target : gmap bytes V) : gmap bytes V :=
  filter (fun kv => from_option (fun b => changed b kv.2) false (base !! kv.1) = true) target.
Definition diff_deleted {V} (base target : gmap bytes V) : list bytes :=
  filter (fun path => target !! path = None) (keys_iter base).

Definition file_changed (base target : bytes * FileRecord) : bool :=
  negb (bool_decide (fr_chunk_hashes base.2 = fr_chunk_hashes target.2)).
Definition symlink_changed (base target : bytes * SymlinkRecord) : bool :=
  negb (bool_decide (sl_target base.2 = sl_target target.2)).

Definition diff_directories (base target : gmap bytes (bytes * bytes)) : gmap bytes (bytes * bytes) :=
  filter (fun kv => from_option (fun b => negb (bool_decide (b.2 = kv.2.2))) true (base !! kv.1) = true) target.

Definition diff_trees (base target : VersionTree) : TreeDiff :=
  {| td_added := diff_added (vt_files base) (vt_files target);
     td_modified := diff_modified file_changed (vt_files base) (vt_files target);
     td_deleted := diff_deleted (vt_files base) (vt_files target);
     td_new_chunks := vt_chunks target ∖ vt_chunks base;
     td_changed_directories := diff_directories (vt_directories base) (vt_directories target);
     td_symlinks_added := diff_added (vt_symlinks base) (vt_symlinks target);
     td_symlinks_modified := diff_modified symlink_changed (vt_symlinks base) (vt_symlinks target);
     td_symlinks_deleted := diff_deleted (vt_symlinks base) (vt_symlinks target) |}.
End Diff.
