(* ===== verification/TreeWalk.v ===== *)
(** Collecting the tree of a version (src/aeordb-lib/src/engine/tree_walker.rs, lines
    41-199): directories, files, symlinks and chunks below a root hash, and the system
    subtrees that replication adds.  The walk reads a fixed engine; its state is the tree
    so far and the set of directory hashes it has visited. *)
From S2P Require Import Prelude Codec EntryFormat Records KvEntry StateM BTreeNode BTree EngineApi Files Directories TreeDiff.

Local Open Scope Z_scope.

Abbreviation WalkState := (VersionTree * gset bytes)%type.

Definition on_tree (f : VersionTree -> VersionTree) : M WalkState unit := modify (fun st => (f st.1, st.2)).

Definition add_directory (path hash data : bytes) (t : VersionTree) : VersionTree :=
  {| vt_files := vt_files t; vt_directories := <[path := (hash, data)]> (vt_directories t); vt_chunks := vt_chunks t; vt_symlinks := vt_symlinks t |}.
Definition add_file (path hash : bytes) (r : FileRecord) (t : VersionTree) : VersionTree :=
  {| vt_files := <[path := (hash, r)]> (vt_files t); vt_directories := vt_directories t; vt_chunks := list_to_set (fr_chunk_hashes r) ∪ vt_chunks t;
     vt_symlinks := vt_symlinks t |}.
Definition add_symlink (path hash : bytes) (r : SymlinkRecord) (t : VersionTree) : VersionTree :=
  {| vt_files := vt_files t; vt_directories := vt_directories t; vt_chunks := vt_chunks t; vt_symlinks := <[path := (hash, r)]> (vt_symlinks t) |}.

Section TreeWalk.
Context `{Blake3} {E : Type} `{!Engine E} (s : E) (fuel : nat).

Abbreviation hash_length := (hash_length (e_hash_algo s)).
#[local] Instance walk_nodes : NodeStore E := engine_nodes 0.

(** A read of the engine. *)
Definition observe {S A} (m : M E A) : M S A := fun st => match m s with Some (r, _) => Some (r, st) | None => None end.

Definition tree_children (dir_data : bytes) : M WalkState (list ChildEntry) :=
  if is_btree_format dir_data then observe (btree_list_from_node hash_length fuel dir_data true)
  else lift (deserialize_child_entries dir_data hash_length 0).

Definition walk_file (hash path : bytes) : M WalkState unit :=
  o ← lift (e_get_entry_including_deleted s hash);
  match o with
  | Some (header, _, value) =>
    file_record ← lift (FileRecord_deserialize value hash_length (b2z (eh_entry_version header)));
    on_tree (add_file path hash file_record)
  | None => mret tt
  end.

Definition walk_symlink (hash path : bytes) : M WalkState unit :=
  o ← lift (e_get_entry_including_deleted s hash);
  match o with
  | Some (header, _, value) =>
    symlink_record ← lift (SymlinkRecord_deserialize value (b2z (eh_entry_version header)));
    on_tree (add_symlink path hash symlink_record)
  | None => mret tt
  end.

(** A unit of [depth] per level. *)
Fixpoint walk_directory (depth : nat) (dir_hash current_path : bytes) : M WalkState unit :=
  match depth with
  | O => fun _ => None
  | S depth =>
    visited ← gets snd;
    if bool_decide (dir_hash ∈ visited) then mret tt else
    modify (fun st => (st.1, {[dir_hash]} ∪ st.2)) ;;
    o ← lift (e_get_entry_including_deleted s dir_hash);
    match o with
    | None => mret tt
    | Some (_, _, dir_data) =>
      on_tree (add_directory current_path dir_hash dir_data) ;;
      if bool_decide (dir_data = []) then mret tt else
      children ← tree_children dir_data;
      for_each children (fun child =>
        let path := child_path current_path (ce_name child) in
        child_entry_type ← lift (EntryType_from_u8 (b2z (ce_entry_type child)));
        match child_entry_type with
        | DirectoryIndex => walk_directory depth (ce_hash child) path
        | FileRecordEntry => walk_file (ce_hash child) path
        | Symlink => walk_symlink (ce_hash child) path
        | _ => mret tt
        end)
    end
  end.

Definition tree_of (m : option (res unit * WalkState)) : option (res VersionTree) :=
  match m with
  | Some (Ok _, st) => Some (Ok st.1)
  | Some (Err e, _) => Some (Err e)
  | Some (Panic, _) => Some Panic
  | None => None
  end.

Definition walk_version_tree (depth : nat) (root_hash : bytes) : option (res VersionTree) :=
  tree_of (walk_directory depth root_hash (lit "/") (VersionTree_new, ∅)).

(** A visited set of its own; the tree it has built stays when it fails. *)
Definition walk_subtree (depth : nat) (start_path start_dir_hash : bytes) : M VersionTree unit := fun tree =>
  match walk_directory depth start_dir_hash start_path (tree, ∅) with
  | Some (r, st) => Some (r, st.1)
  | None => None
  end.

(** ** System subtrees *)

Definition SYSTEM_DIRS : list bytes :=
  [lit "/.aeordb-system/users"; lit "/.aeordb-system/groups"; lit "/.aeordb-system/snapshots"; lit "/.aeordb-system/config"; lit "/.aeordb-config"].
Definition SYSTEM_FILES : list bytes := [lit "/.aeordb-system/email-config.json"].

(** [match .. { Ok(x) => x, Err(_) => continue }]. *)
Definition or_skip {A} (r : res A) (k : A -> M VersionTree unit) : M VersionTree unit :=
  match r with Ok a => k a | Err _ => mret tt | Panic => lift Panic end.

Definition add_system_dir (depth : nat) (sys_path : bytes) : M VersionTree unit :=
  let algo := e_hash_algo s in
  or_skip (directory_path_hash sys_path algo) (fun key =>
  or_skip (e_get_entry_including_deleted s key) (fun o =>
  match o with
  | None => mret tt
  | Some (_, _, raw_value) =>
    or_skip (if zlen raw_value =? hash_length then Ok raw_value else compute_hash algo raw_value) (fun sys_dir_hash =>
    modify (add_directory sys_path sys_dir_hash []) ;;
    ignore_err (walk_subtree depth sys_path sys_dir_hash))
  end)).

Definition add_system_file (file_path : bytes) : M VersionTree unit :=
  let algo := e_hash_algo s in
  or_skip (file_path_hash file_path algo) (fun key =>
  or_skip (e_get_entry_including_deleted s key) (fun o =>
  match o with
  | None => mret tt
  | Some (header, _, raw) =>
    or_skip (FileRecord_deserialize raw hash_length (b2z (eh_entry_version header))) (fun record =>
    or_skip (file_content_hash raw algo) (fun content_hash =>
    modify (fun t => {| vt_files := <[file_path := (content_hash, record)]> (vt_files t); vt_directories := vt_directories t;
                        vt_chunks := vt_chunks t; vt_symlinks := vt_symlinks t |})))
  end)).

Definition augment_with_system_subtrees (depth : nat) : M VersionTree unit :=
  for_each SYSTEM_DIRS (add_system_dir depth) ;;
  for_each SYSTEM_FILES add_system_file.
End TreeWalk.
