(* ===== verification/Merge.v ===== *)
(** The three-way merge of two replicas' changes since a common base
    (src/aeordb-lib/src/engine/merge.rs).  Files and symlinks are merged by the same
    code up to the record type, the test for an identical change, and the version
    kept in a conflict: the class [Mergeable]. *)
From S2P Require Import Prelude Sorted EntryFormat Records TreeDiff.

Local Open Scope Z_scope.

Inductive ConflictType := ConcurrentModify | ModifyDelete | ConcurrentCreate.

Record ConflictVersion := {
  cv_hash : bytes;
  cv_virtual_time : Z;
  cv_node_id : Z;
  cv_size : Z;
  cv_content_type : option bytes;
}.

Record ConflictEntry := {
  cf_path : bytes;
  cf_conflict_type : ConflictType;
  cf_winner : ConflictVersion;
  cf_loser : ConflictVersion;
}.

Inductive MergeOp :=
| AddFile (path file_hash : bytes) (file_record : FileRecord)
| DeleteFile (path : bytes)
| AddSymlink (path symlink_hash : bytes) (symlink_record : SymlinkRecord)
| DeleteSymlink (path : bytes).

Record MergeResult := {
  mr_operations : list MergeOp;
  mr_conflicts : list ConflictEntry;
}.

(** What the two halves of the merge differ in. *)
Class Mergeable (R : Type) := {
  mg_updated_at : R -> Z;
  mg_same : bytes * R -> bytes * R -> bool;
  mg_size : R -> Z;
  mg_content_type : R -> option bytes;
  mg_add : bytes -> bytes -> R -> MergeOp;
  mg_delete : bytes -> MergeOp;
}.

#[export] Instance merge_file : Mergeable FileRecord := {
  mg_updated_at := fr_updated_at;
  mg_same l r := bool_decide (l.1 = r.1);
  mg_size := fr_total_size;
  mg_content_type := fr_content_type;
  mg_add := AddFile;
  mg_delete := DeleteFile;
}.

#[export] Instance merge_symlink : Mergeable SymlinkRecord := {
  mg_updated_at := sl_updated_at;
  mg_same l r := bool_decide (sl_target l.2 = sl_target r.2);
  mg_size _ := 0;
  mg_content_type _ := None;
  mg_add := AddSymlink;
  mg_delete := DeleteSymlink;
}.

(** One replica's changes of one kind: the [added] and [modified] maps and the
    [deleted] list. *)
Record Changes (R : Type) := {
  ch_added : gmap bytes (bytes * R);
  ch_modified : gmap bytes (bytes * R);
  ch_deleted : list bytes;
}.
Arguments ch_added {R} _. Arguments ch_modified {R} _. Arguments ch_deleted {R} _.

Definition file_changes (d : TreeDiff) : Changes FileRecord :=
  {| ch_added := td_added d; ch_modified := td_modified d; ch_deleted := td_deleted d |}.
Definition symlink_changes (d : TreeDiff) : Changes SymlinkRecord :=
  {| ch_added := td_symlinks_added d; ch_modified := td_symlinks_modified d; ch_deleted := td_symlinks_deleted d |}.

Section MergeKind.
Context {R : Type} `{!Mergeable R}.

(** [updated_at.max(0) as u64]. *)
Definition conflict_version (hash : bytes) (record : R) : ConflictVersion :=
  {| cv_hash := hash; cv_virtual_time := Z.max (mg_updated_at record) 0; cv_node_id := 0;
     cv_size := mg_size record; cv_content_type := mg_content_type record |}.

Definition no_version : ConflictVersion :=
  {| cv_hash := []; cv_virtual_time := 0; cv_node_id := 0; cv_size := 0; cv_content_type := None |}.

Record ConflictSide := { cs_hash : bytes; cs_record : R; cs_is_add : bool }.

Definition local_wins (local remote : ConflictSide) : bool :=
  match Z.compare (mg_updated_at (cs_record local)) (mg_updated_at (cs_record remote)) with
  | Gt => true
  | Lt => false
  | Eq => match lex_compare (cs_hash local) (cs_hash remote) with Lt => false | _ => true end
  end.

Definition resolve_file_conflict (path : bytes) (local remote : ConflictSide) : list MergeOp * list ConflictEntry :=
  let wins := local_wins local remote in
  let '(winner, loser) := if wins then (local, remote) else (remote, local) in
  let operations := if negb wins then [mg_add path (cs_hash winner) (cs_record winner)] else [] in
  let conflict_type := if cs_is_add local || cs_is_add remote then ConcurrentCreate else ConcurrentModify in
  (operations,
   [{| cf_path := path; cf_conflict_type := conflict_type;
       cf_winner := conflict_version (cs_hash winner) (cs_record winner);
       cf_loser := conflict_version (cs_hash loser) (cs_record loser) |}]).

Definition make_modify_delete_conflict (path winner_hash : bytes) (winner_record : R) : ConflictEntry :=
  {| cf_path := path; cf_conflict_type := ModifyDelete;
     cf_winner := conflict_version winner_hash winner_record; cf_loser := no_version |}.

Definition all_paths (local_diff remote_diff : Changes R) : list bytes :=
  let paths : gset bytes :=
    dom (ch_added local_diff) ∪ dom (ch_modified local_diff) ∪ list_to_set (ch_deleted local_diff)
    ∪ dom (ch_added remote_diff) ∪ dom (ch_modified remote_diff) ∪ list_to_set (ch_deleted remote_diff) in
  sort_by_key id (elements paths).

(** What one path pushes to [operations] and [conflicts]. *)
Definition merge_path (local_diff remote_diff : Changes R) (path : bytes) : list MergeOp * list ConflictEntry :=
  let local_added := ch_added local_diff !! path in
  let local_modified := ch_modified local_diff !! path in
  let local_deleted := bool_decide (path ∈ ch_deleted local_diff) in
  let remote_added := ch_added remote_diff !! path in
  let remote_modified := ch_modified remote_diff !! path in
  let remote_deleted := bool_decide (path ∈ ch_deleted remote_diff) in
  let local_change := union local_added local_modified in
  let remote_change := union remote_added remote_modified in
  match local_change, local_deleted, remote_change, remote_deleted with
  | None, false, Some (hash, record), false => ([mg_add path hash record], [])
  | Some _, false, None, false => ([], [])
  | Some (local_hash, local_record), false, Some (remote_hash, remote_record), false =>
    if mg_same (local_hash, local_record) (remote_hash, remote_record) then ([], [])
    else resolve_file_conflict path
      {| cs_hash := local_hash; cs_record := local_record; cs_is_add := bool_decide (is_Some local_added) |}
      {| cs_hash := remote_hash; cs_record := remote_record; cs_is_add := bool_decide (is_Some remote_added) |}
  | None, true, Some (hash, record), false =>
    ([mg_add path hash record], [make_modify_delete_conflict path hash record])
  | Some (hash, record), false, None, true => ([], [make_modify_delete_conflict path hash record])
  | None, false, None, true => ([mg_delete path], [])
  | None, true, None, false => ([], [])
  | None, true, None, true => ([], [])
  | _, _, _, _ => ([], [])
  end.

Definition merge_kind (local_diff remote_diff : Changes R) : list MergeOp * list ConflictEntry :=
  let pushed := merge_path local_diff remote_diff <$> all_paths local_diff remote_diff in
  (concat (fst <$> pushed), concat (snd <$> pushed)).
End MergeKind.

Definition merge_files (local_diff remote_diff : TreeDiff) : list MergeOp * list ConflictEntry :=
  merge_kind (file_changes local_diff) (file_changes remote_diff).
Definition merge_symlinks (local_diff remote_diff : TreeDiff) : list MergeOp * list ConflictEntry :=
  merge_kind (symlink_changes local_diff) (symlink_changes remote_diff).

Definition is_delete (op : MergeOp) : bool :=
  match op with DeleteFile _ | DeleteSymlink _ => true | _ => false end.

(** A stable sort by a boolean key is a partition. *)
Definition sort_operations (operations : list MergeOp) : list MergeOp :=
  filter (fun op => is_delete op = false) operations ++ filter (fun op => is_delete op = true) operations.

Definition three_way_merge (local_diff remote_diff : TreeDiff) : MergeResult :=
  let '(file_ops, file_conflicts) := merge_files local_diff remote_diff in
  let '(link_ops, link_conflicts) := merge_symlinks local_diff remote_diff in
  {| mr_operations := sort_operations (file_ops ++ link_ops);
     mr_conflicts := file_conflicts ++ link_conflicts |}.
