(* ===== verification/MergeSpec.v ===== *)
(** What the three-way merge computes: applied to the local replica, its operations
    give at every path the merge of the three versions of that path ([merge3]), so
    two replicas that merge each other's changes converge. *)
From S2P Require Import Prelude Sorted EntryFormat Records TreeDiff Merge.

Local Open Scope Z_scope.

(** ** Replicas *)

(** The files and symlinks of a replica; applying an operation stores or removes an
    entry. *)
Record Replica := {
  rp_files : gmap bytes (bytes * FileRecord);
  rp_symlinks : gmap bytes (bytes * SymlinkRecord);
}.

Definition replica_of (t : VersionTree) : Replica := {| rp_files := vt_files t; rp_symlinks := vt_symlinks t |}.

Definition apply_op (r : Replica) (op : MergeOp) : Replica :=
  match op with
  | AddFile path h rec => {| rp_files := <[path := (h, rec)]> (rp_files r); rp_symlinks := rp_symlinks r |}
  | DeleteFile path => {| rp_files := delete path (rp_files r); rp_symlinks := rp_symlinks r |}
  | AddSymlink path h rec => {| rp_files := rp_files r; rp_symlinks := <[path := (h, rec)]> (rp_symlinks r) |}
  | DeleteSymlink path => {| rp_files := rp_files r; rp_symlinks := delete path (rp_symlinks r) |}
  end.

Definition apply_ops (ops : list MergeOp) (r : Replica) : Replica := foldl apply_op r ops.

(** What an operation does to the entry of a kind at a path, if it concerns it. *)
Class MergeKind (R : Type) `{!Mergeable R} := {
  rp_map : Replica -> gmap bytes (bytes * R);
  op_at : bytes -> MergeOp -> option (option (bytes * R));
  op_at_add : forall p q h r, op_at p (mg_add q h r) = if decide (p = q) then Some (Some (h, r)) else None;
  op_at_delete : forall p q, op_at p (mg_delete q) = if decide (p = q) then Some None else None;
  apply_op_at : forall op r p, rp_map (apply_op r op) !! p = default (rp_map r !! p) (op_at p op);
}.

Ltac apply_op_cases :=
  intros [q h r|q|q h r|q] rp p; simpl; try done; case_decide; subst; simpl;
  by rewrite ?lookup_insert_eq, ?lookup_delete_eq, ?lookup_insert_ne, ?lookup_delete_ne by done.

#[export] Instance files_kind : MergeKind FileRecord.
Proof.
  refine {|
    rp_map := rp_files;
    op_at p op := match op with
      | AddFile q h r => if decide (p = q) then Some (Some (h, r)) else None
      | DeleteFile q => if decide (p = q) then Some None else None
      | _ => None
      end
  |}; [done|done|apply_op_cases].
Defined.

#[export] Instance symlinks_kind : MergeKind SymlinkRecord.
Proof.
  refine {|
    rp_map := rp_symlinks;
    op_at p op := match op with
      | AddSymlink q h r => if decide (p = q) then Some (Some (h, r)) else None
      | DeleteSymlink q => if decide (p = q) then Some None else None
      | _ => None
      end
  |}; [done|done|apply_op_cases].
Defined.

(** ** The reference *)

Section Reference.
Context {R : Type} `{!Mergeable R} (changed : bytes * R -> bytes * R -> bool).

Definition is_change (b : option (bytes * R)) (v : bytes * R) : bool := from_option (fun b => changed b v) true b.

(** The later version wins; a tie goes to the larger hash. *)
Definition wins (x y : bytes * R) : bool :=
  match Z.compare (mg_updated_at x.2) (mg_updated_at y.2) with
  | Gt => true | Lt => false
  | Eq => match lex_compare x.1 y.1 with Lt => false | _ => true end
  end.

(** From the base, the local and the remote version of a path: a change beats no
    change, a change beats a deletion, a deletion beats no change. *)
Definition merge3 (b l r : option (bytes * R)) : option (bytes * R) :=
  match l, r with
  | Some x, Some y =>
    if negb (is_change b y) then Some x else
    if negb (is_change b x) then Some y else
    if mg_same x y then Some x else if wins x y then Some x else Some y
  | Some x, None => if is_change b x then Some x else None
  | None, Some y => if is_change b y then Some y else None
  | None, None => None
  end.
End Reference.

Lemma wins_antisym {R} `{!Mergeable R} (x y : bytes * R) : x.1 <> y.1 -> wins y x = negb (wins x y).
Proof.
  intros Hne. unfold wins. rewrite (Z.compare_antisym (mg_updated_at x.2)), (lex_compare_antisym x.1).
  pose proof (lex_compare_eq x.1 y.1). destruct (_ ?= _), (lex_compare x.1 y.1); simpl; intuition congruence.
Qed.

(** ** Operations at a path *)

Section Kind.
Context {R : Type} `{!Mergeable R, !MergeKind R}.

Lemma apply_ops_at ops : forall r p,
  rp_map (apply_ops ops r) !! p = default (rp_map r !! p) (last (omap (op_at p) ops)).
Proof.
  induction ops as [|op ops IH] using rev_ind; intros r p; [done|].
  unfold apply_ops. rewrite foldl_snoc, omap_app, apply_op_at. fold (apply_ops ops r). rewrite IH. cbn [omap list_omap].
  destruct (op_at p op) as [v|]; [by rewrite last_snoc|by rewrite app_nil_r].
Qed.

Lemma sort_operations_perm ops : sort_operations ops ≡ₚ ops.
Proof.
  unfold sort_operations. induction ops as [|op ops IH]; [done|]. rewrite !filter_cons.
  destruct (is_delete op); simpl; [|by rewrite IH].
  rewrite <- Permutation_middle. by rewrite IH.
Qed.

Lemma merge_path_other (d1 d2 : Changes R) p q : p <> q -> omap (op_at p) (merge_path d1 d2 q).1 = [].
Proof.
  intros Hne. unfold merge_path, resolve_file_conflict.
  repeat case_match; simplify_eq; cbn [fst omap list_omap]; rewrite ?op_at_add, ?op_at_delete, ?decide_False by done; done.
Qed.

Lemma merge_path_short (d1 d2 : Changes R) q : (length (merge_path d1 d2 q).1 <= 1)%nat.
Proof. unfold merge_path, resolve_file_conflict. repeat case_match; simpl; lia. Qed.

Lemma merge_path_none (d1 d2 : Changes R) p : p ∉ all_paths d1 d2 -> merge_path d1 d2 p = ([], []).
Proof.
  unfold all_paths. rewrite (sort_by_key_perm id), elem_of_elements, !not_elem_of_union, !elem_of_list_to_set, !not_elem_of_dom.
  intros (((((E1 & E2) & H1) & E3) & E4) & H2). unfold merge_path. rewrite E1, E2, E3, E4.
  by rewrite !bool_decide_false by done.
Qed.

Lemma NoDup_all_paths (d1 d2 : Changes R) : NoDup (all_paths d1 d2).
Proof. unfold all_paths. rewrite (sort_by_key_perm id). apply NoDup_elements. Qed.

Lemma length_omap_le {A B} (f : A -> option B) (l : list A) : (length (omap f l) <= length l)%nat.
Proof. induction l as [|x l IH]; [done|]. cbn [omap list_omap]. destruct (f x); simpl; lia. Qed.

Lemma omap_concat {A B} (f : A -> option B) (ls : list (list A)) : omap f (concat ls) = concat ((fun l : list A => omap f l : list B) <$> ls).
Proof. induction ls as [|l ls IH]; [done|]. cbn [concat fmap list_fmap]. by rewrite omap_app, IH. Qed.

Lemma concat_only {A} (f : bytes -> list A) p ps : NoDup ps -> (forall q, p <> q -> f q = []) ->
  (p ∉ ps -> f p = []) -> concat (f <$> ps) = f p.
Proof.
  intros Hnd Hother. induction Hnd as [|q ps Hq Hnd IH]; intros Hnot; cbn [concat fmap list_fmap].
  { symmetry. apply Hnot, not_elem_of_nil. }
  destruct (decide (p = q)) as [<-|Hne].
  - rewrite <- (app_nil_r (f p)) at 2. f_equal. clear -Hq Hother. induction ps as [|q ps IH]; [done|].
    cbn [concat fmap list_fmap]. rewrite Hother, IH by set_solver. done.
  - rewrite (Hother q), IH by set_solver. done.
Qed.

(** At a path, a merge of a kind performs what the path's own case pushed. *)
Lemma merge_kind_at (d1 d2 : Changes R) p : omap (op_at p) (merge_kind d1 d2).1 = omap (op_at p) (merge_path d1 d2 p).1.
Proof.
  unfold merge_kind. cbn [fst]. rewrite omap_concat, <- !list_fmap_compose.
  apply (concat_only (fun q => omap (op_at p) (merge_path d1 d2 q).1) p); [apply NoDup_all_paths| |].
  - intros q Hne. by apply merge_path_other.
  - intros Hp. by rewrite merge_path_none.
Qed.

Context (changed : bytes * R -> bytes * R -> bool) `{KeyOrder}.

Definition changes_between (b v : gmap bytes (bytes * R)) : Changes R :=
  {| ch_added := diff_added b v; ch_modified := diff_modified changed b v; ch_deleted := diff_deleted b v |}.

Lemma change_between (b v : gmap bytes (bytes * R)) p :
  diff_added b v !! p ∪ diff_modified changed b v !! p
  = (x ← v !! p; if is_change changed (b !! p) x then Some x else None).
Proof.
  unfold diff_added, diff_modified. rewrite !map_lookup_filter. unfold is_change.
  destruct (v !! p) as [x|]; simpl; [|done]. destruct (b !! p) as [y|]; simpl; [|done].
  destruct (changed y x); done.
Qed.

Lemma deleted_between (b v : gmap bytes (bytes * R)) p : bool_decide (p ∈ diff_deleted b v) = bool_decide (is_Some (b !! p) /\ v !! p = None).
Proof.
  apply bool_decide_ext. unfold diff_deleted. rewrite list_elem_of_filter, keys_iter_perm, list_elem_of_fmap. split.
  - intros (Hv & [q x] & -> & Hin). apply elem_of_map_to_list in Hin. split; [by exists x|done].
  - intros [[x Hx] Hv]. split; [done|]. exists (p, x). split; [done|]. by apply elem_of_map_to_list.
Qed.

(** The effect of a path's case on the local entry is the reference's. *)
Lemma merge_path_merge3 (b l r : gmap bytes (bytes * R)) p :
  default (l !! p) (last (omap (op_at p) (merge_path (changes_between b l) (changes_between b r) p).1))
  = merge3 changed (b !! p) (l !! p) (r !! p).
Proof.
  unfold merge_path, changes_between, resolve_file_conflict. cbn [ch_added ch_modified ch_deleted].
  rewrite !change_between, !deleted_between. unfold merge3, local_wins, wins.
  destruct (l !! p) as [[hx x]|], (r !! p) as [[hy y]|]; cbn [mbind option_bind]; unfold is_change;
    destruct (b !! p) as [z|]; cbn [from_option]; rewrite ?bool_decide_decide; simpl;
    repeat match goal with |- context [changed ?a ?b] => destruct (changed a b) end; simpl;
    repeat case_match; simplify_eq; simpl; try done;
    first [ by rewrite op_at_add, decide_True by done
          | match goal with H : op_at _ _ = _ |- _ => rewrite ?op_at_add, ?op_at_delete, decide_True in H by done; by simplify_eq end ].
Qed.

(** ** Symmetry *)

(** Swapping the sides swaps nothing of the content, when an identical change has
    the same content and different changes have different hashes. *)
Lemma merge3_sym {C} (content : R -> C) b l r :
  (forall x y, changed x y = false -> content x.2 = content y.2) ->
  (forall x y, l = Some x -> r = Some y -> mg_same x y = mg_same y x /\
     (if mg_same x y then content x.2 = content y.2 else x.1 <> y.1)) ->
  content ∘ snd <$> merge3 changed b l r = content ∘ snd <$> merge3 changed b r l.
Proof.
  intros Hch Hs. unfold merge3. destruct l as [x|], r as [y|]; try done.
  destruct (Hs x y eq_refl eq_refl) as [<- Hxy].
  destruct (is_change changed b y) eqn:Ey, (is_change changed b x) eqn:Ex; simpl; try done.
  - destruct (mg_same x y); [simpl; by rewrite Hxy|]. rewrite (wins_antisym x y Hxy). by destruct (wins x y).
  - unfold is_change in *. destruct b as [z|]; [|done]. simpl in *. by rewrite <- (Hch _ _ Ex), <- (Hch _ _ Ey).
Qed.
End Kind.

(** ** Theorems *)

Section Theorems.
Context `{KeyOrder}.

Lemma merge_ops_perm d1 d2 : mr_operations (three_way_merge d1 d2) ≡ₚ (merge_files d1 d2).1 ++ (merge_symlinks d1 d2).1.
Proof.
  unfold three_way_merge. destruct (merge_files d1 d2), (merge_symlinks d1 d2). cbn [mr_operations fst].
  apply sort_operations_perm.
Qed.

Lemma perm_short {A} (l k : list A) : l ≡ₚ k -> (length k <= 1)%nat -> l = k.
Proof.
  intros HP Hl. destruct k as [|x [|]]; [by apply Permutation_nil_r in HP|by apply Permutation_singleton_r in HP|].
  simpl in Hl. lia.
Qed.

Lemma merge_from_at {R} `{!Mergeable R, !MergeKind R} (changed : bytes * R -> bytes * R -> bool)
    (ops other : list MergeOp) (b l r : gmap bytes (bytes * R)) (rp : Replica) (p : bytes) :
  ops ≡ₚ (merge_kind (changes_between changed b l) (changes_between changed b r)).1 ++ other ->
  omap (op_at p) other = [] -> rp_map rp = l ->
  rp_map (apply_ops ops rp) !! p = merge3 changed (b !! p) (l !! p) (r !! p).
Proof.
  intros HP Ho <-. rewrite apply_ops_at, <- (merge_path_merge3 changed b _ r p). do 2 f_equal.
  apply perm_short.
  - rewrite HP, omap_app, Ho, app_nil_r. by rewrite merge_kind_at.
  - pose proof (merge_path_short (changes_between changed b (rp_map rp)) (changes_between changed b r) p).
    pose proof (length_omap_le (op_at p) (merge_path (changes_between changed b (rp_map rp)) (changes_between changed b r) p).1). lia.
Qed.

Lemma other_kind_nil {R R'} `{!Mergeable R, !Mergeable R', !MergeKind R'} (d1 d2 : Changes R) p :
  (forall q h r, op_at (R := R') p (mg_add (R := R) q h r) = None) -> (forall q, op_at (R := R') p (mg_delete (R := R) q) = None) ->
  omap (op_at (R := R') p) (merge_kind d1 d2).1 = [].
Proof.
  intros Ha Hd. unfold merge_kind. cbn [fst]. induction (all_paths d1 d2) as [|q ps IH]; [done|].
  cbn [fmap list_fmap concat]. rewrite omap_app, IH, app_nil_r. unfold merge_path, resolve_file_conflict.
  repeat case_match; simplify_eq; cbn [fst omap list_omap]; rewrite ?Ha, ?Hd; done.
Qed.

(** Applied to the local replica, the operations of the merge leave at every path
    the merge of its three versions. *)
Lemma merge_applied base local remote p :
  let rp := apply_ops (mr_operations (three_way_merge (diff_trees base local) (diff_trees base remote))) (replica_of local) in
  rp_files rp !! p = merge3 file_changed (vt_files base !! p) (vt_files local !! p) (vt_files remote !! p) /\
  rp_symlinks rp !! p = merge3 symlink_changed (vt_symlinks base !! p) (vt_symlinks local !! p) (vt_symlinks remote !! p).
Proof.
  intros rp. pose proof (merge_ops_perm (diff_trees base local) (diff_trees base remote)) as HP. split.
  - change (rp_files rp) with (rp_map (R := FileRecord) rp).
    apply (merge_from_at file_changed _ _ (vt_files base) (vt_files local) (vt_files remote) (replica_of local) p HP); [|done]. by apply (other_kind_nil (R := SymlinkRecord)).
  - change (rp_symlinks rp) with (rp_map (R := SymlinkRecord) rp). rewrite Permutation_app_comm in HP.
    apply (merge_from_at symlink_changed _ _ (vt_symlinks base) (vt_symlinks local) (vt_symlinks remote) (replica_of local) p HP); [|done].
    by apply (other_kind_nil (R := FileRecord)).
Qed.

(** Conflicts of a kind are the same from both sides. *)
Lemma all_paths_sym {R} `{!Mergeable R} (d1 d2 : Changes R) : all_paths d1 d2 = all_paths d2 d1.
Proof. unfold all_paths. do 2 f_equal. set_solver. Qed.

Lemma resolve_sym {R} `{!Mergeable R} p (s1 s2 : ConflictSide (R := R)) : cs_hash s1 <> cs_hash s2 ->
  (resolve_file_conflict p s1 s2).2 = (resolve_file_conflict p s2 s1).2.
Proof.
  intros Hne. unfold resolve_file_conflict. pose proof (wins_antisym (cs_hash s1, cs_record s1) (cs_hash s2, cs_record s2) Hne) as Hw.
  change (wins (cs_hash s2, cs_record s2) (cs_hash s1, cs_record s1)) with (local_wins s2 s1) in Hw.
  change (wins (cs_hash s1, cs_record s1) (cs_hash s2, cs_record s2)) with (local_wins s1 s2) in Hw.
  rewrite Hw, (orb_comm (cs_is_add s2)). by destruct (local_wins s1 s2).
Qed.

Lemma conflict_sym {R} `{!Mergeable R} (d1 d2 : Changes R) p :
  (forall x y : bytes * R, mg_same x y = mg_same y x) ->
  (forall x y, ch_added d1 !! p ∪ ch_modified d1 !! p = Some x -> ch_added d2 !! p ∪ ch_modified d2 !! p = Some y ->
     mg_same x y = false -> x.1 <> y.1) ->
  (merge_path d1 d2 p).2 = (merge_path d2 d1 p).2.
Proof.
  intros Hsym Hne. unfold merge_path. destruct (_ ∪ _) as [[hx x]|] eqn:E1, (ch_added d2 !! p ∪ _) as [[hy y]|] eqn:E2;
    destruct (bool_decide (p ∈ ch_deleted d1)), (bool_decide (p ∈ ch_deleted d2)); try done.
  rewrite (Hsym (hy, y)). destruct (mg_same (hx, x) (hy, y)) eqn:Es; [done|].
  apply resolve_sym. by apply (Hne (hx, x) (hy, y)).
Qed.

Lemma merge_kind_sym {R} `{!Mergeable R} (d1 d2 : Changes R) :
  (forall x y : bytes * R, mg_same x y = mg_same y x) ->
  (forall p x y, ch_added d1 !! p ∪ ch_modified d1 !! p = Some x -> ch_added d2 !! p ∪ ch_modified d2 !! p = Some y ->
     mg_same x y = false -> x.1 <> y.1) ->
  (merge_kind d1 d2).2 = (merge_kind d2 d1).2.
Proof.
  intros Hsym Hne. unfold merge_kind. cbn [snd]. rewrite (all_paths_sym d2 d1), <- !list_fmap_compose.
  f_equal. apply list_fmap_ext. intros _ p _. apply conflict_sym; [done|apply Hne].
Qed.

Lemma file_same_sym (x y : bytes * FileRecord) : mg_same x y = mg_same y x.
Proof. apply bool_decide_ext. naive_solver. Qed.

Lemma symlink_same_sym (x y : bytes * SymlinkRecord) : mg_same x y = mg_same y x.
Proof. apply bool_decide_ext. naive_solver. Qed.

(** A hash identifies the content it was computed from, among the versions of a
    path that two trees hold. *)
Record hashes_sound (t1 t2 : VersionTree) : Prop := {
  hs_files : forall p x y, vt_files t1 !! p = Some x -> vt_files t2 !! p = Some y -> x.1 = y.1 ->
    fr_chunk_hashes x.2 = fr_chunk_hashes y.2;
  hs_symlinks : forall p x y, vt_symlinks t1 !! p = Some x -> vt_symlinks t2 !! p = Some y -> x.1 = y.1 ->
    sl_target x.2 = sl_target y.2;
}.



(** Both sides record the same conflicts, with the same winners and losers, for any
    two diffs in which different symlink targets have different hashes. *)
Theorem merge_conflicts_commute d1 d2 :
  (forall p x y, td_symlinks_added d1 !! p ∪ td_symlinks_modified d1 !! p = Some x ->
     td_symlinks_added d2 !! p ∪ td_symlinks_modified d2 !! p = Some y -> sl_target x.2 <> sl_target y.2 -> x.1 <> y.1) ->
  mr_conflicts (three_way_merge d1 d2) = mr_conflicts (three_way_merge d2 d1).
Proof.
  intros Hne. unfold three_way_merge.
  assert (Hf : (merge_files d1 d2).2 = (merge_files d2 d1).2).
  { apply merge_kind_sym; [apply file_same_sym|]. intros p x y _ _ Hs. by apply bool_decide_eq_false in Hs. }
  assert (Hl : (merge_symlinks d1 d2).2 = (merge_symlinks d2 d1).2).
  { apply merge_kind_sym; [apply symlink_same_sym|]. intros p x y Hx Hy Hs. apply bool_decide_eq_false in Hs. by apply (Hne p). }
  destruct (merge_files d1 d2), (merge_files d2 d1), (merge_symlinks d1 d2), (merge_symlinks d2 d1). simpl in *. by subst.
Qed.
End Theorems.

(** ** Witnesses *)

Definition sample_file (path : string) (updated_at : Z) (chunk : byte) : bytes * FileRecord :=
  ([chunk], {| fr_path := lit path; fr_content_type := None; fr_total_size := 1; fr_created_at := 0;
     fr_updated_at := updated_at; fr_metadata := []; fr_content_hash := []; fr_chunk_hashes := [[chunk]] |}).

Definition sample_link (path target : string) (updated_at : Z) : bytes * SymlinkRecord :=
  (lit target, {| sl_path := lit path; sl_target := lit target; sl_created_at := 0; sl_updated_at := updated_at |}).

Definition sample_tree (files : list (string * (bytes * FileRecord))) (links : list (string * (bytes * SymlinkRecord))) : VersionTree :=
  {| vt_files := list_to_map ((fun x => (lit x.1, x.2)) <$> files); vt_directories := ∅; vt_chunks := ∅;
     vt_symlinks := list_to_map ((fun x => (lit x.1, x.2)) <$> links) |}.

(** Both sides change /a and retarget /l, the first deletes /b, the second changes it. *)
Definition base_tree : VersionTree :=
  sample_tree [("/a", sample_file "/a" 1 Byte.x01); ("/b", sample_file "/b" 1 Byte.x02)] [("/l", sample_link "/l" "/a" 1)].
Definition first_tree : VersionTree :=
  sample_tree [("/a", sample_file "/a" 5 Byte.x03)] [("/l", sample_link "/l" "/b" 3)].
Definition second_tree : VersionTree :=
  sample_tree [("/a", sample_file "/a" 5 Byte.x04); ("/b", sample_file "/b" 2 Byte.x05)] [("/l", sample_link "/l" "/c" 2)].

Lemma sample_hashes : hashes_sound first_tree second_tree.
Proof.
  split; intros p x y Hx Hy; apply elem_of_list_to_map_2 in Hx, Hy; simpl in Hx, Hy;
    repeat match goal with H : _ ∈ _ :: _ |- _ => apply elem_of_cons in H as [H|H] | H : _ ∈ [] |- _ => by apply not_elem_of_nil in H end;
    simplify_eq; simpl; intros; by simplify_eq.
Qed.


Lemma merge_conflicts_commute_witness :
  let d1 := @diff_trees map_keys base_tree first_tree in let d2 := @diff_trees map_keys base_tree second_tree in
  mr_conflicts (three_way_merge d1 d2) = mr_conflicts (three_way_merge d2 d1) /\
  cv_hash ∘ cf_winner <$> mr_conflicts (three_way_merge d1 d2) = [[Byte.x04]; [Byte.x05]; lit "/b"].
Proof.
  split; [|by vm_compute]. apply merge_conflicts_commute. intros p x y Hx Hy Hne Hh. apply Hne.
  assert (Hd : forall v q z, td_symlinks_added (@diff_trees map_keys base_tree v) !! q
    ∪ td_symlinks_modified (@diff_trees map_keys base_tree v) !! q = Some z -> vt_symlinks v !! q = Some z).
  { intros v q z. simpl. rewrite change_between. destruct (vt_symlinks v !! q); simpl; [|done]. by case_match. }
  by eapply (hs_symlinks _ _ sample_hashes p); [apply Hd..|].
Defined.
