(* ===== verification/MergePatch.v ===== *)
(** JSON Merge Patch with an optional depth bound
    (src/aeordb-lib/src/engine/merge_patch.rs), and its equivalence with the
    algorithm of RFC 7396.  An object is a finite map: its keys are distinct and
    the patch's keys are applied independently. *)
From S2P Require Import Prelude.

Local Open Scope Z_scope.

(** [serde_json::Value]; a float by its bits. *)
Inductive Number := PosInt (n : Z) | NegInt (n : Z) | Float (bits : Z).

Inductive Value :=
| Null
| Bool (b : bool)
| Num (n : Number)
| Str (s : bytes)
| Array (l : list Value)
| Object (m : gmap bytes Value).

Inductive MergeDepth := Unbounded | FullReplace | ReplaceBeyond (n : Z) | PreserveBeyond (n : Z).

Inductive BeyondPolicy := Replace | Preserve.

Inductive ActiveDepth := ActiveUnbounded | Bounded (levels : Z) (beyond : BeyondPolicy).

Definition descend (d : ActiveDepth) : ActiveDepth :=
  match d with
  | ActiveUnbounded => ActiveUnbounded
  | Bounded levels beyond => Bounded (saturating_sub levels 1) beyond
  end.

Definition allows_merge (d : ActiveDepth) : bool :=
  match d with ActiveUnbounded => true | Bounded levels _ => 0 <? levels end.

Definition beyond (d : ActiveDepth) : BeyondPolicy :=
  match d with ActiveUnbounded => Replace | Bounded _ beyond => beyond end.

(** [as_object] of a value made an object if it is none. *)
Definition object_or_empty (v : Value) : gmap bytes Value :=
  match v with Object m => m | _ => ∅ end.

(** [for (key, patch_value) in patch]. *)
Fixpoint apply_object_merge (patch : Value) (target : gmap bytes Value) (depth : ActiveDepth) : gmap bytes Value :=
  match patch with
  | Object patch =>
    let next_depth := descend depth in
    map_fold (fun key patch_value target =>
      match patch_value with
      | Null => delete key target
      | Object patch_obj =>
        if allows_merge next_depth then
          let sub_target := object_or_empty (default (Object ∅) (target !! key)) in
          <[key := Object (apply_object_merge patch_value sub_target next_depth)]> target
        else match beyond depth with
          | Replace => <[key := patch_value]> target
          | Preserve => target
          end
      | other => <[key := other]> target
      end) target patch
  | _ => target
  end.

Definition apply_merge_patch (target patch : Value) (depth : MergeDepth) : Value :=
  match depth with
  | FullReplace => patch
  | _ =>
    let active := match depth with
      | ReplaceBeyond n => Bounded n Replace
      | PreserveBeyond n => Bounded n Preserve
      | _ => ActiveUnbounded
      end in
    if negb (allows_merge active) then
      match beyond active with Replace => patch | Preserve => target end
    else
      match patch with
      | Object _ => Object (apply_object_merge patch (object_or_empty target) active)
      | other => other
      end
  end.

(** ** The reference *)

(** [MergePatch(Target, Patch)] of RFC 7396, section 2. *)
Fixpoint rfc7396 (patch target : Value) : Value :=
  match patch with
  | Object patch =>
    Object (map_fold (fun name value target =>
      match value with
      | Null => delete name target
      | _ => <[name := rfc7396 value (default Null (target !! name))]> target
      end) (object_or_empty target) patch)
  | _ => patch
  end.

(** Nesting of objects in objects. *)
Fixpoint object_depth (v : Value) : nat :=
  match v with
  | Object m => S (map_fold (fun _ v n => Nat.max (object_depth v) n) 0%nat m)
  | _ => 0
  end.

(** The value at a path of keys. *)
Fixpoint get_path (v : Value) (path : list bytes) : option Value :=
  match path with
  | [] => Some v
  | key :: path => match v with Object m => v ← m !! key; get_path v path | _ => None end
  end.

(** ** One key at a time *)

(** A fold whose steps touch only their own key can be read off key by key. *)
Lemma map_fold_pointwise {V} (step : bytes -> Value -> gmap bytes V -> gmap bytes V)
    (g : Value -> option V -> option V) (patch : gmap bytes Value) (target : gmap bytes V) :
  (forall k v t j, step k v t !! j = if decide (j = k) then g v (t !! k) else t !! j) ->
  forall k, map_fold step target patch !! k = match patch !! k with Some v => g v (target !! k) | None => target !! k end.
Proof.
  intros Hstep. apply (map_fold_weak_ind (fun r m => forall k, r !! k = match m !! k with Some v => g v (target !! k) | None => target !! k end)).
  - intros k. by rewrite lookup_empty.
  - intros i v m r Hi IH k. rewrite Hstep. destruct (decide (k = i)) as [->|Hne].
    + by rewrite lookup_insert_eq, IH, Hi.
    + by rewrite lookup_insert_ne, IH by done.
Qed.

Definition merge_value (depth : ActiveDepth) (patch_value : Value) (old : option Value) : option Value :=
  match patch_value with
  | Null => None
  | Object _ =>
    if allows_merge (descend depth)
    then Some (Object (apply_object_merge patch_value (object_or_empty (default (Object ∅) old)) (descend depth)))
    else match beyond depth with Replace => Some patch_value | Preserve => old end
  | other => Some other
  end.

Ltac by_key := intros ? v ? ?; destruct v; repeat case_match; simplify_eq; case_decide; subst;
  rewrite ?lookup_insert_eq, ?lookup_delete_eq, ?lookup_insert_ne, ?lookup_delete_ne by done; done.

Lemma apply_object_merge_at patch target depth k :
  apply_object_merge (Object patch) target depth !! k
  = match patch !! k with Some v => merge_value depth v (target !! k) | None => target !! k end.
Proof. simpl. apply (map_fold_pointwise _ (merge_value depth)). unfold merge_value. by_key. Qed.

Definition rfc_value (value : Value) (old : option Value) : option Value :=
  match value with Null => None | _ => Some (rfc7396 value (default Null old)) end.

Lemma rfc7396_at patch target k :
  object_or_empty (rfc7396 (Object patch) target) !! k
  = match patch !! k with Some v => rfc_value v (object_or_empty target !! k) | None => object_or_empty target !! k end.
Proof. simpl. apply (map_fold_pointwise _ rfc_value). unfold rfc_value. by_key. Qed.

Lemma object_depth_lookup m k v : m !! k = Some v -> (object_depth v < object_depth (Object m))%nat.
Proof.
  simpl. revert v. apply (map_fold_weak_ind (fun n (m : gmap bytes Value) => forall v, m !! k = Some v -> (object_depth v < S n)%nat)).
  - intros v. by rewrite lookup_empty.
  - intros i x m' r Hi IH v. destruct (decide (i = k)) as [->|Hne].
    + rewrite lookup_insert_eq. intros [= <-]. lia.
    + rewrite lookup_insert_ne by done. intros Hv. specialize (IH _ Hv). lia.
Qed.

Lemma value_ind (P : Value -> Prop) :
  (forall m, (forall k v, m !! k = Some v -> P v) -> P (Object m)) ->
  (forall v, object_depth v = 0%nat -> P v) -> forall v, P v.
Proof.
  intros Hm H0 v. remember (object_depth v) as n eqn:E. revert v E. induction (lt_wf n) as [n _ IH]. intros v ->.
  destruct v; try (by apply H0). apply Hm. intros k v Hv. eapply IH; [by eapply object_depth_lookup|done].
Qed.

(** ** Theorems *)

Lemma saturating_pred n : 1 < n -> saturating_sub n 1 = n - 1.
Proof. unfold saturating_sub. lia. Qed.

(** A depth that does not run out before the patch does. *)
Definition deep_enough (depth : ActiveDepth) (patch : Value) : Prop :=
  match depth with ActiveUnbounded => True | Bounded n _ => Z.of_nat (object_depth patch) <= n end.

Lemma deep_descend depth m k v : deep_enough depth (Object m) -> m !! k = Some v -> deep_enough (descend depth) v.
Proof. destruct depth as [|n p]; [done|]. intros Hd Hv. apply object_depth_lookup in Hv. cbn -[object_depth] in *. unfold saturating_sub. lia. Qed.

Lemma deep_allows depth m : deep_enough depth (Object m) -> allows_merge depth = true.
Proof. destruct depth as [|n p]; [done|]. simpl. intros. apply Z.ltb_lt. lia. Qed.

Lemma apply_object_merge_rfc patch : forall target depth, deep_enough depth patch ->
  match patch with Object _ => Object (apply_object_merge patch (object_or_empty target) depth) | v => v end = rfc7396 patch target.
Proof.
  induction patch as [m IH|v Hv] using value_ind; [|by destruct v].
  intros target depth Hd. cbn [rfc7396]. f_equal. apply map_eq. intros k. rewrite apply_object_merge_at.
  pose proof (rfc7396_at m target k) as Hr. cbn [rfc7396 object_or_empty] in Hr. rewrite Hr.
  destruct (m !! k) as [v|] eqn:E; [|done]. pose proof (deep_descend _ _ _ _ Hd E) as Hd'.
  unfold merge_value, rfc_value. destruct v as [| | | | |m']; try done.
  rewrite (deep_allows _ _ Hd'). f_equal. rewrite <- (IH k _ E _ _ Hd'). by destruct (object_or_empty target !! k).
Qed.

(** C21. Without a depth, and with a positive depth that is at least the nesting of the
    patch, the result is the one RFC 7396 defines. *)
Theorem merge_patch_rfc7396 target patch :
  apply_merge_patch target patch Unbounded = rfc7396 patch target /\
  forall n, 0 < n -> Z.of_nat (object_depth patch) <= n ->
    apply_merge_patch target patch (ReplaceBeyond n) = rfc7396 patch target /\
    apply_merge_patch target patch (PreserveBeyond n) = rfc7396 patch target.
Proof.
  split; [by apply (apply_object_merge_rfc patch target ActiveUnbounded)|].
  intros n Hn Hd. unfold apply_merge_patch. cbn [allows_merge]. rewrite (proj2 (Z.ltb_lt 0 n) Hn).
  split; [apply (apply_object_merge_rfc patch target (Bounded n Replace))|apply (apply_object_merge_rfc patch target (Bounded n Preserve))]; done.
Qed.

(** What an object value of the patch at the boundary leaves there. *)
Definition at_boundary (policy : BeyondPolicy) (patch_value : Value) (old : option Value) : option Value :=
  match policy with Replace => Some patch_value | Preserve => old end.

Lemma boundary_object policy q : forall path n m target, Z.of_nat (length path) = n -> 0 < n ->
  get_path (Object m) path = Some (Object q) ->
  get_path (Object (apply_object_merge (Object m) (object_or_empty target) (Bounded n policy))) path
  = at_boundary policy (Object q) (get_path target path).
Proof.
  induction path as [|key path IH]; intros n m target Hl Hn Hp; [simpl in Hl; lia|].
  cbn [get_path] in Hp |- *. rewrite apply_object_merge_at. destruct (m !! key) as [v|]; [|done]. cbn [mbind option_bind] in Hp.
  assert (Hv : exists m', v = Object m') by (destruct path; [simplify_eq/=; eauto|destruct v; simplify_eq/=; eauto]).
  destruct Hv as [m' ->]. unfold merge_value. cbn [descend allows_merge beyond].
  destruct path as [|key' path].
  - assert (n = 1) as -> by (simpl in Hl; lia). simplify_eq/=. destruct policy; [done|]. by destruct target; simpl; rewrite ?lookup_empty.
  - simpl length in Hl. rewrite (saturating_pred n) by lia. rewrite (proj2 (Z.ltb_lt 0 _)) by lia.
    cbn [mbind option_bind]. rewrite (IH (n - 1) m' _) by (simpl; lia || done).
    f_equal. destruct target as [| | | | |t]; cbn [object_or_empty]; rewrite ?lookup_empty; try done.
    by destruct (t !! key).
Qed.

(** A bounded merge at its boundary: where the patch has an object at a path as
    long as the bound, Replace puts the patch's object there and Preserve leaves
    what the target had there, also when it had nothing. *)
Theorem merge_patch_boundary target patch path q n :
  Z.of_nat (length path) = n -> 0 < n -> get_path patch path = Some (Object q) ->
  get_path (apply_merge_patch target patch (ReplaceBeyond n)) path = Some (Object q) /\
  get_path (apply_merge_patch target patch (PreserveBeyond n)) path = get_path target path.
Proof.
  intros Hl Hn Hp. assert (Hm : exists m, patch = Object m).
  { destruct path; [simpl in Hl; lia|]. destruct patch; simplify_eq/=. eauto. }
  destruct Hm as [m ->]. unfold apply_merge_patch. cbn [allows_merge]. rewrite (proj2 (Z.ltb_lt 0 n) Hn). cbn [negb].
  by rewrite !(boundary_object _ q _ n).
Qed.

Lemma apply_object_merge_idem patch : forall target depth,
  apply_object_merge patch (apply_object_merge patch target depth) depth = apply_object_merge patch target depth.
Proof.
  induction patch as [m IH|v Hv] using value_ind; [|by destruct v]. intros target depth. apply map_eq. intros k.
  rewrite !apply_object_merge_at. destruct (m !! k) as [v|] eqn:E; [|done].
  unfold merge_value. destruct v as [| | | | |m']; try done.
  destruct (allows_merge _); [|by destruct (beyond depth)]. cbn [default object_or_empty]. do 2 f_equal. by apply (IH k).
Qed.

(** Applying a patch a second time changes nothing, at any depth. *)
Theorem merge_patch_idempotent target patch depth :
  apply_merge_patch (apply_merge_patch target patch depth) patch depth = apply_merge_patch target patch depth.
Proof.
  unfold apply_merge_patch. destruct depth as [| |n|n]; try done; cbn [allows_merge];
    [|destruct (negb _); [done|]..]; destruct patch; try done; cbn [object_or_empty]; f_equal; apply apply_object_merge_idem.
Qed.

(** ** Witnesses *)

Definition obj (l : list (string * Value)) : Value := Object (list_to_map ((fun kv => (lit kv.1, kv.2)) <$> l)).
Definition num (n : Z) : Value := Num (PosInt n).

(** The example of RFC 7396, section 1. *)
Example merge_patch_example :
  apply_merge_patch (obj [("a", Str (lit "b")); ("c", obj [("d", Str (lit "e")); ("f", Str (lit "g"))])])
    (obj [("a", Str (lit "z")); ("c", obj [("f", Null)])]) Unbounded
  = obj [("a", Str (lit "z")); ("c", obj [("d", Str (lit "e"))])].
Proof. by vm_compute. Qed.

Lemma merge_patch_boundary_witness :
  let target := obj [("a", obj [("x", num 1)]); ("b", num 2)] in
  let patch := obj [("a", obj [("y", num 3)]); ("b", Null)] in
  get_path (apply_merge_patch target patch (ReplaceBeyond 1)) [lit "a"] = Some (obj [("y", num 3)]) /\
  get_path (apply_merge_patch target patch (PreserveBeyond 1)) [lit "a"] = Some (obj [("x", num 1)]).
Proof.
  intros target patch.
  apply (merge_patch_boundary target patch [lit "a"] _ 1); [done|done|by vm_compute].
Defined.

Lemma merge_patch_rfc7396_witness :
  apply_merge_patch (obj [("a", num 1)]) (obj [("a", obj [("b", num 2)])]) (ReplaceBeyond 2)
  = rfc7396 (obj [("a", obj [("b", num 2)])]) (obj [("a", num 1)]).
Proof. apply merge_patch_rfc7396; [done|by vm_compute]. Defined.
