(* ===== verification/FileOps.v ===== *)
(** Operations on files and symlinks (src/aeordb-lib/src/engine/directory_ops.rs): a file
    is stored as chunks, a record under three keys, and a child of its directory;
    deleting leaves a deletion record, renaming and copying reuse the chunks.

    A transaction guard covers each operation ([in_transaction]).  Events, counters,
    metrics and memory samples are left out, and the namespace lock makes an operation
    a function on the engine. *)
From S2P Require Import Prelude Sorted Codec EntryFormat Records KvEntry AppendWriter StateM BTreeNode BTree StorageEngine EngineApi Paths EngineChunks Files Directories Versions MergePatch.

Local Open Scope Z_scope.

(** [chrono]'s "%Y-%m-%d %H:%M:%S.%3f" of a time in milliseconds. *)
Class ChronoFormat := format_date : Z -> bytes.

Definition OCTET_STREAM : bytes := lit "application/octet-stream".
Definition AUTO_SNAPSHOT_THROTTLE_MS : Z := 60000.

Section FileOps.
Context `{Blake3, ZstdDecode, ZstdEncode, MediaType, MetadataJson, LifecycleJson, ChronoFormat} {E : Type} `{!Engine E}.
Context (fuel : nat) (now : Z).

Definition at_root {A} : M E A := lift (Err (InvalidInput "Cannot store at root path")).

(** ** Storing *)

Definition store_published (input : FileRecordPublishInput) : M E FileRecord :=
  published ← publish_file_record_entries now input;
  update_parent_directories fuel now (pr_normalized_path published) (pr_child_entry published) ;;
  mret (pr_file_record published).

(** The chunks first, outside the transaction. *)
Definition store_file_internal (path data : bytes) (content_type : option bytes) (compression_algo : CompressionAlgorithm)
    : M E FileRecord :=
  let normalized := normalize_path path in
  if bool_decide (normalized = lit "/") then at_root else
  s ← gets id;
  let algo := e_hash_algo s in
  let sys_flags := sys_flags_of normalized in
  let detected_content_type := detect_content_type data content_type in
  chunk_hashes ← store_data_chunks (S (Z.to_nat (zlen data))) now data 0 sys_flags compression_algo [];
  in_transaction (
    content_hash ← lift (whole_file_content_hash data algo);
    store_published {|
      pi_normalized_path := normalized; pi_content_type := Some detected_content_type; pi_total_size := zlen data;
      pi_chunk_hashes := chunk_hashes; pi_content_hash := content_hash; pi_flags := sys_flags;
      pi_created_at_override := None; pi_prefer_existing_created_at := true |}).

Definition store_file_buffered (path data : bytes) (content_type : option bytes) : M E FileRecord :=
  store_file_internal path data content_type NoCompression.

Definition store_file_compressed (path data : bytes) (content_type : option bytes) (compression_algo : CompressionAlgorithm)
    : M E FileRecord :=
  store_file_internal path data content_type compression_algo.

(** The record over chunks that are already stored. *)
Definition finalize_file_with_content_hash (path : bytes) (chunk_hashes : list bytes) (total_size : Z) (content_type : option bytes)
    (first_bytes content_hash : bytes) : M E FileRecord :=
  let normalized := normalize_path path in
  if bool_decide (normalized = lit "/") then at_root else
  in_transaction (
    store_published {|
      pi_normalized_path := normalized; pi_content_type := Some (detect_content_type first_bytes content_type);
      pi_total_size := total_size; pi_chunk_hashes := chunk_hashes; pi_content_hash := content_hash;
      pi_flags := sys_flags_of normalized; pi_created_at_override := None; pi_prefer_existing_created_at := true |}).

Definition restore_file_from_record (path : bytes) (source_record : FileRecord) : M E unit :=
  in_transaction (
    store_published {|
      pi_normalized_path := normalize_path path;
      pi_content_type := Some (default OCTET_STREAM (fr_content_type source_record));
      pi_total_size := fr_total_size source_record; pi_chunk_hashes := fr_chunk_hashes source_record;
      pi_content_hash := fr_content_hash source_record; pi_flags := z2b 0;
      pi_created_at_override := Some (fr_created_at source_record); pi_prefer_existing_created_at := true |} ;;
    mret tt).

(** ** Snapshots before deletions *)

Definition auto_snapshot_throttled (lane : SnapshotLane) (throttle_ms : Z) (prefix : bytes) : M E unit :=
  s ← gets id;
  enabled ← lift (snapshot_writes_enabled s);
  if negb enabled then mret tt else
  let last := e_last_auto_snapshot lane s in
  let elapsed := now - last in
  if (elapsed <? throttle_ms) && (0 <? last) then mret tt else
  e_set_last_auto_snapshot lane now ;;
  let name := prefix ++ lit " " ++ format_date now in
  r ← attempt (create_snapshot now name {[ SNAPSHOT_TYPE_KEY := SNAPSHOT_TYPE_AUTO ]});
  match r with
  | Ok _ => mret tt
  | _ => e_set_last_auto_snapshot lane last
  end.

Definition auto_snapshot_before_delete : M E unit :=
  auto_snapshot_throttled LaneDelete AUTO_SNAPSHOT_THROTTLE_MS (lit "auto-pre-delete").

Definition auto_snapshot_before_restore : M E unit :=
  auto_snapshot_throttled LaneRestore AUTO_SNAPSHOT_THROTTLE_MS (lit "auto-pre-restore").

(** ** Deleting *)

(** The calls without flags store the flags 0. *)
Definition store_deletion_record (normalized : bytes) : M E unit :=
  s ← gets id;
  let deletion := DeletionRecord_new now normalized None in
  deletion_key ← lift (deletion_record_hash normalized (dr_deleted_at deletion) (e_hash_algo s));
  e_store now DeletionRecordEntry deletion_key (DeletionRecord_serialize deletion) (sys_flags_of normalized) NoCompression CURRENT_ENTRY_VERSION ;;
  mret tt.

Definition delete_file (path : bytes) : M E unit :=
  let normalized := normalize_path path in
  in_transaction (
    s ← gets id;
    file_key ← lift (file_path_hash normalized (e_hash_algo s));
    o ← look_up file_key;
    record ← lift (read_record s o);
    match record with
    | None => lift (Err (NotFound "{}"))
    | Some _ =>
      (if is_system_path normalized then mret tt else auto_snapshot_before_delete) ;;
      store_deletion_record normalized ;;
      e_mark_entry_deleted file_key ;;
      remove_from_parent_directory fuel now normalized
    end).

(** The look for children that a concurrent write could have added; its outcome is only
    logged, but the read through the link can fail. *)
Definition recheck_children (dir_key : bytes) : M E unit :=
  s ← gets id;
  match e_get_entry_including_deleted s dir_key with
  | Ok (Some (_, _, raw_value)) =>
    if zlen raw_value =? hash_length (e_hash_algo s) then _ ← look_up raw_value; mret tt else mret tt
  | _ => mret tt
  end.

Definition delete_directory (path : bytes) : M E unit :=
  let normalized := normalize_path path in
  in_transaction (
    s ← gets id;
    if bool_decide (normalized = lit "/") then lift (Err (InvalidInput "Cannot delete root directory")) else
    children ← list_directory fuel now normalized;
    if negb (bool_decide (children = [])) then lift (Err (InvalidInput "Directory '{}' is not empty ({} children)")) else
    store_deletion_record normalized ;;
    dir_key ← lift (directory_path_hash normalized (e_hash_algo s));
    e_mark_entry_deleted dir_key ;;
    remove_from_parent_directory fuel now normalized ;;
    recheck_children dir_key).

(** Deletions of direct children of a directory, the latest of each path, newest first. *)
Definition deleted_under (normalized prefix : bytes) (record : DeletionRecord) : bool :=
  let root := bool_decide (normalized = lit "/") in
  if starts_with (dr_path record) (lit "/.aeordb-") then false else
  if starts_with (dr_path record) prefix || (root && starts_with (dr_path record) (lit "/")) then
    let remainder := if root then drop 1 (dr_path record) else drop (length prefix) (dr_path record) in
    negb (bool_decide (slash ∈ remainder)) && negb (bool_decide (remainder = []))
  else false.

Fixpoint first_of_path (seen : list bytes) (results : list DeletionRecord) : list DeletionRecord :=
  match results with
  | [] => []
  | r :: results =>
    if bool_decide (dr_path r ∈ seen) then first_of_path seen results
    else r :: first_of_path (dr_path r :: seen) results
  end.

Definition list_deleted (s : E) (dir_path : bytes) : res (list DeletionRecord) :=
  let normalized := normalize_path dir_path in
  let prefix := if bool_decide (normalized = lit "/") then lit "/" else trim_end_slashes normalized ++ lit "/" in
  deletion_entries ← e_entries_by_type s KV_TYPE_DELETION;
  let decode '(_, value) := match DeletionRecord_deserialize value 0 with
    | Ok record => if deleted_under normalized prefix record then Some record else None
    | _ => None
    end in
  let results := sort_by (fun a b => dr_deleted_at b <=? dr_deleted_at a) (omap decode deletion_entries) in
  Ok (first_of_path [] results).

(** ** Restoring and migrating *)

Definition restore_deleted_file (path : bytes) : M E unit :=
  let normalized := normalize_path path in
  in_transaction (
    s ← gets id;
    file_key ← lift (file_path_hash normalized (e_hash_algo s));
    o ← lift (e_get_entry_including_deleted s file_key);
    '(header, _, value) ← lift (ok_or o (NotFound "No record found for deleted file: {}"));
    file_record ← lift (FileRecord_deserialize value (hash_length (e_hash_algo s)) (b2z (eh_entry_version header)));
    file_record ← lift (ensure_file_record_content_hash s file_record);
    '(file_record, identity_key) ← materialize_file_record_entries now normalized file_record (z2b 0);
    update_parent_directories fuel now normalized (file_child now normalized file_record identity_key now 0)).

Definition file_record_header_needs_migration (s : E) (key : bytes) : res bool :=
  o ← e_get_entry s key;
  match o with
  | Some (header, _, _) => Ok (b2z (eh_entry_version header) <? CURRENT_FILE_RECORD_VERSION)
  | None => Ok true
  end.

Definition migrate_file_record_to_current_version (path : bytes) : M E bool :=
  let normalized := normalize_path path in
  s ← gets id;
  let algo := e_hash_algo s in
  let hash_length := hash_length algo in
  file_key ← lift (file_path_hash normalized algo);
  o ← look_up file_key;
  '(path_header, _, value) ← lift (ok_or o (NotFound "{}"));
  record ← lift (FileRecord_deserialize value hash_length (b2z (eh_entry_version path_header)));
  let old_version := b2z (eh_entry_version path_header) <? CURRENT_FILE_RECORD_VERSION in
  let other_path := negb (bool_decide (fr_path record = normalized)) in
  let record := if other_path then set_path record normalized else record in
  let no_hash := negb (zlen (fr_content_hash record) =? hash_length) in
  record ← lift (ensure_file_record_content_hash s record);
  identity_key ← lift (file_identity_hash normalized (fr_content_type record) (fr_chunk_hashes record) algo);
  old_identity ← lift (file_record_header_needs_migration s identity_key);
  file_value ← lift (FileRecord_serialize record hash_length);
  content_key ← lift (file_content_hash file_value algo);
  old_content ← lift (file_record_header_needs_migration s content_key);
  if negb (old_version || other_path || no_hash || old_identity || old_content) then mret false else
  _ ← materialize_file_record_entries now normalized record (eh_flags path_header);
  mret true.

(** ** Symlinks *)

(** [path.bytes().any(|b| (b < 0x20 && b != 0) || b == 0x7F)]. *)
Definition has_control (path : bytes) : bool :=
  existsb (fun b => ((b2z b <? 0x20) && negb (b2z b =? 0)) || (b2z b =? 0x7F)) path.

Definition read_symlink (o : option EntryData) : res (option SymlinkRecord) :=
  match o with
  | Some (header, _, value) => record ← SymlinkRecord_deserialize value (b2z (eh_entry_version header)); Ok (Some record)
  | None => Ok None
  end.

Definition get_symlink (s : E) (path : bytes) : res (option SymlinkRecord) :=
  symlink_key ← symlink_path_hash (normalize_path path) (e_hash_algo s);
  o ← e_get_entry s symlink_key;
  read_symlink o.

Definition set_symlink_created_at (record : SymlinkRecord) (created_at : Z) : SymlinkRecord :=
  {| sl_path := sl_path record; sl_target := sl_target record; sl_created_at := created_at; sl_updated_at := sl_updated_at record |}.

Definition symlink_child (path : bytes) (record : SymlinkRecord) (identity_key : bytes) : ChildEntry :=
  {| ce_entry_type := z2b (EntryType_to_u8 Symlink); ce_hash := identity_key; ce_total_size := 0;
     ce_created_at := sl_created_at record; ce_updated_at := sl_updated_at record; ce_name := default [] (file_name path);
     ce_content_type := None; ce_virtual_time := as_u64 now; ce_node_id := 0 |}.

(** The record under its content, identity and path keys, and in the directory. *)
Definition store_symlink_record (normalized : bytes) (record : SymlinkRecord) (symlink_key : bytes) : M E unit :=
  s ← gets id;
  let algo := e_hash_algo s in
  let sys_flags := sys_flags_of normalized in
  serialized ← lift (SymlinkRecord_serialize record);
  content_key ← lift (symlink_content_hash serialized algo);
  e_store now Symlink content_key serialized sys_flags NoCompression CURRENT_ENTRY_VERSION ;;
  identity_key ← lift (symlink_identity_hash normalized (sl_target record) algo);
  e_store now Symlink identity_key serialized sys_flags NoCompression CURRENT_ENTRY_VERSION ;;
  e_store now Symlink symlink_key serialized sys_flags NoCompression CURRENT_ENTRY_VERSION ;;
  update_parent_directories fuel now normalized (symlink_child normalized record identity_key).

Definition store_symlink (path target : bytes) : M E SymlinkRecord :=
  if has_control path then lift (Err (InvalidInput "Symlink path contains control characters")) else
  if has_control target then lift (Err (InvalidInput "Symlink target contains control characters")) else
  let normalized := normalize_path path in
  in_transaction (
    let normalized_target := normalize_path target in
    if bool_decide (normalized = lit "/") then at_root else
    if bool_decide (normalized = normalized_target) then lift (Err (InvalidInput "Symlink cannot point to itself: {}")) else
    s ← gets id;
    symlink_key ← lift (symlink_path_hash normalized (e_hash_algo s));
    o ← look_up symlink_key;
    existing ← lift (read_symlink o);
    let record := SymlinkRecord_new now normalized normalized_target in
    let record := match existing with Some old => set_symlink_created_at record (sl_created_at old) | None => record end in
    store_symlink_record normalized record symlink_key ;;
    mret record).

Definition delete_symlink (path : bytes) : M E unit :=
  in_transaction (
    let normalized := normalize_path path in
    s ← gets id;
    symlink_key ← lift (symlink_path_hash normalized (e_hash_algo s));
    o ← look_up symlink_key;
    record ← lift (read_symlink o);
    match record with
    | None => lift (Err (NotFound "{}"))
    | Some _ =>
      store_deletion_record normalized ;;
      e_mark_entry_deleted symlink_key ;;
      remove_from_parent_directory fuel now normalized
    end).

(** ** Renaming and copying *)

(** The checks that both renames make of their paths. *)
Definition check_rename (old_normalized new_normalized : bytes) : res unit :=
  if bool_decide (old_normalized = lit "/") || bool_decide (new_normalized = lit "/")
  then Err (InvalidInput "Cannot rename root path") else
  if bool_decide (old_normalized = new_normalized) then Err (InvalidInput "Source and destination paths are the same") else
  if negb (Bool.eqb (is_system_path old_normalized) (is_system_path new_normalized))
  then Err (InvalidInput "Cannot rename across system boundary") else Ok tt.

(** The destination must be neither a file nor a symlink. *)
Definition check_free (s : E) (new_normalized : bytes) : res unit :=
  new_file_key ← file_path_hash new_normalized (e_hash_algo s);
  is_file ← e_has_entry s new_file_key;
  if is_file : bool then Err (AlreadyExists "{}") else
  new_symlink_key ← symlink_path_hash new_normalized (e_hash_algo s);
  is_symlink ← e_has_entry s new_symlink_key;
  if is_symlink : bool then Err (AlreadyExists "{}") else Ok tt.

Definition rename_file (old_path new_path : bytes) : M E FileRecord :=
  in_transaction (
    let old_normalized := normalize_path old_path in
    let new_normalized := normalize_path new_path in
    _ ← lift (check_rename old_normalized new_normalized);
    s ← gets id;
    old_file_key ← lift (file_path_hash old_normalized (e_hash_algo s));
    o ← look_up old_file_key;
    record ← lift (read_record s o);
    old_record ← lift (ok_or record (NotFound "{}"));
    _ ← lift (check_free s new_normalized);
    let new_record := FileRecord_new now new_normalized (fr_content_type old_record) (fr_total_size old_record) (fr_chunk_hashes old_record) in
    let new_record := set_content_hash new_record (fr_content_hash old_record) in
    new_record ← lift (ensure_file_record_content_hash s new_record);
    let new_record := set_created_at new_record (fr_created_at old_record) in
    '(new_record, identity_key) ← materialize_file_record_entries now new_normalized new_record (sys_flags_of new_normalized);
    update_parent_directories fuel now new_normalized
      (file_child now new_normalized new_record identity_key (fr_updated_at new_record) (as_u64 now)) ;;
    store_deletion_record old_normalized ;;
    e_mark_entry_deleted old_file_key ;;
    remove_from_parent_directory fuel now old_normalized ;;
    mret new_record).

Definition rename_symlink (old_path new_path : bytes) : M E SymlinkRecord :=
  in_transaction (
    let old_normalized := normalize_path old_path in
    let new_normalized := normalize_path new_path in
    _ ← lift (check_rename old_normalized new_normalized);
    s ← gets id;
    old_symlink_key ← lift (symlink_path_hash old_normalized (e_hash_algo s));
    o ← look_up old_symlink_key;
    record ← lift (read_symlink o);
    old_record ← lift (ok_or record (NotFound "{}"));
    _ ← lift (check_free s new_normalized);
    new_symlink_key ← lift (symlink_path_hash new_normalized (e_hash_algo s));
    let new_record := set_symlink_created_at (SymlinkRecord_new now new_normalized (sl_target old_record)) (sl_created_at old_record) in
    store_symlink_record new_normalized new_record new_symlink_key ;;
    store_deletion_record old_normalized ;;
    e_mark_entry_deleted old_symlink_key ;;
    remove_from_parent_directory fuel now old_normalized ;;
    mret new_record).

Definition copy_file (from_path to_path : bytes) : M E FileRecord :=
  in_transaction (
    let from_normalized := normalize_path from_path in
    let to_normalized := normalize_path to_path in
    if bool_decide (from_normalized = lit "/") || bool_decide (to_normalized = lit "/")
    then lift (Err (InvalidInput "Cannot copy root path")) else
    if bool_decide (from_normalized = to_normalized) then lift (Err (InvalidInput "Source and destination are the same")) else
    if is_system_path from_normalized || is_system_path to_normalized
    then lift (Err (InvalidInput "Cannot copy system paths")) else
    s ← gets id;
    from_key ← lift (file_path_hash from_normalized (e_hash_algo s));
    o ← look_up from_key;
    record ← lift (read_record s o);
    source_record ← lift (ok_or record (NotFound "{}"));
    restore_file_from_record to_normalized source_record ;;
    to_key ← lift (file_path_hash to_normalized (e_hash_algo s));
    o ← look_up to_key;
    s ← gets id;
    record ← lift (read_record s o);
    lift (ok_or record (NotFound "{}"))).

(** A level of [depth] per call of [copy_path] below the first; [None] when the depth
    does not suffice. *)
Fixpoint copy_path (depth : nat) (from_path to_path : bytes) : M E (list bytes) :=
  match depth with
  | O => fun _ => None
  | S depth =>
    in_transaction (
      let from_normalized := normalize_path from_path in
      let to_normalized := normalize_path to_path in
      s ← gets id;
      dir_key ← lift (directory_path_hash from_normalized (e_hash_algo s));
      is_dir ← lift (e_has_entry s dir_key);
      if is_dir : bool then
        ignore_err (create_directory fuel now to_normalized) ;;
        children ← list_directory fuel now from_normalized;
        (fix copy_children children copied := match children with
         | [] => mret copied
         | child :: children =>
           let child_from := trim_end_slashes from_normalized ++ lit "/" ++ ce_name child in
           let child_to := trim_end_slashes to_normalized ++ lit "/" ++ ce_name child in
           sub_copied ← copy_path depth child_from child_to;
           copy_children children (copied ++ sub_copied)
         end) children []
      else
        copy_file from_normalized to_normalized ;;
        mret [to_normalized])
  end.

(** ** JSON documents *)

(** [serde_json]'s parser and printer. *)
Class JsonText := {
  json_from_slice : bytes -> option Value;
  json_to_vec : Value -> option bytes;
}.

Record JsonMergeFileResult := { jm_file_record : FileRecord; jm_created : bool }.

Definition prepare_json_merge `{JsonText} (s : E) (path : bytes) (patch : Value) (depth : MergeDepth) : res (bytes * bool) :=
  let normalized := normalize_path path in
  if bool_decide (normalized = lit "/") then Err (InvalidInput "Cannot store at root path") else
  '(target, existed) ← match read_file_buffered s normalized with
    | Ok [] => Ok (Object ∅, true)
    | Ok data => parsed ← ok_or (json_from_slice data) (InvalidInput "stored file at {} is not valid JSON: {}"); Ok (parsed, true)
    | Err (NotFound _) => Ok (Object ∅, false)
    | Err error => Err error
    | Panic => Panic
    end;
  serialized ← ok_or (json_to_vec (apply_merge_patch target patch depth)) (InvalidInput "merged document failed to serialize: {}");
  Ok (serialized, existed).

Definition merge_json_file `{JsonText} (path : bytes) (patch : Value) (depth : MergeDepth) : M E JsonMergeFileResult :=
  s ← gets id;
  '(serialized, existed) ← lift (prepare_json_merge s path patch depth);
  file_record ← store_file_buffered path serialized (Some (lit "application/json"));
  mret {| jm_file_record := file_record; jm_created := negb existed |}.
End FileOps.
