(* ===== verification/FileOpsSpec.v ===== *)
(** Storing a file: afterwards its bytes are read back, its directory lists it, every
    directory above is the one before with the new entry, and other files are as they
    were. *)
From S2P Require Import Prelude Sorted Codec EntryFormat Records KvEntry AppendWriter StateM BTreeNode BTree BTreeSpec BTreeRefine StorageEngine EngineContent EngineStore EngineApi Paths EngineChunks Files VersionTable Directories DirectoriesSpec FilesSpec Versions FileOps EngineMem BTreeMem.

Local Open Scope Z_scope.

Section FileOpsSpec.
Context `{Blake3, ZstdDecode, ZstdEncode, !ZstdLaws, MediaType, MetadataJson, LifecycleJson, ChronoFormat} {E : Type} `{!Engine E, !EngineLaws E}.
Context (fuel : nat) (now : Z) (Hnow : is_i64 now) (known : list bytes) (Hfree : collision_free known).

Abbreviation tree := (tree_in known).

(** A transaction changes nothing a client sees. *)
Lemma in_transaction_ok {A} (m : M E A) n s (Q : A -> E -> Prop) : e_room n s ->
  (forall s1, e_room n s1 -> e_visible s1 = e_visible s ->
    runs m s1 (fun a s2 => exists k, e_room k s2 /\ forall s3, e_room k s3 -> e_visible s3 = e_visible s2 -> Q a s3)) ->
  runs (in_transaction m) s Q.
Proof.
  intros Hr Hm. unfold in_transaction. apply runs_bind. eapply runs_mono; [by apply e_begin_spec|]. intros [] s1 [Hr1 Hv1].
  apply runs_finally. eapply runs_mono; [by apply Hm|]. intros a s2 (k & Hr2 & HQ). apply runs_ignore_err.
  eapply runs_mono; [by apply e_end_spec|]. intros [] s3 [Hr3 Hv3]. by apply HQ.
Qed.

Lemma room_le m n s : (m <= n)%nat -> e_room n s -> e_room m s.
Proof. apply e_room_le. Qed.

Definition not_system (p : list bytes) : Prop := forall x, head p = Some x -> is_system_path (path_of [x]) = false.

(** Adding a child to a directory of the tree. *)
Lemma update_parents_ok n s D p name child (L := changed_dirs now D (rev p) child) :
  tree (length (dir_batch L) + n) s D -> path_ok (p ++ [name]) -> (length p < MAX_DIRECTORY_DEPTH)%nat -> not_system (p ++ [name]) ->
  Forall (change_ok known) L ->
  (forall cs, D !! (p ++ [ce_name child]) = Some cs -> is_directory child = true /\ ce_hash child = dir_hash cs) ->
  runs (update_parent_directories fuel now (path_of (p ++ [name])) child) s (fun _ s' => tree n s' (add_child now D p child)
    /\ v_content (e_visible s') = apply_writes (v_content (e_visible s)) (batch_writes (dir_batch L))).
Proof.
  intros T Hp Hlen Hsys HL Hchild. unfold update_parent_directories.
  pose proof (update_loop_ok fuel now known Hfree (rev p) MAX_DIRECTORY_DEPTH name child [] n s D) as Hloop. rewrite rev_involutive in Hloop.
  eapply runs_mono; [apply Hloop; try done; rewrite length_rev; exact Hlen|].
  intros [] s' (Hr' & s1 & [Hr1 Hok1] & [Hc1 Hh1] & Hv'). split; [split; [done|]|].
  - rewrite Hv'. by apply add_child_ok.
  - rewrite Hv'. cbn. by rewrite Hc1.
Qed.

(** ** Storing a file *)

Section Store.
Context (p : list bytes) (name data : bytes) (content_type : option bytes) (comp : CompressionAlgorithm) (existing : option FileRecord).

Let path : bytes := path_of (p ++ [name]).

Definition store_input : FileRecordPublishInput := {|
  pi_normalized_path := path; pi_content_type := Some (detect_content_type data content_type); pi_total_size := zlen data;
  pi_chunk_hashes := ckey <$> file_chunks data; pi_content_hash := blake3 data; pi_flags := sys_flags_of path;
  pi_created_at_override := None; pi_prefer_existing_created_at := true |}.

Definition stored_record : FileRecord := published_record now store_input path existing.

Definition stored_child : ChildEntry :=
  file_child now path stored_record (blake3 (fid_input path stored_record)) (fr_updated_at stored_record) (as_u64 now).

(** The file can be stored in the tree [D]: no directory has its path, the record and the
    directories above have a form, and the inputs that are hashed are among the known. *)
Record store_fits (c : gmap bytes Stored) (D : Dirs) : Prop := {
  sf_path : path_ok (p ++ [name]);
  sf_depth : (length p < MAX_DIRECTORY_DEPTH)%nat;
  sf_user : not_system (p ++ [name]);
  sf_dir : D !! (p ++ [name]) = None;
  sf_chunks : Forall (fun d => chunk_input d ∈ known) (file_chunks data);
  sf_sound : chunks_sound c (file_chunks data);
  sf_existing : record_at c path existing;
  sf_record : record_good stored_record;
  sf_inputs : [fpath_input path; fbody_input stored_record; fid_input path stored_record] ⊆ known;
  sf_changes : Forall (change_ok known) (changed_dirs now D (rev p) stored_child);
}.

Definition store_writes (D : Dirs) : nat :=
  length (file_chunks data) + 3 + length (dir_batch (changed_dirs now D (rev p) stored_child)).

Context (n : nat) (s : E) (D : Dirs) (T : tree (store_writes D + n) s D) (F : store_fits (v_content (e_visible s)) D).

Lemma normal_path : normalize_path path = path.
Proof. apply path_ok_normal, F. Qed.

Lemma not_root : path <> lit "/".
Proof. intros Hp. apply path_of_root in Hp; [by apply app_eq_nil in Hp as [_ ?]|apply F]. Qed.

Lemma stored_child_name : ce_name stored_child = name.
Proof. unfold stored_child, file_child. cbn. unfold path. by rewrite (proj2 (path_ok_snoc p name (sf_path _ _ F))). Qed.

(** What the keys of a file are made of. *)
Definition file_input (i : bytes) : Prop := (forall q, i <> dir_input q) /\ (forall cs, i <> body_input cs).

Lemma chunk_is_file d : file_input (chunk_input d).
Proof. split; intros ?; done. Qed.

Lemma record_writes_keys k : k ∈ (record_writes path stored_record (sys_flags_of path)).*1 ->
  exists i, i ∈ [fpath_input path; fbody_input stored_record; fid_input path stored_record] /\ k = blake3 i.
Proof. intros Hk. repeat (apply elem_of_cons in Hk as [->|Hk]; [eexists; split; [|reflexivity]; set_solver|]). by apply elem_of_nil in Hk. Qed.

Lemma record_input_file i : i ∈ [fpath_input path; fbody_input stored_record; fid_input path stored_record] -> file_input i.
Proof.
  intros Hi. repeat (apply elem_of_cons in Hi as [->|Hi]; [split; intros ?; done|]). by apply elem_of_nil in Hi.
Qed.

Lemma chunk_writes_keys ws k : chunk_writes (file_chunks data) ws -> k ∈ ws.*1 -> exists d, d ∈ file_chunks data /\ k = blake3 (chunk_input d).
Proof. intros Hws (w & -> & Hw)%list_elem_of_fmap. destruct (Hws w Hw) as (d & Hd & Hk & _). by exists d. Qed.

Lemma dir_writes_keys k : k ∈ (batch_writes (dir_batch (changed_dirs now D (rev p) stored_child))).*1 ->
  exists i, i ∈ known /\ k = blake3 i /\ ((exists q, i = dir_input q) \/ (exists cs, i = body_input cs)).
Proof.
  intros (q & cs & Hin & Hk)%batch_key. destruct (change_of known _ (sf_changes _ _ F) q cs Hin) as (_ & _ & Kq & Kb).
  destruct Hk as [->| ->]; [exists (body_input cs)|exists (dir_input q)]; eauto.
Qed.

(** The content afterwards, by key. *)
Definition after_store (c c' : gmap bytes Stored) : Prop :=
  c' !! fkey path = Some (record_entry stored_record (sys_flags_of path))
  /\ chunks_in c' (file_chunks data)
  /\ forall i, i ∈ known -> file_input i -> i ∉ chunk_input <$> file_chunks data ->
       i ∉ [fpath_input path; fbody_input stored_record; fid_input path stored_record] -> c' !! blake3 i = c !! blake3 i.

Lemma after_store_ok c ws : c = v_content (e_visible s) -> chunk_writes (file_chunks data) ws -> chunks_in (apply_writes c ws) (file_chunks data) ->
  after_store c (apply_writes (apply_writes (apply_writes c ws) (record_writes path stored_record (sys_flags_of path)))
    (batch_writes (dir_batch (changed_dirs now D (rev p) stored_child)))).
Proof.
  intros -> Hws Hin. pose proof (sf_inputs _ _ F) as Hk. pose proof (sf_chunks _ _ F) as Hck. rewrite Forall_forall in Hck.
  set (c1 := apply_writes _ ws) in *. set (rws := record_writes _ _ _). set (dws := batch_writes _).
  assert (Hdir : forall i, i ∈ known -> file_input i -> forall c, apply_writes c dws !! blake3 i = c !! blake3 i).
  { intros i Ki [Hnd Hnb] c. apply apply_writes_other. intros (j & Kj & Hj & Hform)%dir_writes_keys.
    apply Hfree in Hj; [|done|done]. subst j. destruct Hform as [[q ->]|[cs ->]]; [by apply (Hnd q)|by apply (Hnb cs)]. }
  assert (Hrec : forall i, i ∈ known -> i ∉ [fpath_input path; fbody_input stored_record; fid_input path stored_record] ->
    forall c, apply_writes c rws !! blake3 i = c !! blake3 i).
  { intros i Ki Hout c. apply apply_writes_other. intros (j & Hj & Hkey)%record_writes_keys.
    apply Hfree in Hkey; [|done|by apply Hk]. by subst j. }
  split; [|split].
  - assert (Hin0 : fpath_input path ∈ [fpath_input path; fbody_input stored_record; fid_input path stored_record]) by (by left).
    unfold fkey at 1. rewrite (Hdir _ (Hk _ Hin0) (record_input_file _ Hin0)). cbn. by rewrite lookup_insert_eq.
  - intros d Hd. unfold ckey. rewrite Hdir by (done || by auto). rewrite Hrec; [by apply Hin|by auto|].
    intros Hx. repeat (apply elem_of_cons in Hx as [Hx|Hx]; [done|]). by apply elem_of_nil in Hx.
  - intros i Ki Hfile Hnc Hnr. rewrite Hdir, Hrec by done. apply apply_writes_other. intros (d & Hd & Hkey)%chunk_writes_keys; [|done].
    apply Hfree in Hkey; [|done|by auto]. subst i. apply Hnc. by apply list_elem_of_fmap_2.
Qed.

Lemma store_file_run : runs (store_file_internal fuel now path data content_type comp) s (fun r s' =>
  r = stored_record /\ tree n s' (add_child now D p stored_child) /\ after_store (v_content (e_visible s)) (v_content (e_visible s'))).
Proof.
  unfold store_file_internal. rewrite normal_path, bool_decide_eq_false_2 by apply not_root. run.
  pose proof (sf_chunks _ _ F) as Hck. pose proof (sf_inputs _ _ F) as Hki.
  set (rest := (3 + length (dir_batch (changed_dirs now D (rev p) stored_child)) + n)%nat).
  eapply runs_mono; [apply (store_chunks_ok known Hfree now Hnow (sys_flags_of path) comp data _ rest s 0 [])|].
  { change (Z.to_nat 0) with 0%nat. rewrite drop_0. eapply room_le; [|apply T]. unfold rest, store_writes. lia. }
  { pose proof (zlen_nonneg data). lia. }
  { pose proof (zlen_nonneg data). lia. }
  { exact Hck. }
  { apply F. }
  intros hs s1 (-> & Hr1 & ws & Hv1 & Hws & Hin1). change (drop (Z.to_nat 0) data) with data in *. cbn [app].
  assert (T1 : dirs_ok known (e_visible s1) D).
  { rewrite Hv1. apply (dirs_frame known Hfree); [apply T|]. intros k (d & Hd & ->)%chunk_writes_keys; [|done]. exists (chunk_input d).
    rewrite Forall_forall in Hck. split; [by apply Hck|]. split; [done|]. apply chunk_is_file. }
  assert (Hex1 : record_at (v_content (e_visible s1)) path existing).
  { assert (Hf : v_content (e_visible s1) !! fkey path = v_content (e_visible s) !! fkey path).
    { rewrite Hv1. apply apply_writes_other. intros (d & Hd & Hk)%chunk_writes_keys; [|done]. rewrite Forall_forall in Hck.
      apply Hfree in Hk; [done|set_solver|by apply Hck]. }
    pose proof (sf_existing _ _ F) as Hex. unfold record_at in *. by rewrite Hf. }
  apply (in_transaction_ok _ rest); [done|]. intros s2 Hr2 Hv2. run.
  apply (runs_lift _ (blake3 data)); [unfold whole_file_content_hash; by rewrite (e_algo_spec _ s (proj1 T))|].
  change ({| pi_normalized_path := path |}) with store_input || fold store_input.
  unfold store_published. apply runs_bind. pose proof normal_path as Hn.
  pose proof (publish_file_ok now Hnow (length (dir_batch (changed_dirs now D (rev p) stored_child)) + n) s2 store_input existing) as Hpub.
  cbn [pi_normalized_path store_input] in Hpub. rewrite Hn in Hpub. fold stored_record in Hpub. rewrite Hv2 in Hpub.
  eapply runs_mono; [apply Hpub; [exact Hr2|exact Hex1|apply F]|]. intros res s3 (-> & Hr3 & Hv3). cbn [pr_normalized_path pr_child_entry pr_file_record pi_flags store_input] in *.
  fold stored_child. apply runs_bind.
  assert (T3 : tree (length (dir_batch (changed_dirs now D (rev p) stored_child)) + n) s3 D).
  { split; [exact Hr3|]. rewrite Hv3. apply (dirs_frame known Hfree); [exact T1|].
    intros k (i & Hi & ->)%record_writes_keys. exists i. split; [by apply Hki|]. split; [done|]. by apply record_input_file. }
  eapply runs_mono; [apply (update_parents_ok n s3 D p name stored_child T3); try apply F|].
  { rewrite stored_child_name, (sf_dir _ _ F). done. }
  intros [] s4 [T4 Hc4]. run. exists n. split; [apply T4|]. intros s5 Hr5 Hv5. split; [done|]. split.
  { split; [exact Hr5|]. rewrite Hv5. apply T4. }
  rewrite Hv5, Hc4, Hv3. cbn. rewrite Hv1. cbn. apply after_store_ok; [done|exact Hws|]. by rewrite Hv1 in Hin1.
Qed.

Lemma child_path_of q x : path_ok (q ++ [x]) -> child_path (path_of q) x = path_of (q ++ [x]).
Proof.
  intros Hq. unfold child_path. rewrite (is_root_path q (path_ok_init _ _ Hq)), path_of_snoc.
  destruct (decide (q = [])) as [->|Hne]; [by rewrite bool_decide_eq_true_2|by rewrite bool_decide_eq_false_2].
Qed.

Lemma filter_live_elem s' parent cs l e : filter_live_children s' parent cs = Ok l -> e ∈ cs -> child_is_live s' parent e = Ok true -> e ∈ l.
Proof.
  revert l. induction cs as [|x cs IH]; intros l Hl He Hlive; [by apply elem_of_nil in He|]. cbn in Hl.
  apply bind_Ok in Hl as (keep & Hkeep & Hl). apply bind_Ok in Hl as (live & Hliv & Hl). injection Hl as <-.
  apply elem_of_cons in He as [->|He]; [rewrite Hlive in Hkeep; injection Hkeep as <-; by left|].
  pose proof (IH live Hliv He Hlive). destruct keep; [by right|done].
Qed.

Lemma stored_listed s' c : tree n s' (add_child now D p stored_child) -> after_store c (v_content (e_visible s')) ->
  runs (list_directory fuel now (path_of p)) s' (fun l _ => stored_child ∈ l).
Proof.
  intros T' (Hf & _). set (cs := upsert_child (default [] (D !! p)) stored_child).
  assert (Hp : add_child now D p stored_child !! p = Some cs).
  { unfold add_child. apply lookup_union_Some_l, elem_of_list_to_map_1; [apply changed_NoDup|].
    pose proof (changed_bottom now D (rev p) stored_child) as Hb. by rewrite rev_involutive in Hb. }
  eapply runs_mono; [by apply (list_ok fuel now known Hfree n s' _ T' p cs)|]. intros l s2 ([Hr2 _] & [Hc2 _] & Hl).
  eapply filter_live_elem; [exact Hl| |].
  - pose proof (upsert_find (default [] (D !! p)) stored_child (ce_name stored_child)) as Hu. rewrite decide_True in Hu by done.
    by apply find_child_elem in Hu as [? _].
  - unfold child_is_live. change (EntryType_from_u8 (b2z (ce_entry_type stored_child))) with (Ok FileRecordEntry : res EntryType). cbv beta iota zeta.
    rewrite stored_child_name, child_path_of by apply F. unfold file_path_hash. rewrite (e_algo_spec n s2 Hr2). cbn [compute_hash]. rewrite bind_ret.
    rewrite (e_has_spec n s2 _ Hr2), Hc2. unfold fkey, fpath_input in Hf. fold path. rewrite Hf. by rewrite bool_decide_eq_true_2.
Qed.

Lemma other_file c' other data' : after_store (v_content (e_visible s)) c' -> fpath_input other ∈ known -> other <> path ->
  holds_file known (v_content (e_visible s)) other data' -> holds_file known c' other data'.
Proof.
  intros (_ & Hin & Hsame) Ko Hne (r & ds & (fl & Hst & Hgood) & Hch & Hdata & Hcs & Hk). exists r, ds.
  assert (Hother : c' !! fkey other = v_content (e_visible s) !! fkey other).
  { apply Hsame; [done|by split; intros ?| |].
    - intros (d & Hd & _)%list_elem_of_fmap. done.
    - intros Hx. apply elem_of_cons in Hx as [Hx|Hx]; [by apply app_inv_head in Hx|].
      repeat (apply elem_of_cons in Hx as [Hx|Hx]; [|]); try (by apply elem_of_nil in Hx).
      + unfold fpath_input, fbody_input in Hx. done.
      + unfold fpath_input, fid_input, identity_input in Hx. done. }
  split; [exists fl; by rewrite Hother|]. split; [done|]. split; [done|]. split; [|done].
  intros d Hd. destruct (decide (d ∈ file_chunks data)) as [Hmine|Hnot]; [by apply Hin|].
  destruct (Hcs d Hd) as (st & Hst' & Hh). exists st. split; [|done]. rewrite <- Hst'. rewrite Forall_forall in Hk. apply Hsame.
  - by apply Hk.
  - apply chunk_is_file.
  - intros (d' & Hd' & Hin')%list_elem_of_fmap. apply app_inv_head in Hd'. by subst d'.
  - intros Hx. repeat (apply elem_of_cons in Hx as [Hx|Hx]; [done|]). by apply elem_of_nil in Hx.
Qed.

(** C3. Storing a file at a path of the tree succeeds.  Afterwards the file reads back, its
    record is the path's metadata, its directory lists it, the tree is the one before with
    this child, and files at other paths read as before. *)
Theorem store_file_reads_back :
  runs (store_file_internal fuel now path data content_type comp) s (fun r s' =>
    tree n s' (add_child now D p stored_child)
    /\ read_file_buffered s' path = Ok data
    /\ get_metadata s' path = Ok (Some r)
    /\ runs (list_directory fuel now (path_of p)) s' (fun l _ => stored_child ∈ l)
    /\ (forall other data', fpath_input other ∈ known -> normalize_path other = other -> other <> path ->
         holds_file known (v_content (e_visible s)) other data' -> read_file_buffered s' other = Ok data')).
Proof.
  eapply runs_mono; [exact store_file_run|]. intros r s' (-> & T' & Haft). pose proof Haft as (Hf & Hin & _). split; [exact T'|].
  assert (Hat : record_at (v_content (e_visible s')) path (Some stored_record)) by (eexists; split; [exact Hf|apply F]).
  assert (Hfile : holds_file known (v_content (e_visible s')) path data).
  { exists stored_record, (file_chunks data). split; [exact Hat|]. split; [apply published_fields|]. split; [apply file_chunks_concat|].
    split; [exact Hin|apply F]. }
  split; [by apply (file_reads known n); [apply T'|apply normal_path|]|]. split.
  { unfold get_metadata, file_path_hash. rewrite normal_path, (e_algo_spec n s' (proj1 T')). cbn [compute_hash]. rewrite bind_ret.
    destruct (read_record_ok n s' path (Some stored_record) (proj1 T') Hat) as (o & Ho & Hr).
    unfold fkey, fpath_input in Ho. by rewrite Ho, bind_ret. }
  split; [by eapply stored_listed|]. intros other data' Ko Hno Hne Hold. apply (file_reads known n); [apply T'|done|]. by eapply other_file.
Qed.
End Store.

(** ** The first directory *)

Definition only_root : Dirs := {[ [] := [] ]}.

Definition root_visible : Visible :=
  {| v_content := apply_writes ∅ [(dkey [], dir_entry []); (dir_hash [], dir_entry [])]; v_head := dir_hash []; v_cache := ∅ |}.

Lemma path_ok_root : path_ok [].
Proof. split; [constructor|]. intros q Hq. apply prefix_nil_inv in Hq as ->. by vm_compute. Qed.

Lemma root_tree_ok : dir_input [] ∈ known -> body_input [] ∈ known -> dirs_ok known root_visible only_root.
Proof.
  intros Kd Kb. pose proof (dkey_body known Hfree [] [] Kd Kb) as Hne.
  assert (Hone : forall p cs, only_root !! p = Some cs -> p = [] /\ cs = []) by (unfold only_root; intros p cs [<- <-]%lookup_singleton_Some; done).
  assert (Hcs : children_ok []) by (split; [constructor|by vm_compute]).
  split; cbn [root_visible v_content v_head v_cache].
  - intros p cs [-> ->]%Hone. split; [apply path_ok_root|done].
  - intros p cs [-> ->]%Hone. cbn. rewrite lookup_insert_ne by done. rewrite lookup_insert_eq. eexists. split; [done|]. split; [done|by right].
  - intros p cs [-> ->]%Hone. cbn. rewrite lookup_insert_eq. by eexists.
  - exists []. split; [by apply lookup_singleton_eq|done].
  - intros p name cs [Hx _]%Hone. by apply app_eq_nil in Hx as [_ ?].
  - intros p Hp Kp Hnone. cbn. rewrite !lookup_insert_ne; [done|..].
    + intros Hk. apply (dkey_inj known Hfree) in Hk; [|apply path_ok_root|done|done|done]. subst p. unfold only_root in Hnone. by rewrite lookup_singleton_eq in Hnone.
    + intros Hk. by apply (dkey_body known Hfree p [] Kp Kb).
  - intros h x Hx. by rewrite lookup_empty in Hx.
Qed.

(** A new database gets its root. *)
Lemma ensure_root_ok n s : e_room (S (S n)) s -> v_content (e_visible s) = ∅ -> v_cache (e_visible s) = ∅ ->
  dir_input [] ∈ known -> body_input [] ∈ known -> runs (ensure_root_directory fuel now) s (fun _ s' => tree n s' only_root).
Proof.
  intros Hr Hc Hca Kd Kb. assert (Hl : forall i, zlen (blake3 i) = 32) by (intros i; unfold zlen; by rewrite blake3_length).
  unfold ensure_root_directory. run. unfold directory_path_hash. rewrite (e_algo_spec _ s Hr). apply (runs_lift _ (dkey [])); [done|]. run.
  eapply runs_lift; [apply (e_has_spec _ s _ Hr)|]. rewrite Hc, lookup_empty, bool_decide_eq_false_2 by (by intros []). run.
  eapply runs_mono; [apply (e_store_spec (S n) s now); [done|done|apply Hl|vm_compute; congruence]|]. intros a s1 [Hr1 Hv1]. run.
  apply (runs_lift _ (dir_hash [])); [done|]. run.
  eapply runs_mono; [apply (e_store_spec n s1 now); [done|done|apply Hl|vm_compute; congruence]|]. intros b s2 [Hr2 Hv2]. cbv beta.
  eapply runs_mono; [apply (e_update_head_spec n s2 now); [done|done|apply Hl]|]. intros [] s3 [Hr3 Hv3]. split; [done|].
  rewrite Hv3, Hv2, Hv1. unfold v_set_head, v_write. cbn [v_content v_head v_cache]. rewrite Hc, Hca. by apply root_tree_ok.
Qed.
End FileOpsSpec.

(** ** A file in a new database *)

#[local] Existing Instance blake3_digest.
#[local] Instance zstd_plain_encode : ZstdEncode := fun data => Ok data.
#[local] Instance zstd_plain_decode : ZstdDecode := fun data => Ok data.
#[local] Instance zstd_plain_laws : ZstdLaws.
Proof.
  split; [by intros data x [= <-]|]. intros data Hd. exists data. split; [done|]. etrans; [exact Hd|]. vm_compute. congruence.
Qed.
#[local] Instance unknown_media : MediaType := fun _ => OCTET_STREAM.
#[local] Instance no_metadata : MetadataJson := {| metadata_to_vec _ := None; metadata_from_slice _ := None |}.
#[local] Instance no_lifecycle : LifecycleJson := fun _ => None.
#[local] Instance no_dates : ChronoFormat := fun _ => [].

Definition sample_path : list bytes := [lit "docs"].
Definition sample_name : bytes := lit "a.txt".
Definition sample_data : bytes := lit "hello".
Definition sample_record : FileRecord := stored_record 7 sample_path sample_name sample_data None None.
Definition sample_entry : ChildEntry := stored_child 7 sample_path sample_name sample_data None None.
Definition sample_changes : list (list bytes * list ChildEntry) := changed_dirs 7 only_root (rev sample_path) sample_entry.

Definition sample_known : list bytes :=
  [dir_input []; body_input []; chunk_input sample_data;
   fpath_input (path_of (sample_path ++ [sample_name])); fbody_input sample_record;
   fid_input (path_of (sample_path ++ [sample_name])) sample_record;
   dir_input sample_path] ++ (body_input <$> sample_changes.*2).

Lemma sample_free : collision_free sample_known.
Proof. apply collision_free_NoDup. apply (bool_decide_unpack _). vm_compute. exact I. Qed.

Lemma sample_chunks : file_chunks sample_data = [sample_data].
Proof. vm_compute. reflexivity. Qed.

Lemma sample_path_ok : path_ok (sample_path ++ [sample_name]).
Proof.
  split; [apply (bool_decide_unpack _); vm_compute; exact I|]. intros q Hq.
  assert (q ∈ [[]; sample_path; sample_path ++ [sample_name]]) as Hin.
  { destruct Hq as [r Hr]. destruct q as [|a [|b [|c q]]]; cbn in Hr; simplify_eq; set_solver. }
  repeat (apply elem_of_cons in Hin as [->|Hin]; [vm_compute; reflexivity|]). by apply elem_of_nil in Hin.
Qed.

Lemma sample_record_good : record_good sample_record.
Proof.
  split; [split|..]; try (vm_compute; reflexivity); try (vm_compute; split; congruence); try (vm_compute; congruence).
  repeat constructor; vm_compute; reflexivity.
Qed.

Lemma listed_ok_dec e : ChildEntry_norm e = e -> (exists t, ce_entry_type e = z2b (EntryType_to_u8 t) /\ t <> Chunk) ->
  ChildEntry_wf 32 e -> entry_fits e -> listed_ok e.
Proof. by split. Qed.

Lemma sample_changes_ok : Forall (change_ok sample_known) sample_changes.
Proof.
  assert (Hdocs : path_ok sample_path) by (by eapply path_ok_init, sample_path_ok).
  assert (Hin : forall x, bool_decide (x ∈ sample_known) = true -> x ∈ sample_known) by (intros x; apply bool_decide_eq_true_1).
  constructor; [|constructor; [|constructor]]; (split; [assumption || apply path_ok_root|]); (split; [|split; apply Hin; vm_compute; reflexivity]);
    (split; [|vm_compute; reflexivity]); (constructor; [|constructor]); apply listed_ok_dec; try (vm_compute; reflexivity);
    try (eexists FileRecordEntry; split; [vm_compute; reflexivity|done]); try (eexists DirectoryIndex; split; [vm_compute; reflexivity|done]);
    try (split; vm_compute; congruence); split; try (vm_compute; reflexivity); try (vm_compute; split; congruence).
Qed.

Lemma sample_fits : store_fits 7 sample_known sample_path sample_name sample_data None None (v_content root_visible) only_root.
Proof.
  assert (Hin : forall x, bool_decide (x ∈ sample_known) = true -> x ∈ sample_known) by (intros x; apply bool_decide_eq_true_1).
  split.
  - exact sample_path_ok.
  - vm_compute. lia.
  - intros x [= <-]. vm_compute. reflexivity.
  - vm_compute. reflexivity.
  - rewrite sample_chunks. constructor; [|constructor]. apply Hin. vm_compute. reflexivity.
  - rewrite sample_chunks. intros d st ->%list_elem_of_singleton Hst. vm_compute in Hst. done.
  - vm_compute. reflexivity.
  - exact sample_record_good.
  - intros x Hx. unfold sample_known. do 3 right. repeat (apply elem_of_cons in Hx as [->|Hx]; [set_solver|]). by apply elem_of_nil in Hx.
  - exact sample_changes_ok.
Qed.

Lemma store_file_reads_back_witness :
  runs (store_file_internal 0 7 (path_of (sample_path ++ [sample_name])) sample_data None Zstd) root_visible (fun _ s' =>
    read_file_buffered s' (lit "/docs/a.txt") = Ok (lit "hello")).
Proof.
  eapply runs_mono; [apply (store_file_reads_back 0 7 ltac:(vm_compute; split; congruence) sample_known sample_free
    sample_path sample_name sample_data None Zstd None 0 root_visible only_root)|].
  - split; [exact I|]. apply (root_tree_ok sample_known sample_free); by left || (right; left).
  - exact sample_fits.
  - intros r s' (_ & Hread & _). exact Hread.
Defined.
