(* ===== verification/Gc.v ===== *)
(** Garbage collection (src/aeordb-lib/src/engine/gc.rs): the set of live hashes is
    collected from every version, the system tables, the tasks and the path index; then
    every index entry outside the set is dropped and its space made free.

    Marking reads a fixed engine [s] and changes the set of live hashes, which is the
    state of its monad.  Timing, memory samples, events and the counters that are set at
    the end are left out. *)
From S2P Require Import Prelude Sorted Codec EntryFormat Records KvEntry KvPages VoidManager AppendWriter Converters Nvt StateM BTreeNode BTree KvSnapshot DiskKv StorageEngine EngineApi EngineImpl Paths EngineChunks Files Directories Versions.

Local Open Scope Z_scope.

Abbreviation Live := (gset bytes).

(** [serde_json::from_slice::<Vec<String>>]. *)
Class TaskJson := task_ids : bytes -> option (list bytes).

(** The order in which a [HashSet] is drained. *)
Class SetOrder := { set_iter : gset bytes -> list bytes; set_iter_perm : forall m, set_iter m ≡ₚ elements m }.

(** [HashSet::insert]: whether the hash is new. *)
Definition insert_live (hash : bytes) : M Live bool := fun live => Some (Ok (bool_decide (hash ∉ live)), {[hash]} ∪ live).
Definition mark (hash : bytes) : M Live unit := modify (fun live => {[hash]} ∪ live).

Section Gc.
Context `{Crc32, Blake3, ToScalar, HashOrder, ZstdDecode, MetadataJson}.

Section Mark.
Context (s : StorageEngine).

Abbreviation algo := (se_hash_algo s).
Abbreviation hash_length := (hash_length (se_hash_algo s)).

(** ** One entry *)

Definition dir_key_of (path : bytes) : res bytes := compute_hash algo (lit "dir:" ++ path).

(** [None] when the content behind a link is missing. *)
Definition follow_link (value : bytes) : M Live (option bytes) :=
  if zlen value =? hash_length then
    mark value ;;
    o ← lift (get_entry_including_deleted s value);
    mret (snd <$> o)
  else mret (Some value).

(** A unit of [fuel] per level of the tree. *)
Fixpoint collect_btree_children (fuel : nat) (node_data : bytes) : M Live (list ChildEntry) :=
  match fuel with
  | O => fun _ => None
  | S fuel =>
    node ← lift (BTreeNode_deserialize node_data hash_length 0);
    match node with
    | Leaf leaf => mret (ln_entries leaf)
    | Internal internal =>
      list_children (fun child_hash =>
        mark child_hash ;;
        o ← lift (get_entry_including_deleted s child_hash);
        match o with
        | Some (_, _, child_data) => collect_btree_children fuel child_data
        | None => mret []
        end) (in_children internal)
    end
  end.

Definition entry_children (fuel : nat) (version : Z) (value : bytes) : M Live (list ChildEntry) :=
  if is_btree_format value then collect_btree_children fuel value
  else lift (deserialize_child_entries value hash_length version).

Definition mark_file_record (version : Z) (value : bytes) : M Live unit :=
  file_record ← lift (FileRecord_deserialize value hash_length version);
  for_each (fr_chunk_hashes file_record) mark ;;
  file_path_key ← lift (file_path_hash (fr_path file_record) algo);
  mark file_path_key ;;
  content_key ← lift (file_content_hash value algo);
  mark content_key.

Definition mark_symlink (path value : bytes) : M Live unit :=
  path_key ← lift (symlink_path_hash path algo);
  mark path_key ;;
  content_key ← lift (symlink_content_hash value algo);
  mark content_key.

(** ** Versions, level by level *)

Abbreviation Frontier := (list (bytes * bytes)).

(** The entries of a level that have to be read, with their offsets. *)
Fixpoint to_read (frontier : Frontier) : M Live (list (bytes * bytes * Z)) :=
  match frontier with
  | [] => mret []
  | (hash, path) :: frontier =>
    fresh ← insert_live hash;
    if negb fresh then
      path_key ← lift (dir_key_of path);
      mark path_key ;;
      to_read frontier
    else
      o ← lift (get_kv_entry s hash);
      rest ← to_read frontier;
      mret (match o with
            | Some kv => if kv_entry_type kv =? KV_TYPE_CHUNK then rest else (hash, path, kv_offset kv) :: rest
            | None => rest
            end)
  end.

Fixpoint next_children (path : bytes) (children : list ChildEntry) : M Live Frontier :=
  match children with
  | [] => mret []
  | child :: children =>
    child_type ← lift (EntryType_from_u8 (b2z (ce_entry_type child)));
    match child_type with
    | DirectoryIndex | FileRecordEntry | Symlink =>
      rest ← next_children path children;
      mret ((ce_hash child, child_path path (ce_name child)) :: rest)
    | _ => mark (ce_hash child) ;; next_children path children
    end
  end.

Definition visit (fuel : nat) (hash path : bytes) : M Live Frontier :=
  o ← lift (get_entry_including_deleted s hash);
  match o with
  | None => mret []
  | Some (header, _, value) =>
    o ← follow_link value;
    match o with
    | None => mret []
    | Some value =>
      match eh_entry_type header with
      | DirectoryIndex =>
        path_key ← lift (dir_key_of path);
        mark path_key ;;
        if bool_decide (value = []) then mret [] else
        children ← entry_children fuel (b2z (eh_entry_version header)) value;
        next_children path children
      | FileRecordEntry => mark_file_record (b2z (eh_entry_version header)) value ;; mret []
      | Symlink => mark_symlink path value ;; mret []
      | _ => mret []
      end
    end
  end.

Fixpoint visit_all (fuel : nat) (entries : list (bytes * bytes * Z)) : M Live Frontier :=
  match entries with
  | [] => mret []
  | (hash, path, _) :: entries =>
    next ← visit fuel hash path;
    rest ← visit_all fuel entries;
    mret (next ++ rest)
  end.

(** [while !frontier.is_empty()], a unit of [rounds] per level. *)
Fixpoint walk_versions_bfs (fuel rounds : nat) (frontier : Frontier) : M Live unit :=
  match frontier with
  | [] => mret tt
  | _ =>
    match rounds with
    | O => fun _ => None
    | S rounds =>
      entries ← to_read frontier;
      next ← visit_all fuel (sort_by (fun a b : bytes * bytes * Z => a.2 <=? b.2) entries);
      walk_versions_bfs fuel rounds next
    end
  end.

(** ** System tables, depth first *)

Fixpoint mark_entry_recursive (fuel depth : nat) (hash path : bytes) : M Live unit :=
  match depth with
  | O => fun _ => None
  | S depth =>
    fresh ← insert_live hash;
    if negb fresh then mret tt else
    o ← lift (get_entry_including_deleted s hash);
    match o with
    | None => mret tt
    | Some (header, _, value) =>
      o ← follow_link value;
      match o with
      | None => mret tt
      | Some value =>
        match eh_entry_type header with
        | DirectoryIndex =>
          path_key ← lift (dir_key_of path);
          mark path_key ;;
          if bool_decide (value = []) then mret tt else
          children ← entry_children fuel (b2z (eh_entry_version header)) value;
          for_each children (fun child => mark_entry_recursive fuel depth (ce_hash child) (child_path path (ce_name child)))
        | FileRecordEntry => mark_file_record (b2z (eh_entry_version header)) value
        | Symlink => mark_symlink path value
        | _ => mret tt
        end
      end
    end
  end.

Definition mark_system_entries (fuel depth : nat) : M Live unit :=
  for_each [lit "/.aeordb-system"; lit "/.aeordb-config"] (fun prefix =>
    dir_hash ← lift (dir_key_of prefix);
    o ← lift (get_entry_including_deleted s dir_hash);
    match o with
    | Some _ => mark_entry_recursive fuel depth dir_hash prefix
    | None => mret tt
    end).

(** ** Tasks and the path index *)

Definition mark_task_entries `{TaskJson} : M Live unit :=
  let registry_key := blake3 (lit "::aeordb:task:_registry") in
  mark registry_key ;;
  o ← lift (get_entry s registry_key);
  match o with
  | Some (_, _, value) =>
    match task_ids value with
    | Some ids => for_each ids (fun id => mark (blake3 (lit "::aeordb:task:" ++ id)))
    | None => mret tt
    end
  | None => mret tt
  end.

(** The file whose record this index entry keeps under the key of its path. *)
Definition mark_path_file (entry : KVEntry) : M Live unit :=
  if negb (kv_entry_type entry =? KV_TYPE_FILE_RECORD) then mret tt else
  o ← lift (get_entry s (kv_hash entry));
  match o with
  | None => mret tt
  | Some (header, _, value) =>
    match FileRecord_deserialize value hash_length (b2z (eh_entry_version header)) with
    | Panic => lift Panic
    | Err _ => mret tt
    | Ok file_record =>
      path_key ← lift (file_path_hash (fr_path file_record) algo);
      if negb (bool_decide (kv_hash entry = path_key)) then mret tt else
      mark (kv_hash entry) ;;
      for_each (fr_chunk_hashes file_record) mark ;;
      content_key ← lift (file_content_hash value algo);
      mark content_key ;;
      identity_key ← lift (file_identity_hash (fr_path file_record) (fr_content_type file_record) (fr_chunk_hashes file_record) algo);
      mark identity_key
    end
  end.

Definition mark_live_path_file_records (all_entries : list KVEntry) : M Live unit := for_each all_entries mark_path_file.

Definition mark_deletion (entry : KVEntry) : M Live unit :=
  if kv_entry_type entry =? KV_TYPE_DELETION then mark (kv_hash entry) else mret tt.

(** ** Everything *)

Definition version_roots (head_hash : bytes) (snapshots : list SnapshotInfo) (forks : list ForkInfo) : Frontier :=
  (if no_head head_hash then [] else [(head_hash, lit "/")])
  ++ ((fun snapshot => (si_root_hash snapshot, lit "/")) <$> snapshots)
  ++ ((fun fork => (fi_root_hash fork, lit "/")) <$> forks).

Definition mark_all `{TaskJson} (fuel depth : nat) : M Live unit :=
  head_hash ← lift (head_hash s);
  snapshots ← lift (list_snapshots s);
  forks ← lift (list_forks s);
  walk_versions_bfs fuel depth (version_roots head_hash snapshots forks) ;;
  for_each snapshots (fun snapshot => key ← lift (compute_hash algo (lit "snap:" ++ si_name snapshot)); mark key) ;;
  for_each forks (fun fork => key ← lift (compute_hash algo (lit "::aeordb:fork:" ++ fi_name fork)); mark key) ;;
  mark_system_entries fuel depth ;;
  mark_task_entries ;;
  all_entries ← lift (iter_kv_entries s);
  mark_live_path_file_records all_entries ;;
  for_each all_entries mark_deletion.

Definition gc_mark `{TaskJson} (fuel depth : nat) : option (res Live) :=
  match mark_all fuel depth ∅ with
  | Some (Ok _, live) => Some (Ok live)
  | Some (Err e, _) => Some (Err e)
  | Some (Panic, _) => Some Panic
  | None => None
  end.
End Mark.

(** ** Sweeping *)

Abbreviation Garbage := (bytes * Z * Z)%type.

(** The entries outside [live], with their offsets and sizes. *)
Fixpoint find_garbage (s : StorageEngine) (live : Live) (dry_run : bool) (entries : list KVEntry) : res (list Garbage) :=
  match entries with
  | [] => Ok []
  | entry :: entries =>
    if bool_decide (kv_hash entry ∈ live) || (negb dry_run && gc_recheck_contains s (kv_hash entry))
    then find_garbage s live dry_run entries else
    header ← read_entry_header_at s (kv_offset entry);
    rest ← find_garbage s live dry_run entries;
    Ok ((kv_hash entry, kv_offset entry, eh_total_length header) :: rest)
  end.

(** A candidate is still garbage when the index has it at the same place. *)
Fixpoint reverify (s : StorageEngine) (candidates : list Garbage) : res (list Garbage) :=
  match candidates with
  | [] => Ok []
  | (hash, offset, entry_size) :: candidates =>
    o ← get_kv_entry s hash;
    rest ← reverify s candidates;
    Ok (match o with
        | Some fresh => if (kv_offset fresh =? offset) && is_current_reusable_range s offset entry_size
                        then (hash, offset, entry_size) :: rest else rest
        | None => rest
        end)
  end.

(** How many, and how many bytes. *)
Definition totals (garbage : list Garbage) : Z * Z := (zlen garbage, foldr (fun g n => g.2 + n) 0 garbage).

Definition register_freed (freed : list Garbage) (vm : VoidManager) : VoidManager :=
  foldl (fun vm g => register_void vm g.1.2 g.2) vm freed.

Definition gc_sweep (live : Live) (dry_run : bool) : M StorageEngine (Z * Z) :=
  s ← gets id;
  all_entries ← lift (iter_kv_entries s);
  garbage ← lift (find_garbage s live dry_run all_entries);
  if dry_run || bool_decide (garbage = []) then mret (totals garbage) else
  verified ← lift (reverify s garbage);
  (if bool_decide (verified = []) then mret tt else remove_kv_entries_batch (fst ∘ fst <$> verified)) ;;
  modify (fun s => set_void_manager (register_freed verified (se_void_manager s)) s) ;;
  sync_voids_to_kv_writer ;;
  force_hot_tail_flush ;;
  mret (totals verified).

(** ** A collection *)

Record GcResult := {
  gc_versions_scanned : Z;
  gc_live_entries : Z;
  gc_garbage_entries : Z;
  gc_reclaimed_bytes : Z;
  gc_dry_run : bool;
}.

(** [loop { let pending = take(); if pending.is_empty() { break } .. }]. *)
Fixpoint drain_recheck `{SetOrder} (fuel depth rounds : nat) (live : Live) : M StorageEngine Live :=
  match rounds with
  | O => fun _ => None
  | S rounds =>
    pending ← take_gc_recheck;
    if bool_decide (pending = ∅) then mret live else
    s ← gets id;
    match for_each (set_iter pending) (fun hash => mark_entry_recursive s fuel depth hash []) live with
    | Some (Ok _, live) => drain_recheck fuel depth rounds live
    | Some (Err e, _) => lift (Err e)
    | Some (Panic, _) => lift Panic
    | None => fun _ => None
    end
  end.

(** Marking, what was written since, and sweeping. *)
Definition mark_and_sweep `{TaskJson, SetOrder} (fuel depth : nat) (dry_run : bool) : M StorageEngine (Z * (Z * Z)) :=
  s ← gets id;
  match gc_mark s fuel depth with
  | None => fun _ => None
  | Some r =>
    live ← lift r;
    live ← (if dry_run then mret live else drain_recheck fuel depth 2 live);
    swept ← gc_sweep live dry_run;
    mret (Z.of_nat (size live), swept)
  end.

Definition PRE_GC : bytes := lit "_aeordb_pre_gc_".

(** All but the last three of the snapshots made before collections; a failure is
    logged. *)
Definition drop_old_pre_gc (now : Z) : M StorageEngine unit :=
  s ← gets id;
  match list_snapshots s with
  | Ok snapshots =>
    let names := filter (fun name => starts_with name PRE_GC = true) (si_name <$> snapshots) in
    let names := reverse (sort_by (fun a b => match lex_compare a b with Gt => false | _ => true end) names) in
    for_each (drop 3 names) (fun old_name => ignore_err (delete_snapshot now old_name))
  | Err _ => mret tt
  | Panic => lift Panic
  end.

(** The safety snapshot and the retention of older ones, before marking.  [stamp] is
    the time and the random part of the snapshot's name. *)
Definition prepare_gc `{LifecycleJson} (now : Z) (stamp : bytes) : M StorageEngine unit :=
  s ← gets id;
  enabled ← lift (snapshot_writes_enabled s);
  (if enabled : bool then _ ← create_snapshot now (PRE_GC ++ stamp) ∅; mret tt else mret tt) ;;
  drop_old_pre_gc now ;;
  ignore_err (_ ← prune_expired_snapshots now; mret tt).

Definition run_gc `{LifecycleJson, TaskJson, SetOrder} (now : Z) (stamp : bytes) (fuel depth : nat) (dry_run : bool)
    : M StorageEngine GcResult :=
  (if dry_run then mret tt else begin_gc_recheck) ;;
  finally (
    (if dry_run then mret tt else prepare_gc now stamp) ;;
    s ← gets id;
    snapshots ← lift (list_snapshots s);
    forks ← lift (list_forks s);
    '(live_entries, (garbage_entries, reclaimed_bytes)) ← mark_and_sweep fuel depth dry_run;
    mret {| gc_versions_scanned := 1 + zlen snapshots + zlen forks; gc_live_entries := live_entries;
            gc_garbage_entries := garbage_entries; gc_reclaimed_bytes := reclaimed_bytes; gc_dry_run := dry_run |})
    (if dry_run then mret tt else end_gc_recheck).
End Gc.
