(* ===== verification/GcSweep.v ===== *)
(** Sweeping: exactly the entries outside the live set leave the content, their spans
    become free space, and everything else stays. *)
From S2P Require Import Prelude Sorted Codec EntryFormat Records KvEntry KvPages FileIo FileHeader VoidManager AppendWriter Converters Nvt StateM KvSnapshot DiskKv DiskKvPages DiskKvSpec DiskKvRefine StorageEngine EngineContent EngineWrites EngineSpec EngineStore EngineOps EngineBatch EngineReads EngineRefine EngineApi EngineImpl EngineChunks Files Versions Gc.

Local Open Scope Z_scope.

Section GcSweep.
Context `{Crc32, Blake3, ToScalar, HashOrder}.

(** ** Headers *)

Lemma read_header_shared file off e rest : suffix_at file off (entry_bytes e ++ rest) -> entry_ok e ->
  read_entry_header_at_shared file off = Ok (le_header e).
Proof.
  intros Hs He. pose proof (ok_header _ He) as Hwf.
  assert (Hs' : suffix_at file off (EntryHeader_serialize (le_header e) ++ (le_key e ++ le_value e) ++ rest))
    by (unfold entry_bytes in Hs; by rewrite <- !app_assoc in *).
  destruct (shared_fixed _ _ _ _ Hs' Hwf) as (fixed & E1 & E2 & _).
  destruct (EntryHeader_serialize_split (le_header e)) as (fixed' & Es & Hf). rewrite Es, <- app_assoc in Hs'.
  rewrite (file_read_at _ _ _ _ _ Hs' Hf) in E1. injection E1 as ->.
  unfold read_entry_header_at_shared. rewrite (file_read_at _ _ _ _ _ Hs' Hf), bind_ret. cbv zeta. rewrite E2. cbn [ok_or]. rewrite bind_ret.
  apply (suffix_at_app _ _ _ _ _) with (2 := Hf) in Hs'. rewrite (file_read_at _ _ _ _ _ Hs' (wf_hash _ Hwf)), bind_ret, <- Es.
  rewrite <- (app_nil_r (EntryHeader_serialize _)), EntryHeader_decode_encode, bind_ret by done.
  by rewrite (entry_ok_payload_fits e He).
Qed.

Section State.
Context (s : StorageEngine) (m : gmap bytes KVEntry) (c : gmap bytes Stored) (E : engine_ok s m c).

(** A live entry's span is in the log, and its header says how long it is. *)
Lemma live_span h e : live (m !! h) = Some e ->
  (exists hd, read_entry_header_at s (kv_offset e) = Ok hd /\ eh_total_length hd = kv_total_length e)
  /\ is_current_reusable_range s (kv_offset e) (kv_total_length e) = true
  /\ 63 <= kv_total_length e /\ wal_start (se_kv s) <= kv_offset e
  /\ kv_offset e + kv_total_length e <= aw_current_offset (se_writer s).
Proof.
  intros He. pose proof (en_parts _ _ _ E) as P. pose proof (wal_start_ge _ _ _ _ _ P) as [Hws Hpg].
  destruct (live_suffix s m c h e E He) as (le & rest & Hok & _ & _ & Hr & Hl & Hlen & Hv). pose proof Hv as Hb.
  pose proof (writer_bounds _ _ _ _ _ P) as Hwb. change (wal_start (kv_on_file s)) with (wal_start (se_kv s)) in *.
  destruct (co_live _ _ _ _ _ _ (eo_content _ _ _ _ _ P) h e He) as (st & _ & [_ Hst Hsp]).
  change (wal_start (kv_on_file s)) with (wal_start (se_kv s)) in *. split_and!; try lia.
  - exists (le_header le). split; [|done]. unfold read_entry_header_at, guarded. rewrite (en_running _ _ _ E), Hwb. cbv beta iota.
    rewrite (proj2 (Z.ltb_ge _ _)), (proj2 (Z.leb_gt _ _)) by lia. cbn [orb].
    by rewrite (read_header_shared _ _ le rest Hr Hok), bind_ret, <- Hl, Hv.
  - unfold is_current_reusable_range. by rewrite Hwb.
Qed.

Lemma kv_listed : exists es, iter_kv_entries s = Ok es /\ NoDup (kv_hash <$> es) /\
  forall e, e ∈ es <-> live (m !! kv_hash e) = Some e.
Proof.
  destruct (snapshot_map s m c E) as [Hok Hv]. destruct (snapshot_iter_all_ok _ Hok) as (es & Ees & Hnd & Hel).
  exists es. unfold iter_kv_entries, guarded. rewrite (en_running _ _ _ E). split; [done|]. split; [done|].
  intros e. by rewrite Hel, Hv.
Qed.

Definition as_garbage (e : KVEntry) : bytes * Z * Z := (kv_hash e, kv_offset e, kv_total_length e).

(** What the sweep keeps. *)
Definition spared (keep : gset bytes) (h : bytes) : Prop := h ∈ keep \/ gc_recheck_contains s h = true.

#[export] Instance spared_dec keep h : Decision (spared keep h).
Proof. unfold spared. apply _. Defined.

Lemma find_garbage_ok keep es : Forall (fun e => live (m !! kv_hash e) = Some e) es ->
  find_garbage s keep false es = Ok (as_garbage <$> filter (fun e => ~ spared keep (kv_hash e)) es).
Proof.
  induction 1 as [|e es He Hes IH]; [done|]. cbn [find_garbage negb andb]. rewrite filter_cons.
  destruct (decide (spared keep (kv_hash e))) as [Hk|Hk].
  - rewrite decide_False by (intros Hn; by apply Hn). rewrite IH.
    assert (bool_decide (kv_hash e ∈ keep) || gc_recheck_contains s (kv_hash e) = true) as ->; [|done].
    destruct Hk as [Hk|Hk]; [by rewrite bool_decide_eq_true_2|by rewrite Hk, orb_true_r].
  - rewrite decide_True by done.
    assert (bool_decide (kv_hash e ∈ keep) || gc_recheck_contains s (kv_hash e) = false) as ->.
    { apply orb_false_iff. split; [apply bool_decide_eq_false|apply not_true_is_false]; intros Hx; apply Hk; [by left|by right]. }
    destruct (live_span _ e He) as ((hd & Hr & Hl) & _). rewrite Hr, bind_ret, IH, bind_ret, Hl. done.
Qed.

Lemma reverify_ok es : Forall (fun e => live (m !! kv_hash e) = Some e) es -> reverify s (as_garbage <$> es) = Ok (as_garbage <$> es).
Proof.
  induction 1 as [|e es He Hes IH]; [done|]. destruct (snapshot_map s m c E) as [Hok Hv]. cbn [fmap list_fmap reverify as_garbage].
  unfold get_kv_entry. rewrite (snapshot_get_ok _ _ Hok), bind_ret, IH, bind_ret, Hv, He, Z.eqb_refl.
  by rewrite (proj1 (proj2 (live_span _ e He))).
Qed.
End State.

(** ** Reclaiming *)

(** What index operations and header writes leave alone. *)
Definition bystanders (s : StorageEngine) : VoidManager * option (gset bytes) := (se_void_manager s, se_gc_recheck s).
Definition frame_of (s : StorageEngine) : VoidManager * option (gset bytes) * FileHeader * Z * gmap bytes bytes :=
  (bystanders s, aw_file_header (se_writer s), aw_current_offset (se_writer s), se_dir_content_cache s).

Lemma on_kv_frame {A} (k : M DiskKVStore A) : preserves frame_of (on_kv k).
Proof. intros s r s' E. unfold on_kv in E. destruct (k (kv_on_file s)) as [[r' kv]|]; [|done]. by injection E as _ <-. Qed.

Lemma remove_batch_frame hs : preserves frame_of (remove_kv_entries_batch hs).
Proof. unfold remove_kv_entries_batch, operation_guard, ensure_writable. pose proof (@on_kv_frame unit). preserves. Qed.

Lemma same_wal_start s s' m m' c c' : engine_ok s m c -> engine_ok s' m' c' -> aw_file_header (se_writer s') = aw_file_header (se_writer s) ->
  wal_start (se_kv s') = wal_start (se_kv s).
Proof.
  intros E E' Hh. pose proof (en_parts _ _ _ E) as P. pose proof (en_parts _ _ _ E') as P'.
  pose proof (eo_block _ _ _ _ _ P). pose proof (eo_length _ _ _ _ _ P). pose proof (eo_block _ _ _ _ _ P'). pose proof (eo_length _ _ _ _ _ P').
  cbn in *. unfold wal_start. congruence.
Qed.

Definition span_list (es : list KVEntry) (i : Z) : Prop := exists e, e ∈ es /\ spans e i.

(** Spans that are apart and unused become free one by one. *)
Lemma register_freed_ok es : forall s m c, engine_ok s m c ->
  Forall (fun e => reclaimable s m (kv_offset e) (kv_total_length e) /\ 63 <= kv_total_length e) es ->
  ForallOrdPairs (fun e e' => forall i, spans e i -> ~ spans e' i) es ->
  let s' := set_void_manager (register_freed (as_garbage <$> es) (se_void_manager s)) s in
  engine_ok s' m c
  /\ (forall i, free (by_offset (se_void_manager s')) i <-> free (by_offset (se_void_manager s)) i \/ span_list es i)
  /\ total_void_space (se_void_manager s') = total_void_space (se_void_manager s) + (totals (as_garbage <$> es)).2.
Proof.
  induction es as [|e es IH]; intros s m c E Hes Hap; cbv zeta.
  { cbn. split; [by destruct s|]. split; [|lia]. intros i. split; [by left|]. intros [Hi|(e & He & _)]; [done|by apply elem_of_nil in He]. }
  apply Forall_cons in Hes as [[Hre Hlen] Hes]. inversion Hap as [|? ? He Hap']; subst.
  destruct (register_ok s m c _ _ E Hre Hlen) as [E1 Hoff]. set (s1 := set_void_manager (register_void _ _ _) s) in *.
  assert (Hnew : by_offset (se_void_manager s) !! kv_offset e = None).
  { destruct (by_offset (se_void_manager s) !! kv_offset e) as [z|] eqn:Ez; [|done]. destruct Hre as (_ & _ & _ & R4).
    destruct (R4 (kv_offset e)); [lia|]. exists (kv_offset e), z. pose proof (spans_range _ (eo_spans _ _ _ _ _ (en_parts _ _ _ E)) _ _ Ez). split; [done|lia]. }
  destruct (IH s1 m c E1) as (E2 & Hfree & Htot); [|done|].
  - apply Forall_forall. intros x Hx. rewrite Forall_forall in Hes, He. destruct (Hes x Hx) as [(R1 & R2 & R3 & R4) Hxl].
    split; [|done]. split_and!; try done. intros i Hi Hf. rewrite Hoff in Hf.
    apply free_put in Hf as [Hf|Hf]; [by apply (R4 i)|by apply (He x Hx i)].
  - cbn [fmap list_fmap register_freed foldl] in *. split; [exact E2|]. split.
    2: { etransitivity; [exact Htot|]. cbn [totals snd foldr as_garbage]. unfold total_void_space. rewrite Hoff, total_insert by done. cbn. lia. }
    intros i. etransitivity; [exact (Hfree i)|]. rewrite Hoff. split.
    + intros [[Hf|Hf]%free_put|(x & Hx & Hi)]; [by left| |].
      * right. exists e. split; [by left|done].
      * right. exists x. split; [by right|done].
    + intros [Hf|(x & [->|Hx]%elem_of_cons & Hi)].
      * left. destruct Hf as (o & z & Ho & Hi). exists o, z. split; [|done]. rewrite lookup_insert_ne; [done|]. intros <-. congruence.
      * left. exists (kv_offset e), (kv_total_length e). by rewrite lookup_insert_eq.
      * right. by exists x.
Qed.

(** ** The sweep *)

Lemma or_durability_bystanders {A} context (k : M StorageEngine A) : preserves bystanders k -> preserves bystanders (or_durability_failure context k).
Proof.
  intros Hk s r s' E. unfold or_durability_failure in E. destruct (k s) as [[[a|e|] s1]|] eqn:Ek; [|..|done].
  - injection E as _ <-. by apply (Hk _ _ _ Ek).
  - unfold record_durability_failure in E. injection E as _ <-. cbn. by apply (Hk _ _ _ Ek).
  - injection E as _ <-. by apply (Hk _ _ _ Ek).
Qed.

Lemma on_writer_bystanders {A} (f : AppendWriter -> res (A * AppendWriter)) : preserves bystanders (on_writer f).
Proof. intros s r s' E. unfold on_writer in E. destruct (f (se_writer s)) as [[a w]|e|]; by injection E as _ <-. Qed.

Lemma on_kv_bystanders {A} (k : M DiskKVStore A) : preserves bystanders (on_kv k).
Proof. intros s r s' E. unfold on_kv in E. destruct (k (kv_on_file s)) as [[r' kv]|]; [|done]. by injection E as _ <-. Qed.

#[local] Hint Resolve or_durability_bystanders on_writer_bystanders on_kv_bystanders : preserves.

Lemma force_tail_bystanders : preserves bystanders force_hot_tail_flush.
Proof. unfold force_hot_tail_flush, ensure_writable, publish_tail. preserves. Qed.

#[local] Hint Resolve on_kv_preserves or_durability_preserves publish_tail_preserves : preserves.

Lemma force_tail_head : preserves head_and_cache force_hot_tail_flush.
Proof. unfold force_hot_tail_flush, ensure_writable. preserves. Qed.

Lemma map_updates_other f hs h : h ∉ hs -> forall m, foldl (fun m h => map_update f h m) m hs !! h = m !! h.
Proof.
  induction hs as [|k hs IH]; intros Hh m; [done|]. apply not_elem_of_cons in Hh as [Hne Hh]. cbn [foldl]. rewrite IH by done.
  unfold map_update. destruct (live (m !! k)); [|done]. by apply lookup_insert_ne.
Qed.

Lemma deletes_lookup {A} hs h : forall c : gmap bytes A, foldl (fun c h => delete h c) c hs !! h = if decide (h ∈ hs) then None else c !! h.
Proof.
  induction hs as [|k hs IH]; intros c; [done|]. cbn [foldl]. rewrite IH. destruct (decide (h ∈ hs)) as [Hin|Hin].
  - by rewrite decide_True by (by right).
  - destruct (decide (h = k)) as [->|Hne]; [by rewrite lookup_delete_eq, decide_True by (by left)|].
    rewrite lookup_delete_ne, decide_False by (done || (intros [?|?]%elem_of_cons; done)). done.
Qed.

Section Sweep.
Context (s : StorageEngine) (m : gmap bytes KVEntry) (c : gmap bytes Stored) (E : engine_ok s m c) (keep : gset bytes).

(** The content that stays. *)
Definition kept_content : gmap bytes Stored := filter (fun hv => spared s keep hv.1) c.

Context (F : list KVEntry) (Hnd : NoDup (kv_hash <$> F))
  (HF : forall e, e ∈ F <-> live (m !! kv_hash e) = Some e /\ ~ spared s keep (kv_hash e)).

Lemma dropped_hash h : h ∈ kv_hash <$> F <-> is_Some (c !! h) /\ ~ spared s keep h.
Proof.
  pose proof (eo_content _ _ _ _ _ (en_parts _ _ _ E)) as Hc. rewrite list_elem_of_fmap. split.
  - intros (e & -> & [He Hs]%HF). destruct (co_live _ _ _ _ _ _ Hc _ _ He) as (st & -> & _). done.
  - intros [[st Hst] Hs]. destruct (live (m !! h)) as [e|] eqn:El; [|by rewrite (co_dead _ _ _ _ _ _ Hc h El) in Hst].
    pose proof (live_hash s m c h e E El) as Hh. exists e. split; [done|]. apply HF. by rewrite Hh.
Qed.

Lemma kept_deletes : foldl (fun c h => delete h c) c (kv_hash <$> F) = kept_content.
Proof.
  apply map_eq. intros h. rewrite deletes_lookup. unfold kept_content. rewrite map_lookup_filter.
  destruct (decide (h ∈ kv_hash <$> F)) as [Hin|Hin]; destruct (c !! h) as [st|] eqn:Ec; cbn; try done.
  - apply dropped_hash in Hin as [_ Hs]. by rewrite option_guard_False.
  - rewrite option_guard_True; [done|]. cbn. destruct (decide (spared s keep h)) as [|Hs]; [done|]. destruct Hin. apply dropped_hash. by rewrite Ec.
Qed.

Lemma kept_size : size c = (size kept_content + length F)%nat.
Proof.
  rewrite <- !size_dom. assert (Hdom : dom kept_content = dom c ∖ list_to_set (kv_hash <$> F)).
  { apply set_eq. intros h. rewrite elem_of_difference, elem_of_list_to_set, !elem_of_dom, dropped_hash. unfold kept_content.
    rewrite map_lookup_filter. destruct (c !! h) as [st|]; cbn; [|split; [by intros [? ?]|by intros [[? ?] _]]].
    destruct (decide (spared s keep h)); [rewrite option_guard_True by done|rewrite option_guard_False by done]; split; try done.
    - intros _. split; [done|]. by intros [_ ?].
    - by intros [? ?].
    - intros [_ Hn]. by destruct Hn. }
  assert (Hsub : list_to_set (kv_hash <$> F) ⊆ dom c).
  { intros h Hh%elem_of_list_to_set. apply dropped_hash in Hh as [Hh _]. by apply elem_of_dom. }
  rewrite Hdom, size_difference, size_list_to_set, length_fmap by done.
  apply subseteq_size in Hsub. rewrite size_list_to_set, length_fmap in Hsub by done. lia.
Qed.

(** The dropped spans are apart, and unused once the index forgot them. *)
Lemma dropped_apart : ForallOrdPairs (fun e e' => forall i, spans e i -> ~ spans e' i) F.
Proof.
  pose proof (eo_content _ _ _ _ _ (en_parts _ _ _ E)) as Hc. assert (Hl : Forall (fun e => live (m !! kv_hash e) = Some e) F).
  { apply Forall_forall. by intros e [? _]%HF. }
  clear HF. induction F as [|e es IH]; [constructor|]. apply Forall_cons in Hl as [He Hl]. cbn in Hnd. apply NoDup_cons in Hnd as [Hni Hnd'].
  constructor; [|by apply IH]. apply Forall_forall. intros x Hx. rewrite Forall_forall in Hl.
  apply (co_apart _ _ _ _ _ _ Hc (kv_hash e) (kv_hash x)); [done|by apply Hl|]. intros Heq. apply Hni. rewrite Heq. by apply list_elem_of_fmap_2.
Qed.

Lemma dropped_reclaimable s1 m1 c1 : engine_ok s1 m1 c1 -> frame_of s1 = frame_of s ->
  (forall h, h ∈ kv_hash <$> F -> live (m1 !! h) = None) -> (forall h, h ∉ kv_hash <$> F -> m1 !! h = m !! h) ->
  Forall (fun e => reclaimable s1 m1 (kv_offset e) (kv_total_length e) /\ 63 <= kv_total_length e) F.
Proof.
  intros E1 [= Hvm _ Hh Ho _] Hdead Hsame. pose proof (eo_content _ _ _ _ _ (en_parts _ _ _ E)) as Hc.
  apply Forall_forall. intros e He. pose proof (proj1 (HF e) He) as [Hl _].
  destruct (live_span s m c E _ e Hl) as (_ & _ & Hlen & Hs & Hx). split; [|done].
  unfold reclaimable. rewrite (same_wal_start s s1 m m1 c c1 E E1 Hh), Ho, Hvm. split_and!; try done.
  - intros h x i Hx' Hi Hi'. destruct (decide (h ∈ kv_hash <$> F)) as [Hin|Hin]; [by rewrite (Hdead h Hin) in Hx'|].
    rewrite Hsame in Hx' by done. refine (co_apart _ _ _ _ _ _ Hc h (kv_hash e) x e Hx' Hl _ i Hi Hi').
    intros ->. apply Hin. by apply list_elem_of_fmap_2.
  - intros i Hi. by apply (co_free _ _ _ _ _ _ Hc _ e i Hl).
Qed.

(** Dropping them from the index and registering their spans. *)
Lemma reclaim_ok : runs (remove_kv_entries_batch (kv_hash <$> F) ;;
    modify (fun s => set_void_manager (register_freed (as_garbage <$> F) (se_void_manager s)) s)) s (fun _ s' =>
  exists m', engine_ok s' m' kept_content /\ dom m' = dom m /\ grows 0 s s' /\ head_and_cache s' = head_and_cache s
    /\ se_gc_recheck s' = se_gc_recheck s
    /\ (forall i, free (by_offset (se_void_manager s')) i <-> free (by_offset (se_void_manager s)) i \/ span_list F i)
    /\ total_void_space (se_void_manager s') = total_void_space (se_void_manager s) + (totals (as_garbage <$> F)).2).
Proof.
  apply runs_bind. eapply runs_mono.
  { apply (runs_preserves frame_of); [apply remove_batch_frame|]. by apply remove_batch_ok. }
  intros [] s1 [[E1 G1] Hfr]. cbv beta in *. rewrite kept_deletes in E1. run.
  set (m1 := foldl _ m _) in *.
  assert (Hsame : forall h, h ∉ kv_hash <$> F -> m1 !! h = m !! h) by (intros h Hh; by apply map_updates_other).
  assert (Hdead : forall h, h ∈ kv_hash <$> F -> live (m1 !! h) = None).
  { intros h Hh. destruct (live (m1 !! h)) as [e|] eqn:El; [|done].
    destruct (co_live _ _ _ _ _ _ (eo_content _ _ _ _ _ (en_parts _ _ _ E1)) h e El) as (st & Hst & _).
    unfold kept_content in Hst. apply map_lookup_filter_Some in Hst as [_ Hs]. by apply dropped_hash in Hh as [_ Hn]. }
  destruct (register_freed_ok F s1 m1 kept_content E1) as (E2 & Hfree & Htot).
  - by eapply dropped_reclaimable.
  - apply dropped_apart.
  - injection Hfr as Hvm Hgc Hh Ho Hc. exists m1. split; [exact E2|]. split; [apply dom_map_updates|]. split; [by destruct G1|].
    unfold head_and_cache. cbn. rewrite Hh, Hc, Hgc. split; [done|]. split; [done|]. split; [intros i; rewrite (Hfree i); by rewrite Hvm|]. etransitivity; [exact Htot|]. by rewrite Hvm.
Qed.
End Sweep.

(** On a working engine a sweep returns; afterwards the content is what is in [keep] or
    was written since marking began, and the free space has grown by exactly the spans of
    what was dropped. *)
Lemma sweep_ok s m c keep : engine_ok s m c -> exists F : list KVEntry, NoDup (kv_hash <$> F)
  /\ (forall e, e ∈ F <-> live (m !! kv_hash e) = Some e /\ ~ spared s keep (kv_hash e))
  /\ runs (gc_sweep keep false) s (fun r s' => exists m', engine_ok s' m' (kept_content s c keep) /\ dom m' = dom m /\ grows 0 s s'
       /\ head_and_cache s' = head_and_cache s /\ se_gc_recheck s' = se_gc_recheck s /\ r = totals (as_garbage <$> F)
       /\ (forall i, free (by_offset (se_void_manager s')) i <-> free (by_offset (se_void_manager s)) i \/ span_list F i)
       /\ total_void_space (se_void_manager s') = total_void_space (se_void_manager s) + r.2).
Proof.
  intros E. destruct (kv_listed s m c E) as (es & Ees & Hnd & Hel). set (F := filter (fun e => ~ spared s keep (kv_hash e)) es).
  assert (HF : forall e, e ∈ F <-> live (m !! kv_hash e) = Some e /\ ~ spared s keep (kv_hash e)).
  { intros e. unfold F. rewrite list_elem_of_filter, Hel. tauto. }
  assert (HndF : NoDup (kv_hash <$> F)) by (eapply sublist_NoDup; [exact Hnd|apply fmap_sublist, sublist_filter]).
  exists F. split; [done|]. split; [exact HF|]. unfold gc_sweep. run. apply (runs_lift _ _ _ _ Ees). run.
  assert (Hes : Forall (fun e => live (m !! kv_hash e) = Some e) es) by (apply Forall_forall; intros e He; by apply Hel).
  apply (runs_lift _ _ _ _ (find_garbage_ok s m c E keep es Hes)). cbn [orb]. fold F. case_bool_decide as Hnil.
  { apply fmap_nil_inv in Hnil. run. exists m. rewrite Hnil in *. split.
    - rewrite <- (kept_deletes s m c E keep [] HF). done.
    - split; [done|]. split; [apply grows_refl|]. split; [done|]. split; [done|]. split; [done|]. split; [|cbn; lia]. intros i. split; [by left|].
      intros [Hi|(e & He & _)]; [done|by apply elem_of_nil in He]. }
  run. assert (HlF : Forall (fun e => live (m !! kv_hash e) = Some e) F) by (apply Forall_forall; by intros e [? _]%HF).
  apply (runs_lift _ _ _ _ (reverify_ok s m c E F HlF)). rewrite bool_decide_eq_false_2 by done.
  rewrite <- list_fmap_compose. change (fst ∘ fst ∘ as_garbage) with kv_hash. apply runs_bind.
  pose proof (reclaim_ok s m c E keep F HndF HF) as Hrec. apply runs_bind_inv in Hrec. eapply runs_mono; [exact Hrec|]. intros [] s1 Hrec1.
  apply runs_bind. eapply runs_mono; [exact Hrec1|]. clear Hrec Hrec1. intros [] s2 (m2 & E2 & Hd & G2 & Hh & Hg & Hfree & Htot). run.
  eapply runs_mono; [apply (runs_preserves (fun s => (bystanders s, head_and_cache s))); [|by apply pending_voids_ok]|].
  { intros a r b Eab. rewrite (on_kv_bystanders _ _ _ _ Eab). by rewrite (on_kv_preserves _ _ _ _ Eab). }
  intros [] s3 [[E3 G3] [= V3 R3 Hh3 Hc3]]. run.
  eapply runs_mono; [apply (runs_preserves (fun s => (bystanders s, head_and_cache s))); [|by apply force_tail_ok]|].
  { intros a r b Eab. rewrite (force_tail_bystanders _ _ _ Eab). by rewrite (force_tail_head _ _ _ Eab). }
  intros [] s4 [[E4 G4] [= V4 R4 Hh4 Hc4]]. run. exists m2. split; [done|]. split; [done|]. split.
  - eapply grows_step; [exact G2|]. by eapply grows_step.
  - unfold head_and_cache in *. split; [congruence|]. split; [congruence|]. split; [done|]. rewrite V4, V3. by split.
Qed.
End GcSweep.
