(* ===== verification/GcMark.v ===== *)
(** Marking: every entry that a version, a system table or the path index refers to is in
    the live set, and marking returns when these entries decode.

    [reach] is the closure of the roots under the references of entries; the set of
    live hashes is proved to contain it, with the chunks of files and the nodes of large
    directories.  The walk skips what is live already, so hashes that are marked without
    being followed (keys of paths, chunks) must not be hashes of entries to follow
    ([fo_apart]). *)
From S2P Require Import Prelude Sorted Codec EntryFormat Records KvEntry KvPages FileIo FileHeader VoidManager AppendWriter Converters Nvt StateM BTreeNode BTree KvSnapshot DiskKv DiskKvPages DiskKvSpec DiskKvRefine StorageEngine EngineContent EngineWrites EngineSpec EngineStore EngineOps EngineBatch EngineReads EngineRefine EngineApi EngineImpl EngineChunks Paths Files Directories Versions VersionTable Gc GcSweep.

Local Open Scope Z_scope.

(** ** References of an entry *)

Section Nodes.
Context `{Blake3} (c : gmap bytes Stored).

Fixpoint nodes_all (f : bytes -> option (list bytes * list ChildEntry)) (hs : list bytes) : option (list bytes * list ChildEntry) :=
  match hs with
  | [] => Some ([], [])
  | h :: hs => '(inner, es) ← f h; '(inner', es') ← nodes_all f hs; Some (h :: inner ++ inner', es ++ es')
  end.

(** The nodes below a B-tree node, and the children of the directory. *)
Fixpoint tree_nodes (fuel : nat) (value : bytes) : option (list bytes * list ChildEntry) :=
  match fuel with
  | O => None
  | S fuel =>
    match BTreeNode_deserialize value 32 0 with
    | Ok (Leaf leaf) => Some ([], ln_entries leaf)
    | Ok (Internal internal) => nodes_all (fun h => st ← c !! h; tree_nodes fuel (st_value st)) (in_children internal)
    | _ => None
    end
  end.

Definition listing (fuel : nat) (version : Z) (value : bytes) : option (list bytes * list ChildEntry) :=
  if bool_decide (value = []) then Some ([], []) else
  if is_btree_format value then tree_nodes fuel value else
  match deserialize_child_entries value 32 version with Ok es => Some ([], es) | _ => None end.

(** What an entry refers to: hashes that are only marked, and children to follow. *)
Record Node := { nd_marks : list bytes; nd_children : list ChildEntry }.

Definition followed (e : ChildEntry) : bool :=
  match EntryType_from_u8 (b2z (ce_entry_type e)) with Ok (DirectoryIndex | FileRecordEntry | Symlink) => true | _ => false end.

Definition file_marks (value : bytes) (r : FileRecord) : list bytes :=
  fr_chunk_hashes r ++ [blake3 (lit "file:" ++ fr_path r); blake3 (lit "filec:" ++ value)].

(** [None] for an entry that does not decode. *)
Definition value_node (fuel : nat) (st : Stored) (value : bytes) : option Node :=
  match st_type st with
  | DirectoryIndex =>
    '(inner, es) ← listing fuel (b2z (st_version st)) value;
    if forallb followed es then Some {| nd_marks := inner; nd_children := es |} else None
  | FileRecordEntry =>
    match FileRecord_deserialize value 32 (b2z (st_version st)) with
    | Ok r => Some {| nd_marks := file_marks value r; nd_children := [] |}
    | _ => None
    end
  | Symlink => Some {| nd_marks := [blake3 (lit "symlinkc:" ++ value)]; nd_children := [] |}
  | _ => Some {| nd_marks := []; nd_children := [] |}
  end.

(** An entry of 32 bytes is a link. *)
Definition node (fuel : nat) (st : Stored) : option Node :=
  if zlen (st_value st) =? 32 then
    content ← c !! st_value st;
    n ← value_node fuel st (st_value content);
    Some {| nd_marks := st_value st :: nd_marks n; nd_children := nd_children n |}
  else value_node fuel st (st_value st).

Definition node_at (fuel : nat) (h : bytes) : option Node := st ← c !! h; node fuel st.

(** The keys of a path. *)
Definition path_keys (p : bytes) : list bytes := [blake3 (lit "dir:" ++ p); blake3 (lit "symlink:" ++ p)].

Definition next_of (p : bytes) (n : Node) : list (bytes * bytes) := (fun e => (ce_hash e, child_path p (ce_name e))) <$> nd_children n.

Context (fuel : nat) (roots : list (bytes * bytes)).

Inductive reach : bytes -> bytes -> Prop :=
| reach_root h p : (h, p) ∈ roots -> reach h p
| reach_next h p n h' p' : reach h p -> node_at fuel h = Some n -> (h', p') ∈ next_of p n -> reach h' p'.

(** Everything reached is there, decodes and is not a chunk; what is marked on the way
    is apart from what is followed. *)
Record forest_ok : Prop := {
  fo_node h p : reach h p -> exists st n, c !! h = Some st /\ st_kv_type st <> KV_TYPE_CHUNK /\ node fuel st = Some n;
  fo_apart h p h' p' n : reach h p -> reach h' p' -> node_at fuel h' = Some n -> h ∈ nd_marks n ++ path_keys p' -> h = h';
}.

(** A list that has the roots and the children of its entries has everything reached. *)
Lemma reach_within (known : list (bytes * bytes)) h p : roots ⊆ known ->
  (forall h p n, (h, p) ∈ known -> node_at fuel h = Some n -> next_of p n ⊆ known) -> reach h p -> (h, p) ∈ known.
Proof. intros Hr Hk. induction 1 as [h p Hin|h p n h' p' _ IH Hn Hin]; [by apply Hr|by eapply Hk]. Qed.

Definition known_ok (known : list (bytes * bytes)) (hp : bytes * bytes) : bool :=
  match c !! hp.1 with
  | Some st => negb (st_kv_type st =? KV_TYPE_CHUNK) &&
    match node fuel st with
    | Some n => forallb (fun x => bool_decide (x ∈ known)) (next_of hp.2 n)
        && forallb (fun x : bytes * bytes => bool_decide (x.1 ∈ nd_marks n ++ path_keys hp.2 -> x.1 = hp.1)) known
    | None => false
    end
  | None => false
  end.

(** A check of a forest, given what is reached. *)
Lemma forest_check known : forallb (fun x => bool_decide (x ∈ known)) roots = true -> forallb (known_ok known) known = true ->
  forest_ok /\ forall h p, reach h p -> (h, p) ∈ known.
Proof.
  intros Hr Hk. assert (Hone : forall x, x ∈ known -> exists st n, c !! x.1 = Some st /\ st_kv_type st <> KV_TYPE_CHUNK /\ node fuel st = Some n
    /\ next_of x.2 n ⊆ known /\ forall y, y ∈ known -> y.1 ∈ nd_marks n ++ path_keys x.2 -> y.1 = x.1).
  { intros x Hx. rewrite forallb_forall in Hk. specialize (Hk x (proj1 (list_elem_of_In _ _) Hx)). unfold known_ok in Hk.
    destruct (c !! x.1) as [st|]; [|done]. apply andb_true_iff in Hk as [Ht Hk]. destruct (node fuel st) as [n|] eqn:En; [|done].
    apply andb_true_iff in Hk as [Hn Hm]. exists st, n. split; [done|]. split; [by apply negb_true_iff, Z.eqb_neq in Ht|]. split; [done|]. split.
    - intros y Hy. rewrite forallb_forall in Hn. by apply (bool_decide_eq_true_1 _ (Hn y (proj1 (list_elem_of_In _ _) Hy))).
    - intros y Hy. rewrite forallb_forall in Hm. by apply (bool_decide_eq_true_1 _ (Hm y (proj1 (list_elem_of_In _ _) Hy))). }
  assert (Hin : forall h p, reach h p -> (h, p) ∈ known).
  { intros h p. apply reach_within.
    - intros x Hx. rewrite forallb_forall in Hr. by apply (bool_decide_eq_true_1 _ (Hr x (proj1 (list_elem_of_In _ _) Hx))).
    - intros h' p' n Hx Hn. destruct (Hone _ Hx) as (st & n' & Hst & _ & Hn' & Hnext & _). unfold node_at in Hn. cbn [fst] in Hst.
      rewrite Hst in Hn. cbn in Hn. rewrite Hn' in Hn. by injection Hn as <-. }
  split; [split|done].
  - intros h p Hh%Hin. destruct (Hone _ Hh) as (st & n & Hst & Ht & Hn & _). by exists st, n.
  - intros h p h' p' n Hh%Hin Hh'%Hin Hn Hm. destruct (Hone _ Hh') as (st & n' & Hst & _ & Hn' & _ & Hap). unfold node_at in Hn. cbn [fst] in Hst.
    rewrite Hst in Hn. cbn in Hn. rewrite Hn' in Hn. injection Hn as <-. exact (Hap _ Hh Hm).
Qed.
End Nodes.

(** ** Steps of marking *)

(** A marking step adds hashes to the live set. *)
Definition marks {A : Type} (k : M Live A) (live : Live) (a : A) (added : list bytes) : Prop :=
  k live = Some (Ok a, list_to_set added ∪ live).

Lemma marks_ret {A : Type} (a : A) (live : Live) : marks (mret a) live a [].
Proof. unfold marks. cbn. by rewrite union_empty_l_L. Qed.

Lemma marks_mark h live : marks (mark h) live tt [h].
Proof. unfold marks, mark, modify. cbn. by rewrite union_empty_r_L. Qed.

Lemma marks_bind {A B : Type} (k : M Live A) (f : A -> M Live B) (live : Live) (a : A) (l : list bytes) (b : B) (l' : list bytes) :
  marks k live a l -> marks (f a) (list_to_set l ∪ live) b l' -> marks (k ≫= f) live b (l ++ l').
Proof.
  unfold marks, mbind, M_bind. intros -> ->. do 2 f_equal. rewrite list_to_set_app_L. set_solver.
Qed.

Lemma marks_lift {A B : Type} (r : res A) (a : A) (f : A -> M Live B) (live : Live) (b : B) (l : list bytes) : r = Ok a -> marks (f a) live b l -> marks (lift r ≫= f) live b l.
Proof. intros -> Hf. exact Hf. Qed.

Lemma marks_each hs live : marks (for_each hs mark) live tt hs.
Proof.
  revert live. induction hs as [|h hs IH]; intros live; [apply marks_ret|]. cbn [for_each].
  change (h :: hs) with ([h] ++ hs). eapply marks_bind; [apply marks_mark|apply IH].
Qed.

Lemma mark_names {A} (f : A -> bytes) (key : A -> res bytes) (xs : list A) (live : Live) : (forall x, key x = Ok (f x)) ->
  marks (for_each xs (fun x => k ← lift (key x); mark k)) live tt (f <$> xs).
Proof.
  intros Hk. revert live. induction xs as [|x xs IH]; intros live; [apply marks_ret|]. cbn [for_each].
  change (f <$> x :: xs) with ([f x] ++ (f <$> xs)). eapply marks_bind; [|apply IH]. eapply marks_lift; [apply Hk|apply marks_mark].
Qed.

(** A run that only adds to the set. *)
Definition adds (k : M Live unit) (live : Live) (Q : Live -> Prop) : Prop := exists live' : Live, k live = Some (Ok tt, live') /\ live ⊆ live' /\ Q live'.

Lemma adds_bind (k k' : M Live unit) (live : Live) (P Q : Live -> Prop) : adds k live P ->
  (forall live', live ⊆ live' -> P live' -> adds k' live' Q) -> adds (k ;; k') live Q.
Proof.
  intros (l1 & E1 & S1 & HP) Hk. destruct (Hk l1 S1 HP) as (l2 & E2 & S2 & HQ). exists l2. unfold mbind, M_bind. rewrite E1.
  split; [done|]. split; [by etrans|done].
Qed.

Lemma adds_marks (k : M Live unit) (live : Live) (added : list bytes) : marks k live tt added -> adds k live (fun live' => live' = list_to_set added ∪ live).
Proof. intros Hk. exists (list_to_set added ∪ live). split; [exact Hk|]. split; [set_solver|done]. Qed.

Lemma adds_lift {A : Type} (r : res A) (a : A) (f : A -> M Live unit) (live : Live) (Q : Live -> Prop) : r = Ok a -> adds (f a) live Q -> adds (lift r ≫= f) live Q.
Proof. intros -> Hf. exact Hf. Qed.

Lemma adds_ret (live : Live) (Q : Live -> Prop) : Q live -> adds (mret tt) live Q.
Proof. intros HQ. by exists live. Qed.

Lemma adds_mono (k : M Live unit) (live : Live) (P Q : Live -> Prop) : adds k live P -> (forall l, live ⊆ l -> P l -> Q l) -> adds k live Q.
Proof. intros (l & E' & S' & HP) Hq. exists l. split_and!; [done|done|by apply Hq]. Qed.

Lemma adds_each {A} (f : A -> M Live unit) (xs : list A) (Q : A -> Live -> Prop) : (forall x l l', Q x l -> l ⊆ l' -> Q x l') ->
  (forall x (live : Live), x ∈ xs -> adds (f x) live (Q x)) -> forall live : Live, adds (for_each xs f) live (fun live' => forall x, x ∈ xs -> Q x live').
Proof.
  intros Hmono. induction xs as [|x xs IH]; intros Hf live; cbn [for_each].
  { exists live. split; [done|]. split; [done|]. by intros x Hx%elem_of_nil. }
  eapply adds_bind; [apply Hf; by left|]. intros l1 S1 Hx. eapply adds_mono; [apply IH; intros y l Hy; apply Hf; by right|].
  intros l2 S2 Hxs y [->|Hy]%elem_of_cons; [by eapply Hmono|by apply Hxs].
Qed.

(** ** Closed sets *)

Section Closure.
Context `{Blake3} (c : gmap bytes Stored) (fuel : nat) (roots : list (bytes * bytes)).

Abbreviation reach := (reach c fuel roots).

(** The references of an entry, as far as they are already in. *)
Definition closed (marked followed : Live) (h : bytes) : Prop := forall n, node_at c fuel h = Some n ->
  list_to_set (nd_marks n) ⊆ marked /\ forall e, e ∈ nd_children n -> ce_hash e ∈ followed.

Lemma closed_mono (L L' K K' : Live) (h : bytes) : L ⊆ L' -> K ⊆ K' -> closed L K h -> closed L' K' h.
Proof. intros HL HK Hc n Hn. destruct (Hc n Hn) as [H1' H2']. split; [set_solver|]. intros e He. apply HK. by apply H2'. Qed.

Definition unmarked (live : Live) : nat := size (dom c ∖ live).

Lemma unmarked_less (h : bytes) (live live' : Live) : is_Some (c !! h) -> h ∉ live -> {[h]} ∪ live ⊆ live' -> (unmarked live' < unmarked live)%nat.
Proof.
  intros Hc Hh Hl. unfold unmarked. apply subset_size. apply elem_of_dom in Hc. split; [set_solver|]. intros Hx. specialize (Hx h). set_solver.
Qed.

Lemma unmarked_le (live live' : Live) : live ⊆ live' -> (unmarked live' <= unmarked live)%nat.
Proof. intros Hl. unfold unmarked. apply subseteq_size. set_solver. Qed.

(** Depth first. *)
Definition deepens (live live' : Live) : Prop := live ⊆ live' /\ forall x q, x ∈ live' -> reach x q -> x ∈ live \/ closed live' live' x.

Lemma deepens_refl (live : Live) : deepens live live.
Proof. split; [done|]. intros x q Hx _. by left. Qed.

Lemma deepens_trans (l1 l2 l3 : Live) : deepens l1 l2 -> deepens l2 l3 -> deepens l1 l3.
Proof.
  intros [S1 D1] [S2 D2]. split; [by etrans|]. intros x q Hx Hr. destruct (D2 x q Hx Hr) as [Hx2|Hc]; [|by right].
  destruct (D1 x q Hx2 Hr) as [?|Hc]; [by left|right]. by eapply closed_mono; [..|exact Hc].
Qed.

Lemma children_reach (h p : bytes) (n : Node) e : reach h p -> node_at c fuel h = Some n -> e ∈ nd_children n ->
  reach (ce_hash e) (child_path p (ce_name e)).
Proof.
  intros Hr Hn He. eapply reach_next; [exact Hr|exact Hn|]. unfold next_of. by apply (list_elem_of_fmap_2 (fun e => (ce_hash e, child_path p (ce_name e)))).
Qed.

Definition all_reached (fr : list (bytes * bytes)) : Prop := forall h p, (h, p) ∈ fr -> reach h p.

Lemma reached_cons (x : bytes * bytes) fr : all_reached (x :: fr) -> reach x.1 x.2 /\ all_reached fr.
Proof. intros Hr. split; [apply Hr; rewrite <- surjective_pairing; by left|]. intros h p Hin. apply Hr. by right. Qed.

Definition settled (live : Live) : Prop := forall x q, x ∈ live -> reach x q -> closed live live x.

Lemma settled_deepens (live live' : Live) : settled live -> deepens live live' -> settled live'.
Proof.
  intros Hs [HS HD] x q Hx Hq. destruct (HD x q Hx Hq) as [Hx'|Hc]; [|done]. eapply closed_mono; [exact HS|exact HS|by eapply Hs].
Qed.

(** Hashes that nothing leads to may be marked at any time. *)
Lemma settled_marks (live : Live) (added : list bytes) : settled live -> (forall x q, x ∈ added -> ~ reach x q) -> settled (list_to_set added ∪ live).
Proof.
  intros Hs Hno x q [Hx%elem_of_list_to_set|Hx]%elem_of_union Hq; [by destruct (Hno x q Hx)|].
  eapply closed_mono; [..|by eapply Hs]; set_solver.
Qed.

(** A settled set with the roots has everything. *)
Lemma settled_all (live : Live) : settled live -> (forall h p, (h, p) ∈ roots -> h ∈ live) -> forall h p, reach h p -> h ∈ live /\ closed live live h.
Proof.
  intros Hs Hroots h p Hr. assert (h ∈ live) as Hin; [|split; [done|by eapply Hs]].
  induction Hr as [h p Hin|h p n h' p' Hr IH Hn Hin]; [by eapply Hroots|]. destruct (Hs h p IH Hr n Hn) as [_ Hch].
  unfold next_of in Hin. apply list_elem_of_fmap in Hin as (e & [= -> ->] & He). by apply Hch.
Qed.
End Closure.

(** ** Marking on the engine *)

Section Walk.
Context `{Crc32, Blake3, ToScalar, HashOrder, ZstdDecode, MetadataJson}.
Context (s : StorageEngine) (m : gmap bytes KVEntry) (c : gmap bytes Stored) (E : engine_ok s m c) (fuel : nat).

Lemma engine_hash x : compute_hash (se_hash_algo s) x = Ok (blake3 x).
Proof. by rewrite (en_algo _ _ _ E). Qed.

Lemma engine_hash_length : hash_length (se_hash_algo s) = 32.
Proof. by rewrite (en_algo _ _ _ E). Qed.

Lemma read_stored h st : c !! h = Some st -> exists hd, get_entry_including_deleted s h = Ok (Some (hd, h, st_value st))
  /\ get_entry s h = Ok (Some (hd, h, st_value st)) /\ eh_entry_type hd = st_type st /\ eh_entry_version hd = st_version st.
Proof.
  intros Hst. pose proof (get_entry_ok s m c h E) as Hg. rewrite Hst in Hg. destruct Hg as (hd & Eg & _ & Hs).
  exists hd. rewrite (get_deleted_live s m c h st E Hst), Eg. split; [done|]. split; [done|]. by rewrite <- Hs.
Qed.

Lemma kv_stored h st : c !! h = Some st -> exists e, get_kv_entry s h = Ok (Some e) /\ kv_entry_type e = st_kv_type st.
Proof.
  intros Hst. destruct (snapshot_map s m c E) as [Hok Hv]. unfold get_kv_entry. rewrite (snapshot_get_ok _ _ Hok), Hv.
  pose proof (eo_content _ _ _ _ _ (en_parts _ _ _ E)) as Hc.
  destruct (live (m !! h)) as [e|] eqn:El; [|by rewrite (co_dead _ _ _ _ _ _ Hc h El) in Hst].
  exists e. split; [done|]. destruct (read_entry_ok s m c h e E El) as (d & Hd & _). rewrite Hst in Hd. injection Hd as ->. by rewrite summary_kv_type.
Qed.

(** *** One entry *)

Lemma collect_all (f : bytes -> M Live (list ChildEntry)) (g : bytes -> option (list bytes * list ChildEntry)) hs :
  (forall h inner es live, h ∈ hs -> g h = Some (inner, es) -> marks (f h) live es (h :: inner)) ->
  forall inner es live, nodes_all g hs = Some (inner, es) -> marks (list_children f hs) live es inner.
Proof.
  intros Hf. induction hs as [|h hs IH]; intros inner es live; cbn [nodes_all list_children].
  { intros [= <- <-]. apply marks_ret. }
  intros ([i1 e1] & E1 & ([i2 e2] & E2 & [= <- <-])%bind_Some)%bind_Some.
  change (h :: i1 ++ i2) with ((h :: i1) ++ i2). rewrite <- (app_nil_r i2).
  eapply marks_bind; [apply Hf; [by left|exact E1]|]. eapply marks_bind; [apply IH; [|exact E2]|apply marks_ret].
  intros k i e l Hk. apply Hf. by right.
Qed.

Lemma collect_children_ok f : forall value inner es live, tree_nodes c f value = Some (inner, es) -> marks (collect_btree_children s f value) live es inner.
Proof.
  induction f as [|f IH]; intros value inner es live; cbn [tree_nodes collect_btree_children]; [done|]. rewrite engine_hash_length.
  destruct (BTreeNode_deserialize value 32 0) as [[leaf|internal]|e|] eqn:En; try done.
  - intros [= <- <-]. eapply marks_lift; [reflexivity|]. apply marks_ret.
  - intros Hn. eapply marks_lift; [reflexivity|]. eapply collect_all; [|exact Hn]. intros h i e l _ (st & Hst & Ht)%bind_Some.
    change (h :: i) with ([h] ++ i). eapply marks_bind; [apply marks_mark|]. destruct (read_stored h st Hst) as (hd & Hr & _).
    eapply marks_lift; [exact Hr|]. by apply IH.
Qed.

Lemma children_ok version value inner es live : value <> [] -> listing c fuel version value = Some (inner, es) ->
  marks (entry_children s fuel version value) live es inner.
Proof.
  intros Hne. unfold listing, entry_children. rewrite bool_decide_eq_false_2 by done. destruct (is_btree_format value); [apply collect_children_ok|].
  rewrite engine_hash_length. destruct (deserialize_child_entries value 32 version) as [es'|e|]; [|done..]. intros [= <- <-].
  exact (marks_ret es' live).
Qed.

Lemma file_ok version value r live : FileRecord_deserialize value 32 version = Ok r ->
  marks (mark_file_record s version value) live tt (file_marks value r).
Proof.
  intros Hr. unfold mark_file_record. rewrite engine_hash_length. eapply marks_lift; [exact Hr|]. unfold file_marks.
  eapply marks_bind; [apply marks_each|]. eapply marks_lift; [apply engine_hash|].
  change [?x; ?y] with ([x] ++ [y]). eapply marks_bind; [apply marks_mark|]. eapply marks_lift; [apply engine_hash|]. apply marks_mark.
Qed.

Lemma symlink_ok path value live : marks (mark_symlink s path value) live tt [blake3 (lit "symlink:" ++ path); blake3 (lit "symlinkc:" ++ value)].
Proof.
  unfold mark_symlink. eapply marks_lift; [apply engine_hash|]. change [?x; ?y] with ([x] ++ [y]).
  eapply marks_bind; [apply marks_mark|]. eapply marks_lift; [apply engine_hash|]. apply marks_mark.
Qed.

Lemma next_ok path es live : forallb followed es = true ->
  marks (next_children path es) live ((fun e => (ce_hash e, child_path path (ce_name e))) <$> es) [].
Proof.
  induction es as [|e es IH]; cbn [forallb next_children]; [intros _; apply marks_ret|]. intros [He Hes]%andb_true_iff.
  unfold followed in He. destruct (EntryType_from_u8 (b2z (ce_entry_type e))) as [t|err|] eqn:Et; [|done..].
  eapply marks_lift; [reflexivity|]. destruct t; try done; (change (@nil bytes) with ([] ++ @nil bytes); eapply marks_bind; [by apply IH|];
    apply (marks_ret (A := list (bytes * bytes)))).
Qed.

Lemma follow_ok st n live : node c fuel st = Some n -> exists v pre n0,
  marks (follow_link s (st_value st)) live (Some v) pre /\ value_node c fuel st v = Some n0
  /\ nd_marks n = pre ++ nd_marks n0 /\ nd_children n = nd_children n0.
Proof.
  unfold node, follow_link. rewrite engine_hash_length. destruct (zlen (st_value st) =? 32).
  - intros (content & Hc & (n0 & Hn & [= <-])%bind_Some)%bind_Some. exists (st_value content), [st_value st], n0.
    split; [|done]. destruct (read_stored _ _ Hc) as (hd & Hr & _). change [st_value st] with ([st_value st] ++ []).
    eapply marks_bind; [apply marks_mark|]. eapply marks_lift; [exact Hr|]. exact (marks_ret (Some (st_value content)) _).
  - intros Hn. exists (st_value st), [], n. split; [|done]. exact (marks_ret (Some (st_value st)) live).
Qed.

(** A visit marks what the entry refers to, and keys of its path at most. *)
Definition within (n : Node) (p : bytes) (added : list bytes) : Prop := nd_marks n ⊆ added /\ added ⊆ nd_marks n ++ path_keys p.

Lemma dir_ok (A : Type) (st : Stored) (v : bytes) (n0 : Node) (p : bytes) (live : Live) (k : list ChildEntry -> M Live A) (none : A) : st_type st = DirectoryIndex ->
  value_node c fuel st v = Some n0 -> (forall live : Live, nd_children n0 = [] -> k [] live = Some (Ok none, live)) ->
  exists added : list bytes, within n0 p added /\ forallb followed (nd_children n0) = true /\
    forall r : option (res A * Live), k (nd_children n0) (list_to_set added ∪ live) = r ->
    (path_key ← lift (dir_key_of s p); mark path_key ;;
     if bool_decide (v = []) then mret none else children ← entry_children s fuel (b2z (st_version st)) v; k children) live = r.
Proof.
  intros Ht Hn Hnil. unfold value_node in Hn. rewrite Ht in Hn. apply bind_Some in Hn as ([inner es] & Hl & Hn).
  destruct (forallb followed es) eqn:Hf; [|done]. injection Hn as <-. cbn [nd_marks nd_children] in *.
  exists ([blake3 (lit "dir:" ++ p)] ++ inner). split; [unfold within, path_keys; cbn [nd_marks]; set_solver|]. split; [done|]. intros r Hk.
  unfold dir_key_of. rewrite engine_hash. unfold mbind, M_bind, lift, mark, modify. cbv beta iota. unfold listing in Hl.
  case_bool_decide as Hv.
  - injection Hl as <- <-. rewrite Hnil in Hk by done. rewrite <- Hk. unfold mret, M_ret. do 2 f_equal. set_solver.
  - assert (Hc : marks (entry_children s fuel (b2z (st_version st)) v) ({[blake3 (lit "dir:" ++ p)]} ∪ live) es inner).
    { apply children_ok; [done|]. unfold listing. by rewrite bool_decide_eq_false_2. }
    unfold marks in Hc. rewrite Hc, <- Hk. f_equal. rewrite list_to_set_app_L. set_solver.
Qed.

Lemma within_pre n n0 p pre added : nd_marks n = pre ++ nd_marks n0 -> within n0 p added -> within n p (pre ++ added).
Proof. unfold within. intros -> [H1' H2']. set_solver. Qed.

(** The other types. *)
Lemma leaf_ok (A : Type) (a : A) (st : Stored) (v : bytes) (n0 : Node) (p : bytes) (live : Live) : st_type st <> DirectoryIndex -> value_node c fuel st v = Some n0 ->
  nd_children n0 = [] /\ exists added : list bytes, within n0 p added /\
    marks (match st_type st with
      | FileRecordEntry => mark_file_record s (b2z (st_version st)) v ;; mret a
      | Symlink => mark_symlink s p v ;; mret a
      | _ => mret a
      end) live a added.
Proof.
  intros Ht Hn. unfold value_node in Hn. destruct (st_type st); try done.
  all: try (injection Hn as <-; split; [done|]; exists []; split; [split; set_solver|apply marks_ret]).
  - destruct (FileRecord_deserialize v 32 (b2z (st_version st))) as [r|e|] eqn:Er; [|done..]. injection Hn as <-. split; [done|].
    exists (file_marks v r ++ []). split; [rewrite app_nil_r; split; set_solver|]. eapply marks_bind; [by apply file_ok|apply marks_ret].
  - injection Hn as <-. split; [done|]. eexists. split; [|eapply marks_bind; [apply symlink_ok|apply marks_ret]].
    unfold within, path_keys. cbn [nd_marks]. rewrite app_nil_r. set_solver.
Qed.

Lemma visit_ok (h p : bytes) (st : Stored) (n : Node) (live : Live) : c !! h = Some st -> node c fuel st = Some n ->
  exists added : list bytes, within n p added /\ marks (visit s fuel h p) live (next_of p n) added.
Proof.
  intros Hst Hn. destruct (read_stored h st Hst) as (hd & Hr & _ & Ht & Hver).
  destruct (follow_ok st n live Hn) as (v & pre & n0 & Hfol & Hval & Hmarks & Hch).
  unfold visit. destruct (decide (st_type st = DirectoryIndex)) as [Hd|Hd].
  - destruct (dir_ok (list (bytes * bytes)) st v n0 p (list_to_set pre ∪ live) (next_children p) [] Hd Hval ltac:(done)) as (added & Hw & Hf & Hrun).
    exists (pre ++ added). split; [by eapply within_pre|]. eapply marks_lift; [exact Hr|]. eapply marks_bind; [exact Hfol|]. cbv beta iota.
    rewrite Ht, Hver, Hd. unfold marks. apply Hrun. unfold next_of. rewrite Hch.
    pose proof (next_ok p (nd_children n0) (list_to_set added ∪ (list_to_set pre ∪ live)) Hf) as Hx. unfold marks in Hx. rewrite Hx. do 2 f_equal. set_solver.
  - destruct (leaf_ok (list (bytes * bytes)) [] st v n0 p (list_to_set pre ∪ live) Hd Hval) as (Hnil & added & Hw & Hrun).
    exists (pre ++ added). split; [by eapply within_pre|]. eapply marks_lift; [exact Hr|]. eapply marks_bind; [exact Hfol|]. cbv beta iota.
    rewrite Ht, Hver. unfold next_of. rewrite Hch, Hnil. destruct (st_type st); try done; exact Hrun.
Qed.

(** *** Everything reached *)

Context (roots : list (bytes * bytes)) (F : forest_ok c fuel roots).

Abbreviation reach := (reach c fuel roots).
Abbreviation closed := (closed c fuel).
Abbreviation deepens := (deepens c fuel roots).
Abbreviation unmarked := (unmarked c).
Abbreviation all_reached := (all_reached c fuel roots).

Lemma node_of_reach h p : reach h p -> exists st n, c !! h = Some st /\ st_kv_type st <> KV_TYPE_CHUNK /\ node c fuel st = Some n /\ node_at c fuel h = Some n.
Proof.
  intros Hr. destruct (fo_node _ _ _ F h p Hr) as (st & n & Hst & Hk & Hn). exists st, n. split_and!; try done. unfold node_at. by rewrite Hst.
Qed.

Definition rec_spec (d : nat) : Prop := forall (h p : bytes) (live : Live), reach h p -> (unmarked live < d)%nat ->
  exists live', mark_entry_recursive s fuel d h p live = Some (Ok tt, live') /\ h ∈ live' /\ deepens live live'.

Lemma recs_ok (d : nat) (p : bytes) (es : list ChildEntry) : rec_spec d -> (forall e, e ∈ es -> reach (ce_hash e) (child_path p (ce_name e))) -> forall live : Live, (unmarked live < d)%nat ->
  exists live', for_each es (fun child => mark_entry_recursive s fuel d (ce_hash child) (child_path p (ce_name child))) live = Some (Ok tt, live')
    /\ (forall e, e ∈ es -> ce_hash e ∈ live') /\ deepens live live'.
Proof.
  intros Hrec. induction es as [|e es IH]; intros Hr live Hu; cbn [for_each].
  { exists live. split; [done|]. split; [by intros e He%elem_of_nil|apply deepens_refl]. }
  destruct (Hrec (ce_hash e) (child_path p (ce_name e)) live) as (l1 & E1 & H1' & D1); [apply Hr; by left|done|].
  destruct (IH (fun e He => Hr e (list_elem_of_further _ _ _ He)) l1) as (l2 & E2 & H2' & D2); [pose proof (unmarked_le c _ _ (proj1 D1)); lia|].
  exists l2. unfold mbind, M_bind. rewrite E1. split; [exact E2|]. split; [|by eapply deepens_trans].
  intros x [->|Hx]%elem_of_cons; [by apply (proj1 D2)|by apply H2'].
Qed.

(** An entry opened with its references in the set. *)
Lemma opened (h p : bytes) (n : Node) (live added live' : Live) (l : list bytes) : reach h p -> node_at c fuel h = Some n -> within n p l ->
  added = list_to_set l ∪ ({[h]} ∪ live) -> deepens added live' -> (forall e, e ∈ nd_children n -> ce_hash e ∈ live') ->
  h ∈ live' /\ deepens live live'.
Proof.
  intros Hr Hn [Hw1 Hw2] -> [HS HD] Hch. assert (Hh : closed live' live' h).
  { intros n' Hn'. rewrite Hn in Hn'. injection Hn' as <-. split; [|done]. etrans; [|exact HS]. set_solver. }
  split; [set_solver|]. split; [set_solver|]. intros x q Hx Hrx. destruct (HD x q Hx Hrx) as [Hx2|Hc]; [|by right].
  apply elem_of_union in Hx2 as [Hx2|[->%elem_of_singleton|Hx2]%elem_of_union]; [|by right|by left].
  apply elem_of_list_to_set in Hx2. assert (x = h) as ->; [|by right]. eapply (fo_apart _ _ _ F); [exact Hrx|exact Hr|exact Hn|]. by apply Hw2.
Qed.

Lemma rec_ok d : rec_spec d.
Proof.
  induction d as [|d IH]; intros h p live Hr Hu; [lia|]. cbn [mark_entry_recursive]. unfold mbind at 1, M_bind at 1, insert_live.
  case_bool_decide as Hh; cbn [negb].
  2: { exists live. split; [unfold mret, M_ret; do 2 f_equal; set_solver|]. split; [done|apply deepens_refl]. }
  destruct (node_of_reach h p Hr) as (st & n & Hst & _ & Hn & Hna). destruct (read_stored h st Hst) as (hd & Hread & _ & Ht & Hver).
  set (live1 := {[h]} ∪ live). destruct (follow_ok st n live1 Hn) as (v & pre & n0 & Hfol & Hval & Hmarks & Hch).
  unfold mbind at 1, M_bind at 1, lift at 1. rewrite Hread. unfold mbind at 1, M_bind at 1. unfold marks in Hfol. rewrite Hfol, Ht, Hver.
  assert (Hless : forall L : Live, live1 ⊆ L -> (unmarked L < d)%nat).
  { intros L HL. assert (Hx : is_Some (c !! h)) by (by eexists). pose proof (unmarked_less c h live L Hx Hh HL). lia. }
  destruct (decide (st_type st = DirectoryIndex)) as [Hd|Hd].
  - destruct (dir_ok unit st v n0 p (list_to_set pre ∪ live1)
      (fun children => for_each children (fun child => mark_entry_recursive s fuel d (ce_hash child) (child_path p (ce_name child)))) tt Hd Hval ltac:(done))
      as (added & Hw & _ & Hrun). rewrite <- Hch in Hrun.
    destruct (recs_ok d p (nd_children n) IH (fun e => children_reach c fuel roots h p n e Hr Hna) (list_to_set added ∪ (list_to_set pre ∪ live1)))
      as (live' & Eloop & Hin & Hdeep); [apply Hless; set_solver|].
    exists live'. rewrite Hd, (Hrun _ Eloop). split; [done|].
    eapply (opened h p n live _ live' (pre ++ added) Hr Hna); [by eapply within_pre| |exact Hdeep|exact Hin]. rewrite list_to_set_app_L. set_solver.
  - destruct (leaf_ok unit tt st v n0 p (list_to_set pre ∪ live1) Hd Hval) as (Hnil & added & Hw & Hrun). unfold marks in Hrun.
    set (live' := list_to_set added ∪ (list_to_set pre ∪ live1)) in *. exists live'. split.
    + rewrite <- Hrun. unfold mbind, M_bind, mret, M_ret. destruct (st_type st); try done.
      * by destruct (mark_file_record s (b2z (st_version st)) v (list_to_set pre ∪ live1)) as [[[[]|e|] l]|].
      * by destruct (mark_symlink s p v (list_to_set pre ∪ live1)) as [[[[]|e|] l]|].
    + eapply (opened h p n live live' live' (pre ++ added) Hr Hna); [by eapply within_pre| |apply deepens_refl|].
      * unfold live'. rewrite list_to_set_app_L. set_solver.
      * rewrite Hch, Hnil. by intros e He%elem_of_nil.
Qed.

(** Level by level. *)
Lemma to_read_ok (fr : list (bytes * bytes)) : all_reached fr -> forall live : Live, exists l (live' : Live), to_read s fr live = Some (Ok l, live')
  /\ live ∪ list_to_set fr.*1 ⊆ live'
  /\ (forall x, x ∈ live' -> x ∈ live \/ x ∈ fr.*1 \/ exists h p, (h, p) ∈ fr /\ x ∈ path_keys p)
  /\ (forall h p o, (h, p, o) ∈ l -> (h, p) ∈ fr /\ h ∉ live)
  /\ (forall h, h ∈ fr.*1 -> h ∉ live -> exists p o, (h, p, o) ∈ l).
Proof.
  induction fr as [|[h p] fr IH]; intros Hr live; cbn [to_read].
  { exists [], live. split; [done|]. split; [set_solver|]. split; [by left|]. split; [by intros h p o Ho%elem_of_nil|by intros h Hh%elem_of_nil]. }
  apply reached_cons in Hr as [Hrh Hr]. cbn [fst snd] in Hrh. specialize (IH Hr). unfold mbind at 1, M_bind at 1, insert_live.
  destruct (node_of_reach h p Hrh) as (st & n & Hst & Hkt & Hn & Hna). csimpl. case_bool_decide as Hh; cbn [negb].
  - destruct (kv_stored h st Hst) as (e & Hkv & Hty). unfold mbind at 1, M_bind at 1, lift at 1. rewrite Hkv.
    destruct (IH ({[h]} ∪ live)) as (l & live' & El & HS & HA & HL & HC). unfold mbind, M_bind. rewrite El.
    rewrite (proj2 (Z.eqb_neq _ _)) by congruence. exists ((h, p, kv_offset e) :: l), live'. split; [done|]. split; [set_solver|]. split; [|split].
    + intros x [[->%elem_of_singleton|Hx]%elem_of_union|[Hx|(h' & p' & Hin & Hx)]]%HA.
      * right. left. by left.
      * by left.
      * right. left. by right.
      * right. right. exists h', p'. split; [by right|done].
    + intros h' p' o [[= -> -> ->]|Hin]%elem_of_cons; [split; [by left|done]|]. destruct (HL h' p' o Hin) as [Hin' Hno]. split; [by right|set_solver].
    + intros h' Hin Hno. destruct (decide (h' = h)) as [->|Hne]; [exists p, (kv_offset e); by left|].
      apply elem_of_cons in Hin as [?|Hin]; [done|]. destruct (HC h' Hin) as (p' & o & Ho); [set_solver|]. exists p', o. by right.
  - unfold dir_key_of. rewrite engine_hash. unfold mbind at 1, M_bind at 1, lift at 1. unfold mbind at 1, M_bind at 1, mark at 1, modify at 1.
    destruct (IH ({[blake3 (lit "dir:" ++ p)]} ∪ ({[h]} ∪ live))) as (l & live' & El & HS & HA & HL & HC). exists l, live'. split; [exact El|].
    split; [set_solver|]. split; [|split].
    + intros x [[->%elem_of_singleton|[->%elem_of_singleton|Hx]%elem_of_union]%elem_of_union|[Hx|(h' & p' & Hin & Hx)]]%HA.
      * right. right. exists h, p. split; [by left|]. unfold path_keys. by left.
      * by left.
      * by left.
      * right. left. by right.
      * right. right. exists h', p'. split; [by right|done].
    + intros h' p' o Hin. destruct (HL h' p' o Hin) as [Hin' Hno]. split; [by right|set_solver].
    + intros h' Hin Hno. apply elem_of_cons in Hin as [->|Hin]; [done|]. apply (HC h' Hin).
      intros [Hk%elem_of_singleton|[->%elem_of_singleton|?]%elem_of_union]%elem_of_union; [|done..].
      apply list_elem_of_fmap in Hin as ([h2 p2] & -> & Hin). cbn in *. apply Hno.
      rewrite (fo_apart _ _ _ F h2 p2 h p n (Hr _ _ Hin) Hrh Hna); [done|]. rewrite Hk. apply elem_of_app. right. by left.
Qed.

Lemma visit_all_ok l : (forall h p o, (h, p, o) ∈ l -> reach h p) -> forall live : Live, exists next (live' : Live),
  visit_all s fuel l live = Some (Ok next, live') /\ live ⊆ live' /\ all_reached next
  /\ (forall h p o, (h, p, o) ∈ l -> closed live' (list_to_set next.*1) h)
  /\ (forall x, x ∈ live' -> x ∈ live \/ exists h p o n, (h, p, o) ∈ l /\ node_at c fuel h = Some n /\ x ∈ nd_marks n ++ path_keys p).
Proof.
  induction l as [|[[h p] o] l IH]; intros Hr live; cbn [visit_all].
  { exists [], live. split; [done|]. split; [done|]. split; [by intros h p Hin%elem_of_nil|]. split; [by intros h p o Hin%elem_of_nil|by left]. }
  assert (Hrh : reach h p) by (apply (Hr h p o); by left). destruct (node_of_reach h p Hrh) as (st & n & Hst & _ & Hn & Hna).
  destruct (visit_ok h p st n live Hst Hn) as (added & [Hw1 Hw2] & Hv). unfold marks in Hv. unfold mbind at 1, M_bind at 1. rewrite Hv.
  destruct (IH ltac:(intros; eapply Hr; by right) (list_to_set added ∪ live)) as (next & live' & El & HS & HR & HC & HA).
  unfold mbind, M_bind. rewrite El. exists (next_of p n ++ next), live'. split; [done|]. split; [set_solver|]. split; [|split].
  - intros h' p' [Hin|Hin]%elem_of_app; [|by apply HR]. eapply reach_next; [exact Hrh|exact Hna|exact Hin].
  - intros h' p' o' [[= -> -> ->]|Hin]%elem_of_cons.
    + intros n' Hn'. rewrite Hna in Hn'. injection Hn' as <-. split; [set_solver|]. intros e He. apply elem_of_list_to_set.
      rewrite fmap_app. apply elem_of_app. left. apply list_elem_of_fmap. exists (ce_hash e, child_path p (ce_name e)).
      split; [done|]. unfold next_of. by apply (list_elem_of_fmap_2 (fun e => (ce_hash e, child_path p (ce_name e)))).
    + eapply closed_mono; [reflexivity| |by eapply HC]. rewrite fmap_app, list_to_set_app_L. set_solver.
  - intros x [[Hx%elem_of_list_to_set|Hx]%elem_of_union|(h' & p' & o' & n' & Hin & Hx)]%HA; [|by left|].
    + right. exists h, p, o, n. split; [by left|]. split; [done|]. by apply Hw2.
    + right. exists h', p', o', n'. split; [by right|done].
Qed.

Definition walk_inv (live : Live) (fr : list (bytes * bytes)) : Prop :=
  all_reached fr /\ forall x q, x ∈ live -> reach x q -> closed live (live ∪ list_to_set fr.*1) x.

(** One level keeps the invariant, and reads an entry not seen before unless it is the
    last. *)
Lemma bfs_level_ok (fr : list (bytes * bytes)) (live : Live) : walk_inv live fr -> exists next (live' : Live),
  (entries ← to_read s fr; visit_all s fuel (sort_by (fun a b : bytes * bytes * Z => a.2 <=? b.2) entries)) live = Some (Ok next, live')
  /\ walk_inv live' next /\ live ∪ list_to_set fr.*1 ⊆ live' /\ (next = [] \/ (unmarked live' < unmarked live)%nat).
Proof.
  intros [Hr Hinv]. destruct (to_read_ok fr Hr live) as (l & live1 & El & HS1 & HA1 & HL & HC1).
  set (l' := sort_by (fun a b : bytes * bytes * Z => a.2 <=? b.2) l). assert (Hl' : forall x, x ∈ l' <-> x ∈ l) by (intros x; unfold l'; by rewrite sort_by_perm).
  destruct (visit_all_ok l') with (live := live1) as (next & live' & Ev & HS2 & HR & HC2 & HA2).
  { intros h p o Hin%Hl'. apply Hr. by eapply HL. }
  exists next, live'. unfold mbind, M_bind. rewrite El. split; [exact Ev|]. split; [split; [done|]|split; [set_solver|]].
  - assert (Hnew : forall x, x ∈ fr.*1 -> x ∉ live -> closed live' (list_to_set next.*1) x).
    { intros x Hx Hno. destruct (HC1 x Hx Hno) as (p & o & Ho). eapply HC2. by apply Hl'. }
    assert (Hfr : forall x q, x ∈ fr.*1 -> reach x q -> closed live' (live' ∪ list_to_set next.*1) x).
    { intros x q Hx Hq. destruct (decide (x ∈ live)) as [Hin|Hno]; [|eapply closed_mono; [reflexivity| |by apply Hnew]; set_solver].
      eapply closed_mono; [..|exact (Hinv x q Hin Hq)]; set_solver. }
    assert (Hside : forall x q h p, (h, p) ∈ fr -> reach x q -> (exists n, node_at c fuel h = Some n /\ x ∈ nd_marks n ++ path_keys p) -> x ∈ fr.*1).
    { intros x q h p Hin Hq (n & Hn & Hx). rewrite (fo_apart _ _ _ F x q h p n Hq (Hr _ _ Hin) Hn Hx). by apply (list_elem_of_fmap_2 fst _ (h, p)). }
    intros x q [[Hx|[Hx|(h & p & Hin & Hx)]]%HA1|(h & p & o & n & Hin & Hn & Hx)]%HA2 Hq.
    + eapply closed_mono; [..|exact (Hinv x q Hx Hq)]; set_solver.
    + by eapply Hfr.
    + destruct (node_of_reach h p (Hr _ _ Hin)) as (st & n & _ & _ & _ & Hn). eapply Hfr; [|exact Hq]. eapply Hside; [exact Hin|exact Hq|].
      exists n. split; [done|]. apply elem_of_app. by right.
    + apply Hl' in Hin. destruct (HL h p o Hin) as [Hin' _]. eapply Hfr; [|exact Hq]. eapply Hside; [exact Hin'|exact Hq|]. by exists n.
  - destruct l as [|[[h p] o] l]; [left; by injection Ev as <- _|right]. destruct (HL h p o ltac:(by left)) as [Hin Hno].
    destruct (node_of_reach h p (Hr _ _ Hin)) as (st & n & Hst & _). apply (unmarked_less c h); [by eexists|done|].
    assert (h ∈ fr.*1) by (by apply (list_elem_of_fmap_2 fst _ (h, p))). set_solver.
Qed.

Lemma bfs_ok (rounds : nat) : forall (fr : list (bytes * bytes)) (live : Live), (fr = [] \/ (unmarked live < rounds)%nat) -> walk_inv live fr -> exists live' : Live,
  walk_versions_bfs s fuel rounds fr live = Some (Ok tt, live') /\ live ∪ list_to_set fr.*1 ⊆ live' /\ walk_inv live' [].
Proof.
  induction rounds as [|rounds IH]; intros fr live Hu Hinv.
  { destruct Hu as [->|?]; [|lia]. exists live. split; [done|]. split; [set_solver|done]. }
  destruct fr as [|x fr]; [exists live; split; [done|]; split; [set_solver|done]|]. destruct Hu as [?|Hu]; [done|].
  destruct (bfs_level_ok (x :: fr) live Hinv) as (next & live1 & El & Hinv1 & HS1 & Hn).
  destruct (IH next live1) as (live' & Ew & HS2 & Hinv2); [destruct Hn as [?|?]; [by left|right; lia]|done|].
  exists live'. split; [|split; [set_solver|done]]. cbn [walk_versions_bfs].
  unfold mbind, M_bind in El |- *. destruct (to_read s (x :: fr) live) as [[[l|e|] l1]|]; [|done..]. by rewrite El.
Qed.

End Walk.

Section MarkAll.
Context `{Crc32, Blake3, ToScalar, HashOrder, ZstdDecode, MetadataJson, TaskJson}.

Definition system_prefixes : list bytes := [lit "/.aeordb-system"; lit "/.aeordb-config"].
Definition system_root (prefix : bytes) : bytes * bytes := (blake3 (lit "dir:" ++ prefix), prefix).

Definition gc_roots (c : gmap bytes Stored) (head : bytes) (snapshots : list SnapshotInfo) (forks : list ForkInfo) : list (bytes * bytes) :=
  version_roots head snapshots forks ++ filter (fun hp => is_Some (c !! hp.1)) (system_root <$> system_prefixes).

Definition version_names (snapshots : list SnapshotInfo) (forks : list ForkInfo) : list bytes :=
  ((fun i => blake3 (lit "snap:" ++ si_name i)) <$> snapshots) ++ ((fun i => blake3 (lit "::aeordb:fork:" ++ fi_name i)) <$> forks).

(** The database a collection starts from: its versions are known, everything they and
    the system tables lead to is there and decodes, and the names of versions are not
    hashes of entries. *)
Record gc_ready (s : StorageEngine) (c : gmap bytes Stored) (fuel : nat) (head : bytes) (snapshots : list SnapshotInfo) (forks : list ForkInfo) : Prop := {
  gr_head : head_hash s = Ok head;
  gr_snapshots : list_snapshots s = Ok snapshots;
  gr_forks : list_forks s = Ok forks;
  gr_forest : forest_ok c fuel (gc_roots c head snapshots forks);
  gr_names x q : x ∈ version_names snapshots forks -> ~ reach c fuel (gc_roots c head snapshots forks) x q;
  gr_system prefix : prefix ∈ system_prefixes -> c !! (system_root prefix).1 = None ->
    get_entry_including_deleted s (system_root prefix).1 = Ok None;
}.

Context (s : StorageEngine) (m : gmap bytes KVEntry) (c : gmap bytes Stored) (E : engine_ok s m c) (fuel depth : nat).
Context (head : bytes) (snapshots : list SnapshotInfo) (forks : list ForkInfo) (R : gc_ready s c fuel head snapshots forks).
Context (Hdepth : (size c < depth)%nat).

Abbreviation reached := (reach c fuel (gc_roots c head snapshots forks)).

Lemma unmarked_depth (live : Live) : (unmarked c live < depth)%nat.
Proof.
  unfold unmarked. assert (size (dom c ∖ live) <= size (dom c))%nat by (apply subseteq_size; set_solver). rewrite size_dom in *. lia.
Qed.

Lemma mark_versions : adds (walk_versions_bfs s fuel depth (version_roots head snapshots forks)) ∅ (fun live =>
  settled c fuel (gc_roots c head snapshots forks) live /\ forall h p, (h, p) ∈ version_roots head snapshots forks -> h ∈ live).
Proof.
  destruct (bfs_ok s m c E fuel _ (gr_forest _ _ _ _ _ _ R) depth (version_roots head snapshots forks) ∅) as (live & Ew & HS & _ & Hinv).
  - right. apply unmarked_depth.
  - split; [|intros x q Hx; set_solver]. intros h p Hin. apply reach_root. apply elem_of_app. by left.
  - exists live. split; [exact Ew|]. split; [set_solver|]. split.
    + intros x q Hx Hq. eapply closed_mono; [reflexivity| |exact (Hinv x q Hx Hq)]. set_solver.
    + intros h p Hin. apply HS. apply elem_of_union. right. apply elem_of_list_to_set. by apply (list_elem_of_fmap_2 fst _ (h, p)).
Qed.

Lemma mark_system (live : Live) : settled c fuel (gc_roots c head snapshots forks) live ->
  adds (mark_system_entries s fuel depth) live (fun live' => settled c fuel (gc_roots c head snapshots forks) live' /\
    forall prefix, prefix ∈ system_prefixes -> is_Some (c !! (system_root prefix).1) -> (system_root prefix).1 ∈ live').
Proof.
  intros Hset. unfold mark_system_entries. fold system_prefixes.
  enough (forall ps live, settled c fuel (gc_roots c head snapshots forks) live -> ps ⊆ system_prefixes ->
    adds (for_each ps (fun prefix => dir_hash ← lift (dir_key_of s prefix); o ← lift (get_entry_including_deleted s dir_hash);
      match o with Some _ => mark_entry_recursive s fuel depth dir_hash prefix | None => mret tt end)) live (fun live' =>
      settled c fuel (gc_roots c head snapshots forks) live' /\
      forall prefix, prefix ∈ ps -> is_Some (c !! (system_root prefix).1) -> (system_root prefix).1 ∈ live')) as Hgen by (by apply Hgen).
  clear live Hset. induction ps as [|prefix ps IH]; intros live Hset Hsub; cbn [for_each].
  { exists live. split; [done|]. split; [done|]. split; [done|]. by intros x Hx%elem_of_nil. }
  assert (Hp : prefix ∈ system_prefixes) by (apply Hsub; by left).
  eapply (adds_bind _ _ _ (fun live' => settled c fuel (gc_roots c head snapshots forks) live' /\ (is_Some (c !! (system_root prefix).1) -> (system_root prefix).1 ∈ live'))).
  - unfold dir_key_of. rewrite (engine_hash s m c E). change (blake3 (lit "dir:" ++ prefix)) with (system_root prefix).1.
    unfold adds, mbind, M_bind, lift. destruct (c !! (system_root prefix).1) as [st|] eqn:Ec.
    + destruct (read_stored s m c E _ st Ec) as (hd & Hr & _). rewrite Hr.
      destruct (rec_ok s m c E fuel _ (gr_forest _ _ _ _ _ _ R) depth (system_root prefix).1 prefix live) as (live' & Er & Hin & Hd).
      * apply reach_root, elem_of_app. right. apply list_elem_of_filter. split; [by exists st|]. by apply (list_elem_of_fmap_2 system_root).
      * apply unmarked_depth.
      * exists live'. split; [exact Er|]. split; [apply Hd|]. split; [by eapply settled_deepens|done].
    + rewrite (gr_system _ _ _ _ _ _ R prefix Hp Ec). exists live. split; [done|]. split; [done|]. split; [done|]. by intros [].
  - intros l1 S1 [Hset1 Hin1]. eapply adds_mono; [apply IH; [exact Hset1|set_solver]|]. intros l2 S2 [Hset2 Hin2]. split; [done|].
    intros x [->|Hx]%elem_of_cons Hc; [by apply S2, Hin1|by apply Hin2].
Qed.

Lemma mark_tasks (live : Live) : adds (mark_task_entries s) live (fun _ => True).
Proof.
  unfold mark_task_entries. eapply adds_bind; [apply adds_marks, marks_mark|]. intros l1 _ _. set (key := blake3 (lit "::aeordb:task:_registry")).
  pose proof (get_entry_ok s m c key E) as Hg. destruct (c !! key) as [st|]; [destruct Hg as (hd & Hg & _)|destruct Hg as [Hg _]].
  2: { eapply adds_lift; [exact Hg|]. by apply adds_ret. }
  eapply adds_lift; [exact Hg|]. cbv beta iota. destruct (task_ids (st_value st)) as [ids|]; [|by apply adds_ret].
  eapply adds_mono; [|done]. apply adds_marks. exact (mark_names _ (fun id => Ok (blake3 (lit "::aeordb:task:" ++ id))) ids l1 (fun _ => eq_refl)).
Qed.

(** A record stored under the key of its own path. *)
Definition path_record (h : bytes) (st : Stored) (r : FileRecord) : Prop :=
  c !! h = Some st /\ st_kv_type st = KV_TYPE_FILE_RECORD
  /\ FileRecord_deserialize (st_value st) 32 (b2z (st_version st)) = Ok r /\ h = blake3 (lit "file:" ++ fr_path r).

Lemma mark_path (e : KVEntry) (live : Live) : KvSnapshot.live (m !! kv_hash e) = Some e ->
  adds (mark_path_file s e) live (fun live' => forall st r, path_record (kv_hash e) st r -> list_to_set (kv_hash e :: fr_chunk_hashes r) ⊆ live').
Proof.
  intros He. destruct (read_entry_ok s m c _ e E He) as (d & Hd & _). pose proof (summary_kv_type (kv_entry_type e) d) as Hkt.
  set (st := summary (kv_entry_type e) d) in *. unfold mark_path_file.
  assert (Hst : forall st' r, path_record (kv_hash e) st' r -> st' = st) by (intros st' r (Hst' & _); congruence).
  destruct (kv_entry_type e =? KV_TYPE_FILE_RECORD) eqn:Et; cbn [negb].
  2: { apply adds_ret. intros st' r Hp. pose proof Hp as (_ & Hk & _). rewrite (Hst _ _ Hp) in Hk. apply Z.eqb_neq in Et. congruence. }
  destruct (read_stored s m c E _ st Hd) as (hd & _ & Hr & Ht & Hver). eapply adds_lift; [exact Hr|]. cbv beta iota.
  rewrite Hver, (engine_hash_length s m c E).
  destruct (FileRecord_deserialize (st_value st) 32 (b2z (st_version st))) as [r|err|] eqn:Er; [| |by destruct (FileRecord_total (st_value st) 32 (b2z (st_version st)) ltac:(lia))].
  2: { apply adds_ret. intros st' r Hp. pose proof Hp as (_ & _ & Hr' & _). rewrite (Hst _ _ Hp) in Hr'. congruence. }
  eapply adds_lift; [apply (engine_hash s m c E)|]. case_bool_decide as Hkey; cbn [negb].
  2: { apply adds_ret. intros st' r' Hp. pose proof Hp as (_ & _ & Hr' & Hk'). rewrite (Hst _ _ Hp) in Hr'. congruence. }
  eapply adds_mono.
  { apply adds_marks. eapply marks_bind; [apply marks_mark|]. eapply marks_bind; [apply marks_each|]. eapply marks_lift; [apply (engine_hash s m c E)|].
    eapply marks_bind; [apply marks_mark|]. eapply marks_lift; [apply (engine_hash s m c E)|]. apply marks_mark. }
  intros l _ -> st' r' Hp. pose proof Hp as (_ & _ & Hr' & _). rewrite (Hst _ _ Hp), Er in Hr'. injection Hr' as <-. rewrite !list_to_set_app_L. set_solver.
Qed.

(** What marking collects. *)
Record marked (live : Live) : Prop := {
  mk_reached h p : reached h p -> h ∈ live /\ closed c fuel live live h;
  mk_names h : h ∈ version_names snapshots forks -> h ∈ live;
  mk_files h st r : path_record h st r -> list_to_set (h :: fr_chunk_hashes r) ⊆ live;
  mk_deletions h st : c !! h = Some st -> st_kv_type st = KV_TYPE_DELETION -> h ∈ live;
}.

Lemma entry_listed (es : list KVEntry) (h : bytes) (st : Stored) : (forall e, e ∈ es <-> KvSnapshot.live (m !! kv_hash e) = Some e) -> c !! h = Some st ->
  exists e, e ∈ es /\ kv_hash e = h /\ kv_entry_type e = st_kv_type st.
Proof.
  intros Hel Hst. pose proof (eo_content _ _ _ _ _ (en_parts _ _ _ E)) as Hc.
  destruct (KvSnapshot.live (m !! h)) as [e|] eqn:El; [|by rewrite (co_dead _ _ _ _ _ _ Hc h El) in Hst].
  pose proof (live_hash s m c h e E El) as Hh. exists e. split; [apply Hel; by rewrite Hh|]. split; [done|].
  destruct (read_entry_ok s m c h e E El) as (d & Hd & _). rewrite Hst in Hd. injection Hd as ->. by rewrite summary_kv_type.
Qed.

(** Marking returns a set with everything that is referred to. *)
Lemma gc_mark_ok : exists live, gc_mark s fuel depth = Some (Ok live) /\ marked live.
Proof.
  enough (adds (mark_all s fuel depth) ∅ marked) as (live & Em & _ & Hm) by (exists live; unfold gc_mark; by rewrite Em).
  unfold mark_all. eapply adds_lift; [apply R|]. eapply adds_lift; [apply R|]. eapply adds_lift; [apply R|].
  eapply adds_bind; [apply mark_versions|]. intros l1 _ [Hset1 Hroots1].
  eapply adds_bind; [apply adds_marks, (mark_names (fun i => blake3 (lit "snap:" ++ si_name i))); intros i; apply (engine_hash s m c E)|]. intros l2 S2 ->.
  eapply adds_bind; [apply adds_marks, (mark_names (fun i => blake3 (lit "::aeordb:fork:" ++ fi_name i))); intros i; apply (engine_hash s m c E)|]. intros l3 S3 ->.
  set (sn := (fun i => blake3 (lit "snap:" ++ si_name i)) <$> snapshots) in *. set (fk := (fun i => blake3 (lit "::aeordb:fork:" ++ fi_name i)) <$> forks) in *.
  eapply adds_bind; [apply mark_system; apply settled_marks; [apply settled_marks; [exact Hset1|]|]; intros x q Hx; apply (gr_names _ _ _ _ _ _ R); apply elem_of_app; by (left + right)|].
  intros l4 S4 [Hset4 Hsys]. assert (Hall : forall h p, reached h p -> h ∈ l4 /\ closed c fuel l4 l4 h).
  { apply settled_all; [done|]. intros h p [Hin|Hin]%elem_of_app; [apply S4, S3, S2; by eapply Hroots1|].
    apply list_elem_of_filter in Hin as [Hsome Hin]. apply list_elem_of_fmap in Hin as (prefix & [= -> ->] & Hin). by apply Hsys. }
  eapply adds_bind; [apply mark_tasks|]. intros l5 S5 _. destruct (kv_listed s m c E) as (es & Ees & _ & Hel).
  eapply adds_lift; [exact Ees|]. eapply adds_bind.
  { apply (adds_each _ es (fun e live' => forall st r, path_record (kv_hash e) st r -> list_to_set (kv_hash e :: fr_chunk_hashes r) ⊆ live')).
    - intros e l l' Hq Hl st r Hp. etrans; [by eapply Hq|done].
    - intros e l He. apply mark_path. by apply Hel. }
  intros l6 S6 Hfiles. eapply adds_mono.
  { apply (adds_each _ es (fun e live' => kv_entry_type e = KV_TYPE_DELETION -> kv_hash e ∈ live')).
    - intros e l l' Hq Hl Ht. by apply Hl, Hq.
    - intros e l He. unfold mark_deletion. destruct (kv_entry_type e =? KV_TYPE_DELETION) eqn:Et.
      + eapply adds_mono; [apply adds_marks, marks_mark|]. intros l' _ -> _. set_solver.
      + apply adds_ret. intros Hx. apply Z.eqb_neq in Et. done. }
  intros l7 S7 Hdel. assert (S47 : l4 ⊆ l7) by (by etrans; [exact S5|etrans; [exact S6|exact S7]]). split.
  - intros h p Hr. destruct (Hall h p Hr) as [Hin Hc]. split; [by apply S47|by eapply closed_mono; [..|exact Hc]].
  - intros h [Hh|Hh]%elem_of_app; apply S47, S4; set_solver.
  - intros h st r Hp. pose proof Hp as (Hst & _). destruct (entry_listed es h st Hel Hst) as (e & He & <- & _). etrans; [by eapply Hfiles|done].
  - intros h st Hst Hk. destruct (entry_listed es h st Hel Hst) as (e & He & <- & Ht). apply Hdel; [done|congruence].
Qed.
End MarkAll.
