(* ===== verification/GcSafe.v ===== *)
(** Collection is safe: what a version, a file path or the name of a snapshot or fork
    refers to is read after it as before.  Marking and sweeping are put together here. *)
From S2P Require Import Prelude Sorted Codec EntryFormat Records KvEntry KvPages FileIo FileHeader VoidManager AppendWriter Converters Nvt StateM BTreeNode BTree KvSnapshot DiskKv DiskKvPages DiskKvSpec DiskKvRefine StorageEngine EngineContent EngineWrites EngineSpec EngineStore EngineOps EngineBatch EngineReads EngineRefine EngineApi EngineImpl EngineChunks Paths Files Directories BTreeMem DirectoriesSpec Versions VersionTable TreeDiff TreeWalk FilesSpec Gc GcSweep GcMark.

Local Open Scope Z_scope.

Section SameWalk.
Context `{Crc32, Blake3, ToScalar, HashOrder}.

(** Two engines, the second with a part of the first's content. *)
Context (s s' : StorageEngine) (m m' : gmap bytes KVEntry) (c c' : gmap bytes Stored).
Context (E : engine_ok s m c) (E' : engine_ok s' m' c') (live : gset bytes) (Hkeep : forall h, h ∈ live -> c' !! h = c !! h).
Context (fuel : nat) (roots : list (bytes * bytes)) (F : forest_ok c fuel roots).
Context (Hlive : forall h p, reach c fuel roots h p -> h ∈ live /\ closed c fuel live live h).

#[local] Instance nodes : NodeStore StorageEngine := engine_nodes 0.

(** An entry in [live] reads the same. *)
Lemma same_read h st : h ∈ live -> c !! h = Some st -> exists hd hd',
  get_entry_including_deleted s h = Ok (Some (hd, h, st_value st)) /\ get_entry_including_deleted s' h = Ok (Some (hd', h, st_value st))
  /\ eh_entry_version hd = st_version st /\ eh_entry_version hd' = st_version st.
Proof.
  intros Hh Hst. destruct (read_stored s m c E h st Hst) as (hd & Hr & _ & _ & Hv).
  destruct (read_stored s' m' c' E' h st ltac:(by rewrite Hkeep)) as (hd' & Hr' & _ & _ & Hv'). by exists hd, hd'.
Qed.

Lemma load_same h st missing : h ∈ live -> c !! h = Some st ->
  load true h missing s = Some (Ok (b2z (st_version st), st_value st), s) /\ load true h missing s' = Some (Ok (b2z (st_version st), st_value st), s').
Proof.
  intros Hh Hst. destruct (same_read h st Hh Hst) as (hd & hd' & Hr & Hr' & Hv & Hv'). unfold load, mbind, M_bind, gets, lift, id.
  cbn [ns_get_entry_including_deleted nodes engine_nodes e_get_entry_including_deleted storage_engine]. rewrite Hr, Hr'. cbn. by rewrite Hv, Hv'.
Qed.

(** A program that only reads and gives both the same answer, [a] if any. *)
Definition reads_same {A} (k : M StorageEngine A) (a : A) : Prop :=
  exists r : option (res A), k s = (fun r => (r, s)) <$> r /\ k s' = (fun r => (r, s')) <$> r /\ forall b, r = Some (Ok b) -> b = a.

Lemma reads_same_ret {A} (a : A) : reads_same (mret a) a.
Proof. exists (Some (Ok a)). split; [done|]. split; [done|]. by intros b [= <-]. Qed.

Lemma reads_same_bind {A B} (k : M StorageEngine A) (g : A -> M StorageEngine B) a b : reads_same k a -> reads_same (g a) b -> reads_same (k ≫= g) b.
Proof.
  intros (r & E1 & E2 & Ha) (r' & G1 & G2 & Hb). destruct r as [[x|e|]|]; cbn in E1, E2.
  - rewrite (Ha x eq_refl) in *. exists r'. unfold mbind, M_bind. by rewrite E1, E2.
  - exists (Some (Err e)). unfold mbind, M_bind. by rewrite E1, E2.
  - exists (Some Panic). unfold mbind, M_bind. by rewrite E1, E2.
  - exists None. unfold mbind, M_bind. by rewrite E1, E2.
Qed.

Lemma reads_same_lift {A B} (r : res A) (g : A -> M StorageEngine B) b : (forall a, r = Ok a -> reads_same (g a) b) -> reads_same (lift r ≫= g) b.
Proof. intros Hg. destruct r as [a|e|]; [by apply Hg|by exists (Some (Err e))|by exists (Some Panic)]. Qed.

Lemma list_children_same (f : bytes -> M StorageEngine (list ChildEntry)) g hs :
  (forall h inner es, h ∈ hs -> g h = Some (inner, es) -> h ∈ live -> list_to_set inner ⊆ live -> reads_same (f h) es) ->
  forall inner es, nodes_all g hs = Some (inner, es) -> list_to_set inner ⊆ live -> reads_same (list_children f hs) es.
Proof.
  intros Hf. induction hs as [|h hs IH]; intros inner es; cbn [list_children nodes_all]; [intros [= <- <-] _; apply reads_same_ret|].
  intros ([i1 e1] & E1 & ([i2 e2] & E2 & [= <- <-])%bind_Some)%bind_Some Hin. cbn [list_to_set] in Hin. rewrite list_to_set_app_L in Hin.
  eapply reads_same_bind; [apply (Hf h i1 e1); [by left|done|set_solver|set_solver]|].
  eapply reads_same_bind; [|apply reads_same_ret]. apply (IH (fun x i e Hx => Hf x i e (list_elem_of_further _ _ _ Hx)) i2 e2 E2). set_solver.
Qed.

(** The children below a decoded node. *)
Lemma node_listing n f value inner es node : BTreeNode_deserialize value 32 0 = Ok node -> tree_nodes c f value = Some (inner, es) ->
  list_to_set inner ⊆ live ->
  (forall f h st inner es, h ∈ live -> c !! h = Some st -> tree_nodes c f (st_value st) = Some (inner, es) -> list_to_set inner ⊆ live ->
    reads_same (btree_list 32 n h true) es) ->
  reads_same (match node with Leaf leaf => mret (ln_entries leaf) | Internal internal => list_children (fun h => btree_list 32 n h true) (in_children internal) end) es.
Proof.
  intros Hn Ht Hin Hrec. destruct f as [|f]; [done|]. cbn [tree_nodes] in Ht. rewrite Hn in Ht.
  destruct node as [leaf|internal]; [injection Ht as <- <-; apply reads_same_ret|].
  eapply list_children_same; [|exact Ht|exact Hin]. intros h i e _ (st & Hst & Hg)%bind_Some Hh Hi. by apply (Hrec f h st i e).
Qed.

Lemma btree_list_same n : forall f h st inner es, h ∈ live -> c !! h = Some st -> tree_nodes c f (st_value st) = Some (inner, es) ->
  list_to_set inner ⊆ live -> reads_same (btree_list 32 n h true) es.
Proof.
  induction n as [|n IH]; intros f h st inner es Hh Hst Ht Hin; cbn [btree_list]; [by exists None|].
  destruct (load_same h st "B-tree root not found" Hh Hst) as [L1 L2].
  apply (reads_same_bind _ _ (b2z (st_version st), st_value st)).
  { exists (Some (Ok (b2z (st_version st), st_value st))). split; [done|]. split; [done|]. by intros b [= <-]. }
  cbn [fst snd]. apply reads_same_lift. intros node Hnode. assert (BTreeNode_deserialize (st_value st) 32 0 = Ok node).
  { unfold BTreeNode_deserialize in *. by destruct (b2z (st_version st)). }
  by eapply (node_listing n f).
Qed.

Lemma tree_children_same n value inner es t : value <> [] -> listing c fuel 0 value = Some (inner, es) -> list_to_set inner ⊆ live ->
  tree_children s n value t = tree_children s' n value t /\ forall l t', tree_children s n value t = Some (Ok l, t') -> l = es.
Proof.
  intros Hne Hl Hin. unfold listing in Hl. rewrite bool_decide_eq_false_2 in Hl by done. unfold tree_children.
  change (e_hash_algo s) with (se_hash_algo s). change (e_hash_algo s') with (se_hash_algo s').
  rewrite (engine_hash_length s m c E), (engine_hash_length s' m' c' E').
  destruct (is_btree_format value).
  - assert (Hr : reads_same (btree_list_from_node 32 n value true) es).
    { unfold btree_list_from_node. apply reads_same_lift. intros node Hn. eapply (node_listing n fuel); [exact Hn|exact Hl|exact Hin|]. apply btree_list_same. }
    destruct Hr as (r & R1 & R2 & Ha). unfold observe. change walk_nodes with nodes. rewrite R1, R2. destruct r as [r|]; [|done]. split; [done|].
    intros l t' [= -> _]. by apply Ha.
  - split; [done|]. intros l t' Hd. unfold lift in Hd. destruct (deserialize_child_entries value 32 0) as [l'|e|]; [|done..].
    injection Hd as -> _. by injection Hl.
Qed.

(** A version whose directories are as they are written: not links, of the format 0, and
    of the type their parent says. *)
Record version_ok (root : bytes) : Prop := {
  vo_root : exists st, c !! root = Some st /\ st_type st = DirectoryIndex;
  vo_dir h p st : reach c fuel [(root, lit "/")] h p -> c !! h = Some st -> st_type st = DirectoryIndex ->
    zlen (st_value st) <> 32 /\ b2z (st_version st) = 0;
  vo_child h p n e : reach c fuel [(root, lit "/")] h p -> node_at c fuel h = Some n -> e ∈ nd_children n ->
    EntryType_from_u8 (b2z (ce_entry_type e)) = Ok DirectoryIndex -> exists st, c !! ce_hash e = Some st /\ st_type st = DirectoryIndex;
}.

Lemma reach_sub (rs rs' : list (bytes * bytes)) h p : rs ⊆ rs' -> reach c fuel rs h p -> reach c fuel rs' h p.
Proof. intros Hs. induction 1 as [h p Hin|h p n h' p' _ IH Hn Hin]; [by apply reach_root, Hs|by eapply reach_next]. Qed.

Lemma bind_ext {S A B} (k k' : M S A) (f g : A -> M S B) t : k t = k' t -> (forall a t', k t = Some (Ok a, t') -> f a t' = g a t') ->
  (k ≫= f) t = (k' ≫= g) t.
Proof. intros Hk Hf. unfold mbind, M_bind. rewrite <- Hk. destruct (k t) as [[[a|e|] t']|]; [by apply Hf|done..]. Qed.

Lemma lift_ext {S A A' B} (x : res A) (y : res A') a b (f : A -> M S B) (g : A' -> M S B) t : x = Ok a -> y = Ok b -> f a t = g b t ->
  (lift x ≫= f) t = (lift y ≫= g) t.
Proof. by intros -> -> Hf. Qed.

Lemma for_each_ext {S A} (f g : A -> M S unit) xs : (forall x t, x ∈ xs -> f x t = g x t) -> forall t, for_each xs f t = for_each xs g t.
Proof.
  induction xs as [|x xs IH]; intros Hf t; [done|]. cbn [for_each]. unfold mbind, M_bind. rewrite Hf by (by left).
  destruct (g x t) as [[[a|e|] t']|]; [|done..]. apply IH. intros y t2 Hy. apply Hf. by right.
Qed.

Lemma walk_leaf_same h p t : h ∈ live -> is_Some (c !! h) -> walk_file s h p t = walk_file s' h p t /\ walk_symlink s h p t = walk_symlink s' h p t.
Proof.
  intros Hh [st Hst]. destruct (same_read h st Hh Hst) as (hd & hd' & Hr & Hr' & Hv & Hv'). unfold walk_file, walk_symlink, mbind, M_bind, lift.
  change (e_hash_algo s) with (se_hash_algo s). change (e_hash_algo s') with (se_hash_algo s').
  rewrite (engine_hash_length s m c E), (engine_hash_length s' m' c' E').
  change (e_get_entry_including_deleted s h) with (get_entry_including_deleted s h). change (e_get_entry_including_deleted s' h) with (get_entry_including_deleted s' h).
  by rewrite Hr, Hr', Hv, Hv'.
Qed.

Lemma walk_same root n depth : version_ok root -> (root, lit "/") ∈ roots -> forall h p st t, reach c fuel [(root, lit "/")] h p ->
  c !! h = Some st -> st_type st = DirectoryIndex -> walk_directory s n depth h p t = walk_directory s' n depth h p t.
Proof.
  intros V Hroot. induction depth as [|depth IH]; intros h p st t Hr Hst Hty; [done|]. cbn [walk_directory].
  assert (Hup : forall h p, reach c fuel [(root, lit "/")] h p -> reach c fuel roots h p) by (intros *; apply reach_sub; set_solver).
  destruct (Hlive h p (Hup h p Hr)) as [Hh Hcl]. destruct (same_read h st Hh Hst) as (hd & hd' & Hrd & Hrd' & _).
  destruct (fo_node _ _ _ F h p (Hup h p Hr)) as (st0 & nd & Hst0 & _ & Hn). rewrite Hst in Hst0. injection Hst0 as <-.
  assert (Hna : node_at c fuel h = Some nd) by (unfold node_at; by rewrite Hst). destruct (Hcl nd Hna) as [Hmarks _].
  destruct (vo_dir _ V h p st Hr Hst Hty) as [Hlen Hver]. unfold node in Hn. rewrite (proj2 (Z.eqb_neq _ _)) in Hn by done.
  unfold value_node in Hn. rewrite Hty in Hn. apply bind_Some in Hn as ([inner es] & Hl & Hn).
  destruct (forallb followed es) eqn:Hfo; [|done]. injection Hn as <-. cbn [nd_marks nd_children] in *.
  apply bind_ext; [done|]. intros visited t1 _. case_bool_decide as Hvis; [done|]. apply bind_ext; [done|]. intros [] t2 _.
  eapply lift_ext; [exact Hrd|exact Hrd'|]. cbv beta iota. apply bind_ext; [done|]. intros [] t3 _. case_bool_decide as Hne; [done|].
  rewrite Hver in Hl. destruct (tree_children_same n _ inner es t3 Hne Hl Hmarks) as [Hsame Hchildren].
  apply bind_ext; [exact Hsame|]. intros children t4 Hch. rewrite (Hchildren _ _ Hch). apply for_each_ext. intros e t5 Hes.
  apply bind_ext; [done|]. intros ty t6 [= Hty' <-].
  pose proof (children_reach c fuel _ h p _ e Hr Hna Hes) as Hre. destruct (Hlive _ _ (Hup _ _ Hre)) as [Hhe _].
  destruct (fo_node _ _ _ F _ _ (Hup _ _ Hre)) as (ste & _ & Hste & _).
  assert (Hse : is_Some (c !! ce_hash e)) by (by eexists). destruct (walk_leaf_same (ce_hash e) (child_path p (ce_name e)) t5 Hhe Hse) as [Hf Hs].
  destruct ty; try done. destruct (vo_child _ V h p _ e Hr Hna Hes Hty') as (std & Hstd & Htd). by eapply IH.
Qed.

End SameWalk.

(** ** A collection *)

Section Collect.
Context `{Crc32, Blake3, ToScalar, HashOrder, ZstdDecode, MetadataJson, TaskJson, SetOrder}.


(** A file whose record is kept under the key of its own path, and whose chunks are
    there. *)
Definition stored_file (c : gmap bytes Stored) (path data : bytes) : Prop :=
  exists r ds flags, c !! fkey path = Some (record_entry r flags) /\ record_good r /\ fr_path r = path
    /\ fr_chunk_hashes r = ckey <$> ds /\ concat ds = data /\ chunks_in c ds.

Lemma stored_reads (n : nat) (s : StorageEngine) (path data : bytes) : engine_room n s -> normalize_path path = path ->
  stored_file (engine_content s) path data -> read_file_buffered s path = Ok data.
Proof.
  intros Hroom Hp (r & ds & flags & Hst & Hgood & _ & Hch & Hdata & Hin). apply (file_reads (chunk_input <$> ds) n s path data); [exact Hroom|exact Hp|].
  exists r, ds. split; [by exists flags|]. split; [done|]. split; [done|]. split; [done|]. apply Forall_forall. intros d Hd. by apply list_elem_of_fmap_2.
Qed.

(** What was written since the collection began is a version's name or a deletion
    record. *)
Definition recheck_ok (s : StorageEngine) (snapshots : list SnapshotInfo) (forks : list ForkInfo) : Prop :=
  forall (pending : gset bytes) h, se_gc_recheck s = Some pending -> h ∈ pending ->
    h ∈ version_names snapshots forks \/ exists st, engine_content s !! h = Some st /\ st_kv_type st = KV_TYPE_DELETION.

(** What a collection that starts from [s] leaves in [s']: a part of the content, with the
    trees of the versions, the chunks of every file they or the system tables lead to,
    the files by path, the versions by name and the deletion records. *)
Record collected (s s' : StorageEngine) (fuel : nat) (head : bytes) (snapshots : list SnapshotInfo) (forks : list ForkInfo) : Prop := {
  cd_head : v_head (engine_visible s') = v_head (engine_visible s);
  cd_part : engine_content s' ⊆ engine_content s;
  cd_versions root f d : (root, lit "/") ∈ version_roots head snapshots forks -> version_ok (engine_content s) fuel root ->
    walk_version_tree s' f d root = walk_version_tree s f d root;
  cd_chunks h p st r chunk : reach (engine_content s) fuel (gc_roots (engine_content s) head snapshots forks) h p ->
    engine_content s !! h = Some st -> st_type st = FileRecordEntry -> zlen (st_value st) <> 32 ->
    FileRecord_deserialize (st_value st) 32 (b2z (st_version st)) = Ok r -> chunk ∈ fr_chunk_hashes r ->
    engine_content s' !! chunk = engine_content s !! chunk;
  cd_files path data : normalize_path path = path -> stored_file (engine_content s) path data -> read_file_buffered s' path = Ok data;
  cd_snapshots i : i ∈ snapshots -> get_snapshot_hash s' (si_name i) = get_snapshot_hash s (si_name i);
  cd_forks i : i ∈ forks -> get_fork_hash s' (fi_name i) = get_fork_hash s (fi_name i);
  cd_deletions h st : engine_content s !! h = Some st -> st_kv_type st = KV_TYPE_DELETION -> engine_content s' !! h = Some st;
}.

Lemma marked_again (s : StorageEngine) (fuel depth : nat) (hs : list bytes) (live : gset bytes) : (0 < depth)%nat -> (forall h, h ∈ hs -> h ∈ live) ->
  for_each hs (fun hash => mark_entry_recursive s fuel depth hash []) live = Some (Ok tt, live).
Proof.
  intros Hd. destruct depth as [|depth]; [lia|]. induction hs as [|h hs IH]; intros Hin; [done|]. cbn [for_each mark_entry_recursive].
  unfold insert_live, mbind, M_bind. rewrite bool_decide_eq_false_2 by (intros Hn; apply Hn, Hin; by left). cbn [negb mret M_ret].
  assert ({[h]} ∪ live = live) as -> by (assert (h ∈ live) by (apply Hin; by left); set_solver). apply IH. intros x Hx. apply Hin. by right.
Qed.

(** Draining what is live already changes nothing but the set of writes. *)
Lemma drain_ok (s : StorageEngine) (fuel depth : nat) (live : gset bytes) : (0 < depth)%nat ->
  (forall (pending : gset bytes) h, se_gc_recheck s = Some pending -> h ∈ pending -> h ∈ live) ->
  runs (drain_recheck fuel depth 2 live) s (fun live' s' => live' = live /\ s' = set_gc_recheck ((fun _ => ∅) <$> se_gc_recheck s) s).
Proof.
  intros Hd Hin. cbn [drain_recheck]. unfold take_gc_recheck. run. destruct (se_gc_recheck s) as [pending|] eqn:Ep.
  2: { run. rewrite bool_decide_eq_true_2 by done. run. split; [done|]. destruct s. cbn in Ep. by subst. }
  run. case_bool_decide as Hp; [by run|]. run. cbn [id].
  rewrite (marked_again _ fuel depth _ live Hd).
  - unfold take_gc_recheck. run. cbn [se_gc_recheck set_gc_recheck id]. run. rewrite bool_decide_eq_true_2 by done. run. done.
  - intros h Hh. rewrite set_iter_perm, elem_of_elements in Hh. by eapply Hin.
Qed.

(** ** What stays readable *)

Section After.
Context (s s' : StorageEngine) (m m' : gmap bytes KVEntry) (c c' : gmap bytes Stored).
Context (E : engine_ok s m c) (E' : engine_ok s' m' c') (live : gset bytes) (Hkeep : forall h, h ∈ live -> c' !! h = c !! h).
Context (n : nat) (Hroom : engine_room n s').

Lemma file_kept path data : normalize_path path = path -> stored_file c path data ->
  (forall h st r, path_record c h st r -> list_to_set (h :: fr_chunk_hashes r) ⊆ live) -> read_file_buffered s' path = Ok data.
Proof.
  intros Hp (r & ds & flags & Hst & Hgood & Hpath & Hch & Hdata & Hin) Hfiles. apply (stored_reads n); [done|done|].
  assert (Hlive : list_to_set (fkey path :: fr_chunk_hashes r) ⊆ live).
  { eapply Hfiles. split; [exact Hst|]. split; [done|]. split; [by apply record_decode|by rewrite Hpath]. }
  rewrite (engine_content_ok s' m' c' E'). exists r, ds, flags. split; [rewrite Hkeep; [exact Hst|]; apply Hlive; set_solver|].
  split_and!; try done. intros d Hd. destruct (Hin d Hd) as (st & Hs & Hc). exists st. split; [|done]. rewrite Hkeep; [exact Hs|].
  apply Hlive, elem_of_list_to_set. right. rewrite Hch. by apply list_elem_of_fmap_2.
Qed.

(** Entries in [live] are got with the same value and version, or are missing from both. *)
Lemma get_kept {B} (h : bytes) (none : res B) (found : bytes -> Z -> res B) : h ∈ live ->
  (o ← e_get_entry s' h; match o with None => none | Some (hd, _, v) => found v (b2z (eh_entry_version hd)) end) =
  (o ← e_get_entry s h; match o with None => none | Some (hd, _, v) => found v (b2z (eh_entry_version hd)) end).
Proof.
  intros Hh. pose proof (get_entry_ok s m c h E) as Hg. pose proof (get_entry_ok s' m' c' h E') as Hg'. rewrite (Hkeep h Hh) in Hg'.
  change (e_get_entry s' h) with (get_entry s' h). change (e_get_entry s h) with (get_entry s h).
  destruct (c !! h) as [st|].
  - destruct Hg as (hd & -> & _ & Hs), Hg' as (hd' & -> & _ & Hs'). rewrite !bind_ret. f_equal.
    rewrite <- Hs in Hs'. by injection Hs' as _ _ _ ->.
  - destruct Hg as [-> _], Hg' as [-> _]. done.
Qed.

Lemma algos : e_hash_algo s' = Blake3_256 /\ e_hash_algo s = Blake3_256.
Proof. split; [exact (en_algo _ _ _ E')|exact (en_algo _ _ _ E)]. Qed.

Lemma collected_ok fuel head snapshots forks : forest_ok c fuel (gc_roots c head snapshots forks) -> marked c fuel head snapshots forks live ->
  c' ⊆ c -> head_and_cache s' = head_and_cache s -> collected s s' fuel head snapshots forks.
Proof.
  intros F Mk Hsub [= Hh _]. split; rewrite ?(engine_content_ok s m c E), ?(engine_content_ok s' m' c' E').
  - done.
  - done.
  - intros root f d Hroot V. unfold walk_version_tree. f_equal. symmetry. destruct (vo_root _ _ _ V) as (st & Hst & Hty).
    eapply (walk_same s s' m m' c c' E E' live Hkeep fuel _ F (mk_reached _ _ _ _ _ _ Mk) root f d V); [|apply reach_root; by left|done|done].
    apply elem_of_app. by left.
  - intros h p st r chunk Hr Hst Hty Hlen Hd Hin. destruct (mk_reached _ _ _ _ _ _ Mk h p Hr) as [_ Hcl]. apply Hkeep.
    destruct (Hcl {| nd_marks := file_marks (st_value st) r; nd_children := [] |}) as [Hm _].
    + unfold node_at, node, value_node. rewrite Hst. cbn. by rewrite (proj2 (Z.eqb_neq _ _) Hlen), Hty, Hd.
    + apply Hm, elem_of_list_to_set, elem_of_app. by left.
  - intros path data Hp Hf. apply (file_kept path data Hp Hf), (mk_files _ _ _ _ _ _ Mk).
  - intros i Hi. unfold get_snapshot_hash, snapshot_key. rewrite (proj1 algos), (proj2 algos). cbn [compute_hash]. rewrite !bind_ret.
    apply (get_kept _ _ (fun v ver => info ← SnapshotInfo_deserialize v _ ver; Ok (si_root_hash info))).
    apply (mk_names _ _ _ _ _ _ Mk), elem_of_app. left. apply list_elem_of_fmap. by exists i.
  - intros i Hi. unfold get_fork_hash, fork_key. rewrite (proj1 algos), (proj2 algos). cbn [compute_hash]. rewrite !bind_ret.
    apply (get_kept _ _ (fun v ver => info ← ForkInfo_deserialize v _ ver; Ok (Some (fi_root_hash info)))).
    apply (mk_names _ _ _ _ _ _ Mk), elem_of_app. right. apply list_elem_of_fmap. by exists i.
  - intros h st Hst Hk. rewrite Hkeep; [done|]. by eapply (mk_deletions _ _ _ _ _ _ Mk).
Qed.
End After.

(** Marking and sweeping, from a state in order. *)
Lemma mark_and_sweep_safe (n : nat) (s : StorageEngine) (fuel depth : nat) (head : bytes) (snapshots : list SnapshotInfo) (forks : list ForkInfo) :
  engine_room n s -> gc_ready s (engine_content s) fuel head snapshots forks -> (size (engine_content s) < depth)%nat ->
  recheck_ok s snapshots forks ->
  runs (mark_and_sweep fuel depth false) s (fun _ s' => forall g,
    engine_room n (set_gc_recheck g s') /\ collected s (set_gc_recheck g s') fuel head snapshots forks).
Proof.
  intros (m & c & E & Hoff & Hfit) R Hsize Hre. rewrite (engine_content_ok s m c E) in *.
  destruct (gc_mark_ok s m c E fuel depth head snapshots forks R Hsize) as (live & Hm & Mk). unfold mark_and_sweep. run. cbn [id].
  rewrite Hm. run. apply (runs_lift _ live); [done|]. run. eapply runs_mono; [apply (drain_ok s fuel depth live); [lia|]|].
  { intros pending h Hp Hh. destruct (Hre pending h Hp Hh) as [Hn|(st & Hst & Hk)]; [by apply (mk_names _ _ _ _ _ _ Mk)|].
    rewrite (engine_content_ok s m c E) in Hst. by eapply (mk_deletions _ _ _ _ _ _ Mk). }
  intros live' s1 [-> ->]. set (s1 := set_gc_recheck _ s).
  assert (E1 : engine_ok s1 m c) by (destruct E; by constructor).
  destruct (sweep_ok s1 m c live E1) as (F & _ & _ & Hrun). run. eapply runs_mono; [exact Hrun|].
  intros r s0 (m' & E0 & Hd & G & Hh & _). run. intros g. set (s' := set_gc_recheck g s0).
  assert (E' : engine_ok s' m' (kept_content s1 c live)) by (destruct E0; by constructor).
  assert (Hroom : engine_room n s').
  { eapply (room_next 0 n s1 s' m m' _ ∅ 0); [exact Hoff|exact Hfit|exact E'|by rewrite Hd, union_empty_r_L|done|by destruct G|lia]. }
  split; [done|]. apply (collected_ok s s' m m' c (kept_content s1 c live) E E' live) with (n := n); try done.
  - intros h Hl. unfold kept_content. rewrite map_lookup_filter. destruct (c !! h) as [st|]; [|done]. cbn. rewrite option_guard_True; [done|by left].
  - apply R.
  - apply map_filter_subseteq.
Qed.

End Collect.

(** ** A database with a file and a chunk that nothing refers to *)

#[local] Existing Instance crc32_ieee.
#[local] Existing Instance blake3_digest.
#[local] Existing Instance hash_to_scalar.
#[local] Existing Instance map_order.
#[local] Instance gc_plain_zstd : ZstdDecode := fun data => Ok data.
#[local] Instance gc_no_metadata : MetadataJson := {| metadata_to_vec _ := None; metadata_from_slice _ := None |}.
#[local] Instance gc_no_tasks : TaskJson := fun _ => None.
#[local] Instance gc_order : SetOrder := {| set_iter := elements; set_iter_perm m := reflexivity _ |}.
(** The configuration turns snapshots off. *)
#[local] Instance gc_config : LifecycleJson := fun data =>
  if bool_decide (data = lit "off")
  then Some {| lc_snapshot_writes_enabled := false; lc_snapshot_retention := {| ret_auto_months := 0; ret_manual_months := 0 |} |} else None.

Definition gc_file (path data : bytes) : FileRecord :=
  set_content_hash (FileRecord_new 1 path None (zlen data) [ckey data]) (blake3 data).

Definition gc_store (t : EntryType) (key value : bytes) (version : byte) : engine_cmd :=
  EStore 1700000000001 t key value (z2b 0) NoCompression version.

Definition gc_file_path : bytes := lit "/a".
Definition gc_record : FileRecord := gc_file gc_file_path (lit "hello").
Definition gc_off : FileRecord := gc_file LIFECYCLE_CONFIG_PATH (lit "off").
Definition gc_id : bytes := blake3 (fid_input gc_file_path gc_record).
Definition gc_child : ChildEntry := file_child 1 gc_file_path gc_record gc_id 1 1.
Definition gc_root : bytes := dir_hash [gc_child].
Definition gc_version : byte := z2b CURRENT_FILE_RECORD_VERSION.

Definition gc_cmds : list engine_cmd :=
  [gc_store Chunk (ckey (lit "hello")) (lit "hello") (z2b 0); gc_store FileRecordEntry gc_id (record_bytes gc_record) gc_version;
   gc_store FileRecordEntry (fkey gc_file_path) (record_bytes gc_record) gc_version;
   gc_store DirectoryIndex gc_root (dir_bytes [gc_child]) (z2b 0);
   gc_store Chunk (ckey (lit "off")) (lit "off") (z2b 0); gc_store FileRecordEntry (fkey LIFECYCLE_CONFIG_PATH) (record_bytes gc_off) gc_version;
   gc_store Chunk (ckey (lit "lost")) (lit "lost") (z2b 0);
   EUpdateHead 1700000000002 gc_root].

Definition gc_content : gmap bytes Stored := spec_engine_run gc_cmds ∅.

Definition gc_database : option (res unit * StorageEngine) :=
  match StorageEngine_create 1700000000000 with Ok s => for_each gc_cmds run_engine s | _ => None end.

Lemma gc_database_head :
  match gc_database with Some (Ok tt, s) => Some (fh_head_hash (aw_file_header (se_writer s))) | _ => None end = Some gc_root.
Proof. vm_compute. reflexivity. Qed.

Lemma gc_cmds_wf : Forall engine_cmd_wf gc_cmds.
Proof. repeat constructor; concrete. Qed.

Lemma gc_cmds_few : (size (cmds_keys gc_cmds) <= 8)%nat.
Proof. vm_compute. lia. Qed.

Lemma gc_cmds_size : cmds_size gc_cmds <= 2^32.
Proof. vm_compute. congruence. Qed.

Lemma few_more (K K' : gset bytes) : (size K <= 8)%nat -> (size K' <= 3)%nat -> (size (K ∪ K') <= 32)%nat.
Proof. intros HK HK'. rewrite size_union_alt. assert (size (K' ∖ K) <= size K')%nat by (apply subseteq_size; set_solver). lia. Qed.

Lemma gc_run_ok s : engine_ok s ∅ ∅ -> aw_current_offset (se_writer s) < 2^40 -> runs (for_each gc_cmds run_engine) s (fun _ s' => exists m,
  engine_ok s' m gc_content /\ dom m ⊆ cmds_keys gc_cmds /\ engine_room 3 s').
Proof.
  intros E Hcur. pose proof gc_cmds_size as Hsz. pose proof gc_cmds_few as Hfew. eapply runs_mono.
  - apply (run_engines_ok gc_cmds gc_cmds_wf s ∅ ∅ E); [lia|]. apply keys_fit_few. rewrite dom_empty_L, union_empty_l_L. lia.
  - intros [] s' (m & E' & Hd & [Hn Hl]). rewrite dom_empty_L, union_empty_l_L in Hd. exists m. split; [exact E'|]. split; [exact Hd|].
    exists m, gc_content. split; [exact E'|]. split; [lia|]. intros K HK. apply keys_fit_few.
    etransitivity; [|by apply (few_more (cmds_keys gc_cmds) K)]. apply subseteq_size. by apply union_mono_r.
Qed.

Lemma gc_database_ok : exists s m, gc_database = Some (Ok tt, s) /\ engine_ok s m gc_content /\ dom m ⊆ cmds_keys gc_cmds /\ engine_room 3 s
  /\ head_hash s = Ok gc_root.
Proof.
  destruct (create_engine_ok 1700000000000) as (s & Ec & E & Hcur & Hcount); [concrete|].
  destruct (gc_run_ok s E) as ([] & s' & Er & m & E' & Hd & Hr); [rewrite Hcur; reflexivity|].
  assert (Hdb : gc_database = Some (Ok tt, s')) by (unfold gc_database; by rewrite Ec). clear Ec Er.
  pose proof gc_database_head as Hh. rewrite Hdb in Hh. injection Hh as Hh.
  exists s', m. split; [exact Hdb|]. split; [exact E'|]. split; [exact Hd|]. split; [exact Hr|].
  unfold head_hash, guarded. rewrite (en_running _ _ _ E'). exact (f_equal Ok Hh).
Qed.

#[local] Opaque gc_root gc_id gc_content gc_cmds.

Lemma gc_no_type s m t : engine_ok s m gc_content -> bool_decide (map_Forall (fun _ st => st_kv_type st <> t) gc_content) = true ->
  e_entries_by_type s t = Ok [].
Proof.
  intros E Ht%bool_decide_eq_true_1. destruct (entries_by_type_ok s m gc_content t E) as (l & El & _ & Hl). etransitivity; [exact El|].
  destruct l as [|[h v] l]; [done|]. destruct (proj1 (Hl h v)) as (st & Hst & Hk & _); [by left|]. by destruct (Ht h st Hst).
Qed.

Lemma gc_no_versions s m : engine_ok s m gc_content -> list_snapshots s = Ok [] /\ list_forks s = Ok [].
Proof.
  intros E. unfold list_snapshots, list_forks.
  rewrite (gc_no_type s m KV_TYPE_SNAPSHOT E), (gc_no_type s m KV_TYPE_FORK E) by (vm_compute; reflexivity). done.
Qed.

Definition gc_known : list (bytes * bytes) := [(gc_root, lit "/"); (gc_id, gc_file_path)].

Lemma gc_forest : forest_ok gc_content 1 (gc_roots gc_content gc_root [] []) /\
  forall h p, reach gc_content 1 (gc_roots gc_content gc_root [] []) h p -> (h, p) ∈ gc_known.
Proof. apply forest_check; vm_compute; reflexivity. Qed.

Lemma gc_database_ready s m : engine_ok s m gc_content -> dom m ⊆ cmds_keys gc_cmds -> head_hash s = Ok gc_root ->
  gc_ready s gc_content 1 gc_root [] [].
Proof.
  intros E Hd Hh. destruct (gc_no_versions s m E) as [Hs Hf]. split; [exact Hh|exact Hs|exact Hf|apply gc_forest|..].
  - intros x q Hx. by apply elem_of_nil in Hx.
  - intros prefix Hp _. destruct (snapshot_map s m gc_content E) as [Hok Hv]. unfold get_entry_including_deleted, guarded.
    rewrite (en_running _ _ _ E), get_raw_ok, Hv by done. assert (m !! (system_root prefix).1 = None) as ->; [|done].
    apply not_elem_of_dom. intros Hin%Hd. assert (Hno : forallb (fun p => negb (bool_decide ((system_root p).1 ∈ cmds_keys gc_cmds))) system_prefixes = true)
      by (vm_compute; reflexivity).
    rewrite forallb_forall in Hno. specialize (Hno prefix (proj1 (list_elem_of_In _ _) Hp)). by rewrite bool_decide_eq_true_2 in Hno.
Qed.

Lemma gc_record_good path data : path = gc_file_path /\ data = lit "hello" \/ path = LIFECYCLE_CONFIG_PATH /\ data = lit "off" -> record_good (gc_file path data).
Proof.
  intros [[-> ->]|[-> ->]]; (split; [split|..]); try (vm_compute; reflexivity); try (vm_compute; split; congruence); try (vm_compute; congruence);
    repeat constructor; vm_compute; reflexivity.
Qed.

Lemma gc_stored path data : path = gc_file_path /\ data = lit "hello" \/ path = LIFECYCLE_CONFIG_PATH /\ data = lit "off" -> stored_file gc_content path data.
Proof.
  intros Hp. exists (gc_file path data), [data], (z2b 0). pose proof (gc_record_good _ _ Hp) as Hgood.
  destruct Hp as [[-> ->]|[-> ->]]; (split; [vm_compute; reflexivity|]); (split; [done|]); (split; [done|]); (split; [done|]); (split; [done|]);
    intros d ->%list_elem_of_singleton; eexists; (split; [vm_compute; reflexivity|]); by split.
Qed.

Lemma gc_prepares s m n : engine_ok s m gc_content -> engine_room n s -> prepare_gc 2 [] s = Some (Ok tt, s).
Proof.
  intros E Hr. destruct (gc_no_versions s m E) as [Hs _].
  assert (Hread : read_file_buffered s LIFECYCLE_CONFIG_PATH = Ok (lit "off")).
  { apply (stored_reads n); [done|by vm_compute|]. rewrite (engine_content_ok s m gc_content E). apply gc_stored. by right. }
  assert (Hcfg : load_lifecycle_config s = Ok {| lc_snapshot_writes_enabled := false; lc_snapshot_retention := {| ret_auto_months := 0; ret_manual_months := 0 |} |})
    by (unfold load_lifecycle_config; by rewrite Hread).
  enough (runs (prepare_gc 2 []) s (fun _ s' => s' = s)) as ([] & s' & -> & ->) by done.
  unfold prepare_gc, snapshot_writes_enabled. run. cbn [id]. rewrite Hcfg. apply (runs_lift _ false); [done|]. run. unfold drop_old_pre_gc. run. cbn [id].
  rewrite Hs. apply runs_ret. run. apply runs_ignore_err. unfold prune_expired_snapshots. run. cbn [id]. apply (runs_lift _ _ _ _ Hcfg). cbn [lc_snapshot_retention ret_auto_months ret_manual_months Z.eqb andb]. by run.
Qed.

(** Directories that are not links, with files below them. *)
Definition flat_version (hp : bytes * bytes) : bool :=
  match gc_content !! hp.1 with
  | Some st =>
    (negb (bool_decide (st_type st = DirectoryIndex)) || negb (zlen (st_value st) =? 32) && (b2z (st_version st) =? 0))
    && match node gc_content 1 st with
       | Some n => forallb (fun e => match EntryType_from_u8 (b2z (ce_entry_type e)) with Ok DirectoryIndex => false | _ => true end) (nd_children n)
       | None => true
       end
  | None => true
  end.

Lemma gc_root_ok : version_ok gc_content 1 gc_root.
Proof.
  assert (Hin : forall h p, reach gc_content 1 [(gc_root, lit "/")] h p -> (h, p) ∈ gc_known) by (apply forest_check; vm_compute; reflexivity).
  assert (Hflat : forall x, x ∈ gc_known -> flat_version x = true).
  { assert (Hall : forallb flat_version gc_known = true) by (vm_compute; reflexivity). rewrite forallb_forall in Hall.
    intros x Hx. by apply Hall, list_elem_of_In. }
  split.
  - assert (Hroot : st_type <$> gc_content !! gc_root = Some DirectoryIndex) by (vm_compute; reflexivity).
    apply fmap_Some in Hroot as (st & Hst & Hty). exists st. split; [exact Hst|exact (eq_sym Hty)].
  - intros h p st Hr%Hin%Hflat Hst Hty. unfold flat_version in Hr. cbn [fst] in Hr. rewrite Hst in Hr. apply andb_true_iff in Hr as [Hr _].
    rewrite bool_decide_eq_true_2 in Hr by done. cbn in Hr. apply andb_true_iff in Hr as [H1%negb_true_iff%Z.eqb_neq H2%Z.eqb_eq]. exact (conj H1 H2).
  - intros h p n e Hr%Hin%Hflat Hn He Hty. unfold flat_version in Hr. cbn [fst] in Hr. unfold node_at in Hn.
    destruct (gc_content !! h) as [st|]; [|done]. cbn in Hn. rewrite Hn in Hr. apply andb_true_iff in Hr as [_ Hr].
    rewrite forallb_forall in Hr. apply list_elem_of_In in He. apply Hr in He. by rewrite Hty in He.
Qed.

Lemma gc_content_size : size gc_content = 7%nat.
Proof. vm_compute. reflexivity. Qed.


