(* ===== verification/RateLimiter.v ===== *)
(** The sliding-window rate limiter (src/aeordb-lib/src/auth/rate_limiter.rs): the
    decisions it takes are those of a limiter that keeps every accepted request, so
    no key gets more than the limit in any window, and a refused caller that waits
    as long as it is told to is accepted.  An [Instant] is its nanoseconds. *)
From S2P Require Import Prelude Sorted.

Local Open Scope Z_scope.

Record RateLimiter := {
  rl_windows : gmap bytes (list Z);
  rl_max_requests : Z;
  rl_window_seconds : Z;
}.

Definition RateLimiter_new (max_requests window_seconds : Z) : RateLimiter :=
  {| rl_windows := ∅; rl_max_requests := max_requests; rl_window_seconds := window_seconds |}.

Definition default_config : RateLimiter := RateLimiter_new 30 60.

Definition set_windows (windows : gmap bytes (list Z)) (s : RateLimiter) : RateLimiter :=
  {| rl_windows := windows; rl_max_requests := rl_max_requests s; rl_window_seconds := rl_window_seconds s |}.

(** [Result<(), RateLimitError>]. *)
Inductive RateDecision := Allowed | Limited (retry_after_seconds : Z).

Definition NANOS : Z := 1000000000.

(** [Instant::duration_since], which saturates at zero. *)
Definition duration_since (now earlier : Z) : Z := saturating_sub now earlier.

(** [Option<Instant>] compared: [None] first. *)
Definition time_le (a b : option Z) : bool :=
  match a, b with None, _ => true | Some _, None => false | Some a, Some b => a <=? b end.

Section RateLimiter.
Context `{KeyOrder}.

Definition evict_oldest (windows : gmap bytes (list Z)) : gmap bytes (list Z) :=
  if 100000 <? Z.of_nat (size windows) then
    let entries := (fun k => (k, last (default [] (windows !! k)))) <$> keys_iter windows in
    let entries := sort_by (fun a b => time_le a.2 b.2) entries in
    foldl (fun windows key => delete key windows) windows (take (Z.to_nat 10000) entries).*1
  else windows.

(** [now] is the clock's reading.  A limit of zero requests panics on a key with no
    timestamps. *)
Definition check_rate_limit (now : Z) (key : bytes) (s : RateLimiter) : res RateDecision * RateLimiter :=
  let window_duration := rl_window_seconds s * NANOS in
  let windows := evict_oldest (rl_windows s) in
  let timestamps := default [] (windows !! key) in
  let timestamps := filter (fun timestamp => duration_since now timestamp < window_duration) timestamps in
  if rl_max_requests s <=? zlen timestamps then
    let s' := set_windows (<[key := timestamps]> windows) s in
    match timestamps with
    | [] => (Panic, s')
    | oldest :: _ =>
      let elapsed := duration_since now oldest in
      let retry_after := saturating_sub (rl_window_seconds s) (elapsed / NANOS) in
      (Ok (Limited (Z.max retry_after 1)), s')
    end
  else (Ok Allowed, set_windows (<[key := timestamps ++ [now]]> windows) s).

Definition reset (key : bytes) (s : RateLimiter) : RateLimiter := set_windows (delete key (rl_windows s)) s.
Definition reset_all (s : RateLimiter) : RateLimiter := set_windows ∅ s.

(** A sequence of requests, each with the time it arrives. *)
Fixpoint run_checks (reqs : list (Z * bytes)) (s : RateLimiter) : res (list RateDecision) * RateLimiter :=
  match reqs with
  | [] => (Ok [], s)
  | (now, key) :: reqs =>
    match check_rate_limit now key s with
    | (Ok d, s) => let '(r, s) := run_checks reqs s in (ds ← r; Ok (d :: ds), s)
    | (Err e, s) => (Err e, s)
    | (Panic, s) => (Panic, s)
    end
  end.

(** ** The reference *)

(** Every accepted request is remembered; one is accepted while fewer than the limit
    were accepted for its key within the window. *)
Definition recent (window now : Z) (key : bytes) (accepted : list (Z * bytes)) : list (Z * bytes) :=
  filter (fun a => a.2 = key /\ duration_since now a.1 < window) accepted.

Fixpoint reference (limit window : Z) (reqs accepted : list (Z * bytes)) : list bool * list (Z * bytes) :=
  match reqs with
  | [] => ([], accepted)
  | (now, key) :: reqs =>
    let ok := zlen (recent window now key accepted) <? limit in
    let '(oks, accepted) := reference limit window reqs (if ok then accepted ++ [(now, key)] else accepted) in
    (ok :: oks, accepted)
  end.

Definition allowed (d : RateDecision) : bool := match d with Allowed => true | Limited _ => false end.

(** ** Invariant *)

(** At time [last] the limiter's windows hold of the accepted requests at least those
    still within the window, nothing later than [last], and no more than the limit. *)
Record limiter_ok (last : Z) (accepted : list (Z * bytes)) (s : RateLimiter) : Prop := {
  lo_recent : forall now key, last <= now ->
    filter (fun t => duration_since now t < rl_window_seconds s * NANOS) (default [] (rl_windows s !! key))
    = (recent (rl_window_seconds s * NANOS) now key accepted).*1;
  lo_past : forall key, Forall (fun t => t <= last) (default [] (rl_windows s !! key));
  lo_limit : forall key, zlen (default [] (rl_windows s !! key)) <= rl_max_requests s;
}.

Lemma evict_few windows : Z.of_nat (size windows) <= 100000 -> evict_oldest windows = windows.
Proof. intros Hs. unfold evict_oldest. by rewrite (proj2 (Z.ltb_ge _ _)) by lia. Qed.

Lemma filter_mono_time window t t' (l : list Z) : t <= t' ->
  filter (fun x => duration_since t' x < window) (filter (fun x => duration_since t x < window) l)
  = filter (fun x => duration_since t' x < window) l.
Proof.
  intros Ht. rewrite list_filter_filter. apply filter_ext_in. intros x _. unfold duration_since, saturating_sub. lia.
Qed.

Lemma recent_snoc window now key accepted t k :
  recent window now key (accepted ++ [(t, k)])
  = recent window now key accepted ++ (if decide (k = key /\ duration_since now t < window) then [(t, k)] else []).
Proof. unfold recent. rewrite filter_app, filter_cons. cbn [fst snd]. by destruct (decide _). Qed.

Lemma zlen_fmap_fst {A B} (l : list (A * B)) : zlen l.*1 = zlen l.
Proof. unfold zlen. by rewrite length_fmap. Qed.

(** What a check does, from a good state with few keys. *)
Section Check.
Context (last now : Z) (key : bytes) (accepted : list (Z * bytes)) (s : RateLimiter).
Context (Hok : limiter_ok last accepted s) (Hnow : last <= now) (Hmax : 0 < rl_max_requests s)
  (Hfew : Z.of_nat (size (rl_windows s)) <= 100000).

Let window := rl_window_seconds s * NANOS.
Let kept := filter (fun t => duration_since now t < window) (default [] (rl_windows s !! key)).

Lemma kept_recent : zlen kept = zlen (recent window now key accepted).
Proof. unfold kept. by rewrite (lo_recent _ _ _ Hok), zlen_fmap_fst. Qed.

Lemma kept_past : Forall (fun t => t <= now) kept.
Proof.
  apply Forall_forall. intros t. unfold kept. rewrite list_elem_of_filter. intros [_ Ht].
  pose proof (lo_past _ _ _ Hok key) as Hp. rewrite Forall_forall in Hp. specialize (Hp _ Ht). lia.
Qed.

Lemma kept_limit : zlen kept <= rl_max_requests s.
Proof.
  etransitivity; [|apply (lo_limit _ _ _ Hok key)]. unfold kept, zlen. apply inj_le, length_filter.
Qed.

(** The state with [key]'s window replaced. *)
Lemma window_ok l acc : Forall (fun t => t <= now) l -> zlen l <= rl_max_requests s ->
  (forall t, now <= t -> filter (fun x => duration_since t x < window) l = (recent window t key acc).*1) ->
  (forall t k, k <> key -> recent window t k acc = recent window t k accepted) ->
  limiter_ok now acc (set_windows (<[key := l]> (rl_windows s)) s).
Proof.
  intros Hp Hl Hk Hother. destruct Hok as [Hrec Hpast Hlim]. split; cbn [rl_windows rl_max_requests rl_window_seconds set_windows].
  - intros t k Ht. destruct (decide (k = key)) as [->|Hne].
    + rewrite lookup_insert_eq. cbn [default]. by apply Hk.
    + rewrite lookup_insert_ne, Hother by done. apply Hrec. lia.
  - intros k. destruct (decide (k = key)) as [->|Hne]; [by rewrite lookup_insert_eq|].
    rewrite lookup_insert_ne by done. eapply Forall_impl; [apply Hpast|]. simpl. lia.
  - intros k. destruct (decide (k = key)) as [->|Hne]; [by rewrite lookup_insert_eq|]. by rewrite lookup_insert_ne.
Qed.

Lemma kept_at t : now <= t -> filter (fun x => duration_since t x < window) kept = (recent window t key accepted).*1.
Proof. intros Ht. unfold kept. rewrite filter_mono_time by done. apply (lo_recent _ _ _ Hok). lia. Qed.

Lemma check_allowed : zlen (recent window now key accepted) < rl_max_requests s ->
  exists s', check_rate_limit now key s = (Ok Allowed, s') /\ limiter_ok now (accepted ++ [(now, key)]) s' /\
    s' = set_windows (<[key := kept ++ [now]]> (rl_windows s)) s.
Proof.
  intros Hr. unfold check_rate_limit. rewrite evict_few by done. fold window kept. rewrite (proj2 (Z.leb_gt _ _)) by (rewrite kept_recent; lia).
  eexists. split; [done|]. split; [|done]. apply window_ok.
  - apply Forall_app. split; [apply kept_past|by repeat constructor].
  - rewrite zlen_app, kept_recent, zlen_cons, zlen_nil. lia.
  - intros t Ht. rewrite filter_app, kept_at, recent_snoc, fmap_app, filter_cons by done. f_equal. destruct (decide (_ < _)) as [Hd|Hd].
    + by rewrite decide_True.
    + by rewrite decide_False by tauto.
  - intros t k Hne. rewrite recent_snoc, decide_False, app_nil_r by naive_solver. done.
Qed.

Lemma check_limited : rl_max_requests s <= zlen (recent window now key accepted) ->
  exists oldest rest s', kept = oldest :: rest /\ zlen kept = rl_max_requests s /\
    check_rate_limit now key s
    = (Ok (Limited (Z.max (saturating_sub (rl_window_seconds s) (duration_since now oldest / NANOS)) 1)), s') /\
    limiter_ok now accepted s' /\ s' = set_windows (<[key := kept]> (rl_windows s)) s.
Proof.
  intros Hr. pose proof kept_limit as Hl. pose proof kept_recent as Hk. unfold check_rate_limit. rewrite evict_few by done. fold window kept.
  rewrite (proj2 (Z.leb_le _ _)) by lia. destruct kept as [|oldest rest] eqn:E; [unfold zlen in *; simpl in *; lia|].
  do 3 eexists. split; [done|]. split; [lia|]. split; [done|]. split; [|done]. rewrite <- E. apply window_ok; [|rewrite E; lia| |done].
  - apply kept_past.
  - apply kept_at.
Qed.
End Check.

(** ** Sequences of requests *)

(** Times do not go back. *)
Fixpoint times_from (last : Z) (reqs : list (Z * bytes)) : Prop :=
  match reqs with [] => True | (now, _) :: reqs => last <= now /\ times_from now reqs end.

Fixpoint end_time (last : Z) (reqs : list (Z * bytes)) : Z :=
  match reqs with [] => last | (now, _) :: reqs => end_time now reqs end.

Lemma times_from_app r1 : forall last r2, times_from last (r1 ++ r2) <-> times_from last r1 /\ times_from (end_time last r1) r2.
Proof. induction r1 as [|[now k] r1 IH]; intros last r2; simpl; [tauto|]. rewrite IH. tauto. Qed.

Lemma run_checks_app r1 : forall r2 s, run_checks (r1 ++ r2) s =
  match run_checks r1 s with
  | (Ok ds, s) => let '(r, s) := run_checks r2 s in (ds' ← r; Ok (ds ++ ds'), s)
  | rs => rs
  end.
Proof.
  induction r1 as [|[now k] r1 IH]; intros r2 s; simpl.
  - by destruct (run_checks r2 s) as [[] ?].
  - destruct (check_rate_limit now k s) as [[d|e|] s1]; [|done..]. rewrite IH.
    destruct (run_checks r1 s1) as [[ds|e|] s2]; [|done..]. cbn [mbind res_bind]. by destruct (run_checks r2 s2) as [[] ?].
Qed.

(** A run from a good state: it decides like the reference, keeps the state good and
    the windows of other keys. *)
Record ran (last : Z) (reqs accepted : list (Z * bytes)) (s : RateLimiter) (ds : list RateDecision) (s' : RateLimiter) : Prop := {
  ran_run : run_checks reqs s = (Ok ds, s');
  ran_decisions : allowed <$> ds = (reference (rl_max_requests s) (rl_window_seconds s * NANOS) reqs accepted).1;
  ran_ok : limiter_ok (end_time last reqs) (reference (rl_max_requests s) (rl_window_seconds s * NANOS) reqs accepted).2 s';
  ran_max : rl_max_requests s' = rl_max_requests s;
  ran_window : rl_window_seconds s' = rl_window_seconds s;
  ran_keys : dom (rl_windows s') ⊆ dom (rl_windows s) ∪ list_to_set reqs.*2;
  ran_other : forall k, k ∉ reqs.*2 -> rl_windows s' !! k = rl_windows s !! k;
}.

Lemma few_windows (K : gset bytes) s : dom (rl_windows s) ⊆ K -> Z.of_nat (size K) <= 100000 ->
  Z.of_nat (size (rl_windows s)) <= 100000.
Proof. intros Hd Hk. apply subseteq_size in Hd. rewrite size_dom in Hd. lia. Qed.

Lemma run_checks_ok (K : gset bytes) : Z.of_nat (size K) <= 100000 -> forall reqs last accepted s,
  limiter_ok last accepted s -> times_from last reqs -> 0 < rl_max_requests s ->
  dom (rl_windows s) ∪ list_to_set reqs.*2 ⊆ K -> exists ds s', ran last reqs accepted s ds s'.
Proof.
  intros HK reqs. induction reqs as [|[now key] reqs IH]; intros last accepted s Hok Ht Hmax Hd.
  { exists [], s. split; try done. set_solver. }
  destruct Ht as [Hnow Ht]. assert (Hfew := few_windows K s ltac:(set_solver) HK).
  assert (Hstep : exists d s1 l, check_rate_limit now key s = (Ok d, s1) /\ s1 = set_windows (<[key := l]> (rl_windows s)) s /\
    allowed d = (zlen (recent (rl_window_seconds s * NANOS) now key accepted) <? rl_max_requests s) /\
    limiter_ok now (if allowed d then accepted ++ [(now, key)] else accepted) s1).
  { destruct (Z.ltb_spec (zlen (recent (rl_window_seconds s * NANOS) now key accepted)) (rl_max_requests s)) as [Hl|Hl].
    - destruct (check_allowed last now key accepted s Hok Hnow Hfew Hl) as (s1 & E & Hok1 & Es).
      eexists Allowed, s1, _. split_and!; [exact E|exact Es|done|exact Hok1].
    - destruct (check_limited last now key accepted s Hok Hnow Hmax Hfew Hl) as (o & r & s1 & _ & _ & E & Hok1 & Es).
      eexists _, s1, _. split_and!; [exact E|exact Es|done|exact Hok1]. }
  destruct Hstep as (d & s1 & l & E & -> & Hd' & Hok1). cbn [fmap list_fmap snd] in Hd.
  destruct (IH now _ _ Hok1 Ht Hmax) as (ds & s' & [Hrun Hdec Hok' Hm Hw Hkeys Hother]).
  { cbn [rl_windows set_windows]. rewrite dom_insert. set_solver. }
  exists (d :: ds), s'. cbn [rl_windows rl_max_requests rl_window_seconds set_windows] in *. split; try done.
  - simpl. by rewrite E, Hrun.
  - rewrite fmap_cons, Hdec. cbn [reference]. rewrite <- Hd'. by destruct (reference _ _ reqs _).
  - simpl. rewrite <- Hd'. by destruct (reference _ _ reqs _) as [? ?] eqn:Er.
  - rewrite dom_insert in Hkeys. clear -Hkeys. set_solver.
  - intros k Hk. cbn [fmap list_fmap snd] in Hk. rewrite Hother by set_solver. apply lookup_insert_ne. set_solver.
Qed.

Lemma new_ok max window last : 0 < max -> limiter_ok last [] (RateLimiter_new max window).
Proof. intros Hm. split; intros; simpl; rewrite ?lookup_empty; [done|constructor|unfold zlen; simpl; lia]. Qed.

(** ** Theorems *)


Lemma reference_prefix limit window : forall reqs accepted oks acc,
  reference limit window reqs accepted = (oks, acc) -> exists new, acc = accepted ++ new.
Proof.
  induction reqs as [|[now key] reqs IH]; intros accepted oks acc E; simpl in E; [exists []; simplify_eq; by rewrite app_nil_r|].
  destruct (reference _ _ reqs _) as [oks' acc'] eqn:Er. simplify_eq. apply IH in Er as [new ->].
  destruct (_ <? _); [|by exists new]. exists ((now, key) :: new). by rewrite <- app_assoc.
Qed.

(** Requests of a key accepted so far, in order. *)
Definition accepted_times (key : bytes) (accepted : list (Z * bytes)) : list Z :=
  (filter (fun a => a.2 = key) accepted).*1.

(** A new request was accepted with fewer than the limit in the window: the one
    accepted [limit] before it is outside. *)
Definition spaced (limit window : Z) (times : list Z) : Prop :=
  forall i a b, times !! i = Some a -> times !! (i + Z.to_nat limit)%nat = Some b -> window <= b - a.

Lemma recent_times window now key accepted :
  (recent window now key accepted).*1 = filter (fun t => duration_since now t < window) (accepted_times key accepted).
Proof.
  unfold recent, accepted_times. rewrite filter_fmap, list_filter_filter. f_equal. apply filter_ext_in. simpl. tauto.
Qed.

Lemma spaced_snoc limit window times now : 0 < limit -> spaced limit window times ->
  StronglySorted Z.le times -> Forall (fun t => t <= now) times ->
  zlen (filter (fun t => duration_since now t < window) times) < limit -> spaced limit window (times ++ [now]).
Proof.
  intros Hl Hs Hsort Hp Hf i a b Ha Hb. apply lookup_app_Some in Hb as [Hb|[Hge Hb]].
  { rewrite lookup_app_l in Ha by (apply lookup_lt_Some in Hb; lia). by eapply Hs. }
  assert (Hi : (i + Z.to_nat limit)%nat = length times /\ b = now).
  { apply list_lookup_singleton_Some in Hb as [? ->]. split; [lia|done]. }
  destruct Hi as [Hi ->]. rewrite lookup_app_l in Ha by lia. destruct (Z.lt_ge_cases (now - a) window) as [Hw|]; [|done]. exfalso.
  rewrite <- (take_drop i times) in Hf, Hsort. rewrite filter_app, zlen_app in Hf.
  rewrite (filter_all _ (drop i times)) in Hf.
  - pose proof (zlen_nonneg (filter (fun t => duration_since now t < window) (take i times))).
    unfold zlen in *. rewrite length_drop in Hf. lia.
  - intros t Ht. rewrite Forall_forall in Hp. assert (Hin : t ∈ times) by (rewrite <- (take_drop i times); set_solver).
    specialize (Hp _ Hin). assert (Hat : a <= t).
    { rewrite (drop_S times a i Ha) in Ht, Hsort. apply elem_of_cons in Ht as [->|Ht]; [lia|].
      apply StronglySorted_app_iff in Hsort as (_ & Hsort & _). apply StronglySorted_inv in Hsort as [_ Hall].
      rewrite Forall_forall in Hall. by apply Hall. }
    unfold duration_since, saturating_sub. pose proof (Hp : t <= now). lia.
Qed.

(** The requests that were allowed. *)
Definition granted (reqs : list (Z * bytes)) (oks : list bool) : list (Z * bytes) :=
  (filter (fun x => x.2 = true) (zip reqs oks)).*1.

Record history_ok (limit window last : Z) (accepted : list (Z * bytes)) : Prop := {
  ho_spaced : forall key, spaced limit window (accepted_times key accepted);
  ho_sorted : forall key, StronglySorted Z.le (accepted_times key accepted);
  ho_past : forall key, Forall (fun t => t <= last) (accepted_times key accepted);
}.

Lemma accepted_times_snoc key accepted now k :
  accepted_times key (accepted ++ [(now, k)]) = accepted_times key accepted ++ (if decide (k = key) then [now] else []).
Proof. unfold accepted_times. rewrite filter_app, filter_cons, fmap_app. cbn [snd]. by destruct (decide (k = key)). Qed.

Lemma history_later limit window last now accepted : last <= now -> history_ok limit window last accepted ->
  history_ok limit window now accepted.
Proof. intros Hn [Hs Hsort Hp]. split; [done..|]. intros key. eapply Forall_impl; [apply Hp|]. simpl. lia. Qed.

Lemma history_snoc limit window now key accepted : 0 < limit -> history_ok limit window now accepted ->
  zlen (recent window now key accepted) < limit -> history_ok limit window now (accepted ++ [(now, key)]).
Proof.
  intros Hl [Hs Hsort Hp] Hr. split; intros k; rewrite accepted_times_snoc; destruct (decide (key = k)) as [<-|]; rewrite ?app_nil_r; try done.
  - apply spaced_snoc; [done..|]. by rewrite <- recent_times, zlen_fmap_fst.
  - apply StronglySorted_app_iff. split_and!; [done|repeat constructor|]. intros a b Ha Hb.
    specialize (Hp key). rewrite Forall_forall in Hp. apply list_elem_of_singleton in Hb as ->. by apply Hp.
  - apply Forall_app. split; [done|]. repeat constructor. lia.
Qed.

Lemma reference_history limit window : 0 < limit -> forall reqs last accepted,
  times_from last reqs -> history_ok limit window last accepted ->
  let '(oks, acc) := reference limit window reqs accepted in
  acc = accepted ++ granted reqs oks /\ history_ok limit window (end_time last reqs) acc.
Proof.
  intros Hl. induction reqs as [|[now key] reqs IH]; intros last accepted Ht Hh; simpl; [by rewrite app_nil_r|].
  destruct Ht as [Hn Ht]. pose proof (history_later _ _ _ _ _ Hn Hh) as Hh'.
  destruct (Z.ltb_spec (zlen (recent window now key accepted)) limit) as [Hr|Hr].
  - specialize (IH now _ Ht (history_snoc _ _ _ _ _ Hl Hh' Hr)). destruct (reference _ _ reqs _) as [oks acc].
    destruct IH as [-> IH]. split; [|done]. rewrite <- app_assoc. done.
  - specialize (IH now _ Ht Hh'). by destruct (reference _ _ reqs _) as [oks acc].
Qed.

(** No key gets more than the limit within a window: of the requests allowed for a
    key, the one that comes [max_requests] after another comes at least a window
    later. *)
Theorem rate_limit_window max_requests window_seconds reqs start ds s key :
  0 < max_requests -> times_from start reqs -> Z.of_nat (size (list_to_set reqs.*2 : gset bytes)) <= 100000 ->
  run_checks reqs (RateLimiter_new max_requests window_seconds) = (Ok ds, s) ->
  spaced max_requests (window_seconds * NANOS) (accepted_times key (granted reqs (allowed <$> ds))).
Proof.
  intros Hm Ht HK Hrun. destruct (run_checks_ok (list_to_set reqs.*2) HK reqs start [] (RateLimiter_new max_requests window_seconds))
    as (ds' & s' & [Hrun' Hdec _ _ _ _ _]); [by apply new_ok|done|done|cbn [rl_windows RateLimiter_new]; rewrite dom_empty_L; set_solver|].
  rewrite Hrun in Hrun'. simplify_eq. cbn [rl_max_requests rl_window_seconds RateLimiter_new] in Hdec.
  pose proof (reference_history max_requests (window_seconds * NANOS) Hm reqs start [] Ht) as Hh.
  destruct (reference _ _ reqs []) as [oks acc]. rewrite Hdec. destruct Hh as [Hacc Hh].
  - split; intros k; [intros i a b Ha; by destruct i|constructor..].
  - cbn [app fst] in *. subst acc. apply Hh.
Qed.

Lemma window_expired s now oldest now' r :
  oldest <= now -> now + r * NANOS <= now' ->
  r = Z.max (saturating_sub (rl_window_seconds s) (duration_since now oldest / NANOS)) 1 ->
  rl_window_seconds s * NANOS <= duration_since now' oldest.
Proof.
  intros Ho Hn ->. unfold duration_since, saturating_sub, NANOS in *.
  pose proof (Z.mul_div_le (Z.max 0 (now - oldest)) 1000000000 ltac:(lia)). lia.
Qed.

(** A caller refused with a time to wait is allowed after waiting that long, whatever
    requests other keys make in between. *)
Theorem rate_limit_retry max_requests window_seconds reqs1 now key reqs2 now' start ds1 s1 r s2 ds2 s3 :
  0 < max_requests -> times_from start (reqs1 ++ (now, key) :: reqs2 ++ [(now', key)]) ->
  Z.of_nat (size (list_to_set (reqs1 ++ (now, key) :: reqs2).*2 : gset bytes)) <= 100000 -> key ∉ reqs2.*2 ->
  run_checks reqs1 (RateLimiter_new max_requests window_seconds) = (Ok ds1, s1) ->
  check_rate_limit now key s1 = (Ok (Limited r), s2) ->
  run_checks reqs2 s2 = (Ok ds2, s3) -> now + r * NANOS <= now' ->
  exists s4, check_rate_limit now' key s3 = (Ok Allowed, s4).
Proof.
  intros Hm Ht HK Hkey Hrun1 Hcheck Hrun2 Hwait. set (K := list_to_set _ : gset bytes) in HK.
  apply times_from_app in Ht as [Ht1 [Hn Ht2]]. apply times_from_app in Ht2 as [Ht2 [Hn' _]].
  assert (HkK : key ∈ K /\ list_to_set reqs1.*2 ⊆ K /\ list_to_set reqs2.*2 ⊆ K)
    by (subst K; rewrite fmap_app, fmap_cons, list_to_set_app_L; set_solver). destruct HkK as (Hk & HK1 & HK2).
  destruct (run_checks_ok K HK reqs1 start [] (RateLimiter_new max_requests window_seconds))
    as (? & ? & [Hr1 _ Hok1 Hm1 Hw1 Hd1 _]); [by apply new_ok|done|done|simpl; rewrite dom_empty_L; set_solver|].
  rewrite Hrun1 in Hr1. injection Hr1 as <- <-. simpl in Hm1, Hw1, Hd1. rewrite dom_empty_L in Hd1. set (acc := (reference _ _ reqs1 []).2) in *.
  assert (Hfew1 := few_windows K s1 ltac:(set_solver) HK).
  destruct (Z.lt_ge_cases (zlen (recent (rl_window_seconds s1 * NANOS) now key acc)) (rl_max_requests s1)) as [Hl|Hl].
  { destruct (check_allowed _ now key acc s1 Hok1 Hn Hfew1 Hl) as (? & E & _). by rewrite E in Hcheck. }
  destruct (check_limited _ now key acc s1 Hok1 Hn ltac:(lia) Hfew1 Hl) as (oldest & rest & s2' & Hkept & Hlen & E & Hok2 & Es2).
  pose proof (kept_past _ now key acc s1 Hok1 Hn) as Hpast. rewrite Hkept in Hpast, Hlen, Es2. apply Forall_cons in Hpast as [Hold _].
  rewrite E in Hcheck. injection Hcheck as <- <-. subst s2'. set (s2 := set_windows _ s1) in *.
  destruct (run_checks_ok K HK reqs2 now acc s2) as (? & ? & [Hr2 _ Hok3 Hm3 Hw3 Hd3 Hother]);
    [done|done|simpl; lia|simpl; rewrite dom_insert; set_solver|]. rewrite Hrun2 in Hr2. injection Hr2 as <- <-.
  simpl in Hm3, Hw3, Hd3. rewrite dom_insert in Hd3. specialize (Hother key Hkey). simpl in Hother. rewrite lookup_insert_eq in Hother.
  pose proof (window_expired s1 now oldest now' _ Hold Hwait eq_refl) as Hexp.
  edestruct (check_allowed _ now' key _ s3 Hok3 Hn') as (s4 & E4 & _); [|  |by exists s4].
  - apply (few_windows K); [clear -Hd3 Hd1 Hk HK1 HK2; set_solver|done].
  - rewrite <- zlen_fmap_fst, <- (lo_recent _ _ _ Hok3) by done. rewrite Hother, Hm3, Hw3. cbn [from_option id].
    rewrite filter_cons, decide_False by lia. pose proof (length_filter (fun t => duration_since now' t < rl_window_seconds s1 * NANOS) rest).
    rewrite zlen_cons in Hlen. unfold zlen in *. lia.
Qed.
End RateLimiter.

(** A limit of zero panics on the first request. *)
Lemma zero_limit_panics `{KeyOrder} window_seconds now key :
  (check_rate_limit now key (RateLimiter_new 0 window_seconds)).1 = Panic.
Proof. unfold check_rate_limit. rewrite evict_few by (simpl; rewrite map_size_empty; lia). cbn [rl_windows RateLimiter_new]. by rewrite lookup_empty. Qed.

(** ** Witnesses *)

Lemma with_first {A B} (p : A * B) a : p.1 = a -> p = (a, p.2).
Proof. by destruct p; intros; subst. Qed.

(** Two requests per ten seconds: the third is refused for seven seconds. *)
Definition sample_reqs : list (Z * bytes) :=
  [(0, lit "a"); (1 * NANOS, lit "b"); (2 * NANOS, lit "a"); (3 * NANOS, lit "a"); (11 * NANOS, lit "a")].


Lemma rate_limit_window_witness :
  spaced 2 (10 * NANOS) (accepted_times (lit "a") (granted sample_reqs [true; true; true; false; true])).
Proof.
  set (r := @run_checks map_keys sample_reqs (RateLimiter_new 2 10)).
  apply (@rate_limit_window map_keys 2 10 sample_reqs 0 (match r.1 with Ok ds => ds | _ => [] end) r.2 (lit "a"));
    [lia|simpl; unfold NANOS; lia|by vm_compute|by vm_compute].
Defined.

Lemma rate_limit_retry_witness :
  let s1 := (@run_checks map_keys [(0, lit "a"); (2 * NANOS, lit "a")] (RateLimiter_new 2 10)).2 in
  let c := @check_rate_limit map_keys (3 * NANOS) (lit "a") s1 in
  let s3 := (@run_checks map_keys [(4 * NANOS, lit "b")] c.2).2 in
  c.1 = Ok (Limited 7) /\ exists s4, @check_rate_limit map_keys (10 * NANOS) (lit "a") s3 = (Ok Allowed, s4).
Proof.
  intros s1 c s3. assert (Hc : c.1 = Ok (Limited 7)) by by vm_compute. split; [exact Hc|].
  apply (@rate_limit_retry map_keys 2 10 [(0, lit "a"); (2 * NANOS, lit "a")] (3 * NANOS) (lit "a") [(4 * NANOS, lit "b")] _ 0
    [Allowed; Allowed] s1 7 c.2 [Allowed] s3); [lia|simpl; unfold NANOS; lia|by vm_compute|by apply (bool_decide_eq_true_1 _); vm_compute| | | |by vm_compute].
  - apply with_first. by vm_compute.
  - apply with_first, Hc.
  - apply with_first. by vm_compute.
Defined.
